(* ===== verification/_CoqProject ===== *)
-Q . S2P
Prelude.v
Threads.v
GoLib.v
Replay.v
MagicHeader.v
Imitate.v
Conformance.v
AllowedIPs.v
AddrBits.v
Routing.v
RoutingTable.v
RoutingInsert.v
RoutingRemove.v
RoutingSpec.v
QUICInitial.v
Obf.v
Tai64n.v
RateLimiter.v
Crypto.v
Cookie.v
NoiseTypes.v
NetIP.v
DeviceState.v
Noise.v
Run.v
NoiseRuns.v
Agreement.v
Timers.v
Send.v
Receive.v
DeviceOps.v
Uapi.v
Frame.v
IndexSpec.v
IndexInv.v
NonceInv.v
NonceRace.v
KeysInv.v
System.v
Staging.v
Transport.v
Classify.v
ConfigInv.v
UapiSession.v
Delivery.v
Checksum.v
Gso.v
Gro.v
GroInv.v
GroSpec.v
GroTcp.v
GroTcpSpec.v
Bind.v
RouteListener.v
Pools.v
BindSpec.v
BindRecv.v
BindSend.v
Netstack.v
NetstackSpec.v
NetTun.v
TestDevices.v
SysTrace.v
TunLinux.v
TunSpec.v
RouteLife.v
TunBSD.v
TunNames.v
WinRing.v
TunWindows.v
WinSetup.v
Outline.v
Dialer.v
Roaming.v
PipeFile.v
PipeClose.v
PipeConn.v
PipeListener.v
UapiSock.v
Program.v
