(* ===== verification/Prelude.v ===== *)
(** * A verification library for amneziawg-go-proxy

    amneziawg-go is a user space implementation of the WireGuard tunnel that disguises
    its traffic: message types are drawn from configurable ranges, messages are padded,
    and decoy packets imitate QUIC, DNS, STUN or SIP. This library models the part of
    the program that decides what is sent, accepted and delivered, and proves what makes
    it correct. Everything is executable; the witnesses of the theorems run the model.

    ** The program and the files

    A device (src/device) reads packets from a TUN device, finds the peer by the
    destination address, gives the packet a nonce, encrypts it and sends it through a
    bind; what the bind receives is classified, decrypted, checked and written to the
    TUN device. Handshake messages create the keys. A text protocol configures it.

    - GoLib: what the code uses of the Go library (strconv, hex, base64, entropy, time).
      Threads: lists of goroutines, counted by where they are, for the step relations.
    - Replay (src/replay/replay.go): the sliding window of accepted counters.
    - MagicHeader (magic-header.go): the ranges of message types.
    - Imitate, Conformance (obf_imitate.go): the writers of imitated padding and junk,
      and what a reader of DNS, STUN or SIP makes of it.
    - AllowedIPs (allowedips.go): the routing trie as a store of nodes with parent
      pointers; AddrBits, Routing, RoutingTable, RoutingInsert, RoutingRemove and
      RoutingSpec: its refinement to a map of prefixes.
    - QUICInitial (obf_imitate_quic.go), Obf (obf.go, obf_*.go): decoy packets.
    - Tai64n (src/tai64n), RateLimiter (src/ratelimiter), Crypto and Cookie
      (noise-helpers.go, cookie.go), NoiseTypes (noise-types.go and the message formats
      of noise-protocol.go), NetIP (net/netip as the code uses it).
    - DeviceState (device.go, peer.go, keypair.go, constants.go): the records of device,
      peer, handshake, keypair, timer and queue, the world a handler runs in and its
      monad. Objects that the program shares by address are shared by location here.
    - Noise (noise-protocol.go, indextable.go, keypair.go), Timers (timers.go), Send
      (send.go), Receive (receive.go), DeviceOps (peer.go, device.go, tun.go, expired
      timers), Uapi (uapi.go): one definition per function or round of a routine.
      UapiSession: IpcHandle over a buffered connection, a session of requests.
    - Run, NoiseRuns: taking runs of handlers apart and executing them. Agreement:
      handshakes of two devices.
    - Frame: the interface between handlers and invariants. A handler is quiet when it
      leaves the part of the state alone that invariants speak of; the class
      DeviceInvariant lists what an invariant has to show of the few that do not, and
      the handlers built from them preserve it. IndexSpec and IndexInv (index table),
      NonceInv (nonces), KeysInv (peer map) and ConfigInv (configuration, closing) are
      instances. NonceRace: the nonce counter under concurrent routines.
    - System: events, steps and reachable states, and a run of two devices. Staging:
      termination of the send loops. Transport, Classify, Delivery: the data path.
    - Checksum (src/tun/checksum.go), Gso (virtio headers and splitting of
      src/tun/offload_linux.go, handleVirtioRead of src/tun/tun_linux.go), Gro (flow
      tables and coalescing of offload_linux.go): what a Linux TUN device does to packets
      on their way in and out. GroInv and GroSpec: the invariant of a coalesced batch.
      GroTcp, GroTcpSpec: the segments of its TCP streams.
    - Bind (src/conn/bind_std.go, gso_linux.go, sticky_linux.go, errors_linux.go,
      features_linux.go, mark_unix.go, controlfns*.go): the Linux bind, with buffers in a
      heap that batches alias; BindSpec, BindRecv, BindSend: its theorems. The parser of
      control messages is the class ControlParser.
    - RouteListener and RouteLife (src/device/sticky_linux.go, src/rwcancel): dropping
      cached sources when routes change, and the life of the routine that does it.
      Roaming (mobilequirks.go): pinning endpoints.
    - Pools (pools.go, channels.go): bounded pools and queues with counted writers as
      step relations.
    - Netstack, NetstackSpec (the resolver and dialer of src/tun/netstack/tun.go), NetTun
      (the device of that file: its channels, addresses, connections and pings).
      TestDevices (src/tun/tuntest, src/conn/bindtest): the devices of the tests.
    - SysTrace: a monad of system calls and a logic of the descriptors they leave open.
      TunLinux and TunSpec (src/tun/tun_linux.go, src/rwcancel), TunBSD and TunNames
      (tun_darwin.go, tun_freebsd.go, tun_openbsd.go), TunWindows (tun_windows.go): the
      TUN devices.
    - WinRing (src/conn/bind_windows.go): the rings of the Windows bind. WinSetup: the
      rest of that file, closing the Windows device, and src/conn/winrio.
    - PipeFile, PipeClose, PipeConn, PipeListener (src/ipc/namedpipe): overlapped files
      with deadlines, connections and the listener of the control pipe on Windows, as
      step relations. UapiSock (src/ipc/uapi_*.go): the control sockets.
    - Outline, Dialer (src/outline): the configuration that the proxy dialer generates, and
      the dialer.
    - Program (src/main.go, main_windows.go, src/device/logger.go): starting, putting
      itself in the background, and ending. Its module RecvNames (src/conn/conn.go): the
      names of receive functions in the log.

    ** What the theorems show

    - Sessions: both ends of a handshake derive the same keys, mirrored; replayed
      initiations are refused; the index table holds exactly the live handshakes and
      keypairs; erased peers cannot be reached; the peer map is keyed by static keys.
    - Nonces: no two packets are ever queued with the same keypair and nonce, in any run
      of the device and in any interleaving of up to 2^13 routines; the replay filter
      refines a set of accepted counters.
    - Data path: a datagram is classified as what it was built as; a packet arrives as
      it was read; only fresh, authenticated packets with a routed source are delivered;
      routing is longest-prefix match for every sequence of updates.
    - Obfuscation: imitated padding never touches the packet, never indexes out of range
      and reads as well-formed messages; chains and QUIC Initials round-trip; header
      ranges that were accepted are disjoint.
    - Offload: the checksum is that of RFC 1071 on machines of either byte order; large
      packets are split into correct datagrams with the payload in order; partial
      checksums are completed; coalescing keeps the datagrams of every UDP flow and the
      bytes of every TCP segment.
    - Sockets: a batch is merged and split into exactly its datagrams, in order and with
      their sources; a send falls back when a source or an offload fails; the Windows
      bind never touches a packet the kernel has not completed; a change of routes drops
      the sources it is about; the route listener never panics, and when it is cancelled
      it ends and closes what it opened.
    - TUN devices: a batch is written packet by packet with every datagram among what is
      written; the events that are reported; which descriptors are open after setting a
      device up or failing to; which names of interfaces are understood. Close of the
      Windows device waits for those who use the session and is not left waiting.
    - Control: a session of requests on a connection does what the same sequence of calls
      of IpcSet and IpcGet does. The handle of a named pipe is not used after it is
      released, Close ends, deadlines cut off what they should, dialling gives up in time,
      and a listener accounts for every pipe it opened. The process that is put in the
      background serves with the descriptors it was given.
    - Resources: pools are bounded and lose no wake-up, queues are FIFO and never written
      after they are closed. Names resolve to the first matching answer, and dialling
      tries the addresses in order. A generated configuration is read as its settings.
    - Limits: the rate limiter, cookies, timestamps, termination of loops.
    - Where the code does not do what it means to, the theorem says what it does: a full
      header range, negative tag lengths, junk bounds, transport padding that does not
      fit, the IPv6 length, rejected headers, too many segments, UDP checksums of zero,
      names with a final dot, ports without one family, events lost between two reads,
      descriptors left open, a second Open on Windows, requests that are sent before the
      answer to the last, a close request that is lost, stale virtio headers behind an
      invalid packet, sends on channels that Close closes (NetTun, WinSetup), deadlines of
      pings, checksums of the test packets, a process that goes to the background for
      ever, names with a number too large, route requests on a closed socket.

    ** Bounds, fuel and the environment

    A run of a handler that ends in [None] is a panic. Loops over lists and slices are
    structural. [walkFuel] (130) bounds walks down the trie, which is at most 128 deep
    (proved). [indexFuel] (1000) bounds the draws of an unused random index; the loop of
    the code draws for ever. The loops of SendStagedPackets have twice the length of the
    queue and four rounds, which is enough in every reachable state (proved). Decimal
    printing has twenty digits, enough for 64 bits. The checksum loop and the cutting of
    a payload have its length, and every round takes at least one byte (proved). Walks
    over control and routing messages have the length of what was read, which is enough
    when every message has a length; a message of length 0 makes the code loop for ever
    (proved). The resolver has one round for every answer it is given. A session and the
    scanner under it have the bytes that are left, each round taking at least one; a
    checksum is folded twice, which is enough for 32 bits (proved); OpenBSD has 256
    devices to try.

    The answers of the system (reads, writes, polls, ioctls, completions) are scripts or
    records of results, about which nothing is assumed unless a theorem says so.

    The clock, entropy, the answers of the bind and of the TUN device and the contents
    of pooled buffers are streams of the world, about which nothing is assumed. The
    cryptographic primitives are the class Primitives (and InitialCrypto for QUIC);
    theorems that need it assume PrimitiveLaws: lengths, that opening undoes sealing and
    that Diffie-Hellman commutes, all of which a sample instance satisfies. Handlers are
    atomic: the program serialises what they share by locks and queues; NonceRace treats
    the one counter that is not protected by a lock.

    ** Not modelled

    System calls themselves, the gVisor stack below src/tun/netstack (what it does with
    packets), the YAML library of the proxy dialer, the driver and the security
    descriptors of Windows, the text of log lines and of errors, and the examples: input
    and output, or code outside the sources. The socket options of platforms other than
    Linux and Windows are single calls of the system. Data races on fields without a lock,
    other than those above, are not modelled: a handler of the device is one step. *)
From Stdlib Require Export ZArith Lia.
From stdpp Require Export base tactics numbers gmap strings option list list_relations.
#[local] Open Scope Z_scope.

(** ** Fixed-width integers

    A Go [uintN] is a [Z] in [0, 2^N); an operation that may leave the range is
    written with the conversion that wraps it. *)

Definition u8 (x : Z) : Z := x mod 2 ^ 8.
Definition u16 (x : Z) : Z := x mod 2 ^ 16.
Definition u32 (x : Z) : Z := x mod 2 ^ 32.
Definition u64 (x : Z) : Z := x mod 2 ^ 64.
(** Two's complement conversion to a Go [int]/[int64]. *)
Definition i64 (x : Z) : Z := (x + 2 ^ 63) mod 2 ^ 64 - 2 ^ 63.

Definition is_u8 (x : Z) : Prop := 0 <= x < 2 ^ 8.
Definition is_u16 (x : Z) : Prop := 0 <= x < 2 ^ 16.
Definition is_u32 (x : Z) : Prop := 0 <= x < 2 ^ 32.
Definition is_u64 (x : Z) : Prop := 0 <= x < 2 ^ 64.

#[export] Instance is_u8_dec x : Decision (is_u8 x).
Proof. unfold is_u8. apply _. Defined.
#[export] Instance is_u16_dec x : Decision (is_u16 x).
Proof. unfold is_u16. apply _. Defined.
#[export] Instance is_u32_dec x : Decision (is_u32 x).
Proof. unfold is_u32. apply _. Defined.
#[export] Instance is_u64_dec x : Decision (is_u64 x).
Proof. unfold is_u64. apply _. Defined.

Lemma u8_range x : is_u8 (u8 x).
Proof. unfold is_u8, u8. apply Z.mod_pos_bound. lia. Qed.
Lemma u16_range x : is_u16 (u16 x).
Proof. unfold is_u16, u16. apply Z.mod_pos_bound. lia. Qed.
Lemma u32_range x : is_u32 (u32 x).
Proof. unfold is_u32, u32. apply Z.mod_pos_bound. lia. Qed.
Lemma u64_range x : is_u64 (u64 x).
Proof. unfold is_u64, u64. apply Z.mod_pos_bound. lia. Qed.

Lemma u8_small x : is_u8 x -> u8 x = x.
Proof. apply Z.mod_small. Qed.
Lemma u16_small x : is_u16 x -> u16 x = x.
Proof. apply Z.mod_small. Qed.
Lemma u32_small x : is_u32 x -> u32 x = x.
Proof. apply Z.mod_small. Qed.
Lemma u64_small x : is_u64 x -> u64 x = x.
Proof. apply Z.mod_small. Qed.
Lemma i64_small x : - 2 ^ 63 <= x < 2 ^ 63 -> i64 x = x.
Proof. intros H. unfold i64. rewrite Z.mod_small; lia. Qed.

(** Width facts are discharged by [auto with width] and rewriting by
    [autorewrite with width]. *)
Create HintDb width.
Create Rewrite HintDb width.
#[export] Hint Resolve u8_range u16_range u32_range u64_range : width.
#[export] Hint Rewrite u8_small u16_small u32_small u64_small i64_small
  using (unfold is_u8, is_u16, is_u32, is_u64 in *; lia) : width.

(** Unfolds the width predicates and calls [lia]. *)
Ltac width_lia := unfold is_u8, is_u16, is_u32, is_u64 in *; lia.

(** ** Masks and shifts as arithmetic *)

Lemma land_mask (n x : Z) : 0 <= n -> Z.land x (2 ^ n - 1) = x mod 2 ^ n.
Proof.
  intros Hn. replace (2 ^ n - 1) with (Z.ones n).
  - by apply Z.land_ones.
  - rewrite Z.ones_equiv. lia.
Qed.

Lemma shiftr_div (x n : Z) : 0 <= n -> Z.shiftr x n = x / 2 ^ n.
Proof. intros. by apply Z.shiftr_div_pow2. Qed.

(** ** Slices

    A Go slice is a list; [Z]-indexed accesses are checked, [None] standing for
    the run-time panic of an access out of range. *)

Section Slices.
Context {A : Type}.
Implicit Types (l src : list A) (i a b off : Z).

Definition len l : Z := Z.of_nat (length l).

Definition at_ l i : option A := if decide (0 <= i) then l !! Z.to_nat i else None.
Definition set_at l i (v : A) : option (list A) :=
  if decide (0 <= i < len l) then Some (<[Z.to_nat i := v]> l) else None.
(** [l[a:b]] *)
Definition slice l a b : option (list A) :=
  if decide (0 <= a <= b /\ b <= len l)
  then Some (take (Z.to_nat (b - a)) (drop (Z.to_nat a) l)) else None.
(** [copy(l[off:], src)]: bytes past the end of [l] are dropped. *)
Definition copy_at l off src : option (list A) :=
  if decide (0 <= off <= len l) then Some (list_inserts (Z.to_nat off) src l) else None.

Lemma len_nonneg l : 0 <= len l.
Proof. unfold len. lia. Qed.

Lemma at_Some l i x : l !! Z.to_nat i = Some x -> 0 <= i -> at_ l i = Some x.
Proof. intros H Hi. unfold at_. by rewrite decide_True. Qed.

Lemma set_at_Some l i v : 0 <= i < len l -> set_at l i v = Some (<[Z.to_nat i := v]> l).
Proof. intros H. unfold set_at. by rewrite decide_True. Qed.

Lemma slice_Some l a b :
  0 <= a <= b -> b <= len l ->
  slice l a b = Some (take (Z.to_nat (b - a)) (drop (Z.to_nat a) l)).
Proof. intros. unfold slice. by rewrite decide_True. Qed.

Lemma copy_at_Some l off src :
  0 <= off <= len l -> copy_at l off src = Some (list_inserts (Z.to_nat off) src l).
Proof. intros. unfold copy_at. by rewrite decide_True. Qed.

Lemma inserts_0 (l p : list A) : (length l <= length p)%nat -> list_inserts 0 l p = l ++ drop (length l) p.
Proof.
  intros H. rewrite <- (take_drop (length l) p) at 1.
  apply list_inserts_0_r. rewrite length_take. lia.
Qed.

Lemma slice_prefix l b : 0 <= b <= len l -> slice l 0 b = Some (take (Z.to_nat b) l).
Proof. intros. rewrite slice_Some by lia. by rewrite Z.sub_0_r, drop_0. Qed.

Lemma slice_suffix l a : 0 <= a <= len l -> slice l a (len l) = Some (drop (Z.to_nat a) l).
Proof.
  intros. rewrite slice_Some by lia. f_equal. apply take_ge.
  rewrite length_drop. unfold len. lia.
Qed.

Lemma slice_all l : slice l 0 (len l) = Some l.
Proof. pose proof (len_nonneg l). rewrite slice_suffix by lia. done. Qed.

Lemma slice_len l a b s : slice l a b = Some s -> len s = b - a.
Proof.
  unfold slice, len. case_decide; intros [= <-].
  rewrite length_take, length_drop. unfold len in *. lia.
Qed.

Lemma slice_mid (p q r : list A) n : n = len p + len q -> slice (p ++ q ++ r) (len p) n = Some q.
Proof.
  intros ->. rewrite slice_Some by (unfold len; rewrite ?length_app; lia). f_equal. unfold len.
  rewrite Nat2Z.id, drop_app_length. apply take_app_length'. lia.
Qed.

Lemma slice_prefix_app (p q : list A) : slice (p ++ q) 0 (len p) = Some p.
Proof. rewrite slice_prefix by (unfold len; rewrite length_app; lia). unfold len. by rewrite Nat2Z.id, take_app_length. Qed.
Lemma slice_app_l (p q : list A) a b s : slice p a b = Some s -> slice (p ++ q) a b = Some s.
Proof.
  unfold slice. destruct (decide _) as [Hd|]; [|done]. intros [= <-]. rewrite decide_True by (unfold len in *; rewrite length_app; lia). f_equal.
  rewrite drop_app_le, take_app_le by (unfold len in *; rewrite ?length_drop; lia). done.
Qed.
Lemma at_app_l (p q : list A) i x : at_ p i = Some x -> at_ (p ++ q) i = Some x.
Proof. unfold at_. case_decide; [|done]. apply lookup_app_l_Some. Qed.
Lemma copy_at_mid (p q q' r : list A) : len q' = len q -> copy_at (p ++ q ++ r) (len p) q' = Some (p ++ q' ++ r).
Proof.
  intros Hl. rewrite copy_at_Some by (unfold len; rewrite ?length_app; lia). f_equal. unfold len in *. rewrite Nat2Z.id.
  rewrite <- (Nat.add_0_r (length p)) at 1. rewrite list_inserts_app_r. f_equal. apply list_inserts_0_r. lia.
Qed.
End Slices.

#[export] Hint Resolve len_nonneg : width.

(** ** Results of fallible operations *)

Inductive result (A E : Type) : Type :=
| Ok (a : A)
| Err (e : E).
Arguments Ok {A E} a.
Arguments Err {A E} e.

#[export] Instance result_eq_dec {A E} `{EqDecision A, EqDecision E} : EqDecision (result A E).
Proof. solve_decision. Defined.

Lemma elem_of_mapM_Some {A B} (f : A -> option B) l k : mapM f l = Some k ->
  forall y, y ∈ k <-> exists x, x ∈ l /\ f x = Some y.
Proof.
  intros H%mapM_Some. intros y. induction H as [|x z l k Hx _ IH]; [set_solver|]. rewrite elem_of_cons, IH. split.
  - intros [-> |(w & ? & ?)]; [exists x|exists w]; set_solver.
  - intros (w & [-> |Hw]%elem_of_cons & Hy); [left; congruence|right; eauto].
Qed.

(** Statements about the values of a small range, by enumeration. *)
Lemma enum_range (P : Z -> Prop) lo n : Forall P (seqZ lo n) -> forall c, lo <= c < lo + n -> P c.
Proof. intros H c Hc. rewrite Forall_forall in H. apply H, elem_of_seqZ. lia. Qed.

(** ** Byte order

    [le_bytes n v] and [be_bytes n v] are the [n]-byte encodings that
    encoding/binary writes; [le_val] and [be_val] read them back. *)

Fixpoint le_bytes (n : nat) (v : Z) : list Z :=
  match n with O => [] | S n' => v mod 256 :: le_bytes n' (v / 256) end.
Fixpoint le_val (l : list Z) : Z :=
  match l with [] => 0 | b :: l' => b + 256 * le_val l' end.
Definition be_bytes (n : nat) (v : Z) : list Z := reverse (le_bytes n v).
Definition be_val (l : list Z) : Z := le_val (reverse l).

Lemma length_le_bytes n v : length (le_bytes n v) = n.
Proof. revert v. induction n; intros; simpl; auto. Qed.
Lemma length_be_bytes n v : length (be_bytes n v) = n.
Proof. unfold be_bytes. by rewrite length_reverse, length_le_bytes. Qed.

Lemma le_bytes_ok n v : Forall is_u8 (le_bytes n v).
Proof.
  revert v. induction n; intros v; simpl; constructor; [|done].
  apply Z.mod_pos_bound. lia.
Qed.
Lemma be_bytes_ok n v : Forall is_u8 (be_bytes n v).
Proof. apply Forall_reverse, le_bytes_ok. Qed.

Lemma le_val_bytes n v : 0 <= v < 256 ^ Z.of_nat n -> le_val (le_bytes n v) = v.
Proof.
  revert v. induction n as [|n IH]; intros v Hv.
  - change (256 ^ Z.of_nat 0) with 1 in Hv. simpl. lia.
  - rewrite Nat2Z.inj_succ, Z.pow_succ_r in Hv by lia. simpl. rewrite IH.
    + pose proof (Z.div_mod v 256). lia.
    + split; [apply Z.div_pos; lia|apply Z.div_lt_upper_bound; lia].
Qed.
Lemma be_val_bytes n v : 0 <= v < 256 ^ Z.of_nat n -> be_val (be_bytes n v) = v.
Proof. intros. unfold be_val, be_bytes. rewrite reverse_involutive. by apply le_val_bytes. Qed.

Lemma le_val_bound l : Forall is_u8 l -> 0 <= le_val l < 256 ^ Z.of_nat (length l).
Proof.
  induction 1 as [|b l Hb _ IH]; [done|]. cbn [length le_val].
  rewrite Nat2Z.inj_succ, Z.pow_succ_r by lia. unfold is_u8 in Hb. lia.
Qed.

Lemma le_bytes_val l : Forall is_u8 l -> le_bytes (length l) (le_val l) = l.
Proof.
  induction 1 as [|b l Hb _ IH]; [done|]. simpl. unfold is_u8 in Hb.
  rewrite (Z.mul_comm 256), Z_mod_plus_full, Z.mod_small by lia.
  by rewrite Z.div_add, Z.div_small, Z.add_0_l, IH by lia.
Qed.
Lemma be_bytes_val l : Forall is_u8 l -> be_bytes (length l) (be_val l) = l.
Proof.
  intros H. unfold be_bytes, be_val. rewrite <- length_reverse.
  by rewrite le_bytes_val, reverse_involutive by (by apply Forall_reverse).
Qed.

(** The length lemmas used by [autorewrite with len]. *)
Create Rewrite HintDb len.
#[export] Hint Rewrite @length_app @length_take @length_drop @length_insert @length_inserts
  @length_replicate @length_fmap @length_reverse length_le_bytes length_be_bytes : len.
Ltac len_lia := unfold len in *; autorewrite with len in *; simpl length in *; lia.

(** Sizes in [Z], for [autorewrite with size]. *)
Lemma len_app {A} (a b : list A) : len (a ++ b) = len a + len b.
Proof. len_lia. Qed.
Lemma len_cons {A} (x : A) (b : list A) : len (x :: b) = 1 + len b.
Proof. len_lia. Qed.
Lemma len_nil {A} : len (@nil A) = 0.
Proof. done. Qed.
Lemma len_be_bytes n v : len (be_bytes n v) = Z.of_nat n.
Proof. unfold len. by rewrite length_be_bytes. Qed.
Lemma len_le_bytes n v : len (le_bytes n v) = Z.of_nat n.
Proof. unfold len. by rewrite length_le_bytes. Qed.
Create Rewrite HintDb size.
#[export] Hint Rewrite @len_app @len_cons @len_nil len_be_bytes len_le_bytes : size.
Ltac size_lia := autorewrite with size in *; lia.
