(* ===== verification/Threads.v ===== *)
(** * Threads: lists of goroutines

    Step relations with several goroutines keep them in a list, each at its program point.
    These lemmas count the goroutines at a point and collect what they hold, when one of
    them moves. *)
From S2P Require Import Prelude.
#[local] Open Scope Z_scope.

(** ** Counting goroutines *)

Section Count.
Context {A : Type}.
Definition count (P : A -> bool) (l : list A) : nat := length (filter (fun x => P x = true) l).
Lemma count_app P l k : count P (l ++ k) = (count P l + count P k)%nat.
Proof. unfold count. by rewrite filter_app, length_app. Qed.
Lemma count_cons P x l : count P (x :: l) = (Nat.b2n (P x) + count P l)%nat.
Proof. unfold count. rewrite filter_cons. by destruct (P x). Qed.
Lemma count_snoc P x l : count P (l ++ [x]) = (count P l + Nat.b2n (P x))%nat.
Proof. rewrite count_app, count_cons. by rewrite Nat.add_0_r. Qed.
Lemma count_insert P l i x y : l !! i = Some x -> (count P (<[i := y]> l) + Nat.b2n (P x) = count P l + Nat.b2n (P y))%nat.
Proof.
  intros H. rewrite insert_take_drop by (by eapply lookup_lt_Some). rewrite <- (take_drop_middle l i x H) at 3. rewrite !count_app, !count_cons. lia.
Qed.
Lemma count_fmap P f l : (forall x, P (f x) = P x) -> count P (f <$> l) = count P l.
Proof. intros H. induction l as [|x l IH]; [done|]. rewrite fmap_cons, !count_cons, H, IH. done. Qed.
Lemma count_pos P l i x : l !! i = Some x -> P x = true -> (0 < count P l)%nat.
Proof. intros H HP. pose proof (count_insert P l i x x H) as E. rewrite <- (take_drop_middle l i x H), count_app, count_cons, HP. simpl. lia. Qed.
Lemma count_exists P l : (0 < count P l)%nat -> exists i x, l !! i = Some x /\ P x = true.
Proof.
  intros H. unfold count in H. destruct (filter _ l) as [|x k] eqn:E; [simpl in H; lia|].
  assert (x ∈ filter (fun x => P x = true) l) as [HP [i Hi]%list_elem_of_lookup]%list_elem_of_filter by (rewrite E; left). eauto.
Qed.
(** The sum of the ranks of the goroutines. *)
Definition total (f : A -> nat) (l : list A) : nat := sum_list_with f l.
Lemma total_ranks_app f l k : total f (l ++ k) = (total f l + total f k)%nat.
Proof. apply sum_list_with_app. Qed.
Lemma total_insert f l i x y : l !! i = Some x -> (total f (<[i := y]> l) + f x = total f l + f y)%nat.
Proof.
  intros H. rewrite insert_take_drop by (by eapply lookup_lt_Some). rewrite <- (take_drop_middle l i x H) at 3. rewrite !total_ranks_app. simpl. lia.
Qed.
Lemma total_fmap f g l : (forall x, f (g x) = f x) -> total f (g <$> l) = total f l.
Proof. intros H. induction l as [|x l IH]; [done|]. rewrite fmap_cons. simpl. by rewrite H, IH. Qed.
End Count.
#[global] Arguments count {A} P l : simpl never.

(** ** What goroutines hold *)

(** When goroutine [i] moves, what it holds is replaced. *)
Lemma omap_insert_perm {A B} (f : A -> option B) (l : list A) i x y : l !! i = Some x ->
  exists rest, omap f l ≡ₚ option_list (f x) ++ rest /\ omap f (<[i := y]> l) ≡ₚ option_list (f y) ++ rest.
Proof.
  intros H. exists (omap f (take i l) ++ omap f (drop (S i) l)).
  assert (forall z, omap f (take i l ++ z :: drop (S i) l) ≡ₚ option_list (f z) ++ omap f (take i l) ++ omap f (drop (S i) l)) as E.
  { intros z. rewrite omap_app. cbn. destruct (f z); [|done]. cbn. by rewrite <- Permutation_middle. }
  split; [rewrite <- (take_drop_middle l i x H) at 1; apply E|]. rewrite insert_take_drop by (by eapply lookup_lt_Some). apply E.
Qed.
