(* ===== verification/GoLib.v ===== *)
(** * GoLib: the parts of the Go standard library the program's text handling uses

    Go strings are byte sequences, here [list Z]; [str] turns a literal into one.
    Decimal printing and parsing follow strconv with base 10, [Fields] and
    [TrimSpace] follow package strings (white space is the Unicode property, so
    its UTF-8 encodings are matched), hex and base64 follow their packages.
    Random bytes come from an entropy stream [rng] consumed from the front. *)
From Stdlib Require Import Ascii Wf_nat.
From S2P Require Import Prelude.
#[local] Open Scope Z_scope.

(** ** Literals and comparison *)

Fixpoint str (s : string) : list Z :=
  match s with
  | EmptyString => []
  | String c s' => Z.of_N (N_of_ascii c) :: str s'
  end.

Definition str_eqb (a b : list Z) : bool := bool_decide (a = b).

Lemma str_app (a b : string) : str (a +:+ b) = str a ++ str b.
Proof. induction a as [|c a IH]; [done|]. simpl. f_equal. exact IH. Qed.

(** ** Entropy *)

Definition rng := nat -> Z.

(** [n] random bytes and the rest of the stream ([rand.Read] of a slice of length [n]). *)
Definition randRead (n : nat) (s : rng) : list Z * rng :=
  ((fun i => u8 (s i)) <$> seq 0 n, fun i => s (n + i)%nat).

(** [rand.Int(rand.Reader, max)]: a value below [max]; it panics when [max <= 0]. *)
Definition randInt (max : Z) (s : rng) : option (Z * rng) :=
  if max <=? 0 then None else Some (s 0%nat mod max, fun i => s (S i)).

Lemma randRead_length n s : length (randRead n s).1 = n.
Proof. simpl. by rewrite length_fmap, length_seq. Qed.

(** ** Decimal numbers (strconv) *)

Definition is_digit (c : Z) : bool := (48 <=? c) && (c <=? 57).

Fixpoint itoa_aux (fuel : nat) (n : Z) (acc : list Z) : list Z :=
  match fuel with
  | O => acc
  | S f => let acc := 48 + n mod 10 :: acc in if n <? 10 then acc else itoa_aux f (n / 10) acc
  end.

(** [strconv.Itoa] and the [%d] verb: twenty digits hold every 64-bit value. *)
Definition Itoa (n : Z) : list Z :=
  if n <? 0 then 45 :: itoa_aux 20 (- n) [] else itoa_aux 20 n [].

Fixpoint parse_digits (max acc : Z) (s : list Z) : option Z :=
  match s with
  | [] => Some acc
  | c :: s' =>
      if is_digit c then
        let acc := acc * 10 + (c - 48) in
        if acc <=? max then parse_digits max acc s' else None
      else None
  end.

(** [strconv.ParseUint(s, 10, bits)]; [None] is any of its errors. *)
Definition ParseUint (s : list Z) (bits : Z) : option Z :=
  if decide (s = []) then None else parse_digits (2 ^ bits - 1) 0 s.

(** [strconv.Atoi] on a 64-bit [int]. *)
Definition Atoi (s : list Z) : option Z :=
  match s with
  | 43 :: s' => if decide (s' = []) then None else parse_digits (2 ^ 63 - 1) 0 s'
  | 45 :: s' => if decide (s' = []) then None else Z.opp <$> parse_digits (2 ^ 63) 0 s'
  | _ => if decide (s = []) then None else parse_digits (2 ^ 63 - 1) 0 s
  end.

Lemma itoa_aux_app fuel n acc : itoa_aux fuel n acc = itoa_aux fuel n [] ++ acc.
Proof.
  revert n acc. induction fuel as [|f IH]; intros n acc; simpl; [done|].
  destruct (n <? 10); [done|]. rewrite IH, (IH _ [_]), <- app_assoc. done.
Qed.

Lemma parse_digits_app max a l1 l2 :
  parse_digits max a (l1 ++ l2) = (a' ← parse_digits max a l1; parse_digits max a' l2).
Proof.
  revert a. induction l1 as [|c l1 IH]; intros a; simpl; [done|].
  by repeat case_match.
Qed.

Lemma itoa_digit n : is_digit (48 + n mod 10) = true.
Proof.
  pose proof (Z.mod_pos_bound n 10 ltac:(lia)). unfold is_digit.
  apply andb_true_iff. rewrite !Z.leb_le. lia.
Qed.

Lemma parse_digit a d max :
  0 <= d < 10 -> a * 10 + d <= max -> parse_digits max a [48 + d] = Some (a * 10 + d).
Proof.
  intros Hd Hm. cbn [parse_digits]. pose proof (itoa_digit d) as Hdig.
  rewrite Z.mod_small in Hdig by lia. rewrite Hdig.
  replace (48 + d - 48) with d by lia. by rewrite (proj2 (Z.leb_le _ max)).
Qed.

Lemma parse_itoa_aux fuel n max :
  0 <= n -> n < 10 ^ Z.of_nat fuel -> n <= max ->
  parse_digits max 0 (itoa_aux fuel n []) = Some n.
Proof.
  revert n. induction fuel as [|f IH]; intros n H0 Hf Hm.
  { change (10 ^ Z.of_nat 0) with 1 in Hf. by replace n with 0 by lia. }
  cbn [itoa_aux]. destruct (Z.ltb_spec n 10) as [Hn|Hn].
  - rewrite Z.mod_small by lia. by apply parse_digit.
  - rewrite itoa_aux_app, parse_digits_app, IH; cbn [mbind option_bind].
    + pose proof (Z.mod_pos_bound n 10 ltac:(lia)).
      rewrite (parse_digit (n / 10) (n mod 10)); [|lia|pose proof (Z.div_mod n 10); lia].
      f_equal. pose proof (Z.div_mod n 10). lia.
    + apply Z.div_pos; lia.
    + apply Z.div_lt_upper_bound; [lia|].
      rewrite Nat2Z.inj_succ, Z.pow_succ_r in Hf by lia. lia.
    + pose proof (Z.div_le_upper_bound n 10 n). lia.
Qed.

Lemma itoa_aux_digits fuel n acc :
  Forall (fun c => is_digit c = true) acc -> Forall (fun c => is_digit c = true) (itoa_aux fuel n acc).
Proof.
  revert n acc. induction fuel as [|f IH]; intros n acc H; simpl; [done|].
  destruct (n <? 10); [|apply IH]; constructor; auto using itoa_digit.
Qed.

Lemma itoa_aux_cons fuel n acc : fuel <> O -> itoa_aux fuel n acc <> [].
Proof.
  intros Hf. destruct fuel; [done|]. simpl. destruct (n <? 10); [done|].
  rewrite itoa_aux_app. intros [? ?]%app_eq_nil. done.
Qed.

Lemma Itoa_digits n : 0 <= n -> Forall (fun c => is_digit c = true) (Itoa n).
Proof.
  intros H. unfold Itoa. rewrite (proj2 (Z.ltb_ge n 0)) by done. by apply itoa_aux_digits.
Qed.

Lemma Itoa_nonempty n : 0 <= n -> Itoa n <> [].
Proof. intros H. unfold Itoa. rewrite (proj2 (Z.ltb_ge n 0)) by done. by apply itoa_aux_cons. Qed.

(** Printing then parsing an unsigned number of [bits <= 64] bits is the identity. *)
Lemma ParseUint_Itoa n bits : 0 <= bits <= 64 -> 0 <= n < 2 ^ bits -> ParseUint (Itoa n) bits = Some n.
Proof.
  intros Hb Hn. unfold ParseUint. rewrite decide_False by (apply Itoa_nonempty; lia).
  unfold Itoa. rewrite (proj2 (Z.ltb_ge n 0)) by lia. apply parse_itoa_aux; [lia| |lia].
  apply Z.lt_le_trans with (2 ^ bits); [lia|].
  transitivity (2 ^ 64); [by apply Z.pow_le_mono_r; lia|]. by vm_compute.
Qed.

Lemma parse_digits_range max a s n : 0 <= a <= max -> parse_digits max a s = Some n -> 0 <= n <= max.
Proof.
  revert a. induction s as [|c s IH]; intros a Ha; simpl; [by intros [= <-]|].
  destruct (is_digit c) eqn:Hc; [|done].
  apply andb_true_iff in Hc as [Hc1%Z.leb_le Hc2%Z.leb_le].
  case_match eqn:Hl; [|done]. apply Z.leb_le in Hl. apply IH. lia.
Qed.

Lemma ParseUint_range s bits n : 0 <= bits -> ParseUint s bits = Some n -> 0 <= n < 2 ^ bits.
Proof.
  intros Hb H. pose proof (Z.pow_pos_nonneg 2 bits). unfold ParseUint in H. case_decide; [done|].
  apply parse_digits_range in H; lia.
Qed.

(** ** Package strings *)

(** [strings.IndexByte], -1 when absent. *)
Fixpoint IndexByte (s : list Z) (c : Z) : Z :=
  match s with
  | [] => -1
  | x :: s' => if x =? c then 0 else let r := IndexByte s' c in if r =? -1 then -1 else r + 1
  end.

(** [strings.Split(s, sep)] for a one-byte separator. *)
Fixpoint SplitByte (s : list Z) (c : Z) : list (list Z) :=
  match s with
  | [] => [[]]
  | x :: s' =>
      if x =? c then [] :: SplitByte s' c
      else match SplitByte s' c with
           | [] => [[x]]
           | p :: ps => (x :: p) :: ps
           end
  end.

(** [strings.Cut(s, sep)] for a one-byte separator. *)
Fixpoint CutByte (s : list Z) (c : Z) : option (list Z * list Z) :=
  match s with
  | [] => None
  | x :: s' => if x =? c then Some ([], s') else '(a, b) ← CutByte s' c; Some (x :: a, b)
  end.

Lemma SplitByte_none s c : Forall (fun x => x <> c) s -> SplitByte s c = [s].
Proof.
  induction 1 as [|x s Hx _ IH]; simpl; [done|].
  by rewrite (proj2 (Z.eqb_neq x c)), IH.
Qed.

Lemma SplitByte_sep s t c : Forall (fun x => x <> c) s -> SplitByte (s ++ c :: t) c = s :: SplitByte t c.
Proof.
  induction 1 as [|x s Hx _ IH]; simpl; [by rewrite Z.eqb_refl|].
  by rewrite (proj2 (Z.eqb_neq x c)), IH.
Qed.

(** Number of bytes of a white-space rune at the front of [s], 0 if there is none. *)
Definition spaceLen (s : list Z) : nat :=
  match s with
  | 9 :: _ | 10 :: _ | 11 :: _ | 12 :: _ | 13 :: _ | 32 :: _ => 1%nat
  | 194 :: 133 :: _ | 194 :: 160 :: _ => 2%nat
  | 225 :: 154 :: 128 :: _ => 3%nat
  | 226 :: 128 :: c :: _ =>
      if ((128 <=? c) && (c <=? 138)) || (c =? 168) || (c =? 169) || (c =? 175) then 3%nat else 0%nat
  | 226 :: 129 :: 159 :: _ => 3%nat
  | 227 :: 128 :: 128 :: _ => 3%nat
  | _ => 0%nat
  end.

(** [strings.Fields]; [skip] counts the bytes left of a multi-byte space. *)
Fixpoint fields_aux (s cur : list Z) (skip : nat) : list (list Z) :=
  let flush := if decide (cur = []) then [] else [cur] in
  match s with
  | [] => flush
  | x :: s' =>
      match skip with
      | S k => fields_aux s' cur k
      | O => match spaceLen s with
             | O => fields_aux s' (cur ++ [x]) O
             | S k => flush ++ fields_aux s' [] k
             end
      end
  end.
Definition Fields (s : list Z) : list (list Z) := fields_aux s [] 0.

Fixpoint allSpace (s : list Z) (skip : nat) : bool :=
  match s with
  | [] => true
  | _ :: s' => match skip with
               | S k => allSpace s' k
               | O => match spaceLen s with O => false | S k => allSpace s' k end
               end
  end.
Fixpoint trimLeft (s : list Z) (skip : nat) : list Z :=
  match s with
  | [] => []
  | _ :: s' => match skip with
               | S k => trimLeft s' k
               | O => match spaceLen s with O => s | S k => trimLeft s' k end
               end
  end.
Fixpoint trimRight (s : list Z) : list Z :=
  if allSpace s 0 then [] else match s with [] => [] | x :: s' => x :: trimRight s' end.
(** [strings.TrimSpace] *)
Definition TrimSpace (s : list Z) : list Z := trimRight (trimLeft s 0).

(** [strings.TrimPrefix] *)
Definition TrimPrefix (s p : list Z) : list Z :=
  if decide (p `prefix_of` s) then drop (length p) s else s.

(** ** Package encoding/hex *)

Definition hexVal (c : Z) : option Z :=
  if (48 <=? c) && (c <=? 57) then Some (c - 48)
  else if (97 <=? c) && (c <=? 102) then Some (c - 87)
  else if (65 <=? c) && (c <=? 70) then Some (c - 55)
  else None.

(** [hex.DecodeString]: [None] on an odd length or a character that is not hexadecimal. *)
Fixpoint hexDecode (s : list Z) : option (list Z) :=
  match s with
  | [] => Some []
  | h :: l :: s' =>
      a ← hexVal h; b ← hexVal l; r ← hexDecode s'; Some (16 * a + b :: r)
  | [_] => None
  end.

Definition hexDigit (d : Z) : Z := if d <? 10 then 48 + d else 87 + d.
(** [hex.EncodeToString] *)
Definition hexEncode (bs : list Z) : list Z :=
  bs ≫= fun b => [hexDigit (b / 16); hexDigit (b mod 16)].

Lemma hexVal_digit d : 0 <= d < 16 -> hexVal (hexDigit d) = Some d.
Proof.
  intros Hd. assert (d ∈ [0;1;2;3;4;5;6;7;8;9;10;11;12;13;14;15]) as Hin.
  { apply list_elem_of_In. simpl. lia. }
  apply list_elem_of_In in Hin. simpl in Hin.
  repeat (destruct Hin as [<-|Hin]; [reflexivity|]). done.
Qed.

Lemma hexDecode_encode bs : Forall is_u8 bs -> hexDecode (hexEncode bs) = Some bs.
Proof.
  induction 1 as [|b bs Hb _ IH]; [done|]. unfold is_u8 in Hb.
  pose proof (Z.div_mod b 16 ltac:(lia)).
  change (hexEncode (b :: bs)) with (hexDigit (b / 16) :: hexDigit (b mod 16) :: hexEncode bs). simpl.
  rewrite !hexVal_digit by (Z.div_mod_to_equations; lia). simpl. rewrite IH. simpl. repeat f_equal. lia.
Qed.

Lemma hexDecode_length s bs : hexDecode s = Some bs -> length s = (2 * length bs)%nat.
Proof.
  revert bs. induction s as [s IH] using (induction_ltof1 _ (@length Z)); intros bs.
  destruct s as [|h [|l s]]; simpl; [by intros [= <-]|done|].
  intros (a & _ & (b & _ & (r & Hr & [= <-])%bind_Some)%bind_Some)%bind_Some.
  apply IH in Hr; [simpl; lia|]. unfold ltof. simpl. lia.
Qed.

(** ** Package encoding/base64: RawStdEncoding *)

Definition b64Char (d : Z) : Z :=
  if d <? 26 then 65 + d else if d <? 52 then 71 + d else if d <? 62 then d - 4 else if d =? 62 then 43 else 47.
Definition b64Val (c : Z) : option Z :=
  if (65 <=? c) && (c <=? 90) then Some (c - 65)
  else if (97 <=? c) && (c <=? 122) then Some (c - 71)
  else if (48 <=? c) && (c <=? 57) then Some (c + 4)
  else if c =? 43 then Some 62 else if c =? 47 then Some 63 else None.

Fixpoint b64Encode (s : list Z) : list Z :=
  match s with
  | a :: b :: c :: s => b64Char (a / 4) :: b64Char (a mod 4 * 16 + b / 16) :: b64Char (b mod 16 * 4 + c / 64) :: b64Char (c mod 64) :: b64Encode s
  | [a; b] => [b64Char (a / 4); b64Char (a mod 4 * 16 + b / 16); b64Char (b mod 16 * 4)]
  | [a] => [b64Char (a / 4); b64Char (a mod 4 * 16)]
  | [] => []
  end.
Definition b64EncodedLen (n : Z) : Z := n / 3 * 4 + (n mod 3 * 8 + 5) / 6.
Definition b64DecodedLen (n : Z) : Z := n / 4 * 3 + n mod 4 * 6 / 8.

(** The bytes decoded before the end or the first error; carriage returns and line
    feeds are skipped. [acc] holds the digits of the current group. *)
Fixpoint b64Decode (s acc : list Z) : list Z :=
  match s with
  | [] => match acc with [x; y] => [x * 4 + y / 16] | [x; y; z] => [x * 4 + y / 16; y mod 16 * 16 + z / 4] | _ => [] end
  | c :: s =>
      if (c =? 10) || (c =? 13) then b64Decode s acc
      else match b64Val c with
           | None => []
           | Some d =>
               match acc with
               | [x; y; z] => x * 4 + y / 16 :: y mod 16 * 16 + z / 4 :: z mod 4 * 64 + d :: b64Decode s []
               | _ => b64Decode s (acc ++ [d])
               end
           end
  end.

Lemma b64Val_char d : 0 <= d < 64 -> b64Val (b64Char d) = Some d /\ b64Char d <> 10 /\ b64Char d <> 13.
Proof.
  intros Hd. revert d Hd. apply (enum_range _ 0 64). vm_compute (seqZ 0 64). repeat constructor; discriminate.
Qed.

Lemma b64Decode_digit d s acc : 0 <= d < 64 -> (length acc < 3)%nat -> b64Decode (b64Char d :: s) acc = b64Decode s (acc ++ [d]).
Proof.
  intros Hd Ha. destruct (b64Val_char d Hd) as (Hv & H1 & H2). cbn [b64Decode].
  rewrite (proj2 (Z.eqb_neq _ _) H1), (proj2 (Z.eqb_neq _ _) H2), Hv. cbn [orb].
  by destruct acc as [|? [|? [|? [|]]]]; simpl in Ha; try lia.
Qed.

Lemma b64Decode_last d s x y z : 0 <= d < 64 -> b64Decode (b64Char d :: s) [x; y; z] =
  x * 4 + y / 16 :: y mod 16 * 16 + z / 4 :: z mod 4 * 64 + d :: b64Decode s [].
Proof.
  intros Hd. destruct (b64Val_char d Hd) as (Hv & H1 & H2). cbn [b64Decode].
  by rewrite (proj2 (Z.eqb_neq _ _) H1), (proj2 (Z.eqb_neq _ _) H2), Hv.
Qed.

Lemma list_ind3 {A} (P : list A -> Prop) : P [] -> (forall a, P [a]) -> (forall a b, P [a; b]) ->
  (forall a b c l, P l -> P (a :: b :: c :: l)) -> forall l, P l.
Proof.
  intros H0 H1 H2 H3 l. assert (P l /\ (forall a, P (a :: l)) /\ (forall a b, P (a :: b :: l))) as [? _]; [|done].
  induction l as [|x l (IH0 & IH1 & IH2)]; [auto|]. split; [done|]. split; [done|]. intros a b. by apply H3.
Qed.

Lemma b64Decode_encode s : Forall is_u8 s -> b64Decode (b64Encode s) [] = s.
Proof.
  induction s as [|a|a b|a b c s IH] using list_ind3; intros Hs; rewrite ?Forall_cons in Hs; unfold is_u8 in Hs; cbn [b64Encode].
  - done.
  - rewrite !b64Decode_digit by (simpl; Z.div_mod_to_equations; lia). cbn [app b64Decode]. f_equal. Z.div_mod_to_equations; lia.
  - rewrite !b64Decode_digit by (simpl; Z.div_mod_to_equations; lia). cbn [app b64Decode]. repeat f_equal; Z.div_mod_to_equations; lia.
  - rewrite !b64Decode_digit by (simpl; Z.div_mod_to_equations; lia). cbn [app]. rewrite b64Decode_last by (Z.div_mod_to_equations; lia).
    rewrite IH by tauto. repeat f_equal; Z.div_mod_to_equations; lia.
Qed.

Lemma b64Encode_len s : len (b64Encode s) = b64EncodedLen (len s).
Proof.
  induction s as [|a|a b|a b c s IH] using list_ind3; [done..|]. unfold b64EncodedLen, len in *. cbn [b64Encode length].
  rewrite !Nat2Z.inj_succ. rewrite IH. replace (Z.succ (Z.succ (Z.succ (Z.of_nat (length s))))) with (Z.of_nat (length s) + 1 * 3) by lia.
  rewrite Z.div_add, Z_mod_plus_full by lia. lia.
Qed.

Lemma b64_lens n : 0 <= n -> b64DecodedLen (b64EncodedLen n) = n.
Proof. intros Hn. unfold b64DecodedLen, b64EncodedLen. Z.div_mod_to_equations; lia. Qed.

(** ** Package time

    A [time.Time] is its distance from the Unix epoch in nanoseconds; [zeroTime] is
    the zero value of the type, the first of January of year 1. *)

Definition zeroTime : Z := -62135596800 * 10 ^ 9.
(** [now.Sub(t)] saturates at the bounds of a [Duration]. *)
Definition timeSub (now t : Z) : Z := Z.max (- 2 ^ 63) (Z.min (2 ^ 63 - 1) (now - t)).

Lemma timeSub_zero now : 0 <= now -> timeSub now zeroTime = 2 ^ 63 - 1.
Proof. unfold timeSub, zeroTime. lia. Qed.
