(* ===== verification/Replay.v ===== *)
(** * Replay: the RFC 6479 anti-replay window of src/replay/replay.go

    [Filter] is the bitmap filter of the source; [Window] is the promise it
    makes: a counter is accepted iff it is below the limit, not older than the
    window and was not accepted before. *)
From S2P Require Import Prelude.
#[local] Open Scope Z_scope.

Definition blockBitLog : Z := 6.
Definition blockBits : Z := Z.shiftl 1 blockBitLog.
Definition ringBlocks : Z := Z.shiftl 1 7.
Definition windowSize : Z := (ringBlocks - 1) * blockBits.
Definition blockMask : Z := ringBlocks - 1.
Definition bitMask : Z := blockBits - 1.

Record Filter := mkFilter { last : Z; ring : list Z }.

(** The zero value of the Go struct. *)
Definition zeroFilter : Filter :=
  {| last := 0; ring := replicate (Z.to_nat ringBlocks) 0 |}.

Definition Reset (f : Filter) : Filter :=
  {| last := 0; ring := <[0%nat := 0]> (ring f) |}.

(** The loop [for i := current+1; i <= current+diff; i++ { ring[i&blockMask] = 0 }],
    [n] iterations from [i]. *)
Fixpoint clearBlocks (n : nat) (i : Z) (r : list Z) : list Z :=
  match n with
  | O => r
  | S n' => clearBlocks n' (i + 1) (<[Z.to_nat (Z.land i blockMask) := 0]> r)
  end.

Definition ValidateCounter (f : Filter) (counter limit : Z) : bool * Filter :=
  if limit <=? counter then (false, f)
  else
    let indexBlock := Z.shiftr counter blockBitLog in
    let '(behind, f) :=
      if last f <? counter then
        let current := Z.shiftr (last f) blockBitLog in
        let diff := indexBlock - current in
        let diff := if ringBlocks <? diff then ringBlocks else diff in
        (false, {| last := counter; ring := clearBlocks (Z.to_nat diff) (current + 1) (ring f) |})
      else (windowSize <? last f - counter, f) in
    if behind then (false, f)
    else
      let indexBlock := Z.land indexBlock blockMask in
      let indexBit := Z.land counter bitMask in
      let old := (ring f) !!! Z.to_nat indexBlock in
      let new := Z.lor old (Z.shiftl 1 indexBit) in
      (negb (old =? new), {| last := last f; ring := <[Z.to_nat indexBlock := new]> (ring f) |}).

(** ** The window as a set of accepted counters *)

Record Window := mkWindow { top : Z; seen : gset Z }.

Definition emptyWindow : Window := {| top := 0; seen := ∅ |}.

Definition accepts (w : Window) (counter limit : Z) : bool :=
  (counter <? limit) && (top w - counter <=? windowSize) && bool_decide (counter ∉ seen w).

Definition offer (w : Window) (counter limit : Z) : bool * Window :=
  if accepts w counter limit
  then (true, {| top := Z.max (top w) counter; seen := {[counter]} ∪ seen w |})
  else (false, w).

(** Runs of a sequence of (counter, limit) pairs. *)
Fixpoint runFilter (f : Filter) (cs : list (Z * Z)) : list bool :=
  match cs with
  | [] => []
  | (c, l) :: cs => let '(b, f) := ValidateCounter f c l in b :: runFilter f cs
  end.

Fixpoint runWindow (w : Window) (cs : list (Z * Z)) : list bool :=
  match cs with
  | [] => []
  | (c, l) :: cs => let '(b, w) := offer w c l in b :: runWindow w cs
  end.

(** ** Ring arithmetic *)

Lemma ring_slot x : Z.land x blockMask = x mod 128.
Proof. apply (land_mask 7). lia. Qed.
Lemma ring_bit x : Z.land x bitMask = x mod 64.
Proof. apply (land_mask 6). lia. Qed.
Lemma ring_block x : Z.shiftr x blockBitLog = x / 64.
Proof. by apply shiftr_div. Qed.

(** The bit of counter [c] in ring [r]. *)
Definition bitOf (r : list Z) (c : Z) : bool :=
  Z.testbit (r !!! Z.to_nat (c / 64 mod 128)) (c mod 64).

Lemma length_clearBlocks n i r : length (clearBlocks n i r) = length r.
Proof. revert i r. induction n; intros; simpl; [done|]. by rewrite IHn, length_insert. Qed.

Lemma clearBlocks_hit n i r j :
  length r = 128%nat -> 0 <= i -> i <= j < i + Z.of_nat n ->
  clearBlocks n i r !!! Z.to_nat (j mod 128) = 0.
Proof.
  revert i r. induction n as [|n IH]; intros i r Hr Hi Hj; [lia|]. simpl.
  destruct (decide (i + 1 <= j)); [apply IH; rewrite ?length_insert; lia|].
  assert (j = i) as -> by lia.
  assert (forall m k s, s !!! k = 0 -> (k < length s)%nat -> clearBlocks m (i + 1) s !!! k = 0
          /\ forall i', clearBlocks m i' s !!! k = 0) as Hkeep.
  { clear. intros m k. assert (forall i' s, s !!! k = 0 -> (k < length s)%nat ->
      clearBlocks m i' s !!! k = 0) as H; [|auto].
    induction m as [|m IHm]; intros i' s Hs Hk; simpl; [done|]. apply IHm.
    - destruct (decide (Z.to_nat (Z.land i' blockMask) = k)) as [->|Hne].
      + by apply list_lookup_total_insert_eq.
      + by rewrite list_lookup_total_insert_ne.
    - by rewrite length_insert. }
  pose proof (Z.mod_pos_bound i 128 ltac:(lia)).
  apply Hkeep; rewrite ?length_insert, ?ring_slot; [|lia].
  apply list_lookup_total_insert_eq. lia.
Qed.

Lemma clearBlocks_miss n i r k :
  (forall j, i <= j < i + Z.of_nat n -> Z.to_nat (j mod 128) <> k) ->
  clearBlocks n i r !!! k = r !!! k.
Proof.
  revert i r. induction n as [|n IH]; intros i r Hk; simpl; [done|].
  rewrite IH by (intros j Hj; apply Hk; lia).
  apply list_lookup_total_insert_ne. rewrite ring_slot. apply Hk. lia.
Qed.

Lemma lor_bit_unchanged x n : 0 <= n -> (x =? Z.lor x (Z.shiftl 1 n)) = Z.testbit x n.
Proof.
  intros Hn. rewrite Z.shiftl_1_l. destruct (Z.testbit x n) eqn:E.
  - apply Z.eqb_eq, Z.bits_inj'. intros m Hm. rewrite Z.lor_spec, Z.pow2_bits_eqb by lia.
    destruct (Z.eqb_spec n m) as [<-|]; [by rewrite E|by rewrite orb_false_r].
  - apply Z.eqb_neq. intros Heq. rewrite Heq, Z.lor_spec, Z.pow2_bits_true in E by lia.
    by rewrite orb_true_r in E.
Qed.

(** ** The simulation between the bitmap and the window *)

Record sim (f : Filter) (w : Window) : Prop := mkSim {
  sim_len : length (ring f) = 128%nat;
  sim_pos : 0 <= last f;
  sim_last : last f = top w;
  sim_seen : forall c, c ∈ seen w -> 0 <= c <= top w;
  sim_bits : forall c, 0 <= c -> last f / 64 - 127 <= c / 64 <= last f / 64 ->
    bitOf (ring f) c = bool_decide (c ∈ seen w);
}.

Lemma sim_reset f : length (ring f) = 128%nat -> sim (Reset f) emptyWindow.
Proof.
  intros Hl. split; simpl; try done; [by rewrite length_insert|].
  intros c Hc Hb. rewrite (bool_decide_eq_false_2 (c ∈ (∅ : gset Z))) by set_solver.
  assert (c / 64 = 0) as Hc0 by (rewrite Z.div_0_l in Hb; [|lia]; pose proof (Z.div_pos c 64); lia).
  unfold bitOf. rewrite Hc0. change (Z.to_nat (0 mod 128)) with 0%nat.
  rewrite list_lookup_total_insert_eq by lia. apply Z.testbit_0_l.
Qed.

(** Moving the window forward keeps the simulation with an unchanged set. *)
Lemma sim_advance f w counter :
  sim f w -> last f < counter ->
  let current := last f / 64 in
  let diff := Z.min ringBlocks (counter / 64 - current) in
  sim {| last := counter; ring := clearBlocks (Z.to_nat diff) (current + 1) (ring f) |}
      {| top := counter; seen := seen w |}.
Proof.
  intros [Hl Hp Ht Hs Hb] Hlt. intros current diff.
  pose proof (Z.div_le_mono (last f) counter 64 ltac:(lia) ltac:(lia)) as Hmono.
  pose proof (Z.div_pos (last f) 64 Hp ltac:(lia)) as Hcur.
  change ringBlocks with 128 in diff. subst current diff. split; simpl.
  - by rewrite length_clearBlocks.
  - lia.
  - done.
  - intros c Hc. specialize (Hs c Hc). lia.
  - intros c Hc Hblk. unfold bitOf.
    destruct (decide (c / 64 <= last f / 64)) as [Hle|Hgt].
    + rewrite clearBlocks_miss; [by apply Hb; lia|].
      intros j Hj Heq. apply Z2Nat.inj in Heq; [|apply Z.mod_pos_bound; lia..].
      pose proof (Z.div_mod j 128 ltac:(lia)). pose proof (Z.div_mod (c / 64) 128 ltac:(lia)). nia.
    + rewrite bool_decide_eq_false_2 by (intros Hin; specialize (Hs c Hin);
        pose proof (Z.div_le_mono c (last f) 64 ltac:(lia) ltac:(lia)); lia).
      pose proof (Z.mod_pos_bound (c / 64 - (last f / 64 + 1)) 128 ltac:(lia)).
      assert (exists j, c / 64 mod 128 = j mod 128 /\
        last f / 64 + 1 <= j < last f / 64 + 1 + Z.min 128 (counter / 64 - last f / 64)) as (j & -> & Hj).
      { destruct (decide (counter / 64 - last f / 64 <= 128)); [exists (c / 64); lia|].
        exists (last f / 64 + 1 + (c / 64 - (last f / 64 + 1)) mod 128). split; [|lia].
        rewrite Zplus_mod_idemp_r. f_equal. lia. }
      rewrite clearBlocks_hit; [apply Z.testbit_0_l|done|lia|lia].
Qed.

(** Recording a counter inside the window sets exactly its bit. *)
Lemma sim_record f w counter :
  sim f w -> 0 <= counter <= last f -> last f - counter <= windowSize ->
  let slot := Z.to_nat (counter / 64 mod 128) in
  let new := Z.lor (ring f !!! slot) (Z.shiftl 1 (counter mod 64)) in
  sim {| last := last f; ring := <[slot := new]> (ring f) |}
      {| top := top w; seen := {[counter]} ∪ seen w |}.
Proof.
  intros [Hl Hp Ht Hs Hb] Hc Hw slot new. change windowSize with 8128 in Hw.
  pose proof (Z.mod_pos_bound (counter / 64) 128 ltac:(lia)).
  pose proof (Z.mod_pos_bound counter 64 ltac:(lia)).
  split; simpl; try done; [by rewrite length_insert| |].
  { intros c [->%elem_of_singleton|Hin]%elem_of_union; [lia|by apply Hs]. }
  intros c Hc0 Hblk. unfold bitOf.
  assert (bool_decide (c ∈ {[counter]} ∪ seen w)
          = bool_decide (c = counter) || bool_decide (c ∈ seen w)) as ->.
  { rewrite <- bool_decide_or. apply bool_decide_ext. set_solver. }
  rewrite <- (Hb c Hc0 Hblk). unfold bitOf.
  destruct (decide (Z.to_nat (c / 64 mod 128) = slot)) as [Heq|Hne].
  - rewrite Heq, list_lookup_total_insert_eq by lia. subst slot.
    apply Z2Nat.inj in Heq; [|apply Z.mod_pos_bound; lia..].
    assert (c / 64 = counter / 64) as Hsame.
    { assert (last f / 64 - 127 <= counter / 64) by (Z.div_mod_to_equations; lia).
      pose proof (Z.div_le_mono counter (last f) 64 ltac:(lia) ltac:(lia)).
      pose proof (Z.div_mod (c / 64) 128 ltac:(lia)).
      pose proof (Z.div_mod (counter / 64) 128 ltac:(lia)). nia. }
    subst new. rewrite Z.shiftl_1_l, Z.lor_spec, Z.pow2_bits_eqb, orb_comm by lia.
    f_equal. destruct (Z.eqb_spec (counter mod 64) (c mod 64)) as [E|E].
    + rewrite bool_decide_eq_true_2; [done|]. Z.div_mod_to_equations; lia.
    + rewrite bool_decide_eq_false_2; [done|]. congruence.
  - rewrite list_lookup_total_insert_ne by congruence.
    rewrite bool_decide_eq_false_2; [done|]. intros ->. by apply Hne.
Qed.

Lemma sim_step f w counter limit :
  sim f w -> 0 <= counter ->
  (ValidateCounter f counter limit).1 = (offer w counter limit).1 /\
  sim (ValidateCounter f counter limit).2 (offer w counter limit).2.
Proof.
  intros Hsim Hc. unfold ValidateCounter, offer, accepts.
  rewrite (Z.ltb_antisym limit counter).
  destruct (limit <=? counter); simpl; [done|].
  rewrite !ring_block, !ring_slot, !ring_bit.
  pose proof (sim_last _ _ Hsim) as Ht.
  pose proof (Z.mod_pos_bound counter 64 ltac:(lia)).
  destruct (Z.ltb_spec (last f) counter) as [Hlt|Hge].
  - pose proof (sim_advance f w counter Hsim Hlt) as Hadv. simpl in Hadv.
    replace (if ringBlocks <? counter / 64 - last f / 64 then ringBlocks else counter / 64 - last f / 64)
      with (Z.min ringBlocks (counter / 64 - last f / 64)) by (destruct (Z.ltb_spec ringBlocks (counter / 64 - last f / 64)); lia).
    assert (counter ∉ seen w) as Hfresh by (intros Hin; apply (sim_seen _ _ Hsim) in Hin; lia).
    pose proof (sim_bits _ _ Hadv counter Hc ltac:(simpl; lia)) as Hbit. unfold bitOf in Hbit. simpl in Hbit.
    pose proof (sim_record _ _ counter Hadv ltac:(simpl; lia) ltac:(simpl; change windowSize with 8128; lia)) as Hrec.
    simpl in *. rewrite lor_bit_unchanged, Hbit by lia.
    replace (top w - counter <=? windowSize) with true by (symmetry; apply Z.leb_le; change windowSize with 8128; lia).
    rewrite (bool_decide_eq_false_2 (counter ∈ seen w)) by done.
    rewrite (bool_decide_eq_true_2 (counter ∉ seen w)) by done. simpl.
    split; [done|]. replace (Z.max (top w) counter) with counter by lia. exact Hrec.
  - rewrite <- Ht. rewrite (Z.leb_antisym windowSize).
    destruct (Z.ltb_spec windowSize (last f - counter)) as [Hold|Hin]; simpl; [done|].
    pose proof (sim_record f w counter Hsim ltac:(lia) Hin) as Hrec. simpl in Hrec.
    assert (bitOf (ring f) counter = bool_decide (counter ∈ seen w)) as Hbit.
    { apply (sim_bits _ _ Hsim); [done|]. change windowSize with 8128 in Hin. Z.div_mod_to_equations; lia. }
    unfold bitOf in Hbit. rewrite lor_bit_unchanged, Hbit by lia. rewrite bool_decide_not.
    destruct (bool_decide_reflect (counter ∈ seen w)) as [Hs|Hs]; simpl; (split; [done|]).
    + replace ({[counter]} ∪ seen w) with (seen w) in Hrec by set_solver. by destruct w.
    + by replace (Z.max (last f) counter) with (top w) by lia.
Qed.

Lemma runFilter_sim f w cs :
  sim f w -> Forall (fun c => 0 <= c.1) cs -> runFilter f cs = runWindow w cs.
Proof.
  intros Hsim Hcs. revert f w Hsim.
  induction Hcs as [|[c l] cs Hc Hcs IH]; intros f w Hsim; simpl; [done|].
  destruct (sim_step f w c l Hsim Hc) as [Hb Hs].
  destruct (ValidateCounter f c l), (offer w c l). simpl in *. subst. f_equal. by apply IH.
Qed.

(** The counters a run lets through, in order. *)
Definition delivered (verdicts : list bool) (cs : list (Z * Z)) : list Z :=
  (zip verdicts cs) ≫= (fun '(b, (c, _)) => if (b : bool) then [c] else []).

Lemma offer_seen w c l : seen w ⊆ seen (offer w c l).2.
Proof. unfold offer. destruct (accepts w c l); simpl; set_solver. Qed.

Lemma window_delivered_fresh w cs :
  NoDup (delivered (runWindow w cs) cs) /\
  (forall c, c ∈ delivered (runWindow w cs) cs -> c ∉ seen w).
Proof.
  revert w. induction cs as [|[c l] cs IH]; intros w; simpl; [split; [constructor|set_solver]|].
  destruct (offer w c l) as [b w'] eqn:E. destruct (IH w') as [Hnd Hf].
  pose proof (offer_seen w c l) as Hsub. rewrite E in Hsub. simpl in Hsub.
  unfold offer, accepts in E.
  destruct b; change (delivered (?b :: ?bs) ((c, l) :: cs)) with ((if b then [c] else []) ++ delivered bs cs);
    simpl; [|split; [done|set_solver]].
  repeat case_match; simplify_eq. apply andb_true_iff in H as [_ H%bool_decide_eq_true].
  split; [constructor; [|done]|]; set_solver.
Qed.

(** ** Properties *)

(** C4: started by [Reset] on any ring of the right size, the bitmap filter gives,
    for every sequence of (counter, limit) offers, exactly the verdicts of the
    abstract window: accepted iff below the limit, at most [windowSize] behind the
    highest accepted counter, and never accepted before. *)
Theorem filter_refines_window (f : Filter) (cs : list (Z * Z)) :
  length (ring f) = Z.to_nat ringBlocks -> Forall (fun c => 0 <= c.1) cs ->
  runFilter (Reset f) cs = runWindow emptyWindow cs.
Proof.
  intros Hl Hcs. apply runFilter_sim; [by apply sim_reset|done].
Qed.

Lemma filter_refines_window_witness :
  runFilter (Reset zeroFilter) [(5, 100); (5, 100); (200, 1000); (3, 1000); (9000, 8192)] =
  runWindow emptyWindow [(5, 100); (5, 100); (200, 1000); (3, 1000); (9000, 8192)].
Proof.
  apply filter_refines_window; [vm_compute; reflexivity|].
  repeat constructor; simpl; lia.
Defined.

(** Whatever is offered and in whatever order, no counter is delivered twice by
    a filter started with [Reset]. *)
Theorem no_counter_delivered_twice (f : Filter) (cs : list (Z * Z)) :
  length (ring f) = Z.to_nat ringBlocks -> Forall (fun c => 0 <= c.1) cs ->
  NoDup (delivered (runFilter (Reset f) cs) cs).
Proof.
  intros Hl Hcs.
  enough (runFilter (Reset f) cs = runWindow emptyWindow cs) as ->
    by apply window_delivered_fresh.
  apply runFilter_sim; [by apply sim_reset|done].
Qed.

Lemma no_counter_delivered_twice_witness :
  NoDup (delivered (runFilter (Reset zeroFilter) [(7, 10); (7, 10); (8, 10)]) [(7, 10); (7, 10); (8, 10)]).
Proof.
  apply no_counter_delivered_twice; [vm_compute; reflexivity|].
  repeat constructor; simpl; lia.
Defined.
