(* ===== verification/MagicHeader.v ===== *)
(** * MagicHeader: the configurable message type ranges of src/device/magic-header.go *)
From S2P Require Import Prelude GoLib.
#[local] Open Scope Z_scope.

Record magicHeader := mkMagicHeader { start : Z; end_ : Z }.

#[export] Instance magicHeader_eq_dec : EqDecision magicHeader.
Proof. solve_decision. Defined.

Inductive headerError := BadFormat | BadStart | BadEnd | WrongRange.

#[export] Instance headerError_eq_dec : EqDecision headerError.
Proof. solve_decision. Defined.

Definition newMagicHeader (spec : list Z) : result magicHeader headerError :=
  match SplitByte spec 45 with
  | [p0] =>
      match ParseUint p0 32 with
      | None => Err BadStart
      | Some s => if s <? s then Err WrongRange else Ok {| start := u32 s; end_ := u32 s |}
      end
  | [p0; p1] =>
      match ParseUint p0 32 with
      | None => Err BadStart
      | Some s =>
          match ParseUint p1 32 with
          | None => Err BadEnd
          | Some e => if e <? s then Err WrongRange else Ok {| start := u32 s; end_ := u32 e |}
          end
      end
  | _ => Err BadFormat
  end.

Definition GenSpec (h : magicHeader) : list Z :=
  if start h =? end_ h then Itoa (start h) else Itoa (start h) ++ 45 :: Itoa (end_ h).

Definition Validate (h : magicHeader) (val : Z) : bool := (start h <=? val) && (val <=? end_ h).

(** [None] is the panic of [rand.Int] on a bound that is not positive. *)
Definition Generate (h : magicHeader) (s : rng) : option (Z * rng) :=
  let high := i64 (u32 (end_ h - start h + 1)) in
  '(r, s) ← randInt high s; Some (u32 (start h + u32 r), s).

(** What every parsed header satisfies. *)
Definition header_wf (h : magicHeader) : Prop := 0 <= start h <= end_ h /\ end_ h < 2 ^ 32.

Lemma digits_not_dash s : Forall (fun c => is_digit c = true) s -> Forall (fun c => c <> 45) s.
Proof. intros Hs. apply (Forall_impl _ _ _ Hs). intros c H ->. done. Qed.

Lemma newMagicHeader_wf spec h : newMagicHeader spec = Ok h -> header_wf h.
Proof.
  unfold newMagicHeader, header_wf. intros H. repeat case_match; simplify_eq; simpl;
    repeat match goal with E : ParseUint _ _ = Some _ |- _ => apply ParseUint_range in E; [|lia] end;
    autorewrite with width; lia.
Qed.

(** the text printed for a well-formed header range parses back to the same range. *)
Theorem header_spec_roundtrip (h : magicHeader) :
  header_wf h -> newMagicHeader (GenSpec h) = Ok h.
Proof.
  destruct h as [s e]. unfold header_wf. simpl. intros [Hs He].
  unfold newMagicHeader, GenSpec. simpl.
  assert (forall n, 0 <= n -> Forall (fun c => c <> 45) (Itoa n)) as Hd
    by (intros; apply digits_not_dash, Itoa_digits; lia).
  destruct (Z.eqb_spec s e) as [<-|Hne].
  - rewrite SplitByte_none, ParseUint_Itoa by (auto with lia; lia).
    rewrite Z.ltb_irrefl. by autorewrite with width.
  - rewrite SplitByte_sep, SplitByte_none, !ParseUint_Itoa by (auto with lia; lia).
    rewrite (proj2 (Z.ltb_ge e s)) by lia. by autorewrite with width.
Qed.

Lemma header_spec_roundtrip_witness :
  newMagicHeader (GenSpec {| start := 123; end_ := 456 |}) = Ok {| start := 123; end_ := 456 |}.
Proof. apply header_spec_roundtrip. unfold header_wf. simpl. lia. Defined.

Lemma Generate_spec (h : magicHeader) (s : rng) :
  header_wf h ->
  match Generate h s with
  | None => start h = 0 /\ end_ h = 2 ^ 32 - 1
  | Some (v, _) => Validate h v = true /\ is_u32 v /\ ~ (start h = 0 /\ end_ h = 2 ^ 32 - 1)
  end.
Proof.
  intros [Hs He]. unfold Generate, randInt.
  destruct (decide (start h = 0 /\ end_ h = 2 ^ 32 - 1)) as [[H0 H1]|Hn].
  - rewrite H0, H1. by vm_compute.
  - assert (0 <= end_ h - start h < 2 ^ 32 - 1) by lia. autorewrite with width.
    rewrite (proj2 (Z.leb_gt _ 0)) by lia. simpl.
    pose proof (Z.mod_pos_bound (s 0%nat) (end_ h - start h + 1) ltac:(lia)) as Hr.
    revert Hr. generalize (s 0%nat mod (end_ h - start h + 1)). intros r Hr.
    rewrite (u32_small r) by width_lia. autorewrite with width. unfold Validate. rewrite andb_true_iff, !Z.leb_le. width_lia.
Qed.

(** [Generate] yields a type that the same header validates, for every header a
    configuration can hold; it panics exactly on the full range 0-4294967295, whose
    size does not fit the 32-bit subtraction. *)
Theorem header_generate_valid (h : magicHeader) (s : rng) :
  header_wf h ->
  match Generate h s with
  | None => start h = 0 /\ end_ h = 2 ^ 32 - 1
  | Some (v, _) => Validate h v = true /\ is_u32 v /\ ~ (start h = 0 /\ end_ h = 2 ^ 32 - 1)
  end.
Proof. apply Generate_spec. Qed.

Lemma header_generate_valid_witness :
  match Generate {| start := 5; end_ := 9 |} (fun _ => 12) with
  | None => 5 = 0 /\ 9 = 2 ^ 32 - 1
  | Some (v, _) => Validate {| start := 5; end_ := 9 |} v = true /\ is_u32 v /\ ~ (5 = 0 /\ 9 = 2 ^ 32 - 1)
  end.
Proof. apply (header_generate_valid {| start := 5; end_ := 9 |}). unfold header_wf. simpl. lia. Defined.
