(* ===== verification/Imitate.v ===== *)
(** * Imitate: protocol-shaped padding and junk, src/device/obf_imitate.go

    A writer that the source runs over the prefix slice [p := buf[:padding]] is a
    function on [p] (named after the source function with suffix [_p]); the
    function of the source's own name runs it on the prefix and puts the unchanged
    tail back. Every indexed access is checked: [None] is a panic. *)
From S2P Require Import Prelude GoLib.
#[local] Open Scope Z_scope.

Inductive imitateProto := imitateNone | imitateQUIC | imitateDNS | imitateSTUN | imitateSIP.

#[export] Instance imitateProto_eq_dec : EqDecision imitateProto.
Proof. solve_decision. Defined.

Definition parseImitateProto (s : list Z) : option imitateProto :=
  if str_eqb s [] || str_eqb s (str "none") then Some imitateNone
  else if str_eqb s (str "quic") then Some imitateQUIC
  else if str_eqb s (str "dns") then Some imitateDNS
  else if str_eqb s (str "stun") then Some imitateSTUN
  else if str_eqb s (str "sip") then Some imitateSIP
  else None.

Definition imitateProtoName (p : imitateProto) : list Z :=
  match p with
  | imitateQUIC => str "quic"
  | imitateDNS => str "dns"
  | imitateSTUN => str "stun"
  | imitateSIP => str "sip"
  | imitateNone => str "none"
  end.

(** ** Seeds *)

Definition fnv1aSeed (payload : list Z) : Z :=
  foldl (fun state b => u32 (Z.lxor state b * 0x01000193)) 0x811c9dc5 (take 64 payload).

Definition imitateJunkSeed (n : Z) : Z := fnv1aSeed (le_bytes 8 n).

Definition lcgStep (state : Z) : Z := u32 (state * 1103515245 + 12345).

(** ** Slice writes shared by the writers *)

(** [binary.BigEndian.PutUintN(p[off:off+n], v)] *)
Definition put_be (n : nat) (p : list Z) (off v : Z) : option (list Z) :=
  if decide (0 <= off /\ off + Z.of_nat n <= len p)
  then Some (list_inserts (Z.to_nat off) (be_bytes n v) p) else None.

(** [copy(p[a:b], src)] *)
Definition copy_to (p : list Z) (a b : Z) (src : list Z) : option (list Z) :=
  if decide (0 <= a <= b /\ b <= len p)
  then Some (list_inserts (Z.to_nat a) (take (Z.to_nat (b - a)) src) p) else None.

(** [for i := i; i < len(p); i++ { p[i] = v }], [n] iterations. *)
Fixpoint fill_loop (n : nat) (i v : Z) (p : list Z) : option (list Z) :=
  match n with
  | O => Some p
  | S n' => p ← set_at p i v; fill_loop n' (i + 1) v p
  end.
Definition fill_from (p : list Z) (i v : Z) : option (list Z) :=
  fill_loop (Z.to_nat (len p - i)) i v p.

(** Runs a writer on [buf[:padding]], leaving [buf[padding:]] in place. *)
Definition on_prefix (w : list Z -> option (list Z)) (buf : list Z) (padding : Z) : option (list Z) :=
  p ← slice buf 0 padding; p ← w p; Some (p ++ drop (Z.to_nat padding) buf).

(** ** QUIC 1-RTT short header *)

Fixpoint quicLoop (n : nat) (i state : Z) (p : list Z) : option (list Z) :=
  match n with
  | O => Some p
  | S n' => p ← set_at p i (u8 (Z.shiftr state 16)); quicLoop n' (i + 1) (lcgStep state) p
  end.

Definition writeQUICShort_p (seed : Z) (p : list Z) : option (list Z) :=
  if len p =? 0 then Some p else
  let state := seed in
  let spin := Z.land (u8 (Z.shiftr state 8)) 0x01 in
  let state := lcgStep state in
  let keyPhase := Z.land (u8 (Z.shiftr state 8)) 0x01 in
  let state := lcgStep state in
  let pnLenBits := Z.land (u8 state) 0x03 in
  let state := lcgStep state in
  p ← set_at p 0 (Z.lor (Z.lor (Z.lor 0x40 (u8 (Z.shiftl spin 5))) (u8 (Z.shiftl keyPhase 2))) pnLenBits);
  quicLoop (Z.to_nat (len p - 1)) 1 state p.

Definition writeQUICShort (buf : list Z) (padding seed : Z) : option (list Z) :=
  on_prefix (writeQUICShort_p seed) buf padding.

(** ** STUN Binding Success Response *)

Definition stunCookie : Z := 0x2112A442.

(** The SOFTWARE value loop: [j] runs to [vlen], drawing one LCG value per byte. *)
Fixpoint stunSoftware (n : nat) (at0 state : Z) (p : list Z) : option (list Z * Z) :=
  match n with
  | O => Some (p, state)
  | S n' => p ← set_at p at0 (u8 (0x20 + u8 (state mod 0x5F)));
            stunSoftware n' (at0 + 1) (lcgStep state) p
  end.

(** XOR-MAPPED-ADDRESS when the body has room: (bytes written, LCG state, slice). *)
Definition stunAddr (body state : Z) (p : list Z) : option (Z * Z * list Z) :=
  if 12 <=? body then
    let port := u16 (Z.shiftr state 16) in
    let state := lcgStep state in
    let addr := state in
    let state := lcgStep state in
    let xport := Z.lxor port (u16 (Z.shiftr stunCookie 16)) in
    let xaddr := Z.lxor addr stunCookie in
    let off := 20 in
    p ← put_be 2 p off 0x0020;
    p ← put_be 2 p (off + 2) 8;
    p ← set_at p (off + 4) 0x00;
    p ← set_at p (off + 5) 0x01;
    p ← put_be 2 p (off + 6) xport;
    p ← put_be 4 p (off + 8) xaddr;
    Some (12, state, p)
  else Some (0, state, p).

(** SOFTWARE filling the rest of the body, its value clamped to 124 bytes. *)
Definition stunSoft (body written state : Z) (p : list Z) : option (Z * list Z) :=
  let remaining := body - written in
  if 4 <=? remaining then
    let vlen := remaining - 4 in
    let vlen := if 124 <? vlen then 124 else vlen in
    let off := 20 + written in
    p ← put_be 2 p off 0x8022;
    p ← put_be 2 p (off + 2) (u16 vlen);
    '(p, _) ← stunSoftware (Z.to_nat vlen) (off + 4) state p;
    Some (written + (4 + vlen), p)
  else Some (written, p).

Definition stunTxn (seed : Z) : list Z :=
  be_bytes 4 seed ++ be_bytes 4 (lcgStep seed) ++ be_bytes 4 (lcgStep (lcgStep seed)).

Definition stunHeader (written seed : Z) : list Z :=
  be_bytes 2 0x0101 ++ be_bytes 2 (u16 written) ++ be_bytes 4 stunCookie ++ stunTxn seed.

Definition writeSTUN_p (seed : Z) (p : list Z) : option (list Z) :=
  let padding := len p in
  if len p =? 0 then Some p else
  let state := lcgStep (lcgStep (lcgStep seed)) in
  let body := if 20 <? padding then Z.ldiff (padding - 20) 3 else 0 in
  '(written, state, p) ← stunAddr body state p;
  '(written, p) ← stunSoft body written state p;
  let header := stunHeader written seed in
  let copyLen := if 20 <? len p then 20 else len p in
  h ← slice header 0 copyLen;
  p ← copy_to p 0 copyLen h;
  fill_from p (20 + written) 0.

Definition writeSTUN (buf : list Z) (padding seed : Z) : option (list Z) :=
  on_prefix (writeSTUN_p seed) buf padding.

(** ** DNS response *)

Definition dnsHeaderLen : Z := 12.
Definition dnsRootQuestionLen : Z := 5.
Definition dnsOptFixedLen : Z := 11.
Definition dnsOptOptionHdrLen : Z := 4.
Definition dnsOptMin : Z := dnsHeaderLen + dnsRootQuestionLen + dnsOptFixedLen + dnsOptOptionHdrLen.
Definition dnsOptUDPSize : Z := 1232.
Definition dnsOptCoverCode : Z := 0xFDE9.

Definition clampU16 (v : Z) : Z :=
  if v <? 0 then 0 else if 0xFFFF <? v then 0xFFFF else u16 v.

Definition dnsRootQuestion : list Z := [0x00; 0x00; 0x01; 0x00; 0x01].

Fixpoint set_all (p : list Z) (i : Z) (vs : list Z) : option (list Z) :=
  match vs with
  | [] => Some p
  | v :: vs => p ← set_at p i v; set_all p (i + 1) vs
  end.

Definition writeDNSOptResponse (p : list Z) (total : Z) (txid : Z * Z) (question : list Z) : option (list Z) :=
  let optOff := dnsHeaderLen + len question in
  let rdlength := clampU16 (total - (optOff + dnsOptFixedLen)) in
  let optLen := clampU16 (total - (optOff + dnsOptFixedLen + dnsOptOptionHdrLen)) in
  (* header, one indexed store per byte *)
  p ← set_all p 0 [txid.1; txid.2; 0x81; 0x80; 0x00; 0x01; 0x00; 0x00; 0x00; 0x00; 0x00; 0x01];
  p ← copy_to p dnsHeaderLen optOff question;
  let opt := [0x00; 0x00; 0x29;
              u8 (Z.shiftr dnsOptUDPSize 8); u8 (Z.land dnsOptUDPSize 0xFF);
              0x00; 0x00; 0x00; 0x00;
              u8 (Z.shiftr rdlength 8); u8 rdlength;
              u8 (Z.shiftr dnsOptCoverCode 8); u8 (Z.land dnsOptCoverCode 0xFF);
              u8 (Z.shiftr optLen 8); u8 optLen] in
  p ← copy_to p optOff (optOff + len opt) opt;
  fill_from p (optOff + len opt) 0x00.

Definition writeDNSNull (p : list Z) (total : Z) (txid : Z * Z) : option (list Z) :=
  let padding := len p in
  if len p =? 0 then Some p else
  let qdcount := if 17 <=? padding then 1 else 0 in
  let ancount := if 28 <=? padding then 1 else 0 in
  let rdlength := clampU16 (total - 28) in
  let fixed := [txid.1; txid.2; 0x81; 0x80; 0x00; qdcount; 0x00; ancount; 0x00; 0x00; 0x00; 0x00;
                0x00; 0x00; 0x01; 0x00; 0x01;
                0x00; 0x00; 0x0a; 0x00; 0x01; 0x00; 0x00; 0x00; 0x3c;
                u8 (Z.shiftr rdlength 8); u8 rdlength] in
  let advertised := if 28 <=? padding then 28 else if 17 <=? padding then 17 else 12 in
  let copyLen := if len p <? advertised then len p else advertised in
  f ← slice fixed 0 copyLen;
  p ← copy_to p 0 copyLen f;
  fill_from p copyLen 0x00.

Definition writeDNSMsg_p (total : Z) (txid : Z * Z) (p : list Z) : option (list Z) :=
  if len p <? dnsOptMin then writeDNSNull p total txid
  else writeDNSOptResponse p total txid dnsRootQuestion.

Definition writeDNSMsg (buf : list Z) (padding : Z) (txid : Z * Z) : option (list Z) :=
  on_prefix (writeDNSMsg_p (len buf) txid) buf padding.

Definition writeDNS (buf : list Z) (padding seed : Z) : option (list Z) :=
  if padding =? 0 then Some buf else
  payload ← slice buf padding (len buf);
  let txid := (default 0 (payload !! 0%nat), default 0 (payload !! 1%nat)) in
  writeDNSMsg buf padding txid.

Definition writeDNSWhole (buf : list Z) (seed : Z) : option (list Z) :=
  let padding := len buf in
  if padding =? 0 then Some buf else
  let txid := (u8 (Z.shiftr seed 8), u8 seed) in
  writeDNSMsg buf padding txid.

(** ** SIP response *)

Fixpoint decimalDigits_loop (fuel : nat) (value digits : Z) : Z :=
  match fuel with
  | O => digits
  | S f => if 10 <=? value then decimalDigits_loop f (Z.quot value 10) (digits + 1) else digits
  end.
(** Nineteen divisions exhaust every 64-bit [int]. *)
Definition decimalDigits (value : Z) : Z := decimalDigits_loop 19 value 1.

(** The [%08x] verb on a uint32. *)
Definition hex08 (v : Z) : list Z := hexEncode (be_bytes 4 v).

(** The closure [putLine] over [p], [pos] and [length = len p]: whether it wrote,
    and the new [p] and [pos]. *)
Definition putLine (p : list Z) (pos : Z) (line : list Z) : option (bool * list Z * Z) :=
  let n := len line in
  if pos + n + 2 <=? len p then
    p ← copy_to p pos (pos + n) line; Some (true, p, pos + n)
  else Some (false, p, pos).

(** A chain [putLine a && putLine b && ...]. *)
Fixpoint putLines (p : list Z) (pos : Z) (lines : list (list Z)) : option (bool * list Z * Z) :=
  match lines with
  | [] => Some (true, p, pos)
  | l :: ls => '(ok, p, pos) ← putLine p pos l; if (ok : bool) then putLines p pos ls else Some (false, p, pos)
  end.

(** The status loop: the first status line that fits. *)
Fixpoint putFirst (p : list Z) (pos : Z) (lines : list (list Z)) : option (bool * list Z * Z) :=
  match lines with
  | [] => Some (false, p, pos)
  | l :: ls => '(ok, p, pos) ← putLine p pos l; if (ok : bool) then Some (true, p, pos) else putFirst p pos ls
  end.

Definition crlf : list Z := [13; 10].
Definition sipStatus : list (list Z) := [str "100 Trying"; str "180 Ringing"; str "200 OK"].
Definition sipHosts : list (list Z) := [str "sip.example.com"; str "pbx.example.net"; str "voip.example.org"].
Definition sipMethods : list (list Z) := [str "INVITE"; str "OPTIONS"; str "REGISTER"].
Definition sipStatusLine (s : list Z) : list Z := str "SIP/2.0 " ++ s ++ crlf.

(** The inner loop over [digits] for one [sws]: a body length that is consistent
    with its own printed width, if one fits before [length]. *)
Fixpoint clDigits (n : nat) (digits sws pos length total : Z) : option Z :=
  match n with
  | O => None
  | S n' =>
      let headerEnd := pos + len (str "Content-Length:") + sws + digits + 4 in
      if length <? headerEnd then None
      else if decimalDigits (total - headerEnd) =? digits then Some (total - headerEnd)
      else clDigits n' (digits + 1) sws pos length total
  end.

(** The labelled loop [contentLength]: (sws, body). *)
Definition contentLength (pos length total : Z) : option (Z * Z) :=
  let n := Z.to_nat (decimalDigits total) in
  match clDigits n 1 1 pos length total with
  | Some body => Some (1, body)
  | None => body ← clDigits n 1 2 pos length total; Some (2, body)
  end.

Definition contentLengthLine (sws body : Z) : list Z :=
  if sws =? 1 then str "Content-Length: " ++ Itoa body ++ crlf
  else str "Content-Length:  " ++ Itoa body ++ crlf.

(** The fragment written when no status line fits. *)
Definition sipFragment (p : list Z) : option (list Z) :=
  let length := len p in
  let frag := sipStatusLine (str "100 Trying") in
  let take_ := if length <? len frag then length else len frag in
  f ← slice frag 0 take_;
  p ← copy_to p 0 take_ f;
  p ← fill_from p take_ 32;
  if 2 <=? length then p ← set_at p (length - 2) 13; set_at p (length - 1) 10 else Some p.

(** The mandatory header lines after the status line. *)
Definition sipMandatory (seed : Z) : list (list Z) :=
  let st1 := lcgStep seed in let st2 := lcgStep st1 in let st3 := lcgStep st2 in
  let st4 := lcgStep st3 in let st5 := lcgStep st4 in let st6 := lcgStep st5 in let st7 := lcgStep st6 in
  let host := sipHosts !!! Z.to_nat (st1 mod 3) in
  let method := sipMethods !!! Z.to_nat (st2 mod 3) in
  let branch := st3 in let fromTag := st4 in let toTag := st5 in let callID := st6 in
  let cseq := u32 (1 + st7 mod 100000) in
  [ str "Via: SIP/2.0/UDP " ++ host ++ str ":5060;branch=z9hG4bK" ++ hex08 branch ++ str ";rport" ++ crlf;
    str "From: <sip:caller@" ++ host ++ str ">;tag=" ++ hex08 fromTag ++ crlf;
    str "To: <sip:callee@" ++ host ++ str ">;tag=" ++ hex08 toTag ++ crlf;
    str "Call-ID: " ++ hex08 callID ++ str "@" ++ host ++ crlf;
    str "CSeq: " ++ Itoa cseq ++ str " " ++ method ++ crlf ].

Definition writeSIP_p (totalLen seed : Z) (p : list Z) : option (list Z) :=
  if len p =? 0 then Some p else
  let length := len p in
  let statusIdx := seed mod 3 in
  let lines := (fun k => sipStatusLine (sipStatus !!! Z.to_nat ((statusIdx + k) mod 3))) <$> [0; 1; 2] in
  '(statusWritten, p, pos) ← putFirst p 0 lines;
  if negb statusWritten then sipFragment p else
  '(allMandatory, p, pos) ← putLines p pos (sipMandatory seed);
  '(p, pos) ← (if (allMandatory : bool) then
                 match contentLength pos length totalLen with
                 | Some (sws, body) => '(_, p, pos) ← putLine p pos (contentLengthLine sws body); Some (p, pos)
                 | None => Some (p, pos)
                 end
               else Some (p, pos));
  '(p, pos) ← (if pos + 2 <=? length then
                 p ← set_at p pos 13; p ← set_at p (pos + 1) 10; Some (p, pos + 2)
               else Some (p, pos));
  fill_from p pos 32.

Definition writeSIP (buf : list Z) (padding seed : Z) : option (list Z) :=
  on_prefix (writeSIP_p (len buf) seed) buf padding.

(** ** Dispatch *)

Definition imitateFill (buf : list Z) (padding seed : Z) (p : imitateProto) : option (list Z) :=
  match p with
  | imitateQUIC => writeQUICShort buf padding seed
  | imitateDNS => writeDNS buf padding seed
  | imitateSTUN => writeSTUN buf padding seed
  | imitateSIP => writeSIP buf padding seed
  | imitateNone => Some buf
  end.

Definition imitateFillPrefix (buf : list Z) (padding : Z) (p : imitateProto) : option (list Z) :=
  if (padding =? 0) || (len buf <=? padding) then Some buf else
  payload ← slice buf padding (len buf);
  imitateFill buf padding (fnv1aSeed payload) p.

Definition imitateFillWhole (buf : list Z) (seed : Z) (p : imitateProto) : option (list Z) :=
  let padding := len buf in
  match p with
  | imitateQUIC => writeQUICShort buf padding seed
  | imitateDNS => writeDNSWhole buf seed
  | imitateSTUN => writeSTUN buf padding seed
  | imitateSIP => writeSIP buf padding seed
  | imitateNone => Some buf
  end.

(** Device.imitate: the configured protocol and the junk counter. *)
Record deviceImitate := mkDeviceImitate { proto : imitateProto; junkCounter : Z }.

(** [device.fillPadding(buf, padding)]: the new buffer and the rest of the entropy. *)
Definition fillPadding (im : deviceImitate) (buf : list Z) (padding : Z) (s : rng) : option (list Z * rng) :=
  if decide (proto im = imitateNone) then
    p ← slice buf 0 padding;
    let '(r, s) := randRead (length p) s in
    Some (r ++ drop (Z.to_nat padding) buf, s)
  else
    buf ← imitateFillPrefix buf padding (proto im); Some (buf, s).

(** [device.fillJunk(buf)]; the counter of [device.imitate] is advanced. *)
Definition fillJunk (im : deviceImitate) (buf : list Z) (s : rng) : option (list Z * deviceImitate * rng) :=
  if decide (proto im = imitateNone) then
    let '(r, s) := randRead (length buf) s in Some (r, im, s)
  else
    let c := u64 (junkCounter im + 1) in
    buf ← imitateFillWhole buf (imitateJunkSeed c) (proto im);
    Some (buf, {| proto := proto im; junkCounter := c |}, s).

(** ** Writing front to back

    [wr txt p0] is the slice [p0] after its first bytes were overwritten by
    [txt]. Every writer is shown to reach [wr out p0] with an [out] that does not
    depend on [p0] and has the length of [p0]. *)

Definition wr (txt p0 : list Z) : list Z := txt ++ drop (length txt) p0.

Lemma wr_nil p0 : wr [] p0 = p0.
Proof. done. Qed.
Lemma wr_full txt p0 : length txt = length p0 -> wr txt p0 = txt.
Proof. intros H. unfold wr. rewrite H, drop_all. apply app_nil_r. Qed.
Lemma length_wr txt p0 : (length txt <= length p0)%nat -> length (wr txt p0) = length p0.
Proof. intros. unfold wr. autorewrite with len. lia. Qed.
Lemma len_wr txt p0 : len txt <= len p0 -> len (wr txt p0) = len p0.
Proof. intros. unfold len in *. rewrite length_wr; lia. Qed.

Lemma wr_inserts txt l p0 :
  (length txt + length l <= length p0)%nat ->
  list_inserts (length txt) l (wr txt p0) = wr (txt ++ l) p0.
Proof.
  intros H. unfold wr.
  rewrite <- (Nat.add_0_r (length txt)) at 1. rewrite list_inserts_app_r.
  rewrite inserts_0, drop_drop, length_app by (autorewrite with len; lia).
  by rewrite app_assoc.
Qed.

Lemma inserts_singleton (p : list Z) i v : list_inserts i [v] p = <[i := v]> p.
Proof. done. Qed.

Lemma wr_copy_to txt src a b p0 :
  a = len txt -> b = a + len src -> b <= len p0 ->
  copy_to (wr txt p0) a b src = Some (wr (txt ++ src) p0).
Proof.
  intros -> -> H. unfold copy_to. pose proof (len_nonneg txt). pose proof (len_nonneg src).
  rewrite decide_True by (rewrite len_wr; lia). f_equal.
  rewrite take_ge by len_lia. unfold len in *. rewrite Nat2Z.id. apply wr_inserts. lia.
Qed.

Lemma wr_set_at txt v i p0 :
  i = len txt -> i < len p0 -> set_at (wr txt p0) i v = Some (wr (txt ++ [v]) p0).
Proof.
  intros -> H. pose proof (len_nonneg txt). rewrite set_at_Some by (rewrite len_wr; lia).
  f_equal. unfold len in *. rewrite Nat2Z.id, <- inserts_singleton.
  apply wr_inserts. simpl. lia.
Qed.

Lemma wr_put_be n v txt off p0 :
  off = len txt -> off + Z.of_nat n <= len p0 ->
  put_be n (wr txt p0) off v = Some (wr (txt ++ be_bytes n v) p0).
Proof.
  intros -> H. unfold put_be. pose proof (len_nonneg txt).
  rewrite decide_True by (rewrite len_wr; lia). f_equal. unfold len in *. rewrite Nat2Z.id.
  apply wr_inserts. autorewrite with len. lia.
Qed.

Lemma wr_set_all txt vs i p0 :
  i = len txt -> i + len vs <= len p0 -> set_all (wr txt p0) i vs = Some (wr (txt ++ vs) p0).
Proof.
  revert txt i. induction vs as [|v vs IH]; intros txt i -> H; simpl; [by rewrite app_nil_r|].
  assert (len (v :: vs) = 1 + len vs) as E by (unfold len; simpl; lia). rewrite E in H.
  pose proof (len_nonneg vs). rewrite wr_set_at by lia. simpl.
  rewrite IH by len_lia. by rewrite <- app_assoc.
Qed.

Lemma wr_fill_loop n txt i v p0 :
  i = len txt -> i + Z.of_nat n <= len p0 ->
  fill_loop n i v (wr txt p0) = Some (wr (txt ++ replicate n v) p0).
Proof.
  revert txt i. induction n as [|n IH]; intros txt i -> H; simpl; [by rewrite app_nil_r|].
  rewrite wr_set_at by lia. simpl. rewrite IH by len_lia. by rewrite <- app_assoc.
Qed.

Lemma wr_fill_from txt i v p0 :
  i = len txt -> i <= len p0 ->
  fill_from (wr txt p0) i v = Some (txt ++ replicate (Z.to_nat (len p0 - i)) v).
Proof.
  intros -> H. unfold fill_from. rewrite len_wr by done.
  rewrite wr_fill_loop by (try done; lia). f_equal. apply wr_full. len_lia.
Qed.

(** A writer that turns every slice of length [n] into the same [n] bytes. *)
Definition emits (w : list Z -> option (list Z)) (n : nat) (out : list Z) : Prop :=
  length out = n /\ forall p, length p = n -> w p = Some out.

Lemma len_length {A} (p : list A) n : length p = n -> len p = Z.of_nat n.
Proof. unfold len. by intros ->. Qed.

(** *** QUIC *)

Fixpoint lcgBytes (n : nat) (state : Z) : list Z :=
  match n with O => [] | S n' => u8 (Z.shiftr state 16) :: lcgBytes n' (lcgStep state) end.

Lemma length_lcgBytes n s : length (lcgBytes n s) = n.
Proof. revert s. induction n; intros; simpl; auto. Qed.
#[export] Hint Rewrite length_lcgBytes : len.

Lemma wr_quicLoop n txt i state p0 :
  i = len txt -> i + Z.of_nat n <= len p0 ->
  quicLoop n i state (wr txt p0) = Some (wr (txt ++ lcgBytes n state) p0).
Proof.
  revert txt i state. induction n as [|n IH]; intros txt i state -> H; simpl; [by rewrite app_nil_r|].
  rewrite wr_set_at by lia. simpl. rewrite IH by len_lia. by rewrite <- app_assoc.
Qed.

Definition quicFirst (seed : Z) : Z :=
  Z.lor (Z.lor (Z.lor 0x40 (u8 (Z.shiftl (Z.land (u8 (Z.shiftr seed 8)) 1) 5)))
               (u8 (Z.shiftl (Z.land (u8 (Z.shiftr (lcgStep seed) 8)) 1) 2)))
        (Z.land (u8 (lcgStep (lcgStep seed))) 3).

Definition quicOut (n : nat) (seed : Z) : list Z :=
  match n with O => [] | S n' => quicFirst seed :: lcgBytes n' (lcgStep (lcgStep (lcgStep seed))) end.

Lemma quic_emits n seed : emits (writeQUICShort_p seed) n (quicOut n seed).
Proof.
  split; [destruct n; simpl; by autorewrite with len|]. intros p Hp. unfold writeQUICShort_p.
  destruct n as [|n]; [by destruct p|].
  rewrite (len_length _ _ Hp), (proj2 (Z.eqb_neq _ 0)) by lia.
  rewrite <- (wr_nil p) at 1. rewrite (wr_set_at []) by (rewrite ?(len_length _ _ Hp); done || lia).
  cbn [mbind option_bind]. rewrite len_wr by (rewrite (len_length _ _ Hp); unfold len; simpl; lia).
  rewrite (len_length _ _ Hp), wr_quicLoop by (rewrite ?(len_length _ _ Hp); done || lia).
  replace (Z.to_nat (Z.of_nat (S n) - 1)) with n by lia.
  f_equal. apply wr_full. simpl. autorewrite with len. lia.
Qed.

(** *** STUN *)

Lemma ldiff3 x : 0 <= x -> Z.ldiff x 3 = 4 * (x / 4).
Proof.
  intros Hx. change 3 with (Z.ones 2). rewrite Z.ldiff_ones_r by lia.
  rewrite Z.shiftr_div_pow2, Z.shiftl_mul_pow2 by lia. change (2 ^ 2) with 4. lia.
Qed.

Fixpoint softBytes (n : nat) (state : Z) : list Z :=
  match n with O => [] | S n' => u8 (0x20 + u8 (state mod 0x5F)) :: softBytes n' (lcgStep state) end.

Lemma length_softBytes n s : length (softBytes n s) = n.
Proof. revert s. induction n; intros; simpl; auto. Qed.
#[export] Hint Rewrite length_softBytes : len.

Lemma wr_stunSoftware n txt i state p0 :
  i = len txt -> i + Z.of_nat n <= len p0 ->
  exists st', stunSoftware n i state (wr txt p0) = Some (wr (txt ++ softBytes n state) p0, st').
Proof.
  revert txt i state. induction n as [|n IH]; intros txt i state -> H; cbn [stunSoftware softBytes].
  - eexists. by rewrite app_nil_r.
  - rewrite wr_set_at by lia. cbn [mbind option_bind].
    destruct (IH (txt ++ [u8 (0x20 + u8 (state mod 0x5F))]) (len txt + 1) (lcgStep state)) as [st' ->];
      [len_lia|lia|]. eexists. by rewrite <- app_assoc.
Qed.

(** The attribute bytes and the LCG state after the address attribute. *)
Definition addrAttr (state : Z) : list Z :=
  be_bytes 2 0x0020 ++ be_bytes 2 8 ++ [0x00; 0x01] ++
  be_bytes 2 (Z.lxor (u16 (Z.shiftr state 16)) (u16 (Z.shiftr stunCookie 16))) ++
  be_bytes 4 (Z.lxor (lcgStep state) stunCookie).
Definition softAttr (vlen state : Z) : list Z :=
  be_bytes 2 0x8022 ++ be_bytes 2 (u16 vlen) ++ softBytes (Z.to_nat vlen) state.

Definition softLen (remaining : Z) : Z := Z.min 124 (remaining - 4).

Definition stunAttrs (body state : Z) : list Z :=
  if 12 <=? body then
    addrAttr state ++
    (if 4 <=? body - 12 then softAttr (softLen (body - 12)) (lcgStep (lcgStep state)) else [])
  else if 4 <=? body then softAttr (softLen body) state else [].

Lemma length_addrAttr st : length (addrAttr st) = 12%nat.
Proof. unfold addrAttr. by autorewrite with len. Qed.
Lemma len_softAttr v st : 0 <= v -> len (softAttr v st) = 4 + v.
Proof. intros. unfold softAttr. len_lia. Qed.

Lemma wr_stunAddr h0 body state p0 :
  len h0 = 20 -> 20 + body <= len p0 -> 0 <= body ->
  stunAddr body state (wr h0 p0) =
  Some (if 12 <=? body then (12, lcgStep (lcgStep state), wr (h0 ++ addrAttr state) p0)
        else (0, state, wr h0 p0)).
Proof.
  intros Hh Hp Hb. unfold stunAddr. destruct (Z.leb_spec 12 body); [|done].
  rewrite wr_put_be by lia. cbn [mbind option_bind].
  rewrite wr_put_be by len_lia. cbn [mbind option_bind].
  rewrite wr_set_at by len_lia. cbn [mbind option_bind].
  rewrite wr_set_at by len_lia. cbn [mbind option_bind].
  rewrite wr_put_be by len_lia. cbn [mbind option_bind].
  rewrite wr_put_be by len_lia. cbn [mbind option_bind].
  unfold addrAttr. rewrite <- !app_assoc. done.
Qed.

Lemma wr_stunSoft txt body written state p0 :
  20 + written = len txt -> 20 + body <= len p0 ->
  stunSoft body written state (wr txt p0) =
  Some (if 4 <=? body - written
        then (written + (4 + softLen (body - written)),
              wr (txt ++ softAttr (softLen (body - written)) state) p0)
        else (written, wr txt p0)).
Proof.
  intros Ht Hp. unfold stunSoft. destruct (Z.leb_spec 4 (body - written)); [|done].
  set (v := if 124 <? body - written - 4 then 124 else body - written - 4).
  assert (v = softLen (body - written)) as Hv
    by (unfold v, softLen; destruct (Z.ltb_spec 124 (body - written - 4)); lia).
  assert (0 <= v <= body - written - 4) by (rewrite Hv; unfold softLen; lia). rewrite <- Hv. clearbody v.
  rewrite wr_put_be by lia. cbn [mbind option_bind].
  rewrite wr_put_be by len_lia. cbn [mbind option_bind].
  destruct (wr_stunSoftware (Z.to_nat v) ((txt ++ be_bytes 2 0x8022) ++ be_bytes 2 (u16 v))
    (20 + written + 4) state p0) as [st' ->]; [len_lia|lia|]. cbn [mbind option_bind].
  unfold softAttr. by rewrite <- !app_assoc.
Qed.

Lemma wr_head h h0 t p0 :
  length h = length h0 -> list_inserts 0 h (wr (h0 ++ t) p0) = wr (h ++ t) p0.
Proof.
  intros H. unfold wr. rewrite <- !app_assoc, list_inserts_0_r by done.
  by rewrite !length_app, H.
Qed.

Lemma length_stunHeader w seed : length (stunHeader w seed) = 20%nat.
Proof. unfold stunHeader, stunTxn. by autorewrite with len. Qed.
#[export] Hint Rewrite length_stunHeader length_addrAttr : len.

Definition stunBody (n : nat) : Z := if 20 <? Z.of_nat n then Z.ldiff (Z.of_nat n - 20) 3 else 0.
Definition stunOut (n : nat) (seed : Z) : list Z :=
  let attrs := stunAttrs (stunBody n) (lcgStep (lcgStep (lcgStep seed))) in
  take n (stunHeader (len attrs) seed ++ attrs ++ replicate (n - 20 - length attrs) 0).

Lemma len_stunAttrs body st : 0 <= body ->
  len (stunAttrs body st) =
  if 12 <=? body then 12 + (if 4 <=? body - 12 then 4 + softLen (body - 12) else 0)
  else if 4 <=? body then 4 + softLen body else 0.
Proof.
  intros Hb. unfold stunAttrs. destruct (Z.leb_spec 12 body).
  - rewrite len_app. change (len (addrAttr st)) with 12. f_equal.
    destruct (Z.leb_spec 4 (body - 12)); [|done]. apply len_softAttr. unfold softLen. lia.
  - destruct (Z.leb_spec 4 body); [|done]. apply len_softAttr. unfold softLen. lia.
Qed.

Lemma stunAttrs_fit body st : 0 <= body -> body mod 4 = 0 ->
  0 <= len (stunAttrs body st) <= body /\ len (stunAttrs body st) mod 4 = 0 /\
  len (stunAttrs body st) <= 140.
Proof.
  intros Hb Hm. rewrite len_stunAttrs by done. unfold softLen.
  repeat match goal with |- context [Z.leb ?a ?b] => destruct (Z.leb_spec a b) end;
    Z.div_mod_to_equations; lia.
Qed.

Lemma stunBody_spec n : 0 <= stunBody n <= Z.max 0 (Z.of_nat n - 20) /\ stunBody n mod 4 = 0.
Proof.
  unfold stunBody. destruct (Z.ltb_spec 20 (Z.of_nat n)); [|split; [lia|done]].
  rewrite ldiff3 by lia. Z.div_mod_to_equations; lia.
Qed.

Lemma wr_stunAttrs h0 body state p0 :
  len h0 = 20 -> 20 + body <= len p0 -> 0 <= body ->
  ('(written, st, q) ← stunAddr body state (wr h0 p0); stunSoft body written st q) =
  Some (len (stunAttrs body state), wr (h0 ++ stunAttrs body state) p0).
Proof.
  intros Hh Hp Hb. rewrite wr_stunAddr, len_stunAttrs by done. unfold stunAttrs.
  destruct (Z.leb_spec 12 body); cbn [mbind option_bind]; rewrite wr_stunSoft by len_lia.
  - destruct (4 <=? body - 12); by rewrite ?app_nil_r, <- ?app_assoc.
  - rewrite Z.sub_0_r. destruct (4 <=? body); by rewrite ?app_nil_r.
Qed.

Lemma stun_emits n seed : emits (writeSTUN_p seed) n (stunOut n seed).
Proof.
  destruct (stunBody_spec n) as [Hb Hm].
  pose proof (stunAttrs_fit _ (lcgStep (lcgStep (lcgStep seed))) (proj1 Hb) Hm) as (Hfit & _ & _).
  unfold stunOut. set (attrs := stunAttrs _ _) in *. split.
  { len_lia. }
  intros p Hp. pose proof (len_length _ _ Hp) as Hlen. unfold writeSTUN_p. rewrite Hlen.
  destruct (Z.eqb_spec (Z.of_nat n) 0) as [H0|H0].
  { replace n with 0%nat in * by lia. by destruct p. }
  fold (stunBody n). destruct (decide (20 < Z.of_nat n)) as [Hbig|Hsmall].
  - assert (len (take 20 p) = 20) as Ht by len_lia.
    replace p with (wr (take 20 p) p) at 1
      by (unfold wr; rewrite length_take, Nat.min_l by lia; apply take_drop).
    pose proof (wr_stunAttrs (take 20 p) (stunBody n) (lcgStep (lcgStep (lcgStep seed))) p Ht
      ltac:(lia) ltac:(lia)) as Hattrs.
    destruct (stunAddr _ _ _) as [[[w st] q]|]; [|done]. cbn [mbind option_bind] in Hattrs |- *.
    rewrite Hattrs. fold attrs.
    cbn [mbind option_bind]. rewrite len_wr, Hlen by len_lia.
    rewrite (proj2 (Z.ltb_lt 20 _)) by lia.
    assert (forall w, len (stunHeader w seed) = 20) as Hh by (intros; len_lia).
    rewrite (slice_prefix (stunHeader _ _)) by (rewrite ?Hh; lia). cbn [mbind option_bind].
    rewrite (take_ge (stunHeader _ _)) by len_lia.
    unfold copy_to. rewrite decide_True by (rewrite len_wr; len_lia). cbn [mbind option_bind].
    rewrite (take_ge (stunHeader _ _)) by len_lia. simpl (Z.to_nat 0).
    rewrite wr_head by len_lia. rewrite wr_fill_from by len_lia.
    f_equal. rewrite take_ge by len_lia. rewrite <- app_assoc. do 3 f_equal. len_lia.
  - assert (stunBody n = 0) as Hb0 by lia. rewrite Hb0. change (stunAddr 0 ?s ?q) with (Some (0, s, q)). cbn [mbind option_bind].
    change (stunSoft 0 0 ?s ?q) with (Some (0, q)). cbn [mbind option_bind].
    assert (attrs = []) as -> by (unfold attrs; by rewrite Hb0).
    rewrite Hlen. replace (20 <? Z.of_nat n) with false by (symmetry; apply Z.ltb_ge; lia).
    rewrite slice_prefix by len_lia. cbn [mbind option_bind].
    rewrite <- (wr_nil p) at 1. rewrite (wr_copy_to []) by len_lia. cbn [mbind option_bind].
    unfold fill_from. rewrite len_wr by len_lia. replace (Z.to_nat (len p - (20 + 0))) with 0%nat by lia.
    cbn [fill_loop]. f_equal. rewrite wr_full by len_lia.
    rewrite take_app_le by len_lia. by rewrite Nat2Z.id.
Qed.

(** *** DNS *)

Definition dnsHeaderBytes (txid : Z * Z) (qd an ar : Z) : list Z :=
  [txid.1; txid.2; 0x81; 0x80; 0x00; qd; 0x00; an; 0x00; 0x00; 0x00; ar].

Definition dnsOptBytes (total : Z) : list Z :=
  let rdlength := clampU16 (total - 28) in
  let optLen := clampU16 (total - 32) in
  [0x00; 0x00; 0x29; 0x04; 0xD0; 0x00; 0x00; 0x00; 0x00;
   u8 (Z.shiftr rdlength 8); u8 rdlength; 0xFD; 0xE9; u8 (Z.shiftr optLen 8); u8 optLen].

Definition dnsOptOut (n : nat) (total : Z) (txid : Z * Z) : list Z :=
  dnsHeaderBytes txid 1 0 1 ++ dnsRootQuestion ++ dnsOptBytes total ++ replicate (n - 32) 0.

Lemma dnsOpt_emits n total txid :
  (32 <= n)%nat ->
  emits (fun p => writeDNSOptResponse p total txid dnsRootQuestion) n (dnsOptOut n total txid).
Proof.
  intros Hn. split; [unfold dnsOptOut; len_lia|]. intros p Hp.
  pose proof (len_length _ _ Hp) as Hlen. unfold writeDNSOptResponse.
  change (dnsHeaderLen + len dnsRootQuestion) with 17.
  rewrite <- (wr_nil p) at 1. rewrite (wr_set_all []) by (rewrite ?Hlen; unfold len; simpl; lia).
  cbn [mbind option_bind]. rewrite wr_copy_to by (rewrite ?Hlen; done || lia). cbn [mbind option_bind].
  rewrite wr_copy_to by (rewrite ?Hlen; unfold len; simpl; lia). cbn [mbind option_bind].
  rewrite wr_fill_from by (rewrite ?Hlen; unfold len; simpl; lia).
  unfold dnsOptOut. rewrite <- !app_assoc, Hlen. f_equal. simpl.
  repeat (apply f_equal2; [done|]). f_equal. unfold len; simpl; lia.
Qed.

Definition dnsNullBytes (n : nat) (total : Z) (txid : Z * Z) : list Z :=
  let rdlength := clampU16 (total - 28) in
  dnsHeaderBytes txid (if 17 <=? Z.of_nat n then 1 else 0) (if 28 <=? Z.of_nat n then 1 else 0) 0 ++
  [0x00; 0x00; 0x01; 0x00; 0x01] ++
  [0x00; 0x00; 0x0a; 0x00; 0x01; 0x00; 0x00; 0x00; 0x3c; u8 (Z.shiftr rdlength 8); u8 rdlength].

Definition dnsNullLen (n : nat) : nat :=
  if (28 <=? n)%nat then 28 else if (17 <=? n)%nat then 17 else if (12 <=? n)%nat then 12 else n.

Definition dnsNullOut (n : nat) (total : Z) (txid : Z * Z) : list Z :=
  take (dnsNullLen n) (dnsNullBytes n total txid) ++ replicate (n - dnsNullLen n) 0.

Lemma dnsNull_emits n total txid :
  emits (fun p => writeDNSNull p total txid) n (dnsNullOut n total txid).
Proof.
  assert (length (dnsNullBytes n total txid) = 28%nat) as Hnb by done.
  assert (dnsNullLen n <= 28 /\ dnsNullLen n <= n)%nat as [Hk Hk'].
  { unfold dnsNullLen. repeat case_match; repeat match goal with H : (_ <=? _)%nat = _ |- _ =>
      apply Nat.leb_le in H || apply Nat.leb_gt in H end; lia. }
  unfold dnsNullOut. split; [rewrite length_app, length_take, length_replicate, Hnb; lia|].
  intros p Hp. pose proof (len_length _ _ Hp) as Hlen. unfold writeDNSNull. rewrite Hlen.
  destruct (Z.eqb_spec (Z.of_nat n) 0) as [H0|H0].
  { replace n with 0%nat in * by lia. by destruct p. }
  set (c := if Z.of_nat n <? _ then _ else _).
  assert (c = Z.of_nat (dnsNullLen n)) as Hc.
  { subst c. unfold dnsNullLen.
    destruct (Z.leb_spec 28 (Z.of_nat n)), (Z.leb_spec 17 (Z.of_nat n)),
      (Nat.leb_spec 28 n), (Nat.leb_spec 17 n), (Nat.leb_spec 12 n); try lia;
      match goal with |- context [?a <? ?b] => destruct (Z.ltb_spec a b) end; lia. }
  rewrite Hc. clear Hc c. fold (dnsNullBytes n total txid).
  change [txid.1; txid.2; 0x81; 0x80; 0x00; if 17 <=? Z.of_nat n then 1 else 0; 0x00;
    if 28 <=? Z.of_nat n then 1 else 0; 0x00; 0x00; 0x00; 0x00; 0x00; 0x00; 0x01; 0x00; 0x01;
    0x00; 0x00; 0x0a; 0x00; 0x01; 0x00; 0x00; 0x00; 0x3c;
    u8 (Z.shiftr (clampU16 (total - 28)) 8); u8 (clampU16 (total - 28))] with (dnsNullBytes n total txid).
  rewrite slice_prefix by (unfold len; rewrite Hnb; lia). cbn [mbind option_bind]. rewrite Nat2Z.id.
  assert (len (take (dnsNullLen n) (dnsNullBytes n total txid)) = Z.of_nat (dnsNullLen n)) as Ht
    by (unfold len; rewrite length_take, Hnb; lia).
  rewrite <- (wr_nil p) at 1. rewrite (wr_copy_to []) by (rewrite ?Ht, ?Hlen; done || lia).
  cbn [mbind option_bind app]. rewrite wr_fill_from by (rewrite ?Ht, ?Hlen; done || lia).
  do 3 f_equal. lia.
Qed.

Definition dnsOut (n : nat) (total : Z) (txid : Z * Z) : list Z :=
  if Z.of_nat n <? dnsOptMin then dnsNullOut n total txid else dnsOptOut n total txid.

Lemma dns_emits n total txid : emits (writeDNSMsg_p total txid) n (dnsOut n total txid).
Proof.
  unfold writeDNSMsg_p, dnsOut. change dnsOptMin with 32.
  destruct (Z.ltb_spec (Z.of_nat n) 32).
  - destruct (dnsNull_emits n total txid) as [Hl Hw]. split; [done|]. intros p Hp.
    rewrite (len_length _ _ Hp), (proj2 (Z.ltb_lt (Z.of_nat n) 32)) by done. by apply Hw.
  - destruct (dnsOpt_emits n total txid) as [Hl Hw]; [lia|]. split; [done|]. intros p Hp.
    rewrite (len_length _ _ Hp), (proj2 (Z.ltb_ge (Z.of_nat n) 32)) by done. by apply Hw.
Qed.

(** *** SIP *)

(** The text-level reading of [putLine] and its loops, [n] the length of the slice. *)
Definition addLine (n : Z) (txt line : list Z) : bool * list Z :=
  if len txt + len line + 2 <=? n then (true, txt ++ line) else (false, txt).
Fixpoint addLines (n : Z) (txt : list Z) (lines : list (list Z)) : bool * list Z :=
  match lines with
  | [] => (true, txt)
  | l :: ls => let '(ok, txt) := addLine n txt l in if ok then addLines n txt ls else (false, txt)
  end.
Fixpoint addFirst (n : Z) (txt : list Z) (lines : list (list Z)) : bool * list Z :=
  match lines with
  | [] => (false, txt)
  | l :: ls => let '(ok, txt) := addLine n txt l in if ok then (true, txt) else addFirst n txt ls
  end.

Lemma wr_putLine txt line p0 :
  putLine (wr txt p0) (len txt) line =
  if decide (len txt <= len p0) then
    let '(ok, t) := addLine (len p0) txt line in Some (ok, wr t p0, len t)
  else putLine (wr txt p0) (len txt) line.
Proof.
  case_decide as Hl; [|done]. unfold putLine, addLine. rewrite len_wr by done.
  destruct (Z.leb_spec (len txt + len line + 2) (len p0)); [|done].
  rewrite wr_copy_to by lia. cbn [mbind option_bind]. by rewrite len_app.
Qed.

Lemma addLine_len n txt line : len txt <= n -> len (addLine n txt line).2 <= n.
Proof.
  intros H. unfold addLine. destruct (Z.leb_spec (len txt + len line + 2) n); simpl; [|done].
  rewrite len_app. lia.
Qed.

Lemma wr_putLines txt lines p0 :
  len txt <= len p0 ->
  putLines (wr txt p0) (len txt) lines =
  (let '(ok, t) := addLines (len p0) txt lines in Some (ok, wr t p0, len t)) /\
  len (addLines (len p0) txt lines).2 <= len p0.
Proof.
  revert txt. induction lines as [|l ls IH]; intros txt Hl; simpl; [done|].
  rewrite wr_putLine, decide_True by done.
  pose proof (addLine_len (len p0) txt l Hl) as Hl'.
  destruct (addLine (len p0) txt l) as [[] t]; simpl in *; [by apply IH|done].
Qed.

Lemma wr_putFirst txt lines p0 :
  len txt <= len p0 ->
  putFirst (wr txt p0) (len txt) lines =
  (let '(ok, t) := addFirst (len p0) txt lines in Some (ok, wr t p0, len t)) /\
  len (addFirst (len p0) txt lines).2 <= len p0 /\
  ((addFirst (len p0) txt lines).1 = false -> (addFirst (len p0) txt lines).2 = txt).
Proof.
  revert txt. induction lines as [|l ls IH]; intros txt Hl; simpl; [done|].
  rewrite wr_putLine, decide_True by done.
  pose proof (addLine_len (len p0) txt l Hl) as Hl'.
  destruct (addLine (len p0) txt l) as [[] t] eqn:E; simpl in *; [done|].
  unfold addLine in E. case_match; simplify_eq. by apply IH.
Qed.

Definition sipFrag : list Z := sipStatusLine (str "100 Trying").
Definition fragOut (n : nat) : list Z :=
  let base := take n sipFrag ++ replicate (n - length sipFrag) 32 in
  if (2 <=? n)%nat then take (n - 2) base ++ crlf else base.

Lemma sipFragment_emits n : emits sipFragment n (fragOut n).
Proof.
  assert (length sipFrag = 20%nat) as Hf by done.
  assert (length (take n sipFrag ++ replicate (n - length sipFrag) 32) = n) as Hb by len_lia.
  unfold fragOut. split.
  { destruct (Nat.leb_spec 2 n); [|done].
    rewrite length_app, length_take, Hb. simpl. lia. }
  intros p Hp. pose proof (len_length _ _ Hp) as Hlen. unfold sipFragment. fold sipFrag.
  change (len sipFrag) with 20. rewrite Hlen.
  set (t := if Z.of_nat n <? 20 then _ else _).
  assert (t = Z.of_nat (n `min` 20)) as -> by (subst t; destruct (Z.ltb_spec (Z.of_nat n) 20); lia).
  rewrite slice_prefix by (unfold len; rewrite Hf; lia). cbn [mbind option_bind]. rewrite Nat2Z.id.
  assert (len (take (n `min` 20) sipFrag) = Z.of_nat (n `min` 20)) as Ht by len_lia.
  rewrite <- (wr_nil p) at 1. rewrite (wr_copy_to []) by (rewrite ?Ht, ?Hlen; done || lia).
  cbn [mbind option_bind app]. rewrite wr_fill_from by (rewrite ?Ht, ?Hlen; done || lia).
  cbn [mbind option_bind].
  assert (take (n `min` 20) sipFrag = take n sipFrag) as ->.
  { destruct (decide (n <= 20)%nat); [by rewrite Nat.min_l|]. rewrite Nat.min_r by lia.
    by rewrite !take_ge by lia. }
  replace (Z.to_nat (len p - Z.of_nat (n `min` 20))) with (n - length sipFrag)%nat by lia.
  set (base := take n sipFrag ++ replicate (n - length sipFrag) 32) in *.
  destruct (Nat.leb_spec 2 n) as [H2|H2]; [|rewrite (proj2 (Z.leb_gt _ _)) by lia; done].
  rewrite (proj2 (Z.leb_le _ _)) by lia.
  replace base with (wr (take (n - 2) base) base) at 1
    by (unfold wr; rewrite length_take, Nat.min_l by lia; apply take_drop).
  rewrite wr_set_at by len_lia. cbn [mbind option_bind]. rewrite wr_set_at by len_lia.
  f_equal. rewrite <- app_assoc. apply wr_full. len_lia.
Qed.

(** Status and mandatory lines, as far as they fit: (all of them, text). *)
Definition sipStatusLines (seed : Z) : list (list Z) :=
  (fun k => sipStatusLine (sipStatus !!! Z.to_nat ((seed mod 3 + k) mod 3))) <$> [0; 1; 2].

Definition sipClose (n : Z) (txt : list Z) : list Z :=
  let txt := if len txt + 2 <=? n then txt ++ crlf else txt in
  txt ++ replicate (Z.to_nat (n - len txt)) 32.

Definition sipOut (n : nat) (total seed : Z) : list Z :=
  if (n =? 0)%nat then [] else
  match addFirst (Z.of_nat n) [] (sipStatusLines seed) with
  | (false, _) => fragOut n
  | (true, txt) =>
      let '(all, txt) := addLines (Z.of_nat n) txt (sipMandatory seed) in
      sipClose (Z.of_nat n)
        (if all then
           match contentLength (len txt) (Z.of_nat n) total with
           | Some (sws, body) => (addLine (Z.of_nat n) txt (contentLengthLine sws body)).2
           | None => txt
           end
         else txt)
  end.

Lemma wr_close txt p0 :
  len txt <= len p0 ->
  ('(p, pos) ← (if len txt + 2 <=? len p0 then
                  p ← set_at (wr txt p0) (len txt) 13; p ← set_at p (len txt + 1) 10; Some (p, len txt + 2)
                else Some (wr txt p0, len txt));
   fill_from p pos 32) = Some (sipClose (len p0) txt).
Proof.
  intros Hl. unfold sipClose. destruct (Z.leb_spec (len txt + 2) (len p0)).
  - rewrite wr_set_at by lia. cbn [mbind option_bind]. rewrite wr_set_at by (rewrite ?len_app; done || lia).
    cbn [mbind option_bind]. rewrite <- app_assoc. change ([13] ++ [10]) with crlf.
    rewrite wr_fill_from by (rewrite ?len_app; unfold crlf, len in *; simpl; lia).
    do 3 f_equal. rewrite len_app. unfold crlf, len. simpl. lia.
  - cbn [mbind option_bind]. by rewrite wr_fill_from.
Qed.

Lemma length_sipClose n txt : 0 <= n -> len txt <= n -> len (sipClose n txt) = n.
Proof.
  intros Hn Hl. unfold sipClose. destruct (Z.leb_spec (len txt + 2) n).
  all: rewrite ?len_app; unfold crlf; len_lia.
Qed.

Lemma sip_emits n total seed : emits (writeSIP_p total seed) n (sipOut n total seed).
Proof.
  assert (forall p, length p = n -> writeSIP_p total seed p = Some (sipOut n total seed) /\
    length (sipOut n total seed) = n) as H;
    [|split; [apply (H (replicate n 0)); apply length_replicate|intros; by apply H]].
  intros p Hp. pose proof (len_length _ _ Hp) as Hlen. unfold writeSIP_p, sipOut. rewrite <- Hlen.
  destruct (Z.eqb_spec (len p) 0) as [H0|H0].
  { replace n with 0%nat in * by lia. by destruct p. }
  rewrite (proj2 (Nat.eqb_neq n 0)) by lia. fold (sipStatusLines seed).
  destruct (wr_putFirst [] (sipStatusLines seed) p) as (Hw & Hl1 & Hno); [unfold len; simpl; lia|].
  rewrite wr_nil in Hw. change (len []) with 0 in Hw. rewrite Hw.
  destruct (addFirst (len p) [] (sipStatusLines seed)) as [[] txt]; cbn [mbind option_bind negb] in *.
  2: { simpl in Hno. rewrite Hno, wr_nil by done. destruct (sipFragment_emits n) as [? Hs]. by rewrite Hs. }
  simpl in Hl1. destruct (wr_putLines txt (sipMandatory seed) p Hl1) as [Hw2 Hl2]. rewrite Hw2.
  destruct (addLines (len p) txt (sipMandatory seed)) as [all t]; cbn [mbind option_bind]. simpl in Hl2.
  assert (exists t', len t' <= len p /\
    (if all then match contentLength (len t) (len p) total with
                 | Some (sws, body) => (addLine (len p) t (contentLengthLine sws body)).2
                 | None => t end else t) = t' /\
    (if all then match contentLength (len t) (len p) total with
                 | Some (sws, body) => '(_, p, pos) ← putLine (wr t p) (len t) (contentLengthLine sws body); Some (p, pos)
                 | None => Some (wr t p, len t) end else Some (wr t p, len t)) = Some (wr t' p, len t'))
    as (t' & Hl3 & -> & ->).
  { destruct all; [|by exists t]. destruct (contentLength _ _ _) as [[sws body]|]; [|by exists t].
    rewrite wr_putLine, decide_True by done.
    pose proof (addLine_len (len p) t (contentLengthLine sws body) Hl2).
    destruct (addLine _ _ _) as [ok t']. by exists t'. }
  cbn [mbind option_bind]. rewrite wr_close by done. split; [done|].
  pose proof (length_sipClose (len p) t' (len_nonneg p) Hl3) as Hc. unfold len in Hc at 1. lia.
Qed.

(** ** Frames: what each dispatcher emits *)

(** The bytes [imitateFill] puts in the prefix of a datagram with tail [payload]. *)
Definition fillOut (p : imitateProto) (padding : nat) (payload : list Z) (seed : Z) : list Z :=
  let total := Z.of_nat padding + len payload in
  match p with
  | imitateQUIC => quicOut padding seed
  | imitateDNS => dnsOut padding total (default 0 (payload !! 0%nat), default 0 (payload !! 1%nat))
  | imitateSTUN => stunOut padding seed
  | imitateSIP => sipOut padding total seed
  | imitateNone => []
  end.

Lemma on_prefix_emits w n out stale tail_ :
  emits w n out -> length stale = n ->
  on_prefix w (stale ++ tail_) (Z.of_nat n) = Some (out ++ tail_).
Proof.
  intros [Hl Hw] Hs. unfold on_prefix.
  rewrite slice_prefix by len_lia. cbn [mbind option_bind].
  rewrite Nat2Z.id, take_app_length' by done. rewrite Hw by done. cbn [mbind option_bind].
  by rewrite drop_app_length' by done.
Qed.

Lemma length_fillOut p n payload seed : p <> imitateNone -> length (fillOut p n payload seed) = n.
Proof.
  intros Hp. destruct p; [done|apply quic_emits|apply dns_emits|apply stun_emits|apply sip_emits].
Qed.

Lemma imitateFill_eq p stale payload seed :
  p <> imitateNone ->
  imitateFill (stale ++ payload) (len stale) seed p = Some (fillOut p (length stale) payload seed ++ payload).
Proof.
  intros Hp. unfold len, imitateFill, fillOut. destruct p; [done| | | |].
  - by apply on_prefix_emits; [apply quic_emits|].
  - unfold writeDNS. destruct (Z.eqb_spec (Z.of_nat (length stale)) 0) as [H0|H0].
    { by destruct stale. }
    rewrite slice_suffix by len_lia. cbn [mbind option_bind]. rewrite Nat2Z.id, drop_app_length.
    unfold writeDNSMsg. rewrite len_app.
    by apply (on_prefix_emits (writeDNSMsg_p (len stale + len payload) _)); [apply dns_emits|].
  - by apply on_prefix_emits; [apply stun_emits|].
  - unfold writeSIP. rewrite len_app. by apply on_prefix_emits; [apply sip_emits|].
Qed.

Lemma imitateFillWhole_total p buf seed :
  exists out, imitateFillWhole buf seed p = Some out /\ length out = length buf.
Proof.
  assert (forall w out, emits w (length buf) out ->
    exists o, on_prefix w buf (len buf) = Some o /\ length o = length buf) as Hon.
  { intros w out Hw. exists out. split; [|apply Hw].
    pose proof (on_prefix_emits w (length buf) out buf [] Hw eq_refl) as H. by rewrite !app_nil_r in H. }
  unfold imitateFillWhole. destruct p; [by exists buf|..].
  - eapply Hon, quic_emits.
  - unfold writeDNSWhole. destruct (len buf =? 0); [by exists buf|]. eapply Hon, dns_emits.
  - eapply Hon, stun_emits.
  - eapply Hon, sip_emits.
Qed.

(** ** Properties: padding and junk *)

(** C23: with an imitated protocol configured, filling the padding of any datagram never
    indexes out of range, replaces all of the padding by bytes that depend only on the
    packet behind it (nothing of the old buffer leaks), and leaves that packet alone. *)
Theorem imitate_fill_frame (p : imitateProto) (payload : list Z) (padding seed : Z) :
  p <> imitateNone -> 0 <= padding ->
  exists out, len out = padding /\
    forall stale, len stale = padding ->
      imitateFill (stale ++ payload) padding seed p = Some (out ++ payload).
Proof.
  intros Hp Hpad. exists (fillOut p (Z.to_nat padding) payload seed). split.
  - unfold len. rewrite length_fillOut by done. lia.
  - intros stale Hs. rewrite <- Hs, imitateFill_eq by done. unfold len. by rewrite Nat2Z.id.
Qed.

Lemma imitate_fill_frame_witness :
  exists out, len out = 40 /\
    forall stale, len stale = 40 ->
      imitateFill (stale ++ [1; 2; 3; 4]) 40 7 imitateSTUN = Some (out ++ [1; 2; 3; 4]).
Proof. apply imitate_fill_frame; [discriminate|lia]. Defined.

Lemma fillPadding_spec (im : deviceImitate) (buf : list Z) (padding : Z) (s : rng) :
  0 <= padding <= len buf ->
  exists buf' s', fillPadding im buf padding s = Some (buf', s') /\
    len buf' = len buf /\ drop (Z.to_nat padding) buf' = drop (Z.to_nat padding) buf.
Proof.
  intros Hp. unfold fillPadding. set (pre := take (Z.to_nat padding) buf).
  assert (len pre = padding) as Hpre by (subst pre; len_lia).
  assert (buf = pre ++ drop (Z.to_nat padding) buf) as Hbuf by (symmetry; apply take_drop).
  assert (forall out, length out = length pre ->
    len (out ++ drop (Z.to_nat padding) buf) = len buf /\
    drop (Z.to_nat padding) (out ++ drop (Z.to_nat padding) buf) = drop (Z.to_nat padding) buf) as Hout.
  { intros out Ho. split; [rewrite Hbuf at 2; rewrite !len_app; unfold len; lia|].
    apply drop_app_length'. unfold len in Hpre. lia. }
  case_decide as Hn.
  - rewrite slice_prefix by done. cbn [mbind option_bind]. simpl.
    do 2 eexists. split; [reflexivity|]. apply Hout. fold pre. by rewrite length_fmap, length_seq.
  - unfold imitateFillPrefix.
    destruct ((padding =? 0) || (len buf <=? padding)) eqn:E; [by do 2 eexists|].
    rewrite slice_suffix by done. cbn [mbind option_bind].
    pose proof (imitateFill_eq (proto im) pre (drop (Z.to_nat padding) buf)
      (fnv1aSeed (drop (Z.to_nat padding) buf)) Hn) as Hf.
    rewrite <- Hbuf, Hpre in Hf. rewrite Hf. cbn [mbind option_bind].
    do 2 eexists. split; [reflexivity|]. apply Hout. by apply length_fillOut.
Qed.

(** [fillPadding], random or imitated, never panics on a padding that fits the
    buffer, keeps the length, and never changes a byte of the packet after the padding. *)
Theorem fillPadding_keeps_packet (im : deviceImitate) (buf : list Z) (padding : Z) (s : rng) :
  0 <= padding <= len buf ->
  exists buf' s', fillPadding im buf padding s = Some (buf', s') /\
    len buf' = len buf /\ drop (Z.to_nat padding) buf' = drop (Z.to_nat padding) buf.
Proof. apply fillPadding_spec. Qed.

Lemma fillPadding_keeps_packet_witness :
  exists buf' s', fillPadding {| proto := imitateSIP; junkCounter := 0 |} [0; 0; 0; 9; 8] 3 (fun _ => 0) = Some (buf', s') /\
    len buf' = len [0; 0; 0; 9; 8] /\ drop (Z.to_nat 3) buf' = drop (Z.to_nat 3) [0; 0; 0; 9; 8].
Proof. apply fillPadding_keeps_packet. vm_compute. split; discriminate. Defined.

(** [fillJunk] never panics, keeps the datagram length, and (when imitating)
    draws its seed from the next value of the 64-bit junk counter. *)
Theorem fillJunk_total (im : deviceImitate) (buf : list Z) (s : rng) :
  exists buf' im' s', fillJunk im buf s = Some (buf', im', s') /\
    len buf' = len buf /\ proto im' = proto im /\
    (proto im <> imitateNone ->
       junkCounter im' = u64 (junkCounter im + 1) /\
       imitateFillWhole buf (imitateJunkSeed (junkCounter im')) (proto im) = Some buf').
Proof.
  unfold fillJunk. case_decide as Hn.
  - simpl. do 3 eexists. split; [reflexivity|]. unfold len. rewrite length_fmap, length_seq. done.
  - destruct (imitateFillWhole_total (proto im) buf (imitateJunkSeed (u64 (junkCounter im + 1))))
      as (out & Ho & Hl). rewrite Ho. cbn [mbind option_bind].
    do 3 eexists. split; [reflexivity|]. unfold len. rewrite Hl. done.
Qed.

(** The first byte of every imitated QUIC datagram is a short header: form bit 0,
    fixed bit 1, reserved bits 0 (RFC 9000, 17.3.1). *)
Lemma quic_short_header (buf : list Z) (padding seed : Z) :
  0 < padding <= len buf ->
  exists b rest, writeQUICShort buf padding seed = Some (b :: rest) /\
    is_u8 b /\ Z.land b 0xC0 = 0x40 /\ Z.land b 0x18 = 0.
Proof.
  intros Hp. set (n := Z.to_nat padding).
  pose proof (on_prefix_emits _ n _ (take n buf) (drop n buf) (quic_emits n seed) ltac:(len_lia)) as H.
  rewrite take_drop in H. unfold writeQUICShort. replace padding with (Z.of_nat n) by lia. rewrite H.
  destruct n as [|n'] eqn:En; [lia|]. do 2 eexists. split; [reflexivity|].
  assert (forall x m, 0 <= m -> 0 <= Z.land x (2 ^ m - 1) < 2 ^ m) as Hm
    by (intros; rewrite land_mask by done; apply Z.mod_pos_bound, Z.pow_pos_nonneg; lia).
  unfold quicFirst.
  generalize (Hm (u8 (Z.shiftr seed 8)) 1 ltac:(lia)) (Hm (u8 (Z.shiftr (lcgStep seed) 8)) 1 ltac:(lia))
    (Hm (u8 (lcgStep (lcgStep seed))) 2 ltac:(lia)).
  change (2 ^ 1 - 1) with 1. change (2 ^ 2 - 1) with 3. change (2 ^ 1) with 2. change (2 ^ 2) with 4.
  generalize (Z.land (u8 (Z.shiftr seed 8)) 1) (Z.land (u8 (Z.shiftr (lcgStep seed) 8)) 1)
    (Z.land (u8 (lcgStep (lcgStep seed))) 3). intros a b c Ha Hb Hc.
  assert (a = 0 \/ a = 1) as [-> | ->] by lia; assert (b = 0 \/ b = 1) as [-> | ->] by lia;
    assert (c = 0 \/ c = 1 \/ c = 2 \/ c = 3) as [-> |[-> |[-> | ->]]] by lia;
    vm_compute; repeat split; discriminate || done.
Qed.

Example quic_short_header_sample :
  exists b rest, writeQUICShort [0; 0; 5] 2 9 = Some (b :: rest) /\
    is_u8 b /\ Z.land b 0xC0 = 0x40 /\ Z.land b 0x18 = 0.
Proof. apply quic_short_header. vm_compute. split; [reflexivity|discriminate]. Qed.
