(* ===== verification/Conformance.v ===== *)
(** * Conformance: the imitated datagrams against the protocols' own framing rules

    Independent readers for STUN (RFC 5389) and DNS with EDNS (RFC 6891) decide
    whether a byte string is a complete message; the writers of Imitate are shown
    to emit messages they accept. For SIP the Content-Length header is shown to
    count exactly the bytes behind the header block. *)
From S2P Require Import Prelude GoLib Imitate.
#[local] Open Scope Z_scope.

(** ** STUN *)

(** A sequence of type-length-value attributes, each padded to four bytes. *)
Fixpoint stunTLV (fuel : nat) (l : list Z) : bool :=
  match fuel, l with
  | _, [] => true
  | S f, _ :: _ :: l1 :: l2 :: rest =>
      let n := 4 * ((be_val [l1; l2] + 3) / 4) in
      (n <=? len rest) && stunTLV f (drop (Z.to_nat n) rest)
  | _, _ => false
  end.

(** A Binding Success Response whose declared length is a multiple of four, lies
    inside the datagram and is exactly filled by attributes. *)
Definition stunMessage (m : list Z) : bool :=
  let l := be_val (take 2 (drop 2 m)) in
  (20 <=? len m) && (be_val (take 2 m) =? 0x0101) && (l mod 4 =? 0) && (20 + l <=? len m) &&
  (be_val (take 4 (drop 4 m)) =? 0x2112A442) && stunTLV 3 (take (Z.to_nat l) (drop 20 m)).

Lemma stunTLV_soft f v st : 0 <= v <= 124 -> v mod 4 = 0 -> stunTLV (S f) (softAttr v st) = true.
Proof.
  intros Hv Hm. unfold softAttr. change (be_bytes 2 0x8022) with [128; 34].
  change (be_bytes 2 (u16 v)) with [(u16 v / 256) mod 256; u16 v mod 256]. simpl.
  replace (be_val _) with v.
  2: { change [(u16 v / 256) mod 256; u16 v mod 256] with (be_bytes 2 (u16 v)).
       rewrite u16_small by width_lia. symmetry. apply be_val_bytes. simpl. lia. }
  replace (4 * ((v + 3) / 4)) with v by (Z.div_mod_to_equations; lia).
  assert (length (softBytes (Z.to_nat v) st) = Z.to_nat v) as Hl by apply length_softBytes.
  rewrite (proj2 (Z.leb_le _ _)) by (unfold len; lia). simpl.
  rewrite drop_ge by lia. by destruct f.
Qed.

Lemma stunTLV_addr f st rest : stunTLV (S f) (addrAttr st ++ rest) = stunTLV f rest.
Proof.
  unfold addrAttr. rewrite <- !app_assoc.
  change (be_bytes 2 0x0020) with [0; 32]. change (be_bytes 2 8) with [0; 8].
  cbn [app stunTLV]. change (4 * ((be_val [0; 8] + 3) / 4)) with 8.
  set (x := Z.lxor (u16 _) _). set (y := Z.lxor (lcgStep st) _).
  rewrite (proj2 (Z.leb_le _ _)) by len_lia. cbn [andb].
  change (Z.to_nat 8) with 8%nat. cbn [drop].
  change (be_bytes 2 x) with [(x / 256) mod 256; x mod 256].
  by change (be_bytes 4 y) with [(y / 256 / 256 / 256) mod 256; (y / 256 / 256) mod 256; (y / 256) mod 256; y mod 256].
Qed.

Lemma stunTLV_attrs body st : 0 <= body -> body mod 4 = 0 -> stunTLV 3 (stunAttrs body st) = true.
Proof.
  intros Hb Hm. unfold stunAttrs, softLen.
  destruct (Z.leb_spec 12 body); [rewrite stunTLV_addr; destruct (Z.leb_spec 4 (body - 12))|
    destruct (Z.leb_spec 4 body)]; try done;
    apply stunTLV_soft; try lia; Z.div_mod_to_equations; lia.
Qed.

(** whenever the padding holds at least a STUN header, what is written starts a
    complete, well-framed STUN Binding Success Response. *)
Theorem stun_message_wellformed (buf : list Z) (padding seed : Z) :
  20 <= padding <= len buf ->
  exists m, writeSTUN buf padding seed = Some (m ++ drop (Z.to_nat padding) buf) /\
    len m = padding /\ stunMessage m = true.
Proof.
  intros Hp. set (n := Z.to_nat padding).
  destruct (stun_emits n seed) as [Hl Hw].
  pose proof (on_prefix_emits _ n _ (take n buf) (drop n buf) (stun_emits n seed) ltac:(len_lia)) as H.
  rewrite take_drop in H. exists (stunOut n seed). unfold writeSTUN.
  replace padding with (Z.of_nat n) at 1 by lia. split; [done|]. split; [unfold len; lia|].
  destruct (stunBody_spec n) as [Hb Hm].
  destruct (stunAttrs_fit _ (lcgStep (lcgStep (lcgStep seed))) (proj1 Hb) Hm) as (Hfit & Hmod & Hmax).
  pose proof (stunTLV_attrs _ (lcgStep (lcgStep (lcgStep seed))) (proj1 Hb) Hm) as Htlv.
  unfold stunMessage. replace (len (stunOut n seed)) with padding by (unfold len; lia).
  unfold stunOut in *. set (attrs := stunAttrs _ _) in *. 
  rewrite (take_ge (stunHeader (len attrs) seed ++ attrs ++ replicate (n - 20 - length attrs) 0) n) by len_lia.
  unfold stunHeader. rewrite <- !app_assoc.
  change (be_bytes 2 0x0101) with [1; 1]. change (be_bytes 4 stunCookie) with [33; 18; 164; 66].
  change (be_bytes 2 (u16 (len attrs))) with [(u16 (len attrs) / 256) mod 256; u16 (len attrs) mod 256].
  cbn [app take drop].
  change [(u16 (len attrs) / 256) mod 256; u16 (len attrs) mod 256] with (be_bytes 2 (u16 (len attrs))).
  rewrite u16_small, be_val_bytes by (simpl; width_lia).
  assert (length (stunTxn seed) = 12%nat) as Htx by (unfold stunTxn; by autorewrite with len).
  replace (drop 12 (stunTxn seed ++ attrs ++ replicate (n - 20 - length attrs) 0))
    with (attrs ++ replicate (n - 20 - length attrs) 0) by (by rewrite <- Htx, drop_app_length).
  replace (Z.to_nat (len attrs)) with (length attrs) by (unfold len; lia).
  rewrite take_app_length.
  rewrite Htlv, Hmod. change (be_val [1; 1] =? 257) with true.
  change (be_val [33; 18; 164; 66] =? 554869826) with true.
  rewrite (proj2 (Z.leb_le 20 padding)), (proj2 (Z.leb_le (20 + len attrs) padding)) by lia. done.
Qed.

Lemma stun_message_wellformed_witness :
  exists m, writeSTUN (replicate 60 0) 52 7 = Some (m ++ drop (Z.to_nat 52) (replicate 60 0)) /\
    len m = 52 /\ stunMessage m = true.
Proof. apply stun_message_wellformed. vm_compute. split; discriminate. Defined.

(** ** DNS *)

(** A DNS response with one root question and one EDNS OPT record that holds one
    option; record and option both end exactly at the end of the datagram. *)
Definition dnsMessage (m : list Z) : bool :=
  (32 <=? len m) && (0x80 <=? default 0 (m !! 2%nat)) &&
  (be_val (take 2 (drop 4 m)) =? 1) && (be_val (take 2 (drop 6 m)) =? 0) &&
  (be_val (take 2 (drop 8 m)) =? 0) && (be_val (take 2 (drop 10 m)) =? 1) &&
  bool_decide (take 5 (drop 12 m) = [0; 0; 1; 0; 1]) &&
  bool_decide (take 3 (drop 17 m) = [0; 0; 41]) &&
  (28 + be_val (take 2 (drop 26 m)) =? len m) &&
  (32 + be_val (take 2 (drop 30 m)) =? len m).

Lemma clampU16_bytes v : 0 <= v < 2 ^ 16 ->
  be_val [u8 (Z.shiftr (clampU16 v) 8); u8 (clampU16 v)] = v.
Proof.
  intros Hv. unfold clampU16. rewrite (proj2 (Z.ltb_ge v 0)), (proj2 (Z.ltb_ge 65535 v)) by lia.
  rewrite u16_small by width_lia. unfold be_val, u8. simpl. rewrite Z.shiftr_div_pow2 by lia.
  Z.div_mod_to_equations; lia.
Qed.

(** C24: for every padding that holds the EDNS framing, the whole datagram (padding and
    packet) reads as one DNS response that ends exactly at its last byte, as long as
    its size fits the record's 16-bit length. *)
Theorem dns_message_complete (buf : list Z) (padding : Z) (txid : Z * Z) :
  32 <= padding <= len buf -> len buf < 2 ^ 16 + 28 ->
  exists m, writeDNSMsg buf padding txid = Some m /\ len m = len buf /\
    take 2 m = [txid.1; txid.2] /\ dnsMessage m = true.
Proof.
  intros Hp Hmax. set (n := Z.to_nat padding).
  pose proof (on_prefix_emits _ n _ (take n buf) (drop n buf) (dns_emits n (len buf) txid) ltac:(len_lia)) as H.
  rewrite take_drop in H. unfold writeDNSMsg. replace padding with (Z.of_nat n) by lia.
  eexists. split; [exact H|].
  assert (len (dnsOut n (len buf) txid ++ drop n buf) = len buf) as Hlen.
  { destruct (dns_emits n (len buf) txid) as [Hl _]. unfold len in *.
    rewrite length_app, length_drop, Hl. lia. }
  split; [done|]. unfold dnsMessage. rewrite Hlen.
  unfold dnsOut. rewrite (proj2 (Z.ltb_ge _ dnsOptMin)) by (change dnsOptMin with 32; lia).
  unfold dnsOptOut, dnsHeaderBytes, dnsRootQuestion, dnsOptBytes. rewrite <- !app_assoc.
  cbn [app take drop lookup list_lookup default]. split; [done|].
  change (be_val [0; 1]) with 1. change (be_val [0; 0]) with 0.
  rewrite !clampU16_bytes by lia.
  rewrite (proj2 (Z.leb_le 32 (len buf))) by lia. cbn [andb].
  rewrite !bool_decide_eq_true_2 by done. simpl.
  rewrite (proj2 (Z.eqb_eq (28 + (len buf - 28)) (len buf))) by lia.
  by rewrite (proj2 (Z.eqb_eq (32 + (len buf - 32)) (len buf))) by lia.
Qed.

Lemma dns_message_complete_witness :
  exists m, writeDNSMsg (replicate 50 7) 40 (1, 2) = Some m /\ len m = len (replicate 50 7) /\
    take 2 m = [1; 2] /\ dnsMessage m = true.
Proof. apply dns_message_complete; vm_compute; [split; discriminate|reflexivity]. Defined.

(** ** SIP *)

Lemma itoa_aux_len f n acc :
  0 <= n -> len (itoa_aux (S f) n acc) = decimalDigits_loop f n (1 + len acc).
Proof.
  revert n acc. induction f as [|f IH]; intros n acc Hn.
  - simpl. destruct (n <? 10); unfold len; simpl; lia.
  - change (itoa_aux (S (S f)) n acc)
      with (if n <? 10 then 48 + n mod 10 :: acc else itoa_aux (S f) (n / 10) (48 + n mod 10 :: acc)).
    cbn [decimalDigits_loop].
    destruct (Z.ltb_spec n 10) as [Hs|Hs].
    + rewrite (proj2 (Z.leb_gt 10 n)) by lia. unfold len. simpl. lia.
    + rewrite (proj2 (Z.leb_le 10 n)), Z.quot_div_nonneg by lia.
      etransitivity; [apply IH, Z.div_pos; lia|]. f_equal. unfold len. simpl. lia.
Qed.

Lemma len_Itoa n : 0 <= n -> len (Itoa n) = decimalDigits n.
Proof.
  intros Hn. unfold Itoa. rewrite (proj2 (Z.ltb_ge n 0)) by done. by rewrite itoa_aux_len.
Qed.

(** Where a Content-Length header of [digits] digits makes the header block end. *)
Definition headerEnd (pos sws digits : Z) : Z := pos + 15 + sws + digits + 4.

Lemma clDigits_Some n d sws pos length total body :
  clDigits n d sws pos length total = Some body ->
  exists digits, d <= digits /\ headerEnd pos sws digits <= length /\
    body = total - headerEnd pos sws digits /\ decimalDigits body = digits.
Proof.
  revert d. induction n as [|n IH]; intros d; cbn [clDigits]; [done|].
  change (len (str "Content-Length:")) with 15. fold (headerEnd pos sws d).
  destruct (Z.ltb_spec length (headerEnd pos sws d)) as [|Hfit]; [done|].
  destruct (Z.eqb_spec (decimalDigits (total - headerEnd pos sws d)) d) as [E|E].
  - intros [= <-]. exists d. by rewrite E.
  - intros (digits & Hd & Hrest)%IH. exists digits. split; [lia|done].
Qed.

Lemma contentLength_exact pos length total sws body :
  0 <= pos -> length <= total -> contentLength pos length total = Some (sws, body) ->
  0 <= body /\ pos + len (contentLengthLine sws body) + 2 <= length /\
  pos + len (contentLengthLine sws body) + 2 + body = total.
Proof.
  intros Hpos Hlen H.
  assert (exists digits, (sws = 1 \/ sws = 2) /\ headerEnd pos sws digits <= length /\
    body = total - headerEnd pos sws digits /\ decimalDigits body = digits) as (digits & Hs & Hfit & Hb & Hd).
  { unfold contentLength in H. case_match eqn:E1.
    - injection H as <- <-. apply clDigits_Some in E1 as (d & _ & ? & ? & ?). exists d. auto.
    - apply bind_Some in H as (b & E2 & [= <- <-]).
      apply clDigits_Some in E2 as (d & _ & ? & ? & ?). exists d. auto. }
  unfold headerEnd in *. assert (0 <= body) by lia. split; [done|].
  enough (len (contentLengthLine sws body) = 15 + sws + digits + 2) by lia.
  unfold contentLengthLine.
  destruct Hs as [-> | ->]; simpl (_ =? 1); cbn iota; rewrite !len_app, len_Itoa, Hd by done;
    unfold crlf, len; simpl; lia.
Qed.

(** C25: when the writer prints a Content-Length, the header block (status, mandatory
    lines, Content-Length, blank line) fits the padding and the printed value is
    exactly the number of bytes of the datagram that follow the blank line. *)
Theorem sip_content_length_exact (buf : list Z) (padding seed : Z) (txt0 txt : list Z) (sws body : Z) :
  0 < padding <= len buf ->
  addFirst padding [] (sipStatusLines seed) = (true, txt0) ->
  addLines padding txt0 (sipMandatory seed) = (true, txt) ->
  contentLength (len txt) padding (len buf) = Some (sws, body) ->
  exists rest, writeSIP buf padding seed = Some ((txt ++ contentLengthLine sws body ++ crlf) ++ rest) /\
    len rest = body.
Proof.
  intros Hp Hf Hm Hc. set (n := Z.to_nat padding).
  pose proof (on_prefix_emits _ n _ (take n buf) (drop n buf) (sip_emits n (len buf) seed) ltac:(len_lia)) as H.
  destruct (sip_emits n (len buf) seed) as [Hl _].
  rewrite take_drop in H. unfold writeSIP. replace padding with (Z.of_nat n) by lia. rewrite H.
  destruct (contentLength_exact _ _ _ _ _ (len_nonneg txt) (proj2 Hp) Hc) as (Hb & Hfit & Hsum).
  unfold sipOut in *. rewrite (proj2 (Nat.eqb_neq n 0)) in * by lia.
  replace (Z.of_nat n) with padding in * by lia. rewrite Hf, Hm, Hc in *.
  unfold addLine in *. rewrite (proj2 (Z.leb_le _ _)) in * by lia. cbn [snd] in *.
  unfold sipClose in *. rewrite len_app in *. rewrite (proj2 (Z.leb_le _ _)) in * by lia.
  exists (replicate (Z.to_nat (padding - len ((txt ++ contentLengthLine sws body) ++ crlf))) 32 ++ drop n buf).
  split; [by rewrite <- !app_assoc|].
  rewrite !len_app. change (len crlf) with 2. unfold len in *. rewrite length_replicate, length_drop. lia.
Qed.

Lemma sip_content_length_exact_witness :
  let txt := (addLines 400 (addFirst 400 [] (sipStatusLines 7)).2 (sipMandatory 7)).2 in
  exists rest,
    writeSIP (replicate 500 0) 400 7 = Some ((txt ++ contentLengthLine 1 233 ++ crlf) ++ rest) /\ len rest = 233.
Proof.
  intros txt. apply (sip_content_length_exact (replicate 500 0) 400 7 (addFirst 400 [] (sipStatusLines 7)).2 txt 1 233).
  - vm_compute. split; [reflexivity|discriminate].
  - vm_compute. reflexivity.
  - vm_compute. reflexivity.
  - vm_compute. reflexivity.
Defined.

Lemma decimalDigits_loop_spec f v k : 0 <= v < 10 ^ (Z.of_nat f + 1) ->
  let d := decimalDigits_loop f v k - k + 1 in
  1 <= d /\ v < 10 ^ d /\ (d = 1 \/ 10 ^ (d - 1) <= v).
Proof.
  revert v k. induction f as [|f IH]; intros v k Hv; cbn [decimalDigits_loop].
  - replace (k - k + 1) with 1 by lia. change (10 ^ (Z.of_nat 0 + 1)) with 10 in Hv.
    change (10 ^ 1) with 10. lia.
  - destruct (Z.leb_spec 10 v) as [Hge|Hlt].
    + rewrite Z.quot_div_nonneg by lia.
      replace (Z.of_nat (S f) + 1) with (Z.succ (Z.of_nat f + 1)) in Hv by lia.
      rewrite Z.pow_succ_r in Hv by lia.
      destruct (IH (v / 10) (k + 1)) as (H1 & H2 & H3).
      { split; [apply Z.div_pos; lia|]. apply Z.div_lt_upper_bound; [lia|].
        lia. }
      set (e := decimalDigits_loop f (v / 10) (k + 1) - (k + 1) + 1) in *.
      replace (decimalDigits_loop f (v / 10) (k + 1) - k + 1) with (e + 1) by (subst e; lia).
      clearbody e. rewrite Z.pow_add_r by lia. change (10 ^ 1) with 10.
      replace (e + 1 - 1) with (e - 1 + 1) by lia. rewrite Z.pow_add_r by lia. change (10 ^ 1) with 10.
      split; [lia|]. split.
      * pose proof (Z.div_mod v 10). pose proof (Z.mod_pos_bound v 10). nia.
      * right. destruct H3 as [-> |H3]; [simpl; lia|]. pose proof (Z.div_mod v 10). pose proof (Z.mod_pos_bound v 10). nia.
    + replace (k - k + 1) with 1 by lia. change (10 ^ 1) with 10. lia.
Qed.

Lemma decimalDigits_loop_ge f v k : k <= decimalDigits_loop f v k.
Proof.
  revert v k. induction f as [|f IH]; intros v k; cbn [decimalDigits_loop]; [lia|].
  destruct (10 <=? v); [|lia]. specialize (IH (Z.quot v 10) (k + 1)). lia.
Qed.

Lemma decimalDigits_spec v : 0 <= v < 10 ^ 19 ->
  1 <= decimalDigits v /\ v < 10 ^ decimalDigits v /\
  (decimalDigits v = 1 \/ 10 ^ (decimalDigits v - 1) <= v).
Proof.
  intros Hv. assert (10 ^ 19 <= 10 ^ (Z.of_nat 19 + 1)) as Hpow by (by vm_compute).
  pose proof (decimalDigits_loop_spec 19 v 1 ltac:(lia)) as H. cbv zeta in H.
  unfold decimalDigits. rewrite Z.sub_add in H. exact H.
Qed.

(** The number of digits is determined by the power-of-ten interval. *)
Lemma decimalDigits_unique v d : 0 <= v < 10 ^ 19 -> 1 <= d -> v < 10 ^ d ->
  (d = 1 \/ 10 ^ (d - 1) <= v) -> decimalDigits v = d.
Proof.
  intros Hv Hd Hlt Hge. destruct (decimalDigits_spec v Hv) as (H1 & H2 & H3).
  set (e := decimalDigits v) in *. clearbody e.
  destruct (Z.lt_trichotomy e d) as [H|[H|H]]; [|done|]; exfalso.
  - destruct Hge as [-> |Hge]; [lia|].
    pose proof (Z.pow_le_mono_r 10 e (d - 1) ltac:(lia) ltac:(lia)). lia.
  - destruct H3 as [-> |H3]; [lia|].
    pose proof (Z.pow_le_mono_r 10 d (e - 1) ltac:(lia) ltac:(lia)). lia.
Qed.

Lemma clDigits_None n d sws pos length total :
  clDigits n d sws pos length total = None ->
  forall digits, d <= digits < d + Z.of_nat n -> headerEnd pos sws digits <= length ->
    decimalDigits (total - headerEnd pos sws digits) <> digits.
Proof.
  revert d. induction n as [|n IH]; intros d; cbn [clDigits]; [lia|].
  change (len (str "Content-Length:")) with 15. fold (headerEnd pos sws d).
  destruct (Z.ltb_spec length (headerEnd pos sws d)) as [Hbig|Hfit].
  { intros _ digits Hd Hf. unfold headerEnd in *. lia. }
  destruct (Z.eqb_spec (decimalDigits (total - headerEnd pos sws d)) d) as [E|E]; [done|].
  intros HN digits Hd Hf. destruct (decide (digits = d)) as [-> |]; [done|]. apply (IH (d + 1)); [done|lia|done].
Qed.

Lemma pow10_ge_linear e : 0 <= e -> 10 ^ e + e + 2 <= 10 ^ (e + 1).
Proof.
  intros He. rewrite Z.pow_add_r by lia. change (10 ^ 1) with 10.
  enough (e + 1 <= 10 ^ e) by lia. revert e He. apply natlike_ind; [done|].
  intros e He IH. rewrite Z.pow_succ_r by lia. lia.
Qed.

(** a Content-Length is always found when its widest form fits: with one or two
    blanks after the colon, some number of digits is consistent with the length that
    results from printing it. *)
Theorem sip_content_length_found (pos length total : Z) :
  0 <= pos -> length <= total -> total < 10 ^ 18 ->
  headerEnd pos 2 (decimalDigits total) <= length ->
  contentLength pos length total <> None.
Proof.
  intros Hpos Hlt Hmax Hroom. unfold contentLength.
  set (D := decimalDigits total) in *. set (X := total - headerEnd pos 1 0).
  assert (0 <= total) as Ht by (pose proof (decimalDigits_loop_ge 19 total 1); unfold headerEnd, D, decimalDigits in *; lia).
  destruct (decimalDigits_spec total ltac:(lia)) as (HD1 & HD2 & _). fold D in HD1, HD2.
  assert (1 <= X < total) as HX by (unfold X, headerEnd in *; lia).
  destruct (decimalDigits_spec X ltac:(lia)) as (H1 & H2 & H3).
  set (d := decimalDigits X) in *.
  assert (d <= D) as HdD.
  { destruct (decide (d <= D)); [done|]. destruct H3 as [H3|H3]; [lia|].
    pose proof (Z.pow_le_mono_r 10 D (d - 1)). lia. }
  assert (forall sws k, headerEnd pos sws k = headerEnd pos 1 0 + (sws - 1) + k) as Hhe
    by (intros; unfold headerEnd; lia).
  destruct (clDigits _ 1 1 _ _ _) as [b|] eqn:E1; [done|].
  destruct (clDigits _ 1 2 _ _ _) as [b|] eqn:E2; [done|]. exfalso.
  pose proof (clDigits_None _ _ _ _ _ _ E1) as N1. pose proof (clDigits_None _ _ _ _ _ _ E2) as N2.
  assert (1 < d) as Hd2.
  { destruct (decide (d = 1)) as [Hd|]; [|lia]. exfalso. rewrite Hd in H2. change (10 ^ 1) with 10 in H2.
    apply (N1 1); [lia|rewrite Hhe in *; lia|]. rewrite Hhe.
    apply decimalDigits_unique; [unfold X in *; lia|lia|change (10 ^ 1) with 10; unfold X in *; lia|by left]. }
  destruct H3 as [H3|H3]; [lia|].
  pose proof (pow10_ge_linear (d - 2) ltac:(lia)) as Hlin. replace (d - 2 + 1) with (d - 1) in Hlin by lia.
  assert (X - d < 10 ^ (d - 1)) as Hlow.
  { destruct (decide (X - d < 10 ^ (d - 1))); [done|]. exfalso. apply (N1 d); [lia|rewrite Hhe in *; lia|].
    rewrite Hhe. apply decimalDigits_unique; [unfold X in *; lia|lia|unfold X in *; lia|right; unfold X in *; lia]. }
  assert (forall sws, 1 <= sws <= 2 -> X - (sws - 1) - (d - 1) < 10 ^ (d - 1) -> 10 ^ (d - 2) <= X - (sws - 1) - (d - 1) ->
    decimalDigits (total - headerEnd pos sws (d - 1)) = d - 1) as Hsol.
  { intros sws Hs Ha Hb. pose proof (Z.pow_nonneg 10 (d - 2)). rewrite Hhe.
    apply decimalDigits_unique; [unfold X in *; lia|lia|unfold X in *; lia|].
    right. replace (d - 1 - 1) with (d - 2) by lia. unfold X in *; lia. }
  destruct (decide (X - (d - 1) < 10 ^ (d - 1))).
  - apply (N1 (d - 1)); [lia|rewrite Hhe in *; lia|apply Hsol; lia].
  - apply (N2 (d - 1)); [lia|rewrite Hhe in *; lia|apply Hsol; lia].
Qed.

Lemma sip_content_length_found_witness : contentLength 250 400 1300 <> None.
Proof. apply sip_content_length_found; vm_compute; try discriminate; reflexivity. Defined.
