(* ===== verification/AllowedIPs.v ===== *)
(** * AllowedIPs: the cryptokey routing tries of src/device/allowedips.go

    The trie nodes live in a store keyed by location, with the child pointers, the
    pointer back to the slot that holds the node ([parentIndirection]) and the
    per-peer lists of the source. A pointer to a slot is [RootV4], [RootV6] or
    [ChildOf l b]; the [unsafe] arithmetic of [remove], which recovers a node from
    the address of its child slot, is the match on [ChildOf]. [None] as a result is
    a nil dereference, an index out of range or the end of the fuel. *)
From S2P Require Import Prelude.
#[local] Open Scope Z_scope.

Abbreviation loc := positive (only parsing).
Abbreviation peerId := positive (only parsing).

Inductive slot := RootV4 | RootV6 | ChildOf (l : loc) (b : Z).

#[export] Instance slot_eq_dec : EqDecision slot.
Proof. solve_decision. Defined.

Record trieEntry := mkEntry {
  peer : option peerId;
  child0 : option loc;
  child1 : option loc;
  parentBit : option slot;
  parentBitType : Z;
  cidr : Z;
  bitAtByte : Z;
  bitAtShift : Z;
  bits : list Z;
  perPeerElem : bool;
}.

Record AllowedIPs := mkTable {
  store : gmap loc trieEntry;
  IPv4 : option loc;
  IPv6 : option loc;
  trieEntries : gmap peerId (list loc);   (* Peer.trieEntries of every peer *)
}.

Definition emptyTable : AllowedIPs :=
  {| store := ∅; IPv4 := None; IPv6 := None; trieEntries := ∅ |}.

(** ** Field updates *)

Definition with_peer (e : trieEntry) (p : option peerId) (inList : bool) : trieEntry :=
  mkEntry p (child0 e) (child1 e) (parentBit e) (parentBitType e) (cidr e) (bitAtByte e) (bitAtShift e) (bits e) inList.
Definition with_child (e : trieEntry) (b : Z) (c : option loc) : trieEntry :=
  mkEntry (peer e) (if b =? 0 then c else child0 e) (if b =? 0 then child1 e else c)
    (parentBit e) (parentBitType e) (cidr e) (bitAtByte e) (bitAtShift e) (bits e) (perPeerElem e).
Definition with_parent (e : trieEntry) (s : option slot) (t : Z) : trieEntry :=
  mkEntry (peer e) (child0 e) (child1 e) s t (cidr e) (bitAtByte e) (bitAtShift e) (bits e) (perPeerElem e).
Definition child (e : trieEntry) (b : Z) : option loc := if b =? 0 then child0 e else child1 e.

Definition set_store (t : AllowedIPs) (h : gmap loc trieEntry) : AllowedIPs :=
  mkTable h (IPv4 t) (IPv6 t) (trieEntries t).
Definition upd (t : AllowedIPs) (l : loc) (f : trieEntry -> trieEntry) : option AllowedIPs :=
  e ← store t !! l; Some (set_store t (<[l := f e]> (store t))).
Definition alloc (t : AllowedIPs) (e : trieEntry) : loc * AllowedIPs :=
  let l := fresh (dom (store t)) in (l, set_store t (<[l := e]> (store t))).

(** [*parentBit] and the assignment to it. *)
Definition load (t : AllowedIPs) (s : slot) : option (option loc) :=
  match s with
  | RootV4 => Some (IPv4 t)
  | RootV6 => Some (IPv6 t)
  | ChildOf l b => e ← store t !! l; Some (child e b)
  end.
Definition assign (t : AllowedIPs) (s : slot) (v : option loc) : option AllowedIPs :=
  match s with
  | RootV4 => Some (mkTable (store t) v (IPv6 t) (trieEntries t))
  | RootV6 => Some (mkTable (store t) (IPv4 t) v (trieEntries t))
  | ChildOf l b => upd t l (fun e => with_child e b v)
  end.

(** ** Bits of addresses *)

(** [bits.LeadingZeros] of a [w]-bit value. *)
Definition leadingZeros (w x : Z) : Z := if x =? 0 then w else w - (Z.log2 x + 1).

(** [binary.BigEndian.UintN(ip[off:])] *)
Definition beAt (n : nat) (ip : list Z) (off : nat) : option Z :=
  let s := take n (drop off ip) in if decide (length s = n) then Some (be_val s) else None.

Definition commonBits (ip1 ip2 : list Z) : option Z :=
  if len ip1 =? 4 then
    a ← beAt 4 ip1 0; b ← beAt 4 ip2 0;
    Some (u8 (leadingZeros 32 (Z.lxor a b)))
  else if len ip1 =? 16 then
    a ← beAt 8 ip1 0; b ← beAt 8 ip2 0;
    let x := Z.lxor a b in
    if negb (x =? 0) then Some (u8 (leadingZeros 64 x))
    else
      a ← beAt 8 ip1 8; b ← beAt 8 ip2 8;
      Some (u8 (64 + u8 (leadingZeros 64 (Z.lxor a b))))
  else None.

Definition choose (e : trieEntry) (ip : list Z) : option Z :=
  b ← at_ ip (bitAtByte e); Some (Z.land (Z.shiftr b (bitAtShift e)) 1).

(** One byte of [net.CIDRMask(cidr, _)]. *)
Definition maskByte (c : Z) (i : nat) : Z :=
  let n := c - 8 * Z.of_nat i in
  if 8 <=? n then 255 else if n <=? 0 then 0 else 255 - Z.shiftr 255 n.
(** [maskSelf] on a byte string. *)
Definition maskBits (c : Z) (ip : list Z) : list Z := imap (fun i b => Z.land b (maskByte c i)) ip.

(** A node as the composite literals of [insert] build it, already masked. *)
Definition newEntry (p : option peerId) (par : option slot) (parType : Z) (ip : list Z) (c : Z) : trieEntry :=
  mkEntry p None None par parType c (c / 8) (7 - c mod 8) (maskBits c ip) false.

(** ** Per-peer lists *)

Definition addToPeerEntries (t : AllowedIPs) (l : loc) : option AllowedIPs :=
  e ← store t !! l; p ← peer e;
  let t := mkTable (store t) (IPv4 t) (IPv6 t)
    (<[p := default [] (trieEntries t !! p) ++ [l]]> (trieEntries t)) in
  upd t l (fun e => with_peer e (peer e) true).

Definition removeFromPeerEntries (t : AllowedIPs) (l : loc) : option AllowedIPs :=
  e ← store t !! l;
  if perPeerElem e then
    p ← peer e;
    let t := mkTable (store t) (IPv4 t) (IPv6 t)
      (<[p := filter (fun k => k <> l) (default [] (trieEntries t !! p))]> (trieEntries t)) in
    upd t l (fun e => with_peer e (peer e) false)
  else Some t.

Definition zeroizePointers (t : AllowedIPs) (l : loc) : option AllowedIPs :=
  upd t l (fun e => mkEntry None None None None (parentBitType e) (cidr e) (bitAtByte e) (bitAtShift e) (bits e) (perPeerElem e)).

(** ** Placement, insertion *)

(** Every round of the walk goes to a node with a larger cidr, so 130 rounds are
    enough for IPv6. *)
Definition walkFuel : nat := 130.

Fixpoint nodePlacement (fuel : nat) (t : AllowedIPs) (node parent : option loc) (ip : list Z) (c : Z)
    : option (option loc * bool) :=
  match fuel with
  | O => None
  | S fuel =>
      match node with
      | None => Some (parent, false)
      | Some l =>
          e ← store t !! l;
          if cidr e <=? c then
            common ← commonBits (bits e) ip;
            if cidr e <=? common then
              if cidr e =? c then Some (Some l, true)
              else bit ← choose e ip; nodePlacement fuel t (child e bit) (Some l) ip c
            else Some (parent, false)
          else Some (parent, false)
      end
  end.

(** [x.parent = parentIndirection{&slot, bit}; slot = x], where [x] may be nil and
    has then no parent to set. *)
Definition hang (t : AllowedIPs) (s : slot) (bit : Z) (x : option loc) : option AllowedIPs :=
  t ← match x with Some l => upd t l (fun e => with_parent e (Some s) bit) | None => Some t end;
  assign t s x.

(** The end of [insert]: [x] becomes the root or a child of [parent]. *)
Definition attach (t : AllowedIPs) (parent : option loc) (trie : slot) (trieType : Z) (x : loc) (xbits : list Z)
    : option AllowedIPs :=
  match parent with
  | None => hang t trie trieType (Some x)
  | Some n => pe ← store t !! n; bit ← choose pe xbits; hang t (ChildOf n bit) bit (Some x)
  end.

(** [insert] after a placement that is not exact; [newNode] is already in the list
    of its peer, [ip] is masked and [down] is not nil. *)
Definition insertAbove (t : AllowedIPs) (trie : slot) (trieType : Z) (parent : option loc) (newNode d : loc)
    (ip : list Z) (c : Z) : option AllowedIPs :=
  de ← store t !! d;
  common ← commonBits (bits de) ip;
  let c := if common <? c then common else c in
  ne ← store t !! newNode;
  if cidr ne =? c then
    bit ← choose ne (bits de);
    t ← hang t (ChildOf newNode bit) bit (Some d);
    attach t parent trie trieType newNode (bits ne)
  else
    let '(mid, t) := alloc t (newEntry None None 0 (bits ne) c) in
    me ← store t !! mid;
    bit ← choose me (bits de);
    t ← hang t (ChildOf mid bit) bit (Some d);
    bit ← choose me (bits ne);
    t ← hang t (ChildOf mid bit) bit (Some newNode);
    attach t parent trie trieType mid (bits me).

Definition insert (t : AllowedIPs) (trie : slot) (trieType : Z) (ip : list Z) (c : Z) (p : peerId) : option AllowedIPs :=
  root ← load t trie;
  match root with
  | None =>
      let '(node, t) := alloc t (newEntry (Some p) (Some trie) trieType ip c) in
      t ← addToPeerEntries t node;
      assign t trie (Some node)
  | Some _ =>
      '(node, exact) ← nodePlacement walkFuel t root None ip c;
      if (exact : bool) then
        n ← node;
        t ← removeFromPeerEntries t n;
        t ← upd t n (fun e => with_peer e (Some p) (perPeerElem e));
        addToPeerEntries t n
      else
        let '(newNode, t) := alloc t (newEntry (Some p) None 0 ip c) in
        (* newNode.bits aliases ip: maskSelf masks ip too *)
        let ip := maskBits c ip in
        t ← addToPeerEntries t newNode;
        match node with
        | None => d ← root; insertAbove t trie trieType None newNode d ip c
        | Some n =>
            e ← store t !! n; bit ← choose e ip;
            match child e bit with
            | None => hang t (ChildOf n bit) bit (Some newNode)
            | Some d => insertAbove t trie trieType (Some n) newNode d ip c
            end
        end
  end.

(** ** Lookup *)

Fixpoint lookup_node (fuel : nat) (t : AllowedIPs) (node : option loc) (found : option peerId) (ip : list Z)
    : option (option peerId) :=
  match fuel with
  | O => None
  | S fuel =>
      match node with
      | None => Some found
      | Some l =>
          e ← store t !! l;
          common ← commonBits (bits e) ip;
          if cidr e <=? common then
            let found := match peer e with Some p => Some p | None => found end in
            if bitAtByte e =? u8 (len ip) then Some found
            else bit ← choose e ip; lookup_node fuel t (child e bit) found ip
          else Some found
      end
  end.

(** ** Removal *)

Definition remove (t : AllowedIPs) (l : loc) : option AllowedIPs :=
  t ← removeFromPeerEntries t l;
  t ← upd t l (fun e => with_peer e None (perPeerElem e));
  e ← store t !! l;
  if decide (child0 e <> None /\ child1 e <> None) then Some t else
  let bit := if decide (child0 e = None) then 1 else 0 in
  let c := child e bit in
  s ← parentBit e;
  t ← hang t s (parentBitType e) c;
  if decide (child0 e <> None \/ child1 e <> None \/ 1 < parentBitType e) then zeroizePointers t l else
  match s with
  | ChildOf par _ =>
      pe ← store t !! par;
      if decide (peer pe <> None) then zeroizePointers t l else
      let c := child pe (Z.lxor (parentBitType e) 1) in
      ps ← parentBit pe;
      t ← hang t ps (parentBitType pe) c;
      t ← zeroizePointers t l;
      zeroizePointers t par
  | _ => None
  end.

(** ** The table's entry points; addresses are 4 or 16 bytes *)

Definition rootOf (ip : list Z) : option slot :=
  if len ip =? 16 then Some RootV6 else if len ip =? 4 then Some RootV4 else None.

Definition Insert (t : AllowedIPs) (ip : list Z) (c : Z) (p : peerId) : option AllowedIPs :=
  s ← rootOf ip; insert t s 2 ip (u8 c) p.

Definition Lookup (t : AllowedIPs) (ip : list Z) : option (option peerId) :=
  s ← rootOf ip; root ← load t s; lookup_node walkFuel t root None ip.

Definition Remove (t : AllowedIPs) (ip : list Z) (c : Z) (p : peerId) : option AllowedIPs :=
  s ← rootOf ip; root ← load t s;
  '(node, exact) ← nodePlacement walkFuel t root None ip (u8 c);
  match (exact : bool), node with
  | true, Some n => e ← store t !! n; if decide (peer e = Some p) then remove t n else Some t
  | _, _ => Some t
  end.

(** The loop over [peer.trieEntries]: [next] is read before the element is removed. *)
Fixpoint removeAll (t : AllowedIPs) (ls : list loc) : option AllowedIPs :=
  match ls with
  | [] => Some t
  | l :: ls => t ← remove t l; removeAll t ls
  end.
Definition RemoveByPeer (t : AllowedIPs) (p : peerId) : option AllowedIPs :=
  removeAll t (default [] (trieEntries t !! p)).

(** The prefixes handed to the callback, in order, up to the first it refuses. *)
Fixpoint visitEntries (t : AllowedIPs) (cb : list Z * Z -> bool) (ls : list loc) : option (list (list Z * Z)) :=
  match ls with
  | [] => Some []
  | l :: ls =>
      e ← store t !! l;
      if cb (bits e, cidr e) then rest ← visitEntries t cb ls; Some ((bits e, cidr e) :: rest)
      else Some [(bits e, cidr e)]
  end.
Definition EntriesForPeer (t : AllowedIPs) (p : peerId) (cb : list Z * Z -> bool) : option (list (list Z * Z)) :=
  visitEntries t cb (default [] (trieEntries t !! p)).
