(* ===== verification/AddrBits.v ===== *)
(** * AddrBits: addresses as bit strings

    Bit [i] of an address counts from the most significant bit of its first byte,
    the order in which the routing trie branches. The byte-level helpers of
    AllowedIPs are characterised in these terms. *)
From S2P Require Import Prelude AllowedIPs.
#[local] Open Scope Z_scope.

Definition ipbit (ip : list Z) (i : Z) : bool :=
  Z.testbit (ip !!! Z.to_nat (i / 8)) (7 - i mod 8).

(** The first [n] bits agree. *)
Definition same_prefix (n : Z) (a b : list Z) : Prop := forall i, 0 <= i < n -> ipbit a i = ipbit b i.

(** A byte string of one of the two address sizes; [nbits] is its width. *)
Definition addr_ok (ip : list Z) : Prop := Forall is_u8 ip /\ (length ip = 4%nat \/ length ip = 16%nat).
#[export] Instance addr_ok_dec ip : Decision (addr_ok ip).
Proof. unfold addr_ok. apply _. Defined.
Definition nbits (ip : list Z) : Z := 8 * len ip.

#[export] Instance same_prefix_equiv n : Equivalence (same_prefix n).
Proof.
  split; [by intros a i _|by intros a b H i Hi; rewrite H|].
  intros a b c H1 H2 i Hi. by rewrite H1, H2.
Qed.

Lemma same_prefix_mono n m a b : m <= n -> same_prefix n a b -> same_prefix m a b.
Proof. intros Hm H i Hi. apply H. lia. Qed.

Lemma same_prefix_dec_bound n a b :
  { same_prefix n a b } + { exists i, 0 <= i < n /\ ipbit a i <> ipbit b i }.
Proof.
  destruct (decide (0 <= n)) as [Hn|Hn]; [|left; intros i Hi; lia].
  pose proof (Z2Nat.id n Hn) as E. rewrite <- E. generalize (Z.to_nat n). clear E.
  induction n0 as [|k IH]; [left; intros i Hi; lia|].
  destruct IH as [H|H]; [|right; destruct H as (i & Hi & Hne); exists i; split; [lia|done]].
  destruct (Bool.bool_dec (ipbit a (Z.of_nat k)) (ipbit b (Z.of_nat k))) as [Hk|Hk].
  - left. intros i Hi. destruct (decide (i = Z.of_nat k)) as [-> |]; [done|]. apply H. lia.
  - right. exists (Z.of_nat k). split; [lia|done].
Defined.

(** ** Bits of big-endian values *)

Lemma testbit_low_high b x k : 0 <= b < 2 ^ 8 -> 0 <= k ->
  Z.testbit (b + 256 * x) k = if k <? 8 then Z.testbit b k else Z.testbit x (k - 8).
Proof.
  intros Hb Hk. destruct (Z.ltb_spec k 8).
  - rewrite <- (Z.mod_pow2_bits_low _ 8 k) by lia. f_equal.
    change (2 ^ 8) with 256 in *. rewrite (Z.mul_comm 256), Z_mod_plus_full. by apply Z.mod_small.
  - replace k with (k - 8 + 8) at 1 by lia. rewrite <- Z.div_pow2_bits by lia. f_equal.
    change (2 ^ 8) with 256 in *. rewrite (Z.mul_comm 256), Z.div_add by lia.
    rewrite Z.div_small by lia. lia.
Qed.

Lemma testbit_le_val l k : Forall is_u8 l -> 0 <= k < 8 * len l ->
  Z.testbit (le_val l) k = Z.testbit (l !!! Z.to_nat (k / 8)) (k mod 8).
Proof.
  intros Hl. revert k. induction Hl as [|b l Hb _ IH]; intros k Hk; [unfold len in Hk; simpl in Hk; lia|].
  cbn [le_val]. rewrite testbit_low_high by (done || lia).
  destruct (Z.ltb_spec k 8).
  - rewrite Z.div_small, Z.mod_small by lia. done.
  - assert (len (b :: l) = 1 + len l) as E by (unfold len; simpl; lia).
    rewrite IH by lia. replace (k / 8) with ((k - 8) / 8 + 1) by (Z.div_mod_to_equations; lia).
    replace (Z.to_nat ((k - 8) / 8 + 1)) with (S (Z.to_nat ((k - 8) / 8))) by (Z.div_mod_to_equations; lia).
    replace ((k - 8) mod 8) with (k mod 8) by (Z.div_mod_to_equations; lia). done.
Qed.

Lemma testbit_be_val l i : Forall is_u8 l -> 0 <= i < 8 * len l ->
  Z.testbit (be_val l) (8 * len l - 1 - i) = ipbit l i.
Proof.
  intros Hl Hi. unfold be_val, ipbit. assert (len (reverse l) = len l) as Hr by len_lia.
  rewrite testbit_le_val by (try apply Forall_reverse; try rewrite Hr; done || lia).
  f_equal.
  - rewrite !list_lookup_total_alt. f_equal. rewrite reverse_lookup by (unfold len in *; Z.div_mod_to_equations; lia).
    f_equal. unfold len in *. Z.div_mod_to_equations. lia.
  - Z.div_mod_to_equations. lia.
Qed.

Lemma be_val_range l : Forall is_u8 l -> 0 <= be_val l < 2 ^ (8 * len l).
Proof.
  intros H. unfold be_val. pose proof (le_val_bound (reverse l) (proj2 (Forall_reverse _ _) H)) as Hb.
  rewrite length_reverse in Hb. rewrite Z.pow_mul_r by (unfold len; lia). by change (2 ^ 8) with 256.
Qed.

(** ** Leading zeros *)

Lemma leadingZeros_spec w x n : 0 <= x < 2 ^ w -> 0 <= n <= w ->
  0 <= leadingZeros w x <= w /\
  (n <= leadingZeros w x <-> forall i, 0 <= i < n -> Z.testbit x (w - 1 - i) = false).
Proof.
  intros Hx Hn. unfold leadingZeros. destruct (Z.eqb_spec x 0) as [-> |H0].
  { split; [lia|]. split; [intros _ i _; apply Z.testbit_0_l|lia]. }
  pose proof (Z.log2_nonneg x) as Hlog0.
  pose proof (proj1 (Z.log2_lt_pow2 x w ltac:(lia)) ltac:(lia)) as Hlog.
  split; [lia|]. split.
  - intros Hle i Hi. apply Z.bits_above_log2; lia.
  - intros Hz. destruct (decide (n <= w - (Z.log2 x + 1))); [done|]. exfalso.
    specialize (Hz (w - 1 - Z.log2 x) ltac:(lia)).
    replace (w - 1 - (w - 1 - Z.log2 x)) with (Z.log2 x) in Hz by lia.
    rewrite Z.bit_log2 in Hz; [done|lia].
Qed.

Lemma lxor_range w a b : 0 <= w -> 0 <= a < 2 ^ w -> 0 <= b < 2 ^ w -> 0 <= Z.lxor a b < 2 ^ w.
Proof.
  intros Hw Ha Hb. assert (0 <= Z.lxor a b) as H0 by (apply Z.lxor_nonneg; lia). split; [done|].
  destruct (decide (Z.lxor a b = 0)) as [-> |Hne]; [lia|].
  apply Z.log2_lt_pow2; [lia|]. pose proof (Z.log2_lxor a b ltac:(lia) ltac:(lia)).
  destruct (decide (w = 0)) as [-> |]; [change (2 ^ 0) with 1 in *; assert (a = 0) by lia; assert (b = 0) by lia; by subst|].
  assert (forall x, 0 <= x < 2 ^ w -> Z.log2 x < w) as Hl.
  { intros x Hx. destruct (decide (x = 0)) as [-> |]; [simpl; lia|]. apply Z.log2_lt_pow2; lia. }
  pose proof (Hl a Ha). pose proof (Hl b Hb). lia.
Qed.

(** Leading zeros of the xor of two chunks count their common bits. *)
Lemma chunk_common a b n : Forall is_u8 a -> Forall is_u8 b -> length a = length b ->
  0 <= n <= 8 * len a ->
  let lz := leadingZeros (8 * len a) (Z.lxor (be_val a) (be_val b)) in
  0 <= lz <= 8 * len a /\ (n <= lz <-> same_prefix n a b).
Proof.
  intros Ha Hb Hl Hn lz. assert (len b = len a) as El by (unfold len; lia).
  destruct (leadingZeros_spec (8 * len a) (Z.lxor (be_val a) (be_val b)) n) as [Hr Hiff]; [|done|].
  { apply lxor_range; [lia|by apply be_val_range|rewrite <- El; by apply be_val_range]. }
  split; [exact Hr|]. unfold lz. rewrite Hiff. unfold same_prefix.
  split; intros H i Hi; specialize (H i Hi).
  - rewrite Z.lxor_spec, testbit_be_val in H by (done || lia).
    rewrite <- El, testbit_be_val in H by (done || lia). by destruct (ipbit a i), (ipbit b i).
  - rewrite Z.lxor_spec, testbit_be_val by (done || lia).
    rewrite <- El, testbit_be_val by (done || lia). rewrite H. by destruct (ipbit b i).
Qed.

Lemma beAt_Some n ip off : (off + n <= length ip)%nat -> beAt n ip off = Some (be_val (take n (drop off ip))).
Proof. intros H. unfold beAt. rewrite decide_True; [done|]. len_lia. Qed.

Lemma ipbit_chunk ip off n i : (off + n <= length ip)%nat -> 0 <= i < 8 * Z.of_nat n ->
  ipbit (take n (drop off ip)) i = ipbit ip (8 * Z.of_nat off + i).
Proof.
  intros Hl Hi. unfold ipbit. rewrite !list_lookup_total_alt. f_equal.
  - f_equal. rewrite lookup_take_lt, lookup_drop by (Z.div_mod_to_equations; lia).
    f_equal. Z.div_mod_to_equations; lia.
  - f_equal. Z.div_mod_to_equations; lia.
Qed.

(** [commonBits] is the length of the longest common bit prefix. *)
Lemma commonBits_spec a b : addr_ok a -> addr_ok b -> length a = length b ->
  exists c, commonBits a b = Some c /\ 0 <= c <= nbits a /\
    forall n, 0 <= n <= nbits a -> (n <= c <-> same_prefix n a b).
Proof.
  intros [Ha Hsz] [Hb _] Hl. unfold commonBits, nbits. destruct Hsz as [H4|H16].
  - assert (len a = 4) as -> by (unfold len; lia). cbn [Z.eqb Pos.eqb].
    rewrite !beAt_Some by lia. cbn [mbind option_bind]. rewrite !drop_0, !take_ge by lia.
    assert (len a = 4) as El by (unfold len; lia).
    destruct (chunk_common a b 0 Ha Hb Hl ltac:(lia)) as [Hr _]. rewrite El in Hr. change (8 * 4) with 32 in *.
    eexists. split; [reflexivity|]. rewrite u8_small by width_lia. split; [done|].
    intros n Hn. destruct (chunk_common a b n Ha Hb Hl ltac:(lia)) as [_ Hiff]. by rewrite El in Hiff.
  - assert (len a = 16) as -> by (unfold len; lia). cbn [Z.eqb Pos.eqb].
    rewrite !beAt_Some by lia. cbn [mbind option_bind]. rewrite !drop_0.
    set (a0 := take 8 a). set (b0 := take 8 b).
    set (a1 := take 8 (drop 8 a)). set (b1 := take 8 (drop 8 b)).
    assert (len a0 = 8 /\ len b0 = 8 /\ len a1 = 8 /\ len b1 = 8) as (La0 & Lb0 & La1 & Lb1)
      by (subst a0 b0 a1 b1; repeat split; len_lia).
    assert (Forall is_u8 a0 /\ Forall is_u8 b0 /\ Forall is_u8 a1 /\ Forall is_u8 b1) as (Fa0 & Fb0 & Fa1 & Fb1)
      by (subst a0 b0 a1 b1; repeat split; auto using Forall_take, Forall_drop).
    assert (forall i, 0 <= i < 64 -> ipbit a0 i = ipbit a i /\ ipbit b0 i = ipbit b i) as Hlo.
    { intros i Hi. split; [apply (ipbit_chunk a 0 8 i); lia|apply (ipbit_chunk b 0 8 i); lia]. }
    assert (forall i, 0 <= i < 64 -> ipbit a1 i = ipbit a (64 + i) /\ ipbit b1 i = ipbit b (64 + i)) as Hhi.
    { intros i Hi. split; [apply (ipbit_chunk a 8 8 i); lia|apply (ipbit_chunk b 8 8 i); lia]. }
    assert (forall n, 0 <= n <= 64 -> (same_prefix n a0 b0 <-> same_prefix n a b)) as Plo.
    { intros n Hn. unfold same_prefix. split; intros H i Hi; specialize (H i Hi);
        destruct (Hlo i ltac:(lia)) as [E1 E2]; congruence. }
    assert (length a0 = length b0 /\ length a1 = length b1) as [El0 El1] by (unfold len in *; lia).
    change (8 * 16) with 128.
    destruct (Z.eqb_spec (Z.lxor (be_val a0) (be_val b0)) 0) as [Hx|Hx]; cbn [negb].
    + assert (same_prefix 64 a b) as H64.
      { apply Plo; [lia|]. destruct (chunk_common a0 b0 64 Fa0 Fb0 El0 ltac:(lia)) as [_ Hiff].
        apply Hiff. rewrite Hx, La0. done. }
      destruct (chunk_common a1 b1 0 Fa1 Fb1 El1 ltac:(lia)) as [Hr _]. rewrite La1 in Hr.
      change (8 * 8) with 64 in Hr. eexists. split; [reflexivity|].
      rewrite (u8_small (leadingZeros _ _)), u8_small by width_lia. split; [lia|]. intros n Hn.
      destruct (decide (n <= 64)) as [Hsm|Hbig].
      { split; [intros _; by apply (same_prefix_mono 64)|lia]. }
      destruct (chunk_common a1 b1 (n - 64) Fa1 Fb1 El1 ltac:(lia)) as [_ Hiff]. rewrite La1 in Hiff.
      transitivity (same_prefix (n - 64) a1 b1); [rewrite <- Hiff; change (8 * 8) with 64; lia|].
      split; intros H i Hi.
      * destruct (decide (i < 64)); [apply H64; lia|].
        destruct (Hhi (i - 64) ltac:(lia)) as [E1 E2]. specialize (H (i - 64) ltac:(lia)).
        replace (64 + (i - 64)) with i in * by lia. congruence.
      * destruct (Hhi i ltac:(lia)) as [E1 E2]. rewrite E1, E2. apply H. lia.
    + destruct (chunk_common a0 b0 64 Fa0 Fb0 El0 ltac:(lia)) as [Hr _]. rewrite La0 in Hr.
      change (8 * 8) with 64 in Hr.
      assert (leadingZeros 64 (Z.lxor (be_val a0) (be_val b0)) < 64) as Hlt.
      { unfold leadingZeros. rewrite (proj2 (Z.eqb_neq _ 0)) by done. pose proof (Z.log2_nonneg (Z.lxor (be_val a0) (be_val b0))). lia. }
      eexists. split; [reflexivity|]. rewrite u8_small by width_lia. split; [lia|]. intros n Hn.
      destruct (decide (n <= 64)) as [Hsm|Hbig].
      { destruct (chunk_common a0 b0 n Fa0 Fb0 El0 ltac:(lia)) as [_ Hiff]. rewrite La0 in Hiff.
        change (8 * 8) with 64 in Hiff. by rewrite Hiff, Plo by lia. }
      split; [lia|]. intros H. exfalso.
      destruct (chunk_common a0 b0 64 Fa0 Fb0 El0 ltac:(lia)) as [_ Hiff]. rewrite La0 in Hiff.
      change (8 * 8) with 64 in Hiff. pose proof (proj2 Hiff (proj2 (Plo 64 ltac:(lia)) (same_prefix_mono n 64 a b ltac:(lia) H))). lia.
Qed.

(** ** Branch bits and masks *)

Definition entry_fields (e : trieEntry) (c : Z) : Prop := bitAtByte e = c / 8 /\ bitAtShift e = 7 - c mod 8.

Lemma choose_spec e c ip : entry_fields e c -> 0 <= c < nbits ip ->
  choose e ip = Some (Z.b2z (ipbit ip c)).
Proof.
  intros [E1 E2] Hc. unfold choose, nbits, len in *. rewrite E1, E2.
  destruct (lookup_lt_is_Some_2 ip (Z.to_nat (c / 8))) as [x Hx]; [Z.div_mod_to_equations; lia|].
  rewrite (at_Some _ _ _ Hx) by (Z.div_mod_to_equations; lia). cbn [mbind option_bind]. f_equal.
  unfold ipbit. rewrite (list_lookup_total_correct _ _ _ Hx).
  rewrite (land_mask 1) by lia. change (2 ^ 1) with 2.
  rewrite <- Z.bit0_mod, Z.shiftr_spec by lia. done.
Qed.

Lemma testbit_maskByte c i k : 0 <= k < 8 ->
  Z.testbit (maskByte c i) (7 - k) = (8 * Z.of_nat i + k <? c).
Proof.
  intros Hk. unfold maskByte. set (n := c - 8 * Z.of_nat i).
  replace (8 * Z.of_nat i + k <? c) with (k <? n) by (subst n; apply Bool.eq_iff_eq_true; rewrite !Z.ltb_lt; lia).
  destruct (Z.leb_spec 8 n).
  - rewrite (proj2 (Z.ltb_lt k n)) by lia. change 255 with (Z.ones 8). apply Z.ones_spec_low. lia.
  - destruct (Z.leb_spec n 0); [rewrite Z.testbit_0_l; symmetry; apply Z.ltb_ge; lia|].
    assert (n = 1 \/ n = 2 \/ n = 3 \/ n = 4 \/ n = 5 \/ n = 6 \/ n = 7) as Hcases by lia.
    assert (k = 0 \/ k = 1 \/ k = 2 \/ k = 3 \/ k = 4 \/ k = 5 \/ k = 6 \/ k = 7) as Hk' by lia.
    clearbody n. clear -Hcases Hk'.
    destruct Hcases as [-> |[-> |[-> |[-> |[-> |[-> | ->]]]]]];
    destruct Hk' as [-> |[-> |[-> |[-> |[-> |[-> |[-> | ->]]]]]]]; reflexivity.
Qed.

Lemma length_maskBits c ip : length (maskBits c ip) = length ip.
Proof. apply length_imap. Qed.

Lemma ipbit_mask c ip i : 0 <= i < nbits ip -> ipbit (maskBits c ip) i = (i <? c) && ipbit ip i.
Proof.
  intros Hi. unfold ipbit, nbits, len in *. rewrite !list_lookup_total_alt.
  destruct (lookup_lt_is_Some_2 ip (Z.to_nat (i / 8))) as [x Hx]; [Z.div_mod_to_equations; lia|].
  unfold maskBits. rewrite list_lookup_imap, Hx. simpl. rewrite Z.land_spec, testbit_maskByte by (Z.div_mod_to_equations; lia).
  rewrite andb_comm. f_equal. f_equal. Z.div_mod_to_equations; lia.
Qed.

Lemma addr_ok_mask c ip : addr_ok ip -> addr_ok (maskBits c ip).
Proof.
  intros [Hb Hl]. split; [|by rewrite length_maskBits].
  unfold maskBits. apply Forall_lookup. intros i x. rewrite list_lookup_imap.
  intros (b & Hlk & ->)%fmap_Some. rewrite Forall_lookup in Hb. specialize (Hb i b Hlk). unfold is_u8 in *.
  assert (0 <= maskByte c i < 256) as Hm.
  { unfold maskByte. destruct (Z.leb_spec 8 (c - 8 * Z.of_nat i)); [lia|].
    destruct (Z.leb_spec (c - 8 * Z.of_nat i) 0); [lia|]. rewrite Z.shiftr_div_pow2 by lia.
    pose proof (Z.pow_pos_nonneg 2 (c - 8 * Z.of_nat i)). pose proof (Z.div_pos 255 (2 ^ (c - 8 * Z.of_nat i))).
    pose proof (Z.div_le_upper_bound 255 (2 ^ (c - 8 * Z.of_nat i)) 255). nia. }
  assert (0 <= Z.land b (maskByte c i)) by (apply Z.land_nonneg; lia). split; [done|].
  destruct (decide (Z.land b (maskByte c i) = 0)) as [-> |]; [done|].
  apply Z.log2_lt_pow2; [lia|]. pose proof (Z.log2_land b (maskByte c i)).
  destruct (decide (b = 0)) as [-> |]; [by rewrite Z.land_0_l in *|].
  pose proof (proj1 (Z.log2_lt_pow2 b 8 ltac:(lia)) ltac:(lia)). lia.
Qed.

Lemma nbits_mask c ip : nbits (maskBits c ip) = nbits ip.
Proof. unfold nbits, len. by rewrite length_maskBits. Qed.

Lemma same_prefix_mask n c ip : n <= c -> n <= nbits ip -> same_prefix n (maskBits c ip) ip.
Proof.
  intros Hn Hb i Hi. rewrite ipbit_mask by lia. by rewrite (proj2 (Z.ltb_lt i c)) by lia.
Qed.

(** Masked addresses with the same leading bits are equal. *)
Lemma addr_ext a b : Forall is_u8 a -> Forall is_u8 b -> length a = length b ->
  same_prefix (nbits a) a b -> a = b.
Proof.
  intros Ha Hb Hl H. apply list_eq. intros i.
  destruct (decide (i < length a)%nat) as [Hi|Hi]; [|by rewrite !lookup_ge_None_2 by lia].
  destruct (lookup_lt_is_Some_2 a i Hi) as [x Hx]. destruct (lookup_lt_is_Some_2 b i) as [y Hy]; [lia|].
  rewrite Hx, Hy. f_equal. rewrite Forall_lookup in Ha, Hb. specialize (Ha i x Hx). specialize (Hb i y Hy).
  apply Z.bits_inj'. intros k Hk. destruct (decide (k < 8)) as [Hk8|Hk8].
  - specialize (H (8 * Z.of_nat i + (7 - k))). unfold ipbit, nbits, len in H.
    replace ((8 * Z.of_nat i + (7 - k)) / 8) with (Z.of_nat i) in H by (Z.div_mod_to_equations; lia).
    replace (7 - (8 * Z.of_nat i + (7 - k)) mod 8) with k in H by (Z.div_mod_to_equations; lia).
    rewrite Nat2Z.id, (list_lookup_total_correct _ _ _ Hx), (list_lookup_total_correct _ _ _ Hy) in H. apply H. lia.
  - assert (forall z, is_u8 z -> Z.testbit z k = false) as Hz; [|by rewrite !Hz].
    intros z Hz. rewrite <- (Z.mod_small z (2 ^ 8)) by done. apply Z.mod_pow2_bits_high. lia.
Qed.

Lemma mask_ext c a b : addr_ok a -> addr_ok b -> length a = length b -> c <= nbits a ->
  same_prefix c a b -> maskBits c a = maskBits c b.
Proof.
  intros Ha Hb Hl Hc H. apply addr_ext.
  - by apply addr_ok_mask.
  - by apply addr_ok_mask.
  - by rewrite !length_maskBits.
  - rewrite nbits_mask. intros i Hi. rewrite !ipbit_mask by (unfold nbits, len in *; lia).
    destruct (Z.ltb_spec i c); [|done]. simpl. apply H. lia.
Qed.

Lemma mask_mask c ip : addr_ok ip -> maskBits c (maskBits c ip) = maskBits c ip.
Proof.
  intros H. apply addr_ext.
  - by apply addr_ok_mask, addr_ok_mask.
  - by apply addr_ok_mask.
  - by rewrite !length_maskBits.
  - rewrite !nbits_mask. intros i Hi. rewrite !ipbit_mask by (rewrite ?nbits_mask; lia).
    by destruct (i <? c).
Qed.
