(* ===== verification/Routing.v ===== *)
(** * Routing: the tries of AllowedIPs as trees, placement and lookup

    [rep] relates the store of AllowedIPs to a tree, [wf] is the invariant of the
    radix trie, [routes] is the table it stands for: the partial map from masked
    prefixes to peers. A context [list frame] is the path from the root to a slot.
    The last part shows that the walk of [nodePlacement] finds the slot of a prefix
    and that the walk of [lookup_node] computes the longest matching prefix. *)
From S2P Require Import Prelude AllowedIPs AddrBits.
#[local] Open Scope Z_scope.

Inductive tree :=
| Leaf
| Node (l : loc) (p : option peerId) (c : Z) (b : list Z) (t0 t1 : tree).

#[export] Instance tree_eq_dec : EqDecision tree.
Proof. solve_decision. Defined.

Definition root (t : tree) : option loc := match t with Leaf => None | Node l _ _ _ _ _ => Some l end.

Fixpoint locs (t : tree) : list loc :=
  match t with Leaf => [] | Node l _ _ _ t0 t1 => l :: locs t0 ++ locs t1 end.

(** The routes of a tree: prefixes with the peer they lead to. *)
Abbreviation key := (Z * list Z)%type (only parsing).
Fixpoint entries (t : tree) : list (key * peerId) :=
  match t with
  | Leaf => []
  | Node _ p c b t0 t1 => match p with Some q => [((c, b), q)] | None => [] end ++ entries t0 ++ entries t1
  end.

(** The nodes that carry a peer. *)
Fixpoint owned (t : tree) : list (loc * peerId) :=
  match t with
  | Leaf => []
  | Node l p _ _ t0 t1 => match p with Some q => [(l, q)] | None => [] end ++ owned t0 ++ owned t1
  end.

Definition entryOf (p : option peerId) (c : Z) (b : list Z) (s : slot) (bt : Z) (r0 r1 : option loc) : trieEntry :=
  mkEntry p r0 r1 (Some s) bt c (c / 8) (7 - c mod 8) b (bool_decide (is_Some p)).

Fixpoint rep (h : gmap loc trieEntry) (s : slot) (bt : Z) (t : tree) : Prop :=
  match t with
  | Leaf => True
  | Node l p c b t0 t1 =>
      h !! l = Some (entryOf p c b s bt (root t0) (root t1)) /\
      rep h (ChildOf l 0) 0 t0 /\ rep h (ChildOf l 1) 1 t1
  end.

(** Addresses below a node: they share its prefix and continue with [bit]. *)
Definition under (c : Z) (b : list Z) (bit : bool) (b' : list Z) : Prop :=
  same_prefix c b b' /\ ipbit b' c = bit.

(** The trie invariant: cidrs grow along a path, prefixes are nested and masked, a
    child hangs on the side of its next bit, and only a node with two children
    may lack a peer. *)
Fixpoint wf (n : nat) (lo : Z) (Q : list Z -> Prop) (t : tree) : Prop :=
  match t with
  | Leaf => True
  | Node _ p c b t0 t1 =>
      (addr_ok b /\ length b = n) /\ lo <= c <= nbits b /\ maskBits c b = b /\ Q b /\
      (p = None -> t0 <> Leaf /\ t1 <> Leaf) /\
      wf n (c + 1) (under c b false) t0 /\ wf n (c + 1) (under c b true) t1
  end.

(** ** Contexts *)

Record frame := Frame {
  f_loc : loc; f_peer : option peerId; f_cidr : Z; f_bits : list Z; f_bit : bool; f_sib : tree;
}.

Definition fill (f : frame) (t : tree) : tree :=
  let '(Frame l p c b bit sib) := f in
  if bit then Node l p c b sib t else Node l p c b t sib.
(** The first frame of the list is the innermost. *)
Fixpoint plug (k : list frame) (t : tree) : tree :=
  match k with [] => t | f :: k => plug k (fill f t) end.

Definition slot_of (s0 : slot) (k : list frame) : slot :=
  match k with [] => s0 | f :: _ => ChildOf (f_loc f) (Z.b2z (f_bit f)) end.
Definition bt_of (bt0 : Z) (k : list frame) : Z :=
  match k with [] => bt0 | f :: _ => Z.b2z (f_bit f) end.

Definition frame_entry (f : frame) (s : slot) (bt : Z) (r : option loc) : trieEntry :=
  entryOf (f_peer f) (f_cidr f) (f_bits f) s bt
    (if f_bit f then root (f_sib f) else r) (if f_bit f then r else root (f_sib f)).

Fixpoint rep_ctx (h : gmap loc trieEntry) (s0 : slot) (bt0 : Z) (k : list frame) (r : option loc) : Prop :=
  match k with
  | [] => True
  | f :: k =>
      h !! f_loc f = Some (frame_entry f (slot_of s0 k) (bt_of bt0 k) r) /\
      rep h (ChildOf (f_loc f) (Z.b2z (negb (f_bit f)))) (Z.b2z (negb (f_bit f))) (f_sib f) /\
      rep_ctx h s0 bt0 k (Some (f_loc f))
  end.

Definition locs_ctx (k : list frame) : list loc := k ≫= fun f => f_loc f :: locs (f_sib f).
Definition entries_ctx (k : list frame) : list (key * peerId) :=
  k ≫= fun f => match f_peer f with Some q => [((f_cidr f, f_bits f), q)] | None => [] end ++ entries (f_sib f).
Definition owned_ctx (k : list frame) : list (loc * peerId) :=
  k ≫= fun f => match f_peer f with Some q => [(f_loc f, q)] | None => [] end ++ owned (f_sib f).

Lemma root_plug f k t t' : root (plug (f :: k) t) = root (plug (f :: k) t').
Proof. revert f t t'. induction k as [|g k IH]; intros f t t'; [by destruct f as [????[]?]|apply IH]. Qed.

Lemma rep_plug h s0 bt0 k t :
  rep h s0 bt0 (plug k t) <-> rep_ctx h s0 bt0 k (root t) /\ rep h (slot_of s0 k) (bt_of bt0 k) t.
Proof.
  revert t. induction k as [|f k IH]; intros t; simpl; [tauto|]. rewrite IH.
  destruct f as [l p c b [] sib]; simpl; unfold frame_entry; simpl; tauto.
Qed.

Lemma locs_plug k t : locs (plug k t) ≡ₚ locs_ctx k ++ locs t.
Proof.
  revert t. induction k as [|f k IH]; intros t; simpl; [done|]. rewrite IH.
  destruct f as [l p c b [] sib]; simpl; rewrite (Permutation_app_comm (locs_ctx k)) by done; simpl;
    unfold locs_ctx; solve_Permutation.
Qed.

Lemma entries_plug k t : entries (plug k t) ≡ₚ entries_ctx k ++ entries t.
Proof.
  revert t. induction k as [|f k IH]; intros t; simpl; [done|]. rewrite IH.
  destruct f as [l p c b [] sib]; simpl; unfold entries_ctx; solve_Permutation.
Qed.

Lemma owned_plug k t : owned (plug k t) ≡ₚ owned_ctx k ++ owned t.
Proof.
  revert t. induction k as [|f k IH]; intros t; simpl; [done|]. rewrite IH.
  destruct f as [l p c b [] sib]; simpl; unfold owned_ctx; solve_Permutation.
Qed.

(** ** The invariant of a context *)

Definition lo_of (k : list frame) : Z := match k with [] => 0 | f :: _ => f_cidr f + 1 end.
Definition Q_of (k : list frame) : list Z -> Prop :=
  match k with [] => fun _ => True | f :: _ => under (f_cidr f) (f_bits f) (f_bit f) end.

Fixpoint wf_ctx (n : nat) (k : list frame) : Prop :=
  match k with
  | [] => True
  | f :: k =>
      (addr_ok (f_bits f) /\ length (f_bits f) = n) /\ lo_of k <= f_cidr f <= nbits (f_bits f) /\
      maskBits (f_cidr f) (f_bits f) = f_bits f /\ Q_of k (f_bits f) /\
      (f_peer f = None -> f_sib f <> Leaf) /\
      wf n (f_cidr f + 1) (under (f_cidr f) (f_bits f) (negb (f_bit f))) (f_sib f) /\
      wf_ctx n k
  end.

(** The hole of a context may only be empty when its node carries a peer. *)
Definition hole_ok (k : list frame) (t : tree) : Prop :=
  match k with [] => True | f :: _ => f_peer f = None -> t <> Leaf end.

Abbreviation wf_top n t := (wf n 0 (fun _ => True) t).

Lemma fill_not_leaf f t : fill f t <> Leaf.
Proof. by destruct f as [????[]?]. Qed.

Lemma wf_plug n k t :
  wf_top n (plug k t) <-> wf_ctx n k /\ wf n (lo_of k) (Q_of k) t /\ hole_ok k t.
Proof.
  revert t. induction k as [|f k IH]; intros t; [simpl; tauto|].
  change (plug (f :: k) t) with (plug k (fill f t)). rewrite IH.
  assert (hole_ok k (fill f t) <-> True) as ->.
  { destruct k; simpl; [done|]. pose proof (fill_not_leaf f t). tauto. }
  destruct f as [l p c b [] sib]; simpl; tauto.
Qed.

(** The length and range conditions hold at every entry. *)
Lemma wf_weaken n lo lo' (Q Q' : list Z -> Prop) t :
  lo' <= lo -> (forall b, Q b -> Q' b) -> wf n lo Q t -> wf n lo' Q' t.
Proof. intros Hlo HQ. destruct t; simpl; [done|]. intuition (eauto; lia). Qed.

(** Every entry of a subtree satisfies what its root slot promises. *)
Definition nested (Q : list Z -> Prop) (c : Z) : Prop :=
  forall b b', same_prefix c b b' -> Q b -> Q b'.

Lemma under_nested c b bit : 0 <= c -> nested (under c b bit) (c + 1).
Proof.
  intros Hc b1 b2 Hs [H1 H2]. split.
  - transitivity b1; [done|]. apply (same_prefix_mono (c + 1)); [lia|done].
  - rewrite <- H2. symmetry. apply Hs. lia.
Qed.

Lemma wf_entries n lo Q t c b p :
  0 <= lo -> nested Q lo -> wf n lo Q t -> ((c, b), p) ∈ entries t ->
  (addr_ok b /\ length b = n) /\ lo <= c <= nbits b /\ maskBits c b = b /\ Q b.
Proof.
  revert lo Q. induction t as [|l q c1 b1 t0 IH0 t1 IH1]; intros lo Q Hlo HQ; simpl; [by intros _ ?%elem_of_nil|].
  intros (Hb & Hc & Hm & Hq & _ & H0 & H1) Hin. apply elem_of_app in Hin as [Hin|Hin].
  { destruct q as [q|]; [|by apply elem_of_nil in Hin]. apply list_elem_of_singleton in Hin. by simplify_eq. }
  assert (forall bit, (addr_ok b ∧ length b = n) ∧ c1 + 1 <= c <= nbits b ∧ maskBits c b = b ∧ under c1 b1 bit b ->
    (addr_ok b ∧ length b = n) ∧ lo <= c <= nbits b ∧ maskBits c b = b ∧ Q b) as Hgo.
  { intros bit (?&?&?&[Hs _]). split; [done|]. split; [lia|]. split; [done|]. apply (HQ b1); [|done].
    apply (same_prefix_mono c1); [lia|done]. }
  apply elem_of_app in Hin as [Hin|Hin].
  - apply (Hgo false). eapply IH0; [lia|apply under_nested; lia|done|done].
  - apply (Hgo true). eapply IH1; [lia|apply under_nested; lia|done|done].
Qed.

Lemma sub_entries n c1 b1 bit t c b q :
  0 <= c1 -> wf n (c1 + 1) (under c1 b1 bit) t -> ((c, b), q) ∈ entries t -> c1 < c /\ under c1 b1 bit b.
Proof.
  intros Hc Ht Hin. apply (wf_entries n (c1 + 1) (under c1 b1 bit)) in Hin; [|lia|apply under_nested; lia|done].
  destruct Hin as (_ & ? & _ & ?). split; [lia|done].
Qed.

(** ** The route table *)

Definition routesOf (t : tree) : gmap key peerId := list_to_map (entries t).

Lemma wf_NoDup n lo Q t : 0 <= lo -> wf n lo Q t -> NoDup (entries t).*1.
Proof.
  revert lo Q. induction t as [|l q c1 b1 t0 IH0 t1 IH1]; intros lo Q Hlo; [intros; apply NoDup_nil_2|].
  intros (Hb & Hc & Hm & Hq & _ & H0 & H1). simpl. rewrite fmap_app, fmap_app.
  assert (forall bit t, wf n (c1 + 1) (under c1 b1 bit) t -> forall x, x ∈ (entries t).*1 -> c1 < x.1 /\ ipbit x.2 c1 = bit) as Hk.
  { intros bit t Ht [c b] [[k' p] [Hk Hin]]%list_elem_of_fmap. simpl in Hk. subst k'.
    eapply sub_entries in Hin as [? [_ ?]]; [done|lia|done]. }
  apply NoDup_app. split_and!.
  - destruct q; simpl; [apply NoDup_singleton|apply NoDup_nil_2].
  - intros x Hx Hin. destruct q; simpl in Hx; [|by apply elem_of_nil in Hx].
    apply list_elem_of_singleton in Hx as ->.
    apply elem_of_app in Hin as [Hin|Hin]; (eapply Hk in Hin; [|done]); simpl in Hin; lia.
  - apply NoDup_app. split_and!; [eapply IH0; [|done]; lia| |eapply IH1; [|done]; lia].
    intros x Hx Hx'. eapply Hk in Hx; [|done]. eapply Hk in Hx'; [|done]. destruct Hx as [_ Hx], Hx' as [_ Hx']. congruence.
Qed.

Lemma routesOf_perm n t es : wf_top n t -> entries t ≡ₚ es -> routesOf t = list_to_map es.
Proof. intros Hwf Hp. apply list_to_map_proper; [|done]. by eapply wf_NoDup. Qed.

Lemma routesOf_lookup n t k p : wf_top n t -> routesOf t !! k = Some p <-> (k, p) ∈ entries t.
Proof. intros Hwf. symmetry. apply elem_of_list_to_map. by eapply wf_NoDup. Qed.

(** ** Placement *)

(** The frames of the path to a prefix: each is shorter, matches and points the way. *)
Definition leads (ip : list Z) (c : Z) (f : frame) : Prop :=
  f_cidr f < c /\ same_prefix (f_cidr f) (f_bits f) ip /\ ipbit ip (f_cidr f) = f_bit f.
Definition stops (ip : list Z) (c : Z) (t : tree) : Prop :=
  match t with Leaf => True | Node _ _ c1 b1 _ _ => ~ (c1 < c /\ same_prefix c1 b1 ip) end.
Definition exactly (ip : list Z) (c : Z) (t : tree) : Prop :=
  match t with Leaf => False | Node _ _ c1 b1 _ _ => c1 = c /\ same_prefix c1 b1 ip end.
Definition head_loc (k : list frame) : option loc := match k with [] => None | f :: _ => Some (f_loc f) end.

Lemma same_prefix_common a b d c : addr_ok a -> addr_ok b -> length a = length b -> 0 <= c <= nbits a ->
  commonBits a b = Some d -> ((c <=? d) = true <-> same_prefix c a b).
Proof.
  intros Ha Hb Hl Hc Hd. destruct (commonBits_spec a b Ha Hb Hl) as (d' & Hd' & _ & Hs).
  rewrite Hd in Hd'. injection Hd' as <-. rewrite Z.leb_le. by apply Hs.
Qed.

Lemma nbits_length a b : length a = length b -> nbits a = nbits b.
Proof. unfold nbits, len. by intros ->. Qed.

(** A node of the trie as the operations see it. *)
Lemma fill_child l p c b t0 t1 (bit : bool) :
  Node l p c b t0 t1 = fill (Frame l p c b bit (if bit then t0 else t1)) (if bit then t1 else t0).
Proof. by destruct bit. Qed.

Lemma child_b2z p c b s bt r0 r1 (bit : bool) :
  child (entryOf p c b s bt r0 r1) (Z.b2z bit) = if bit then r1 else r0.
Proof. by destruct bit. Qed.

Lemma root_if (bit : bool) t0 t1 : (if bit then root t1 else root t0) = root (if bit then t1 else t0).
Proof. by destruct bit. Qed.

Lemma wf_ctx_lo n k : wf_ctx n k -> 0 <= lo_of k.
Proof.
  induction k as [|f k IH]; simpl; [lia|]. intros (_ & H & _ & _ & _ & _ & Hk). specialize (IH Hk). lia.
Qed.

Lemma wf_ctx_hi n k : wf_ctx n k -> lo_of k <= 8 * Z.of_nat n + 1.
Proof. destruct k as [|f k]; simpl; [lia|]. intros ((_ & Hl) & H & _). unfold nbits, len in H. lia. Qed.

Lemma placement tb s0 bt0 n ip c fuel k t :
  addr_ok ip -> length ip = n -> 0 <= c <= nbits ip ->
  wf_top n (plug k t) -> rep (store tb) s0 bt0 (plug k t) -> Forall (leads ip c) k ->
  nbits ip + 2 - lo_of k <= Z.of_nat fuel ->
  exists k' t', plug k' t' = plug k t /\ Forall (leads ip c) k' /\ stops ip c t' /\
    ((exactly ip c t' /\ nodePlacement fuel tb (root t) (head_loc k) ip c = Some (root t', true)) \/
     (~ exactly ip c t' /\ nodePlacement fuel tb (root t) (head_loc k) ip c = Some (head_loc k', false))).
Proof.
  intros Hip Hn Hc. revert k fuel.
  induction t as [|l p c1 b1 t0 IH0 t1 IH1]; intros k fuel Hwf Hrep Hk Hfuel;
    pose proof Hwf as (Hctx & Hnode & _)%wf_plug; pose proof (wf_ctx_lo n k Hctx); pose proof (wf_ctx_hi n k Hctx);
    assert (nbits ip = 8 * Z.of_nat n) by (unfold nbits, len; lia);
    (destruct fuel as [|fuel]; [lia|]).
  - exists k, Leaf. split; [done|]. split; [done|]. split; [done|]. right. by split; [tauto|].
  - destruct Hnode as ((Hb & Hbn) & Hc1 & _). rewrite (nbits_length b1 ip) in Hc1 by congruence.
    pose proof Hrep as (_ & Hl & _)%rep_plug. simpl. rewrite Hl. cbn [mbind option_bind]. simpl cidr. simpl bits.
    destruct (commonBits_spec b1 ip) as (d & Hd & Hdr & _); [done..|congruence|].
    pose proof (same_prefix_common b1 ip d c1 Hb Hip ltac:(congruence)
      ltac:(rewrite (nbits_length b1 ip) by congruence; lia) Hd) as Hsp.
    assert (forall r, ~ (c1 <= c /\ same_prefix c1 b1 ip) -> r = Some (head_loc k, false) ->
      exists k' t', plug k' t' = plug k (Node l p c1 b1 t0 t1) /\ Forall (leads ip c) k' /\ stops ip c t' /\
       ((exactly ip c t' /\ r = Some (root t', true)) \/ (~ exactly ip c t' /\ r = Some (head_loc k', false)))) as Hstop.
    { intros r Hno ->. exists k, (Node l p c1 b1 t0 t1). split; [done|]. split; [done|].
      split; simpl; [intros [? ?]; apply Hno; split; [lia|done]|]. right. split; [|done].
      intros [-> ?]. apply Hno. split; [lia|done]. }
    destruct (Z.leb_spec c1 c) as [Hcc|Hcc]; [|apply Hstop; [lia|done]].
    rewrite Hd. cbn [mbind option_bind]. destruct (c1 <=? d) eqn:Hcd; [|apply Hstop; [|done]; intros [_ Hs]; apply Hsp in Hs; congruence].
    pose proof (proj1 Hsp eq_refl) as Hs. clear Hsp Hstop.
    destruct (Z.eqb_spec c1 c) as [-> |Hne].
    { exists k, (Node l p c b1 t0 t1). split; [done|]. split; [done|]. split; simpl; [lia|]. left. by split. }
    rewrite (choose_spec _ c1); [|by split|lia]. cbn [mbind option_bind]. rewrite child_b2z, root_if.
    set (bit := ipbit ip c1). set (f := Frame l p c1 b1 bit (if bit then t0 else t1)).
    pose proof (fill_child l p c1 b1 t0 t1 bit) as Hf. fold f in Hf.
    assert (plug (f :: k) (if bit then t1 else t0) = plug k (Node l p c1 b1 t0 t1)) as Hplug by (rewrite Hf; done).
    rewrite <- Hplug in Hwf, Hrep |- *. change (Some l) with (head_loc (f :: k)).
    assert (Forall (leads ip c) (f :: k)) as Hk' by (constructor; [|done]; split; [simpl; lia|by split]).
    destruct bit; [eapply IH1|eapply IH0]; try done; simpl; lia.
Qed.

Lemma exactly_key ip c t n k : addr_ok ip -> length ip = n -> 0 <= c <= nbits ip ->
  wf_top n (plug k t) -> exactly ip c t ->
  exists l p t0 t1, t = Node l p c (maskBits c ip) t0 t1.
Proof.
  intros Hip Hn Hc (_ & Ht & _)%wf_plug. destruct t as [|l p c1 b1 t0 t1]; simpl in *; [done|].
  intros [-> Hs]. destruct Ht as ((Hb & Hbn) & _ & Hm & _). exists l, p, t0, t1. f_equal.
  rewrite <- Hm. apply mask_ext; [done|done|congruence| |done]. rewrite (nbits_length b1 ip) by congruence. lia.
Qed.

(** ** Lookup is the longest matching prefix *)

(** The reference: try the prefix lengths [n], [n - 1], ..., 0. *)
Fixpoint lpm (m : gmap key peerId) (ip : list Z) (n : nat) : option peerId :=
  match m !! (Z.of_nat n, maskBits (Z.of_nat n) ip) with
  | Some p => Some p
  | None => match n with O => None | S n => lpm m ip n end
  end.

(** [r] is the peer of the longest matching entry of [es], or [d] if none matches. *)
Definition best (es : list (key * peerId)) (ip : list Z) (d r : option peerId) : Prop :=
  (r = d /\ forall c b p, ((c, b), p) ∈ es -> ~ same_prefix c b ip) \/
  (exists c b p, r = Some p /\ ((c, b), p) ∈ es /\ same_prefix c b ip /\
    forall c' b' p', ((c', b'), p') ∈ es -> same_prefix c' b' ip -> c' <= c).

Lemma best_node p c b e1 e2 ip d r :
  same_prefix c b ip ->
  (forall c' b' p', ((c', b'), p') ∈ e1 -> c < c') ->
  (forall c' b' p', ((c', b'), p') ∈ e2 -> ~ same_prefix c' b' ip) ->
  best e1 ip (match p with Some q => Some q | None => d end) r ->
  forall es, es ≡ₚ match p with Some q => [((c, b), q)] | None => [] end ++ e1 ++ e2 -> best es ip d r.
Proof.
  intros Hs H1 H2 Hb es Hes. assert (forall x, x ∈ es <-> x ∈ match p with Some q => [((c, b), q)] | None => [] end \/ x ∈ e1 \/ x ∈ e2) as Hin.
  { intros x. rewrite Hes, !elem_of_app. done. }
  clear Hes. destruct Hb as [[-> Hno]|(c1 & b1 & p1 & -> & Hin1 & Hs1 & Hmax)].
  - destruct p as [q|].
    + right. exists c, b, q. split; [done|]. split; [apply Hin; left; by apply list_elem_of_singleton|]. split; [done|].
      intros c' b' p' [Hx|[Hx|Hx]]%Hin Hs'; [apply list_elem_of_singleton in Hx; simplify_eq; lia|by apply Hno in Hx|by apply H2 in Hx].
    + left. split; [done|]. intros c' b' p' [Hx|[Hx|Hx]]%Hin; [by apply elem_of_nil in Hx|by eapply Hno|by eapply H2].
  - right. exists c1, b1, p1. split; [done|]. split; [apply Hin; tauto|]. split; [done|].
    intros c' b' p' [Hx|[Hx|Hx]]%Hin Hs'; [|by eapply Hmax|by apply H2 in Hx].
    destruct p; [|by apply elem_of_nil in Hx]. apply list_elem_of_singleton in Hx. simplify_eq. apply H1 in Hin1. lia.
Qed.

Lemma wf_full n c b bit t : length b = n -> nbits b <= c -> wf n (c + 1) (under c b bit) t -> t = Leaf.
Proof.
  intros Hb Hc. destruct t as [|l p c1 b1 ? ?]; [done|]. intros ((_ & Hl) & Hlo & _). unfold nbits, len in *. lia.
Qed.

Lemma mismatch_entries n lo Q l p c1 b1 t0 t1 ip :
  0 <= lo -> wf n lo Q (Node l p c1 b1 t0 t1) -> ~ same_prefix c1 b1 ip ->
  forall c b q, ((c, b), q) ∈ entries (Node l p c1 b1 t0 t1) -> ~ same_prefix c b ip.
Proof.
  intros Hlo (_ & Hc & _ & _ & _ & H0 & H1) Hno c b q Hin Hs. apply Hno. simpl in Hin. assert (0 <= c1) as Hc1 by lia.
  apply elem_of_app in Hin as [Hin|[Hin|Hin]%elem_of_app].
  - destruct p; [|by apply elem_of_nil in Hin]. apply list_elem_of_singleton in Hin. by simplify_eq.
  - eapply sub_entries in Hin as [? [Hp _]]; [|done..]. transitivity b; [done|]. apply (same_prefix_mono c); [lia|done].
  - eapply sub_entries in Hin as [? [Hp _]]; [|done..]. transitivity b; [done|]. apply (same_prefix_mono c); [lia|done].
Qed.

Lemma lookup_best tb s bt n ip fuel lo Q t d :
  addr_ok ip -> length ip = n -> 0 <= lo -> nested Q lo ->
  wf n lo Q t -> rep (store tb) s bt t -> nbits ip + 2 - lo <= Z.of_nat fuel -> lo <= nbits ip + 1 ->
  exists r, lookup_node fuel tb (root t) d ip = Some r /\ best (entries t) ip d r.
Proof.
  intros Hip Hn. revert s bt fuel lo Q d.
  induction t as [|l p c1 b1 t0 IH0 t1 IH1]; intros s bt fuel lo Q d Hlo HQ Hwf Hrep Hfuel Hhi;
    (destruct fuel as [|fuel]; [lia|]).
  - exists d. split; [done|]. left. split; [done|]. intros c b p Hin. by apply elem_of_nil in Hin.
  - destruct Hrep as (Hl & Hr0 & Hr1). pose proof Hwf as ((Hb & Hbn) & Hc1 & _ & _ & _ & H0 & H1).
    pose proof (nbits_length b1 ip ltac:(congruence)) as Hnb. rewrite Hnb in Hc1.
    simpl lookup_node. rewrite Hl. cbn [mbind option_bind].
    change (bits (entryOf p c1 b1 s bt (root t0) (root t1))) with b1.
    change (cidr (entryOf p c1 b1 s bt (root t0) (root t1))) with c1.
    change (peer (entryOf p c1 b1 s bt (root t0) (root t1))) with p.
    change (bitAtByte (entryOf p c1 b1 s bt (root t0) (root t1))) with (c1 / 8).
    destruct (commonBits_spec b1 ip) as (cm & Hd & _); [done..|congruence|]. rewrite Hd. cbn [mbind option_bind].
    pose proof (same_prefix_common b1 ip cm c1 Hb Hip ltac:(congruence) ltac:(lia) Hd) as Hsp.
    assert (0 <= c1) as Hc0 by lia. pose proof (sub_entries n c1 b1) as Hsub.
    destruct (c1 <=? cm).
    2:{ exists d. split; [done|]. left. split; [done|]. eapply mismatch_entries; [|exact Hwf|by intros ?%Hsp]. lia. }
    pose proof (proj1 Hsp eq_refl) as Hs. clear Hsp.
    assert (u8 (len ip) = len ip) as ->.
    { apply u8_small. destruct Hip as [_ [Hi|Hi]]; unfold len, is_u8; rewrite Hi; lia. }
    destruct (Z.eqb_spec (c1 / 8) (len ip)) as [Hfull|Hpart].
    { exists (match p with Some q => Some q | None => d end). split; [done|].
      assert (nbits b1 <= c1) as Hbig by (rewrite Hnb; unfold nbits; Z.div_mod_to_equations; lia).
      pose proof (wf_full n c1 b1 false t0 ltac:(congruence) Hbig H0) as ->.
      pose proof (wf_full n c1 b1 true t1 ltac:(congruence) Hbig H1) as ->.
      eapply (best_node p c1 b1 [] []); [done|intros ??? Hx; by apply elem_of_nil in Hx..| |done].
      left. split; [done|]. intros ??? Hx. by apply elem_of_nil in Hx. }
    assert (c1 < nbits ip) as Hlt by (unfold nbits in *; Z.div_mod_to_equations; lia).
    rewrite (choose_spec _ c1); [|by split|lia]. cbn [mbind option_bind]. rewrite child_b2z, root_if.
    assert (wf n (c1 + 1) (under c1 b1 (ipbit ip c1)) (if ipbit ip c1 then t1 else t0)) as Hw by (by destruct (ipbit ip c1)).
    assert (exists r, lookup_node fuel tb (root (if ipbit ip c1 then t1 else t0)) (match p with Some q => Some q | None => d end) ip = Some r /\
      best (entries (if ipbit ip c1 then t1 else t0)) ip (match p with Some q => Some q | None => d end) r) as (r & Hr & Hbest).
    { destruct (ipbit ip c1);
      [apply (IH1 (ChildOf l 1) 1 fuel (c1 + 1) (under c1 b1 true))|apply (IH0 (ChildOf l 0) 0 fuel (c1 + 1) (under c1 b1 false))];
      (done || lia || (apply under_nested; lia)). }
    exists r. split; [done|].
    eapply (best_node p c1 b1 (entries (if ipbit ip c1 then t1 else t0)) (entries (if ipbit ip c1 then t0 else t1)));
      [done| | |done|by destruct (ipbit ip c1); simpl; solve_Permutation].
    + intros c' b' q Hin. by eapply Hsub in Hin as [? _].
    + intros c' b' q Hin Hs'.
      assert (c1 < c' /\ under c1 b1 (negb (ipbit ip c1)) b') as [Hcc [_ Hbit]] by (destruct (ipbit ip c1); by eapply Hsub in Hin).
      rewrite (Hs' c1) in Hbit by lia. by destruct (ipbit ip c1).
Qed.

Lemma best_lpm n m t ip r : addr_ok ip -> length ip = n -> wf_top n t -> m = routesOf t ->
  best (entries t) ip None r -> r = lpm m ip (Z.to_nat (nbits ip)).
Proof.
  intros Hip Hn Hwf -> Hb.
  assert (forall c b p, ((c, b), p) ∈ entries t -> 0 <= c <= nbits ip /\ (same_prefix c b ip <-> b = maskBits c ip)) as Hent.
  { intros c b p Hin. apply (wf_entries n 0 (fun _ => True)) in Hin; [|lia|by intros ?|done].
    destruct Hin as ((Hbo & Hbn) & Hc & Hm & _). rewrite (nbits_length b ip) in Hc by congruence. split; [lia|]. split.
    - intros Hs. rewrite <- Hm. apply mask_ext; [done|done|congruence| |done]. rewrite (nbits_length b ip) by congruence. lia.
    - intros ->. by apply same_prefix_mask; lia. }
  assert (forall k, 0 <= Z.of_nat k <= nbits ip ->
    (forall c b p, ((c, b), p) ∈ entries t -> same_prefix c b ip -> c <= Z.of_nat k) -> r = lpm (routesOf t) ip k) as Hgo.
  { induction k as [|k IH]; intros Hk Hmax; simpl lpm;
      (destruct (routesOf t !! _) as [p|] eqn:Hlk;
       [apply (routesOf_lookup n) in Hlk; [|done]; pose proof (proj2 (proj2 (Hent _ _ _ Hlk)) eq_refl) as Hs;
        destruct Hb as [[_ Hno]|(c & b & q & -> & Hin & Hs1 & Hm)]; [by apply Hno in Hlk|];
        pose proof (Hm _ _ _ Hlk Hs); pose proof (Hmax _ _ _ Hin Hs1);
        pose proof (proj1 (proj2 (Hent _ _ _ Hin)) Hs1) as ->;
        apply (routesOf_lookup n) in Hlk, Hin; [|done..]; rewrite (Z.le_antisymm c _ ltac:(eassumption) ltac:(eassumption)) in Hin; congruence|]).
    - destruct Hb as [[-> _]|(c & b & q & -> & Hin & Hs1 & _)]; [done|]. exfalso.
      pose proof (Hmax _ _ _ Hin Hs1). pose proof (Hent _ _ _ Hin) as [? Hiff]. apply Hiff in Hs1 as ->.
      apply (routesOf_lookup n) in Hin; [|done]. replace c with (Z.of_nat 0) in Hin by lia. congruence.
    - apply IH; [lia|]. intros c b p Hin Hs. pose proof (Hmax _ _ _ Hin Hs).
      destruct (decide (c = Z.of_nat (S k))) as [-> |]; [|lia]. apply (Hent _ _ _ Hin) in Hs as ->.
      apply (routesOf_lookup n) in Hin; [|done]. congruence. }
  apply Hgo; [unfold nbits, len; lia|]. intros c b p Hin _. pose proof (Hent _ _ _ Hin). lia.
Qed.
