(* ===== verification/RoutingTable.v ===== *)
(** * RoutingTable: the invariant of the table and the surgery on tries

    [repr tb F] says that the table [tb] of AllowedIPs represents the two tries [F]
    (IPv4 at [false], IPv6 at [true]) and that the list of every peer holds exactly
    the nodes that carry it. [hang_spec] describes the one pointer surgery of the
    code, [repr_hang] lifts it to tables. *)
From S2P Require Import Prelude AllowedIPs AddrBits Routing.
#[local] Open Scope Z_scope.

(** A tree whose root may still lack its pointer back. *)
Definition repo (h : gmap loc trieEntry) (t : tree) : Prop :=
  match t with
  | Leaf => True
  | Node l p c b t0 t1 =>
      (exists par ty, h !! l = Some (with_parent (entryOf p c b RootV4 0 (root t0) (root t1)) par ty)) /\
      rep h (ChildOf l 0) 0 t0 /\ rep h (ChildOf l 1) 1 t1
  end.

Lemma rep_repo h s bt t : rep h s bt t -> repo h t.
Proof. destruct t; simpl; [done|]. intros (Hl & ? & ?). split; [|done]. by exists (Some s), bt. Qed.

Lemma rep_frame h h' s bt t : (forall l, l ∈ locs t -> h' !! l = h !! l) -> rep h s bt t -> rep h' s bt t.
Proof.
  revert s bt. induction t as [|l p c b t0 IH0 t1 IH1]; simpl; [done|]. intros s bt H (Hl & H0 & H1).
  split; [rewrite H by set_solver; done|]. split; [apply IH0|apply IH1]; set_solver.
Qed.

Lemma rep_dom h s bt t l : rep h s bt t -> l ∈ locs t -> is_Some (h !! l).
Proof.
  revert s bt. induction t as [|l' p c b t0 IH0 t1 IH1]; simpl; intros s bt; [by intros _ ?%elem_of_nil|].
  intros (Hl & Hr0 & Hr1) [-> |[?|?]%elem_of_app]%elem_of_cons; eauto.
Qed.

Lemma rep_ctx_frame h h' s0 bt0 k r :
  (forall l, l ∈ locs_ctx k -> h' !! l = h !! l) -> rep_ctx h s0 bt0 k r -> rep_ctx h' s0 bt0 k r.
Proof.
  revert r. induction k as [|f k IH]; simpl; intros r H; [done|]. intros (Hl & Hs & Hk).
  split; [rewrite H by set_solver; done|]. split; [|apply IH; set_solver].
  eapply rep_frame; [|done]. set_solver.
Qed.

Lemma rep_reparent h s' bt' t x e : repo h t -> root t = Some x -> NoDup (locs t) -> h !! x = Some e ->
  rep (<[x := with_parent e (Some s') bt']> h) s' bt' t.
Proof.
  destruct t as [|l p c b t0 t1]; [done|]. intros ((par & ty & Hl) & H0 & H1) [= ->] [Hx Hnd]%NoDup_cons He.
  rewrite Hl in He. injection He as <-.
  split; [by rewrite lookup_insert_eq|].
  split; (eapply rep_frame; [|done]); intros l' Hl'; rewrite lookup_insert_ne; [done|set_solver|done|set_solver].
Qed.

(** ** Hanging a tree on a slot *)

Definition is_root (s : slot) : Prop := s = RootV4 \/ s = RootV6.

Record hung (tb : AllowedIPs) (s : slot) (bt : Z) (t : tree) (tb' : AllowedIPs) : Prop := {
  hung_rep : rep (store tb') s bt t;
  hung_root : is_root s -> load tb' s = Some (root t);
  hung_slot : forall l b, s = ChildOf l b ->
    exists e, store tb !! l = Some e /\ store tb' !! l = Some (with_child e b (root t));
  hung_frame : forall l, l ∉ locs t -> (forall b, s <> ChildOf l b) -> store tb' !! l = store tb !! l;
  hung_roots : forall s', is_root s' -> s' <> s -> load tb' s' = load tb s';
  hung_lists : trieEntries tb' = trieEntries tb;
}.

Definition slot_ok (tb : AllowedIPs) (s : slot) (t : tree) : Prop :=
  match s with ChildOf l _ => l ∉ locs t /\ is_Some (store tb !! l) | _ => True end.

Lemma root_locs t x : root t = Some x -> x ∈ locs t.
Proof. destruct t; [done|]. intros [= ->]. set_solver. Qed.

(** Assigning a slot whose tree already points back to it. *)
Lemma assign_spec tb s bt t : rep (store tb) s bt t -> slot_ok tb s t ->
  exists tb', assign tb s (root t) = Some tb' /\ hung tb s bt t tb'.
Proof.
  intros Hrep Hs. destruct s as [| |l b]; simpl in *.
  1,2: eexists; split; [done|]; split; simpl;
       [done|done|done|done|intros s' [-> | ->] ?; done|done].
  destruct Hs as [Hl [e He]]. unfold upd. rewrite He. cbn [mbind option_bind]. eexists. split; [done|].
  split; simpl.
  - eapply rep_frame; [|done]. intros l' Hl'. rewrite lookup_insert_ne; [done|set_solver].
  - by intros [? | ?].
  - intros ? ? [= <- <-]. exists e. by rewrite lookup_insert_eq.
  - intros l' _ Hne. rewrite lookup_insert_ne; [done|]. intros ->. by apply (Hne b).
  - by intros s' [-> | ->] ?.
  - done.
Qed.

Lemma hang_spec tb s bt t : repo (store tb) t -> NoDup (locs t) -> slot_ok tb s t ->
  exists tb', hang tb s bt (root t) = Some tb' /\ hung tb s bt t tb'.
Proof.
  intros Hrep Hnd Hs. unfold hang. destruct (root t) as [x|] eqn:Hroot.
  2:{ destruct t; [|done]. cbn [mbind option_bind]. by apply (assign_spec tb s bt Leaf). }
  assert (exists e, store tb !! x = Some e) as [e He].
  { destruct t; [done|]. destruct Hrep as ((? & ? & ?) & _). injection Hroot as <-. eauto. }
  pose proof (root_locs t x Hroot) as Hx.
  unfold upd at 1. rewrite He. cbn [mbind option_bind]. rewrite <- Hroot.
  set (tb1 := set_store tb (<[x := with_parent e (Some s) bt]> (store tb))).
  assert (forall l, l ∉ locs t -> store tb1 !! l = store tb !! l) as Hfr.
  { intros l Hl. simpl. rewrite lookup_insert_ne; [done|]. intros ->. done. }
  destruct (assign_spec tb1 s bt t) as (tb' & -> & [H1 H2 H3 H4 H5 H6]).
  - by eapply rep_reparent.
  - destruct s as [| |l b]; [done..|]. destruct Hs as [Hl ?]. split; [done|]. by rewrite Hfr.
  - exists tb'. split; [done|]. split; [done|done| | | |done].
    + intros l b ->. destruct Hs as [Hl ?]. destruct (H3 l b eq_refl) as (e' & He' & ?). rewrite Hfr in He' by done. eauto.
    + intros l Hl Hne. by rewrite H4, Hfr.
    + intros s' Hs' Hne. rewrite H5 by done. by destruct Hs' as [-> | ->].
Qed.

Lemma frame_entry_child f s bt r r' :
  with_child (frame_entry f s bt r) (Z.b2z (f_bit f)) r' = frame_entry f s bt r'.
Proof. by destruct f as [????[]?]. Qed.

(** Hanging at the hole of a context represents the plugged tree. *)
Lemma hung_plug tb s0 bt0 k t r tb' :
  hung tb (slot_of s0 k) (bt_of bt0 k) t tb' -> rep_ctx (store tb) s0 bt0 k r ->
  NoDup (locs_ctx k ++ locs t) -> rep (store tb') s0 bt0 (plug k t).
Proof.
  intros Hh Hctx Hnd. apply rep_plug. split; [|by apply (hung_rep _ _ _ _ _ Hh)].
  destruct k as [|f k]; [done|]. simpl in *. destruct Hctx as (Hf & Hsib & Hk).
  apply NoDup_cons in Hnd as [Hfl Hnd]. apply NoDup_app in Hnd as (_ & Hdis & _).
  assert (forall l, l ∈ locs (f_sib f) ++ locs_ctx k -> store tb' !! l = store tb !! l) as Hfr.
  { intros l Hl. apply (hung_frame _ _ _ _ _ Hh); [by apply Hdis|]. intros b [= ? _]. apply Hfl. set_solver. }
  split_and!.
  - destruct (hung_slot _ _ _ _ _ Hh _ _ eq_refl) as (e & He & ->). rewrite Hf in He. injection He as <-.
    by rewrite frame_entry_child.
  - eapply rep_frame; [|done]. set_solver.
  - eapply rep_ctx_frame; [|done]. set_solver.
Qed.

(** ** Tables *)

Definition slotOf (v6 : bool) : slot := if v6 then RootV6 else RootV4.
Definition sizeOf (v6 : bool) : nat := if v6 then 16%nat else 4%nat.
Definition listOf (tb : AllowedIPs) (p : peerId) : list loc := default [] (trieEntries tb !! p).

Record repr (tb : AllowedIPs) (F : bool -> tree) : Prop := {
  repr_load : forall v, load tb (slotOf v) = Some (root (F v));
  repr_rep : forall v, rep (store tb) (slotOf v) 2 (F v);
  repr_wf : forall v, wf_top (sizeOf v) (F v);
  repr_nodup : forall v, NoDup (locs (F v));
  repr_disj : forall v l, l ∈ locs (F v) -> l ∉ locs (F (negb v));
  repr_list : forall p l, l ∈ listOf tb p <-> exists v, (l, p) ∈ owned (F v);
  repr_lnodup : forall p, NoDup (listOf tb p);
}.

(** The abstract state of the table: a partial map from masked prefixes to peers. *)
Definition routes (F : bool -> tree) : gmap key peerId := routesOf (F false) ∪ routesOf (F true).

Definition update (F : bool -> tree) (v : bool) (t : tree) : bool -> tree :=
  fun w => if bool_decide (w = v) then t else F w.

Lemma update_eq F v t : update F v t v = t.
Proof. unfold update. by rewrite bool_decide_true. Qed.
Lemma update_ne F v t w : w <> v -> update F v t w = F w.
Proof. intros H. unfold update. by rewrite bool_decide_false. Qed.
Lemma update_negb F v t : update F v t (negb v) = F (negb v).
Proof. apply update_ne. by destruct v. Qed.

Lemma owned_locs t l p : (l, p) ∈ owned t -> l ∈ locs t.
Proof.
  induction t as [|l' q c b t0 IH0 t1 IH1]; simpl; [by intros ?%elem_of_nil|].
  intros [H|[H|H]%elem_of_app]%elem_of_app; [|set_solver..].
  destruct q; [|by apply elem_of_nil in H]. apply list_elem_of_singleton in H. simplify_eq. set_solver.
Qed.

Lemma slotOf_root v : is_root (slotOf v).
Proof. destruct v; [by right|by left]. Qed.
Lemma slotOf_ne v : slotOf (negb v) <> slotOf v.
Proof. by destruct v. Qed.

Lemma bool_cases (v w : bool) : w = v \/ w = negb v.
Proof. destruct v, w; auto. Qed.

(** One trie replaced, the other untouched. *)
Lemma repr_update tb F v t' tb' :
  repr tb F ->
  load tb' (slotOf v) = Some (root t') -> load tb' (slotOf (negb v)) = load tb (slotOf (negb v)) ->
  rep (store tb') (slotOf v) 2 t' -> wf_top (sizeOf v) t' -> NoDup (locs t') ->
  (forall l, l ∈ locs (F (negb v)) -> l ∉ locs t' /\ store tb' !! l = store tb !! l) ->
  (forall p l, l ∈ listOf tb' p <-> (l, p) ∈ owned t' \/ (l, p) ∈ owned (F (negb v))) ->
  (forall p, NoDup (listOf tb' p)) ->
  repr tb' (update F v t').
Proof.
  intros [H1 H2 H3 H4 H5 H6 H7] Hl Hl' Hr Hw Hn Hd Hlist Hln. split.
  - intros w. destruct (bool_cases v w) as [-> | ->]; [by rewrite update_eq|]. by rewrite update_negb, Hl', H1.
  - intros w. destruct (bool_cases v w) as [-> | ->]; [by rewrite update_eq|]. rewrite update_negb.
    eapply rep_frame; [|apply H2]. intros l Hin. by apply Hd.
  - intros w. destruct (bool_cases v w) as [-> | ->]; [by rewrite update_eq|]. by rewrite update_negb.
  - intros w. destruct (bool_cases v w) as [-> | ->]; [by rewrite update_eq|]. by rewrite update_negb.
  - intros w l. destruct (bool_cases v w) as [-> | ->]; rewrite ?negb_involutive, update_eq, update_negb.
    + intros Hin Hin'. by apply Hd in Hin' as [? _].
    + intros Hin. by apply Hd in Hin as [? _].
  - intros p l. rewrite Hlist. split.
    + intros [H|H]; [exists v; by rewrite update_eq|exists (negb v); by rewrite update_negb].
    + intros [w H]. destruct (bool_cases v w) as [-> | ->]; [rewrite update_eq in H|rewrite update_negb in H]; tauto.
  - done.
Qed.

(** [hang] at the hole of a context, on a table [tb2] that differs from [tb] outside
    of the context only. *)
Lemma repr_hang tb F v k t t' tb2 :
  repr tb F -> F v = plug k t ->
  rep_ctx (store tb2) (slotOf v) 2 k (root t) ->
  (forall s, is_root s -> load tb2 s = load tb s) ->
  repo (store tb2) t' -> NoDup (locs_ctx k ++ locs t') ->
  (forall l, l ∈ locs (F (negb v)) -> l ∉ locs_ctx k ++ locs t' /\ store tb2 !! l = store tb !! l) ->
  wf_top (sizeOf v) (plug k t') ->
  (forall p l, l ∈ listOf tb2 p <-> (l, p) ∈ owned_ctx k ++ owned t' \/ (l, p) ∈ owned (F (negb v))) ->
  (forall p, NoDup (listOf tb2 p)) ->
  exists tb', hang tb2 (slot_of (slotOf v) k) (bt_of 2 k) (root t') = Some tb' /\
    hung tb2 (slot_of (slotOf v) k) (bt_of 2 k) t' tb' /\ repr tb' (update F v (plug k t')).
Proof.
  intros HR HF Hctx Hroots Hrepo Hnd Hoth Hwf Hlist Hln.
  destruct (hang_spec tb2 (slot_of (slotOf v) k) (bt_of 2 k) t') as (tb' & Hhang & Hh).
  { done. }
  { by apply NoDup_app in Hnd as (_ & _ & ?). }
  { destruct k as [|f k]; simpl in *; [by destruct v|]. split; [|destruct Hctx as (Hf & _); by eexists].
    apply NoDup_cons in Hnd as [Hnd _]. set_solver. }
  exists tb'. split; [done|]. split; [done|].
  assert (forall l, l ∈ locs (F (negb v)) -> store tb' !! l = store tb !! l) as Hoth'.
  { intros l Hl. destruct (Hoth l Hl) as [Hni <-]. apply (hung_frame _ _ _ _ _ Hh); [set_solver|].
    intros b Hs. destruct k as [|f k]; simpl in Hs; [by destruct v|]. simplify_eq. apply Hni. set_solver. }
  apply repr_update with tb; [done|..].
  - destruct k as [|f k].
    + apply (hung_root _ _ _ _ _ Hh). apply slotOf_root.
    + rewrite (hung_roots _ _ _ _ _ Hh), Hroots, (repr_load _ _ HR), HF; [|apply slotOf_root..|by destruct v].
      f_equal. apply root_plug.
  - rewrite (hung_roots _ _ _ _ _ Hh), Hroots; [done|apply slotOf_root..|].
    destruct k; simpl; [apply slotOf_ne|by destruct v].
  - by eapply hung_plug.
  - done.
  - by rewrite locs_plug.
  - intros l Hl. split; [|by apply Hoth']. rewrite locs_plug. by apply Hoth.
  - intros p l. unfold listOf. rewrite (hung_lists _ _ _ _ _ Hh), owned_plug. apply Hlist.
  - intros p. unfold listOf. rewrite (hung_lists _ _ _ _ _ Hh). apply Hln.
Qed.

(** ** The lists of the peers *)

Lemma owned_ctx_locs k l p : (l, p) ∈ owned_ctx k -> l ∈ locs_ctx k.
Proof.
  induction k as [|f k IH]; simpl; [by intros ?%elem_of_nil|]. rewrite !elem_of_app.
  intros [[H|H]|H]; [|apply owned_locs in H; set_solver|apply IH in H; set_solver].
  destruct (f_peer f); [|by apply elem_of_nil in H]. apply list_elem_of_singleton in H. simplify_eq. set_solver.
Qed.

Lemma owner tb F v k l q c b t0 t1 : repr tb F -> F v = plug k (Node l q c b t0 t1) ->
  forall r, l ∈ listOf tb r <-> q = Some r.
Proof.
  intros HR HF r. pose proof (repr_nodup _ _ HR v) as Hnd. rewrite HF, locs_plug in Hnd.
  rewrite (repr_list _ _ HR). split.
  - intros [w Hw]. destruct (bool_cases v w) as [-> | ->].
    2:{ apply owned_locs in Hw. apply (repr_disj _ _ HR) in Hw. rewrite negb_involutive, HF, locs_plug in Hw. set_solver. }
    rewrite HF, owned_plug in Hw. apply NoDup_app in Hnd as (_ & Hd & Hn). apply NoDup_cons in Hn as [Hn _].
    apply elem_of_app in Hw as [Hw|Hw]; [apply owned_ctx_locs, Hd in Hw; set_solver|]. simpl in Hw.
    apply elem_of_app in Hw as [Hw|Hw]; [|apply elem_of_app in Hw as [Hw|Hw]; apply owned_locs in Hw; set_solver].
    destruct q; [|by apply elem_of_nil in Hw]. apply list_elem_of_singleton in Hw. congruence.
  - intros ->. exists v. rewrite HF, owned_plug. set_solver.
Qed.

Lemma filter_id {A} (P : A -> Prop) `{forall x, Decision (P x)} (l : list A) :
  (forall x, x ∈ l -> P x) -> filter P l = l.
Proof.
  induction l as [|x l IH]; [done|]. intros HP. rewrite filter_cons_True by (apply HP; set_solver).
  f_equal. apply IH. set_solver.
Qed.

Definition listed (e : trieEntry) : Prop := perPeerElem e = bool_decide (is_Some (peer e)).

(** [removeFromPeerEntries] leaves the lists without the node. *)
Lemma unlist_spec tb l e : store tb !! l = Some e -> listed e -> (forall r, l ∈ listOf tb r <-> peer e = Some r) ->
  exists tb', removeFromPeerEntries tb l = Some tb' /\ store tb' = <[l := with_peer e (peer e) false]> (store tb) /\
    IPv4 tb' = IPv4 tb /\ IPv6 tb' = IPv6 tb /\ forall r, listOf tb' r = filter (fun k => k <> l) (listOf tb r).
Proof.
  intros He Hl Ho. unfold removeFromPeerEntries. rewrite He. cbn [mbind option_bind]. rewrite Hl.
  destruct (peer e) as [q|] eqn:Hq.
  - rewrite bool_decide_true by eauto. cbn [mbind option_bind]. unfold upd, set_store. cbn [store]. rewrite He. cbn [mbind option_bind].
    eexists. split; [done|]. cbn [store IPv4 IPv6]. rewrite Hq. split; [done|]. split; [done|]. split; [done|]. intros r. unfold listOf at 1. cbn [trieEntries].
    destruct (decide (q = r)) as [<- |Hne]; [by rewrite lookup_insert_eq|]. rewrite lookup_insert_ne by done.
    fold (listOf tb r). symmetry. apply filter_id. intros k Hk ->. apply Ho in Hk. congruence.
  - rewrite bool_decide_false by (by intros [? ?]). exists tb. split; [done|]. split; [|split; [done|split; [done|]]].
    + symmetry. apply insert_id. rewrite He. f_equal. unfold listed in Hl. rewrite Hq, bool_decide_false in Hl by (by intros [? ?]).
      destruct e; simpl in *. by subst.
    + intros r. symmetry. apply filter_id. intros k Hk ->. by apply Ho in Hk.
Qed.

(** [addToPeerEntries] appends the node to the list of its peer. *)
Lemma enlist_spec tb l e p : store tb !! l = Some e -> peer e = Some p ->
  exists tb', addToPeerEntries tb l = Some tb' /\ store tb' = <[l := with_peer e (Some p) true]> (store tb) /\
    IPv4 tb' = IPv4 tb /\ IPv6 tb' = IPv6 tb /\
    forall r, listOf tb' r = listOf tb r ++ (if bool_decide (r = p) then [l] else []).
Proof.
  intros He Hp. unfold addToPeerEntries. rewrite He. cbn [mbind option_bind]. rewrite Hp. cbn [mbind option_bind].
  unfold upd, set_store. cbn [store]. rewrite He. cbn [mbind option_bind]. eexists. split; [done|]. cbn [store IPv4 IPv6].
  rewrite Hp. split; [done|]. split; [done|]. split; [done|]. intros r. unfold listOf at 1. cbn [trieEntries].
  destruct (decide (p = r)) as [<- |Hne].
  - rewrite lookup_insert_eq, bool_decide_true by done. done.
  - rewrite lookup_insert_ne, bool_decide_false by done. by rewrite app_nil_r.
Qed.

Lemma load_roots tb tb' s : IPv4 tb' = IPv4 tb -> IPv6 tb' = IPv6 tb -> is_root s -> load tb' s = load tb s.
Proof. intros H4 H6 [-> | ->]; simpl; by rewrite ?H4, ?H6. Qed.

(** The owners of the rest of the tries, from the lists. *)
Lemma owned_others tb F v k l q c b t0 t1 r l' : repr tb F -> F v = plug k (Node l q c b t0 t1) ->
  (l' <> l /\ l' ∈ listOf tb r <-> (l', r) ∈ owned_ctx k ++ owned t0 ++ owned t1 \/ (l', r) ∈ owned (F (negb v))).
Proof.
  intros HR HF. pose proof (repr_nodup _ _ HR v) as Hnd. rewrite HF, locs_plug in Hnd.
  assert (l ∉ locs_ctx k /\ l ∉ locs t0 ++ locs t1) as [Hl1 Hl2].
  { apply NoDup_app in Hnd as (_ & Hd & Hn). apply NoDup_cons in Hn as [Hn _]. split; [|done].
    intros Hl%Hd. apply Hl. set_solver. }
  rewrite (repr_list _ _ HR). split.
  - intros [Hne [w Hw]]. destruct (bool_cases v w) as [-> | ->]; [|by right]. left. rewrite HF, owned_plug in Hw. simpl in Hw.
    apply elem_of_app in Hw as [Hw|Hw]; [set_solver|]. apply elem_of_app in Hw as [Hw|Hw]; [|set_solver].
    destruct q; [|by apply elem_of_nil in Hw]. apply list_elem_of_singleton in Hw. congruence.
  - intros [Hw|Hw].
    + split; [|exists v; rewrite HF, owned_plug; set_solver]. intros ->.
      apply elem_of_app in Hw as [Hw%owned_ctx_locs|[Hw%owned_locs|Hw%owned_locs]%elem_of_app]; set_solver.
    + split; [|by eexists]. intros ->. apply owned_locs, (repr_disj _ _ HR) in Hw.
      rewrite negb_involutive, HF, locs_plug in Hw. set_solver.
Qed.

(** A node changes its peer in place. *)
Lemma repr_repeer tb F v k l q q' c b t0 t1 tb' :
  repr tb F -> F v = plug k (Node l q c b t0 t1) ->
  store tb' = <[l := entryOf q' c b (slot_of (slotOf v) k) (bt_of 2 k) (root t0) (root t1)]> (store tb) ->
  IPv4 tb' = IPv4 tb -> IPv6 tb' = IPv6 tb ->
  (q' = None -> t0 <> Leaf /\ t1 <> Leaf) ->
  (forall r l', l' ∈ listOf tb' r <-> (l' = l /\ q' = Some r) \/ (l' <> l /\ l' ∈ listOf tb r)) ->
  (forall r, NoDup (listOf tb' r)) ->
  repr tb' (update F v (plug k (Node l q' c b t0 t1))).
Proof.
  intros HR HF Hst H4 H6 Hq Hli Hnd'. pose proof (repr_nodup _ _ HR v) as Hnd. rewrite HF, locs_plug in Hnd.
  assert (l ∈ locs (F v)) as Hlv by (rewrite HF, locs_plug; set_solver).
  assert (forall l', l' <> l -> store tb' !! l' = store tb !! l') as Hfr by (intros; rewrite Hst, lookup_insert_ne; done).
  pose proof Hnd as (_ & Hd & [Hn _]%NoDup_cons)%NoDup_app.
  apply repr_update with tb; try done.
  - rewrite (load_roots tb) by (done || apply slotOf_root). rewrite (repr_load _ _ HR), HF. f_equal.
    destruct k; [done|]. apply root_plug.
  - apply load_roots; [done..|apply slotOf_root].
  - pose proof (repr_rep _ _ HR v) as Hr. rewrite HF in Hr. apply rep_plug in Hr as (Hc & _ & H0 & H1). apply rep_plug.
    split; [|split; [|split]].
    + eapply rep_ctx_frame; [|done]. intros l' Hl'. apply Hfr. intros ->. apply Hd in Hl'. set_solver.
    + by rewrite Hst, lookup_insert_eq.
    + eapply rep_frame; [|done]. intros l' Hl'. apply Hfr. set_solver.
    + eapply rep_frame; [|done]. intros l' Hl'. apply Hfr. set_solver.
  - pose proof (repr_wf _ _ HR v) as Hw. rewrite HF in Hw. apply wf_plug in Hw as (Hw1 & Hw2 & _). apply wf_plug.
    split; [done|]. split; [simpl in *; tauto|]. by destruct k; simpl.
  - by rewrite locs_plug.
  - intros l' Hl'. pose proof (repr_disj _ _ HR _ _ Hl') as Hdis. rewrite negb_involutive in Hdis. split.
    + rewrite locs_plug. by rewrite HF, locs_plug in Hdis.
    + apply Hfr. by intros ->.
  - intros r l'. rewrite Hli, (owned_others tb F v k l q c b t0 t1 r l' HR HF), owned_plug. simpl.
    rewrite !elem_of_app. assert (l' = l ∧ q' = Some r <-> (l', r) ∈ match q' with Some p => [(l, p)] | None => [] end) as ->; [|tauto].
    destruct q'; [rewrite list_elem_of_singleton; naive_solver|rewrite elem_of_nil; naive_solver].
Qed.
