(* ===== verification/RoutingInsert.v ===== *)
(** * RoutingInsert: insertion updates the route map at one prefix

    The four ways [insert] ends (empty table, exact node, empty slot, new node above
    an existing one, with or without a node between) as replacements of one subtree;
    [insert_spec] joins them. *)
From S2P Require Import Prelude AllowedIPs AddrBits Routing RoutingTable.
#[local] Open Scope Z_scope.

(** ** Pushing the new node *)

Definition pushed (tb : AllowedIPs) (x : loc) (p : peerId) (e : trieEntry) : AllowedIPs :=
  mkTable (<[x := e]> (store tb)) (IPv4 tb) (IPv6 tb) (<[p := listOf tb p ++ [x]]> (trieEntries tb)).

Definition fresh_loc (tb : AllowedIPs) : loc := fresh (dom (store tb)).

Lemma fresh_None tb : store tb !! fresh_loc tb = None.
Proof. apply not_elem_of_dom. unfold fresh_loc. apply (is_fresh (dom (store tb))). Qed.

Lemma push_new tb p par ty ip c :
  addToPeerEntries (set_store tb (<[fresh_loc tb := newEntry (Some p) par ty ip c]> (store tb))) (fresh_loc tb)
  = Some (pushed tb (fresh_loc tb) p (with_peer (newEntry (Some p) par ty ip c) (Some p) true)).
Proof.
  unfold addToPeerEntries, upd, set_store, pushed, listOf. cbn [store IPv4 IPv6 trieEntries].
  rewrite lookup_insert_eq. cbn [mbind option_bind peer newEntry store]. by rewrite insert_insert_eq.
Qed.

Definition newNodeTree (x : loc) (p : peerId) (c : Z) (b : list Z) : tree := Node x (Some p) c b Leaf Leaf.

Lemma repo_new h x p par ty ip c : h !! x = Some (with_peer (newEntry (Some p) par ty ip c) (Some p) true) ->
  repo h (newNodeTree x p c (maskBits c ip)).
Proof. intros H. split; [|done]. exists par, ty. rewrite H. by unfold entryOf; rewrite bool_decide_true by eauto. Qed.

(** ** Facts about the place found *)

Lemma Q_same k a b : Q_of k a -> Q_of k b -> same_prefix (lo_of k) a b.
Proof.
  destruct k as [|f k]; simpl; [intros _ _ i ?; lia|]. intros [H1 H2] [H3 H4] i Hi.
  destruct (decide (i = f_cidr f)) as [-> |]; [congruence|]. rewrite <- (H1 i), <- (H3 i); [done|lia..].
Qed.

Lemma Q_shift k a b : 0 <= lo_of k - 1 \/ k = [] -> same_prefix (lo_of k) a b -> Q_of k a -> Q_of k b.
Proof.
  destruct k as [|f k]; simpl; [done|]. intros [Hlo|?] Hs; [|done]. replace (f_cidr f + 1 - 1) with (f_cidr f) in Hlo by lia.
  by apply under_nested.
Qed.

Lemma leads_Q ip c n k : Forall (leads ip c) k -> wf_ctx n k -> lo_of k <= Z.max c 0 /\ Q_of k ip.
Proof.
  destruct k as [|f k]; simpl; [split; [lia|done]|]. intros [(H1 & H2 & H3) _]%Forall_cons _.
  split; [lia|]. by split.
Qed.

Lemma Q_mask ip c m n k : Forall (leads ip c) k -> wf_ctx n k -> lo_of k <= m <= nbits ip -> Q_of k (maskBits m ip).
Proof.
  intros Hk Hwf Hm. apply Q_shift with ip; [| |by eapply leads_Q].
  - pose proof (wf_ctx_lo n k Hwf). destruct k as [|f k]; [by right|left; simpl in *].
    destruct Hwf as (_ & ? & _ & _ & _ & _ & Hk'). pose proof (wf_ctx_lo n k Hk'). lia.
  - symmetry. apply same_prefix_mask; lia.
Qed.

Lemma wf_retop n lo lo' (Q Q' : list Z -> Prop) l p c b t0 t1 :
  wf n lo Q (Node l p c b t0 t1) -> lo' <= c -> Q' b -> wf n lo' Q' (Node l p c b t0 t1).
Proof. simpl. intuition lia. Qed.

(** The last step finds the slot of the context again. *)
Lemma attach_hang tb v k r x b n :
  rep_ctx (store tb) (slotOf v) 2 k r -> wf_ctx n k -> Q_of k b -> lo_of k <= nbits b ->
  attach tb (head_loc k) (slotOf v) 2 x b = hang tb (slot_of (slotOf v) k) (bt_of 2 k) (Some x).
Proof.
  intros Hctx Hwf HQ Hb. destruct k as [|f k]; [done|]. simpl in *. destruct Hctx as (-> & _).
  cbn [mbind option_bind]. rewrite (choose_spec _ (f_cidr f)); [by destruct HQ as [_ ->]|by split|].
  destruct Hwf as (_ & ? & _ & _ & _ & _ & Hk'). pose proof (wf_ctx_lo n k Hk'). lia.
Qed.

(** A list that gains one entry with a new key. *)
Lemma routesOf_insert n t t' k p : wf_top n t' -> entries t' ≡ₚ (k, p) :: entries t -> routesOf t' = <[k := p]> (routesOf t).
Proof. intros Hwf Hp. by rewrite (routesOf_perm n t' _ Hwf Hp). Qed.

(** ** Replacing a subtree by one with a new entry *)

Section Graft.
Context (tb : AllowedIPs) (F : bool -> tree) (v : bool) (k : list frame) (t t' : tree) (tb2 : AllowedIPs)
  (x : loc) (p : peerId) (ns : list loc).
Hypothesis (HR : repr tb F) (HF : F v = plug k t).

Lemma repr_parts :
  rep_ctx (store tb) (slotOf v) 2 k (root t) /\ rep (store tb) (slot_of (slotOf v) k) (bt_of 2 k) t /\
  wf_ctx (sizeOf v) k /\ wf (sizeOf v) (lo_of k) (Q_of k) t /\ NoDup (locs_ctx k ++ locs t).
Proof.
  pose proof (repr_rep _ _ HR v) as Hr. rewrite HF in Hr. apply rep_plug in Hr as [? ?].
  pose proof (repr_wf _ _ HR v) as Hw. rewrite HF in Hw. apply wf_plug in Hw as (? & ? & _).
  pose proof (repr_nodup _ _ HR v) as Hn. by rewrite HF, locs_plug in Hn.
Qed.

Lemma graft_ctx :
  (forall l, is_Some (store tb !! l) -> l ∉ locs t -> store tb2 !! l = store tb !! l) ->
  rep_ctx (store tb2) (slotOf v) 2 k (root t).
Proof.
  intros Hframe. destruct repr_parts as (Hctx & Hrep & Hwc & Hwt & Hnd). eapply rep_ctx_frame; [|done]. intros l Hl. apply Hframe.
  - eapply rep_dom; [apply (repr_rep _ _ HR v)|]. rewrite HF, locs_plug. set_solver.
  - apply NoDup_app in Hnd as (_ & Hd & _). by apply Hd.
Qed.

Hypothesis (Hroots : forall s, is_root s -> load tb2 s = load tb s)
  (Hlists : trieEntries tb2 = <[p := listOf tb p ++ [x]]> (trieEntries tb))
  (Hframe : forall l, is_Some (store tb !! l) -> l ∉ locs t -> store tb2 !! l = store tb !! l)
  (Hlocs : locs t' ≡ₚ ns ++ locs t) (Hns : NoDup ns) (Hx : x ∈ ns)
  (Hfresh : forall l, l ∈ ns -> store tb !! l = None)
  (Howned : owned t' ≡ₚ (x, p) :: owned t)
  (Hrepo : repo (store tb2) t') (Hwf : wf (sizeOf v) (lo_of k) (Q_of k) t') (Hne : t' <> Leaf).

Lemma graft_old l w : l ∈ locs (F w) -> l ∉ ns.
Proof. intros Hl Hl'. apply Hfresh in Hl'. destruct (rep_dom _ _ _ _ _ (repr_rep _ _ HR w) Hl). congruence. Qed.

Lemma graft_list q l : l ∈ listOf tb2 q <-> (l = x /\ q = p) \/ l ∈ listOf tb q.
Proof.
  unfold listOf at 1. rewrite Hlists. destruct (decide (p = q)) as [<- |Hpq].
  - rewrite lookup_insert_eq. simpl. set_solver.
  - rewrite lookup_insert_ne by done. fold (listOf tb q). naive_solver.
Qed.

Lemma graft_lnodup q : NoDup (listOf tb2 q).
Proof.
  pose proof (repr_lnodup _ _ HR q) as Hn. unfold listOf. rewrite Hlists. destruct (decide (p = q)) as [<- |Hpq].
  - rewrite lookup_insert_eq. simpl. apply NoDup_app. split_and!; [done| |apply NoDup_singleton].
    intros l [w Hl%owned_locs]%(repr_list _ _ HR) ->%list_elem_of_singleton. by apply graft_old in Hl.
  - rewrite lookup_insert_ne by done. apply Hn.
Qed.

Lemma repr_graft :
  exists tb', hang tb2 (slot_of (slotOf v) k) (bt_of 2 k) (root t') = Some tb' /\ repr tb' (update F v (plug k t')).
Proof.
  destruct repr_parts as (Hctx & Hrep & Hwc & Hwt & Hnd).
  assert (forall l, l ∈ locs_ctx k ++ locs t -> l ∈ locs (F v)) as Hin by (intros l; by rewrite HF, locs_plug).
  pose proof (graft_ctx Hframe) as Hctx2.
  destruct (repr_hang tb F v k t t' tb2) as (tb' & H1 & H2 & H3); try done; [..|by eauto].
  - rewrite Hlocs. apply NoDup_app in Hnd as (Ha & Hb & Hc). apply NoDup_app. split_and!; [done| |].
    + intros l Hl [Hl'|Hl']%elem_of_app; [|by apply (Hb l)]. eapply (graft_old l v); [|done]. apply Hin. set_solver.
    + apply NoDup_app. split_and!; [done| |done]. intros l Hl Hl'. eapply (graft_old l v); [|done]. apply Hin. set_solver.
  - intros l Hl. pose proof (repr_disj _ _ HR (negb v) l Hl) as Hd. rewrite negb_involutive in Hd. split.
    + rewrite Hlocs. intros [Hl'|[Hl'|Hl']%elem_of_app]%elem_of_app; [apply Hd, Hin; set_solver| |apply Hd, Hin; set_solver].
      by apply (graft_old l (negb v)).
    + apply Hframe; [eapply rep_dom; [apply (repr_rep _ _ HR (negb v))|done]|]. intros Hl'. apply Hd, Hin. set_solver.
  - apply wf_plug. split; [done|]. split; [done|]. by destruct k; simpl.
  - intros q l. rewrite graft_list, (repr_list _ _ HR), Howned. split.
    + intros [[-> ->]|[w Hl]]; [set_solver|]. destruct (bool_cases v w) as [-> | ->]; [rewrite HF, owned_plug in Hl; set_solver|tauto].
    + intros [[Hl|[Hl|Hl]%elem_of_cons]%elem_of_app|Hl].
      * right. exists v. rewrite HF, owned_plug. set_solver.
      * simplify_eq. tauto.
      * right. exists v. rewrite HF, owned_plug. set_solver.
      * right. by exists (negb v).
  - apply graft_lnodup.
Qed.
End Graft.

(** ** The new node in an empty slot *)

Lemma fresh_notin tb F w : repr tb F -> fresh_loc tb ∉ locs (F w).
Proof.
  intros HR Hl. destruct (rep_dom _ _ _ _ _ (repr_rep _ _ HR w) Hl) as [e He]. by rewrite fresh_None in He.
Qed.

Lemma pushed_frame tb p e l : is_Some (store tb !! l) -> store (pushed tb (fresh_loc tb) p e) !! l = store tb !! l.
Proof.
  intros [y Hy]. unfold pushed. cbn [store]. rewrite lookup_insert_ne; [done|]. intros <-. by rewrite fresh_None in Hy.
Qed.

Lemma pushed_new tb x p e : store (pushed tb x p e) !! x = Some e.
Proof. apply lookup_insert_eq. Qed.

Lemma insert_leaf tb F v k p par ty ip c :
  repr tb F -> F v = plug k Leaf -> addr_ok ip -> length ip = sizeOf v -> 0 <= c <= nbits ip -> Forall (leads ip c) k ->
  exists tb', hang (pushed tb (fresh_loc tb) p (with_peer (newEntry (Some p) par ty ip c) (Some p) true))
      (slot_of (slotOf v) k) (bt_of 2 k) (Some (fresh_loc tb)) = Some tb' /\
    repr tb' (update F v (plug k (newNodeTree (fresh_loc tb) p c (maskBits c ip)))).
Proof.
  intros HR HF Hip Hn Hc Hk. destruct (repr_parts tb F v k Leaf HR HF) as (_ & _ & Hwc & _ & _).
  apply (repr_graft tb F v k Leaf (newNodeTree (fresh_loc tb) p c (maskBits c ip))
    (pushed tb (fresh_loc tb) p _) (fresh_loc tb) p [fresh_loc tb] HR HF); try done.
  - by intros s [-> | ->].
  - intros l Hl _. by apply pushed_frame.
  - apply NoDup_singleton.
  - by apply list_elem_of_singleton.
  - intros l ->%list_elem_of_singleton. apply fresh_None.
  - eapply repo_new. unfold pushed. cbn [store]. by rewrite lookup_insert_eq.
  - pose proof (leads_Q ip c _ k Hk Hwc). pose proof (wf_ctx_lo _ _ Hwc). simpl.
    split; [split; [by apply addr_ok_mask|by rewrite length_maskBits]|]. rewrite nbits_mask. split; [lia|].
    split; [by apply mask_mask|]. split; [eapply Q_mask; [done|done|lia]|done].
Qed.

(** ** The new node above an existing one *)

Lemma repo_fill tb1 tb2 f t told :
  hung tb1 (ChildOf (f_loc f) (Z.b2z (f_bit f))) (Z.b2z (f_bit f)) t tb2 -> repo (store tb1) (fill f told) ->
  f_loc f ∉ locs (f_sib f) ++ locs t -> (forall l, l ∈ locs (f_sib f) -> l ∉ locs t) ->
  repo (store tb2) (fill f t).
Proof.
  intros Hh Hr Hf Hd. destruct (hung_slot _ _ _ _ _ Hh _ _ eq_refl) as (e & He & He2). pose proof (hung_rep _ _ _ _ _ Hh) as Ht.
  assert (forall s bt, rep (store tb1) s bt (f_sib f) -> rep (store tb2) s bt (f_sib f)) as Hsib.
  { intros s bt. apply rep_frame. intros l Hl. apply (hung_frame _ _ _ _ _ Hh); [by apply Hd|]. intros b [= <- _]. set_solver. }
  destruct f as [x q c b [] sib]; simpl in *; destruct Hr as ((par & ty & Hx) & H0 & H1);
    rewrite Hx in He; injection He as <-; rewrite He2; (split; [by exists par, ty|]); split; auto.
Qed.

Lemma wf_leaf n lo (Q : list Z -> Prop) x p c b :
  addr_ok b -> length b = n -> lo <= c <= nbits b -> maskBits c b = b -> Q b -> wf n lo Q (newNodeTree x p c b).
Proof. simpl. intuition done. Qed.

Lemma wf_fill n lo (Q : list Z -> Prop) x q c b bit sib t :
  addr_ok b -> length b = n -> lo <= c <= nbits b -> maskBits c b = b -> Q b -> (q = None -> sib <> Leaf /\ t <> Leaf) ->
  wf n (c + 1) (under c b bit) t -> wf n (c + 1) (under c b (negb bit)) sib -> wf n lo Q (fill (Frame x q c b bit sib) t).
Proof. destruct bit; simpl; intuition done. Qed.

Section Above.
Context (tb : AllowedIPs) (F : bool -> tree) (v : bool) (k : list frame) (ip : list Z) (c : Z) (p : peerId)
  (d : loc) (q : option peerId) (cd : Z) (bd : list Z) (t0 t1 : tree).
Abbreviation t := (Node d q cd bd t0 t1).
Abbreviation x := (fresh_loc tb).
Abbreviation mip := (maskBits c ip).
Abbreviation newE := (with_peer (newEntry (Some p) None 0 ip c) (Some p) true).
Abbreviation tb1 := (pushed tb x p newE).
Hypothesis (HR : repr tb F) (HF : F v = plug k t) (Hip : addr_ok ip) (Hn : length ip = sizeOf v)
  (Hc : 0 <= c <= nbits ip) (Hk : Forall (leads ip c) k) (Hno : ~ (cd <= c /\ same_prefix cd bd ip)).

Lemma above_facts :
  (addr_ok bd /\ length bd = sizeOf v) /\ lo_of k <= cd <= nbits ip /\ Q_of k bd /\ nbits bd = nbits ip /\
  0 <= lo_of k <= c /\ wf_ctx (sizeOf v) k.
Proof.
  destruct (repr_parts tb F v k t HR HF) as (_ & _ & Hwc & Hwt & _). destruct Hwt as (Hb & Hcd & _ & HQ & _).
  assert (nbits bd = nbits ip) as Hnb by (apply nbits_length; destruct Hb; congruence). rewrite Hnb in Hcd.
  pose proof (leads_Q ip c _ k Hk Hwc) as [? _]. pose proof (wf_ctx_lo _ _ Hwc).
  split; [done|]. split; [done|]. split; [done|]. split; [done|]. split; [lia|done].
Qed.

Lemma above_wf lo (Q : list Z -> Prop) : lo <= cd -> Q bd -> wf (sizeOf v) lo Q t.
Proof. intros. destruct (repr_parts tb F v k t HR HF) as (_ & _ & _ & Hwt & _). by eapply wf_retop. Qed.

Lemma above_old l : l ∈ locs_ctx k ++ locs t -> is_Some (store tb !! l).
Proof. intros Hl. eapply rep_dom; [apply (repr_rep _ _ HR v)|]. by rewrite HF, locs_plug. Qed.

Lemma above_rep h : (forall l, l ∈ locs t -> h !! l = store tb !! l) -> repo h t.
Proof.
  intros Hh. destruct (repr_parts tb F v k t HR HF) as (_ & Hr & _). eapply rep_repo, rep_frame; [exact Hh|exact Hr].
Qed.

Lemma above_nodup : NoDup (locs t).
Proof. destruct (repr_parts tb F v k t HR HF) as (_ & _ & _ & _ & Hnd). by apply NoDup_app in Hnd as (_ & _ & ?). Qed.

(** The new prefix contains the old one: the new node takes its place. *)
Lemma insert_above_direct : same_prefix c bd mip ->
  exists tb', (t2 ← hang tb1 (ChildOf x (Z.b2z (ipbit bd c))) (Z.b2z (ipbit bd c)) (Some d);
               attach t2 (head_loc k) (slotOf v) 2 x mip) = Some tb' /\
    repr tb' (update F v (plug k (fill (Frame x (Some p) c mip (ipbit bd c) Leaf) t))).
Proof.
  intros Hs. destruct above_facts as ((Hbd & Hbn) & Hcd & HQ & Hnb & Hlo & Hwc).
  assert (x ∉ locs t) as Hx.
  { intros Hx. destruct (above_old x) as [e He]; [set_solver|]. by rewrite fresh_None in He. }
  assert (forall l, is_Some (store tb !! l) -> store tb1 !! l = store tb !! l) as Hfr by (intros; by apply pushed_frame).
  assert (store tb1 !! x = Some newE) as Hxe by (unfold pushed; cbn [store]; by rewrite lookup_insert_eq).
  destruct (hang_spec tb1 (ChildOf x (Z.b2z (ipbit bd c))) (Z.b2z (ipbit bd c)) t) as (tb2 & Hhang & Hh).
  { apply above_rep. intros l Hl. apply Hfr, above_old. set_solver. }
  { apply above_nodup. }
  { split; [done|]. by rewrite Hxe. }
  change (Some d) with (root t). rewrite Hhang. cbn [mbind option_bind].
  assert (forall l, is_Some (store tb !! l) -> l ∉ locs t -> store tb2 !! l = store tb !! l) as Hframe.
  { intros l Hl Hlt. rewrite (hung_frame _ _ _ _ _ Hh), Hfr; [done..|]. intros b [= <-]. destruct Hl as [e He]. by rewrite fresh_None in He. }
  rewrite (attach_hang tb2 v k (root t) x mip (sizeOf v));
    [|by apply (graft_ctx tb F v k t tb2 HR HF)|done|eapply Q_mask; [done|done|lia]|rewrite nbits_mask; lia].
  assert (c < cd) as Hlt.
  { destruct (decide (c < cd)); [done|]. destruct Hno. split; [lia|]. transitivity (maskBits c ip); [apply (same_prefix_mono c); [lia|done]|].
    apply same_prefix_mask; lia. }
  set (t' := fill (Frame x (Some p) c mip (ipbit bd c) Leaf) t).
  assert (root t' = Some x) as <- by (subst t'; by destruct (ipbit bd c)).
  apply (repr_graft tb F v k t t' tb2 x p [x] HR HF).
  - intros s Hs'. rewrite (hung_roots _ _ _ _ _ Hh) by (done || by destruct Hs' as [-> | ->]). by destruct Hs' as [-> | ->].
  - by rewrite (hung_lists _ _ _ _ _ Hh).
  - done.
  - subst t'. destruct (ipbit bd c); simpl; solve_Permutation.
  - apply NoDup_singleton.
  - by apply list_elem_of_singleton.
  - intros l ->%list_elem_of_singleton. apply fresh_None.
  - subst t'. destruct (ipbit bd c); simpl; solve_Permutation.
  - eapply (repo_fill tb1 tb2 (Frame x (Some p) c mip (ipbit bd c) Leaf) t Leaf); [done| |done|by intros ? ?%elem_of_nil].
    destruct (ipbit bd c); by eapply repo_new.
  - apply wf_fill; [by apply addr_ok_mask|by rewrite length_maskBits|rewrite nbits_mask; lia|by apply mask_mask| |done| |done].
    + eapply Q_mask; [done|done|lia].
    + apply above_wf; [lia|]. split; [by symmetry|done].
  - subst t'. apply fill_not_leaf.
Qed.
(** The prefixes part at bit [cm]: a node without peer is put between. *)
Abbreviation m := (fresh_loc tb1).
Abbreviation tb1m cm := (set_store tb1 (<[m := newEntry None None 0 mip cm]> (store tb1))) (only parsing).

Lemma mid_facts cm : 0 <= cm < c -> (forall i, 0 <= i <= nbits ip -> (i <= cm <-> same_prefix i bd mip)) ->
  cm < cd /\ lo_of k <= cm /\ ipbit mip cm = negb (ipbit bd cm) /\ Q_of k (maskBits cm mip).
Proof.
  intros Hcm Hiff. destruct above_facts as ((Hbd & Hbn) & Hcd & HQ & Hnb & Hlo & Hwc).
  assert (Q_of k mip) as HQm by (eapply Q_mask; [done|done|lia]).
  assert (lo_of k <= cm) as Hlo' by (apply Hiff; [lia|]; by apply Q_same).
  split; [|split; [done|split]].
  - destruct (decide (cm < cd)); [done|]. destruct Hno. split; [lia|]. transitivity (maskBits c ip).
    + apply Hiff; lia.
    + apply same_prefix_mask; lia.
  - destruct (decide (ipbit (maskBits c ip) cm = negb (ipbit bd cm))) as [|Hne]; [done|]. exfalso.
    assert (cm + 1 <= cm); [|lia]. apply Hiff; [lia|]. intros i Hi.
    destruct (decide (i = cm)) as [-> |]; [by destruct (ipbit bd cm), (ipbit (maskBits c ip) cm)|]. apply (proj1 (Hiff cm ltac:(lia))); lia.
  - destruct k as [|f k'] eqn:Ek; [done|]. rewrite <- Ek in *. apply Q_shift with mip; [| |done].
    + left. rewrite Ek in *. simpl. destruct Hwc as (_ & ? & _ & _ & _ & _ & Hk'). pose proof (wf_ctx_lo _ _ Hk'). lia.
    + symmetry. apply same_prefix_mask; rewrite ?nbits_mask; lia.
Qed.

Lemma mid_fresh : store tb !! m = None /\ m <> x.
Proof.
  pose proof (fresh_None tb1) as Hm. change (store tb1) with (<[x := newE]> (store tb)) in Hm.
  apply lookup_insert_None in Hm as [? ?]. by split.
Qed.

Lemma insert_above_mid cm : 0 <= cm < c -> (forall i, 0 <= i <= nbits ip -> (i <= cm <-> same_prefix i bd mip)) ->
  exists tb', (t2 ← hang (tb1m cm) (ChildOf m (Z.b2z (ipbit bd cm))) (Z.b2z (ipbit bd cm)) (Some d);
               t3 ← hang t2 (ChildOf m (Z.b2z (ipbit mip cm))) (Z.b2z (ipbit mip cm)) (Some x);
               attach t3 (head_loc k) (slotOf v) 2 m (maskBits cm mip)) = Some tb' /\
    repr tb' (update F v (plug k (fill (Frame m None cm (maskBits cm mip) (ipbit mip cm) t) (newNodeTree x p c mip)))).
Proof.
  intros Hcm Hiff. destruct above_facts as ((Hbd & Hbn) & Hcd & HQ & Hnb & Hlo & Hwc).
  destruct (mid_facts cm Hcm Hiff) as (Hlt & Hlo' & Hbit & HQm). destruct mid_fresh as [Hm Hmx].
  assert (forall l, l ∈ locs t -> l <> x /\ l <> m) as Hold.
  { intros l Hl. destruct (above_old l) as [e He]; [set_solver|]. pose proof (fresh_None tb). split; intros ->; congruence. }
  set (T1 := tb1m cm).
  assert (forall l, is_Some (store tb !! l) -> store T1 !! l = store tb !! l) as Hfr.
  { intros l [e Hl]. unfold T1. cbn [store set_store]. rewrite lookup_insert_ne by congruence. apply pushed_frame. by eexists. }
  assert (store T1 !! m = Some (newEntry None None 0 mip cm)) as Hme by (unfold T1; cbn [store set_store]; by rewrite lookup_insert_eq).
  assert (store T1 !! x = Some newE) as Hxe.
  { unfold T1. cbn [store set_store]. rewrite lookup_insert_ne by done. unfold pushed. cbn [store]. by rewrite lookup_insert_eq. }
  set (mb := maskBits cm mip) in *.
  destruct (hang_spec T1 (ChildOf m (Z.b2z (ipbit bd cm))) (Z.b2z (ipbit bd cm)) t) as (T2 & Hhang & Hh).
  { apply above_rep. intros l Hl. apply Hfr, above_old. set_solver. }
  { apply above_nodup. }
  { split; [intros Hl; by apply Hold in Hl as [_ ?]|]. by rewrite Hme. }
  change (Some d) with (root t). rewrite Hhang. cbn [mbind option_bind].
  assert (store T2 !! x = Some newE) as Hxe2.
  { rewrite (hung_frame _ _ _ _ _ Hh); [done|intros Hl; by apply Hold in Hl as [? _]|by intros b [= ?]]. }
  assert (repo (store T2) (fill (Frame m None cm mb (ipbit bd cm) Leaf) t)) as Hr2.
  { eapply (repo_fill T1 T2 (Frame m None cm mb (ipbit bd cm) Leaf) t Leaf); [done| |intros Hl; by apply Hold in Hl as [_ ?]|by intros ? ?%elem_of_nil].
    assert (repo (store T1) (Node m None cm mb Leaf Leaf)); [|by destruct (ipbit bd cm)]. split; [|done]. exists None, 0. rewrite Hme.
    unfold entryOf. by rewrite bool_decide_false by (by intros [? ?]). }
  set (tx := newNodeTree x p c mip).
  destruct (hang_spec T2 (ChildOf m (Z.b2z (ipbit mip cm))) (Z.b2z (ipbit mip cm)) tx) as (T3 & Hhang3 & Hh3).
  { by eapply repo_new. }
  { apply NoDup_singleton. }
  { split; [simpl; set_solver|]. destruct (hung_slot _ _ _ _ _ Hh _ _ eq_refl) as (? & _ & ->). by eexists. }
  change (Some x) with (root tx). rewrite Hhang3. cbn [mbind option_bind].
  assert (forall l, is_Some (store tb !! l) -> l ∉ locs t -> store T3 !! l = store tb !! l) as Hframe.
  { intros l Hl Hlt'. assert (l <> m /\ l <> x) as [? ?].
    { destruct Hl as [? Hl]. pose proof (fresh_None tb). split; intros ->; congruence. }
    rewrite (hung_frame _ _ _ _ _ Hh3); [|by apply not_elem_of_cons; split; [|apply not_elem_of_nil]|by intros b [= ?]].
    rewrite (hung_frame _ _ _ _ _ Hh), Hfr; [done..|]. by intros b [= ?]. }
  rewrite (attach_hang T3 v k (root t) m mb (sizeOf v));
    [|by apply (graft_ctx tb F v k t T3 HR HF)|done|done|unfold mb; rewrite !nbits_mask; lia].
  set (t' := fill (Frame m None cm mb (ipbit mip cm) t) tx).
  assert (root t' = Some m) as <- by (subst t'; by destruct (ipbit mip cm)).
  apply (repr_graft tb F v k t t' T3 x p [m; x] HR HF).
  - intros s Hs'. rewrite (hung_roots _ _ _ _ _ Hh3), (hung_roots _ _ _ _ _ Hh) by (done || by destruct Hs' as [-> | ->]).
    by destruct Hs' as [-> | ->].
  - by rewrite (hung_lists _ _ _ _ _ Hh3), (hung_lists _ _ _ _ _ Hh).
  - done.
  - subst t'. destruct (ipbit mip cm); simpl; solve_Permutation.
  - apply NoDup_cons. split; [set_solver|apply NoDup_singleton].
  - set_solver.
  - intros l [-> | ->%list_elem_of_singleton]%elem_of_cons; [done|apply fresh_None].
  - subst t'. destruct (ipbit mip cm); simpl; solve_Permutation.
  - eapply (repo_fill T2 T3 (Frame m None cm mb (ipbit mip cm) t) tx Leaf); [done| |cbn [f_loc f_sib]|].
    + rewrite Hbit. destruct (ipbit bd cm); exact Hr2.
    + rewrite not_elem_of_app. split; [intros Hl; by apply Hold in Hl as [_ ?]|set_solver].
    + intros l Hl. apply Hold in Hl. simpl. set_solver.
  - assert (forall b, same_prefix cm b mip -> under cm mb (ipbit b cm) b) as Hund.
    { intros b Hb. split; [|done]. transitivity (maskBits c ip); [|by symmetry]. apply same_prefix_mask; rewrite ?nbits_mask; lia. }
    assert (addr_ok mip) by by apply addr_ok_mask.
    apply wf_fill; [by apply addr_ok_mask|by unfold mb; rewrite !length_maskBits|unfold mb; rewrite !nbits_mask; lia|by apply mask_mask|done|done| |].
    + apply wf_leaf; [done|by rewrite length_maskBits|rewrite nbits_mask; lia|by apply mask_mask|by apply Hund].
    + rewrite Hbit, negb_involutive. apply above_wf; [lia|]. apply Hund. apply Hiff; lia.
  - subst t'. apply fill_not_leaf.
Qed.
End Above.

(** ** The four cases joined *)

Lemma insert_exact tb F v k l q c b t0 t1 p :
  repr tb F -> F v = plug k (Node l q c b t0 t1) ->
  exists tb', (t ← removeFromPeerEntries tb l;
               t ← upd t l (fun e => with_peer e (Some p) (perPeerElem e));
               addToPeerEntries t l) = Some tb' /\
    repr tb' (update F v (plug k (Node l (Some p) c b t0 t1))).
Proof.
  intros HR HF. destruct (repr_parts tb F v k _ HR HF) as (_ & (Hl & _) & _).
  destruct (unlist_spec tb l _ Hl) as (T1 & -> & Hst1 & H41 & H61 & Hl1); [done|by eapply owner|].
  cbn [mbind option_bind]. unfold upd. rewrite Hst1, lookup_insert_eq. cbn [mbind option_bind]. rewrite insert_insert_eq.
  edestruct (enlist_spec (set_store T1 (<[l := with_peer (with_peer (entryOf q c b (slot_of (slotOf v) k) (bt_of 2 k) (root t0) (root t1))
    q false) (Some p) false]> (store tb))) l) as (T2 & HT2 & Hst2 & H42 & H62 & Hl2);
    [unfold set_store; cbn [store]; by rewrite lookup_insert_eq|done|].
  exists T2. split; [exact HT2|]. eapply (repr_repeer tb F v k l q (Some p) c b t0 t1 T2); try done.
  - rewrite Hst2. unfold set_store. cbn [store]. rewrite insert_insert_eq. unfold entryOf. by rewrite (bool_decide_true (is_Some (Some p))) by eauto.
  - by rewrite H42.
  - by rewrite H62.
  - intros r l'. rewrite Hl2. change (listOf (set_store T1 _) r) with (listOf T1 r). rewrite Hl1, elem_of_app, list_elem_of_filter.
    destruct (decide (r = p)) as [-> |Hne]; [rewrite bool_decide_true by done|rewrite bool_decide_false by done].
    + rewrite list_elem_of_singleton. naive_solver.
    + rewrite elem_of_nil. naive_solver.
  - intros r. rewrite Hl2. change (listOf (set_store T1 _) r) with (listOf T1 r). rewrite Hl1.
    apply NoDup_app. split_and!; [apply NoDup_filter, (repr_lnodup _ _ HR)| |destruct (bool_decide _); [apply NoDup_singleton|apply NoDup_nil_2]].
    intros y [Hy _]%list_elem_of_filter. destruct (bool_decide _); set_solver.
Qed.

Lemma insertAbove_spec tb F v k ip c p d q cd bd t0 t1 :
  repr tb F -> F v = plug k (Node d q cd bd t0 t1) -> addr_ok ip -> length ip = sizeOf v -> 0 <= c <= nbits ip ->
  Forall (leads ip c) k -> ~ (cd <= c /\ same_prefix cd bd ip) ->
  exists tb' t', insertAbove (pushed tb (fresh_loc tb) p (with_peer (newEntry (Some p) None 0 ip c) (Some p) true))
      (slotOf v) 2 (head_loc k) (fresh_loc tb) d (maskBits c ip) c = Some tb' /\
    repr tb' (update F v (plug k t')) /\
    entries t' ≡ₚ ((c, maskBits c ip), p) :: entries (Node d q cd bd t0 t1).
Proof.
  intros HR HF Hip Hn Hc Hk Hno. destruct (repr_parts tb F v k _ HR HF) as (_ & (Hd & _) & _).
  destruct (above_facts tb F v k ip c d q cd bd t0 t1 HR HF Hn Hc Hk) as ((Hbd & Hbn) & Hcd & HQ & Hnb & Hlo & Hwc).
  unfold insertAbove. rewrite (pushed_frame tb p _ d) by (eexists; exact Hd). rewrite Hd. cbn [mbind option_bind bits entryOf].
  destruct (commonBits_spec bd (maskBits c ip)) as (cm & -> & Hcm & Hiff); [done|by apply addr_ok_mask|rewrite length_maskBits; congruence|].
  cbn [mbind option_bind]. rewrite (pushed_new tb (fresh_loc tb)). cbn [mbind option_bind].
  change (cidr (with_peer (newEntry (Some p) None 0 ip c) (Some p) true)) with c.
  change (bits (with_peer (newEntry (Some p) None 0 ip c) (Some p) true)) with (maskBits c ip). rewrite Hnb in Hcm, Hiff.
  destruct (Z.ltb_spec cm c) as [Hlt|Hge].
  - rewrite (proj2 (Z.eqb_neq c cm)) by lia.
    unfold alloc. cbn beta iota zeta. fold (fresh_loc (pushed tb (fresh_loc tb) p (with_peer (newEntry (Some p) None 0 ip c) (Some p) true))).
    set (tb1 := pushed tb _ p _). set (m := fresh_loc tb1).
    assert (forall e, store (set_store tb1 (<[m := e]> (store tb1))) !! m = Some e) as -> by (intros; apply lookup_insert_eq). cbn [mbind option_bind].
    change (bits (newEntry None None 0 (maskBits c ip) cm)) with (maskBits cm (maskBits c ip)).
    rewrite (choose_spec _ cm bd); [|done|lia]. cbn [mbind option_bind].
    destruct (insert_above_mid tb F v k ip c p d q cd bd t0 t1 HR HF Hip Hn Hc Hk Hno cm) as (tb' & Hrun & HR'); [lia|done|].
    exists tb'. eexists. split; [|split; [exact HR'|]].
    + rewrite <- Hrun. apply option_bind_ext_fun. intros T2.
      rewrite (choose_spec _ cm (maskBits c ip)); [done|done|rewrite nbits_mask; lia].
    + destruct (ipbit (maskBits c ip) cm); simpl; solve_Permutation.
  - rewrite Z.eqb_refl. assert (same_prefix c bd (maskBits c ip)) as Hs by (apply Hiff; lia).
    destruct (insert_above_direct tb F v k ip c p d q cd bd t0 t1 HR HF Hip Hn Hc Hk Hno Hs) as (tb' & Hrun & HR').
    rewrite (choose_spec _ c); [|done|].
    2:{ destruct (decide (c < cd)); [lia|]. destruct Hno. split; [lia|]. transitivity (maskBits c ip); [apply (same_prefix_mono c); [lia|done]|].
        apply same_prefix_mask; lia. }
    cbn [mbind option_bind]. exists tb'. eexists. split; [exact Hrun|]. split; [exact HR'|].
    destruct (ipbit bd c); simpl; solve_Permutation.
Qed.

(** ** Routes after an insertion *)

Lemma routesOf_size n t c b p : wf_top n t -> routesOf t !! (c, b) = Some p -> length b = n.
Proof.
  intros Hwf Hin. apply (routesOf_lookup n) in Hin; [|done].
  apply (wf_entries n 0 (fun _ => True)) in Hin; [|lia|done|done]. by destruct Hin as ((_ & ?) & _).
Qed.

Lemma sizeOf_inj v w : sizeOf v = sizeOf w -> v = w.
Proof. by destruct v, w. Qed.

Lemma routes_other tb F v c b : repr tb F -> length b = sizeOf v -> routesOf (F (negb v)) !! (c, b) = None.
Proof.
  intros HR Hb. destruct (routesOf _ !! _) as [q|] eqn:Hq; [|done].
  apply (routesOf_size (sizeOf (negb v))) in Hq; [|apply (repr_wf _ _ HR)]. rewrite Hb in Hq. apply sizeOf_inj in Hq. by destruct v.
Qed.

Lemma routes_lookup tb F v c b : repr tb F -> length b = sizeOf v -> routes F !! (c, b) = routesOf (F v) !! (c, b).
Proof.
  intros HR Hb. unfold routes. pose proof (routes_other tb F v c b HR Hb) as Ho. destruct v; simpl in *.
  - by rewrite lookup_union_r.
  - by rewrite lookup_union_l.
Qed.

Lemma routes_update_insert tb F v t' c b p : repr tb F -> length b = sizeOf v ->
  routesOf t' = <[(c, b) := p]> (routesOf (F v)) -> routes (update F v t') = <[(c, b) := p]> (routes F).
Proof.
  intros HR Hb Ht. unfold routes. pose proof (routes_other tb F v c b HR Hb) as Ho. destruct v; simpl in *;
    unfold update; simpl; rewrite Ht; [by rewrite insert_union_r|by rewrite insert_union_l].
Qed.

Lemma routes_repeer tb F v k l q c b t0 t1 p : repr tb F -> F v = plug k (Node l q c b t0 t1) -> length b = sizeOf v ->
  wf_top (sizeOf v) (plug k (Node l (Some p) c b t0 t1)) ->
  routes (update F v (plug k (Node l (Some p) c b t0 t1))) = <[(c, b) := p]> (routes F).
Proof.
  intros HR HF Hb Hw. apply (routes_update_insert tb); [done|done|]. pose proof (repr_wf _ _ HR v) as Hwf. rewrite HF in Hwf |- *.
  rewrite (routesOf_perm _ _ (((c, b), p) :: entries_ctx k ++ entries t0 ++ entries t1) Hw) by (rewrite entries_plug; simpl; solve_Permutation).
  rewrite (routesOf_perm _ (plug k (Node l q c b t0 t1))
    (match q with Some q => [((c, b), q)] | None => [] end ++ entries_ctx k ++ entries t0 ++ entries t1) Hwf)
    by (rewrite entries_plug; simpl; solve_Permutation).
  destruct q; simpl; [by rewrite insert_insert_eq|done].
Qed.

(** The parent found by the walk, after the new node was pushed. *)
Lemma parent_choice tb s bt f k r n p e ip c :
  rep_ctx (store tb) s bt (f :: k) r -> wf_ctx n (f :: k) -> leads ip c f -> c <= nbits ip ->
  exists pe, store (pushed tb (fresh_loc tb) p e) !! f_loc f = Some pe /\
    choose pe (maskBits c ip) = Some (Z.b2z (f_bit f)) /\ child pe (Z.b2z (f_bit f)) = r.
Proof.
  intros (Hf & _) (_ & Hcf & _ & _ & _ & _ & Hk') (Hfc & _ & Hfb) Hc. pose proof (wf_ctx_lo _ _ Hk').
  eexists. rewrite (pushed_frame tb p _ (f_loc f)) by (eexists; exact Hf). split; [exact Hf|]. split.
  - rewrite (choose_spec _ (f_cidr f)); [|done|rewrite nbits_mask; lia].
    by rewrite ipbit_mask, (proj2 (Z.ltb_lt _ _) Hfc), Hfb by lia.
  - unfold frame_entry. rewrite child_b2z. by destruct (f_bit f).
Qed.

Lemma insert_spec tb F v ip c p : repr tb F -> addr_ok ip -> length ip = sizeOf v -> 0 <= c <= nbits ip ->
  exists tb' F', insert tb (slotOf v) 2 ip c p = Some tb' /\ repr tb' F' /\ routes F' = <[(c, maskBits c ip) := p]> (routes F).
Proof.
  intros HR Hip Hn Hc. assert (length (maskBits c ip) = sizeOf v) as Hml by (by rewrite length_maskBits).
  assert (forall k t t' tb', F v = plug k t -> repr tb' (update F v (plug k t')) ->
    entries t' ≡ₚ ((c, maskBits c ip), p) :: entries t -> routes (update F v (plug k t')) = <[(c, maskBits c ip) := p]> (routes F)) as Hgraft.
  { intros k t t' tb' HF HR' He. apply (routes_update_insert tb); [done|done|]. rewrite HF. apply routesOf_insert with (sizeOf v).
    - pose proof (repr_wf _ _ HR' v) as Hw. by rewrite update_eq in Hw.
    - rewrite !entries_plug, He. solve_Permutation. }
  unfold insert. rewrite (repr_load _ _ HR). cbn [mbind option_bind].
  destruct (root (F v)) as [r|] eqn:Hroot.
  2:{ destruct (F v) as [|] eqn:HF; [|done]. unfold alloc. fold (fresh_loc tb). rewrite push_new. cbn [mbind option_bind].
      destruct (insert_leaf tb F v [] p (Some (slotOf v)) 2 ip c HR HF Hip Hn Hc ltac:(done)) as (tb' & Hh & HR').
      exists tb'. eexists. split; [|split; [exact HR'|by apply (Hgraft [] Leaf _ tb')]].
      rewrite <- Hh. unfold hang, upd. rewrite pushed_new. cbn [mbind option_bind]. f_equal. unfold set_store, pushed. cbn [store IPv4 IPv6 trieEntries].
      by rewrite insert_insert_eq. }
  rewrite <- Hroot. pose proof (repr_wf _ _ HR v) as Hwf. pose proof (repr_rep _ _ HR v) as Hrep.
  destruct (placement tb (slotOf v) 2 (sizeOf v) ip c walkFuel [] (F v)) as (k & t & HF & Hk & Hstop & Hpl);
    [done|done|done|done|done|done|unfold walkFuel, nbits, len; rewrite Hn; destruct v; simpl; lia|].
  simpl plug in HF. symmetry in HF. change (head_loc []) with (@None loc) in Hpl.
  destruct Hpl as [[Hex ->]|[Hex ->]]; cbn [mbind option_bind].
  - rewrite HF in Hwf. destruct (exactly_key ip c t _ k Hip Hn Hc Hwf Hex) as (l & q & t0 & t1 & ->).
    change (root (Node l q c (maskBits c ip) t0 t1)) with (Some l). cbn [mbind option_bind].
    destruct (insert_exact tb F v k l q c (maskBits c ip) t0 t1 p HR HF) as (tb' & -> & HR').
    exists tb'. eexists. split; [done|]. split; [exact HR'|]. apply (routes_repeer tb _ _ _ _ q); [done..|].
    pose proof (repr_wf _ _ HR' v) as Hw. by rewrite update_eq in Hw.
  - unfold alloc. fold (fresh_loc tb). rewrite push_new. cbn [mbind option_bind].
    destruct (repr_parts tb F v k t HR HF) as (Hctx & _ & Hwc & _).
    destruct t as [|d q cd bd t0 t1].
    + destruct k as [|f k]; [rewrite HF in Hroot; done|].
      destruct (insert_leaf tb F v (f :: k) p None 0 ip c HR HF Hip Hn Hc Hk) as (tb' & Hh & HR').
      exists tb'. eexists. split; [|split; [exact HR'|by eapply (Hgraft (f :: k) Leaf _ tb')]].
      apply Forall_cons in Hk as [Hf _].
      edestruct (parent_choice tb) as (pe & Hpe & Hch & Hcd); [exact Hctx|exact Hwc|exact Hf|lia|].
      simpl head_loc. cbv iota beta. rewrite Hpe. cbn [mbind option_bind]. rewrite Hch. cbn [mbind option_bind]. rewrite Hcd. exact Hh.
    + destruct (insertAbove_spec tb F v k ip c p d q cd bd t0 t1 HR HF Hip Hn Hc Hk) as (tb' & t' & Hrun & HR' & He).
      { intros [Hle Hs]. simpl in Hstop, Hex. destruct (decide (cd = c)); [by apply Hex|]. apply Hstop. split; [lia|done]. }
      exists tb'. eexists. split; [|split; [exact HR'|by eapply (Hgraft k _ t' tb')]].
      destruct k as [|f k]; simpl head_loc; cbv iota beta; [rewrite HF; exact Hrun|].
      apply Forall_cons in Hk as [Hf _].
      edestruct (parent_choice tb) as (pe & Hpe & Hch & Hcd); [exact Hctx|exact Hwc|exact Hf|lia|].
      rewrite Hpe. cbn [mbind option_bind]. rewrite Hch. cbn [mbind option_bind]. rewrite Hcd. exact Hrun.
Qed.
