(* ===== verification/RoutingRemove.v ===== *)
(** * RoutingRemove: removal, lookup and the refinement of the route map

    [remove_spec] follows the ways [remove] ends: a node that stays because it
    branches, one replaced by its child, a leaf, and a leaf whose parent has then no
    use left. The last part states what the table promises to its callers. *)
From S2P Require Import Prelude AllowedIPs AddrBits Routing RoutingTable RoutingInsert.
#[local] Open Scope Z_scope.

Lemma repr_zeroize tb F l : repr tb F -> is_Some (store tb !! l) -> (forall w, l ∉ locs (F w)) ->
  exists tb', zeroizePointers tb l = Some tb' /\ repr tb' F /\ (forall r, listOf tb' r = listOf tb r) /\
    dom (store tb') = dom (store tb).
Proof.
  intros [H1 H2 H3 H4 H5 H6 H7] [e He] Hl. unfold zeroizePointers, upd. rewrite He. cbn [mbind option_bind]. eexists. split; [done|].
  split; [|split; [done|]].
  - split; try done; intros v; [rewrite <- H1; by destruct v|]. eapply rep_frame; [|apply H2]. intros l' Hl'. unfold set_store. cbn [store].
    rewrite lookup_insert_ne; [done|]. intros ->. by apply (Hl v).
  - unfold set_store. cbn [store]. apply dom_insert_lookup_L. by eexists.
Qed.

Section Remove.
Context (tb : AllowedIPs) (F : bool -> tree) (v : bool) (k : list frame) (l : loc) (p : peerId) (c : Z) (b : list Z) (t0 t1 : tree).
Abbreviation s := (slot_of (slotOf v) k).
Abbreviation bt := (bt_of 2 k).
Abbreviation e' := (entryOf None c b s bt (root t0) (root t1)).
Hypothesis (HR : repr tb F) (HF : F v = plug k (Node l (Some p) c b t0 t1)).

(** The table once the node lost its peer. *)
Definition bare (T : AllowedIPs) : Prop :=
  store T = <[l := e']> (store tb) /\ IPv4 T = IPv4 tb /\ IPv6 T = IPv6 tb /\
  forall r, listOf T r = filter (fun k => k <> l) (listOf tb r).

Lemma bare_spec : exists T1 T, removeFromPeerEntries tb l = Some T1 /\
  upd T1 l (fun e => with_peer e None (perPeerElem e)) = Some T /\ bare T.
Proof.
  destruct (repr_parts tb F v k _ HR HF) as (_ & (Hl & _) & _).
  destruct (unlist_spec tb l _ Hl) as (T1 & -> & Hst1 & H41 & H61 & Hl1); [done|by eapply owner|].
  exists T1. unfold upd. rewrite Hst1, lookup_insert_eq. cbn [mbind option_bind]. rewrite insert_insert_eq.
  eexists. split; [done|]. split; [done|]. split; [|done]. unfold set_store, entryOf. cbn [store].
  by rewrite (bool_decide_false (is_Some None)) by (by intros [? ?]).
Qed.

Lemma bare_list T r l' : bare T ->
  l' ∈ listOf T r <-> (l', r) ∈ owned_ctx k ++ owned t0 ++ owned t1 \/ (l', r) ∈ owned (F (negb v)).
Proof.
  intros (_ & _ & _ & HT). rewrite HT, list_elem_of_filter. by apply (owned_others tb F v k l (Some p) c b t0 t1).
Qed.

Lemma bare_lnodup T r : bare T -> NoDup (listOf T r).
Proof. intros (_ & _ & _ & ->). apply NoDup_filter, (repr_lnodup _ _ HR). Qed.

Lemma remove_locs : l ∉ locs_ctx k /\ l ∉ locs t0 ++ locs t1 /\ NoDup (locs_ctx k ++ locs t0 ++ locs t1) /\
  (forall l', l' ∈ locs (F (negb v)) -> l' <> l /\ l' ∉ locs_ctx k ++ locs t0 ++ locs t1).
Proof.
  destruct (repr_parts tb F v k _ HR HF) as (_ & _ & _ & _ & Hnd).
  assert (l :: locs_ctx k ++ locs t0 ++ locs t1 ≡ₚ locs_ctx k ++ locs (Node l (Some p) c b t0 t1)) as Hp by (simpl; solve_Permutation).
  rewrite <- Hp in Hnd. apply NoDup_cons in Hnd as [Hl Hnd]. split; [set_solver|]. split; [set_solver|]. split; [done|].
  intros l' Hl'. apply (repr_disj _ _ HR) in Hl'. rewrite negb_involutive, HF, locs_plug, <- Hp in Hl'. set_solver.
Qed.

Lemma remove_branch T : bare T -> t0 <> Leaf -> t1 <> Leaf -> repr T (update F v (plug k (Node l None c b t0 t1))).
Proof.
  intros HT H0 H1. pose proof HT as (Hst & H4 & H6 & Hl). eapply (repr_repeer tb F v k l (Some p) None c b t0 t1 T); try done.
  - intros r l'. rewrite Hl, list_elem_of_filter. naive_solver.
  - intros r. by apply bare_lnodup.
Qed.

(** The only child, or nothing, takes the place of the node. *)
Lemma remove_lift T tc : bare T -> (t0 = Leaf /\ tc = t1) \/ (t1 = Leaf /\ tc = t0) -> hole_ok k tc ->
  exists T', hang T s bt (root tc) = Some T' /\ hung T s bt tc T' /\ repr T' (update F v (plug k tc)).
Proof.
  intros HT Htc Hok. pose proof HT as (Hst & H4 & H6 & _). destruct remove_locs as (Hk & Ht & Hnd & Hoth).
  destruct (repr_parts tb F v k _ HR HF) as (Hctx & (_ & Hr0 & Hr1) & Hwc & (_ & Hc & _ & HQ & _ & Hw0 & Hw1) & _).
  assert (locs tc = locs t0 ++ locs t1) as Hlocs by (destruct Htc as [[-> ->]|[-> ->]]; simpl; by rewrite ?app_nil_r).
  assert (owned tc = owned t0 ++ owned t1) as Hown by (destruct Htc as [[-> ->]|[-> ->]]; simpl; by rewrite ?app_nil_r).
  assert (forall l', l' <> l -> store T !! l' = store tb !! l') as Hfr by (intros; rewrite Hst, lookup_insert_ne; done).
  apply (repr_hang tb F v k (Node l (Some p) c b t0 t1) tc T HR HF).
  - eapply rep_ctx_frame; [|exact Hctx]. intros l' Hl'. apply Hfr. by intros ->.
  - intros s' Hs'. by apply load_roots.
  - assert (forall s bt t, rep (store tb) s bt t -> (forall l', l' ∈ locs t -> l' ∈ locs t0 ++ locs t1) -> repo (store T) t) as Hgo.
    { intros s' bt' t Hrep Hin. eapply rep_repo, rep_frame; [|exact Hrep]. intros l' Hl'. apply Hfr. intros ->. by apply Ht, Hin. }
    destruct Htc as [[_ ->]|[_ ->]]; [eapply Hgo; [exact Hr1|set_solver]|eapply Hgo; [exact Hr0|set_solver]].
  - by rewrite Hlocs.
  - intros l' Hl'. rewrite Hlocs. destruct (Hoth l' Hl'). split; [done|by apply Hfr].
  - apply wf_plug. split; [done|]. split; [|done]. pose proof (wf_ctx_lo _ _ Hwc).
    assert (forall b' bit, under c b bit b' -> Q_of k b') as HQ'.
    { intros b' bit [Hs _]. apply Q_shift with b; [|apply (same_prefix_mono c); [lia|done]|done].
      destruct k as [|f k'] eqn:Ek; [by right|left]. simpl in *. destruct Hwc as (_ & ? & _ & _ & _ & _ & Hk'). pose proof (wf_ctx_lo _ _ Hk'). lia. }
    destruct Htc as [[_ ->]|[_ ->]];
      [apply (wf_weaken _ (c + 1) _ (under c b true))|apply (wf_weaken _ (c + 1) _ (under c b false))];
      (done || lia || (intros b'; apply HQ')).
  - intros r l'. rewrite Hown. by apply bare_list.
  - intros r. by apply bare_lnodup.
Qed.
End Remove.

(** A leaf below a node without peer: the sibling takes the place of that node. *)
Lemma remove_collapse tb F v f k l p c b T :
  repr tb F -> F v = plug (f :: k) (Node l (Some p) c b Leaf Leaf) -> f_peer f = None ->
  bare tb v (f :: k) l c b Leaf Leaf T ->
  exists T3 T4, hang T (ChildOf (f_loc f) (Z.b2z (f_bit f))) (Z.b2z (f_bit f)) None = Some T3 /\
    store T3 !! f_loc f = Some (frame_entry f (slot_of (slotOf v) k) (bt_of 2 k) None) /\
    hang T3 (slot_of (slotOf v) k) (bt_of 2 k) (root (f_sib f)) = Some T4 /\
    repr T4 (update F v (plug k (f_sib f))) /\ (forall r, listOf T4 r = listOf T r) /\
    is_Some (store T4 !! l) /\ is_Some (store T4 !! f_loc f).
Proof.
  intros HR HF Hf HT. pose proof HT as (Hst & H4 & H6 & _).
  destruct (remove_locs tb F v (f :: k) l p c b Leaf Leaf HR HF) as (Hk & _ & Hnd & Hoth). rewrite app_nil_r in Hnd, Hoth.
  destruct (repr_parts tb F v (f :: k) _ HR HF) as ((Hfe & Hsib & Hctx) & _ & Hwc & _).
  assert (forall l', l' <> l -> store T !! l' = store tb !! l') as Hfr by (intros; rewrite Hst, lookup_insert_ne; done).
  assert (f_loc f <> l) as Hfl by (intros Heq; apply Hk; simpl; set_solver).
  destruct (hang_spec T (ChildOf (f_loc f) (Z.b2z (f_bit f))) (Z.b2z (f_bit f)) Leaf) as (T3 & Hh3 & Hu3);
    [done|apply NoDup_nil_2|split; [apply not_elem_of_nil|rewrite Hfr by done; by eexists]|].
  destruct (hung_slot _ _ _ _ _ Hu3 _ _ eq_refl) as (e & He & He3). rewrite Hfr, Hfe in He by done. injection He as <-.
  rewrite frame_entry_child in He3.
  assert (forall l', l' <> l -> l' <> f_loc f -> store T3 !! l' = store tb !! l') as Hfr3.
  { intros l' Hl1 Hl2. rewrite (hung_frame _ _ _ _ _ Hu3), Hfr; [done..|apply not_elem_of_nil|]. by intros b0 [= ?]. }
  simpl in Hnd. apply NoDup_cons in Hnd as [Hfn Hnd]. assert (l ∉ locs (f_sib f) ++ locs_ctx k) as Hln by (simpl in Hk; set_solver).
  destruct (repr_hang tb F v k (fill f (Node l (Some p) c b Leaf Leaf)) (f_sib f) T3 HR) as (T4 & Hh4 & Hu4 & HR4).
  { exact HF. }
  { assert (root (fill f (Node l (Some p) c b Leaf Leaf)) = Some (f_loc f)) as -> by (by destruct f as [????[]?]).
    eapply rep_ctx_frame; [|exact Hctx]. intros l' Hl'. apply Hfr3; intros ->; set_solver. }
  { intros s' Hs'. rewrite (hung_roots _ _ _ _ _ Hu3) by (done || by destruct Hs' as [-> | ->]). by apply load_roots. }
  { eapply rep_repo, rep_frame; [|exact Hsib]. intros l' Hl'. apply Hfr3; intros ->; set_solver. }
  { by rewrite Permutation_app_comm. }
  { intros l' Hl'. destruct (Hoth l' Hl') as [? Hni]. simpl in Hni. split; [set_solver|]. apply Hfr3; [done|set_solver]. }
  { apply wf_plug. destruct Hwc as ((_ & Hbl) & Hcf & _ & HQ & Hne & Hws & Hwk). split; [done|]. split.
    - apply (wf_weaken _ (f_cidr f + 1) _ (under (f_cidr f) (f_bits f) (negb (f_bit f)))); [lia| |done].
      intros b' [Hs _]. apply Q_shift with (f_bits f); [|apply (same_prefix_mono (f_cidr f)); [lia|done]|done].
      destruct k as [|g k']; [by right|left]. simpl in *. destruct Hwk as (_ & ? & _ & _ & _ & _ & Hk'). pose proof (wf_ctx_lo _ _ Hk'). lia.
    - destruct k; simpl; [done|]. intros _. by apply Hne. }
  { intros r l'. unfold listOf. rewrite (hung_lists _ _ _ _ _ Hu3). fold (listOf T r).
    rewrite (bare_list tb F v (f :: k) l p c b Leaf Leaf HR HF T r l' HT). simpl. rewrite Hf, !elem_of_app, !elem_of_nil. tauto. }
  { intros r. unfold listOf. rewrite (hung_lists _ _ _ _ _ Hu3). apply (bare_lnodup tb F v (f :: k) l c b Leaf Leaf HR T r HT). }
  exists T3, T4. split; [done|]. split; [done|]. split; [done|]. split; [done|]. split.
  { intros r. unfold listOf. by rewrite (hung_lists _ _ _ _ _ Hu4), (hung_lists _ _ _ _ _ Hu3). }
  assert (forall l', l' ∉ locs (f_sib f) ++ locs_ctx k -> store T4 !! l' = store T3 !! l') as Hfr4.
  { intros l' Hl'. apply (hung_frame _ _ _ _ _ Hu4); [set_solver|]. intros b0 Hs. destruct k as [|g k']; simpl in *; [by destruct v|].
    simplify_eq. set_solver. }
  split.
  - rewrite Hfr4 by done. rewrite (hung_frame _ _ _ _ _ Hu3); [|apply not_elem_of_nil|by intros b0 [= ?]].
    rewrite Hst, lookup_insert_eq. by eexists.
  - rewrite Hfr4 by done. by eexists.
Qed.

Lemma root_None t : root t = None <-> t = Leaf.
Proof. by destruct t. Qed.

Lemma routes_update_delete tb F v t' c b p : repr tb F -> wf_top (sizeOf v) t' -> length b = sizeOf v ->
  entries (F v) ≡ₚ ((c, b), p) :: entries t' -> routes (update F v t') = delete (c, b) (routes F).
Proof.
  intros HR Hwf Hb He. pose proof (routes_other tb F v c b HR Hb) as Ho.
  assert (routesOf t' = delete (c, b) (routesOf (F v))) as Ht.
  { pose proof (repr_wf _ _ HR v) as HwF. rewrite (routesOf_perm _ _ _ HwF He). simpl. rewrite delete_insert_id; [done|].
    apply not_elem_of_list_to_map_1. pose proof (wf_NoDup (sizeOf v) 0 _ _ ltac:(lia) HwF) as Hnd. rewrite He in Hnd. simpl in Hnd.
    by apply NoDup_cons in Hnd as [? _]. }
  unfold routes. destruct v; simpl in *; unfold update; simpl; rewrite Ht, delete_union; f_equal; symmetry; by apply delete_id.
Qed.

(** Lifting the child and zeroizing the node. *)
Lemma remove_lifted tb F v k l p c b t0 t1 T tc :
  repr tb F -> F v = plug k (Node l (Some p) c b t0 t1) -> bare tb v k l c b t0 t1 T ->
  (t0 = Leaf /\ tc = t1) \/ (t1 = Leaf /\ tc = t0) -> hole_ok k tc ->
  exists T' tb', hang T (slot_of (slotOf v) k) (bt_of 2 k) (root tc) = Some T' /\
    hung T (slot_of (slotOf v) k) (bt_of 2 k) tc T' /\ zeroizePointers T' l = Some tb' /\
    repr tb' (update F v (plug k tc)) /\ forall r, listOf tb' r = listOf T r.
Proof.
  intros HR HF Hbare Htc Hok. pose proof Hbare as (Hst & _).
  destruct (remove_locs tb F v k l p c b t0 t1 HR HF) as (Hlk & Hlt & _ & Hoth).
  assert (l ∉ locs tc) as Hltc by (destruct Htc as [[_ ->]|[_ ->]]; set_solver).
  destruct (remove_lift tb F v k l p c b t0 t1 HR HF T tc Hbare Htc Hok) as (T' & Hh & Hu & HR').
  destruct (repr_zeroize T' _ l HR') as (tb' & Hz & HRz & Hlz & _).
  - rewrite (hung_frame _ _ _ _ _ Hu); [rewrite Hst, lookup_insert_eq; by eexists|done|].
    intros b0 Hs. destruct k as [|f k]; simpl in *; [by destruct v|]. simplify_eq. set_solver.
  - intros w. destruct (bool_cases v w) as [-> | ->]; [rewrite update_eq, locs_plug; set_solver|rewrite update_negb].
    intros Hl. by apply Hoth in Hl as [? _].
  - exists T', tb'. split_and!; try done. intros r. rewrite Hlz. unfold listOf. by rewrite (hung_lists _ _ _ _ _ Hu).
Qed.

(** Collapsing the parent and zeroizing both nodes. *)
Lemma remove_collapsed tb F v f k l p c b T :
  repr tb F -> F v = plug (f :: k) (Node l (Some p) c b Leaf Leaf) -> f_peer f = None ->
  bare tb v (f :: k) l c b Leaf Leaf T ->
  exists T3 T4 T5 tb', hang T (ChildOf (f_loc f) (Z.b2z (f_bit f))) (Z.b2z (f_bit f)) None = Some T3 /\
    store T3 !! f_loc f = Some (frame_entry f (slot_of (slotOf v) k) (bt_of 2 k) None) /\
    hang T3 (slot_of (slotOf v) k) (bt_of 2 k) (root (f_sib f)) = Some T4 /\
    zeroizePointers T4 l = Some T5 /\ zeroizePointers T5 (f_loc f) = Some tb' /\
    repr tb' (update F v (plug k (f_sib f))) /\ forall r, listOf tb' r = listOf T r.
Proof.
  intros HR HF Hf HT. destruct (remove_locs tb F v (f :: k) l p c b Leaf Leaf HR HF) as (Hk & _ & Hnd & Hoth).
  rewrite app_nil_r in Hnd, Hoth. simpl in Hk, Hnd, Hoth. apply NoDup_cons in Hnd as [Hfn Hnd].
  destruct (remove_collapse tb F v f k l p c b T HR HF Hf HT) as (T3 & T4 & H3 & Hfe & H4 & HR4 & Hl4 & [e He] & [e' He']).
  assert (forall x, x ∉ locs_ctx k ++ locs (f_sib f) -> x ∉ locs (F (negb v)) -> forall w, x ∉ locs (update F v (plug k (f_sib f)) w)) as Hout.
  { intros x H1 H2 w. destruct (bool_cases v w) as [-> | ->]; [rewrite update_eq, locs_plug|rewrite update_negb]; done. }
  destruct (repr_zeroize T4 _ l HR4) as (T5 & H5 & HR5 & Hl5 & Hd5);
    [by eexists|apply Hout; [set_solver|]; intros Hx; by apply Hoth in Hx as [? _]|].
  destruct (repr_zeroize T5 _ (f_loc f) HR5) as (tb' & H6 & HR6 & Hl6 & _);
    [apply elem_of_dom; rewrite Hd5; apply elem_of_dom; by eexists|apply Hout; [set_solver|]; intros Hx; apply Hoth in Hx as [_ Hx]; set_solver|].
  exists T3, T4, T5, tb'. split_and!; try done. intros r. by rewrite Hl6, Hl5.
Qed.

Lemma remove_spec tb F v k l p c b t0 t1 : repr tb F -> F v = plug k (Node l (Some p) c b t0 t1) ->
  exists tb' F', remove tb l = Some tb' /\ repr tb' F' /\ routes F' = delete (c, b) (routes F) /\
    forall r, listOf tb' r = filter (fun x => x <> l) (listOf tb r).
Proof.
  intros HR HF. destruct (bare_spec tb F v k l p c b t0 t1 HR HF) as (T1 & T & HT1 & HT & Hbare). pose proof Hbare as (Hst & _ & _ & Hli).
  assert (length b = sizeOf v) as Hb by (destruct (repr_parts tb F v k _ HR HF) as (_ & _ & _ & ((_ & ?) & _) & _); done).
  assert (forall t' T', repr T' (update F v t') -> entries (F v) ≡ₚ ((c, b), p) :: entries t' ->
    routes (update F v t') = delete (c, b) (routes F)) as Hroutes.
  { intros t' T' HR' He. apply (routes_update_delete tb _ _ _ _ _ p); [done| |done|done]. pose proof (repr_wf _ _ HR' v) as Hw. by rewrite update_eq in Hw. }
  unfold remove. rewrite HT1. cbn [mbind option_bind]. rewrite HT. cbn [mbind option_bind]. rewrite Hst, lookup_insert_eq. cbn [mbind option_bind].
  set (e := entryOf None c b _ _ _ _).
  destruct (decide (child0 e <> None /\ child1 e <> None)) as [[H0 H1]|Hone].
  { pose proof (remove_branch tb F v k l p c b t0 t1 HR HF T Hbare ltac:(by intros ->) ltac:(by intros ->)) as HR'.
    eexists _, _. split; [done|]. split; [exact HR'|]. split; [|exact Hli]. eapply Hroutes; [exact HR'|].
    rewrite HF, !entries_plug. simpl. solve_Permutation. }
  set (tc := if decide (child0 e = None) then t1 else t0).
  assert (child e (if decide (child0 e = None) then 1 else 0) = root tc) as Hchild by (unfold tc; by destruct (decide _)).
  assert ((t0 = Leaf /\ tc = t1) \/ (t1 = Leaf /\ tc = t0)) as Htc.
  { unfold tc. simpl in *. destruct (decide (root t0 = None)) as [Hr|Hr]; [left; by apply root_None in Hr|right]. split; [|done].
    apply root_None. destruct (root t1); [|done]. destruct Hone. by split. }
  rewrite Hchild. clearbody tc. change (parentBit e) with (Some (slot_of (slotOf v) k)). change (parentBitType e) with (bt_of 2 k). cbn [mbind option_bind].
  assert (entries tc = entries t0 ++ entries t1) as Hent by (destruct Htc as [[-> ->]|[-> ->]]; simpl; by rewrite ?app_nil_r).
  assert (child0 e <> None \/ child1 e <> None <-> tc <> Leaf) as Hnl.
  { simpl. rewrite !root_None. destruct Htc as [[-> ->]|[-> ->]]; tauto. }
  pose proof (remove_lifted tb F v k l p c b t0 t1 T tc HR HF Hbare Htc) as Hlift.
  assert (forall T', hole_ok k tc -> hang T (slot_of (slotOf v) k) (bt_of 2 k) (root tc) = Some T' ->
    exists tb' F', zeroizePointers T' l = Some tb' /\ repr tb' F' /\ routes F' = delete (c, b) (routes F) /\
      forall r, listOf tb' r = filter (fun x => x <> l) (listOf tb r)) as Hdone.
  { intros T' Hok HT'. destruct (Hlift Hok) as (T2 & tb' & Hh & _ & Hz & HR' & Hl'). rewrite HT' in Hh. injection Hh as <-.
    exists tb'. eexists. split; [done|]. split; [exact HR'|]. split; [|intros r; by rewrite Hl', Hli].
    eapply Hroutes; [exact HR'|]. rewrite HF, !entries_plug, Hent. simpl. solve_Permutation. }
  destruct (decide (tc = Leaf)) as [Hleaf|Hne].
  2:{ assert (hole_ok k tc) as Hok by (destruct k; [exact I|intros _; exact Hne]). destruct (Hlift Hok) as (T' & _ & Hh & _). rewrite Hh. cbn [mbind option_bind].
      rewrite decide_True by tauto. by apply Hdone. }
  destruct k as [|f k].
  { destruct (Hlift I) as (T' & _ & Hh & _). rewrite Hh. cbn [mbind option_bind]. rewrite decide_True by (right; right; simpl; lia). by apply Hdone. }
  assert (t0 = Leaf /\ t1 = Leaf) as [-> ->] by (destruct Htc as [[? <-]|[? <-]]; done). rewrite Hleaf. change (root Leaf) with (@None loc). cbn [bt_of slot_of].
  destruct (f_peer f) as [q|] eqn:Hf.
  - assert (hole_ok (f :: k) tc) as Hok by (simpl; congruence). destruct (Hlift Hok) as (T' & _ & Hh & Hu & _). rewrite Hleaf in Hh, Hu.
    cbn [root slot_of bt_of] in Hh. rewrite Hh. cbn [mbind option_bind]. rewrite decide_False by (simpl; destruct (f_bit f); simpl; naive_solver lia).
    destruct (hung_slot _ _ _ _ _ Hu _ _ eq_refl) as (pe & Hpe & ->). cbn [mbind option_bind].
    destruct (repr_parts tb F v (f :: k) _ HR HF) as ((Hfe & _) & _). destruct (remove_locs tb F v (f :: k) l p c b Leaf Leaf HR HF) as (Hlk & _).
    rewrite Hst, lookup_insert_ne, Hfe in Hpe by (intros Heq; apply Hlk; simpl; set_solver). injection Hpe as <-.
    rewrite frame_entry_child. rewrite decide_True by (simpl; congruence). apply Hdone; [done|]. by rewrite Hleaf.
  - destruct (remove_collapsed tb F v f k l p c b T HR HF Hf Hbare) as (T3 & T4 & T5 & tb' & Hh3 & Hfe & Hh4 & Hz & Hz' & HR' & Hl').
    rewrite Hh3. cbn [mbind option_bind]. rewrite decide_False by (simpl; destruct (f_bit f); simpl; naive_solver lia).
    rewrite Hfe. cbn [mbind option_bind]. rewrite decide_False by (simpl; rewrite Hf; tauto).
    assert (child (frame_entry f (slot_of (slotOf v) k) (bt_of 2 k) None) (Z.lxor (Z.b2z (f_bit f)) 1) = root (f_sib f)) as ->
      by (by destruct f as [????[]?]).
    change (parentBit (frame_entry f (slot_of (slotOf v) k) (bt_of 2 k) None)) with (Some (slot_of (slotOf v) k)).
    change (parentBitType (frame_entry f (slot_of (slotOf v) k) (bt_of 2 k) None)) with (bt_of 2 k). cbn [mbind option_bind].
    rewrite Hh4. cbn [mbind option_bind]. rewrite Hz. cbn [mbind option_bind]. rewrite Hz'.
    exists tb'. eexists. split; [done|]. split; [exact HR'|]. split; [|intros r; by rewrite Hl', Hli].
    eapply Hroutes; [exact HR'|]. rewrite HF, !entries_plug. unfold entries_ctx. simpl. rewrite Hf. simpl. solve_Permutation.
Qed.

(** ** The entry points *)

Lemma owned_focus t l p : (l, p) ∈ owned t -> exists k c b t0 t1, t = plug k (Node l (Some p) c b t0 t1).
Proof.
  assert (forall k, (l, p) ∈ owned t -> exists k' c b t0 t1, plug k t = plug k' (Node l (Some p) c b t0 t1)) as Hgo; [|intros H; by apply (Hgo [])].
  induction t as [|l1 q c1 b1 t0 IH0 t1 IH1]; intros k; simpl; [by intros ?%elem_of_nil|].
  intros [H|[H|H]%elem_of_app]%elem_of_app.
  - destruct q as [q|]; [|by apply elem_of_nil in H]. apply list_elem_of_singleton in H. simplify_eq. eauto 10.
  - destruct (IH0 (Frame l1 q c1 b1 false t1 :: k) H) as (k' & ? & ? & ? & ? & Heq). simpl in Heq. eauto 10.
  - destruct (IH1 (Frame l1 q c1 b1 true t0 :: k) H) as (k' & ? & ? & ? & ? & Heq). simpl in Heq. eauto 10.
Qed.

Lemma entries_focus t c b p : ((c, b), p) ∈ entries t -> exists k l t0 t1, t = plug k (Node l (Some p) c b t0 t1).
Proof.
  assert (forall k, ((c, b), p) ∈ entries t -> exists k' l t0 t1, plug k t = plug k' (Node l (Some p) c b t0 t1)) as Hgo; [|intros H; by apply (Hgo [])].
  induction t as [|l1 q c1 b1 t0 IH0 t1 IH1]; intros k; simpl; [by intros ?%elem_of_nil|].
  intros [H|[H|H]%elem_of_app]%elem_of_app.
  - destruct q as [q|]; [|by apply elem_of_nil in H]. apply list_elem_of_singleton in H. simplify_eq. eauto 10.
  - destruct (IH0 (Frame l1 q c1 b1 false t1 :: k) H) as (k' & ? & ? & ? & Heq). simpl in Heq. eauto 10.
  - destruct (IH1 (Frame l1 q c1 b1 true t0 :: k) H) as (k' & ? & ? & ? & Heq). simpl in Heq. eauto 10.
Qed.

Lemma owned_entries t p : (exists l, (l, p) ∈ owned t) <-> exists k, (k, p) ∈ entries t.
Proof.
  induction t as [|l1 q c1 b1 t0 IH0 t1 IH1]; simpl; [split; by intros [? ?%elem_of_nil]|].
  split; intros [y [H|[H|H]%elem_of_app]%elem_of_app].
  - destruct q; [|by apply elem_of_nil in H]. apply list_elem_of_singleton in H. simplify_eq. exists (c1, b1). set_solver.
  - destruct (proj1 IH0) as [y' Hy]; [by eexists|]. eexists. rewrite !elem_of_app. eauto.
  - destruct (proj1 IH1) as [y' Hy]; [by eexists|]. eexists. rewrite !elem_of_app. eauto.
  - destruct q; [|by apply elem_of_nil in H]. apply list_elem_of_singleton in H. simplify_eq. exists l1. set_solver.
  - destruct (proj2 IH0) as [y' Hy]; [by eexists|]. eexists. rewrite !elem_of_app. eauto.
  - destruct (proj2 IH1) as [y' Hy]; [by eexists|]. eexists. rewrite !elem_of_app. eauto.
Qed.

Lemma routes_owned tb F p : repr tb F -> (exists k, routes F !! k = Some p) <-> exists l, l ∈ listOf tb p.
Proof.
  intros HR. assert (forall v, (exists k, (k, p) ∈ entries (F v)) -> exists k, routes F !! k = Some p) as Hto.
  { intros v [[c b] Hin]. exists (c, b). apply (routesOf_lookup (sizeOf v)) in Hin; [|apply (repr_wf _ _ HR)].
    rewrite (routes_lookup tb F v); [done|done|]. eapply routesOf_size; [apply (repr_wf _ _ HR)|done]. }
  split.
  - intros [k Hk]. unfold routes in Hk. apply lookup_union_Some_raw in Hk.
    assert (exists v, (k, p) ∈ entries (F v)) as [v Hv].
    { destruct Hk as [Hk|[_ Hk]]; (eapply routesOf_lookup in Hk; [by eexists|apply (repr_wf _ _ HR)]). }
    destruct (proj2 (owned_entries (F v) p)) as [l Hl]; [by eexists|]. exists l. apply (repr_list _ _ HR). by exists v.
  - intros [l [v Hv]%(repr_list _ _ HR)]. apply (Hto v), owned_entries. by eexists.
Qed.

(** The node of a prefix in its table. *)
Lemma family ip : addr_ok ip -> exists v, length ip = sizeOf v /\ rootOf ip = Some (slotOf v).
Proof.
  intros [_ [H|H]]; [exists false|exists true]; (split; [done|]); unfold rootOf, len; rewrite H; done.
Qed.

Lemma focus_route tb F v k l q c b t0 t1 : repr tb F -> F v = plug k (Node l q c b t0 t1) -> routes F !! (c, b) = q.
Proof.
  intros HR HF. pose proof (repr_wf _ _ HR v) as Hwf. pose proof Hwf as Hw. rewrite HF in Hw.
  pose proof Hw as (_ & ((_ & Hb) & _) & _)%wf_plug. rewrite (routes_lookup tb F v) by done. rewrite HF.
  destruct q as [p|].
  - apply (routesOf_lookup (sizeOf v)); [done|]. rewrite entries_plug. set_solver.
  - destruct (routesOf _ !! _) as [p|] eqn:Hp; [|done]. exfalso.
    assert (wf_top (sizeOf v) (plug k (Node l (Some p) c b t0 t1))) as Hw'.
    { apply wf_plug. apply wf_plug in Hw as (? & Hn & _). split; [done|]. split; [|by destruct k]. simpl in *. tauto. }
    apply (routesOf_lookup (sizeOf v)) in Hp; [|done]. rewrite entries_plug in Hp.
    pose proof (wf_NoDup (sizeOf v) 0 _ _ ltac:(lia) Hw') as Hnd. rewrite entries_plug in Hnd.
    rewrite fmap_app in Hnd. apply NoDup_app in Hnd as (_ & Hd & Hn). apply NoDup_cons in Hn as [Hn _].
    apply elem_of_app in Hp as [Hp|Hp].
    + apply (Hd (c, b)); [apply list_elem_of_fmap; by exists (c, b, p)|simpl; set_solver].
    + simpl in Hp. apply Hn. apply list_elem_of_fmap. by exists (c, b, p).
Qed.

Lemma u8_cidr ip c : addr_ok ip -> 0 <= c <= nbits ip -> u8 c = c.
Proof. intros [_ H] Hc. apply u8_small. unfold nbits, len, is_u8 in *. lia. Qed.

Lemma walk_enough ip v : length ip = sizeOf v -> nbits ip + 2 - lo_of [] <= Z.of_nat walkFuel.
Proof. intros H. unfold walkFuel, nbits, len. rewrite H. destruct v; simpl; lia. Qed.

(** A prefix that the walk does not find has no route. *)
Lemma no_entry_elsewhere n k t ip c p : addr_ok ip -> 0 <= c <= nbits ip -> Forall (leads ip c) k -> stops ip c t -> ~ exactly ip c t ->
  wf_top n (plug k t) -> ((c, maskBits c ip), p) ∉ entries (plug k t).
Proof.
  intros Hip Hc Hk Hstop Hex (Hwc & Hwt & _)%wf_plug. rewrite entries_plug. intros [Hin|Hin]%elem_of_app.
  - clear Hwt Hstop Hex. induction Hk as [|f k (Hfc & _ & Hfb) _ IH]; [by apply elem_of_nil in Hin|].
    destruct Hwc as (_ & Hcf & _ & _ & _ & Hsib & Hwk). pose proof (wf_ctx_lo _ _ Hwk). unfold entries_ctx in Hin. simpl in Hin.
    apply elem_of_app in Hin as [Hin|Hin]; [|by apply IH]. apply elem_of_app in Hin as [Hin|Hin].
    + destruct (f_peer f); [|by apply elem_of_nil in Hin]. apply list_elem_of_singleton in Hin. simplify_eq. lia.
    + eapply sub_entries in Hin as [_ [_ Hbit]]; [| |exact Hsib]; [|lia]. rewrite ipbit_mask, (proj2 (Z.ltb_lt _ _) Hfc), Hfb in Hbit by lia.
      by destruct (f_bit f).
  - pose proof (wf_ctx_lo _ _ Hwc). destruct t as [|d q cd bd t0 t1]; [by apply elem_of_nil in Hin|].
    assert (~ (same_prefix cd bd ip /\ cd < c)) as Hno by (intros [? ?]; by apply Hstop).
    simpl in Hin, Hex. destruct Hwt as (_ & Hcd & _ & _ & _ & H0 & H1).
    apply elem_of_app in Hin as [Hin|Hin].
    { destruct q; [|by apply elem_of_nil in Hin]. apply list_elem_of_singleton in Hin. simplify_eq. apply Hex. split; [done|].
      apply same_prefix_mask; lia. }
    assert (forall bit, cd < c /\ under cd bd bit (maskBits c ip) -> False) as Hf.
    { intros bit [Hlt [Hs _]]. apply Hno. split; [|done]. transitivity (maskBits c ip); [done|]. apply same_prefix_mask; lia. }
    apply elem_of_app in Hin as [Hin|Hin]; [eapply sub_entries in Hin; [| |exact H0]|eapply sub_entries in Hin; [| |exact H1]]; (lia || by eapply Hf).
Qed.

Lemma Insert_spec tb F ip c p : repr tb F -> addr_ok ip -> 0 <= c <= nbits ip ->
  exists tb' F', Insert tb ip c p = Some tb' /\ repr tb' F' /\ routes F' = <[(c, maskBits c ip) := p]> (routes F).
Proof.
  intros HR Hip Hc. destruct (family ip Hip) as (v & Hn & Hs). unfold Insert. rewrite Hs. cbn [mbind option_bind].
  rewrite (u8_cidr ip) by done. by apply insert_spec.
Qed.

Lemma Remove_spec tb F ip c p : repr tb F -> addr_ok ip -> 0 <= c <= nbits ip ->
  exists tb' F', Remove tb ip c p = Some tb' /\ repr tb' F' /\
    routes F' = if decide (routes F !! (c, maskBits c ip) = Some p) then delete (c, maskBits c ip) (routes F) else routes F.
Proof.
  intros HR Hip Hc. destruct (family ip Hip) as (v & Hn & Hs). unfold Remove. rewrite Hs. cbn [mbind option_bind].
  rewrite (repr_load _ _ HR). cbn [mbind option_bind]. rewrite (u8_cidr ip) by done.
  pose proof (repr_wf _ _ HR v) as Hwf. pose proof (repr_rep _ _ HR v) as Hrep.
  destruct (placement tb (slotOf v) 2 (sizeOf v) ip c walkFuel [] (F v)) as (k & t & HF & Hk & Hstop & Hpl);
    [done|done|done|done|done|done|by eapply walk_enough|].
  simpl plug in HF. symmetry in HF. change (head_loc []) with (@None loc) in Hpl. rewrite HF in Hwf.
  destruct Hpl as [[Hex ->]|[Hex ->]]; cbn [mbind option_bind].
  - destruct (exactly_key ip c t _ k Hip Hn Hc Hwf Hex) as (l & q & t0 & t1 & ->).
    change (root (Node l q c (maskBits c ip) t0 t1)) with (Some l). cbv iota.
    destruct (repr_parts tb F v k _ HR HF) as (_ & (Hl & _) & _). rewrite Hl. cbn [mbind option_bind peer entryOf].
    rewrite (focus_route tb F v k l q c (maskBits c ip) t0 t1 HR HF).
    destruct (decide (q = Some p)) as [-> |Hne]; [|by eexists _, _].
    destruct (remove_spec tb F v k l p c (maskBits c ip) t0 t1 HR HF) as (tb' & F' & ? & ? & ? & _). eauto.
  - exists tb, F. split; [by destruct (head_loc k)|]. split; [done|]. rewrite decide_False; [done|]. intros Hr.
    rewrite (routes_lookup tb F v) in Hr by (done || by rewrite length_maskBits). rewrite HF in Hr.
    apply (routesOf_lookup (sizeOf v)) in Hr; [|done]. by eapply no_entry_elsewhere.
Qed.

Lemma filter_delete_peer (m : gmap key peerId) k p : m !! k = Some p ->
  filter (fun x => x.2 <> p) (delete k m) = filter (fun x => x.2 <> p) m.
Proof.
  intros Hk. apply map_eq. intros k'. rewrite !map_lookup_filter. destruct (decide (k = k')) as [<- |Hne].
  - rewrite lookup_delete_eq, Hk. simpl. rewrite option_guard_False; [done|tauto].
  - by rewrite lookup_delete_ne.
Qed.

Lemma removeAll_spec p ls : forall tb F, repr tb F -> listOf tb p = ls ->
  exists tb' F', removeAll tb ls = Some tb' /\ repr tb' F' /\ routes F' = filter (fun x => x.2 <> p) (routes F).
Proof.
  induction ls as [|l ls IH]; intros tb F HR Hls; simpl.
  - exists tb, F. split; [done|]. split; [done|]. symmetry. apply map_filter_id. intros k q Hk Hq. simpl in Hq. subst q.
    assert (exists l, l ∈ listOf tb p) as [l Hl] by (apply (routes_owned tb F p HR); by eexists). rewrite Hls in Hl. by apply elem_of_nil in Hl.
  - assert (exists v, (l, p) ∈ owned (F v)) as [v Hv] by (apply (repr_list _ _ HR); rewrite Hls; set_solver).
    apply owned_focus in Hv as (k & c & b & t0 & t1 & HF).
    destruct (remove_spec tb F v k l p c b t0 t1 HR HF) as (tb1 & F1 & -> & HR1 & Hr1 & Hl1). cbn [mbind option_bind].
    destruct (IH tb1 F1 HR1) as (tb' & F' & ? & ? & Hr).
    { rewrite Hl1, Hls. pose proof (repr_lnodup _ _ HR p) as Hnd. rewrite Hls in Hnd. apply NoDup_cons in Hnd as [Hni _].
      rewrite filter_cons_False by tauto. apply filter_id. intros x Hx ->. done. }
    exists tb', F'. split; [done|]. split; [done|]. rewrite Hr, Hr1. apply filter_delete_peer.
    by apply (focus_route tb F v k l (Some p) c b t0 t1).
Qed.

Lemma Lookup_spec tb F ip : repr tb F -> addr_ok ip -> Lookup tb ip = Some (lpm (routes F) ip (Z.to_nat (nbits ip))).
Proof.
  intros HR Hip. destruct (family ip Hip) as (v & Hn & Hs). unfold Lookup. rewrite Hs. cbn [mbind option_bind].
  rewrite (repr_load _ _ HR). cbn [mbind option_bind].
  destruct (lookup_best tb (slotOf v) 2 (sizeOf v) ip walkFuel 0 (fun _ => True) (F v) None) as (r & -> & Hb);
    [done|done|lia|done|apply (repr_wf _ _ HR)|apply (repr_rep _ _ HR)|by eapply (walk_enough ip v)|unfold nbits, len; lia|].
  f_equal. rewrite (best_lpm (sizeOf v) (routesOf (F v)) (F v) ip r) by (done || apply (repr_wf _ _ HR)).
  generalize (Z.to_nat (nbits ip)). induction n as [|n IH]; cbn [lpm];
    rewrite (routes_lookup tb F v) by (done || by rewrite length_maskBits); [done|by rewrite IH].
Qed.

Lemma visit_all tb ls : visitEntries tb (fun _ => true) ls = mapM (fun l => e ← store tb !! l; Some (bits e, cidr e)) ls.
Proof.
  induction ls as [|l ls IH]; [done|]. simpl. destruct (store tb !! l) as [e|]; [|done]. cbn [mbind option_bind].
  rewrite IH. by destruct (mapM _ ls).
Qed.

Lemma EntriesForPeer_spec tb F p : repr tb F ->
  exists es, EntriesForPeer tb p (fun _ => true) = Some es /\ forall b c, (b, c) ∈ es <-> routes F !! (c, b) = Some p.
Proof.
  intros HR. unfold EntriesForPeer. fold (listOf tb p). rewrite visit_all.
  assert (forall l, l ∈ listOf tb p -> exists e, store tb !! l = Some e /\ routes F !! (cidr e, bits e) = Some p) as Hl.
  { intros l [v Hv]%(repr_list _ _ HR). apply owned_focus in Hv as (k & c & b & t0 & t1 & HF).
    destruct (repr_parts tb F v k _ HR HF) as (_ & (Hl & _) & _). eexists. split; [exact Hl|].
    by apply (focus_route tb F v k l (Some p) c b t0 t1). }
  destruct (mapM (fun l => e ← store tb !! l; Some (bits e, cidr e)) (listOf tb p)) as [es|] eqn:Hm.
  2:{ exfalso. apply mapM_None in Hm. apply Exists_exists in Hm as (l & Hin & Hno). destruct (Hl l Hin) as (e & He & _). by rewrite He in Hno. }
  exists es. split; [done|]. intros b c. pose proof (elem_of_mapM_Some _ _ _ Hm) as Hes. split.
  - intros (l & Hlin & He)%Hes. destruct (Hl l Hlin) as (e & Hs & Hr).
    rewrite Hs in He. cbn [mbind option_bind] in He. by simplify_eq.
  - intros Hr. assert (exists l v, l ∈ listOf tb p /\ exists k t0 t1, F v = plug k (Node l (Some p) c b t0 t1)) as (l & v & Hlin & k & t0 & t1 & HF).
    { unfold routes in Hr. apply lookup_union_Some_raw in Hr. assert (exists v, ((c, b), p) ∈ entries (F v)) as [v Hv].
      { destruct Hr as [Hk|[_ Hk]]; (eapply routesOf_lookup in Hk; [by eexists|apply (repr_wf _ _ HR)]). }
      destruct (entries_focus _ _ _ _ Hv) as (k & l & t0 & t1 & HF). exists l, v. split; [|by eauto].
      apply (owner tb F v k l (Some p) c b t0 t1 HR HF). done. }
    apply Hes. exists l. split; [done|]. destruct (repr_parts tb F v k _ HR HF) as (_ & (Hs & _) & _). by rewrite Hs.
Qed.
