(* ===== verification/RoutingSpec.v ===== *)
(** * RoutingSpec: what the table of allowed IPs promises

    A device changes its table by insertions, removals of one prefix and removals of
    all prefixes of a peer. The theorems run the table of AllowedIPs from the empty
    one through any sequence of these and compare it with a plain map from masked
    prefixes to peers: no step panics, a lookup is the longest matching prefix of
    the map, and the list of a peer holds exactly its prefixes. *)
From S2P Require Import Prelude AllowedIPs AddrBits Routing RoutingTable RoutingInsert RoutingRemove.
#[local] Open Scope Z_scope.

Inductive tableOp :=
| OpInsert (ip : list Z) (c : Z) (p : peerId)
| OpRemove (ip : list Z) (c : Z) (p : peerId)
| OpRemoveByPeer (p : peerId).

(** The prefixes a [netip.Prefix] can hold. *)
Definition op_ok (o : tableOp) : Prop :=
  match o with
  | OpInsert ip c _ | OpRemove ip c _ => addr_ok ip /\ 0 <= c <= nbits ip
  | OpRemoveByPeer _ => True
  end.

#[export] Instance op_ok_dec o : Decision (op_ok o).
Proof. destruct o; simpl; apply _. Defined.

Definition applyOp (t : AllowedIPs) (o : tableOp) : option AllowedIPs :=
  match o with
  | OpInsert ip c p => Insert t ip c p
  | OpRemove ip c p => Remove t ip c p
  | OpRemoveByPeer p => RemoveByPeer t p
  end.
Fixpoint runOps (t : AllowedIPs) (ops : list tableOp) : option AllowedIPs :=
  match ops with [] => Some t | o :: ops => t ← applyOp t o; runOps t ops end.

(** The specification. *)
Definition specOp (m : gmap key peerId) (o : tableOp) : gmap key peerId :=
  match o with
  | OpInsert ip c p => <[(c, maskBits c ip) := p]> m
  | OpRemove ip c p => if decide (m !! (c, maskBits c ip) = Some p) then delete (c, maskBits c ip) m else m
  | OpRemoveByPeer p => filter (fun x => x.2 <> p) m
  end.
Definition specRun (ops : list tableOp) : gmap key peerId := foldl specOp ∅ ops.

Lemma empty_repr : repr emptyTable (fun _ => Leaf).
Proof.
  split; simpl; try done; try (by intros []).
  - intros v. apply NoDup_nil_2.
  - intros v l. by intros ?%elem_of_nil.
  - intros p l. unfold listOf. simpl. split; [by intros ?%elem_of_nil|by intros [v ?%elem_of_nil]].
  - intros p. apply NoDup_nil_2.
Qed.

Lemma applyOp_spec tb F o : repr tb F -> op_ok o ->
  exists tb' F', applyOp tb o = Some tb' /\ repr tb' F' /\ routes F' = specOp (routes F) o.
Proof.
  intros HR. destruct o; simpl; [intros [? ?]; by apply Insert_spec|intros [? ?]; by apply Remove_spec|].
  intros _. by apply removeAll_spec.
Qed.

Lemma runOps_spec ops tb F : repr tb F -> Forall op_ok ops ->
  exists tb' F', runOps tb ops = Some tb' /\ repr tb' F' /\ routes F' = foldl specOp (routes F) ops.
Proof.
  revert tb F. induction ops as [|o ops IH]; intros tb F HR Hok; simpl; [by exists tb, F|].
  apply Forall_cons in Hok as [Ho Hok]. destruct (applyOp_spec tb F o HR Ho) as (tb1 & F1 & -> & HR1 & Hr1). cbn [mbind option_bind].
  destruct (IH tb1 F1 HR1 Hok) as (tb' & F' & ? & ? & Hr). exists tb', F'. by rewrite <- Hr1.
Qed.

Lemma runOps_empty ops : Forall op_ok ops -> exists tb F, runOps emptyTable ops = Some tb /\ repr tb F /\ routes F = specRun ops.
Proof. intros H. destruct (runOps_spec ops _ _ empty_repr H) as (tb & F & ? & ? & ?). eauto. Qed.

(** C5: after any sequence of Insert, Remove and RemoveByPeer on a fresh table, with
    IPv4 and IPv6 prefixes, no operation panics or runs out of fuel and Lookup of an
    address returns the peer of the longest prefix that covers it in the map the same
    sequence builds, or no peer when no prefix covers it. *)
Theorem lookup_is_longest_prefix (ops : list tableOp) : Forall op_ok ops ->
  exists tb, runOps emptyTable ops = Some tb /\
    forall ip, addr_ok ip -> Lookup tb ip = Some (lpm (specRun ops) ip (Z.to_nat (nbits ip))).
Proof.
  intros Hok. destruct (runOps_empty ops Hok) as (tb & F & Hrun & HR & <-). exists tb. split; [done|].
  intros ip Hip. by apply Lookup_spec.
Qed.

(** the prefixes EntriesForPeer reports for a peer, to a callback that refuses none, are exactly those the map of
    the same operations gives to that peer. *)
Theorem peer_entries_exact (ops : list tableOp) (p : peerId) : Forall op_ok ops ->
  exists tb es, runOps emptyTable ops = Some tb /\ EntriesForPeer tb p (fun _ => true) = Some es /\
    forall b c, (b, c) ∈ es <-> specRun ops !! (c, b) = Some p.
Proof.
  intros Hok. destruct (runOps_empty ops Hok) as (tb & F & Hrun & HR & <-).
  destruct (EntriesForPeer_spec tb F p HR) as (es & ? & ?). eauto.
Qed.

(** a removed peer receives no packet: after RemoveByPeer, whatever happened
    before, no address is routed to the peer any more. *)
Theorem removed_peer_unreachable (ops : list tableOp) (p : peerId) : Forall op_ok ops ->
  exists tb, runOps emptyTable (ops ++ [OpRemoveByPeer p]) = Some tb /\
    forall ip, addr_ok ip -> Lookup tb ip <> Some (Some p).
Proof.
  intros Hok. destruct (runOps_empty (ops ++ [OpRemoveByPeer p])) as (tb & F & Hrun & HR & Hr).
  { apply Forall_app. split; [done|]. by constructor. }
  exists tb. split; [done|]. intros ip Hip. rewrite (Lookup_spec tb F) by done. rewrite Hr.
  unfold specRun. rewrite foldl_app. cbn [foldl specOp]. set (m := foldl specOp ∅ ops).
  generalize (Z.to_nat (nbits ip)). induction n as [|n IH]; cbn [lpm];
    (destruct (_ !! _) as [q|] eqn:Hq; [apply map_lookup_filter_Some in Hq as [_ Hq]; simpl in Hq; congruence|done]).
Qed.

Definition sampleOps : list tableOp :=
  [OpInsert [192; 168; 4; 0] 24 1; OpInsert [192; 168; 4; 4] 32 2; OpInsert [192; 168; 0; 0] 16 3;
   OpInsert [192; 95; 5; 68] 27 4; OpInsert (replicate 16 255) 128 1; OpRemove [192; 168; 4; 4] 32 2;
   OpInsert [0; 0; 0; 0] 0 5; OpRemoveByPeer 4].

Lemma sampleOps_ok : Forall op_ok sampleOps.
Proof. apply (bool_decide_unpack _). vm_compute. exact I. Qed.

Lemma lookup_is_longest_prefix_witness :
  lpm (specRun sampleOps) [192; 168; 4; 4] 32 = Some 1%positive /\
  exists tb, runOps emptyTable sampleOps = Some tb /\
    forall ip, addr_ok ip -> Lookup tb ip = Some (lpm (specRun sampleOps) ip (Z.to_nat (nbits ip))).
Proof. split; [vm_compute; reflexivity|]. apply (lookup_is_longest_prefix sampleOps). exact sampleOps_ok. Defined.

Lemma peer_entries_exact_witness :
  specRun sampleOps !! (24, [192; 168; 4; 0]) = Some 1%positive /\
  exists tb es, runOps emptyTable sampleOps = Some tb /\ EntriesForPeer tb 1 (fun _ => true) = Some es /\
    forall b c, (b, c) ∈ es <-> specRun sampleOps !! (c, b) = Some 1%positive.
Proof. split; [vm_compute; reflexivity|]. apply (peer_entries_exact sampleOps 1). exact sampleOps_ok. Defined.

Lemma removed_peer_unreachable_witness :
  lpm (specRun sampleOps) [192; 168; 9; 9] 32 = Some 3%positive /\
  exists tb, runOps emptyTable (sampleOps ++ [OpRemoveByPeer 3]) = Some tb /\
    forall ip, addr_ok ip -> Lookup tb ip <> Some (Some 3%positive).
Proof. split; [vm_compute; reflexivity|]. apply (removed_peer_unreachable sampleOps 3). exact sampleOps_ok. Defined.
