(* ===== verification/QUICInitial.v ===== *)
(** * QUICInitial: the fake QUIC Initial of src/device/obf_imitate_quic.go

    The primitives of crypto/hkdf, crypto/aes and crypto/cipher are operations of a
    class, with the laws their documentation gives; everything the repository builds
    from them is defined here. [None] is a Go panic. The second half is a reader of
    protected Initial packets written from RFC 9000, 9001 and 8446, which the
    round-trip theorem compares the builder with. *)
From S2P Require Import Prelude GoLib.
#[local] Open Scope Z_scope.

Class InitialCrypto := {
  hkdfExtract : list Z -> list Z -> list Z;            (* secret, salt *)
  hkdfExpand : list Z -> list Z -> Z -> list Z;        (* secret, info, length *)
  aesBlock : list Z -> list Z -> list Z;               (* key, block *)
  gcmSeal : list Z -> list Z -> list Z -> list Z -> list Z;          (* key, nonce, plaintext, additional data *)
  gcmOpen : list Z -> list Z -> list Z -> list Z -> option (list Z);
}.

(** What the packages document: output sizes, bytes, and that opening undoes sealing. *)
Class InitialCryptoLaws `{InitialCrypto} : Prop := {
  hkdfExpand_len s i n : 0 <= n -> len (hkdfExpand s i n) = n;
  aesBlock_len k b : length (aesBlock k b) = 16%nat;
  aesBlock_bytes k b : Forall is_u8 (aesBlock k b);
  gcmSeal_len k n p a : len (gcmSeal k n p a) = len p + 16;
  gcmOpen_Seal k n p a : gcmOpen k n (gcmSeal k n p a) a = Some p;
}.

(** ** Vectors and variable-length integers *)

Definition appendU8Vec (b body : list Z) : option (list Z) :=
  if 0xFF <? len body then None else Some (b ++ u8 (len body) :: body).
Definition appendU16Vec (b body : list Z) : option (list Z) :=
  if 0xFFFF <? len body then None else Some ((b ++ be_bytes 2 (u16 (len body))) ++ body).
Definition tlsExtension (extType : Z) (data : list Z) : option (list Z) :=
  appendU16Vec ([] ++ be_bytes 2 extType) data.

Definition appendQUICVarint (b : list Z) (v : Z) : list Z :=
  if v <=? 63 then b ++ [u8 v]
  else if v <=? 16383 then b ++ [u8 (Z.lor 0x40 (Z.shiftr v 8)); u8 v]
  else if v <=? 1073741823 then b ++ [u8 (Z.lor 0x80 (Z.shiftr v 24)); u8 (Z.shiftr v 16); u8 (Z.shiftr v 8); u8 v]
  else b ++ [u8 (Z.lor 0xc0 (Z.shiftr v 56)); u8 (Z.shiftr v 48); u8 (Z.shiftr v 40); u8 (Z.shiftr v 32);
             u8 (Z.shiftr v 24); u8 (Z.shiftr v 16); u8 (Z.shiftr v 8); u8 v].

(** ** ClientHello *)

Definition buildClientHelloWithRand (r : rng) (sni scid : list Z) : option (list Z * rng) :=
  let sniList := ([0x00] ++ be_bytes 2 (u16 (len sni))) ++ sni in
  v ← appendU16Vec [] sniList; e1 ← tlsExtension 0x0000 v;
  v ← appendU8Vec [] [0x03; 0x04]; e2 ← tlsExtension 0x002b v;
  v ← appendU16Vec [] [0x00; 0x1d]; e3 ← tlsExtension 0x000a v;
  let '(pub, r) := randRead 32 r in
  v ← appendU16Vec [] pub;
  let ks := [0x00; 0x1d] ++ v in
  v ← appendU16Vec [] ks; e4 ← tlsExtension 0x0033 v;
  v ← appendU16Vec [] [0x04; 0x03; 0x08; 0x04; 0x04; 0x01]; e5 ← tlsExtension 0x000d v;
  v ← appendU8Vec [] (str "h3"); v ← appendU16Vec [] v; e6 ← tlsExtension 0x0010 v;
  let qtp := [0x0f; u8 (len scid)] ++ scid in
  e7 ← tlsExtension 0x0039 qtp;
  let exts := e1 ++ e2 ++ e3 ++ e4 ++ e5 ++ e6 ++ e7 in
  let '(random, r) := randRead 32 r in
  let body := [0x03; 0x03] ++ random in
  body ← appendU8Vec body [];
  body ← appendU16Vec body [0x13; 0x01; 0x13; 0x02; 0x13; 0x03];
  body ← appendU8Vec body [0x00];
  body ← appendU16Vec body exts;
  let hs := [0x01; u8 (Z.shiftr (len body) 16); u8 (Z.shiftr (len body) 8); u8 (len body)] in
  Some (hs ++ body, r).

Definition buildCryptoFrame (data : list Z) : list Z :=
  appendQUICVarint (appendQUICVarint [0x06] 0) (len data) ++ data.

(** ** Keys and the protected packet *)

Definition quicV1InitialSalt : list Z :=
  [0x38; 0x76; 0x2c; 0xf7; 0xf5; 0x59; 0x34; 0xb3; 0x4d; 0x17;
   0x9a; 0xe6; 0xa4; 0xc8; 0x0c; 0xad; 0xcc; 0xbb; 0x7f; 0x0a].
Definition qinitDatagramLen : Z := 1200.

(** [p[i] ^= m] *)
Definition xor_at (p : list Z) (i m : Z) : option (list Z) := b ← at_ p i; set_at p i (Z.lxor b m).
(** [for i := 0; i < n; i++ { p[off+i] ^= q[qoff+i] }] *)
Fixpoint xor_loop (n : nat) (p : list Z) (off : Z) (q : list Z) (qoff : Z) : option (list Z) :=
  match n with
  | O => Some p
  | S n => m ← at_ q qoff; p ← xor_at p off m; xor_loop n p (off + 1) q (qoff + 1)
  end.

Section Build.
Context `{InitialCrypto}.

Definition hkdfExpandLabel (secret label : list Z) (length : Z) : option (list Z) :=
  if 0xFFFF <? length then None
  else
    let fullLabel := str "tls13 " ++ label in
    let info := be_bytes 2 (u16 length) ++ [u8 (len fullLabel)] ++ fullLabel ++ [0x00] in
    Some (hkdfExpand secret info length).

Definition deriveInitialKeys (dcid : list Z) : option (list Z * list Z * list Z) :=
  let initialSecret := hkdfExtract dcid quicV1InitialSalt in
  clientSecret ← hkdfExpandLabel initialSecret (str "client in") 32;
  key ← hkdfExpandLabel clientSecret (str "quic key") 16;
  iv ← hkdfExpandLabel clientSecret (str "quic iv") 12;
  hp ← hkdfExpandLabel clientSecret (str "quic hp") 16;
  Some (key, iv, hp).

Definition headerProtectionMask (hp sample : list Z) : option (list Z) :=
  if negb (len sample =? 16) then None else Some (aesBlock hp sample).

(** The header with its length field and packet number, and the offset of the latter. *)
Definition initialHeader (dcid scid pn : list Z) (lengthField : Z) : option (list Z * Z) :=
  let hdr := [0xC3] ++ be_bytes 4 1 in
  hdr ← appendU8Vec hdr dcid;
  hdr ← appendU8Vec hdr scid;
  let hdr := appendQUICVarint (hdr ++ [0x00]) lengthField in
  Some (hdr ++ pn, len hdr).

(** Sealing and header protection of a built header and payload. *)
Definition protectInitial (dcid hdr pn payload : list Z) (pnOffset : Z) : option (list Z) :=
  '(key, iv, hp) ← deriveInitialKeys dcid;
  nonce ← copy_at (replicate 12 0) 0 (take 12 iv);
  nonce ← xor_loop 4 nonce (12 - 4) pn 0;
  let pkt := hdr ++ gcmSeal key nonce payload hdr in
  sample ← slice pkt (pnOffset + 4) (pnOffset + 4 + 16);
  mask ← headerProtectionMask hp sample;
  m0 ← at_ mask 0;
  pkt ← xor_at pkt 0 (Z.land m0 0x0f);
  xor_loop 4 pkt pnOffset mask 1.

Definition buildQUICInitialWithRand (r : rng) (sni : list Z) (datagramLen : Z) : option (list Z * rng) :=
  let '(dcid, r) := randRead 8 r in
  let '(scid, r) := randRead 8 r in
  let '(pn, r) := randRead 4 r in
  '(hello, r) ← buildClientHelloWithRand r sni scid;
  let crypto := buildCryptoFrame hello in
  let headerLen := 1 + 4 + 1 + len dcid + 1 + len scid + 1 + 2 + 4 in
  let payloadLen := datagramLen - headerLen - 16 in
  if payloadLen <? 0 then None
  else
    payload ← copy_at (replicate (Z.to_nat payloadLen) 0) 0 (take (Z.to_nat payloadLen) crypto);
    let lengthField := 4 + payloadLen + 16 in
    '(hdr, pnOffset) ← initialHeader dcid scid pn lengthField;
    pkt ← protectInitial dcid hdr pn payload pnOffset;
    Some (pkt, r).

(** ** A reader of protected Initial packets *)

Definition readU8Vec (b : list Z) : option (list Z * list Z) :=
  match b with
  | n :: b => if n <=? len b then Some (take (Z.to_nat n) b, drop (Z.to_nat n) b) else None
  | [] => None
  end.
Definition readU16 (b : list Z) : option (Z * list Z) :=
  match b with x :: y :: b => Some (x * 256 + y, b) | _ => None end.
Definition readU16Vec (b : list Z) : option (list Z * list Z) :=
  '(n, b) ← readU16 b; if n <=? len b then Some (take (Z.to_nat n) b, drop (Z.to_nat n) b) else None.

(** RFC 9000, section 16. *)
Definition readVarint (b : list Z) : option (Z * list Z) :=
  x ← head b;
  let n := Z.to_nat (2 ^ (x / 64)) in
  if decide (n <= length b)%nat then Some (be_val (take n b) mod 2 ^ (8 * Z.of_nat n - 2), drop n b) else None.

(** The server name of the extensions block, RFC 6066. *)
Fixpoint findSNI (fuel : nat) (exts : list Z) : option (list Z) :=
  match fuel with
  | O => None
  | S fuel =>
      '(ty, b) ← readU16 exts;
      '(data, rest) ← readU16Vec b;
      if ty =? 0 then
        '(names, _) ← readU16Vec data;
        match names with
        | 0 :: names => '(name, _) ← readU16Vec names; Some name
        | _ => None
        end
      else findSNI fuel rest
  end.

(** RFC 8446, section 4.1.2. *)
Definition readClientHello (b : list Z) : option (list Z) :=
  match b with
  | 1 :: l0 :: l1 :: l2 :: b =>
      if (l0 * 256 + l1) * 256 + l2 =? len b then
        match b with
        | 3 :: 3 :: b =>
            '(_, b) ← readU8Vec (drop 32 b);
            '(_, b) ← readU16Vec b;
            '(_, b) ← readU8Vec b;
            '(exts, b) ← readU16Vec b;
            if decide (b = []) then findSNI 100 exts else None
        | _ => None
        end
      else None
  | _ => None
  end.

(** One CRYPTO frame at offset 0 and PADDING. *)
Definition readFrames (b : list Z) : option (list Z) :=
  '(ty, b) ← readVarint b;
  '(off, b) ← readVarint b;
  '(n, b) ← readVarint b;
  if (ty =? 6) && (off =? 0) && (n <=? len b) && forallb (Z.eqb 0) (drop (Z.to_nat n) b)
  then Some (take (Z.to_nat n) b) else None.

Record initialPacket := mkInitial { ip_dcid : list Z; ip_scid : list Z; ip_pn : list Z; ip_payload : list Z }.

(** RFC 9001, section 5.4: remove the header protection, then open the payload. *)
Definition readInitial (pkt : list Z) : option initialPacket :=
  match pkt with
  | b0 :: 0 :: 0 :: 0 :: 1 :: rest =>
      if negb (Z.land b0 0xF0 =? 0xC0) then None else
      '(dcid, rest) ← readU8Vec rest;
      '(scid, rest) ← readU8Vec rest;
      '(tokenLen, rest) ← readVarint rest;
      if negb (tokenLen =? 0) then None else
      '(length, rest) ← readVarint rest;
      if negb (len rest =? length) then None else
      let pnOffset := len pkt - len rest in
      '(key, iv, hp) ← deriveInitialKeys dcid;
      sample ← slice rest 4 20;
      let mask := aesBlock hp sample in
      m0 ← at_ mask 0;
      let b0 := Z.lxor b0 (Z.land m0 0x0f) in
      if negb (Z.land b0 0x03 =? 3) then None else
      let pn := zip_with Z.lxor (take 4 rest) (take 4 (drop 1 mask)) in
      let hdr := b0 :: take (Z.to_nat (pnOffset - 1)) (drop 1 pkt) ++ pn in
      let nonce := take 8 iv ++ zip_with Z.lxor (drop 8 iv) pn in
      payload ← gcmOpen key nonce (drop 4 rest) hdr;
      Some (mkInitial dcid scid pn payload)
  | _ => None
  end.
End Build.

(** ** Vectors *)

Definition u8vec (v : list Z) : list Z := len v :: v.
Definition u16vec (v : list Z) : list Z := be_bytes 2 (len v) ++ v.

Lemma appendU8Vec_ok b v : len v <= 255 -> appendU8Vec b v = Some (b ++ u8vec v).
Proof.
  intros H. unfold appendU8Vec, u8vec. rewrite (proj2 (Z.ltb_ge _ _)) by lia. pose proof (len_nonneg v). by autorewrite with width.
Qed.

Lemma appendU16Vec_ok b v : len v <= 65535 -> appendU16Vec b v = Some (b ++ u16vec v).
Proof.
  intros H. unfold appendU16Vec, u16vec. rewrite (proj2 (Z.ltb_ge _ _)) by lia. pose proof (len_nonneg v). autorewrite with width.
  by rewrite app_assoc.
Qed.

Lemma tlsExtension_ok ty v : len v <= 65535 -> tlsExtension ty v = Some (be_bytes 2 ty ++ u16vec v).
Proof. intros H. unfold tlsExtension. by rewrite appendU16Vec_ok. Qed.

Lemma readU8Vec_app v rest : readU8Vec (u8vec v ++ rest) = Some (v, rest).
Proof.
  simpl. rewrite (proj2 (Z.leb_le _ _)) by len_lia. unfold len. rewrite Nat2Z.id. by rewrite take_app_length, drop_app_length.
Qed.

Lemma be_bytes_2 n : be_bytes 2 n = [n / 256 mod 256; n mod 256].
Proof. reflexivity. Qed.

Lemma readU16_app n rest : 0 <= n <= 65535 -> readU16 (be_bytes 2 n ++ rest) = Some (n, rest).
Proof. intros H. rewrite be_bytes_2. simpl. do 2 f_equal. Z.div_mod_to_equations; lia. Qed.

Lemma readU16Vec_app v rest : len v <= 65535 -> readU16Vec (u16vec v ++ rest) = Some (v, rest).
Proof.
  intros H. unfold readU16Vec, u16vec. rewrite <- app_assoc, readU16_app by (pose proof (len_nonneg v); lia).
  cbn [mbind option_bind]. rewrite (proj2 (Z.leb_le _ _)) by len_lia. unfold len. rewrite Nat2Z.id.
  by rewrite take_app_length, drop_app_length.
Qed.

Lemma readU16Vec_nil v : len v <= 65535 -> readU16Vec (u16vec v) = Some (v, []).
Proof. intros H. rewrite <- (app_nil_r (u16vec v)). by apply readU16Vec_app. Qed.

Lemma len_u16vec v : len (u16vec v) = 2 + len v.
Proof. unfold u16vec. len_lia. Qed.
Lemma len_u8vec v : len (u8vec v) = 1 + len v.
Proof. unfold u8vec. len_lia. Qed.
(** Sizes of the messages. *)
#[export] Hint Rewrite len_u16vec len_u8vec : size.

(** ** Variable-length integers *)

Lemma lor_add a x k : 0 <= k -> 0 <= x < 2 ^ k -> Z.lor (a * 2 ^ k) x = a * 2 ^ k + x.
Proof.
  intros Hk Hx. rewrite <- Z.lxor_lor, <- Z.add_nocarry_lxor; [done|..]; apply Z.bits_inj'; intros i Hi; rewrite Z.land_spec, Z.bits_0, <- Z.shiftl_mul_pow2 by lia;
    (destruct (Z.ltb_spec i k); [rewrite Z.shiftl_spec_low by lia; done|]);
    rewrite <- (Z.mod_small x (2 ^ k)) by lia; rewrite (Z.mod_pow2_bits_high x k i), andb_false_r by lia; done.
Qed.

Lemma u8_tag tag k x : 0 <= tag < 4 -> 0 <= x < 2 ^ 6 -> k = tag * 2 ^ 6 -> u8 (Z.lor k x) = tag * 2 ^ 6 + x.
Proof. intros Ht Hx ->. rewrite lor_add by lia. apply u8_small. unfold is_u8. lia. Qed.

Lemma readVarint_app e rest x tag v : head e = Some x -> x / 64 = tag -> length e = Z.to_nat (2 ^ tag) ->
  be_val e mod 2 ^ (8 * len e - 2) = v -> readVarint (e ++ rest) = Some (v, rest).
Proof.
  intros Hx Ht Hl Hv. unfold readVarint. assert (head (e ++ rest) = Some x) as -> by (by destruct e).
  cbn [mbind option_bind]. rewrite Ht, <- Hl, decide_True by (rewrite length_app; lia).
  rewrite take_app_length, drop_app_length. unfold len in Hv. by rewrite Hv.
Qed.

Definition varint (v : Z) : list Z := appendQUICVarint [] v.

Lemma appendQUICVarint_app b v : appendQUICVarint b v = b ++ varint v.
Proof. unfold varint, appendQUICVarint. repeat case_match; done. Qed.

Lemma horner8 v q1 q2 q3 q4 q5 q6 q7 r0 r1 r2 r3 r4 r5 r6 :
  v = r0 + 256 * q1 -> q1 = r1 + 256 * q2 -> q2 = r2 + 256 * q3 -> q3 = r3 + 256 * q4 -> q4 = r4 + 256 * q5 ->
  q5 = r5 + 256 * q6 -> q6 = r6 + 256 * q7 ->
  r0 + 256 * (r1 + 256 * (r2 + 256 * (r3 + 256 * (r4 + 256 * (r5 + 256 * (r6 + 256 * (3 * 2 ^ 6 + q7 + 256 * 0)))))))
  = v + 3 * 2 ^ 62.
Proof. lia. Qed.

Lemma readVarint_varint v rest : 0 <= v < 2 ^ 62 -> readVarint (varint v ++ rest) = Some (v, rest).
Proof.
  intros Hv. unfold varint, appendQUICVarint. rewrite !Z.shiftr_div_pow2 by lia.
  destruct (Z.leb_spec v 63); [|destruct (Z.leb_spec v 16383); [|destruct (Z.leb_spec v 1073741823)]]; rewrite ?app_nil_l.
  - unfold u8. rewrite Z.mod_small by lia. eapply (readVarint_app _ _ v 0); [done|apply Z.div_small; lia|done|].
    change (be_val [v]) with (v + 256 * 0). change (2 ^ (8 * len [v] - 2)) with 64. rewrite Z.mod_small; lia.
  - rewrite (u8_tag 1) by (Z.div_mod_to_equations; lia). unfold u8.
    eapply (readVarint_app _ _ _ 1); [reflexivity|Z.div_mod_to_equations; lia|done|].
    match goal with |- be_val [?a; ?b] mod 2 ^ ?k = _ => change (be_val [a; b]) with (b + 256 * (a + 256 * 0)); change (2 ^ k) with 16384 end.
    Z.div_mod_to_equations; lia.
  - rewrite (u8_tag 2) by (Z.div_mod_to_equations; lia). unfold u8.
    eapply (readVarint_app _ _ _ 2); [reflexivity|Z.div_mod_to_equations; lia|done|].
    match goal with |- be_val [?a; ?b; ?c; ?d] mod 2 ^ ?k = _ =>
      change (be_val [a; b; c; d]) with (d + 256 * (c + 256 * (b + 256 * (a + 256 * 0)))); change (2 ^ k) with 1073741824 end.
    Z.div_mod_to_equations; lia.
  - rewrite (u8_tag 3) by (Z.div_mod_to_equations; lia). unfold u8.
    eapply (readVarint_app _ _ _ 3); [reflexivity|Z.div_mod_to_equations; lia|done|].
    match goal with |- be_val [?a; ?b; ?c; ?d; ?e; ?f; ?g; ?h] mod 2 ^ ?k = _ =>
      change (be_val [a; b; c; d; e; f; g; h]) with
        (h + 256 * (g + 256 * (f + 256 * (e + 256 * (d + 256 * (c + 256 * (b + 256 * (a + 256 * 0)))))))); change (2 ^ k) with (2 ^ 62) end.
    assert (forall i j, 0 <= i -> j = i + 8 -> v / 2 ^ i = v / 2 ^ i mod 256 + 256 * (v / 2 ^ j)) as Hstep.
    { intros i j Hi ->. rewrite (Z.div_mod (v / 2 ^ i) 256) at 1 by lia.
      rewrite Z.div_div, Z.pow_add_r by lia. change (2 ^ 8) with 256. lia. }
    rewrite (horner8 v (v / 2 ^ 8) (v / 2 ^ 16) (v / 2 ^ 24) (v / 2 ^ 32) (v / 2 ^ 40) (v / 2 ^ 48) (v / 2 ^ 56));
      [|pose proof (Hstep 0 8 ltac:(lia) eq_refl) as E0; by rewrite Z.pow_0_r, Z.div_1_r in E0|by apply Hstep..].
    rewrite Z_mod_plus_full. by apply Z.mod_small.
Qed.

(** ** The ClientHello *)

Definition sniExt (sni : list Z) : list Z := be_bytes 2 0 ++ u16vec (u16vec ([0x00] ++ u16vec sni)).
Definition otherExts (pub scid : list Z) : list Z :=
  (be_bytes 2 0x2b ++ u16vec (u8vec [0x03; 0x04])) ++
  (be_bytes 2 0x0a ++ u16vec (u16vec [0x00; 0x1d])) ++
  (be_bytes 2 0x33 ++ u16vec (u16vec ([0x00; 0x1d] ++ u16vec pub))) ++
  (be_bytes 2 0x0d ++ u16vec (u16vec [0x04; 0x03; 0x08; 0x04; 0x04; 0x01])) ++
  (be_bytes 2 0x10 ++ u16vec (u16vec (u8vec (str "h3")))) ++
  (be_bytes 2 0x39 ++ u16vec ([0x0f; len scid] ++ scid)).
Definition helloBody (random exts : list Z) : list Z :=
  [0x03; 0x03] ++ random ++ u8vec [] ++ u16vec [0x13; 0x01; 0x13; 0x02; 0x13; 0x03] ++ u8vec [0x00] ++ u16vec exts.
Definition helloMsg (body : list Z) : list Z :=
  [0x01; u8 (Z.shiftr (len body) 16); u8 (Z.shiftr (len body) 8); u8 (len body)] ++ body.

Lemma randRead_len n r : len (randRead n r).1 = Z.of_nat n.
Proof. unfold len. by rewrite randRead_length. Qed.
Lemma randRead_bytes n r : Forall is_u8 (randRead n r).1.
Proof. simpl. apply Forall_fmap, Forall_true. intros i. apply u8_range. Qed.

Lemma hello_shape r sni scid : len sni <= 255 -> len scid = 8 ->
  exists pub random r', len pub = 32 /\ len random = 32 /\
    buildClientHelloWithRand r sni scid = Some (helloMsg (helloBody random (sniExt sni ++ otherExts pub scid)), r').
Proof.
  intros Hs Hc. pose proof (len_nonneg sni). unfold buildClientHelloWithRand.
  pose proof (randRead_len 32 r) as Hpub. destruct (randRead 32 r) as [pub r1]. simpl in Hpub.
  pose proof (randRead_len 32 r1) as Hrand. destruct (randRead 32 r1) as [random r2]. simpl in Hrand.
  exists pub, random, r2. split; [done|]. split; [done|]. rewrite (u16_small (len sni)) by (unfold is_u16; lia). rewrite (u8_small (len scid)) by (unfold is_u8; lia).
  change (([0] ++ be_bytes 2 (len sni)) ++ sni) with ([0] ++ u16vec sni).
  assert (len (str "h3") = 2) as Hh3 by done.
  repeat (first [rewrite appendU16Vec_ok by size_lia|rewrite appendU8Vec_ok by size_lia|rewrite tlsExtension_ok by size_lia]; cbn [mbind option_bind]);
  rewrite ?app_nil_l.
  do 3 f_equal. unfold helloBody, otherExts, sniExt. by rewrite <- !app_assoc.
Qed.

Lemma otherExts_len pub scid : len pub = 32 -> len scid = 8 -> len (otherExts pub scid) = 92.
Proof. intros Hp Hs. unfold otherExts. change (len (str "h3")) with 2. assert (len (str "h3") = 2) by done. size_lia. Qed.

Lemma sniExt_len sni : len (sniExt sni) = 9 + len sni.
Proof. unfold sniExt. size_lia. Qed.

Lemma findSNI_sniExt fuel sni rest : len sni <= 255 -> findSNI (S fuel) (sniExt sni ++ rest) = Some sni.
Proof.
  intros Hs. pose proof (len_nonneg sni). unfold sniExt. rewrite <- app_assoc. cbn [findSNI]. rewrite readU16_app by lia. cbn [mbind option_bind].
  rewrite readU16Vec_app by size_lia. cbn [mbind option_bind]. change (0 =? 0) with true. cbv iota.
  rewrite readU16Vec_nil by size_lia. cbn [mbind option_bind app]. by rewrite readU16Vec_nil by lia.
Qed.

Lemma helloBody_len random exts : len (helloBody random exts) = len random + len exts + 15.
Proof. unfold helloBody. size_lia. Qed.

Lemma readClientHello_msg random sni rest : len random = 32 -> len sni <= 255 -> len rest <= 10000 ->
  readClientHello (helloMsg (helloBody random (sniExt sni ++ rest))) = Some sni.
Proof.
  intros Hr Hs Hrest. pose proof (len_nonneg sni). pose proof (len_nonneg rest).
  pose proof (helloBody_len random (sniExt sni ++ rest)) as Hl. rewrite len_app, sniExt_len in Hl.
  set (body := helloBody random (sniExt sni ++ rest)) in *. unfold helloMsg, readClientHello. cbn [app].
  assert ((u8 (Z.shiftr (len body) 16) * 256 + u8 (Z.shiftr (len body) 8)) * 256 + u8 (len body) = len body) as ->.
  { rewrite !Z.shiftr_div_pow2 by lia. unfold u8. Z.div_mod_to_equations; lia. }
  rewrite Z.eqb_refl. unfold body, helloBody. cbn [app].
  replace (drop 32 _) with (u8vec [] ++ u16vec [19; 1; 19; 2; 19; 3] ++ u8vec [0] ++ u16vec (sniExt sni ++ rest)).
  2:{ rewrite drop_app_length'; [done|]. unfold len in Hr. lia. }
  rewrite readU8Vec_app. cbn [mbind option_bind]. rewrite readU16Vec_app by size_lia. cbn [mbind option_bind].
  rewrite readU8Vec_app. cbn [mbind option_bind]. rewrite readU16Vec_nil by (rewrite len_app, sniExt_len; lia). cbn [mbind option_bind].
  rewrite decide_True by done. by apply findSNI_sniExt.
Qed.

Lemma varint_len v : 0 <= v -> 1 <= len (varint v) <= 8.
Proof. intros. unfold varint, appendQUICVarint. repeat case_match; size_lia. Qed.

Lemma buildCryptoFrame_shape data : buildCryptoFrame data = varint 6 ++ varint 0 ++ varint (len data) ++ data.
Proof. unfold buildCryptoFrame. by rewrite !appendQUICVarint_app, <- !app_assoc. Qed.

Lemma readFrames_crypto data n : len data < 2 ^ 62 -> readFrames (buildCryptoFrame data ++ replicate n 0) = Some data.
Proof.
  intros Hd. pose proof (len_nonneg data). rewrite buildCryptoFrame_shape, <- !app_assoc. unfold readFrames.
  rewrite readVarint_varint by lia. cbn [mbind option_bind]. rewrite readVarint_varint by lia. cbn [mbind option_bind].
  rewrite readVarint_varint by lia. cbn [mbind option_bind]. change (6 =? 6) with true. change (0 =? 0) with true. cbn [andb].
  rewrite (proj2 (Z.leb_le _ _)) by (rewrite len_app; pose proof (len_nonneg (replicate n 0)); lia).
  unfold len. rewrite Nat2Z.id, drop_app_length, take_app_length. cbn [andb].
  assert (forallb (Z.eqb 0) (replicate n 0) = true) as ->; [|done]. clear. by induction n.
Qed.

(** ** Sealing and header protection *)

Lemma xor_at_mid p1 x p3 m : xor_at (p1 ++ x :: p3) (len p1) m = Some (p1 ++ Z.lxor x m :: p3).
Proof.
  unfold xor_at. rewrite (at_Some _ _ x); [|unfold len; by rewrite Nat2Z.id, list_lookup_middle|apply len_nonneg].
  cbn [mbind option_bind]. rewrite set_at_Some by (pose proof (len_nonneg p1); pose proof (len_nonneg p3); size_lia).
  f_equal. unfold len. rewrite Nat2Z.id. rewrite insert_app_r_alt by lia. by rewrite Nat.sub_diag.
Qed.

Lemma xor_loop_mid p2 : forall p1 p3 q1 q2 q3, length p2 = length q2 ->
  xor_loop (length p2) (p1 ++ p2 ++ p3) (len p1) (q1 ++ q2 ++ q3) (len q1) = Some (p1 ++ zip_with Z.lxor p2 q2 ++ p3).
Proof.
  induction p2 as [|x p2 IH]; intros p1 p3 q1 q2 q3 Hl; [by destruct q2|]. destruct q2 as [|m q2]; [done|]. cbn [length xor_loop app].
  rewrite (at_Some _ _ m); [|unfold len; by rewrite Nat2Z.id, list_lookup_middle|apply len_nonneg]. cbn [mbind option_bind].
  rewrite xor_at_mid. cbn [mbind option_bind].
  specialize (IH (p1 ++ [Z.lxor x m]) p3 (q1 ++ [m]) q2 q3). rewrite !len_app, !len_cons, !len_nil, <- !app_assoc in IH. cbn [app] in IH.
  replace (len p1 + 1) with (len p1 + (1 + 0)) by lia. replace (len q1 + 1) with (len q1 + (1 + 0)) by lia. apply IH. by injection Hl.
Qed.

Lemma zip_xor_cancel a b : length a = length b -> zip_with Z.lxor (zip_with Z.lxor a b) b = a.
Proof.
  revert b. induction a as [|x a IH]; intros [|y b] Hl; simpl; try done. f_equal; [|apply IH; by injection Hl].
  by rewrite Z.lxor_assoc, Z.lxor_nilpotent, Z.lxor_0_r.
Qed.

Lemma first_byte m : is_u8 m -> Z.land (Z.lxor 0xC3 (Z.land m 0x0f)) 0xF0 = 0xC0 /\
  Z.land (Z.lxor (Z.lxor 0xC3 (Z.land m 0x0f)) (Z.land m 0x0f)) 0x03 = 3 /\
  Z.lxor (Z.lxor 0xC3 (Z.land m 0x0f)) (Z.land m 0x0f) = 0xC3.
Proof.
  intros Hm. rewrite Z.lxor_assoc, Z.lxor_nilpotent, Z.lxor_0_r. split; [|done].
  change 0x0f with (2 ^ 4 - 1). rewrite land_mask by lia. pose proof (Z.mod_pos_bound m (2 ^ 4)).
  generalize dependent (m mod 2 ^ 4). intros x Hx.
  assert (x ∈ seqZ 0 16) as Hin by (apply elem_of_seqZ; lia). revert Hin. clear. vm_compute (seqZ 0 16).
  rewrite !elem_of_cons, elem_of_nil. intros Hx. repeat (destruct Hx as [-> |Hx]; [done|]). done.
Qed.

Section Protect.
Context `{InitialCryptoLaws}.

Definition initialMid (dcid scid : list Z) (lengthField : Z) : list Z :=
  [0; 0; 0; 1] ++ u8vec dcid ++ u8vec scid ++ varint 0 ++ varint lengthField.

Lemma initialHeader_shape dcid scid pn n : len dcid = 8 -> len scid = 8 -> 64 <= n <= 16383 ->
  initialHeader dcid scid pn n = Some ((0xC3 :: initialMid dcid scid n) ++ pn, 26) /\ len (0xC3 :: initialMid dcid scid n) = 26.
Proof.
  intros Hd Hs Hn. assert (len (varint n) = 2) as Hv.
  { unfold varint, appendQUICVarint. rewrite (proj2 (Z.leb_gt _ _)) by lia. by rewrite (proj2 (Z.leb_le n 16383)) by lia. }
  assert (len (0xC3 :: initialMid dcid scid n) = 26) as Hl.
  { unfold initialMid. change (varint 0) with [0]. rewrite !len_cons, !len_app, !len_u8vec, Hd, Hs, Hv. done. }
  split; [|done]. unfold initialHeader. rewrite appendU8Vec_ok by lia. cbn [mbind option_bind]. rewrite appendU8Vec_ok by lia. cbn [mbind option_bind].
  rewrite appendQUICVarint_app. change (be_bytes 4 1) with [0; 0; 0; 1].
  replace (((([195] ++ [0; 0; 0; 1]) ++ u8vec dcid) ++ u8vec scid) ++ [0]) with (195 :: [0; 0; 0; 1] ++ u8vec dcid ++ u8vec scid ++ varint 0)
    by (rewrite <- !app_assoc; done).
  assert ((195 :: [0; 0; 0; 1] ++ u8vec dcid ++ u8vec scid ++ varint 0) ++ varint n = 195 :: initialMid dcid scid n) as ->
    by (unfold initialMid; cbn [app]; by rewrite <- !app_assoc).
  by rewrite Hl.
Qed.

Lemma deriveInitialKeys_ok dcid : exists key iv hp, deriveInitialKeys dcid = Some (key, iv, hp) /\ len iv = 12.
Proof. do 3 eexists. split; [reflexivity|]. by apply hkdfExpand_len. Qed.
Definition initialNonce (iv pn : list Z) : list Z := take 8 iv ++ zip_with Z.lxor (drop 8 iv) pn.

Lemma nonce_shape iv pn : len iv = 12 -> length pn = 4%nat ->
  (nonce ← copy_at (replicate 12 0) 0 (take 12 iv); xor_loop 4 nonce (12 - 4) pn 0) = Some (initialNonce iv pn).
Proof.
  intros Hiv Hpn. rewrite copy_at_Some by (unfold len; simpl; lia). cbn [mbind option_bind].
  assert (list_inserts (Z.to_nat 0) (take 12 iv) (replicate 12 0) = take 8 iv ++ drop 8 iv) as ->.
  { rewrite take_drop, take_ge by (unfold len in Hiv; lia). unfold len in Hiv.
    destruct iv as [|? [|? [|? [|? [|? [|? [|? [|? [|? [|? [|? [|? [|]]]]]]]]]]]]]; simpl in Hiv; try lia. done. }
  pose proof (xor_loop_mid (drop 8 iv) (take 8 iv) [] [] pn []) as Hx. rewrite !app_nil_r, app_nil_l in Hx. unfold len in *.
  rewrite length_drop, length_take in Hx. replace (length iv) with 12%nat in Hx by lia. by apply Hx.
Qed.

Lemma protect_shape dcid mid pn payload key iv hp :
  deriveInitialKeys dcid = Some (key, iv, hp) -> len iv = 12 -> length pn = 4%nat -> len (0xC3 :: mid) = 26 ->
  let hdr := (0xC3 :: mid) ++ pn in
  let sealed := gcmSeal key (initialNonce iv pn) payload hdr in
  let mask := aesBlock hp (take 16 sealed) in
  protectInitial dcid hdr pn payload 26 =
    Some (Z.lxor 0xC3 (Z.land (mask !!! 0%nat) 0x0f) :: mid ++ zip_with Z.lxor pn (take 4 (drop 1 mask)) ++ sealed).
Proof.
  intros Hk Hiv Hpn Hmid hdr sealed mask. unfold protectInitial. rewrite Hk. cbn [mbind option_bind].
  pose proof (nonce_shape iv pn Hiv Hpn) as Hnonce. rewrite copy_at_Some in * by (unfold len; simpl; lia). cbn [mbind option_bind] in Hnonce |- *.
  rewrite Hnonce. cbn [mbind option_bind]. fold sealed.
  assert (len hdr = 30) as Hhdr by (unfold hdr; rewrite len_app, Hmid; unfold len; lia).
  pose proof (gcmSeal_len key (initialNonce iv pn) payload hdr) as Hsl. fold sealed in Hsl. pose proof (len_nonneg payload).
  rewrite slice_Some by (rewrite ?len_app; lia).
  assert (take (Z.to_nat (26 + 4 + 16 - (26 + 4))) (drop (Z.to_nat (26 + 4)) (hdr ++ sealed)) = take 16 sealed) as ->.
  { unfold len in Hhdr. rewrite drop_app_length' by lia. done. }
  cbn [mbind option_bind]. unfold headerProtectionMask.
  assert (len (take 16 sealed) = 16) as -> by (unfold len in *; rewrite length_take; lia). cbn [negb Z.eqb Pos.eqb mbind option_bind]. fold mask.
  pose proof (aesBlock_len hp (take 16 sealed)) as Hml. fold mask in Hml.
  destruct mask as [|m0 mask']; [done|]. change (at_ (m0 :: mask') 0) with (Some m0). cbn [mbind option_bind].
  unfold hdr at 1. pose proof (xor_at_mid [] 0xC3 ((mid ++ pn) ++ sealed) (Z.land m0 15)) as Hx0. cbn [app] in Hx0 |- *. change (len (@nil Z)) with 0 in Hx0.
  rewrite Hx0. cbn [mbind option_bind].
  pose proof (xor_loop_mid pn (Z.lxor 0xC3 (Z.land m0 15) :: mid) sealed [m0] (take 4 mask') (drop 4 mask')) as Hx1.
  rewrite Hpn in Hx1. change (len [m0]) with 1 in Hx1. rewrite len_cons in Hx1, Hmid. rewrite Hmid in Hx1. cbn [app] in Hx1.
  rewrite take_drop in Hx1. rewrite <- app_assoc. rewrite Hx1 by (rewrite length_take; simpl in Hml; lia). done.
Qed.
Lemma readInitial_shape dcid scid pn payload key iv hp n :
  deriveInitialKeys dcid = Some (key, iv, hp) -> len iv = 12 -> length pn = 4%nat -> len dcid = 8 -> len scid = 8 ->
  64 <= n <= 16383 -> n = 4 + len payload + 16 ->
  let mid := initialMid dcid scid n in
  let hdr := (0xC3 :: mid) ++ pn in
  let sealed := gcmSeal key (initialNonce iv pn) payload hdr in
  let mask := aesBlock hp (take 16 sealed) in
  readInitial (Z.lxor 0xC3 (Z.land (mask !!! 0%nat) 0x0f) :: mid ++ zip_with Z.lxor pn (take 4 (drop 1 mask)) ++ sealed)
    = Some (mkInitial dcid scid pn payload).
Proof.
  intros Hk Hiv Hpn Hd Hs Hn Hlen mid hdr sealed mask.
  pose proof (gcmSeal_len key (initialNonce iv pn) payload hdr) as Hsl. fold sealed in Hsl. pose proof (len_nonneg payload).
  pose proof (aesBlock_len hp (take 16 sealed)) as Hml. pose proof (aesBlock_bytes hp (take 16 sealed)) as Hmb. fold mask in Hml, Hmb.
  assert (length (take 4 (drop 1 mask)) = 4%nat) as Hm4 by (rewrite length_take, length_drop; lia).
  set (pn' := zip_with Z.lxor pn (take 4 (drop 1 mask))). assert (length pn' = 4%nat) as Hpn' by (unfold pn'; rewrite length_zip_with; lia).
  destruct (initialHeader_shape dcid scid pn n Hd Hs Hn) as [_ Hml26]. fold mid in Hml26.
  set (b0 := Z.lxor 0xC3 (Z.land (mask !!! 0%nat) 0x0f)).
  assert (at_ mask 0 = Some (mask !!! 0%nat)) as Hm0 by (destruct mask; [done|reflexivity]).
  destruct (first_byte (mask !!! 0%nat)) as (Hb1 & Hb2 & Hb3).
  { destruct mask; [done|]. by inversion Hmb. }
  fold b0 in Hb1, Hb2, Hb3. unfold readInitial. unfold mid at 1, initialMid. cbn [app]. rewrite Hb1. cbn [negb Z.eqb Pos.eqb].
  rewrite <- !app_assoc. rewrite readU8Vec_app. cbn [mbind option_bind]. rewrite readU8Vec_app. cbn [mbind option_bind].
  rewrite readVarint_varint by lia. cbn [mbind option_bind]. change (negb (0 =? 0)) with false. cbv iota.
  rewrite readVarint_varint by lia. cbn [mbind option_bind].
  assert (len (pn' ++ sealed) = n) as Hrest by (rewrite len_app, Hsl; unfold len in *; lia).
  rewrite Hrest, Z.eqb_refl. cbn [negb]. rewrite Hk. cbn [mbind option_bind].
  assert (len sealed >= 16) by lia.
  rewrite slice_Some by (rewrite ?Hrest; lia).
  assert (take (Z.to_nat (20 - 4)) (drop (Z.to_nat 4) (pn' ++ sealed)) = take 16 sealed) as -> by (rewrite drop_app_length' by lia; done).
  cbn [mbind option_bind]. fold mask. rewrite Hm0. cbn [mbind option_bind]. rewrite Hb2. cbn [negb Z.eqb Pos.eqb]. rewrite Hb3.
  assert (take 4 (pn' ++ sealed) = pn') as -> by (rewrite take_app_length' by lia; done).
  assert (drop 4 (pn' ++ sealed) = sealed) as -> by (rewrite drop_app_length' by lia; done).
  assert (zip_with Z.lxor pn' (take 4 (drop 1 mask)) = pn) as -> by (apply zip_xor_cancel; lia).
  assert (195 :: take (Z.to_nat (len (b0 :: mid ++ pn' ++ sealed) - n - 1)) (mid ++ pn' ++ sealed) ++ pn = hdr) as Hhdr.
  { unfold hdr. cbn [app]. f_equal. f_equal. rewrite len_cons, len_app, Hrest. rewrite len_cons in Hml26.
    rewrite take_app_length'; [done|]. unfold len in *. lia. }
  change (drop 1 (b0 :: mid ++ pn' ++ sealed)) with (mid ++ pn' ++ sealed). rewrite Hhdr. fold (initialNonce iv pn). unfold sealed at 1. by rewrite gcmOpen_Seal.
Qed.
End Protect.

Lemma quic_initial_ok `{InitialCryptoLaws} (r : rng) (sni : list Z) : len sni <= 255 ->
  exists pkt r' i, buildQUICInitialWithRand r sni qinitDatagramLen = Some (pkt, r') /\ len pkt = 1200 /\
    readInitial pkt = Some i /\ (readFrames (ip_payload i) ≫= readClientHello) = Some sni.
Proof.
  intros Hs. pose proof (len_nonneg sni). unfold buildQUICInitialWithRand.
  pose proof (randRead_len 8 r) as Hd. destruct (randRead 8 r) as [dcid r1]. simpl in Hd.
  pose proof (randRead_len 8 r1) as Hsc. destruct (randRead 8 r1) as [scid r2]. simpl in Hsc.
  pose proof (randRead_len 4 r2) as Hp. destruct (randRead 4 r2) as [pn r3]. simpl in Hp.
  destruct (hello_shape r3 sni scid Hs ltac:(lia)) as (pub & random & r4 & Hpub & Hrand & ->). cbn [mbind option_bind].
  rewrite Hd, Hsc. change (qinitDatagramLen - (1 + 4 + 1 + Z.of_nat 8 + 1 + Z.of_nat 8 + 1 + 2 + 4) - 16) with 1154. change (1154 <? 0) with false. cbv iota.
  set (hello := helloMsg _). assert (len hello = 160 + len sni - 8) as Hh.
  { unfold hello, helloMsg. rewrite len_app, helloBody_len, len_app, sniExt_len, otherExts_len by lia. change (len [_; _; _; _]) with 4. lia. }
  set (crypto := buildCryptoFrame hello). assert (len crypto = 4 + len hello) as Hc.
  { unfold crypto. rewrite buildCryptoFrame_shape. change (varint 6) with [6]. change (varint 0) with [0].
    assert (len (varint (len hello)) = 2); [|size_lia]. unfold varint, appendQUICVarint.
    rewrite (proj2 (Z.leb_gt _ _)) by lia. by rewrite (proj2 (Z.leb_le _ 16383)) by lia. }
  set (pad := replicate (Z.to_nat (1154 - len crypto)) 0).
  assert (copy_at (replicate (Z.to_nat 1154) 0) 0 (take (Z.to_nat 1154) crypto) = Some (crypto ++ pad)) as ->.
  { rewrite copy_at_Some by (unfold len; rewrite length_replicate; lia). f_equal.
    assert (length crypto <= 1154)%nat by (unfold len in *; lia). rewrite take_ge by lia. change (Z.to_nat 0) with 0%nat. rewrite inserts_0 by (rewrite length_replicate; lia).
    f_equal. rewrite drop_replicate. unfold pad. f_equal. unfold len. lia. }
  cbn [mbind option_bind]. assert (len (crypto ++ pad) = 1154) as Hpay by (rewrite len_app; unfold pad, len; rewrite length_replicate; unfold len in *; lia).
  destruct (initialHeader_shape dcid scid pn 1174 ltac:(lia) ltac:(lia) ltac:(lia)) as [Hhdr Hmid]. change (4 + 1154 + 16) with 1174. rewrite Hhdr. cbn [mbind option_bind].
  destruct (deriveInitialKeys_ok dcid) as (key & iv & hp & Hk & Hiv). assert (length pn = 4%nat) as Hpn by (unfold len in Hp; lia).
  pose proof (protect_shape dcid (initialMid dcid scid 1174) pn (crypto ++ pad) key iv hp Hk Hiv Hpn Hmid) as Hprot. cbv zeta in Hprot. rewrite Hprot. cbn [mbind option_bind].
  eexists _, _, _. split; [reflexivity|]. split; [|split].
  - rewrite len_cons, !len_app, gcmSeal_len, Hpay. rewrite len_cons in Hmid.
    assert (len (zip_with Z.lxor pn (take 4 (drop 1 (aesBlock hp (take 16 (gcmSeal key (initialNonce iv pn) (crypto ++ pad) ((195 :: initialMid dcid scid 1174) ++ pn))))))) = 4); [|lia].
    unfold len. rewrite length_zip_with, length_take, length_drop, aesBlock_len, Hpn. done.
  - apply (readInitial_shape dcid scid pn (crypto ++ pad) key iv hp 1174); try done; lia.
  - cbn [ip_payload]. unfold crypto, pad. rewrite readFrames_crypto by lia. cbn [mbind option_bind].
    apply readClientHello_msg; [done|done|]. rewrite otherExts_len; lia.
Qed.

Lemma quic_initial_total `{InitialCryptoLaws} r sni : len sni <= 255 ->
  exists pkt r', buildQUICInitialWithRand r sni qinitDatagramLen = Some (pkt, r') /\ len pkt = 1200.
Proof. intros Hs. destruct (quic_initial_ok r sni Hs) as (pkt & r' & i & ? & ? & _). eauto. Qed.


(** ** The adapter *)

Record qinitObf := mkQInit { qi_sni : list Z; qi_length : Z }.

Definition newQInitObf (val : list Z) : option qinitObf :=
  let sni := TrimSpace val in
  if decide (sni = []) then None
  else if 255 <? len sni then None
  else Some (mkQInit sni qinitDatagramLen).

(** A concrete instance of the laws: a cipher that only appends a tag. *)
#[local] Instance plainCrypto : InitialCrypto := {|
  hkdfExtract s t := s ++ t;
  hkdfExpand s i n := take (Z.to_nat n) (s ++ i ++ replicate (Z.to_nat n) 7);
  aesBlock k b := (fun x => u8 (x + 90)) <$> take 16 (b ++ replicate 16 0);
  gcmSeal k n p a := p ++ replicate 16 5;
  gcmOpen k n c a := Some (take (length c - 16) c);
|}.
#[local] Instance plainCrypto_laws : InitialCryptoLaws.
Proof.
  split; intros; cbn [hkdfExpand aesBlock gcmSeal gcmOpen plainCrypto].
  - unfold len. rewrite length_take, !length_app, length_replicate. lia.
  - rewrite length_fmap, length_take, length_app, length_replicate. lia.
  - apply Forall_fmap, Forall_true. intros x. apply u8_range.
  - unfold len. rewrite length_app, length_replicate. lia.
  - by rewrite length_app, length_replicate, Nat.add_sub, take_app_length.
Qed.

Definition sampleRng : rng := fun i => Z.of_nat i * 37 + 11.

