(* ===== verification/Obf.v ===== *)
(** * Obf: obfuscation chains (src/device/obf.go and the tags of src/device/obf_*.go)

    A chain is configured by a string of tags such as [<b 0xf6ab><t><r 10>]. The
    clock is the argument [now], entropy the stream [rng]; [None] is a Go panic. *)
From S2P Require Import Prelude GoLib Imitate QUICInitial.
#[local] Open Scope Z_scope.

Inductive obf :=
| bytesObf (data : list Z)
| timestampObf
| randObf (length : Z)
| randCharObf (length : Z)
| randDigitObf (length : Z)
| dataObf
| dataStringObf
| dataSizeObf (length : Z)
| imitateObf (length : Z) (proto : imitateProto) (counter : Z)
| qinit (q : qinitObf).

(** ** Builders *)

Inductive buildErr := EmptyArgument | OddSymbols | BadHex | BadNumber | BadServerName.

Definition newBytesObf (val : list Z) : result obf buildErr :=
  let val := TrimPrefix val (str "0x") in
  if len val =? 0 then Err EmptyArgument
  else if negb (len val mod 2 =? 0) then Err OddSymbols
  else match hexDecode val with Some bs => Ok (bytesObf bs) | None => Err BadHex end.
Definition newTimestampObf (val : list Z) : result obf buildErr := Ok timestampObf.
(** The builders that parse a length with [strconv.Atoi]. *)
Definition newRandObf (val : list Z) : result obf buildErr :=
  match Atoi val with Some n => Ok (randObf n) | None => Err BadNumber end.
Definition newRandCharObf (val : list Z) : result obf buildErr :=
  match Atoi val with Some n => Ok (randCharObf n) | None => Err BadNumber end.
Definition newRandDigitsObf (val : list Z) : result obf buildErr :=
  match Atoi val with Some n => Ok (randDigitObf n) | None => Err BadNumber end.
Definition newDataObf (val : list Z) : result obf buildErr := Ok dataObf.
Definition newDataStringObf (val : list Z) : result obf buildErr := Ok dataStringObf.
Definition newDataSizeObf (val : list Z) : result obf buildErr :=
  match Atoi val with Some n => Ok (dataSizeObf n) | None => Err BadNumber end.
Definition newImitateObf (proto : imitateProto) (val : list Z) : result obf buildErr :=
  match Atoi val with Some n => Ok (imitateObf n proto 0) | None => Err BadNumber end.
Definition newQInit (val : list Z) : result obf buildErr :=
  match newQInitObf val with Some q => Ok (qinit q) | None => Err BadServerName end.

Definition obfBuilders : list (list Z * (list Z -> result obf buildErr)) :=
  [(str "b", newBytesObf); (str "t", newTimestampObf); (str "r", newRandObf); (str "rc", newRandCharObf);
   (str "rd", newRandDigitsObf); (str "d", newDataObf); (str "ds", newDataStringObf); (str "dz", newDataSizeObf);
   (str "q", newImitateObf imitateQUIC); (str "dns", newImitateObf imitateDNS);
   (str "stun", newImitateObf imitateSTUN); (str "sip", newImitateObf imitateSIP); (str "qinit", newQInit)].

Definition findBuilder (key : list Z) : option (list Z -> result obf buildErr) :=
  '(_, (_, builder)) ← list_find (fun kb => kb.1 = key) obfBuilders; Some builder.

(** ** Lengths *)

Definition ObfuscatedLen (o : obf) (srcLen : Z) : Z :=
  match o with
  | bytesObf data => len data
  | timestampObf => 4
  | randObf n | randCharObf n | randDigitObf n | dataSizeObf n => n
  | dataObf => srcLen
  | dataStringObf => b64EncodedLen srcLen
  | imitateObf n _ _ => n
  | qinit q => qi_length q
  end.
Definition DeobfuscatedLen (o : obf) (srcLen : Z) : Z :=
  match o with
  | dataObf => srcLen
  | dataStringObf => b64DecodedLen srcLen
  | _ => 0
  end.

(** ** One tag *)

(** [for i := n-1; i >= 0; i-- { dst[i] = byte(v & 0xFF); v >>= 8 }] *)
Fixpoint sizeLoop (n : nat) (dst : list Z) (v : Z) : option (list Z) :=
  match n with
  | O => Some dst
  | S i => dst ← set_at dst (Z.of_nat i) (u8 (Z.land v 0xFF)); sizeLoop i dst (Z.shiftr v 8)
  end.

Definition chars52 : list Z := str "abcdefghijklmnopqrstuvwxyzABCDEFGHIJKLMNOPQRSTUVWXYZ".
Definition digits10 : list Z := str "0123456789".
(** [unicode.IsLetter] and [unicode.IsDigit] of a byte taken as a rune. *)
Definition isLetter (b : Z) : bool :=
  ((65 <=? b) && (b <=? 90)) || ((97 <=? b) && (b <=? 122)) || (b =? 0xAA) || (b =? 0xB5) || (b =? 0xBA) ||
  ((0xC0 <=? b) && (b <=? 0xD6)) || ((0xD8 <=? b) && (b <=? 0xF6)) || ((0xF8 <=? b) && (b <=? 0xFF)).
Definition isDigit (b : Z) : bool := is_digit b.

(** [rand.Read(dst[:n])], then [dst[i] = f(dst[i])] on those bytes. *)
Definition fillRand (f : Z -> Z) (dst : list Z) (n : Z) (r : rng) : option (list Z * rng) :=
  s ← slice dst 0 n;
  let '(bs, r) := randRead (length s) r in
  dst ← copy_at dst 0 (f <$> bs);
  Some (dst, r).

(** The [Obfuscate] methods: the bytes of [dst] afterwards. *)
Definition bytesObf_Obfuscate (data dst : list Z) : option (list Z) := copy_at dst 0 (take (length dst) data).
Definition timestampObf_Obfuscate (now : Z) (dst : list Z) : option (list Z) := put_be 4 dst 0 (u32 now).
Definition randObf_Obfuscate (n : Z) (dst : list Z) (r : rng) : option (list Z * rng) := fillRand (fun b => b) dst n r.
Definition randCharObf_Obfuscate (n : Z) (dst : list Z) (r : rng) : option (list Z * rng) :=
  fillRand (fun b => chars52 !!! Z.to_nat (b mod 52)) dst n r.
Definition randDigitObf_Obfuscate (n : Z) (dst : list Z) (r : rng) : option (list Z * rng) :=
  fillRand (fun b => digits10 !!! Z.to_nat (b mod 10)) dst n r.
Definition dataObf_Obfuscate (dst src : list Z) : option (list Z) := copy_at dst 0 (take (length dst) src).
Definition dataStringObf_Obfuscate (dst src : list Z) : option (list Z) :=
  if len dst <? len (b64Encode src) then None else copy_at dst 0 (b64Encode src).
Definition dataSizeObf_Obfuscate (n : Z) (dst src : list Z) : option (list Z) := sizeLoop (Z.to_nat n) dst (len src).
(** The filler of the next counter value, and that value. *)
Definition imitateObf_Obfuscate (n : Z) (p : imitateProto) (counter : Z) (dst : list Z) : option (list Z * Z) :=
  let counter := u64 (counter + 1) in
  s ← slice dst 0 n;
  out ← imitateFillWhole s (imitateJunkSeed counter) p;
  dst ← copy_at dst 0 out;
  Some (dst, counter).

(** The [Deobfuscate] methods that look at their input. *)
Definition bytesObf_Deobfuscate (data src : list Z) : option bool := s ← slice src 0 (len data); Some (str_eqb data s).
Definition randCharObf_Deobfuscate (n : Z) (src : list Z) : option bool := s ← slice src 0 n; Some (forallb isLetter s).
Definition randDigitObf_Deobfuscate (n : Z) (src : list Z) : option bool := s ← slice src 0 n; Some (forallb isDigit s).
Definition dataObf_Deobfuscate (dst src : list Z) : option (list Z) := copy_at dst 0 (take (length dst) src).
Definition dataStringObf_Deobfuscate (dst src : list Z) : option (list Z) :=
  let out := b64Decode src [] in
  if len dst <? len out then None else copy_at dst 0 out.

Ltac unfold_tags := unfold bytesObf_Obfuscate, timestampObf_Obfuscate, randObf_Obfuscate, randCharObf_Obfuscate,
  randDigitObf_Obfuscate, dataObf_Obfuscate, dataStringObf_Obfuscate, dataSizeObf_Obfuscate, imitateObf_Obfuscate,
  bytesObf_Deobfuscate, randCharObf_Deobfuscate, randDigitObf_Deobfuscate, dataObf_Deobfuscate, dataStringObf_Deobfuscate.

Section Obf.
Context `{InitialCrypto}.

Definition qinitObf_Obfuscate (q : qinitObf) (dst : list Z) (r : rng) : option (list Z * rng) :=
  s ← slice dst 0 (qi_length q);
  '(pkt, r) ← buildQUICInitialWithRand r (qi_sni q) (qi_length q);
  dst ← copy_at dst 0 (take (length s) pkt);
  Some (dst, r).

(** The calls through the interface. *)
Definition Obfuscate (now : Z) (o : obf) (dst src : list Z) (r : rng) : option (list Z * obf * rng) :=
  match o with
  | bytesObf data => dst ← bytesObf_Obfuscate data dst; Some (dst, o, r)
  | timestampObf => dst ← timestampObf_Obfuscate now dst; Some (dst, o, r)
  | randObf n => '(dst, r) ← randObf_Obfuscate n dst r; Some (dst, o, r)
  | randCharObf n => '(dst, r) ← randCharObf_Obfuscate n dst r; Some (dst, o, r)
  | randDigitObf n => '(dst, r) ← randDigitObf_Obfuscate n dst r; Some (dst, o, r)
  | dataObf => dst ← dataObf_Obfuscate dst src; Some (dst, o, r)
  | dataStringObf => dst ← dataStringObf_Obfuscate dst src; Some (dst, o, r)
  | dataSizeObf n => dst ← dataSizeObf_Obfuscate n dst src; Some (dst, o, r)
  | imitateObf n p c => '(dst, c) ← imitateObf_Obfuscate n p c dst; Some (dst, imitateObf n p c, r)
  | qinit q => '(dst, r) ← qinitObf_Obfuscate q dst r; Some (dst, o, r)
  end.

(** The bytes of [dst] afterwards and the verdict. *)
Definition Deobfuscate (o : obf) (dst src : list Z) : option (list Z * bool) :=
  match o with
  | bytesObf data => ok ← bytesObf_Deobfuscate data src; Some (dst, ok)
  | randCharObf n => ok ← randCharObf_Deobfuscate n src; Some (dst, ok)
  | randDigitObf n => ok ← randDigitObf_Deobfuscate n src; Some (dst, ok)
  | dataObf => dst ← dataObf_Deobfuscate dst src; Some (dst, true)
  | dataStringObf => dst ← dataStringObf_Deobfuscate dst src; Some (dst, true)
  | timestampObf | randObf _ | dataSizeObf _ | imitateObf _ _ _ | qinit _ => Some (dst, true)
  end.

(** ** Chains *)

Record obfChain := mkChain { Spec : list Z; obfs : list obf }.

Definition chainObfuscatedLen (os : list obf) (n : Z) : Z := foldl (fun total o => total + ObfuscatedLen o n) 0 os.
Definition chainDeobfuscatedLen (os : list obf) (n : Z) : Z :=
  let dynamicLen := n - chainObfuscatedLen os 0 in
  foldl (fun total o => total + DeobfuscatedLen o dynamicLen) 0 os.

Fixpoint obfuscateLoop (now : Z) (os : list obf) (dst src : list Z) (written : Z) (r : rng) : option (list Z * list obf * rng) :=
  match os with
  | [] => Some (dst, [], r)
  | o :: os =>
      let obfLen := ObfuscatedLen o (len src) in
      d ← slice dst written (written + obfLen);
      '(d, o, r) ← Obfuscate now o d src r;
      dst ← copy_at dst written d;
      '(dst, os, r) ← obfuscateLoop now os dst src (written + obfLen) r;
      Some (dst, o :: os, r)
  end.
Definition chainObfuscate (now : Z) (c : obfChain) (dst src : list Z) (r : rng) : option (list Z * obfChain * rng) :=
  '(dst, os, r) ← obfuscateLoop now (obfs c) dst src 0 r; Some (dst, mkChain (Spec c) os, r).

Fixpoint deobfuscateLoop (os : list obf) (dst src : list Z) (dynamicLen written read : Z) : option (list Z * bool) :=
  match os with
  | [] => Some (dst, true)
  | o :: os =>
      let deobfLen := DeobfuscatedLen o dynamicLen in
      let obfLen := ObfuscatedLen o deobfLen in
      d ← slice dst written (written + deobfLen);
      s ← slice src read (read + obfLen);
      '(d, ok) ← Deobfuscate o d s;
      dst ← copy_at dst written d;
      if (ok : bool) then deobfuscateLoop os dst src dynamicLen (written + deobfLen) (read + obfLen) else Some (dst, false)
  end.
Definition chainDeobfuscate (c : obfChain) (dst src : list Z) : option (list Z * bool) :=
  deobfuscateLoop (obfs c) dst src (len src - chainObfuscatedLen (obfs c) 0) 0 0.
End Obf.

(** ** Parsing *)

Inductive tagErr := EmptyTag | UnknownTag (key : list Z) | BuildFailed (key : list Z) (e : buildErr).
Inductive chainErr := MissingClose | TagErrors (errs : list tagErr).

(** The loop of [newObfChain]; a round drops at least two bytes of [remaining]. *)
Fixpoint parseTags (fuel : nat) (remaining : list Z) (os : list obf) (errs : list tagErr)
    : option (result (list obf * list tagErr) chainErr) :=
  match fuel with
  | O => None
  | S fuel =>
      let start := IndexByte remaining 60 in
      if start =? -1 then Some (Ok (os, errs))
      else
        rest ← slice remaining start (len remaining);
        let end_ := IndexByte rest 62 in
        if end_ =? -1 then Some (Err MissingClose)
        else
          let end_ := end_ + start in
          tag ← slice remaining (start + 1) end_;
          next ← slice remaining (end_ + 1) (len remaining);
          match Fields tag with
          | [] => parseTags fuel next os (errs ++ [EmptyTag])
          | key :: args =>
              match findBuilder key with
              | None => parseTags fuel next os (errs ++ [UnknownTag key])
              | Some builder =>
                  let val := match args with v :: _ => v | [] => [] end in
                  match builder val with
                  | Err e => parseTags fuel next os (errs ++ [BuildFailed key e])
                  | Ok o => parseTags fuel next (os ++ [o]) errs
                  end
              end
          end
  end.

Definition newObfChain (spec : list Z) : option (result obfChain chainErr) :=
  r ← parseTags (S (length spec)) spec [] [];
  Some match r with
       | Err e => Err e
       | Ok (os, []) => Ok (mkChain spec os)
       | Ok (_, errs) => Err (TagErrors errs)
       end.

(** ** Parsing is total and builds the tags in order *)

Lemma IndexByte_range s c : IndexByte s c = -1 \/ 0 <= IndexByte s c < len s.
Proof.
  induction s as [|x s IH]; [by left|]. cbn [IndexByte]. destruct (x =? c); [right; unfold len; simpl; lia|].
  destruct (Z.eqb_spec (IndexByte s c) (-1)); [by left|]. right. unfold len in *. simpl. lia.
Qed.

Lemma IndexByte_lookup s c i : IndexByte s c = i -> 0 <= i -> s !! Z.to_nat i = Some c.
Proof.
  intros <-. induction s as [|x s IH]; cbn [IndexByte]; [lia|]. destruct (Z.eqb_spec x c) as [-> |Hne]; [done|].
  destruct (Z.eqb_spec (IndexByte s c) (-1)); [lia|]. intros _. destruct (IndexByte_range s c); [done|].
  replace (Z.to_nat (IndexByte s c + 1)) with (S (Z.to_nat (IndexByte s c))) by lia. cbn. apply IH. lia.
Qed.

Lemma parseTags_total fuel remaining os errs : (length remaining < fuel)%nat -> exists r, parseTags fuel remaining os errs = Some r.
Proof.
  revert remaining os errs. induction fuel as [|fuel IH]; intros remaining os errs Hf; [lia|]. cbn [parseTags].
  destruct (Z.eqb_spec (IndexByte remaining 60) (-1)); [by eexists|]. destruct (IndexByte_range remaining 60) as [?|Hs]; [done|].
  set (start := IndexByte remaining 60) in *. rewrite slice_suffix by lia. cbn [mbind option_bind].
  set (rest := drop (Z.to_nat start) remaining). destruct (Z.eqb_spec (IndexByte rest 62) (-1)); [by eexists|].
  destruct (IndexByte_range rest 62) as [?|He]; [done|].
  assert (len rest = len remaining - start) as Hr by (unfold rest, len in *; rewrite length_drop; lia).
  assert (IndexByte rest 62 <> 0) as Hne.
  { intros H0. unfold rest in *.
    assert (remaining !! Z.to_nat start = Some 60) as Hlk by (apply IndexByte_lookup; [done|lia]).
    rewrite (drop_S _ _ _ Hlk) in H0. cbn [IndexByte] in H0. change (60 =? 62) with false in H0. cbv iota in H0.
    destruct (Z.eqb_spec (IndexByte (drop (S (Z.to_nat start)) remaining) 62) (-1)); [done|].
    destruct (IndexByte_range (drop (S (Z.to_nat start)) remaining) 62); lia. }
  rewrite (slice_Some remaining (start + 1)) by lia. cbn [mbind option_bind]. rewrite slice_suffix by lia. cbn [mbind option_bind].
  assert (length (drop (Z.to_nat (IndexByte rest 62 + start + 1)) remaining) < fuel)%nat as Hnext
    by (rewrite length_drop; unfold len in *; lia).
  repeat case_match; by apply IH.
Qed.

(** Printable bytes other than the brackets. *)
Definition plain (c : Z) : Prop := 33 <= c <= 126 /\ c <> 60 /\ c <> 62.
#[export] Instance plain_dec c : Decision (plain c).
Proof. unfold plain. apply _. Defined.

Lemma spaceLen_plain c s : plain c -> spaceLen (c :: s) = 0%nat.
Proof.
  intros [Hc _]. revert c Hc. assert (forall c, 33 <= c < 33 + 94 -> spaceLen (c :: s) = 0%nat) as H; [|intros; apply H; lia].
  apply enum_range. vm_compute (seqZ 33 94). repeat constructor.
Qed.

Lemma fields_aux_plain w s cur : Forall plain w -> fields_aux (w ++ s) cur 0 = fields_aux s (cur ++ w) 0.
Proof.
  intros Hw. revert cur. induction Hw as [|c w Hc _ IH]; intros cur; [by rewrite app_nil_r|].
  cbn [app fields_aux]. rewrite spaceLen_plain by done. rewrite IH. by rewrite <- app_assoc.
Qed.

Lemma Fields_two k v : Forall plain k -> Forall plain v -> k <> [] -> v <> [] -> Fields (k ++ 32 :: v) = [k; v].
Proof.
  intros Hk Hv Hk0 Hv0. unfold Fields. rewrite fields_aux_plain by done. cbn [app fields_aux spaceLen].
  rewrite decide_False by done. rewrite <- (app_nil_r v) at 1. rewrite fields_aux_plain by done. cbn [app fields_aux].
  by rewrite decide_False.
Qed.

Lemma IndexByte_app s t c : Forall (fun x => x <> c) s -> IndexByte (s ++ c :: t) c = len s.
Proof.
  induction 1 as [|x s Hx _ IH]; [cbn; by rewrite Z.eqb_refl|]. cbn [app IndexByte]. rewrite (proj2 (Z.eqb_neq _ _) Hx), IH.
  rewrite (proj2 (Z.eqb_neq _ _)) by (pose proof (len_nonneg s); lia). rewrite len_cons. lia.
Qed.

Lemma plain_not c s : c = 60 \/ c = 62 -> Forall plain s -> Forall (fun x => x <> c) s.
Proof. intros Hc Hs. apply (Forall_impl _ _ _ Hs). intros x (_ & ? & ?). lia. Qed.

Definition tagSpec (kv : list Z * list Z) : list Z := 60 :: kv.1 ++ 32 :: kv.2 ++ [62].
(** Text between tags that holds no opening bracket is skipped. *)
Definition gap (g : list Z) : Prop := Forall (fun x => x <> 60) g.
Definition specOf (tags : list (list Z * (list Z * list Z))) : list Z := mjoin ((fun t => t.1 ++ tagSpec t.2) <$> tags).
Definition tagOk (t : list Z * (list Z * list Z)) (o : obf) : Prop :=
  gap t.1 /\ Forall plain t.2.1 /\ Forall plain t.2.2 /\ t.2.1 <> [] /\ t.2.2 <> [] /\
  exists b, findBuilder t.2.1 = Some b /\ b t.2.2 = Ok o.

(** Both sides of a list equation, associated to the right. *)
Ltac app_norm := do 5 (cbn [app]; rewrite <- ?app_assoc); done.

Lemma parseTags_step fuel g k v rest os errs o : tagOk (g, (k, v)) o ->
  parseTags (S fuel) ((g ++ tagSpec (k, v)) ++ rest) os errs = parseTags fuel rest (os ++ [o]) errs.
Proof.
  intros (Hg & Hk & Hv & Hk0 & Hv0 & b & Hb & Ho). simpl in *. unfold tagSpec. simpl.
  assert ((g ++ 60 :: k ++ 32 :: v ++ [62]) ++ rest = g ++ 60 :: k ++ 32 :: v ++ 62 :: rest) as -> by app_norm.
  rewrite IndexByte_app by done. rewrite (proj2 (Z.eqb_neq _ _)) by (pose proof (len_nonneg g); lia).
  set (remaining := g ++ 60 :: k ++ 32 :: v ++ 62 :: rest).
  assert (len remaining = len g + (3 + len k + len v + len rest)) as Hl by (unfold remaining; size_lia).
  pose proof (len_nonneg g). pose proof (len_nonneg k). pose proof (len_nonneg v). pose proof (len_nonneg rest).
  rewrite slice_suffix by lia. cbn [mbind option_bind].
  assert (drop (Z.to_nat (len g)) remaining = (60 :: k ++ 32 :: v) ++ 62 :: rest) as ->.
  { unfold remaining, len. rewrite Nat2Z.id, drop_app_length. by app_norm. }
  rewrite IndexByte_app.
  2:{ constructor; [lia|]. apply Forall_app. split; [by apply plain_not; [right|]|]. constructor; [lia|]. by apply plain_not; [right|]. }
  rewrite (proj2 (Z.eqb_neq _ _)) by (size_lia).
  assert (len (60 :: k ++ 32 :: v) = 2 + len k + len v) as Htag by size_lia.
  assert (slice remaining (len g + 1) (len (60 :: k ++ 32 :: v) + len g) = Some (k ++ 32 :: v)) as ->.
  { rewrite slice_Some by lia. f_equal. unfold remaining.
    replace (Z.to_nat (len g + 1)) with (length (g ++ [60])) by (rewrite length_app; unfold len; simpl; lia).
    replace (g ++ 60 :: k ++ 32 :: v ++ 62 :: rest) with ((g ++ [60]) ++ (k ++ 32 :: v) ++ 62 :: rest) by app_norm.
    rewrite drop_app_length. rewrite take_app_length'; [done|]. rewrite length_app. unfold len in *. simpl in *. lia. }
  cbn [mbind option_bind].
  assert (slice remaining (len (60 :: k ++ 32 :: v) + len g + 1) (len remaining) = Some rest) as ->.
  { rewrite slice_suffix by lia. f_equal. unfold remaining.
    replace (g ++ 60 :: k ++ 32 :: v ++ 62 :: rest) with ((g ++ 60 :: k ++ 32 :: v ++ [62]) ++ rest)
      by app_norm.
    apply drop_app_length'. rewrite Htag. unfold len. rewrite !length_app. simpl. rewrite !length_app. simpl. rewrite length_app. simpl. lia. }
  cbn [mbind option_bind]. rewrite Fields_two by done. by rewrite Hb, Ho.
Qed.

Lemma parseTags_none fuel g os errs : gap g -> parseTags (S fuel) g os errs = Some (Ok (os, errs)).
Proof.
  intros Hg. cbn [parseTags]. assert (IndexByte g 60 = -1) as ->; [|done].
  induction Hg as [|x g Hx _ IH]; [done|]. cbn [IndexByte]. by rewrite (proj2 (Z.eqb_neq _ _) Hx), IH.
Qed.

Lemma parseTags_spec tags os tail : Forall2 tagOk tags os -> gap tail -> forall fuel os0, (length tags < fuel)%nat ->
  parseTags fuel (specOf tags ++ tail) os0 [] = Some (Ok (os0 ++ os, [])).
Proof.
  intros H Ht. induction H as [|[g [k v]] o tags os Ho _ IH]; intros fuel os0 Hf; (destruct fuel as [|fuel]; [simpl in Hf; lia|]).
  - rewrite app_nil_r. by apply parseTags_none.
  - change (specOf ((g, (k, v)) :: tags)) with ((g ++ tagSpec (k, v)) ++ specOf tags). rewrite <- app_assoc.
    rewrite (parseTags_step _ _ _ _ _ _ _ o) by done. rewrite IH by (simpl in Hf; lia). by rewrite <- app_assoc.
Qed.

(** the chain parser always returns, and for a specification that lists tags with
    their argument, with any text free of opening brackets around them, it builds
    exactly the obfuscators of the tags, in order. *)
Theorem obf_chain_parses (tags : list (list Z * (list Z * list Z))) (os : list obf) (tail spec : list Z) :
  Forall2 tagOk tags os -> gap tail ->
  newObfChain (specOf tags ++ tail) = Some (Ok (mkChain (specOf tags ++ tail) os)) /\ exists r, newObfChain spec = Some r.
Proof.
  intros H Ht. unfold newObfChain. split.
  - rewrite (parseTags_spec tags os tail H Ht); [done|]. rewrite length_app.
    assert (length tags <= length (specOf tags))%nat; [|lia]. clear. induction tags as [|[g [k v]] tags IH]; [done|].
    change (specOf ((g, (k, v)) :: tags)) with ((g ++ tagSpec (k, v)) ++ specOf tags). unfold tagSpec. rewrite !length_app. simpl. lia.
  - destruct (parseTags_total (S (length spec)) spec [] []) as [r ->]; [lia|]. cbn [mbind option_bind]. by eexists.
Qed.

Lemma obf_chain_parses_witness :
  newObfChain (specOf [([], (str "r", str "10")); (str "--", (str "b", str "0xf6ab"))] ++ str " end") =
    Some (Ok (mkChain (specOf [([], (str "r", str "10")); (str "--", (str "b", str "0xf6ab"))] ++ str " end")
      [randObf 10; bytesObf [246; 171]])) /\ exists r, newObfChain (str "<r") = Some r.
Proof.
  apply (obf_chain_parses [([], (str "r", str "10")); (str "--", (str "b", str "0xf6ab"))] [randObf 10; bytesObf [246; 171]] (str " end") (str "<r")).
  - repeat constructor; try (apply (bool_decide_unpack _); vm_compute; exact I);
      [exists newRandObf|exists newBytesObf]; split; vm_compute; reflexivity.
  - apply (bool_decide_unpack _). vm_compute. exact I.
Defined.

(** ** Obfuscating and deobfuscating *)

Section Chains.
Context `{InitialCryptoLaws}.

(** Tags whose lengths can be allocated; the builders reject only a bad server name. *)
Definition obf_ok (o : obf) : Prop :=
  match o with
  | randObf n | randCharObf n | randDigitObf n | dataSizeObf n => 0 <= n
  | imitateObf n _ _ => 0 <= n
  | qinit q => qi_length q = qinitDatagramLen /\ len (qi_sni q) <= 255
  | bytesObf _ | timestampObf | dataObf | dataStringObf => True
  end.
Definition is_data (o : obf) : bool := match o with dataObf | dataStringObf => true | _ => false end.

(** What a tag leaves in its part of the packet, and that it reads it back. *)
Record tagOut (src : list Z) (o : obf) (out : list Z) (o' : obf) : Prop := {
  out_len : len out = ObfuscatedLen o (len src);
  out_ok : obf_ok o';
  out_data : is_data o' = is_data o;
  out_same : is_data o = true -> o' = o;
  out_olen : forall n, ObfuscatedLen o' n = ObfuscatedLen o n;
  out_back : Forall is_u8 src -> forall dst, len dst = (if is_data o then len src else 0) ->
    Deobfuscate o' dst out = Some (if is_data o then src else dst, true);
}.

Lemma copy_at_all (dst src : list Z) : len dst = len src -> copy_at dst 0 src = Some src.
Proof.
  intros Hl. rewrite copy_at_Some by (unfold len; lia). f_equal. change (Z.to_nat 0) with 0%nat. unfold len in Hl.
  rewrite inserts_0 by lia. by rewrite drop_ge, app_nil_r by lia.
Qed.

Lemma fillRand_ok f dst n r : len dst = n -> exists bs r', fillRand f dst n r = Some (f <$> bs, r') /\ Forall is_u8 bs /\ len (f <$> bs) = n.
Proof.
  intros Hl. unfold fillRand. rewrite <- Hl, slice_all. cbn [mbind option_bind].
  destruct (randRead (length dst) r) as [bs r'] eqn:E. assert (length bs = length dst) as Hb by (rewrite <- (randRead_length (length dst) r), E; done).
  pose proof (randRead_bytes (length dst) r) as Hu. rewrite E in Hu.
  rewrite copy_at_all by (unfold len; rewrite length_fmap; lia). cbn [mbind option_bind]. exists bs, r'.
  split; [done|]. split; [done|]. unfold len. rewrite length_fmap. lia.
Qed.

Lemma sizeLoop_ok n dst v : (n <= length dst)%nat -> exists out, sizeLoop n dst v = Some out /\ length out = length dst.
Proof.
  revert dst v. induction n as [|n IH]; intros dst v Hn; [by exists dst|]. cbn [sizeLoop].
  rewrite set_at_Some by (unfold len; lia). cbn [mbind option_bind].
  destruct (IH (<[Z.to_nat (Z.of_nat n) := u8 (Z.land v 255)]> dst) (Z.shiftr v 8)) as (out & ? & Hl); [rewrite length_insert; lia|].
  exists out. by rewrite length_insert in Hl.
Qed.

Lemma chars52_letters bs : Forall is_u8 bs -> forallb isLetter ((fun b => chars52 !!! Z.to_nat (b mod 52)) <$> bs) = true.
Proof.
  induction 1 as [|b bs Hb _ IH]; [done|]. rewrite fmap_cons. cbn [forallb]. rewrite IH, andb_true_r. pose proof (Z.mod_pos_bound b 52 ltac:(lia)) as Hm.
  revert Hm. generalize (b mod 52). apply (enum_range _ 0 52). vm_compute (seqZ 0 52). repeat constructor.
Qed.
Lemma digits10_digits bs : Forall is_u8 bs -> forallb isDigit ((fun b => digits10 !!! Z.to_nat (b mod 10)) <$> bs) = true.
Proof.
  induction 1 as [|b bs Hb _ IH]; [done|]. rewrite fmap_cons. cbn [forallb]. rewrite IH, andb_true_r. pose proof (Z.mod_pos_bound b 10 ltac:(lia)) as Hm.
  revert Hm. generalize (b mod 10). apply (enum_range _ 0 10). vm_compute (seqZ 0 10). repeat constructor.
Qed.

Lemma obfuscate_ok now o dst src r : obf_ok o -> len dst = ObfuscatedLen o (len src) ->
  exists out o' r', Obfuscate now o dst src r = Some (out, o', r') /\ tagOut src o out o'.
Proof.
  intros Hok Hl. pose proof (len_nonneg src) as Hsrc. destruct o; cbn [Obfuscate ObfuscatedLen obf_ok] in *; unfold_tags.
  - rewrite take_ge by (unfold len in Hl; lia). rewrite copy_at_all by done. cbn [mbind option_bind]. do 3 eexists. split; [done|].
    split; try done. intros _ dst' _. cbn [Deobfuscate ObfuscatedLen is_data]; unfold_tags. rewrite slice_all. cbn [mbind option_bind]. unfold str_eqb. by rewrite bool_decide_true.
  - unfold put_be. rewrite decide_True by lia. cbn [mbind option_bind]. do 3 eexists. split; [done|]. split; [|done..].
    unfold len in *. rewrite length_inserts. done.
  - destruct (fillRand_ok (fun b => b) dst length r Hl) as (bs & r' & -> & _ & Hb). cbn [mbind option_bind]. do 3 eexists. split; [done|]. by split.
  - destruct (fillRand_ok (fun b => chars52 !!! Z.to_nat (b mod 52)) dst length r Hl) as (bs & r' & -> & Hu & Hb). cbn [mbind option_bind].
    do 3 eexists. split; [done|]. split; try done. intros _ dst' _. cbn [Deobfuscate]; unfold_tags. rewrite <- Hb, slice_all. cbn [mbind option_bind]. by rewrite chars52_letters.
  - destruct (fillRand_ok (fun b => digits10 !!! Z.to_nat (b mod 10)) dst length r Hl) as (bs & r' & -> & Hu & Hb). cbn [mbind option_bind].
    do 3 eexists. split; [done|]. split; try done. intros _ dst' _. cbn [Deobfuscate]; unfold_tags. rewrite <- Hb, slice_all. cbn [mbind option_bind]. by rewrite digits10_digits.
  - rewrite take_ge by (unfold len in Hl; lia). rewrite copy_at_all by done. cbn [mbind option_bind]. do 3 eexists. split; [done|].
    split; try done. intros _ dst' Hd. cbn [Deobfuscate is_data] in *; unfold_tags. rewrite take_ge by (unfold len in Hd; lia). by rewrite copy_at_all.
  - rewrite b64Encode_len, Hl, Z.ltb_irrefl. rewrite copy_at_all by (rewrite b64Encode_len; done). cbn [mbind option_bind]. do 3 eexists. split; [done|].
    split; try done; [apply b64Encode_len|]. intros Hu dst' Hd. cbn [Deobfuscate is_data] in *; unfold_tags. rewrite b64Decode_encode by done.
    rewrite Hd, Z.ltb_irrefl. by rewrite copy_at_all.
  - destruct (sizeLoop_ok (Z.to_nat length) dst (len src)) as (out & -> & Ho); [unfold len in Hl; lia|]. cbn [mbind option_bind].
    do 3 eexists. split; [done|]. split; try done. unfold len in *. by rewrite Ho.
  - assert (slice dst 0 length = Some dst) as -> by (rewrite <- Hl; apply slice_all). cbn [mbind option_bind].
    destruct (imitateFillWhole_total proto dst (imitateJunkSeed (u64 (counter + 1)))) as (out & -> & Ho). cbn [mbind option_bind].
    rewrite copy_at_all by (unfold len; lia). cbn [mbind option_bind]. do 3 eexists. split; [done|].
    split; try done. unfold len in *. cbn [ObfuscatedLen]. by rewrite Ho.
  - unfold qinitObf_Obfuscate. destruct Hok as [Hq Hs]. assert (slice dst 0 (qi_length q) = Some dst) as -> by (rewrite <- Hl; apply slice_all). cbn [mbind option_bind].
    destruct (quic_initial_total r (qi_sni q) Hs) as (pkt & r' & Hp & Hpl). rewrite Hq, Hp. cbn [mbind option_bind].
    rewrite Hq in Hl. rewrite take_ge by (unfold len, qinitDatagramLen in *; lia). rewrite copy_at_all by (unfold qinitDatagramLen in *; lia).
    cbn [mbind option_bind]. do 3 eexists. split; [done|]. split; try done. cbn [ObfuscatedLen]. rewrite Hq. exact Hpl.
Qed.
Lemma chainLen_shift os n a : foldl (fun total o => total + ObfuscatedLen o n) a os = a + chainObfuscatedLen os n.
Proof.
  unfold chainObfuscatedLen. revert a. induction os as [|o os IH]; intros a; cbn [foldl]; [lia|]. rewrite IH, (IH (0 + _)). lia.
Qed.
Lemma chainLen_cons o os n : chainObfuscatedLen (o :: os) n = ObfuscatedLen o n + chainObfuscatedLen os n.
Proof. unfold chainObfuscatedLen at 1. cbn [foldl]. by rewrite chainLen_shift. Qed.

Lemma ObfuscatedLen_nonneg o n : obf_ok o -> 0 <= n -> 0 <= ObfuscatedLen o n.
Proof.
  intros Hok Hn. destruct o; cbn [ObfuscatedLen obf_ok] in *; try lia; [unfold len; lia|unfold b64EncodedLen; Z.div_mod_to_equations; lia|].
  destruct Hok as [-> _]. unfold qinitDatagramLen. lia.
Qed.

(** The outputs of the tags, one after the other. *)
Inductive chainOut (src : list Z) : list obf -> list (list Z) -> list obf -> Prop :=
| chainOut_nil : chainOut src [] [] []
| chainOut_cons o out o' os outs os' : tagOut src o out o' -> chainOut src os outs os' -> chainOut src (o :: os) (out :: outs) (o' :: os').

Lemma obfuscateLoop_ok now os src : Forall obf_ok os -> forall pre mid r, len mid = chainObfuscatedLen os (len src) ->
  exists outs os' r', obfuscateLoop now os (pre ++ mid) src (len pre) r = Some (pre ++ mjoin outs, os', r') /\ chainOut src os outs os'.
Proof.
  induction 1 as [|o os Ho Hos IH]; intros pre mid r Hm.
  - destruct mid; [|rewrite len_cons in Hm; pose proof (len_nonneg mid); unfold chainObfuscatedLen in Hm; simpl in Hm; lia].
    exists [], [], r. split; [done|constructor].
  - rewrite chainLen_cons in Hm. pose proof (ObfuscatedLen_nonneg o (len src) Ho (len_nonneg src)) as Hn.
    set (n := ObfuscatedLen o (len src)) in *. assert (0 <= chainObfuscatedLen os (len src)) as Hrest.
    { clear - Hos. induction Hos as [|o os Ho _ IH]; [done|]. rewrite chainLen_cons. pose proof (ObfuscatedLen_nonneg o (len src) Ho (len_nonneg src)). lia. }
    rewrite <- (take_drop (Z.to_nat n) mid). set (m1 := take _ mid). set (m2 := drop _ mid).
    assert (len m1 = n) as Hm1 by (unfold m1, len in *; rewrite length_take; lia).
    assert (len m2 = chainObfuscatedLen os (len src)) as Hm2 by (unfold m2, len in *; rewrite length_drop; lia).
    cbn [obfuscateLoop]. fold n. rewrite slice_mid by lia. cbn [mbind option_bind].
    destruct (obfuscate_ok now o m1 src r Ho Hm1) as (out & o' & r1 & -> & Hout). cbn [mbind option_bind].
    pose proof (out_len _ _ _ _ Hout) as Hol. fold n in Hol.
    rewrite copy_at_mid by lia. cbn [mbind option_bind].
    destruct (IH (pre ++ out) m2 r1 Hm2) as (outs & os' & r' & Hrun & Hch). rewrite len_app, Hol, <- !app_assoc in Hrun. rewrite Hrun. cbn [mbind option_bind].
    exists (out :: outs), (o' :: os'), r'. split; [done|by constructor].
Qed.

Lemma deobfuscateLoop_ok src os outs os' dyn : Forall is_u8 src -> chainOut src os outs os' ->
  Forall (fun o => DeobfuscatedLen o dyn = if is_data o then len src else 0) os' ->
  forall pre mid spre, len mid = len src * Z.of_nat (length (filter is_data os)) ->
  deobfuscateLoop os' (pre ++ mid) (spre ++ mjoin outs) dyn (len pre) (len spre)
    = Some (pre ++ mjoin ((fun o => if is_data o then src else []) <$> os), true).
Proof.
  intros Hu Hch. induction Hch as [|o out o' os outs os' Hout Hch IH]; intros Hd pre mid spre Hm.
  - cbn in *. rewrite Z.mul_0_r in Hm. destruct mid; [done|]. rewrite len_cons in Hm. pose proof (len_nonneg mid). lia.
  - apply Forall_cons in Hd as [Hd Hds]. destruct Hout as [Hl Hok Hdat _ Hol Hback]. rewrite Hdat in Hd. pose proof (len_nonneg src).
    set (n := if is_data o then len src else 0) in *.
    assert (len mid = n + len src * Z.of_nat (length (filter is_data os))) as Hm'.
    { rewrite Hm, filter_cons. unfold n. destruct (is_data o); case_decide; simpl; try done; lia. }
    assert (0 <= n) by (unfold n; destruct (is_data o); lia).
    rewrite <- (take_drop (Z.to_nat n) mid). set (m1 := take _ mid). set (m2 := drop _ mid).
    assert (len m1 = n) as Hm1 by (unfold m1, len in *; rewrite length_take; lia).
    assert (len m2 = len src * Z.of_nat (length (filter is_data os))) as Hm2 by (unfold m2, len in *; rewrite length_drop; lia).
    cbn [deobfuscateLoop]. rewrite Hd. rewrite slice_mid by lia. cbn [mbind option_bind].
    change (mjoin (out :: outs)) with (out ++ mjoin outs).
    assert (ObfuscatedLen o' n = len out) as Hon.
    { rewrite Hol, Hl. unfold n. destruct (is_data o) eqn:E; [done|]. by destruct o. }
    rewrite Hon, slice_mid by lia. cbn [mbind option_bind]. rewrite (Hback Hu m1 Hm1). cbn [mbind option_bind].
    set (m1' := if is_data o then src else m1).
    assert (len m1' = n) as Hq1 by (unfold m1', n in *; by destruct (is_data o)).
    rewrite copy_at_mid by lia. cbn [mbind option_bind].
    specialize (IH Hds (pre ++ m1') m2 (spre ++ out) Hm2). rewrite !len_app, Hq1, <- !app_assoc in IH. rewrite IH.
    f_equal. f_equal. f_equal. cbn. f_equal. unfold m1'. destruct (is_data o); [done|]. unfold n in Hm1. by destruct m1.
Qed.
Lemma chainOut_lens src os outs os' : chainOut src os outs os' ->
  (forall n, chainObfuscatedLen os' n = chainObfuscatedLen os n) /\ len (mjoin outs) = chainObfuscatedLen os (len src) /\
  filter is_data os' = filter is_data os.
Proof.
  induction 1 as [|o out o' os outs os' [Hl _ Hd Hsame Ho _] _ (IH1 & IH2 & IH3)]; [done|].
  split; [intros n; by rewrite !chainLen_cons, IH1, Ho|]. split.
  - change (mjoin (out :: outs)) with (out ++ mjoin outs). by rewrite len_app, chainLen_cons, IH2, Hl.
  - rewrite !filter_cons, IH3, Hd. case_decide as E; [|done]. by rewrite (Hsame (Is_true_true_1 _ E)).
Qed.

Lemma static_len o n m : is_data o = false -> ObfuscatedLen o n = ObfuscatedLen o m /\ DeobfuscatedLen o n = 0.
Proof. by destruct o. Qed.
Lemma data_len o n : is_data o = true -> 0 <= n -> ObfuscatedLen o 0 = 0 /\ DeobfuscatedLen o (ObfuscatedLen o n) = n.
Proof. destruct o; try done. intros _ Hn. cbn. split; [done|by apply b64_lens]. Qed.

Lemma one_data os D n : filter is_data os = [D] -> is_data D = true /\ chainObfuscatedLen os n - chainObfuscatedLen os 0 = ObfuscatedLen D n.
Proof.
  assert (forall os, filter is_data os = [] -> chainObfuscatedLen os n - chainObfuscatedLen os 0 = 0) as Hnone.
  { intros l. induction l as [|o l IH]; [done|]. rewrite filter_cons, !chainLen_cons. case_decide as E; [done|]. intros Hf.
    specialize (IH Hf). destruct (static_len o n 0); [by destruct (is_data o)|]. lia. }
  induction os as [|o os IH]; [done|]. rewrite filter_cons, !chainLen_cons. case_decide as E.
  - intros [= -> Hf]. specialize (Hnone os Hf). apply Is_true_true in E. split; [done|].
    assert (ObfuscatedLen D 0 = 0) by (by destruct D). lia.
  - intros Hf. destruct (IH Hf) as [? ?]. split; [done|]. destruct (static_len o n 0); [by destruct (is_data o)|]. lia.
Qed.

Lemma deob_lens os D n : filter is_data os = [D] -> 0 <= n ->
  Forall (fun o => DeobfuscatedLen o (ObfuscatedLen D n) = if is_data o then n else 0) os /\
  foldl (fun total o => total + DeobfuscatedLen o (ObfuscatedLen D n)) 0 os = n.
Proof.
  intros Hf Hn. assert (Forall (fun o => DeobfuscatedLen o (ObfuscatedLen D n) = if is_data o then n else 0) os) as Hall.
  { apply Forall_forall. intros o Ho. destruct (is_data o) eqn:E; [|by apply static_len].
    assert (o ∈ filter is_data os) as Hin by (apply list_elem_of_filter; split; [by rewrite E|done]).
    rewrite Hf in Hin. apply list_elem_of_singleton in Hin as ->. by apply data_len. }
  split; [done|]. assert (forall a, foldl (fun total o => total + DeobfuscatedLen o (ObfuscatedLen D n)) a os = a + n * Z.of_nat (length (filter is_data os))) as ->; [|rewrite Hf; simpl; lia].
  clear Hf. induction Hall as [|o os Ho _ IH]; intros a; cbn [foldl]; [simpl; lia|]. rewrite IH, Ho, filter_cons.
  destruct (is_data o); case_decide; simpl; try done; lia.
Qed.
Lemma join_cons {A} (x : list A) l : mjoin (x :: l) = x ++ mjoin l.
Proof. done. Qed.

Lemma data_joined (src : list Z) os D : filter is_data os = [D] -> mjoin ((fun o => if is_data o then src else []) <$> os) = src.
Proof.
  assert (forall os, filter is_data os = [] -> mjoin ((fun o => if is_data o then src else []) <$> os) = []) as Hnone.
  { intros l. induction l as [|o l IH]; [done|]. rewrite filter_cons, fmap_cons, join_cons. case_decide as E; [done|]. intros Hf.
    destruct (is_data o); [done|]. by apply IH. }
  induction os as [|o os IH]; [done|]. rewrite filter_cons, fmap_cons, join_cons. case_decide as E.
  - intros [= -> Hf]. apply Is_true_true in E. rewrite E, Hnone by done. apply app_nil_r.
  - intros Hf. destruct (is_data o); [done|]. by apply IH.
Qed.
End Chains.

(** C22: a chain whose tags have non-negative lengths fills a buffer of the announced
    length without panicking, and when exactly one of its tags carries the data,
    deobfuscating the result into a buffer of the announced length accepts it and
    gives the data back. *)
Theorem obf_chain_roundtrip `{InitialCryptoLaws} (now : Z) (c : obfChain) (D : obf) (dst src : list Z) (r : rng) :
  Forall obf_ok (obfs c) -> filter is_data (obfs c) = [D] -> Forall is_u8 src ->
  len dst = chainObfuscatedLen (obfs c) (len src) ->
  exists out c' r', chainObfuscate now c dst src r = Some (out, c', r') /\ len out = len dst /\
    forall dst', len dst' = chainDeobfuscatedLen (obfs c') (len out) -> chainDeobfuscate c' dst' out = Some (src, true).
Proof.
  intros Hok Hone Hu Hl. unfold chainObfuscate.
  destruct (obfuscateLoop_ok now (obfs c) src Hok [] dst r Hl) as (outs & os' & r' & Hrun & Hch). cbn [app] in Hrun.
  change (len []) with 0 in Hrun. rewrite Hrun. cbn [mbind option_bind]. destruct (chainOut_lens _ _ _ _ Hch) as (Hlens & Hout & Hfil).
  exists (mjoin outs), (mkChain (Spec c) os'), r'. split; [done|]. split; [congruence|]. intros dst' Hd. cbn [obfs] in *.
  destruct (one_data (obfs c) D (len src) Hone) as [HD Hdyn]. rewrite <- (Hlens 0), <- Hout in Hdyn. rewrite Hone in Hfil.
  destruct (deob_lens os' D (len src) Hfil (len_nonneg src)) as [Hall Hsum].
  unfold chainDeobfuscatedLen in Hd. rewrite Hdyn, Hsum in Hd. unfold chainDeobfuscate. cbn [obfs]. rewrite Hdyn.
  pose proof (deobfuscateLoop_ok src (obfs c) outs os' (ObfuscatedLen D (len src)) Hu Hch Hall [] dst' []) as Hback.
  rewrite Hone in Hback. cbn [app length] in Hback. change (len []) with 0 in Hback. rewrite Hback by lia. f_equal. f_equal.
  by eapply data_joined.
Qed.

(** the length of a tag is not checked when the chain is parsed: a negative one,
    such as [<r -5>], is accepted, its announced length is negative and every use of
    the chain panics. *)
Theorem obf_negative_length_panics `{InitialCrypto} (now : Z) (dst src : list Z) (r : rng) :
  exists c, newObfChain (str "<r -5>") = Some (Ok c) /\ chainObfuscatedLen (obfs c) 0 < 0 /\ chainObfuscate now c dst src r = None.
Proof.
  eexists. split; [vm_compute; reflexivity|]. split; [done|]. unfold chainObfuscate. cbn [obfs obfuscateLoop ObfuscatedLen].
  unfold slice. by rewrite decide_False by lia.
Qed.

#[local] Existing Instance plainCrypto.
#[local] Existing Instance plainCrypto_laws.

Definition sampleChain : obfChain := mkChain [] [bytesObf [246; 171]; dataSizeObf 2; randCharObf 5; dataStringObf; imitateObf 64 imitateSTUN 0].

Lemma obf_chain_roundtrip_witness :
  len (replicate 80 0) = chainObfuscatedLen (obfs sampleChain) (len (str "hello")) /\
  exists out c' r', chainObfuscate 7 sampleChain (replicate 80 0) (str "hello") sampleRng = Some (out, c', r') /\ len out = len (replicate 80 0) /\
    forall dst', len dst' = chainDeobfuscatedLen (obfs c') (len out) -> chainDeobfuscate c' dst' out = Some (str "hello", true).
Proof.
  split; [vm_compute; reflexivity|]. apply (obf_chain_roundtrip 7 sampleChain dataStringObf (replicate 80 0) (str "hello") sampleRng).
  - repeat constructor; discriminate.
  - reflexivity.
  - apply (bool_decide_unpack _). vm_compute. exact I.
  - vm_compute. reflexivity.
Defined.
