(* ===== verification/Tai64n.v ===== *)
(** * Tai64n: the handshake timestamps of src/tai64n/tai64n.go

    A timestamp is twelve bytes; a [time.Time] is given by its Unix seconds and
    nanoseconds. *)
From S2P Require Import Prelude GoLib.
#[local] Open Scope Z_scope.

Definition TimestampSize : Z := 12.
Definition base : Z := 0x400000000000000a.
Definition whitenerMask : Z := u32 (0x1000000 - 1).

Abbreviation Timestamp := (list Z) (only parsing).

Definition stamp (unix nanosecond : Z) : Timestamp :=
  let secs := u64 (base + u64 unix) in
  let nano := Z.ldiff (u32 nanosecond) whitenerMask in
  be_bytes 8 secs ++ be_bytes 4 nano.

(** [bytes.Compare(a, b)] *)
Fixpoint bytesCompare (a b : list Z) : comparison :=
  match a, b with
  | [], [] => Eq
  | [], _ :: _ => Lt
  | _ :: _, [] => Gt
  | x :: a, y :: b => match x ?= y with Eq => bytesCompare a b | c => c end
  end.

Definition After (t1 t2 : Timestamp) : bool :=
  match bytesCompare t1 t2 with Gt => true | _ => false end.

(** The zero value of the type, which a new handshake starts from. *)
Definition zeroTimestamp : Timestamp := replicate 12 0.

(** ** The order on timestamps is the order on instants *)

Lemma be_val_cons x l : be_val (x :: l) = x * 256 ^ len l + be_val l.
Proof.
  unfold be_val. rewrite reverse_cons. assert (forall a b, le_val (a ++ [b]) = b * 256 ^ len a + le_val a) as H.
  { intros a b. induction a as [|y a IH]; [change (256 ^ len []) with 1; cbn [app le_val]; lia|]. cbn [app le_val]. rewrite IH, len_cons, Z.pow_add_r by (unfold len; lia). lia. }
  rewrite H. by replace (len (reverse l)) with (len l) by (unfold len; by rewrite length_reverse).
Qed.

Lemma be_val_nonneg_lt l : Forall is_u8 l -> 0 <= be_val l < 256 ^ len l.
Proof.
  intros H. unfold be_val. pose proof (le_val_bound (reverse l) (proj2 (Forall_reverse _ _) H)) as Hb.
  by rewrite length_reverse in Hb.
Qed.

Lemma bytesCompare_val a b : length a = length b -> Forall is_u8 a -> Forall is_u8 b -> bytesCompare a b = (be_val a ?= be_val b).
Proof.
  revert b. induction a as [|x a IH]; intros [|y b] Hl Ha Hb; try done. apply Forall_cons in Ha as [Hx Ha]. apply Forall_cons in Hb as [Hy Hb].
  cbn [bytesCompare]. rewrite !be_val_cons. injection Hl as Hl. assert (len a = len b) as Hlen by (unfold len; by rewrite Hl). rewrite Hlen.
  pose proof (be_val_nonneg_lt a Ha) as Ba. pose proof (be_val_nonneg_lt b Hb) as Bb. rewrite Hlen in Ba.
  destruct (Z.compare_spec x y) as [-> |Hlt|Hgt].
  - rewrite IH by done. symmetry. apply Z.add_compare_mono_l.
  - symmetry. apply Z.compare_lt_iff. nia.
  - symmetry. apply Z.compare_gt_iff. nia.
Qed.

(** The instant a timestamp stands for, in units of 2^24 nanoseconds per second slot. *)
Definition whitened (nanosecond : Z) : Z := nanosecond / 2 ^ 24 * 2 ^ 24.

Lemma ldiff_whitener n : 0 <= n < 2 ^ 32 -> Z.ldiff (u32 n) whitenerMask = whitened n.
Proof.
  intros Hn. rewrite u32_small by done. change whitenerMask with (Z.ones 24). rewrite Z.ldiff_ones_r by lia.
  rewrite Z.shiftl_mul_pow2, Z.shiftr_div_pow2 by lia. done.
Qed.

Lemma whitened_range n : 0 <= n < 2 ^ 32 -> 0 <= whitened n <= n.
Proof. intros Hn. unfold whitened. Z.div_mod_to_equations; lia. Qed.

Lemma be_val_app a b : be_val (a ++ b) = be_val a * 256 ^ len b + be_val b.
Proof.
  induction a as [|x a IH]; [done|]. cbn [app]. rewrite !be_val_cons, IH, len_app, Z.pow_add_r by (unfold len; lia). lia.
Qed.

Lemma stamp_length s n : length (stamp s n) = 12%nat.
Proof. unfold stamp. by rewrite length_app, !length_be_bytes. Qed.
Lemma stamp_bytes s n : Forall is_u8 (stamp s n).
Proof. apply Forall_app. split; apply be_bytes_ok. Qed.

(** Instants between the epoch and the year 146 billion, as [time.Now] returns them. *)
Definition instant (s n : Z) : Prop := 0 <= s < 2 ^ 62 /\ 0 <= n < 10 ^ 9.

Lemma stamp_val s n : instant s n -> be_val (stamp s n) = (base + s) * 2 ^ 32 + whitened n.
Proof.
  intros [Hs Hn]. unfold stamp. rewrite be_val_app, len_be_bytes. change (256 ^ Z.of_nat 4) with (2 ^ 32). unfold base in *.
  rewrite ldiff_whitener by lia. pose proof (whitened_range n ltac:(lia)).
  rewrite (u64_small s), u64_small by (unfold is_u64; lia). rewrite !be_val_bytes; [done|..].
  - change (256 ^ Z.of_nat 4) with (2 ^ 32). lia.
  - change (256 ^ Z.of_nat 8) with (2 ^ 64). lia.
Qed.

(** comparing two timestamps is comparing the instants they were taken at, whole
    seconds first and then the nanoseconds rounded down to a multiple of 2^24: a
    timestamp is after another exactly when its rounded instant is later, and every
    timestamp of the clock is after the zero timestamp a handshake starts with. *)
Theorem timestamp_order (s1 n1 s2 n2 : Z) : instant s1 n1 -> instant s2 n2 ->
  (After (stamp s1 n1) (stamp s2 n2) = true <-> s2 < s1 \/ (s1 = s2 /\ whitened n2 < whitened n1)) /\
  After (stamp s1 n1) zeroTimestamp = true.
Proof.
  intros H1 H2. pose proof (stamp_val s1 n1 H1) as V1. pose proof (stamp_val s2 n2 H2) as V2.
  destruct H1 as [Hs1 Hn1], H2 as [Hs2 Hn2]. pose proof (whitened_range n1 ltac:(lia)). pose proof (whitened_range n2 ltac:(lia)).
  unfold After. split.
  - rewrite bytesCompare_val by (by rewrite ?stamp_length || apply stamp_bytes). rewrite V1, V2.
    destruct (Z.compare_spec ((base + s1) * 2 ^ 32 + whitened n1) ((base + s2) * 2 ^ 32 + whitened n2)); split; intros; try done; lia.
  - rewrite bytesCompare_val; [|by rewrite stamp_length|apply stamp_bytes|by apply Forall_replicate].
    rewrite V1. change (be_val zeroTimestamp) with 0. unfold base. by rewrite (proj2 (Z.compare_gt_iff _ _)) by lia.
Qed.

Lemma timestamp_order_witness :
  (After (stamp 1700000001 5) (stamp 1700000000 999999999) = true <->
    1700000000 < 1700000001 \/ (1700000001 = 1700000000 /\ whitened 999999999 < whitened 5)) /\
  After (stamp 1700000001 5) zeroTimestamp = true.
Proof. apply (timestamp_order 1700000001 5 1700000000 999999999); unfold instant; lia. Defined.
