(* ===== verification/RateLimiter.v ===== *)
(** * RateLimiter: the token buckets of src/ratelimiter/ratelimiter.go

    Times are nanoseconds. The table maps source addresses to buckets; [stopReset] is
    the channel to the collection goroutine, [ticking] whether that goroutine has a
    running ticker. [None] is a panic (a send on a closed or missing channel, a
    second close). *)
From S2P Require Import Prelude GoLib.
#[local] Open Scope Z_scope.

Definition packetsPerSecond : Z := 20.
Definition packetsBurstable : Z := 5.
Definition garbageCollectTime : Z := 1000000000.
Definition packetCost : Z := 1000000000 / packetsPerSecond.
Definition maxTokens : Z := packetCost * packetsBurstable.

Abbreviation addr := (list Z) (only parsing).

Record RatelimiterEntry := mkRateEntry { lastTime : Z; tokens : Z }.

Inductive channel := NilChan | OpenChan | ClosedChan.
#[export] Instance channel_eq_dec : EqDecision channel.
Proof. solve_decision. Defined.

Record Ratelimiter := mkRate { stopReset : channel; ticking : bool; rtable : gmap addr RatelimiterEntry }.

Definition newRatelimiter : Ratelimiter := mkRate NilChan false ∅.

Definition closeChan (c : channel) : option channel := match c with OpenChan => Some ClosedChan | _ => None end.

Definition Close (r : Ratelimiter) : option Ratelimiter :=
  if decide (stopReset r = NilChan) then Some r
  else c ← closeChan (stopReset r); Some (mkRate c false (rtable r)).

(** A new channel, a new table and a new goroutine with a stopped ticker. *)
Definition Init (r : Ratelimiter) : option Ratelimiter :=
  _ ← (if decide (stopReset r = NilChan) then Some NilChan else closeChan (stopReset r));
  Some (mkRate OpenChan false ∅).

(** One tick of the goroutine. *)
Definition cleanup (r : Ratelimiter) (now : Z) : Ratelimiter * bool :=
  let t := filter (fun kv => ~ garbageCollectTime < timeSub now (lastTime kv.2)) (rtable r) in
  let empty := bool_decide (t = ∅) in
  (mkRate (stopReset r) (if empty then false else ticking r) t, empty).

Definition Allow (r : Ratelimiter) (ip : addr) (now : Z) : option (bool * Ratelimiter) :=
  match rtable r !! ip with
  | None =>
      let t := <[ip := mkRateEntry now (maxTokens - packetCost)]> (rtable r) in
      if decide (size t = 1%nat) then
        if decide (stopReset r = OpenChan) then Some (true, mkRate OpenChan true t) else None
      else Some (true, mkRate (stopReset r) (ticking r) t)
  | Some e =>
      let tk := i64 (tokens e + timeSub now (lastTime e)) in
      let tk := if maxTokens <? tk then maxTokens else tk in
      if packetCost <? tk
      then Some (true, mkRate (stopReset r) (ticking r) (<[ip := mkRateEntry now (tk - packetCost)]> (rtable r)))
      else Some (false, mkRate (stopReset r) (ticking r) (<[ip := mkRateEntry now tk]> (rtable r)))
  end.

(** ** Invariant *)

(** The clock stays within a few centuries of the epoch. *)
Definition clock (t : Z) : Prop := 0 <= t < 2 ^ 61.

Record rate_inv (r : Ratelimiter) (now : Z) : Prop := {
  inv_open : stopReset r = OpenChan;
  inv_tick : rtable r <> ∅ -> ticking r = true;
  inv_entry : forall ip e, rtable r !! ip = Some e -> 0 <= tokens e <= maxTokens /\ 0 <= lastTime e <= now;
}.

Lemma timeSub_clock now t : clock now -> 0 <= t <= now -> timeSub now t = now - t.
Proof. unfold clock, timeSub. lia. Qed.

Lemma Init_inv r r' now : Init r = Some r' -> rate_inv r' now.
Proof.
  unfold Init. destruct (decide _); [|destruct (closeChan _); [|done]]; cbn [mbind option_bind]; intros [= <-]; (split; [done|done|]);
    intros ip ent; simpl; by rewrite lookup_empty.
Qed.

Lemma cleanup_inv r now now' : rate_inv r now -> now <= now' -> rate_inv (cleanup r now').1 now'.
Proof.
  intros [H1 H2 H3] Hn. unfold cleanup. split; simpl; [done| |].
  - intros Hne. rewrite bool_decide_false by done. apply H2. intros He. apply Hne. rewrite He. apply map_filter_empty.
  - intros ip ent Hent. apply map_lookup_filter_Some in Hent as [He _]. apply H3 in He. lia.
Qed.

(** The verdict, and the bucket afterwards, of an offer in a table that satisfies the invariant. *)
Definition avail (r : Ratelimiter) (ip : addr) (now : Z) : Z :=
  match rtable r !! ip with None => maxTokens | Some e => Z.min maxTokens (tokens e + (now - lastTime e)) end.

Lemma rate_constants : packetCost = 50000000 /\ maxTokens = 250000000.
Proof. done. Qed.

(** Writing back the bucket of an address. *)
Lemma rate_inv_insert r now ip e tick :
  (forall ip e, rtable r !! ip = Some e -> 0 <= tokens e <= maxTokens /\ 0 <= lastTime e <= now) ->
  stopReset r = OpenChan -> tick = true -> 0 <= tokens e <= maxTokens -> 0 <= lastTime e <= now ->
  rate_inv (mkRate (stopReset r) tick (<[ip := e]> (rtable r))) now.
Proof.
  intros H Ho Ht Htk Hl. split; simpl; [done|done|]. intros ip' e'. rewrite lookup_insert_Some. intros [[_ <-]|[_ He']]; [done|by apply H in He'].
Qed.

Lemma Allow_spec r now now' ip : rate_inv r now -> now <= now' -> clock now' ->
  exists r', Allow r ip now' = Some (bool_decide (packetCost < avail r ip now'), r') /\ rate_inv r' now' /\
    avail r' ip now' = avail r ip now' - (if bool_decide (packetCost < avail r ip now') then packetCost else 0) /\
    forall ip', ip' <> ip -> rtable r' !! ip' = rtable r !! ip'.
Proof.
  intros [H1 H2 H3] Hn Hck. destruct rate_constants as [Ec Em].
  assert (forall ip e, rtable r !! ip = Some e -> 0 <= tokens e <= maxTokens /\ 0 <= lastTime e <= now') as H3'.
  { intros ip' e' He'. apply H3 in He'. lia. }
  assert (forall tick e, avail (mkRate (stopReset r) tick (<[ip := e]> (rtable r))) ip now' = Z.min maxTokens (tokens e + (now' - lastTime e))) as Hav
    by (intros; unfold avail; simpl; by rewrite lookup_insert_eq).
  assert (forall tick e ip', ip' <> ip -> rtable (mkRate (stopReset r) tick (<[ip := e]> (rtable r))) !! ip' = rtable r !! ip') as Hoth
    by (intros; simpl; by rewrite lookup_insert_ne).
  unfold Allow. remember (avail r ip now') as A eqn:HA. unfold avail in HA. destruct (rtable r !! ip) as [e|] eqn:He.
  - destruct (H3 ip e He) as [Ht Hl]. rewrite timeSub_clock by (done || lia). unfold clock in Hck. rewrite i64_small by lia.
    assert (ticking r = true) as Htick by (apply H2; intros Hem; by rewrite Hem in He).
    set (tk := tokens e + (now' - lastTime e)) in *. assert (0 <= tk) by lia.
    assert ((if maxTokens <? tk then maxTokens else tk) = Z.min maxTokens tk) as -> by (destruct (Z.ltb_spec maxTokens tk); lia).
    destruct (Z.ltb_spec packetCost (Z.min maxTokens tk)) as [Hlt|Hge]; [rewrite bool_decide_true by lia|rewrite bool_decide_false by lia];
      (eexists; split; [done|]); (split; [apply rate_inv_insert; try done; simpl; lia|]); (split; [rewrite Hav; simpl; lia|apply Hoth]).
  - subst A. rewrite bool_decide_true by lia. set (e := mkRateEntry now' (maxTokens - packetCost)). unfold clock in Hck.
    assert (exists tick, tick = true /\ (if decide (size (<[ip := e]> (rtable r)) = 1%nat)
      then if decide (stopReset r = OpenChan) then Some (true, mkRate OpenChan true (<[ip := e]> (rtable r))) else None
      else Some (true, mkRate (stopReset r) (ticking r) (<[ip := e]> (rtable r)))) = Some (true, mkRate (stopReset r) tick (<[ip := e]> (rtable r)))) as (tick & Htick & ->).
    { destruct (decide (size _ = 1%nat)) as [E|E]; [exists true; split; [done|]; by rewrite decide_True, H1|]. exists (ticking r). split; [|done].
      apply H2. intros Hem. apply E. by rewrite Hem, map_size_insert_None, map_size_empty. }
    eexists. split; [done|]. split; [apply rate_inv_insert; try done; simpl; lia|]. split; [rewrite Hav; simpl; lia|apply Hoth].
Qed.

Lemma avail_later r now ip t t' : rate_inv r now -> t <= t' -> avail r ip t' <= avail r ip t + (t' - t) /\ avail r ip t' <= maxTokens.
Proof. intros Hinv Ht. unfold avail. destruct (rtable r !! ip); lia. Qed.

(** Forgetting an idle bucket changes nothing: it would be full. *)
Lemma cleanup_avail r now now' ip t : rate_inv r now -> now <= now' -> clock now' -> now' <= t -> avail (cleanup r now').1 ip t = avail r ip t.
Proof.
  intros [_ _ H3] Hn Hck Ht. unfold avail, cleanup. simpl. destruct rate_constants as [Ec Em].
  destruct (rtable r !! ip) as [e|] eqn:He.
  - destruct (H3 ip e He) as [Htk Hl]. destruct (decide (garbageCollectTime < timeSub now' (lastTime e))) as [Hold|Hyoung].
    + rewrite map_lookup_filter_None_2; [|right; intros e' He' Hno; rewrite He in He'; injection He' as <-; done].
      rewrite timeSub_clock in Hold by (done || lia). unfold garbageCollectTime in Hold. lia.
    + by rewrite (map_lookup_filter_Some_2 _ _ _ e).
  - by rewrite map_lookup_filter_None_2; [|left].
Qed.

Lemma avail_shift r now ip t t' : rate_inv r now -> now <= t -> t <= t' -> avail r ip t' = Z.min maxTokens (avail r ip t + (t' - t)).
Proof. intros Hinv Hn Ht. unfold avail. destruct (rtable r !! ip) as [e|]; lia. Qed.

(** ** Runs *)

Inductive event := Offer (ip : addr) (t : Z) | Tick (t : Z).
Definition is_offer (e : event) : bool := match e with Offer _ _ => true | Tick _ => false end.
Definition eventTime (e : event) : Z := match e with Offer _ t | Tick t => t end.

(** The verdicts of the offers of a run, with the source each was made from. *)
Fixpoint runEvents (r : Ratelimiter) (evs : list event) : option (list (addr * bool)) :=
  match evs with
  | [] => Some []
  | Tick t :: evs => runEvents (cleanup r t).1 evs
  | Offer ip t :: evs => '(ok, r) ← Allow r ip t; rest ← runEvents r evs; Some ((ip, ok) :: rest)
  end.

(** The clock of a run never goes back; it goes from [t0] to [t1]. *)
Fixpoint ordered (t0 : Z) (evs : list event) (t1 : Z) : Prop :=
  match evs with
  | [] => t0 <= t1
  | e :: evs => t0 <= eventTime e /\ ordered (eventTime e) evs t1
  end.

Lemma ordered_le t0 evs t1 : ordered t0 evs t1 -> t0 <= t1.
Proof. revert t0. induction evs as [|e evs IH]; intros t0; simpl; [done|]. intros [? H%IH]. lia. Qed.

Definition accepted (ip : addr) (vs : list (addr * bool)) : Z := len (filter (fun v => v = (ip, true)) vs).

Lemma run_bound ip evs : forall r t0 t1, rate_inv r t0 -> 0 <= t0 -> ordered t0 evs t1 -> clock t1 ->
  exists vs, runEvents r evs = Some vs /\ accepted ip vs * packetCost <= Z.max 0 (avail r ip t0) + (t1 - t0).
Proof.
  destruct rate_constants as [Ec Em].
  induction evs as [|[ip' t|t] evs IH]; intros r t0 t1 Hinv H0 Hord Hck; cbn [runEvents].
  - exists []. split; [done|]. simpl in Hord. unfold accepted. change (len _) with 0. lia.
  - destruct Hord as [Ht Hord]. simpl in Ht, Hord. pose proof (ordered_le _ _ _ Hord).
    assert (clock t) as Hct by (unfold clock in *; lia).
    destruct (Allow_spec r t0 t ip' Hinv Ht Hct) as (r' & -> & Hinv' & Hav & Hoth). cbn [mbind option_bind].
    destruct (IH r' t t1 Hinv' ltac:(lia) Hord Hck) as (vs & -> & Hb). cbn [mbind option_bind]. eexists. split; [done|].
    pose proof (avail_later r t0 ip t0 t Hinv Ht) as [Hlater _]. unfold accepted in *. rewrite filter_cons. destruct (decide (ip' = ip)) as [-> |Hne].
    + case_bool_decide; [rewrite decide_True by done; rewrite len_cons|rewrite decide_False by congruence]; lia.
    + rewrite decide_False by congruence. assert (avail r' ip t = avail r ip t) as Heq by (unfold avail; by rewrite Hoth). lia.
  - destruct Hord as [Ht Hord]. simpl in Ht, Hord. pose proof (ordered_le _ _ _ Hord). assert (clock t) as Hct by (unfold clock in *; lia).
    destruct (IH (cleanup r t).1 t t1 (cleanup_inv r t0 t Hinv Ht) ltac:(lia) Hord Hck) as (vs & -> & Hb). eexists. split; [done|].
    rewrite (cleanup_avail r t0) in Hb by (done || lia). pose proof (avail_later r t0 ip t0 t Hinv Ht). lia.
Qed.

Lemma run_same evs : forall r1 r2 t0 t1, rate_inv r1 t0 -> rate_inv r2 t0 -> (forall ip, avail r1 ip t0 = avail r2 ip t0) ->
  0 <= t0 -> ordered t0 evs t1 -> clock t1 ->
  runEvents r1 evs = runEvents r2 (filter is_offer evs).
Proof.
  induction evs as [|[ip' t|t] evs IH]; intros r1 r2 t0 t1 I1 I2 Hsame H0 Hord Hck; [done|..]; destruct Hord as [Ht Hord]; simpl in Ht, Hord;
    pose proof (ordered_le _ _ _ Hord); assert (clock t) as Hct by (unfold clock in *; lia).
  - rewrite filter_cons_True by done. cbn [runEvents].
    assert (forall ip, avail r1 ip t = avail r2 ip t) as Hs by (intros ip; rewrite !(avail_shift _ t0 ip t0 t), Hsame by (done || lia); done).
    destruct (Allow_spec r1 t0 t ip' I1 Ht Hct) as (r1' & -> & I1' & Hav1 & Ho1). destruct (Allow_spec r2 t0 t ip' I2 Ht Hct) as (r2' & -> & I2' & Hav2 & Ho2).
    cbn [mbind option_bind]. rewrite (Hs ip') in *. rewrite (IH r1' r2' t t1 I1' I2'); [done| |lia|done|done].
    intros ip. destruct (decide (ip = ip')) as [-> |Hne]; [congruence|]. specialize (Hs ip). unfold avail in *. by rewrite Ho1, Ho2.
  - rewrite filter_cons_False by tauto. cbn [runEvents]. apply (IH _ _ t t1); [by eapply cleanup_inv| | |lia|done|done].
    + destruct I2 as [? ? Hb]. split; [done|done|]. intros ip e He. apply Hb in He. lia.
    + intros ip. rewrite (cleanup_avail r1 t0) by (done || lia). rewrite !(avail_shift _ t0 ip t0 t), Hsame by (done || lia). done.
Qed.


(** garbage collection is invisible: the verdicts of a run do not depend on when,
    or whether, the collector drops idle buckets. *)
Theorem collection_invisible (r0 r : Ratelimiter) (evs : list event) (t0 t1 : Z) :
  Init r0 = Some r -> 0 <= t0 -> ordered t0 evs t1 -> clock t1 ->
  runEvents r evs = runEvents r (filter is_offer evs).
Proof. intros Hi H0 Hord Hck. by apply (run_same evs r r t0 t1); try (by eapply Init_inv). Qed.

Definition sampleEvents : list event :=
  [Offer [1] 0; Offer [1] 1; Offer [1] 2; Offer [1] 3; Offer [1] 4; Offer [2] 5; Offer [1] 6; Tick 1500000000; Offer [1] 1500000001].


Lemma collection_invisible_witness :
  runEvents (mkRate OpenChan false ∅) sampleEvents =
  runEvents (mkRate OpenChan false ∅) (filter is_offer sampleEvents).
Proof.
  apply (collection_invisible newRatelimiter (mkRate OpenChan false ∅) sampleEvents 0 1500000001);
    [reflexivity|lia|cbn; lia|unfold clock; lia].
Defined.
