(* ===== verification/Crypto.v ===== *)
(** * Crypto: the primitives of golang.org/x/crypto the handshake uses

    BLAKE2s, Curve25519 and the two AEADs are operations of the class [Primitives];
    [PrimitiveLaws] states what their packages document and the protocol relies on.
    [hmac] is crypto/hmac over BLAKE2s. *)
From S2P Require Import Prelude GoLib.
#[local] Open Scope Z_scope.

Class Primitives := {
  blake2s256 : list Z -> list Z;                               (* blake2s.Sum256 *)
  blake2s128 : list Z -> list Z -> list Z;                     (* blake2s.New128(key), message *)
  scalarMult : list Z -> list Z -> list Z;                     (* curve25519.ScalarMult: secret, point *)
  scalarBaseMult : list Z -> list Z;                           (* curve25519.ScalarBaseMult *)
  aeadSeal : list Z -> list Z -> list Z -> list Z -> list Z;   (* chacha20poly1305: key, nonce, plaintext, data *)
  aeadOpen : list Z -> list Z -> list Z -> list Z -> option (list Z);
  xaeadSeal : list Z -> list Z -> list Z -> list Z -> list Z;  (* chacha20poly1305.NewX *)
  xaeadOpen : list Z -> list Z -> list Z -> list Z -> option (list Z);
}.

Class PrimitiveLaws `{Primitives} : Prop := {
  blake2s256_len m : length (blake2s256 m) = 32%nat;
  blake2s128_len k m : length (blake2s128 k m) = 16%nat;
  scalarMult_comm a b : scalarMult a (scalarBaseMult b) = scalarMult b (scalarBaseMult a);
  scalarBaseMult_len a : length (scalarBaseMult a) = 32%nat;
  aeadSeal_len k n p d : length (aeadSeal k n p d) = (length p + 16)%nat;
  aeadOpen_seal k n p d : aeadOpen k n (aeadSeal k n p d) d = Some p;
  aeadOpen_len k n c d p : aeadOpen k n c d = Some p -> length c = (length p + 16)%nat;
  xaeadSeal_len k n p d : length (xaeadSeal k n p d) = (length p + 16)%nat;
  xaeadOpen_seal k n p d : xaeadOpen k n (xaeadSeal k n p d) d = Some p;
}.

Section Hmac.
Context `{Primitives}.

(** RFC 2104 with the 64-byte blocks of BLAKE2s. *)
Definition hmac (key msg : list Z) : list Z :=
  let key := if 64 <? len key then blake2s256 key else key in
  let key := key ++ replicate (64 - length key) 0 in
  blake2s256 ((Z.lxor 0x5c <$> key) ++ blake2s256 ((Z.lxor 0x36 <$> key) ++ msg)).

Definition HMAC1 (key in0 : list Z) : list Z := hmac key in0.
Definition HMAC2 (key in0 in1 : list Z) : list Z := hmac key (in0 ++ in1).

Definition KDF1 (key input : list Z) : list Z :=
  let t0 := HMAC1 key input in HMAC1 t0 [1].
Definition KDF2 (key input : list Z) : list Z * list Z :=
  let prk := HMAC1 key input in
  let t0 := HMAC1 prk [1] in
  let t1 := HMAC2 prk t0 [2] in
  (t0, t1).
Definition KDF3 (key input : list Z) : list Z * list Z * list Z :=
  let prk := HMAC1 key input in
  let t0 := HMAC1 prk [1] in
  let t1 := HMAC2 prk t0 [2] in
  let t2 := HMAC2 prk t1 [3] in
  (t0, t1, t2).
End Hmac.

(** ** An instance of the laws, for the witnesses

    Hashes keep a digest of their input, the shared secret of two keys is their
    byte-wise sum, sealing appends a tag that depends on the additional data. *)

Definition toyDigest (n : nat) (m : list Z) : list Z :=
  (fun i => u8 (foldl (fun a b => a * 31 + b) (Z.of_nat i * 7 + 1) m)) <$> seq 0 n.
Definition toyAdd (a b : list Z) : list Z := (fun i => u8 ((a !!! i) + (b !!! i))) <$> seq 0 32.
Definition toyOpen (c d : list Z) : option (list Z) :=
  if decide (16 <= length c)%nat then
    let p := take (length c - 16) c in
    if decide (drop (length c - 16) c = toyDigest 16 (p ++ d)) then Some p else None
  else None.

Definition toyPrimitives : Primitives := {|
  blake2s256 m := toyDigest 32 m;
  blake2s128 k m := toyDigest 16 (k ++ m);
  scalarMult a p := toyAdd (toyAdd a (replicate 32 0)) p;
  scalarBaseMult a := toyAdd a (replicate 32 0);
  aeadSeal k n p d := p ++ toyDigest 16 (p ++ d);
  aeadOpen k n c d := toyOpen c d;
  xaeadSeal k n p d := p ++ toyDigest 16 (p ++ d);
  xaeadOpen k n c d := toyOpen c d;
|}.

Lemma toyDigest_len n m : length (toyDigest n m) = n.
Proof. unfold toyDigest. by rewrite length_fmap, length_seq. Qed.
Lemma toyAdd_comm a b : toyAdd a b = toyAdd b a.
Proof. unfold toyAdd. apply list_fmap_ext. intros. by rewrite Z.add_comm. Qed.
Lemma toyAdd_len a b : length (toyAdd a b) = 32%nat.
Proof. unfold toyAdd. by rewrite length_fmap, length_seq. Qed.
Lemma toyOpen_seal p d : toyOpen (p ++ toyDigest 16 (p ++ d)) d = Some p.
Proof.
  unfold toyOpen. rewrite length_app, toyDigest_len, decide_True by lia. rewrite Nat.add_sub, take_app_length, drop_app_length. by rewrite decide_True.
Qed.
Lemma toyOpen_len c d p : toyOpen c d = Some p -> length c = (length p + 16)%nat.
Proof. unfold toyOpen. case_decide; [|done]. case_decide; [|done]. intros [= <-]. rewrite length_take. lia. Qed.

Lemma toy_laws : @PrimitiveLaws toyPrimitives.
Proof.
  split; intros; cbn [blake2s256 blake2s128 scalarMult scalarBaseMult aeadSeal aeadOpen xaeadSeal xaeadOpen toyPrimitives] in *;
    rewrite ?length_app, ?toyDigest_len, ?toyAdd_len; try done; [apply toyAdd_comm|apply toyOpen_seal|by eapply toyOpen_len|apply toyOpen_seal].
Qed.
