(* ===== verification/Cookie.v ===== *)
(** * Cookie: the MACs and cookies of src/device/cookie.go

    [CookieChecker] is the responder's side, [CookieGenerator] the initiator's. The
    clock is the argument [now]; [None] is a slice out of range. *)
From S2P Require Import Prelude GoLib Crypto.
#[local] Open Scope Z_scope.

Definition CookieRefreshTime : Z := 120 * 10 ^ 9.
Definition WGLabelMAC1 : list Z := str "mac1----".
Definition WGLabelCookie : list Z := str "cookie--".

Record MessageCookieReply := mkCookieReply { cr_Type : Z; cr_Receiver : Z; cr_Nonce : list Z; cr_Cookie : list Z }.

Record CookieChecker := mkChecker { ck_mac1 : list Z; ck_secret : list Z; ck_secretSet : Z; ck_key : list Z }.
Record CookieGenerator := mkGenerator {
  cg_mac1 : list Z; cg_cookie : list Z; cg_cookieSet : Z; cg_hasLastMAC1 : bool; cg_lastMAC1 : list Z; cg_key : list Z;
}.

Section Cookie.
Context `{Primitives}.

Definition mac1Key (pk : list Z) : list Z := blake2s256 (WGLabelMAC1 ++ pk).
Definition cookieKey (pk : list Z) : list Z := blake2s256 (WGLabelCookie ++ pk).

Definition checkerInit (st : CookieChecker) (pk : list Z) : CookieChecker :=
  mkChecker (mac1Key pk) (ck_secret st) zeroTime (cookieKey pk).

(** [hmac.Equal] compares byte slices. *)
Definition CheckMAC1 (st : CookieChecker) (msg : list Z) : option bool :=
  let smac2 := len msg - 16 in
  let smac1 := smac2 - 16 in
  body ← slice msg 0 smac1;
  mac ← slice msg smac1 smac2;
  Some (str_eqb (blake2s128 (ck_mac1 st) body) mac).

Definition CheckMAC2 (st : CookieChecker) (msg src : list Z) (now : Z) : option bool :=
  if CookieRefreshTime <? timeSub now (ck_secretSet st) then Some false
  else
    let cookie := blake2s128 (ck_secret st) src in
    let smac2 := len msg - 16 in
    body ← slice msg 0 smac2;
    mac ← slice msg smac2 (len msg);
    Some (str_eqb (blake2s128 cookie body) mac).

Definition CreateReply (st : CookieChecker) (msg : list Z) (recv : Z) (src : list Z) (msgType now : Z) (r : rng)
    : option (MessageCookieReply * CookieChecker * rng) :=
  let '(st, r) :=
    if CookieRefreshTime <? timeSub now (ck_secretSet st)
    then let '(secret, r) := randRead 32 r in (mkChecker (ck_mac1 st) secret now (ck_key st), r)
    else (st, r) in
  let cookie := blake2s128 (ck_secret st) src in
  let smac2 := len msg - 16 in
  let smac1 := smac2 - 16 in
  let '(nonce, r) := randRead 24 r in
  mac1 ← slice msg smac1 smac2;
  Some (mkCookieReply msgType recv nonce (xaeadSeal (ck_key st) nonce cookie mac1), st, r).

Definition generatorInit (st : CookieGenerator) (pk : list Z) : CookieGenerator :=
  mkGenerator (mac1Key pk) (cg_cookie st) zeroTime (cg_hasLastMAC1 st) (cg_lastMAC1 st) (cookieKey pk).

Definition ConsumeReply (st : CookieGenerator) (msg : MessageCookieReply) (now : Z) : bool * CookieGenerator :=
  if negb (cg_hasLastMAC1 st) then (false, st)
  else match xaeadOpen (cg_key st) (cr_Nonce msg) (cr_Cookie msg) (cg_lastMAC1 st) with
       | None => (false, st)
       | Some cookie => (true, mkGenerator (cg_mac1 st) cookie now (cg_hasLastMAC1 st) (cg_lastMAC1 st) (cg_key st))
       end.

Definition AddMacs (st : CookieGenerator) (msg : list Z) (now : Z) : option (list Z * CookieGenerator) :=
  let smac2 := len msg - 16 in
  let smac1 := smac2 - 16 in
  _ ← slice msg smac1 smac2;
  body ← slice msg 0 smac1;
  let mac1 := blake2s128 (cg_mac1 st) body in
  msg ← copy_at msg smac1 mac1;
  let st := mkGenerator (cg_mac1 st) (cg_cookie st) (cg_cookieSet st) true mac1 (cg_key st) in
  if CookieRefreshTime <? timeSub now (cg_cookieSet st) then Some (msg, st)
  else
    body ← slice msg 0 smac2;
    msg ← copy_at msg smac2 (blake2s128 (cg_cookie st) body);
    Some (msg, st).
End Cookie.

(** ** The exchange *)

Section Exchange.
Context `{PrimitiveLaws}.

Definition fresh (now set : Z) : bool := negb (CookieRefreshTime <? timeSub now set).

(** A message is a body and the two MAC fields. *)
Lemma AddMacs_shape st body a b now : len a = 16 -> len b = 16 ->
  AddMacs st (body ++ a ++ b) now =
    Some (body ++ blake2s128 (cg_mac1 st) body ++
            (if fresh now (cg_cookieSet st) then blake2s128 (cg_cookie st) (body ++ blake2s128 (cg_mac1 st) body) else b),
          mkGenerator (cg_mac1 st) (cg_cookie st) (cg_cookieSet st) true (blake2s128 (cg_mac1 st) body) (cg_key st)).
Proof.
  intros Ha Hb. pose proof (len_nonneg body). unfold AddMacs. rewrite !len_app, Ha, Hb.
  replace (len body + (16 + 16) - 16) with (len body + 16) by lia. replace (len body + 16 - 16) with (len body) by lia.
  set (mac1 := blake2s128 (cg_mac1 st) body). assert (len mac1 = 16) as Hm by (unfold len, mac1; by rewrite blake2s128_len).
  rewrite slice_mid by lia. cbn [mbind option_bind]. rewrite slice_prefix by (rewrite !len_app; lia). cbn [mbind option_bind].
  assert (take (Z.to_nat (len body)) (body ++ a ++ b) = body) as -> by (unfold len; rewrite Nat2Z.id; apply take_app_length).
  fold mac1. rewrite copy_at_mid by lia. cbn [mbind option_bind cg_cookieSet cg_cookie]. unfold fresh.
  destruct (CookieRefreshTime <? timeSub now (cg_cookieSet st)); [done|]. cbn [negb].
  rewrite app_assoc. replace (len body + 16) with (len (body ++ mac1)) by (rewrite len_app; lia).
  rewrite slice_prefix by (rewrite !len_app; lia). cbn [mbind option_bind].
  assert (take (Z.to_nat (len (body ++ mac1))) ((body ++ mac1) ++ b) = body ++ mac1) as -> by (unfold len; rewrite Nat2Z.id; apply take_app_length).
  set (mac2 := blake2s128 (cg_cookie st) (body ++ mac1)). assert (len mac2 = 16) by (unfold len, mac2; by rewrite blake2s128_len).
  rewrite <- (app_nil_r b). rewrite copy_at_mid by lia. cbn [mbind option_bind]. by rewrite app_nil_r, <- app_assoc.
Qed.

Lemma CheckMAC1_shape st body a b : len a = 16 -> len b = 16 ->
  CheckMAC1 st (body ++ a ++ b) = Some (str_eqb (blake2s128 (ck_mac1 st) body) a).
Proof.
  intros Ha Hb. pose proof (len_nonneg body). unfold CheckMAC1. rewrite !len_app, Ha, Hb.
  replace (len body + (16 + 16) - 16 - 16) with (len body) by lia.
  rewrite slice_prefix by (rewrite !len_app; lia). cbn [mbind option_bind]. rewrite slice_mid by lia. cbn [mbind option_bind].
  unfold len. by rewrite Nat2Z.id, take_app_length.
Qed.

Lemma CheckMAC2_shape st body b src now : len b = 16 ->
  CheckMAC2 st (body ++ b) src now =
    Some (fresh now (ck_secretSet st) && str_eqb (blake2s128 (blake2s128 (ck_secret st) src) body) b).
Proof.
  intros Hb. pose proof (len_nonneg body). unfold CheckMAC2, fresh. destruct (CookieRefreshTime <? timeSub now (ck_secretSet st)); [done|].
  cbn [negb andb]. rewrite !len_app, Hb. replace (len body + 16 - 16) with (len body) by lia.
  rewrite slice_prefix by (rewrite !len_app; lia). cbn [mbind option_bind].
  pose proof (slice_mid body b [] (len body + 16) ltac:(lia)) as Hs. rewrite app_nil_r in Hs. rewrite Hs. cbn [mbind option_bind].
  unfold len. by rewrite Nat2Z.id, take_app_length.
Qed.

(** The reply to a message whose MAC1 field is [a]. *)
Lemma CreateReply_shape st body a b recv src ty now r : len a = 16 -> len b = 16 ->
  exists nonce st' r', CreateReply st (body ++ a ++ b) recv src ty now r =
    Some (mkCookieReply ty recv nonce (xaeadSeal (ck_key st) nonce (blake2s128 (ck_secret st') src) a), st', r') /\
    ck_mac1 st' = ck_mac1 st /\ ck_key st' = ck_key st /\
    (fresh now (ck_secretSet st) = true -> st' = st) /\ (fresh now (ck_secretSet st) = false -> ck_secretSet st' = now).
Proof.
  intros Ha Hb. pose proof (len_nonneg body). unfold CreateReply, fresh. rewrite !len_app, Ha, Hb.
  replace (len body + (16 + 16) - 16 - 16) with (len body) by lia.
  destruct (CookieRefreshTime <? timeSub now (ck_secretSet st)); destruct (randRead 32 r) as [secret r1];
    [destruct (randRead 24 r1) as [nonce r2]|destruct (randRead 24 r) as [nonce r2]];
    rewrite slice_mid by lia; cbn [mbind option_bind]; exists nonce; do 2 eexists; (split; [reflexivity|]); done.
Qed.
End Exchange.

Lemma str_eqb_refl s : str_eqb s s = true.
Proof. unfold str_eqb. by apply bool_decide_true. Qed.

(** C20: the cookie exchange works: for two sides set up with the same public key, a
    message that went through AddMacs passes CheckMAC1; the cookie of a reply to it
    is accepted by the side that sent it; and a later message of that side, sent
    while the cookie is at most two minutes old, passes CheckMAC2 from the same
    address exactly as long as the secret of the reply is at most two minutes old. *)
Theorem cookie_exchange `{PrimitiveLaws} (pk : list Z) (ck0 : CookieChecker) (cg0 : CookieGenerator)
    (body1 a1 b1 body2 a2 b2 src : list Z) (recv ty t1 t2 t3 t4 t5 : Z) (r : rng) :
  len a1 = 16 -> len b1 = 16 -> len a2 = 16 -> len b2 = 16 -> 0 <= t2 -> fresh t4 t3 = true ->
  exists msg1 cg1 reply ck1 r1 cg2 msg2 cg3,
    AddMacs (generatorInit cg0 pk) (body1 ++ a1 ++ b1) t1 = Some (msg1, cg1) /\
    CheckMAC1 (checkerInit ck0 pk) msg1 = Some true /\
    CreateReply (checkerInit ck0 pk) msg1 recv src ty t2 r = Some (reply, ck1, r1) /\
    ConsumeReply cg1 reply t3 = (true, cg2) /\
    AddMacs cg2 (body2 ++ a2 ++ b2) t4 = Some (msg2, cg3) /\
    CheckMAC1 ck1 msg2 = Some true /\ CheckMAC2 ck1 msg2 src t5 = Some (fresh t5 t2).
Proof.
  intros Ha1 Hb1 Ha2 Hb2 Ht2 Hfr. set (cgi := generatorInit cg0 pk). set (cki := checkerInit ck0 pk).
  assert (forall k m, len (blake2s128 k m) = 16) as Hmac by (intros; unfold len; by rewrite blake2s128_len).
  set (mac1 := blake2s128 (mac1Key pk) body1).
  set (b1' := if fresh t1 (cg_cookieSet cgi) then blake2s128 (cg_cookie cgi) (body1 ++ mac1) else b1).
  assert (len b1' = 16) as Hb1' by (unfold b1'; destruct (fresh t1 _); [apply Hmac|done]).
  destruct (CreateReply_shape cki body1 mac1 b1' recv src ty t2 r (Hmac _ _) Hb1') as (nonce & ck1 & r1 & Hreply & Hk1 & Hk2 & _ & Hset).
  assert (ck_secretSet ck1 = t2) as Hs2 by (apply Hset; unfold fresh, cki, checkerInit; cbn [ck_secretSet]; by rewrite timeSub_zero).
  set (cg1 := mkGenerator (mac1Key pk) (cg_cookie cgi) (cg_cookieSet cgi) true mac1 (cookieKey pk)).
  assert (AddMacs cgi (body1 ++ a1 ++ b1) t1 = Some (body1 ++ mac1 ++ b1', cg1)) as H1 by (rewrite AddMacs_shape by done; reflexivity).
  set (cookie := blake2s128 (ck_secret ck1) src). set (cg2 := mkGenerator (mac1Key pk) cookie t3 true mac1 (cookieKey pk)).
  set (mac2 := blake2s128 (mac1Key pk) body2).
  assert (AddMacs cg2 (body2 ++ a2 ++ b2) t4 = Some (body2 ++ mac2 ++ blake2s128 cookie (body2 ++ mac2),
    mkGenerator (mac1Key pk) cookie t3 true mac2 (cookieKey pk))) as H2.
  { rewrite AddMacs_shape by done. cbn [cg2 cg_cookieSet cg_cookie cg_mac1 cg_key]. by rewrite Hfr. }
  do 8 eexists. split; [exact H1|]. split; [rewrite CheckMAC1_shape by (exact (Hmac _ _) || exact Hb1'); f_equal; apply str_eqb_refl|].
  split; [exact Hreply|]. split; [unfold ConsumeReply; cbn [cg1 cg_hasLastMAC1 negb cg_key cr_Nonce cr_Cookie cg_lastMAC1];
    change (ck_key cki) with (cookieKey pk); by rewrite xaeadOpen_seal|].
  split; [exact H2|]. split.
  - rewrite CheckMAC1_shape by apply Hmac. rewrite Hk1. f_equal. apply str_eqb_refl.
  - rewrite app_assoc, CheckMAC2_shape by apply Hmac. by rewrite Hs2, str_eqb_refl, andb_true_r.
Qed.

#[local] Existing Instance toyPrimitives.
#[local] Existing Instance toy_laws.

Lemma cookie_exchange_witness :
  exists msg1 cg1 reply ck1 r1 cg2 msg2 cg3,
    AddMacs (generatorInit (mkGenerator [] [] 0 false [] []) (replicate 32 9)) (replicate 116 1 ++ replicate 16 0 ++ replicate 16 0) 50 = Some (msg1, cg1) /\
    CheckMAC1 (checkerInit (mkChecker [] [] 0 []) (replicate 32 9)) msg1 = Some true /\
    CreateReply (checkerInit (mkChecker [] [] 0 []) (replicate 32 9)) msg1 7 [10; 0; 0; 1] 3 100 (fun i => Z.of_nat i) = Some (reply, ck1, r1) /\
    ConsumeReply cg1 reply 200 = (true, cg2) /\
    AddMacs cg2 (replicate 116 2 ++ replicate 16 0 ++ replicate 16 0) 300 = Some (msg2, cg3) /\
    CheckMAC1 ck1 msg2 = Some true /\ CheckMAC2 ck1 msg2 [10; 0; 0; 1] 400 = Some (fresh 400 100).
Proof.
  apply (cookie_exchange (replicate 32 9) (mkChecker [] [] 0 []) (mkGenerator [] [] 0 false [] []) (replicate 116 1) (replicate 16 0) (replicate 16 0)
    (replicate 116 2) (replicate 16 0) (replicate 16 0) [10; 0; 0; 1] 7 3 50 100 200 300 400 (fun i => Z.of_nat i)); try reflexivity. lia.
Defined.
