(* ===== verification/NoiseTypes.v ===== *)
(** * NoiseTypes: keys and wire messages

    Keys (src/device/noise-types.go, noise-helpers.go) and the fixed-size messages of
    src/device/noise-protocol.go with their little-endian encoding by encoding/binary:
    [Write] concatenates the fields, [Read] cuts them off in order and fails on a
    short input. Byte arrays are lists whose lengths the well-formedness predicates
    state. *)
From S2P Require Import Prelude GoLib Crypto Cookie.
#[local] Open Scope Z_scope.

Definition NoisePublicKeySize : Z := 32.
Definition NoisePrivateKeySize : Z := 32.
Definition NoisePresharedKeySize : Z := 32.

Definition zeroKey : list Z := replicate 32 0.

(** ** Keys from hexadecimal text *)

(** The new content of [dst] and whether an error is returned. *)
Definition loadExactHex (dst src : list Z) : bool * list Z :=
  match hexDecode src with
  | None => (false, dst)
  | Some s => if len s =? len dst then (true, s) else (false, dst)
  end.

Definition Equals (key tar : list Z) : bool := bool_decide (key = tar).
Definition IsZero (key : list Z) : bool := Equals key zeroKey.

Definition clamp (sk : list Z) : list Z :=
  let sk := alter (fun b => Z.land b 248) 0%nat sk in
  alter (fun b => Z.lor (Z.land b 127) 64) 31%nat sk.

Definition PrivateKeyFromHex (key src : list Z) : bool * list Z :=
  let '(ok, key) := loadExactHex key src in (ok, clamp key).
Definition PrivateKeyFromMaybeZeroHex (key src : list Z) : bool * list Z :=
  let '(ok, key) := loadExactHex key src in
  if IsZero key then (ok, key) else (ok, clamp key).
Definition PublicKeyFromHex (key src : list Z) : bool * list Z := loadExactHex key src.
Definition PresharedKeyFromHex (key src : list Z) : bool * list Z := loadExactHex key src.

(** ** Key pairs and shared secrets *)

(** The constant-time loop: [acc] stays 1 while the bytes are zero. *)
Definition isZero (val : list Z) : bool :=
  foldl (fun acc b => Z.land acc (if b =? 0 then 1 else 0)) 1 val =? 1.

Definition newPrivateKey (r : rng) : list Z * rng :=
  let '(sk, r) := randRead 32 r in (clamp sk, r).

Section Keys.
Context `{Primitives}.
Definition publicKey (sk : list Z) : list Z := scalarBaseMult sk.

(** The secret, and whether it is usable: an all-zero secret is an error. *)
Definition sharedSecret (sk pk : list Z) : list Z * bool :=
  let ss := scalarMult sk pk in (ss, negb (isZero ss)).
End Keys.

(** ** Messages *)

Definition MessageUnknownType : Z := 0.
Definition MessageInitiationType : Z := 1.
Definition MessageResponseType : Z := 2.
Definition MessageCookieReplyType : Z := 3.
Definition MessageTransportType : Z := 4.

Definition MessageInitiationSize : Z := 148.
Definition MessageResponseSize : Z := 92.
Definition MessageCookieReplySize : Z := 64.
Definition MessageTransportHeaderSize : Z := 16.
Definition MessageTransportSize : Z := MessageTransportHeaderSize + 16.
Definition MessageKeepaliveSize : Z := MessageTransportSize.
Definition MessageHandshakeSize : Z := MessageInitiationSize.

Definition MessageTransportOffsetReceiver : Z := 4.
Definition MessageTransportOffsetCounter : Z := 8.
Definition MessageTransportOffsetContent : Z := 16.

Record MessageInitiation := mkInitiation {
  mi_Type : Z; mi_Sender : Z; mi_Ephemeral : list Z; mi_Static : list Z; mi_Timestamp : list Z; mi_MAC1 : list Z; mi_MAC2 : list Z;
}.
Record MessageResponse := mkResponse {
  mr_Type : Z; mr_Sender : Z; mr_Receiver : Z; mr_Ephemeral : list Z; mr_Empty : list Z; mr_MAC1 : list Z; mr_MAC2 : list Z;
}.

(** The receive path replaces the type on the wire by the canonical one. *)
Definition retypeInitiation (ty : Z) (m : MessageInitiation) : MessageInitiation :=
  mkInitiation ty (mi_Sender m) (mi_Ephemeral m) (mi_Static m) (mi_Timestamp m) (mi_MAC1 m) (mi_MAC2 m).
Definition retypeResponse (ty : Z) (m : MessageResponse) : MessageResponse :=
  mkResponse ty (mr_Sender m) (mr_Receiver m) (mr_Ephemeral m) (mr_Empty m) (mr_MAC1 m) (mr_MAC2 m).

(** [binary.Write] in little-endian order. *)
Definition writeInitiation (m : MessageInitiation) : list Z :=
  le_bytes 4 (mi_Type m) ++ le_bytes 4 (mi_Sender m) ++ mi_Ephemeral m ++ mi_Static m ++ mi_Timestamp m ++ mi_MAC1 m ++ mi_MAC2 m.
Definition writeResponse (m : MessageResponse) : list Z :=
  le_bytes 4 (mr_Type m) ++ le_bytes 4 (mr_Sender m) ++ le_bytes 4 (mr_Receiver m) ++ mr_Ephemeral m ++ mr_Empty m ++ mr_MAC1 m ++ mr_MAC2 m.
Definition writeCookieReply (m : MessageCookieReply) : list Z :=
  le_bytes 4 (cr_Type m) ++ le_bytes 4 (cr_Receiver m) ++ cr_Nonce m ++ cr_Cookie m.

(** A reader: the next [n] bytes, or nothing when fewer are left ([io.ErrUnexpectedEOF]). *)
Definition readN (n : nat) (b : list Z) : option (list Z * list Z) :=
  if decide (n <= length b)%nat then Some (take n b, drop n b) else None.

(** [binary.Read] in little-endian order; bytes behind the message are not read. *)
Definition readInitiation (b : list Z) : option MessageInitiation :=
  '(ty, b) ← readN 4 b; '(snd_, b) ← readN 4 b; '(eph, b) ← readN 32 b; '(st, b) ← readN 48 b;
  '(ts, b) ← readN 28 b; '(m1, b) ← readN 16 b; '(m2, _) ← readN 16 b;
  Some (mkInitiation (le_val ty) (le_val snd_) eph st ts m1 m2).
Definition readResponse (b : list Z) : option MessageResponse :=
  '(ty, b) ← readN 4 b; '(snd_, b) ← readN 4 b; '(rcv, b) ← readN 4 b; '(eph, b) ← readN 32 b;
  '(em, b) ← readN 16 b; '(m1, b) ← readN 16 b; '(m2, _) ← readN 16 b;
  Some (mkResponse (le_val ty) (le_val snd_) (le_val rcv) eph em m1 m2).
Definition readCookieReply (b : list Z) : option MessageCookieReply :=
  '(ty, b) ← readN 4 b; '(rcv, b) ← readN 4 b; '(nonce, b) ← readN 24 b; '(ck, _) ← readN 32 b;
  Some (mkCookieReply (le_val ty) (le_val rcv) nonce ck).

(** The values of the Go types. *)
Definition initiation_wf (m : MessageInitiation) : Prop :=
  is_u32 (mi_Type m) /\ is_u32 (mi_Sender m) /\ length (mi_Ephemeral m) = 32%nat /\ length (mi_Static m) = 48%nat /\
  length (mi_Timestamp m) = 28%nat /\ length (mi_MAC1 m) = 16%nat /\ length (mi_MAC2 m) = 16%nat.
Definition response_wf (m : MessageResponse) : Prop :=
  is_u32 (mr_Type m) /\ is_u32 (mr_Sender m) /\ is_u32 (mr_Receiver m) /\ length (mr_Ephemeral m) = 32%nat /\
  length (mr_Empty m) = 16%nat /\ length (mr_MAC1 m) = 16%nat /\ length (mr_MAC2 m) = 16%nat.
Definition cookieReply_wf (m : MessageCookieReply) : Prop :=
  is_u32 (cr_Type m) /\ is_u32 (cr_Receiver m) /\ length (cr_Nonce m) = 24%nat /\ length (cr_Cookie m) = 32%nat.

Lemma readN_app n a b : length a = n -> readN n (a ++ b) = Some (a, b).
Proof.
  intros <-. unfold readN. rewrite decide_True by (rewrite length_app; lia). by rewrite take_app_length, drop_app_length.
Qed.
Lemma readN_all n a : length a = n -> readN n a = Some (a, []).
Proof. intros Ha. rewrite <- (app_nil_r a) at 1. by apply readN_app. Qed.
Lemma le_val_u32 v : is_u32 v -> le_val (le_bytes 4 v) = v.
Proof. intros H. apply le_val_bytes. unfold is_u32 in H. lia. Qed.

Ltac read_fields :=
  repeat first [rewrite readN_app by (rewrite ?length_le_bytes; done) | rewrite readN_all by (rewrite ?length_le_bytes; done)];
  cbn [mbind option_bind]; rewrite ?le_val_u32 by done.

Lemma readInitiation_write m : initiation_wf m -> readInitiation (writeInitiation m) = Some m.
Proof. intros (? & ? & ? & ? & ? & ? & ?). unfold readInitiation, writeInitiation. do 7 (read_fields). by destruct m. Qed.
Lemma readResponse_write m : response_wf m -> readResponse (writeResponse m) = Some m.
Proof. intros (? & ? & ? & ? & ? & ? & ?). unfold readResponse, writeResponse. do 7 (read_fields). by destruct m. Qed.
Lemma readCookieReply_write m : cookieReply_wf m -> readCookieReply (writeCookieReply m) = Some m.
Proof. intros (? & ? & ? & ?). unfold readCookieReply, writeCookieReply. do 4 (read_fields). by destruct m. Qed.

Lemma writeInitiation_len m : initiation_wf m -> len (writeInitiation m) = MessageInitiationSize.
Proof. intros (? & ? & ? & ? & ? & ? & ?). unfold writeInitiation, len. rewrite !length_app, !length_le_bytes. by repeat match goal with E : length _ = _ |- _ => rewrite E; clear E end. Qed.
Lemma writeResponse_len m : response_wf m -> len (writeResponse m) = MessageResponseSize.
Proof. intros (? & ? & ? & ? & ? & ? & ?). unfold writeResponse, len. rewrite !length_app, !length_le_bytes. by repeat match goal with E : length _ = _ |- _ => rewrite E; clear E end. Qed.
Lemma writeCookieReply_len m : cookieReply_wf m -> len (writeCookieReply m) = MessageCookieReplySize.
Proof. intros (? & ? & ? & ?). unfold writeCookieReply, len. rewrite !length_app, !length_le_bytes. by repeat match goal with E : length _ = _ |- _ => rewrite E; clear E end. Qed.

(** every handshake message has its advertised size on the wire and decodes to itself. *)
Theorem handshake_messages_roundtrip (i : MessageInitiation) (r : MessageResponse) (c : MessageCookieReply) :
  initiation_wf i -> response_wf r -> cookieReply_wf c ->
  (len (writeInitiation i) = MessageInitiationSize /\ readInitiation (writeInitiation i) = Some i) /\
  (len (writeResponse r) = MessageResponseSize /\ readResponse (writeResponse r) = Some r) /\
  (len (writeCookieReply c) = MessageCookieReplySize /\ readCookieReply (writeCookieReply c) = Some c).
Proof.
  intros. split_and!; auto using writeInitiation_len, readInitiation_write, writeResponse_len, readResponse_write, writeCookieReply_len, readCookieReply_write.
Qed.

Lemma handshake_messages_roundtrip_witness :
  (len (writeInitiation (mkInitiation 1 77 (replicate 32 9) (replicate 48 8) (replicate 28 7) (replicate 16 6) (replicate 16 5))) = MessageInitiationSize /\
   readInitiation (writeInitiation (mkInitiation 1 77 (replicate 32 9) (replicate 48 8) (replicate 28 7) (replicate 16 6) (replicate 16 5))) =
     Some (mkInitiation 1 77 (replicate 32 9) (replicate 48 8) (replicate 28 7) (replicate 16 6) (replicate 16 5))) /\
  (len (writeResponse (mkResponse 2 77 78 (replicate 32 9) (replicate 16 8) (replicate 16 6) (replicate 16 5))) = MessageResponseSize /\
   readResponse (writeResponse (mkResponse 2 77 78 (replicate 32 9) (replicate 16 8) (replicate 16 6) (replicate 16 5))) =
     Some (mkResponse 2 77 78 (replicate 32 9) (replicate 16 8) (replicate 16 6) (replicate 16 5))) /\
  (len (writeCookieReply (mkCookieReply 3 77 (replicate 24 9) (replicate 32 8))) = MessageCookieReplySize /\
   readCookieReply (writeCookieReply (mkCookieReply 3 77 (replicate 24 9) (replicate 32 8))) = Some (mkCookieReply 3 77 (replicate 24 9) (replicate 32 8))).
Proof. apply handshake_messages_roundtrip; vm_compute; repeat split; discriminate. Defined.

(** ** Keys *)

Lemma isZero_acc acc val : (acc = 0 \/ acc = 1) ->
  foldl (fun a b => Z.land a (if b =? 0 then 1 else 0)) acc val = if decide (acc = 1 /\ Forall (fun b => b = 0) val) then 1 else 0.
Proof.
  revert acc. induction val as [|b val IH]; intros acc Hacc.
  - simpl. destruct Hacc as [->| ->]; [by rewrite decide_False by naive_solver|]. by rewrite decide_True.
  - simpl. rewrite IH by (destruct Hacc as [->| ->]; destruct (b =? 0); naive_solver).
    destruct (Z.eqb_spec b 0) as [->|Hb], Hacc as [->| ->]; simpl; repeat case_decide; try done; exfalso; rewrite ?Forall_cons in *; naive_solver.
Qed.

Lemma isZero_spec val : isZero val = true <-> Forall (fun b => b = 0) val.
Proof.
  unfold isZero. rewrite isZero_acc by lia. case_decide as Hd; [|split; [done|]; intros; exfalso; naive_solver]. split; [intros _; apply Hd|done].
Qed.

Lemma clamp_length sk : length (clamp sk) = length sk.
Proof. unfold clamp. by rewrite !length_alter. Qed.

Lemma clamp_byte0 b : Z.land (Z.land b 248) 248 = Z.land b 248.
Proof. by rewrite <- Z.land_assoc. Qed.
Lemma clamp_byte31 b : Z.lor (Z.land (Z.lor (Z.land b 127) 64) 127) 64 = Z.lor (Z.land b 127) 64.
Proof. rewrite Z.land_lor_distr_l, <- Z.land_assoc. change (Z.land 127 127) with 127. change (Z.land 64 127) with 64. by rewrite <- Z.lor_assoc, Z.lor_diag. Qed.

Lemma alter_idem_at {A} (f : A -> A) (l : list A) i : (forall x, f (f x) = f x) -> alter f i (alter f i l) = alter f i l.
Proof. intros Hf. rewrite list_alter_alter_eq. apply list_alter_ext; [|done]. intros x _. apply Hf. Qed.

Lemma clamp_idem sk : clamp (clamp sk) = clamp sk.
Proof.
  unfold clamp. rewrite (list_alter_alter_ne _ _ (alter _ 0%nat sk) 0%nat 31%nat) by done.
  rewrite alter_idem_at by (intros; apply clamp_byte31). rewrite alter_idem_at; [done|]. intros. apply clamp_byte0.
Qed.
