(* ===== verification/NetIP.v ===== *)
(** * NetIP: addresses, prefixes and address-port pairs of net/netip as text

    Parsing and printing as the package documents and implements them; an address is
    its 4 or 16 bytes and a zone. Used by the configuration protocol and the binds. *)
From S2P Require Import Prelude GoLib.
#[local] Open Scope Z_scope.

Record Addr := mkAddr { ad_bytes : list Z; ad_zone : list Z }.
#[export] Instance Addr_eq_dec : EqDecision Addr.
Proof. solve_decision. Defined.

Definition Is4 (a : Addr) : bool := len (ad_bytes a) =? 4.
Definition Is6 (a : Addr) : bool := len (ad_bytes a) =? 16.

(** ** Parsing *)

(** parseIPv4Fields: [val] and [digLen] of the octet being read, the octets read so
    far, and whether the previous byte was a dot (or there is none). *)
Fixpoint ipv4Fields (s : list Z) (val digLen : Z) (fields : list Z) (afterDot : bool) : option (list Z) :=
  match s with
  | [] => if (length fields =? 3)%nat && negb afterDot then Some (fields ++ [val]) else None
  | c :: s' =>
      if is_digit c then
        if (digLen =? 1) && (val =? 0) then None else
        let val := val * 10 + (c - 48) in
        if 255 <? val then None else ipv4Fields s' val (digLen + 1) fields false
      else if c =? 46 then
        if afterDot || (length fields =? 3)%nat then None
        else ipv4Fields s' 0 0 (fields ++ [val]) true
      else None
  end.
Definition parseIPv4Fields (s : list Z) : option (list Z) := ipv4Fields s 0 0 [] true.

(** The hex digits at the front: value, count and rest; [None] past four digits. *)
Fixpoint hexGroup (s : list Z) (acc : Z) (off : nat) : option (Z * nat * list Z) :=
  match s with
  | c :: s' =>
      match hexVal c with
      | Some d => if (3 <? off)%nat then None else hexGroup s' (acc * 16 + d) (S off)
      | None => Some (acc, off, s)
      end
  | [] => Some (acc, off, [])
  end.

(** The loop of parseIPv6: bytes so far and the position of the ellipsis. Every round
    consumes a group, so eight rounds are all there can be. *)
Fixpoint ipv6Loop (fuel : nat) (s ip : list Z) (ellipsis : option nat) : option (list Z * list Z * option nat) :=
  match fuel with
  | O => Some (s, ip, ellipsis)
  | S fuel =>
      if (16 <=? length ip)%nat then Some (s, ip, ellipsis) else
      '(acc, off, rest) ← hexGroup s 0 0;
      if (off =? 0)%nat then None else
      match rest with
      | 46 :: _ =>
          if (if ellipsis then false else negb (length ip =? 12)%nat) || (12 <? length ip)%nat then None else
          v4 ← parseIPv4Fields s; Some ([], ip ++ v4, ellipsis)
      | _ =>
          let ip := ip ++ [acc / 256; acc mod 256] in
          match rest with
          | [] => Some ([], ip, ellipsis)
          | 58 :: [] => None
          | 58 :: 58 :: rest =>
              match ellipsis with
              | Some _ => None
              | None => match rest with [] => Some ([], ip, Some (length ip)) | _ => ipv6Loop fuel rest ip (Some (length ip)) end
              end
          | 58 :: rest => ipv6Loop fuel rest ip ellipsis
          | _ => None
          end
      end
  end.

Definition parseIPv6 (s : list Z) : option Addr :=
  '(s, zone) ← match CutByte s 37 with
               | None => Some (s, [])
               | Some (s, []) => None
               | Some (s, zone) => Some (s, zone)
               end;
  match s with
  | [58; 58] => Some (mkAddr (replicate 16 0) zone)
  | _ =>
      '(s, ip, ellipsis) ← match s with 58 :: 58 :: s => ipv6Loop 8 s [] (Some O) | _ => ipv6Loop 8 s [] None end;
      if negb (len s =? 0) then None else
      if (length ip <? 16)%nat then
        match ellipsis with
        | None => None
        | Some e => Some (mkAddr (take e ip ++ replicate (16 - length ip) 0 ++ drop e ip) zone)
        end
      else match ellipsis with Some _ => None | None => Some (mkAddr ip zone) end
  end.

(** The first of dot, colon and percent decides. *)
Fixpoint addrKind (s : list Z) : Z :=
  match s with
  | [] => 0
  | c :: s => if (c =? 46) || (c =? 58) || (c =? 37) then c else addrKind s
  end.
Definition ParseAddr (s : list Z) : option Addr :=
  if addrKind s =? 46 then b ← parseIPv4Fields s; Some (mkAddr b [])
  else if addrKind s =? 58 then parseIPv6 s
  else None.

(** Around the last occurrence of a byte. *)
Fixpoint lastCut (s : list Z) (c : Z) : option (list Z * list Z) :=
  match s with
  | [] => None
  | x :: s' =>
      match lastCut s' c with
      | Some (a, b) => Some (x :: a, b)
      | None => if x =? c then Some ([], s') else None
      end
  end.

(** net.SplitHostPort *)
Definition SplitHostPort (s : list Z) : option (list Z * list Z) :=
  '(h, port) ← lastCut s 58;
  match s with
  | 91 :: _ =>
      match CutByte (drop 1 h) 93 with
      | Some (host, []) => if bool_decide (91 ∈ drop 1 s) || bool_decide (93 ∈ port) then None else Some (host, port)
      | _ => None
      end
  | _ => if bool_decide (58 ∈ h) || bool_decide (91 ∈ s) || bool_decide (93 ∈ s) then None else Some (h, port)
  end.
(** net.JoinHostPort *)
Definition JoinHostPort (host port : list Z) : list Z :=
  if bool_decide (58 ∈ host) then 91 :: host ++ 93 :: 58 :: port else host ++ 58 :: port.

Definition ParsePrefix (s : list Z) : option (Addr * Z) :=
  '(a, bitsStr) ← lastCut s 47;
  ip ← ParseAddr a;
  if Is6 ip && negb (len (ad_zone ip) =? 0) then None else
  if (1 <? len bitsStr) && match bitsStr with c :: _ => (c <? 49) || (57 <? c) | [] => false end then None else
  bits ← Atoi bitsStr;
  if (bits <? 0) || ((if Is6 ip then 128 else 32) <? bits) then None else Some (ip, bits).

Definition ParseAddrPort (s : list Z) : option (Addr * Z) :=
  '(ip, port) ← lastCut s 58;
  if (len ip =? 0) || (len port =? 0) then None else
  '(ip, v6) ← match ip with
              | 91 :: rest => match reverse rest with 93 :: r => Some (reverse r, true) | _ => None end
              | _ => Some (ip, false)
              end;
  port ← ParseUint port 16;
  a ← ParseAddr ip;
  if (v6 : bool) && Is4 a then None else if negb v6 && Is6 a then None else Some (a, port).

(** ** Printing *)

Definition string4 (b : list Z) : list Z :=
  match b with [a; b; c; d] => Itoa a ++ 46 :: Itoa b ++ 46 :: Itoa c ++ 46 :: Itoa d | _ => [] end.

Fixpoint groups (b : list Z) : list Z :=
  match b with hi :: lo :: b => hi * 256 + lo :: groups b | _ => [] end.

(** Number of leading zero groups. *)
Fixpoint zeroRun (g : list Z) : nat := match g with 0 :: g => S (zeroRun g) | _ => O end.

(** The longest run of at least two zero groups, the first of equals: start and length. *)
Fixpoint longestRun (g : list Z) (i : nat) (best : nat * nat) : nat * nat :=
  match g with
  | [] => best
  | _ :: g' =>
      let l := zeroRun g in
      longestRun g' (S i) (if (1 <? l)%nat && (best.2 <? l)%nat then (i, l) else best)
  end.

(** [appendHex] of a 16-bit group, without leading zeros. *)
Definition appendHex (x : Z) : list Z :=
  (if 0x1000 <=? x then [hexDigit (x / 0x1000)] else []) ++
  (if 0x100 <=? x then [hexDigit (x / 0x100 mod 16)] else []) ++
  (if 0x10 <=? x then [hexDigit (x / 0x10 mod 16)] else []) ++ [hexDigit (x mod 16)].

Fixpoint joinGroups (g : list Z) : list Z :=
  match g with [] => [] | [x] => appendHex x | x :: g => appendHex x ++ 58 :: joinGroups g end.

Definition string6 (b : list Z) : list Z :=
  let g := groups b in
  let '(start, n) := longestRun g 0 (O, O) in
  if (n =? 0)%nat then joinGroups g
  else joinGroups (take start g) ++ [58; 58] ++ joinGroups (drop (start + n) g).

Definition Is4In6 (a : Addr) : bool :=
  Is6 a && bool_decide (take 12 (ad_bytes a) = replicate 10 0 ++ [255; 255]).

Definition withZone (s zone : list Z) : list Z := match zone with [] => s | _ => s ++ 37 :: zone end.

Definition AddrString (a : Addr) : list Z :=
  if Is4 a then string4 (ad_bytes a)
  else if Is4In6 a then withZone (str "::ffff:" ++ string4 (drop 12 (ad_bytes a))) (ad_zone a)
  else withZone (string6 (ad_bytes a)) (ad_zone a).

Definition AddrPortString (a : Addr) (port : Z) : list Z :=
  if Is4 a then AddrString a ++ 58 :: Itoa port else 91 :: AddrString a ++ [93; 58] ++ Itoa port.

Definition PrefixString (a : Addr) (bits : Z) : list Z := AddrString a ++ 47 :: Itoa bits.

Example netip_samples :
  ParsePrefix (str "10.0.0.0/8") = Some (mkAddr [10; 0; 0; 0] [], 8) /\
  ParsePrefix (str "2001:db8::/32") = Some (mkAddr ([32; 1; 13; 184] ++ replicate 12 0) [], 32) /\
  ParseAddr (str "::ffff:1.2.3.4") = Some (mkAddr (replicate 10 0 ++ [255; 255; 1; 2; 3; 4]) []) /\
  ParseAddr (str "fe80::1%eth0") = Some (mkAddr ([254; 128] ++ replicate 13 0 ++ [1]) (str "eth0")) /\
  ParseAddrPort (str "[::1]:51820") = Some (mkAddr (replicate 15 0 ++ [1]) [], 51820) /\
  ParseAddr (str "1.2.3") = None /\ ParseAddr (str "1.2.3.04") = None /\ ParseAddr (str "1::2::3") = None /\ ParsePrefix (str "10.0.0.0/33") = None /\
  PrefixString (mkAddr ([32; 1; 13; 184] ++ replicate 12 0) []) 32 = str "2001:db8::/32" /\
  AddrPortString (mkAddr (replicate 15 0 ++ [1]) []) 51820 = str "[::1]:51820" /\
  AddrString (mkAddr [0; 1; 0; 0; 0; 0; 0; 0; 0; 1; 0; 0; 0; 0; 0; 1] []) = str "1::1:0:0:1".
Proof. vm_compute. repeat split. Qed.

(** ** Hosts and ports *)

Lemma lastCut_Some s c a b : lastCut s c = Some (a, b) <-> s = a ++ c :: b /\ c ∉ b.
Proof.
  assert (forall s, lastCut s c = None -> c ∉ s) as Hnone.
  { clear. induction s as [|x s IH]; intros H; [set_solver|]. cbn [lastCut] in H. destruct (lastCut s c) as [[? ?]|]; [done|]. destruct (Z.eqb_spec x c); [done|]. set_solver. }
  split.
  - revert a b. induction s as [|x s IH]; intros a b H; cbn [lastCut] in H; [done|]. destruct (lastCut s c) as [[a' b']|] eqn:E.
    + injection H as <- <-. destruct (IH _ _ eq_refl) as [-> ?]. done.
    + destruct (Z.eqb_spec x c) as [->|]; [|done]. injection H as <- <-. auto.
  - intros [-> Hb]. induction a as [|x a IH]; cbn [app lastCut].
    + destruct (lastCut b c) as [[a' b']|] eqn:E; [|by rewrite Z.eqb_refl]. exfalso. clear Hnone. revert a' b' E Hb. induction b as [|y b IHb]; intros a' b' E Hb; cbn [lastCut] in E; [done|].
      destruct (lastCut b c) as [[? ?]|]; [eapply IHb; [done|set_solver]|]. destruct (Z.eqb_spec y c); [set_solver|done].
    + by rewrite IH.
Qed.
Lemma CutByte_Some s c a b : CutByte s c = Some (a, b) <-> s = a ++ c :: b /\ c ∉ a.
Proof.
  split.
  - revert a b. induction s as [|x s IH]; intros a b H; cbn [CutByte] in H; [done|]. destruct (Z.eqb_spec x c) as [->|]; [injection H as <- <-; set_solver|].
    destruct (CutByte s c) as [[a' b']|]; [|done]. injection H as <- <-. destruct (IH _ _ eq_refl) as [-> ?]. split; [done|set_solver].
  - intros [-> Ha]. induction a as [|x a IH]; cbn [app CutByte]; [by rewrite Z.eqb_refl|]. destruct (Z.eqb_spec x c); [set_solver|]. rewrite IH by set_solver. done.
Qed.

(** A byte that is not an opening bracket. *)
Lemma not_bracket {A} x (u v : A) : x <> 91 -> match x with 91 => u | _ => v end = v.
Proof. intros H. destruct x as [|q|q]; try done. do 7 (destruct q as [q|q|]; try done). Qed.

(** What SplitHostPort returns: text without brackets, the port without a colon. *)
Definition hostPortOk (host port : list Z) : Prop := 91 ∉ host /\ 93 ∉ host /\ 58 ∉ port /\ 91 ∉ port /\ 93 ∉ port.
Lemma split_host_port_ok s host port : SplitHostPort s = Some (host, port) -> hostPortOk host port.
Proof.
  unfold SplitHostPort. destruct (lastCut s 58) as [[h p]|] eqn:E; [|done]. apply lastCut_Some in E as [-> Hp]. cbn [mbind option_bind].
  assert (forall h, 91 ∉ h -> 93 ∉ h -> (h, p) = (host, port) -> 91 ∉ p -> 93 ∉ p -> hostPortOk host port) as Hok by (intros ? ? ? [= <- <-] ? ?; by split_and!).
  destruct h as [|x h]; cbn [app drop].
  - destruct (_ || _) eqn:Eb; [done|]. intros [= <- <-]. apply orb_false_iff in Eb as [Eb E2%bool_decide_eq_false]. apply orb_false_iff in Eb as [_ E1%bool_decide_eq_false]. apply (Hok []); set_solver.
  - destruct (decide (x = 91)) as [->|Hx].
    + rewrite !drop_0. destruct (CutByte h 93) as [[hh [|? ?]]|] eqn:Ec; try done. apply CutByte_Some in Ec as [-> Hh]. destruct (_ || _) eqn:Eb; [done|]. intros [= <- <-].
      apply orb_false_iff in Eb as [E1%bool_decide_eq_false E2%bool_decide_eq_false]. apply (Hok hh); set_solver.
    + rewrite not_bracket by done. destruct (_ || _) eqn:Eb; [done|]. intros [= <- <-]. apply orb_false_iff in Eb as [Eb E2%bool_decide_eq_false]. apply orb_false_iff in Eb as [_ E1%bool_decide_eq_false]. apply (Hok (x :: h)); set_solver.
Qed.
(** And such text is what it returns for their joining. *)
Theorem split_join_host_port host port : hostPortOk host port -> SplitHostPort (JoinHostPort host port) = Some (host, port).
Proof.
  intros (H1 & H2 & H3 & H4 & H5). unfold SplitHostPort, JoinHostPort. destruct (decide (58 ∈ host)) as [Hc|Hc]; [rewrite bool_decide_eq_true_2 by done|rewrite bool_decide_eq_false_2 by done].
  - assert (lastCut (91 :: host ++ 93 :: 58 :: port) 58 = Some (91 :: host ++ [93], port)) as -> by (apply lastCut_Some; split; [cbn; by rewrite <- app_assoc|done]). cbn [mbind option_bind drop]. rewrite !drop_0.
    assert (CutByte (host ++ [93]) 93 = Some (host, [])) as -> by (by apply CutByte_Some). rewrite !bool_decide_eq_false_2 by set_solver. done.
  - assert (lastCut (host ++ 58 :: port) 58 = Some (host, port)) as -> by (by apply lastCut_Some). cbn [mbind option_bind].
    assert (bool_decide (58 ∈ host) || bool_decide (91 ∈ host ++ 58 :: port) || bool_decide (93 ∈ host ++ 58 :: port) = false) as -> by (rewrite !bool_decide_eq_false_2 by set_solver; done).
    destruct host as [|x h]; [done|]. cbn [app]. apply not_bracket. set_solver.
Qed.

Example split_host_port :
  SplitHostPort (str "[fe80::1%eth0]:51820") = Some (str "fe80::1%eth0", str "51820") /\ SplitHostPort (str "192.0.2.1:80") = Some (str "192.0.2.1", str "80") /\
  SplitHostPort (str "fe80::1:80") = None /\ SplitHostPort (str "[::1]80") = None /\ SplitHostPort (str "[::1]x:80") = None /\ SplitHostPort (str "host") = None.
Proof. vm_compute. done. Qed.
