(* ===== verification/DeviceState.v ===== *)
(** * DeviceState: the state the handlers of package device share

    One device with its peers, keypairs and queues (src/device/device.go, peer.go,
    keypair.go, indextable.go, noise-protocol.go, timers.go, send.go, receive.go), and
    the monad its handlers run in. Peers, keypairs and the containers that travel
    through two queues at once are shared by address in the program: they live in
    heaps indexed by locations. A handler reads the clock, draws entropy, calls the
    bind and the TUN device; the streams [w_clock], [w_rng] and [w_ext] hold what
    these answer and [w_sent], [w_tun] what was handed to them. A run that ends in
    [None] is a panic (a nil pointer, an index out of range). *)
From S2P Require Import Prelude GoLib Replay MagicHeader Imitate AllowedIPs Obf Tai64n RateLimiter Crypto Cookie NoiseTypes NetIP.
#[local] Open Scope Z_scope.

(** ** Constants (src/device/constants.go, queueconstants_default.go) *)

Definition second : Z := 10 ^ 9.
Definition RekeyAfterMessages : Z := 2 ^ 60.
Definition RejectAfterMessages : Z := 2 ^ 64 - 2 ^ 13 - 1.
Definition RekeyAfterTime : Z := 120 * second.
Definition RekeyAttemptTime : Z := 90 * second.
Definition RekeyTimeout : Z := 5 * second.
Definition MaxTimerHandshakes : Z := 90 / 5.
Definition RekeyTimeoutJitterMaxMs : Z := 334.
Definition RejectAfterTime : Z := 180 * second.
Definition KeepaliveTimeout : Z := 10 * second.
Definition HandshakeInitationRate : Z := second / 50.
Definition PaddingMultiple : Z := 16.
Definition UnderLoadAfterTime : Z := second.
Definition MaxPeers : Z := 2 ^ 16.
Definition QueueStagedSize : Z := 128.
Definition QueueHandshakeSize : Z := 1024.
Definition MaxSegmentSize : Z := 2 ^ 16 - 1.
Definition MinMessageSize : Z := MessageKeepaliveSize.
Definition MaxMessageSize : Z := MaxSegmentSize.
Definition MaxContentSize : Z := MaxSegmentSize - MessageTransportSize.

(** ** Field updates

    [setter eta proj v r] is the record [r] with the field [proj] replaced by [v];
    [eta] writes the record out by its projections. *)
Ltac setter eta proj v r :=
  let t := eval cbv beta delta [eta] in (eta r) in
  match t with context C [proj r] => let u := context C [v] in exact u end.

(** ** Handshakes *)

Inductive handshakeState :=
  handshakeZeroed | handshakeInitiationCreated | handshakeInitiationConsumed | handshakeResponseCreated | handshakeResponseConsumed.
#[export] Instance handshakeState_eq_dec : EqDecision handshakeState.
Proof. solve_decision. Defined.

Record Handshake := mkHandshake {
  hs_state : handshakeState;
  hs_hash : list Z;
  hs_chainKey : list Z;
  hs_presharedKey : list Z;
  hs_localEphemeral : list Z;
  hs_localIndex : Z;
  hs_remoteIndex : Z;
  hs_remoteStatic : list Z;
  hs_remoteEphemeral : list Z;
  hs_precomputedStaticStatic : list Z;
  hs_lastTimestamp : list Z;
  hs_lastInitiationConsumption : Z;
  hs_lastSentHandshake : Z;
}.
Definition eta_hs (h : Handshake) : Handshake :=
  mkHandshake (hs_state h) (hs_hash h) (hs_chainKey h) (hs_presharedKey h) (hs_localEphemeral h) (hs_localIndex h) (hs_remoteIndex h)
    (hs_remoteStatic h) (hs_remoteEphemeral h) (hs_precomputedStaticStatic h) (hs_lastTimestamp h) (hs_lastInitiationConsumption h) (hs_lastSentHandshake h).
Definition with_state (v : handshakeState) (h : Handshake) : Handshake := ltac:(setter eta_hs hs_state v h).
Definition with_hash (v : list Z) (h : Handshake) : Handshake := ltac:(setter eta_hs hs_hash v h).
Definition with_chainKey (v : list Z) (h : Handshake) : Handshake := ltac:(setter eta_hs hs_chainKey v h).
Definition with_presharedKey (v : list Z) (h : Handshake) : Handshake := ltac:(setter eta_hs hs_presharedKey v h).
Definition with_localEphemeral (v : list Z) (h : Handshake) : Handshake := ltac:(setter eta_hs hs_localEphemeral v h).
Definition with_localIndex (v : Z) (h : Handshake) : Handshake := ltac:(setter eta_hs hs_localIndex v h).
Definition with_remoteIndex (v : Z) (h : Handshake) : Handshake := ltac:(setter eta_hs hs_remoteIndex v h).
Definition with_remoteStatic (v : list Z) (h : Handshake) : Handshake := ltac:(setter eta_hs hs_remoteStatic v h).
Definition with_remoteEphemeral (v : list Z) (h : Handshake) : Handshake := ltac:(setter eta_hs hs_remoteEphemeral v h).
Definition with_precomputedStaticStatic (v : list Z) (h : Handshake) : Handshake := ltac:(setter eta_hs hs_precomputedStaticStatic v h).
Definition with_lastTimestamp (v : list Z) (h : Handshake) : Handshake := ltac:(setter eta_hs hs_lastTimestamp v h).
Definition with_lastInitiationConsumption (v : Z) (h : Handshake) : Handshake := ltac:(setter eta_hs hs_lastInitiationConsumption v h).
Definition with_lastSentHandshake (v : Z) (h : Handshake) : Handshake := ltac:(setter eta_hs hs_lastSentHandshake v h).

(** ** Keypairs and the index table *)

(** An AEAD instance is its key. *)
Record Keypair := mkKeypair {
  kp_sendNonce : Z;
  kp_send : list Z;
  kp_receive : list Z;
  kp_replayFilter : Replay.Filter;
  kp_isInitiator : bool;
  kp_created : Z;
  kp_localIndex : Z;
  kp_remoteIndex : Z;
}.
Definition eta_kp (k : Keypair) : Keypair :=
  mkKeypair (kp_sendNonce k) (kp_send k) (kp_receive k) (kp_replayFilter k) (kp_isInitiator k) (kp_created k) (kp_localIndex k) (kp_remoteIndex k).
Definition with_sendNonce (v : Z) (k : Keypair) : Keypair := ltac:(setter eta_kp kp_sendNonce v k).
Definition with_replayFilter (v : Replay.Filter) (k : Keypair) : Keypair := ltac:(setter eta_kp kp_replayFilter v k).

(** Keypairs are compared by address: the fields are locations of the keypair heap. *)
Record Keypairs := mkKeypairs { current : option positive; previous : option positive; next : option positive }.
Definition eta_kps (k : Keypairs) : Keypairs := mkKeypairs (current k) (previous k) (next k).
Definition with_current (v : option positive) (k : Keypairs) : Keypairs := ltac:(setter eta_kps current v k).
Definition with_previous (v : option positive) (k : Keypairs) : Keypairs := ltac:(setter eta_kps previous v k).
Definition with_next (v : option positive) (k : Keypairs) : Keypairs := ltac:(setter eta_kps next v k).

(** The keypairs a peer refers to. *)
Definition heldBy (ks : Keypairs) : list positive := option_list (current ks) ++ option_list (previous ks) ++ option_list (next ks).

(** A handshake is the field of a peer, so its address is the peer's. *)
Record IndexTableEntry := mkIndexEntry { it_peer : positive; it_handshake : option positive; it_keypair : option positive }.

(** ** Endpoints, timers and queues *)

(** StdNetEndpoint of src/conn/bind_std.go: destination and cached source. *)
Record Endpoint := mkEndpoint { ep_addr : Addr; ep_port : Z; ep_src : list Z }.

Record PeerEndpoint := mkPeerEndpoint { ep_val : option Endpoint; clearSrcOnTx : bool; disableRoaming : bool }.

(** [fires] is the instant the runtime calls the timer's function, [None] when stopped. *)
Record Timer := mkTimer { isPending : bool; fires : option Z }.

Record PeerTimers := mkPeerTimers {
  retransmitHandshake : Timer;
  sendKeepalive : Timer;
  newHandshake : Timer;
  zeroKeyMaterial : Timer;
  persistentKeepalive : Timer;
  handshakeAttempts : Z;
  needAnotherKeepalive : bool;
  sentLastMinuteHandshake : bool;
}.
Definition eta_tm (t : PeerTimers) : PeerTimers :=
  mkPeerTimers (retransmitHandshake t) (sendKeepalive t) (newHandshake t) (zeroKeyMaterial t) (persistentKeepalive t)
    (handshakeAttempts t) (needAnotherKeepalive t) (sentLastMinuteHandshake t).
Definition with_retransmitHandshake (v : Timer) (t : PeerTimers) : PeerTimers := ltac:(setter eta_tm retransmitHandshake v t).
Definition with_sendKeepalive (v : Timer) (t : PeerTimers) : PeerTimers := ltac:(setter eta_tm sendKeepalive v t).
Definition with_newHandshake (v : Timer) (t : PeerTimers) : PeerTimers := ltac:(setter eta_tm newHandshake v t).
Definition with_zeroKeyMaterial (v : Timer) (t : PeerTimers) : PeerTimers := ltac:(setter eta_tm zeroKeyMaterial v t).
Definition with_persistentKeepalive (v : Timer) (t : PeerTimers) : PeerTimers := ltac:(setter eta_tm persistentKeepalive v t).
Definition with_handshakeAttempts (v : Z) (t : PeerTimers) : PeerTimers := ltac:(setter eta_tm handshakeAttempts v t).
Definition with_needAnotherKeepalive (v : bool) (t : PeerTimers) : PeerTimers := ltac:(setter eta_tm needAnotherKeepalive v t).
Definition with_sentLastMinuteHandshake (v : bool) (t : PeerTimers) : PeerTimers := ltac:(setter eta_tm sentLastMinuteHandshake v t).

(** The slice [elem.packet]: part of the element's buffer until an append exceeds it. *)
Inductive packetSlice := NilPacket | InBuffer (off n : Z) | Detached (bytes : list Z).

Record QueueOutboundElement := mkOutElem {
  oe_buffer : list Z;
  oe_packet : packetSlice;
  oe_nonce : Z;
  oe_keypair : option positive;
  oe_peer : option positive;
}.

(** [locked]: handed to the encryption workers and not released by them yet. *)
Record OutContainer := mkOutContainer { oc_locked : bool; oc_elems : list QueueOutboundElement }.

Record QueueInboundElement := mkInElem {
  ie_packet : option (list Z);    (* None: decryption failed *)
  ie_counter : Z;
  ie_keypair : positive;
  ie_endpoint : Endpoint;
}.
Record InContainer := mkInContainer { ic_locked : bool; ic_elems : list QueueInboundElement }.

Record QueueHandshakeElement := mkHsElem { he_msgType : Z; he_packet : list Z; he_endpoint : Endpoint }.

(** ** Peers *)

Record Peer := mkPeer {
  p_isRunning : bool;
  p_keypairs : Keypairs;
  p_handshake : Handshake;
  p_txBytes : Z;
  p_rxBytes : Z;
  p_lastHandshakeNano : Z;
  p_endpoint : PeerEndpoint;
  p_timers : PeerTimers;
  p_staged : list (list QueueOutboundElement);
  p_outbound : list (option positive);     (* None is the nil that stops the routine *)
  p_inbound : list (option positive);
  p_cookieGenerator : CookieGenerator;
  p_persistentKeepaliveInterval : Z;
}.
Definition eta_peer (p : Peer) : Peer :=
  mkPeer (p_isRunning p) (p_keypairs p) (p_handshake p) (p_txBytes p) (p_rxBytes p) (p_lastHandshakeNano p) (p_endpoint p) (p_timers p)
    (p_staged p) (p_outbound p) (p_inbound p) (p_cookieGenerator p) (p_persistentKeepaliveInterval p).
Definition with_isRunning (v : bool) (p : Peer) : Peer := ltac:(setter eta_peer p_isRunning v p).
Definition with_keypairs (v : Keypairs) (p : Peer) : Peer := ltac:(setter eta_peer p_keypairs v p).
Definition with_handshake (v : Handshake) (p : Peer) : Peer := ltac:(setter eta_peer p_handshake v p).
Definition with_txBytes (v : Z) (p : Peer) : Peer := ltac:(setter eta_peer p_txBytes v p).
Definition with_rxBytes (v : Z) (p : Peer) : Peer := ltac:(setter eta_peer p_rxBytes v p).
Definition with_lastHandshakeNano (v : Z) (p : Peer) : Peer := ltac:(setter eta_peer p_lastHandshakeNano v p).
Definition with_endpoint (v : PeerEndpoint) (p : Peer) : Peer := ltac:(setter eta_peer p_endpoint v p).
Definition with_timers (v : PeerTimers) (p : Peer) : Peer := ltac:(setter eta_peer p_timers v p).
Definition with_staged (v : list (list QueueOutboundElement)) (p : Peer) : Peer := ltac:(setter eta_peer p_staged v p).
Definition with_outbound (v : list (option positive)) (p : Peer) : Peer := ltac:(setter eta_peer p_outbound v p).
Definition with_inbound (v : list (option positive)) (p : Peer) : Peer := ltac:(setter eta_peer p_inbound v p).
Definition with_cookieGenerator (v : CookieGenerator) (p : Peer) : Peer := ltac:(setter eta_peer p_cookieGenerator v p).
Definition with_persistentKeepaliveInterval (v : Z) (p : Peer) : Peer := ltac:(setter eta_peer p_persistentKeepaliveInterval v p).

(** ** The device *)

Inductive deviceState := deviceStateDown | deviceStateUp | deviceStateClosed.
#[export] Instance deviceState_eq_dec : EqDecision deviceState.
Proof. solve_decision. Defined.

Record Net := mkNet { n_port : Z; n_fwmark : Z; n_brokenRoaming : bool; n_receivers : Z (* running receive routines *) }.
Record Junk := mkJunk { j_min : Z; j_max : Z; j_count : Z }.
Record Headers := mkHeaders { h_init : magicHeader; h_response : magicHeader; h_cookie : magicHeader; h_transport : magicHeader }.
Record Paddings := mkPaddings { pd_init : Z; pd_response : Z; pd_cookie : Z; pd_transport : Z }.

Record Device := mkDevice {
  d_state : deviceState;
  d_net : Net;
  d_privateKey : list Z;
  d_publicKey : list Z;
  d_keyMap : gmap (list Z) positive;
  d_underLoadUntil : Z;
  d_limiter : Ratelimiter;
  d_allowedips : AllowedIPs.AllowedIPs;
  d_indexTable : gmap Z IndexTableEntry;
  d_cookieChecker : CookieChecker;
  d_encryption : list positive;
  d_decryption : list positive;
  d_handshakes : list QueueHandshakeElement;
  d_mtu : Z;
  d_junk : Junk;
  d_headers : Headers;
  d_paddings : Paddings;
  d_ipackets : list (option obfChain);
  d_imitate : deviceImitate;
}.
Definition eta_dev (d : Device) : Device :=
  mkDevice (d_state d) (d_net d) (d_privateKey d) (d_publicKey d) (d_keyMap d) (d_underLoadUntil d) (d_limiter d) (d_allowedips d) (d_indexTable d)
    (d_cookieChecker d) (d_encryption d) (d_decryption d) (d_handshakes d) (d_mtu d) (d_junk d) (d_headers d) (d_paddings d) (d_ipackets d) (d_imitate d).
Definition with_dstate (v : deviceState) (d : Device) : Device := ltac:(setter eta_dev d_state v d).
Definition with_net (v : Net) (d : Device) : Device := ltac:(setter eta_dev d_net v d).
Definition with_privateKey (v : list Z) (d : Device) : Device := ltac:(setter eta_dev d_privateKey v d).
Definition with_publicKey (v : list Z) (d : Device) : Device := ltac:(setter eta_dev d_publicKey v d).
Definition with_keyMap (v : gmap (list Z) positive) (d : Device) : Device := ltac:(setter eta_dev d_keyMap v d).
Definition with_underLoadUntil (v : Z) (d : Device) : Device := ltac:(setter eta_dev d_underLoadUntil v d).
Definition with_limiter (v : Ratelimiter) (d : Device) : Device := ltac:(setter eta_dev d_limiter v d).
Definition with_allowedips (v : AllowedIPs.AllowedIPs) (d : Device) : Device := ltac:(setter eta_dev d_allowedips v d).
Definition with_indexTable (v : gmap Z IndexTableEntry) (d : Device) : Device := ltac:(setter eta_dev d_indexTable v d).
Definition with_cookieChecker (v : CookieChecker) (d : Device) : Device := ltac:(setter eta_dev d_cookieChecker v d).
Definition with_encryption (v : list positive) (d : Device) : Device := ltac:(setter eta_dev d_encryption v d).
Definition with_decryption (v : list positive) (d : Device) : Device := ltac:(setter eta_dev d_decryption v d).
Definition with_handshakes (v : list QueueHandshakeElement) (d : Device) : Device := ltac:(setter eta_dev d_handshakes v d).
Definition with_mtu (v : Z) (d : Device) : Device := ltac:(setter eta_dev d_mtu v d).
Definition with_junk (v : Junk) (d : Device) : Device := ltac:(setter eta_dev d_junk v d).
Definition with_headers (v : Headers) (d : Device) : Device := ltac:(setter eta_dev d_headers v d).
Definition with_paddings (v : Paddings) (d : Device) : Device := ltac:(setter eta_dev d_paddings v d).
Definition with_ipackets (v : list (option obfChain)) (d : Device) : Device := ltac:(setter eta_dev d_ipackets v d).
Definition with_imitate (v : deviceImitate) (d : Device) : Device := ltac:(setter eta_dev d_imitate v d).

(** ** Zero values *)

Definition zeroTimer : Timer := mkTimer false None.
Definition zeroHandshake : Handshake :=
  mkHandshake handshakeZeroed zeroKey zeroKey zeroKey zeroKey 0 0 zeroKey zeroKey zeroKey zeroTimestamp zeroTime zeroTime.
Definition zeroPeer : Peer :=
  mkPeer false (mkKeypairs None None None) zeroHandshake 0 0 0 (mkPeerEndpoint None false false)
    (mkPeerTimers zeroTimer zeroTimer zeroTimer zeroTimer zeroTimer 0 false false) [] [] []
    (mkGenerator (replicate 32 0) (replicate 16 0) zeroTime false (replicate 16 0) (replicate 32 0)) 0.

(** The fields NewDevice sets; [mtu] is the answer of the TUN device, or the default. *)
Definition newDeviceFields (limiter : Ratelimiter) (mtu : Z) : Device :=
  mkDevice deviceStateDown (mkNet 0 0 false 0) zeroKey zeroKey ∅ 0 limiter AllowedIPs.emptyTable ∅
    (mkChecker (replicate 32 0) (replicate 32 0) zeroTime (replicate 32 0)) [] [] [] mtu (mkJunk 0 0 0)
    (mkHeaders (mkMagicHeader MessageInitiationType MessageInitiationType) (mkMagicHeader MessageResponseType MessageResponseType)
       (mkMagicHeader MessageCookieReplyType MessageCookieReplyType) (mkMagicHeader MessageTransportType MessageTransportType))
    (mkPaddings 0 0 0 0) [None; None; None; None; None] (mkDeviceImitate imitateNone 0).
Definition NewDevice (mtu : Z) : option Device :=
  limiter ← RateLimiter.Init newRatelimiter; Some (newDeviceFields limiter mtu).

(** ** The world a handler runs in *)

Record World := mkWorld {
  w_dev : Device;
  w_peers : gmap positive Peer;
  w_keypairs : gmap positive Keypair;
  w_out : gmap positive OutContainer;
  w_in : gmap positive InContainer;
  w_next : positive;                       (* locations from here on are unused *)
  w_rng : rng;
  w_clock : nat -> Z;                      (* the answers of time.Now, in order *)
  w_ext : nat -> Z;                        (* the answers of the bind and the TUN device: 0 is success *)
  w_pool : nat -> list Z;                  (* the buffers the pool hands out, with their old contents *)
  w_sent : list (Endpoint * list (list Z));  (* the calls of bind.Send that succeeded, latest first *)
  w_tun : list (list Z);                   (* packets written to the TUN device, latest first *)
}.
Definition eta_world (w : World) : World :=
  mkWorld (w_dev w) (w_peers w) (w_keypairs w) (w_out w) (w_in w) (w_next w) (w_rng w) (w_clock w) (w_ext w) (w_pool w) (w_sent w) (w_tun w).
Definition with_dev (v : Device) (w : World) : World := ltac:(setter eta_world w_dev v w).
Definition with_peers (v : gmap positive Peer) (w : World) : World := ltac:(setter eta_world w_peers v w).
Definition with_kps (v : gmap positive Keypair) (w : World) : World := ltac:(setter eta_world w_keypairs v w).
Definition with_out (v : gmap positive OutContainer) (w : World) : World := ltac:(setter eta_world w_out v w).
Definition with_in (v : gmap positive InContainer) (w : World) : World := ltac:(setter eta_world w_in v w).
Definition with_nextLoc (v : positive) (w : World) : World := ltac:(setter eta_world w_next v w).
Definition with_rng (v : rng) (w : World) : World := ltac:(setter eta_world w_rng v w).
Definition with_clock (v : nat -> Z) (w : World) : World := ltac:(setter eta_world w_clock v w).
Definition with_ext (v : nat -> Z) (w : World) : World := ltac:(setter eta_world w_ext v w).
Definition with_pool (v : nat -> list Z) (w : World) : World := ltac:(setter eta_world w_pool v w).
Definition with_sent (v : list (Endpoint * list (list Z))) (w : World) : World := ltac:(setter eta_world w_sent v w).
Definition with_tun (v : list (list Z)) (w : World) : World := ltac:(setter eta_world w_tun v w).

(** ** The monad *)

Definition M (A : Type) : Type := World -> option (A * World).

#[export] Instance M_ret : MRet M := fun A a w => Some (a, w).
#[export] Instance M_bind : MBind M := fun A B k m w => match m w with Some (a, w') => k a w' | None => None end.

Definition panic {A} : M A := fun _ => None.
Definition lift {A} (o : option A) : M A := fun w => match o with Some a => Some (a, w) | None => None end.
Definition gets {A} (f : World -> A) : M A := fun w => Some (f w, w).
Definition modify (f : World -> World) : M unit := fun w => Some (tt, f w).

Definition dev : M Device := gets w_dev.
Definition modDev (f : Device -> Device) : M unit := modify (fun w => with_dev (f (w_dev w)) w).
Definition peerAt (p : positive) : M Peer := fun w => P ← w_peers w !! p; Some (P, w).
Definition modPeer (p : positive) (f : Peer -> Peer) : M unit :=
  fun w => P ← w_peers w !! p; Some (tt, with_peers (<[p := f P]> (w_peers w)) w).
Definition keypairAt (k : positive) : M Keypair := fun w => K ← w_keypairs w !! k; Some (K, w).
Definition modKeypair (k : positive) (f : Keypair -> Keypair) : M unit :=
  fun w => K ← w_keypairs w !! k; Some (tt, with_kps (<[k := f K]> (w_keypairs w)) w).
Definition outAt (c : positive) : M OutContainer := fun w => C ← w_out w !! c; Some (C, w).
Definition inAt (c : positive) : M InContainer := fun w => C ← w_in w !! c; Some (C, w).
Definition modHandshake (p : positive) (f : Handshake -> Handshake) : M unit :=
  modPeer p (fun P => with_handshake (f (p_handshake P)) P).
Definition modTimers (p : positive) (f : PeerTimers -> PeerTimers) : M unit :=
  modPeer p (fun P => with_timers (f (p_timers P)) P).

(** A location that was never used. *)
Definition alloc : M positive := fun w => Some (w_next w, with_nextLoc (Pos.succ (w_next w)) w).

Definition time_Now : M Z := fun w => Some (w_clock w 0%nat, with_clock (fun i => w_clock w (S i)) w).
Definition draw {A} (f : rng -> option (A * rng)) : M A := fun w => '(a, r) ← f (w_rng w); Some (a, with_rng r w).
Definition external : M Z := fun w => Some (w_ext w 0%nat, with_ext (fun i => w_ext w (S i)) w).

Definition GetMessageBuffer : M (list Z) := fun w => Some (w_pool w 0%nat, with_pool (fun i => w_pool w (S i)) w).

(** Loops over slices. *)
Fixpoint forM_ {A} (l : list A) (f : A -> M unit) : M unit :=
  match l with [] => mret tt | x :: l => f x ≫= fun _ => forM_ l f end.
Definition whenM (b : bool) (m : M unit) : M unit := if b then m else mret tt.
