(* ===== verification/Noise.v ===== *)
(** * Noise: the index table, the handshake and the rotation of keypairs

    src/device/indextable.go, keypair.go and noise-protocol.go, operation by
    operation. The locks make each operation atomic except where the code releases
    them, which the operations here keep visible as separate reads and writes.
    crypto/rand does not fail (its documentation: Read never returns an error). *)
From S2P Require Import Prelude GoLib Replay MagicHeader Tai64n Crypto Cookie NoiseTypes DeviceState.
#[local] Open Scope Z_scope.

(** ** Index table *)

Definition randUint32 : M Z := draw (fun r => let '(b, r) := randRead 4 r in Some (le_val b, r)).

Definition indexDelete (index : Z) : M unit := modDev (fun d => with_indexTable (delete index (d_indexTable d)) d).

Definition SwapIndexForKeypair (index : Z) (keypair : positive) : M unit :=
  modDev (fun d =>
    match d_indexTable d !! index with
    | None => d
    | Some entry => with_indexTable (<[index := mkIndexEntry (it_peer entry) None (Some keypair)]> (d_indexTable d)) d
    end).

(** The loop draws until an unused index comes up; [fuel] bounds the draws, and a
    run that uses it up has not returned. *)
Fixpoint newIndexLoop (fuel : nat) (p : positive) : M Z :=
  match fuel with
  | O => panic
  | S fuel =>
      index ← randUint32;
      d ← dev;
      match d_indexTable d !! index with
      | Some _ => newIndexLoop fuel p
      | None =>
          modDev (fun d => with_indexTable (<[index := mkIndexEntry p (Some p) None]> (d_indexTable d)) d) ≫= fun _ =>
          mret index
      end
  end.
Definition indexFuel : nat := 1000.
Definition NewIndexForHandshake (p : positive) : M Z := newIndexLoop indexFuel p.

Definition indexLookup (id : Z) : M (option IndexTableEntry) := gets (fun w => d_indexTable (w_dev w) !! id).

Definition Current (p : positive) : M (option positive) := P ← peerAt p; mret (current (p_keypairs P)).

Definition DeleteKeypair (key : option positive) : M unit :=
  match key with
  | None => mret tt
  | Some k => K ← keypairAt k; indexDelete (kp_localIndex K)
  end.

(** ** Handshake *)

Definition NoiseConstruction : list Z := str "Noise_IKpsk2_25519_ChaChaPoly_BLAKE2s".
Definition WGIdentifier : list Z := str "WireGuard v1 zx2c4 Jason@zx2c4.com".
Definition ZeroNonce : list Z := replicate 12 0.

Inductive noiseError := errInvalidPublicKey | errNotConsumed | errInvalidState (s : handshakeState).

Definition Clear (h : Handshake) : Handshake :=
  let h := with_localEphemeral zeroKey h in
  let h := with_remoteEphemeral zeroKey h in
  let h := with_chainKey zeroKey h in
  let h := with_hash zeroKey h in
  let h := with_localIndex 0 h in
  with_state handshakeZeroed h.

Section Noise.
Context `{Primitives}.

Definition mixKey (c data : list Z) : list Z := KDF1 c data.
Definition mixHash (h data : list Z) : list Z := blake2s256 (h ++ data).

Definition InitialChainKey : list Z := blake2s256 NoiseConstruction.
Definition InitialHash : list Z := mixHash InitialChainKey WGIdentifier.

Definition hsMixHash (data : list Z) (h : Handshake) : Handshake := with_hash (mixHash (hs_hash h) data) h.
Definition hsMixKey (data : list Z) (h : Handshake) : Handshake := with_chainKey (mixKey (hs_chainKey h) data) h.

Definition LookupPeer (pk : list Z) : M (option positive) := gets (fun w => d_keyMap (w_dev w) !! pk).

Definition CreateMessageInitiation (p : positive) : M (result MessageInitiation noiseError) :=
  d ← dev;
  sk ← draw (fun r => Some (newPrivateKey r));
  modHandshake p (fun h => with_localEphemeral sk (with_chainKey InitialChainKey (with_hash InitialHash h))) ≫= fun _ =>
  modHandshake p (fun h => hsMixHash (hs_remoteStatic h) h) ≫= fun _ =>
  msgType ← draw (Generate (h_init (d_headers d)));
  let ephemeral := publicKey sk in
  modHandshake p (fun h => hsMixHash ephemeral (hsMixKey ephemeral h)) ≫= fun _ =>
  P ← peerAt p;
  let h := p_handshake P in
  (* encrypt static key *)
  let '(ss, ok) := sharedSecret (hs_localEphemeral h) (hs_remoteStatic h) in
  if negb ok then mret (Err errInvalidPublicKey) else
  let '(chainKey, key) := KDF2 (hs_chainKey h) ss in
  let static := aeadSeal key ZeroNonce (d_publicKey d) (hs_hash h) in
  modHandshake p (fun h => hsMixHash static (with_chainKey chainKey h)) ≫= fun _ =>
  P ← peerAt p;
  let h := p_handshake P in
  (* encrypt timestamp *)
  if isZero (hs_precomputedStaticStatic h) then mret (Err errInvalidPublicKey) else
  let '(chainKey, key) := KDF2 (hs_chainKey h) (hs_precomputedStaticStatic h) in
  now ← time_Now;
  let timestamp := aeadSeal key ZeroNonce (stamp (now / second) (now mod second)) (hs_hash h) in
  modHandshake p (with_chainKey chainKey) ≫= fun _ =>
  (* assign index *)
  indexDelete (hs_localIndex h) ≫= fun _ =>
  sender ← NewIndexForHandshake p;
  modHandshake p (fun h => with_state handshakeInitiationCreated (hsMixHash timestamp (with_localIndex sender h))) ≫= fun _ =>
  mret (Ok (mkInitiation msgType sender ephemeral static timestamp (replicate 16 0) (replicate 16 0))).

(** The transcript an initiation determines before its sender is known: hash and
    chain key after the static key, and the decrypted static key. *)
Definition openInitiation (d : Device) (msg : MessageInitiation) : option (list Z * list Z * list Z) :=
  let hash := mixHash InitialHash (d_publicKey d) in
  let hash := mixHash hash (mi_Ephemeral msg) in
  let chainKey := mixKey InitialChainKey (mi_Ephemeral msg) in
  let '(ss, ok) := sharedSecret (d_privateKey d) (mi_Ephemeral msg) in
  if negb ok then None else
  let '(chainKey, key) := KDF2 chainKey ss in
  peerPK ← aeadOpen key ZeroNonce (mi_Static msg) hash;
  Some (mixHash hash (mi_Static msg), chainKey, peerPK).

Definition ConsumeMessageInitiation (msg : MessageInitiation) : M (option positive) :=
  if negb (mi_Type msg =? MessageInitiationType) then mret None else
  d ← dev;
  match openInitiation d msg with
  | None => mret None
  | Some (hash, chainKey, peerPK) =>
      (* lookup peer *)
      found ← LookupPeer peerPK;
      match found with
      | None => mret None
      | Some p =>
          P ← peerAt p;
          if negb (p_isRunning P) then mret None else
          let h := p_handshake P in
          (* verify identity *)
          if isZero (hs_precomputedStaticStatic h) then mret None else
          let '(chainKey, key) := KDF2 chainKey (hs_precomputedStaticStatic h) in
          match aeadOpen key ZeroNonce (mi_Timestamp msg) hash with
          | None => mret None
          | Some timestamp =>
              let hash := mixHash hash (mi_Timestamp msg) in
              (* protect against replay & flood *)
              let replay := negb (After timestamp (hs_lastTimestamp h)) in
              since ← time_Now;
              let flood := timeSub since (hs_lastInitiationConsumption h) <=? HandshakeInitationRate in
              if replay then mret None else
              if flood then mret None else
              (* update handshake state *)
              now ← time_Now;
              modHandshake p (fun h =>
                let h := with_hash hash h in
                let h := with_chainKey chainKey h in
                let h := with_remoteIndex (mi_Sender msg) h in
                let h := with_remoteEphemeral (mi_Ephemeral msg) h in
                let h := if After timestamp (hs_lastTimestamp h) then with_lastTimestamp timestamp h else h in
                let h := if hs_lastInitiationConsumption h <? now then with_lastInitiationConsumption now h else h in
                with_state handshakeInitiationConsumed h) ≫= fun _ =>
              mret (Some p)
          end
      end
  end.

Definition CreateMessageResponse (p : positive) : M (result MessageResponse noiseError) :=
  d ← dev;
  P ← peerAt p;
  if negb (bool_decide (hs_state (p_handshake P) = handshakeInitiationConsumed)) then mret (Err errNotConsumed) else
  (* assign index *)
  indexDelete (hs_localIndex (p_handshake P)) ≫= fun _ =>
  localIndex ← NewIndexForHandshake p;
  modHandshake p (with_localIndex localIndex) ≫= fun _ =>
  msgType ← draw (Generate (h_response (d_headers d)));
  (* create ephemeral key *)
  sk ← draw (fun r => Some (newPrivateKey r));
  let ephemeral := publicKey sk in
  modHandshake p (fun h => hsMixKey ephemeral (hsMixHash ephemeral (with_localEphemeral sk h))) ≫= fun _ =>
  let '(ss, ok) := sharedSecret sk (hs_remoteEphemeral (p_handshake P)) in
  if negb ok then mret (Err errInvalidPublicKey) else
  modHandshake p (hsMixKey ss) ≫= fun _ =>
  let '(ss, ok) := sharedSecret sk (hs_remoteStatic (p_handshake P)) in
  if negb ok then mret (Err errInvalidPublicKey) else
  modHandshake p (hsMixKey ss) ≫= fun _ =>
  (* add preshared key *)
  P ← peerAt p;
  let h := p_handshake P in
  let '(chainKey, tau, key) := KDF3 (hs_chainKey h) (hs_presharedKey h) in
  modHandshake p (fun h => hsMixHash tau (with_chainKey chainKey h)) ≫= fun _ =>
  let empty := aeadSeal key ZeroNonce [] (mixHash (hs_hash h) tau) in
  modHandshake p (fun h => with_state handshakeResponseCreated (hsMixHash empty h)) ≫= fun _ =>
  mret (Ok (mkResponse msgType localIndex (hs_remoteIndex h) ephemeral empty (replicate 16 0) (replicate 16 0))).

(** The closure of ConsumeMessageResponse: the new hash and chain key when the message is authentic. *)
Definition openResponse (d : Device) (h : Handshake) (msg : MessageResponse) : option (list Z * list Z) :=
  if negb (bool_decide (hs_state h = handshakeInitiationCreated)) then None else
  (* finish 3-way DH *)
  let hash := mixHash (hs_hash h) (mr_Ephemeral msg) in
  let chainKey := mixKey (hs_chainKey h) (mr_Ephemeral msg) in
  let '(ss, ok) := sharedSecret (hs_localEphemeral h) (mr_Ephemeral msg) in
  if negb ok then None else
  let chainKey := mixKey chainKey ss in
  let '(ss, ok) := sharedSecret (d_privateKey d) (mr_Ephemeral msg) in
  if negb ok then None else
  let chainKey := mixKey chainKey ss in
  (* add preshared key (psk) *)
  let '(chainKey, tau, key) := KDF3 chainKey (hs_presharedKey h) in
  let hash := mixHash hash tau in
  (* authenticate transcript *)
  _ ← aeadOpen key ZeroNonce (mr_Empty msg) hash;
  Some (mixHash hash (mr_Empty msg), chainKey).

Definition ConsumeMessageResponse (msg : MessageResponse) : M (option positive) :=
  if negb (mr_Type msg =? MessageResponseType) then mret None else
  (* lookup handshake by receiver *)
  lookup ← indexLookup (mr_Receiver msg);
  match lookup with
  | Some (mkIndexEntry peer (Some p) _) =>
      d ← dev;
      P ← peerAt p;
      match openResponse d (p_handshake P) msg with
      | None => mret None
      | Some (hash, chainKey) =>
          (* update handshake state *)
          modHandshake p (fun h =>
            with_state handshakeResponseConsumed (with_remoteIndex (mr_Sender msg) (with_chainKey chainKey (with_hash hash h)))) ≫= fun _ =>
          mret (Some peer)
      end
  | _ => mret None
  end.

(** The send key, the receive key and the role the handshake state gives. *)
Definition deriveKeys (h : Handshake) : result (list Z * list Z * bool) noiseError :=
  match hs_state h with
  | handshakeResponseConsumed => let '(sendKey, recvKey) := KDF2 (hs_chainKey h) [] in Ok (sendKey, recvKey, true)
  | handshakeResponseCreated => let '(recvKey, sendKey) := KDF2 (hs_chainKey h) [] in Ok (sendKey, recvKey, false)
  | s => Err (errInvalidState s)
  end.

(** [ks] are the keypairs before the rotation. *)
Definition rotateKeypairs (p keypair : positive) (isInitiator : bool) (ks : Keypairs) : M unit :=
  if isInitiator then
    match next ks with
    | Some _ =>
        modPeer p (fun P => with_keypairs (with_previous (next ks) (with_next None (p_keypairs P))) P) ≫= fun _ =>
        DeleteKeypair (current ks)
    | None => modPeer p (fun P => with_keypairs (with_previous (current ks) (p_keypairs P)) P)
    end ≫= fun _ =>
    DeleteKeypair (previous ks) ≫= fun _ =>
    modPeer p (fun P => with_keypairs (with_current (Some keypair) (p_keypairs P)) P)
  else
    modPeer p (fun P => with_keypairs (with_next (Some keypair) (p_keypairs P)) P) ≫= fun _ =>
    DeleteKeypair (next ks) ≫= fun _ =>
    modPeer p (fun P => with_keypairs (with_previous None (p_keypairs P)) P) ≫= fun _ =>
    DeleteKeypair (previous ks).

(** [None] is success. *)
Definition BeginSymmetricSession (p : positive) : M (option noiseError) :=
  P ← peerAt p;
  match deriveKeys (p_handshake P) with
  | Err e => mret (Some e)
  | Ok (sendKey, recvKey, isInitiator) =>
      (* zero handshake *)
      modHandshake p (fun h => with_state handshakeZeroed (with_localEphemeral zeroKey (with_hash zeroKey (with_chainKey zeroKey h)))) ≫= fun _ =>
      (* create AEAD instances *)
      created ← time_Now;
      keypair ← alloc;
      modify (fun w => with_kps (<[keypair := mkKeypair 0 sendKey recvKey (Reset zeroFilter) isInitiator created
        (hs_localIndex (p_handshake P)) (hs_remoteIndex (p_handshake P))]> (w_keypairs w)) w) ≫= fun _ =>
      (* remap index *)
      SwapIndexForKeypair (hs_localIndex (p_handshake P)) keypair ≫= fun _ =>
      modHandshake p (with_localIndex 0) ≫= fun _ =>
      rotateKeypairs p keypair isInitiator (p_keypairs P) ≫= fun _ =>
      mret None
  end.

Definition ReceivedWithKeypair (p receivedKeypair : positive) : M bool :=
  P ← peerAt p;
  if negb (bool_decide (next (p_keypairs P) = Some receivedKeypair)) then mret false else
  let old := previous (p_keypairs P) in
  modPeer p (fun P => with_keypairs (with_previous (current (p_keypairs P)) (p_keypairs P)) P) ≫= fun _ =>
  DeleteKeypair old ≫= fun _ =>
  modPeer p (fun P => with_keypairs (with_next None (with_current (next (p_keypairs P)) (p_keypairs P))) P) ≫= fun _ =>
  mret true.
End Noise.
