(* ===== verification/Run.v ===== *)
(** * Run: reasoning about runs of handlers

    [bind_inv] and the inversion lemmas of the primitives take a run apart, the
    [run_] equations execute one; [wsimpl] reads fields of updated records. *)
From S2P Require Import Prelude GoLib DeviceState.
#[local] Open Scope Z_scope.

Definition setPeer (p : positive) (P : Peer) (w : World) : World := with_peers (<[p := P]> (w_peers w)) w.
Definition setKeypair (k : positive) (K : Keypair) (w : World) : World := with_kps (<[k := K]> (w_keypairs w)) w.

(** ** Fields of updated records *)

Ltac field_of t :=
  lazymatch t with
  | ?pi (?U ?v ?r) =>
      lazymatch type of r with
      | World => idtac | Device => idtac | Peer => idtac | Handshake => idtac | Keypair => idtac | Keypairs => idtac | PeerTimers => idtac
      end
  end.
Ltac wsimpl_step :=
  match goal with
  | |- context [?pi (?U ?v ?r)] => field_of (pi (U v r)); first [change (pi (U v r)) with v | change (pi (U v r)) with (pi r)]
  end.
Ltac wsimpl_step_in H :=
  match type of H with
  | context [?pi (?U ?v ?r)] => field_of (pi (U v r)); first [change (pi (U v r)) with v in H | change (pi (U v r)) with (pi r) in H]
  end.
Ltac wsimpl := unfold setPeer, setKeypair; repeat wsimpl_step.
Ltac wsimpl_in H := unfold setPeer, setKeypair in H; repeat wsimpl_step_in H.

(** ** Taking runs apart *)

Lemma bind_inv {A B} (m : M A) (k : A -> M B) w b w' :
  (m ≫= k) w = Some (b, w') -> exists a w1, m w = Some (a, w1) /\ k a w1 = Some (b, w').
Proof. unfold mbind, M_bind. destruct (m w) as [[a w1]|]; [|done]. eauto. Qed.
Lemma bind_run {A B} (m : M A) (k : A -> M B) w a w1 : m w = Some (a, w1) -> (m ≫= k) w = k a w1.
Proof. unfold mbind, M_bind. by intros ->. Qed.

Lemma mret_inv {A} (a b : A) w w' : (mret a : M A) w = Some (b, w') -> b = a /\ w' = w.
Proof. by intros [= <- <-]. Qed.
Lemma dev_inv w d w' : dev w = Some (d, w') -> d = w_dev w /\ w' = w.
Proof. by intros [= <- <-]. Qed.
Lemma gets_inv {A} (f : World -> A) w a w' : gets f w = Some (a, w') -> a = f w /\ w' = w.
Proof. by intros [= <- <-]. Qed.
Lemma lift_inv {A} (o : option A) w a w' : lift o w = Some (a, w') -> o = Some a /\ w' = w.
Proof. unfold lift. destruct o; [|done]. by intros [= <- <-]. Qed.
Lemma outAt_inv c w C w' : outAt c w = Some (C, w') -> w_out w !! c = Some C /\ w' = w.
Proof. unfold outAt. destruct (w_out w !! c); [|done]. by intros [= <- <-]. Qed.
Lemma modDev_inv f w u w' : modDev f w = Some (u, w') -> w' = with_dev (f (w_dev w)) w.
Proof. by intros [= _ <-]. Qed.
Lemma modify_inv f w u w' : modify f w = Some (u, w') -> w' = f w.
Proof. by intros [= _ <-]. Qed.
Lemma peerAt_inv p w P w' : peerAt p w = Some (P, w') -> w_peers w !! p = Some P /\ w' = w.
Proof. unfold peerAt. destruct (w_peers w !! p); [|done]. by intros [= <- <-]. Qed.
Lemma modPeer_inv p f w u w' : modPeer p f w = Some (u, w') -> exists P, w_peers w !! p = Some P /\ w' = setPeer p (f P) w.
Proof. unfold modPeer. destruct (w_peers w !! p) as [P|]; [|done]. intros [= _ <-]. by exists P. Qed.
Lemma keypairAt_inv p w P w' : keypairAt p w = Some (P, w') -> w_keypairs w !! p = Some P /\ w' = w.
Proof. unfold keypairAt. destruct (w_keypairs w !! p); [|done]. by intros [= <- <-]. Qed.
Lemma modKeypair_inv p f w u w' : modKeypair p f w = Some (u, w') -> exists P, w_keypairs w !! p = Some P /\ w' = setKeypair p (f P) w.
Proof. unfold modKeypair. destruct (w_keypairs w !! p) as [P|]; [|done]. intros [= _ <-]. by exists P. Qed.
Lemma modHandshake_inv p f w u w' : modHandshake p f w = Some (u, w') ->
  exists P, w_peers w !! p = Some P /\ w' = setPeer p (with_handshake (f (p_handshake P)) P) w.
Proof. apply modPeer_inv. Qed.
Lemma time_Now_inv w t w' : time_Now w = Some (t, w') -> t = w_clock w 0%nat /\ w' = with_clock (fun i => w_clock w (S i)) w.
Proof. by intros [= <- <-]. Qed.
Lemma draw_inv {A} (f : rng -> option (A * rng)) w a w' : draw f w = Some (a, w') -> exists r, f (w_rng w) = Some (a, r) /\ w' = with_rng r w.
Proof. unfold draw. destruct (f (w_rng w)) as [[x r]|]; [|done]. intros [= <- <-]. by exists r. Qed.
Lemma alloc_inv w k w' : alloc w = Some (k, w') -> k = w_next w /\ w' = with_nextLoc (Pos.succ (w_next w)) w.
Proof. by intros [= <- <-]. Qed.

(** [minv H] inverts the first action of the run [H]. *)
Ltac prim_inv H :=
  lazymatch type of H with
  | dev _ = _ => apply dev_inv in H as [-> ->]
  | gets _ _ = _ => apply gets_inv in H as [-> ->]
  | modDev _ _ = _ => apply modDev_inv in H as ->
  | modify _ _ = _ => apply modify_inv in H as ->
  | time_Now _ = _ => apply time_Now_inv in H as [-> ->]
  | alloc _ = _ => apply alloc_inv in H as [-> ->]
  | mret _ _ = _ => apply mret_inv in H as [H ->]; first [discriminate H | match type of H with ?x = _ => subst x end | injection H as H | idtac]
  | peerAt _ _ = _ => let E := fresh "Hp" in apply peerAt_inv in H as [E ->]; wsimpl_in E; rewrite ?lookup_insert_eq in E
  | modHandshake _ _ _ = _ =>
      let E := fresh "Hp" in let P := fresh "P" in apply modHandshake_inv in H as (P & E & ->); wsimpl_in E; rewrite ?lookup_insert_eq in E
  | modPeer _ _ _ = _ =>
      let E := fresh "Hp" in let P := fresh "P" in apply modPeer_inv in H as (P & E & ->); wsimpl_in E; rewrite ?lookup_insert_eq in E
  | keypairAt _ _ = _ => let E := fresh "Hk" in apply keypairAt_inv in H as [E ->]; wsimpl_in E
  | modKeypair _ _ _ = _ => let E := fresh "Hk" in let P := fresh "K" in apply modKeypair_inv in H as (P & E & ->); wsimpl_in E
  | draw _ _ = _ => let E := fresh "Hd" in let r := fresh "r" in apply draw_inv in H as (r & E & ->); wsimpl_in E
  | _ => idtac
  end.
Ltac minv H := let a := fresh "a" in let w := fresh "w" in let E := fresh "Hrun" in apply bind_inv in H as (a & w & E & H); prim_inv E.
(** Known peers are replaced by what is known of them. *)
Ltac same_peer :=
  repeat match goal with
  | H : @eq (option Peer) (Some ?x) (Some ?y) |- _ => injection H as H; (subst x || subst y || rewrite <- H in *)
  | H1 : ?m !! ?k = Some ?x, H2 : ?m !! ?k = Some ?y |- _ => rewrite H1 in H2; injection H2 as H2; (subst y || subst x)
  end.

(** ** Executing runs *)

Lemma run_dev {B} (k : Device -> M B) w : (dev ≫= k) w = k (w_dev w) w.
Proof. done. Qed.
Lemma run_gets {A B} (f : World -> A) (k : A -> M B) w : (gets f ≫= k) w = k (f w) w.
Proof. done. Qed.
Lemma run_mret {A B} (a : A) (k : A -> M B) w : (mret a ≫= k) w = k a w.
Proof. done. Qed.
Lemma run_peerAt {B} p P (k : Peer -> M B) w : w_peers w !! p = Some P -> (peerAt p ≫= k) w = k P w.
Proof. intros E. apply bind_run. unfold peerAt. by rewrite E. Qed.
Lemma run_modPeer {B} p P f (k : unit -> M B) w : w_peers w !! p = Some P -> (modPeer p f ≫= k) w = k tt (setPeer p (f P) w).
Proof. intros E. apply bind_run. unfold modPeer. by rewrite E. Qed.
Lemma run_modHandshake {B} p P f (k : unit -> M B) w : w_peers w !! p = Some P ->
  (modHandshake p f ≫= k) w = k tt (setPeer p (with_handshake (f (p_handshake P)) P) w).
Proof. exact (run_modPeer p P (fun P => with_handshake (f (p_handshake P)) P) k w). Qed.
Lemma run_time_Now {B} (k : Z -> M B) w : (time_Now ≫= k) w = k (w_clock w 0%nat) (with_clock (fun i => w_clock w (S i)) w).
Proof. done. Qed.
Lemma run_keypairAt {B} p P (k : Keypair -> M B) w : w_keypairs w !! p = Some P -> (keypairAt p ≫= k) w = k P w.
Proof. intros E. apply bind_run. unfold keypairAt. by rewrite E. Qed.
Lemma run_lift {A B} (a : A) (o : option A) (k : A -> M B) w : o = Some a -> (lift o ≫= k) w = k a w.
Proof. by intros ->. Qed.
Lemma run_draw {A B} (f : rng -> option (A * rng)) a r (k : A -> M B) w : f (w_rng w) = Some (a, r) -> (draw f ≫= k) w = k a (with_rng r w).
Proof. intros E. apply bind_run. unfold draw. by rewrite E. Qed.
Lemma run_modDev {B} f (k : unit -> M B) w : (modDev f ≫= k) w = k tt (with_dev (f (w_dev w)) w).
Proof. done. Qed.
Lemma run_modify {B} f (k : unit -> M B) w : (modify f ≫= k) w = k tt (f w).
Proof. done. Qed.
Lemma run_alloc {B} (k : positive -> M B) w : (alloc ≫= k) w = k (w_next w) (with_nextLoc (Pos.succ (w_next w)) w).
Proof. done. Qed.
Lemma bind_assoc {A B C} (m : M A) (f : A -> M B) (g : B -> M C) w : ((m ≫= f) ≫= g) w = (m ≫= fun a => f a ≫= g) w.
Proof. unfold mbind, M_bind. by destruct (m w) as [[a w1]|]. Qed.
