(* ===== verification/NoiseRuns.v ===== *)
(** * NoiseRuns: what the handshake operations do to the device

    The transcript both sides compute, what a created message leaves behind, and that
    the other side accepts it. *)
From S2P Require Import Prelude GoLib Replay MagicHeader Tai64n Crypto Cookie NoiseTypes DeviceState Run Noise.
#[local] Open Scope Z_scope.

Lemma newIndexLoop_inv fuel p w i w' : newIndexLoop fuel p w = Some (i, w') ->
  exists r, d_indexTable (w_dev w) !! i = None /\
    w' = with_dev (with_indexTable (<[i := mkIndexEntry p (Some p) None]> (d_indexTable (w_dev w))) (w_dev w)) (with_rng r w).
Proof.
  revert w. induction fuel as [|fuel IH]; intros w Hrun; [done|]. cbn [newIndexLoop] in Hrun.
  apply bind_inv in Hrun as (j & w1 & Hd & Hrun). unfold randUint32 in Hd. apply draw_inv in Hd as (r & Hd & ->).
  minv Hrun. wsimpl_in Hrun. destruct (d_indexTable (w_dev w) !! j) eqn:E.
  - apply IH in Hrun as (r' & Hnone & ->). exists r'. by wsimpl_in Hnone.
  - minv Hrun. prim_inv Hrun. by exists r.
Qed.

Section Runs.
Context `{PrimitiveLaws}.

(** ** The transcript of an initiation and of a response *)

Definition sealInitiation (pkI pkR eph ss pss ts : list Z) : list Z * list Z * list Z * list Z :=
  let h := mixHash (mixHash InitialHash pkR) eph in
  let '(ck, k) := KDF2 (mixKey InitialChainKey eph) ss in
  let static := aeadSeal k ZeroNonce pkI h in
  let h := mixHash h static in
  let '(ck, k) := KDF2 ck pss in
  let t := aeadSeal k ZeroNonce ts h in
  (static, t, mixHash h t, ck).

Definition sealResponse (hash ck eph ssE ssS psk : list Z) : list Z * list Z * list Z :=
  let '(ck, tau, k) := KDF3 (mixKey (mixKey (mixKey ck eph) ssE) ssS) psk in
  let h := mixHash (mixHash hash eph) tau in
  let empty := aeadSeal k ZeroNonce [] h in
  (empty, mixHash h empty, ck).

Lemma sharedSecret_ok sk pk ss : sharedSecret sk pk = (ss, true) <-> ss = scalarMult sk pk /\ isZero (scalarMult sk pk) = false.
Proof. unfold sharedSecret. destruct (isZero (scalarMult sk pk)); split; [by intros [=]|by intros [? [=]]|by intros [= <-]|by intros [-> _]]. Qed.

(** What a created initiation left behind. *)
Lemma CreateMessageInitiation_inv p w msg w' : CreateMessageInitiation p w = Some (Ok msg, w') ->
  exists P sk hash ck now,
    w_peers w !! p = Some P /\ isZero (scalarMult sk (hs_remoteStatic (p_handshake P))) = false /\
    isZero (hs_precomputedStaticStatic (p_handshake P)) = false /\
    sealInitiation (d_publicKey (w_dev w)) (hs_remoteStatic (p_handshake P)) (publicKey sk) (scalarMult sk (hs_remoteStatic (p_handshake P)))
      (hs_precomputedStaticStatic (p_handshake P)) (stamp (now / second) (now mod second)) = (mi_Static msg, mi_Timestamp msg, hash, ck) /\
    mi_Ephemeral msg = publicKey sk /\ now = w_clock w 0%nat /\
    w_peers w' = <[p := with_handshake (with_state handshakeInitiationCreated (with_localIndex (mi_Sender msg)
      (with_localEphemeral sk (with_chainKey ck (with_hash hash (p_handshake P)))))) P]> (w_peers w) /\
    w_keypairs w' = w_keypairs w /\
    delete (hs_localIndex (p_handshake P)) (d_indexTable (w_dev w)) !! mi_Sender msg = None /\
    w_dev w' = with_indexTable (<[mi_Sender msg := mkIndexEntry p (Some p) None]> (delete (hs_localIndex (p_handshake P)) (d_indexTable (w_dev w)))) (w_dev w).
Proof.
  intros Hrun. unfold CreateMessageInitiation in Hrun. do 7 minv Hrun. injection Hd as Hd. injection Hp0 as <-. injection Hp1 as <-. injection Hp2 as <-.
  wsimpl_in Hrun. unfold hsMixHash, hsMixKey in Hrun. wsimpl_in Hrun. rewrite !insert_insert_eq in Hrun.
  destruct (sharedSecret _ _) as [ss ok] eqn:Ess. destruct ok; cbn [negb] in Hrun; [|by prim_inv Hrun]. apply sharedSecret_ok in Ess as [-> Hss].
  destruct (KDF2 _ _) as [ck1 k1] eqn:Ek1. do 2 minv Hrun. injection Hp0 as <-. injection Hp1 as <-. wsimpl_in Hrun. rewrite ?insert_insert_eq in Hrun.
  destruct (isZero (hs_precomputedStaticStatic _)) eqn:Epss; [by prim_inv Hrun|].
  destruct (KDF2 ck1 _) as [ck2 k2] eqn:Ek2. do 2 minv Hrun. injection Hp0 as <-. unfold indexDelete in Hrun. minv Hrun. wsimpl_in Hrun. rewrite ?insert_insert_eq in Hrun.
  apply bind_inv in Hrun as (i & w1 & Hi & Hrun). apply newIndexLoop_inv in Hi as (r' & Hnone & ->). minv Hrun. prim_inv Hrun.
  injection Hp0 as <-. wsimpl_in Hnone.
  subst msg. clear Hd0. eexists P, a, _, _, _. split; [exact Hp|]. split; [exact Hss|]. split; [exact Epss|]. cbn [mi_Static mi_Timestamp mi_Ephemeral mi_Sender].
  split; [unfold sealInitiation; rewrite Ek1, Ek2; reflexivity|]. split; [done|]. split; [done|].
  split; [wsimpl; rewrite !insert_insert_eq; reflexivity|]. split; [by wsimpl|]. split; [exact Hnone|]. by wsimpl.
Qed.

(** The responder opens what the initiator sealed for its key. *)
Lemma openInitiation_seal d msg pkI skE pss ts hash ck :
  mi_Ephemeral msg = publicKey skE -> d_publicKey d = publicKey (d_privateKey d) ->
  isZero (scalarMult skE (d_publicKey d)) = false ->
  sealInitiation pkI (d_publicKey d) (publicKey skE) (scalarMult skE (d_publicKey d)) pss ts = (mi_Static msg, mi_Timestamp msg, hash, ck) ->
  exists h1 ck1 k2, openInitiation d msg = Some (h1, ck1, pkI) /\ KDF2 ck1 pss = (ck, k2) /\
    aeadOpen k2 ZeroNonce (mi_Timestamp msg) h1 = Some ts /\ mixHash h1 (mi_Timestamp msg) = hash.
Proof.
  intros Heph Hpub Hss. unfold sealInitiation, openInitiation. rewrite Heph.
  assert (scalarMult (d_privateKey d) (publicKey skE) = scalarMult skE (d_publicKey d)) as Hdh by (rewrite Hpub; apply scalarMult_comm).
  unfold sharedSecret. rewrite Hdh, Hss. cbn [negb]. destruct (KDF2 _ _) as [ck1 k1]. destruct (KDF2 ck1 pss) as [ck2 k2] eqn:Ek2.
  intros [= <- <- <- <-]. rewrite aeadOpen_seal. cbn [mbind option_bind]. do 3 eexists. split; [reflexivity|]. split; [done|].
  split; [apply aeadOpen_seal|done].
Qed.

(** A genuine, newer initiation is consumed. *)
Lemma ConsumeMessageInitiation_run w q Q msg pkI skE ts hash ck :
  mi_Type msg = MessageInitiationType -> mi_Ephemeral msg = publicKey skE ->
  d_publicKey (w_dev w) = publicKey (d_privateKey (w_dev w)) ->
  isZero (scalarMult skE (d_publicKey (w_dev w))) = false ->
  d_keyMap (w_dev w) !! pkI = Some q -> w_peers w !! q = Some Q -> p_isRunning Q = true ->
  isZero (hs_precomputedStaticStatic (p_handshake Q)) = false ->
  sealInitiation pkI (d_publicKey (w_dev w)) (publicKey skE) (scalarMult skE (d_publicKey (w_dev w)))
    (hs_precomputedStaticStatic (p_handshake Q)) ts = (mi_Static msg, mi_Timestamp msg, hash, ck) ->
  After ts (hs_lastTimestamp (p_handshake Q)) = true ->
  HandshakeInitationRate < timeSub (w_clock w 0%nat) (hs_lastInitiationConsumption (p_handshake Q)) ->
  exists h w', ConsumeMessageInitiation msg w = Some (Some q, w') /\
    w_peers w' = <[q := with_handshake h Q]> (w_peers w) /\ w_dev w' = w_dev w /\ w_keypairs w' = w_keypairs w /\
    hs_state h = handshakeInitiationConsumed /\ hs_hash h = hash /\ hs_chainKey h = ck /\ hs_remoteIndex h = mi_Sender msg /\
    hs_remoteEphemeral h = publicKey skE /\ hs_lastTimestamp h = ts /\ hs_presharedKey h = hs_presharedKey (p_handshake Q) /\
    hs_remoteStatic h = hs_remoteStatic (p_handshake Q) /\ hs_localIndex h = hs_localIndex (p_handshake Q).
Proof.
  intros Hty Heph Hpub Hss Hkey HQ Hrun Hpss Hseal Hts Hflood. unfold ConsumeMessageInitiation. rewrite Hty. cbn [negb Z.eqb MessageInitiationType Pos.eqb].
  rewrite run_dev. destruct (openInitiation_seal (w_dev w) msg pkI skE _ ts hash ck Heph Hpub Hss Hseal) as (h1 & ck1 & k2 & -> & Ek & Hopen & Hh).
  unfold LookupPeer. rewrite run_gets, Hkey. rewrite (run_peerAt q Q) by done. rewrite Hrun. cbn [negb]. rewrite Hpss, Ek, Hopen, Hh.
  rewrite run_time_Now. rewrite Hts. cbn [negb]. rewrite (proj2 (Z.leb_gt _ _)) by done. rewrite run_time_Now.
  rewrite (run_modHandshake q Q) by done. wsimpl. cbv zeta. rewrite Hts, Heph. set (n := hs_lastInitiationConsumption _ <? _). clearbody n.
  do 2 eexists. split; [reflexivity|]. wsimpl. split; [reflexivity|]. do 2 (split; [done|]). destruct n; wsimpl; done.
Qed.

(** What a created response left behind. *)
Lemma CreateMessageResponse_inv q w msg w' : CreateMessageResponse q w = Some (Ok msg, w') ->
  exists P sk hash ck, w_peers w !! q = Some P /\ hs_state (p_handshake P) = handshakeInitiationConsumed /\
    isZero (scalarMult sk (hs_remoteEphemeral (p_handshake P))) = false /\ isZero (scalarMult sk (hs_remoteStatic (p_handshake P))) = false /\
    sealResponse (hs_hash (p_handshake P)) (hs_chainKey (p_handshake P)) (publicKey sk) (scalarMult sk (hs_remoteEphemeral (p_handshake P)))
      (scalarMult sk (hs_remoteStatic (p_handshake P))) (hs_presharedKey (p_handshake P)) = (mr_Empty msg, hash, ck) /\
    mr_Ephemeral msg = publicKey sk /\ mr_Receiver msg = hs_remoteIndex (p_handshake P) /\
    w_peers w' = <[q := with_handshake (with_state handshakeResponseCreated (with_hash hash (with_chainKey ck
      (with_localEphemeral sk (with_localIndex (mr_Sender msg) (p_handshake P)))))) P]> (w_peers w) /\
    w_keypairs w' = w_keypairs w /\
    delete (hs_localIndex (p_handshake P)) (d_indexTable (w_dev w)) !! mr_Sender msg = None /\
    w_dev w' = with_indexTable (<[mr_Sender msg := mkIndexEntry q (Some q) None]> (delete (hs_localIndex (p_handshake P)) (d_indexTable (w_dev w)))) (w_dev w).
Proof.
  intros Hrun. unfold CreateMessageResponse in Hrun. do 2 minv Hrun. rename a into P. case_bool_decide as Hst; cbn [negb] in Hrun; [|by prim_inv Hrun].
  unfold indexDelete in Hrun. minv Hrun. wsimpl_in Hrun. apply bind_inv in Hrun as (i & w1 & Hi & Hrun).
  apply newIndexLoop_inv in Hi as (r' & Hnone & ->). wsimpl_in Hrun. wsimpl_in Hnone. do 4 minv Hrun. same_peer. match type of Hd0 with Some _ = Some (?x, _) => rename x into sk end. clear Hd Hd0.
  destruct (sharedSecret sk _) as [ss1 ok1] eqn:Ess1. destruct ok1; cbn [negb] in Hrun; [|by prim_inv Hrun]. apply sharedSecret_ok in Ess1 as [-> Hss1].
  minv Hrun. same_peer. wsimpl_in Hrun. rewrite ?insert_insert_eq in Hrun.
  destruct (sharedSecret sk _) as [ss2 ok2] eqn:Ess2. destruct ok2; cbn [negb] in Hrun; [|by prim_inv Hrun]. apply sharedSecret_ok in Ess2 as [-> Hss2].
  do 2 minv Hrun. same_peer. unfold hsMixHash, hsMixKey in Hrun. wsimpl_in Hrun. rewrite ?insert_insert_eq in Hrun.
  destruct (KDF3 _ _) as [[ck tau] key] eqn:Ek. do 2 minv Hrun. same_peer. prim_inv Hrun. subst msg.
  eexists P, sk, _, _. split; [exact Hp|]. do 3 (split; [done|]). cbn [mr_Empty mr_Ephemeral mr_Receiver mr_Sender].
  split; [unfold sealResponse; rewrite Ek; reflexivity|]. do 2 (split; [done|]). 
  split; [wsimpl; rewrite !insert_insert_eq; reflexivity|]. split; [by wsimpl|]. split; [exact Hnone|]. by wsimpl.
Qed.

Lemma openResponse_seal d h msg hash ck ssE ssS : hs_state h = handshakeInitiationCreated ->
  scalarMult (hs_localEphemeral h) (mr_Ephemeral msg) = ssE -> scalarMult (d_privateKey d) (mr_Ephemeral msg) = ssS ->
  isZero ssE = false -> isZero ssS = false ->
  sealResponse (hs_hash h) (hs_chainKey h) (mr_Ephemeral msg) ssE ssS (hs_presharedKey h) = (mr_Empty msg, hash, ck) ->
  openResponse d h msg = Some (hash, ck).
Proof.
  intros Hst HE HS HzE HzS. unfold sealResponse, openResponse, sharedSecret. rewrite Hst, HE, HS, HzE, HzS. rewrite bool_decide_true by done. cbn [negb].
  destruct (KDF3 _ _) as [[ck' tau] key]. intros [= <- <- <-]. by rewrite aeadOpen_seal.
Qed.

Lemma ConsumeMessageResponse_run w p P msg hash ck : mr_Type msg = MessageResponseType ->
  d_indexTable (w_dev w) !! mr_Receiver msg = Some (mkIndexEntry p (Some p) None) -> w_peers w !! p = Some P ->
  openResponse (w_dev w) (p_handshake P) msg = Some (hash, ck) ->
  ConsumeMessageResponse msg w = Some (Some p,
    setPeer p (with_handshake (with_state handshakeResponseConsumed (with_remoteIndex (mr_Sender msg) (with_chainKey ck (with_hash hash (p_handshake P))))) P) w).
Proof.
  intros Hty Hidx HP Hopen. unfold ConsumeMessageResponse. rewrite Hty. cbn [negb Z.eqb MessageResponseType Pos.eqb].
  unfold indexLookup. rewrite run_gets, Hidx, run_dev, (run_peerAt p P) by done. rewrite Hopen. by rewrite (run_modHandshake p P).
Qed.
End Runs.
