(* ===== verification/Agreement.v ===== *)
(** * Agreement: two devices that run the handshake hold matching keys *)
From S2P Require Import Prelude GoLib Replay MagicHeader Tai64n RateLimiter Crypto Cookie NoiseTypes DeviceState Run Noise NoiseRuns.
#[local] Open Scope Z_scope.

Section Session.
Context `{PrimitiveLaws}.

(** The keypairs a peer refers to exist. *)
Definition keypairs_exist (w : World) (P : Peer) : Prop := Forall (fun k => is_Some (w_keypairs w !! k)) (heldBy (p_keypairs P)).

Lemma DeleteKeypair_run w key : (forall k, key = Some k -> is_Some (w_keypairs w !! k)) ->
  exists t, DeleteKeypair key w = Some (tt, with_dev (with_indexTable t (w_dev w)) w).
Proof.
  intros Hk. destruct key as [k|]; [|exists (d_indexTable (w_dev w)); by destruct w as [[]]]. destruct (Hk k eq_refl) as [K EK].
  cbn [DeleteKeypair]. rewrite (run_keypairAt k K) by done. by eexists.
Qed.

Lemma run_DeleteKeypair {B} key (k : unit -> M B) w : (forall x, key = Some x -> is_Some (w_keypairs w !! x)) ->
  exists t, (DeleteKeypair key ≫= k) w = k tt (with_dev (with_indexTable t (w_dev w)) w).
Proof. intros Hk. destruct (DeleteKeypair_run w key Hk) as [t Ht]. exists t. by apply bind_run. Qed.

Ltac run_peer := erewrite run_modPeer by (wsimpl; apply lookup_insert_eq); wsimpl; rewrite ?insert_insert_eq.
Ltac run_delete :=
  match goal with |- context [(DeleteKeypair ?key ≫= ?k) ?w] => let t := fresh "t" in destruct (run_DeleteKeypair key k w) as [t ->]; [intros; wsimpl; eauto|wsimpl] end.

(** The session starts: the handshake state decides the role and which slot the
    keypair takes; its keys are the two halves of the derivation. *)
Lemma BeginSymmetricSession_run w p P sk rk (init : bool) : w_peers w !! p = Some P -> keypairs_exist w P ->
  deriveKeys (p_handshake P) = Ok (sk, rk, init) ->
  exists w' P', BeginSymmetricSession p w = Some (None, w') /\ w_peers w' = <[p := P']> (w_peers w) /\
    w_keypairs w' = <[w_next w := mkKeypair 0 sk rk (Reset zeroFilter) init (w_clock w 0%nat)
      (hs_localIndex (p_handshake P)) (hs_remoteIndex (p_handshake P))]> (w_keypairs w) /\
    (if init then current (p_keypairs P') else next (p_keypairs P')) = Some (w_next w) /\
    hs_state (p_handshake P') = handshakeZeroed.
Proof.
  intros HP Hex Hd. unfold keypairs_exist, heldBy in Hex. apply Forall_app in Hex as [Hc Hex]. apply Forall_app in Hex as [Hpr Hn].
  set (K := mkKeypair 0 sk rk (Reset zeroFilter) init (w_clock w 0%nat) (hs_localIndex (p_handshake P)) (hs_remoteIndex (p_handshake P))).
  assert (forall o k, Forall (fun k => is_Some (w_keypairs w !! k)) (option_list o) -> o = Some k -> is_Some (<[w_next w := K]> (w_keypairs w) !! k)) as Hin.
  { intros o k Ho ->. apply lookup_insert_is_Some'. right. by apply (Forall_inv Ho). }
  unfold BeginSymmetricSession. rewrite (run_peerAt p P) by done. rewrite Hd. rewrite (run_modHandshake p P) by done. rewrite run_time_Now, run_alloc, run_modify.
  unfold SwapIndexForKeypair. rewrite run_modDev. wsimpl. erewrite run_modHandshake by (wsimpl; apply lookup_insert_eq). fold K. wsimpl. rewrite insert_insert_eq.
  unfold rotateKeypairs. destruct init; [destruct (next (p_keypairs P)) as [n|] eqn:En|]; rewrite ?bind_assoc; run_peer.
  - rewrite ?bind_assoc. run_delete. rewrite ?bind_assoc. run_delete. run_peer. do 2 eexists. split; [reflexivity|]. by wsimpl.
  - rewrite ?bind_assoc. run_delete. run_peer. do 2 eexists. split; [reflexivity|]. by wsimpl.
  - rewrite ?bind_assoc. run_delete. rewrite ?bind_assoc. run_peer. run_delete. do 2 eexists. split; [reflexivity|]. by wsimpl.
Qed.

(** Two devices that know each other: [p] is the responder as the initiator knows
    it, [q] the initiator as the responder knows it. *)
Record paired (wI wR : World) (p q : positive) (P Q : Peer) : Prop := {
  pr_P : w_peers wI !! p = Some P;
  pr_Q : w_peers wR !! q = Some Q;
  pr_pubI : d_publicKey (w_dev wI) = publicKey (d_privateKey (w_dev wI));
  pr_pubR : d_publicKey (w_dev wR) = publicKey (d_privateKey (w_dev wR));
  pr_remP : hs_remoteStatic (p_handshake P) = d_publicKey (w_dev wR);
  pr_remQ : hs_remoteStatic (p_handshake Q) = d_publicKey (w_dev wI);
  pr_preP : hs_precomputedStaticStatic (p_handshake P) = scalarMult (d_privateKey (w_dev wI)) (d_publicKey (w_dev wR));
  pr_preQ : hs_precomputedStaticStatic (p_handshake Q) = scalarMult (d_privateKey (w_dev wR)) (d_publicKey (w_dev wI));
  pr_psk : hs_presharedKey (p_handshake P) = hs_presharedKey (p_handshake Q);
  pr_key : d_keyMap (w_dev wR) !! d_publicKey (w_dev wI) = Some q;
  pr_running : p_isRunning Q = true;
  pr_kpP : keypairs_exist wI P;
  pr_kpQ : keypairs_exist wR Q;
}.

Definition mirrored (KI KR : Keypair) : Prop :=
  kp_send KI = kp_receive KR /\ kp_receive KI = kp_send KR /\ kp_localIndex KI = kp_remoteIndex KR /\ kp_remoteIndex KI = kp_localIndex KR /\
  kp_isInitiator KI = true /\ kp_isInitiator KR = false /\ kp_sendNonce KI = 0 /\ kp_sendNonce KR = 0.

Lemma pre_symmetric wI wR p q P Q : paired wI wR p q P Q -> hs_precomputedStaticStatic (p_handshake P) = hs_precomputedStaticStatic (p_handshake Q).
Proof. intros []. rewrite pr_preP0, pr_preQ0, pr_pubI0, pr_pubR0. apply scalarMult_comm. Qed.

Lemma deriveKeys_mirror h1 h2 : hs_state h1 = handshakeResponseConsumed -> hs_state h2 = handshakeResponseCreated -> hs_chainKey h1 = hs_chainKey h2 ->
  exists k1 k2, deriveKeys h1 = Ok (k1, k2, true) /\ deriveKeys h2 = Ok (k2, k1, false).
Proof. intros H1 H2 H3. unfold deriveKeys. rewrite H1, H2, H3. destruct (KDF2 _ []) as [k1 k2]. eauto. Qed.

(** The initiation has been consumed and no response created yet. *)
Record inflight (wI wR : World) (p q : positive) (P Q : Peer) : Prop := {
  fl_P : w_peers wI !! p = Some P;
  fl_Q : w_peers wR !! q = Some Q;
  fl_stP : hs_state (p_handshake P) = handshakeInitiationCreated;
  fl_hash : hs_hash (p_handshake P) = hs_hash (p_handshake Q);
  fl_ck : hs_chainKey (p_handshake P) = hs_chainKey (p_handshake Q);
  fl_psk : hs_presharedKey (p_handshake P) = hs_presharedKey (p_handshake Q);
  fl_eph : hs_remoteEphemeral (p_handshake Q) = publicKey (hs_localEphemeral (p_handshake P));
  fl_static : hs_remoteStatic (p_handshake Q) = publicKey (d_privateKey (w_dev wI));
  fl_index : hs_remoteIndex (p_handshake Q) = hs_localIndex (p_handshake P);
  fl_table : d_indexTable (w_dev wI) !! hs_localIndex (p_handshake P) = Some (mkIndexEntry p (Some p) None);
  fl_kpP : keypairs_exist wI P;
  fl_kpQ : keypairs_exist wR Q;
}.

Lemma inflight_reached wI wR wI1 p q P Q m1 : paired wI wR p q P Q ->
  CreateMessageInitiation p wI = Some (Ok m1, wI1) ->
  After (stamp (w_clock wI 0%nat / second) (w_clock wI 0%nat mod second)) (hs_lastTimestamp (p_handshake Q)) = true ->
  HandshakeInitationRate < timeSub (w_clock wR 0%nat) (hs_lastInitiationConsumption (p_handshake Q)) ->
  exists wR1 P1 Q1, ConsumeMessageInitiation (retypeInitiation MessageInitiationType m1) wR = Some (Some q, wR1) /\ inflight wI1 wR1 p q P1 Q1.
Proof.
  intros Hpair Hc1 Hts Hflood. pose proof (pre_symmetric _ _ _ _ _ _ Hpair) as Hsym. destruct Hpair.
  apply CreateMessageInitiation_inv in Hc1 as (P0 & skE & hash & ck & now & HP & Hss & Hpss & Hseal & Heph & -> & HwI1 & HkI1 & _ & HdI1). simplify_eq.
  rewrite pr_remP0, Hsym in *.
  destruct (ConsumeMessageInitiation_run wR q Q (retypeInitiation MessageInitiationType m1) _ skE _ hash ck eq_refl Heph pr_pubR0 Hss pr_key0 pr_Q0 pr_running0 Hpss Hseal Hts Hflood)
    as (h & wR1 & HR1 & HwR1 & HdR1 & HkR1 & Hst & Hh & Hck & Hri & Hre & _ & Hpsk & Hrs & _).
  eexists wR1, _, (with_handshake h Q). split; [exact HR1|]. split; [rewrite HwI1; apply lookup_insert_eq|..]; rewrite ?HwI1, ?HwR1, ?HdI1; wsimpl; rewrite ?Hh, ?Hck, ?Hpsk, ?Hre, ?Hri, ?Hrs, ?pr_remQ0;
    try apply lookup_insert_eq; try done.
  - unfold keypairs_exist. by rewrite HkI1.
  - unfold keypairs_exist. by rewrite HkR1.
Qed.

Lemma inflight_completes wI wR p q P Q m2 wR2 : inflight wI wR p q P Q -> CreateMessageResponse q wR = Some (Ok m2, wR2) ->
  exists wI2 P2 Q2, ConsumeMessageResponse (retypeResponse MessageResponseType m2) wI = Some (Some p, wI2) /\
    w_peers wI2 !! p = Some P2 /\ w_peers wR2 !! q = Some Q2 /\ keypairs_exist wI2 P2 /\ keypairs_exist wR2 Q2 /\
    hs_state (p_handshake P2) = handshakeResponseConsumed /\ hs_state (p_handshake Q2) = handshakeResponseCreated /\
    hs_chainKey (p_handshake P2) = hs_chainKey (p_handshake Q2) /\
    hs_localIndex (p_handshake P2) = hs_remoteIndex (p_handshake Q2) /\ hs_remoteIndex (p_handshake P2) = hs_localIndex (p_handshake Q2).
Proof.
  intros [] Hc2. apply CreateMessageResponse_inv in Hc2 as (Q0 & skR & hash2 & ck2 & HQ0 & _ & HssE & HssS & Hseal & Heph & Hrecv & HwR2 & HkR2 & _ & _). simplify_eq.
  rewrite fl_eph0, fl_static0 in *.
  assert (openResponse (w_dev wI) (p_handshake P) (retypeResponse MessageResponseType m2) = Some (hash2, ck2)) as Hopen.
  { eapply openResponse_seal; cbn [mr_Ephemeral mr_Empty retypeResponse]; rewrite ?Heph; [done|apply scalarMult_comm|apply scalarMult_comm|done|done|].
    by rewrite fl_hash0, fl_ck0, fl_psk0. }
  eexists _, _, _. split; [apply (ConsumeMessageResponse_run wI p P (retypeResponse MessageResponseType m2) hash2 ck2 eq_refl); [|done|done]|].
  - cbn [mr_Receiver retypeResponse]. by rewrite Hrecv, fl_index0.
  - rewrite HwR2. wsimpl. split; [apply lookup_insert_eq|]. split; [apply lookup_insert_eq|]. split; [exact fl_kpP0|].
    split; [unfold keypairs_exist; rewrite HkR2; exact fl_kpQ0|]. by wsimpl.
Qed.

(** C3: two devices that are configured with each other's public key and the same
    preshared key agree: whenever the initiator creates an initiation whose stamp is
    newer than the last one the responder saw and that is not a flood, the responder
    consumes it and attributes it to the initiator; whenever it then creates a
    response, the initiator consumes that; both sides can start their session, and the
    two keypairs mirror each other in keys and indices, with all counters at zero. *)
Theorem handshake_agreement (wI wR wI1 : World) (p q : positive) (P Q : Peer) (m1 : MessageInitiation) :
  paired wI wR p q P Q ->
  CreateMessageInitiation p wI = Some (Ok m1, wI1) ->
  After (stamp (w_clock wI 0%nat / second) (w_clock wI 0%nat mod second)) (hs_lastTimestamp (p_handshake Q)) = true ->
  HandshakeInitationRate < timeSub (w_clock wR 0%nat) (hs_lastInitiationConsumption (p_handshake Q)) ->
  exists wR1, ConsumeMessageInitiation (retypeInitiation MessageInitiationType m1) wR = Some (Some q, wR1) /\
    forall m2 wR2, CreateMessageResponse q wR1 = Some (Ok m2, wR2) ->
      exists wI2 wI3 wR3 P' Q' kI kR KI KR,
        ConsumeMessageResponse (retypeResponse MessageResponseType m2) wI1 = Some (Some p, wI2) /\
        BeginSymmetricSession p wI2 = Some (None, wI3) /\ BeginSymmetricSession q wR2 = Some (None, wR3) /\
        w_peers wI3 !! p = Some P' /\ current (p_keypairs P') = Some kI /\ w_keypairs wI3 !! kI = Some KI /\
        w_peers wR3 !! q = Some Q' /\ next (p_keypairs Q') = Some kR /\ w_keypairs wR3 !! kR = Some KR /\ mirrored KI KR.
Proof.
  intros Hpair Hc1 Hts Hflood. destruct (inflight_reached wI wR wI1 p q P Q m1 Hpair Hc1 Hts Hflood) as (wR1 & P1 & Q1 & HR1 & Hfl).
  exists wR1. split; [exact HR1|]. intros m2 wR2 Hc2.
  destruct (inflight_completes _ _ _ _ _ _ _ _ Hfl Hc2) as (wI2 & P2 & Q2 & HI2 & HP2 & HQ2 & HkP & HkQ & HsP & HsQ & Hck & Hi1 & Hi2).
  destruct (deriveKeys_mirror _ _ HsP HsQ Hck) as (k1 & k2 & HdP & HdQ).
  destruct (BeginSymmetricSession_run wI2 p P2 k1 k2 true HP2 HkP HdP) as (wI3 & P3 & HbI & HpI & HkI & HcI & _).
  destruct (BeginSymmetricSession_run wR2 q Q2 k2 k1 false HQ2 HkQ HdQ) as (wR3 & Q3 & HbR & HpR & HkR & HcR & _).
  do 9 eexists. do 3 (split; [done|]). rewrite HpI, HpR, HkI, HkR. do 3 (split; [apply lookup_insert_eq || exact HcI|]).
  do 3 (split; [apply lookup_insert_eq || exact HcR|]). unfold mirrored. by split_and!.
Qed.
End Session.

(** ** Replayed initiations *)

Section Replays.
Context `{Primitives}.

(** What a consumed initiation proves: who sent it, and a stamp newer than the last. *)
Lemma ConsumeMessageInitiation_inv msg w q w' : ConsumeMessageInitiation msg w = Some (Some q, w') ->
  exists hash ck pk Q k ck' ts h, mi_Type msg = MessageInitiationType /\ openInitiation (w_dev w) msg = Some (hash, ck, pk) /\
    d_keyMap (w_dev w) !! pk = Some q /\ w_peers w !! q = Some Q /\
    KDF2 ck (hs_precomputedStaticStatic (p_handshake Q)) = (ck', k) /\ aeadOpen k ZeroNonce (mi_Timestamp msg) hash = Some ts /\
    After ts (hs_lastTimestamp (p_handshake Q)) = true /\ w_peers w' = <[q := with_handshake h Q]> (w_peers w) /\ w_dev w' = w_dev w /\
    hs_lastTimestamp h = ts /\ hs_localIndex h = hs_localIndex (p_handshake Q) /\
    hs_precomputedStaticStatic h = hs_precomputedStaticStatic (p_handshake Q) /\ w_keypairs w' = w_keypairs w.
Proof.
  unfold ConsumeMessageInitiation. destruct (mi_Type msg =? MessageInitiationType) eqn:Ety; cbn [negb]; [|intros Hr; prim_inv Hr].
  intros Hr. minv Hr. destruct (openInitiation _ _) as [[[hash ck] pk]|] eqn:Eo; [|prim_inv Hr]. unfold LookupPeer in Hr. minv Hr.
  destruct (d_keyMap _ !! pk) as [q'|] eqn:Ek; [|prim_inv Hr]. minv Hr. rename a into Q.
  destruct (p_isRunning Q); cbn [negb] in Hr; [|prim_inv Hr]. destruct (isZero _); [prim_inv Hr|].
  destruct (KDF2 _ _) as [ck' k] eqn:Ekdf. destruct (aeadOpen _ _ _ _) as [ts|] eqn:Ea; [|prim_inv Hr]. minv Hr.
  destruct (After ts _) eqn:Ets; cbn [negb] in Hr; [|prim_inv Hr]. destruct (timeSub _ _ <=? _); [prim_inv Hr|].
  do 2 minv Hr. same_peer. cbv zeta in Hr. wsimpl_in Hr. rewrite Ets in Hr. set (n := _ <? _) in Hr. clearbody n. prim_inv Hr. subst q'.
  exists hash, ck, pk, Q, k, ck', ts. eexists. split; [lia|]. do 6 (split; [done|]). wsimpl. split; [reflexivity|]. split; [done|]. destruct n; by wsimpl.
Qed.

(** C17: no initiation is consumed twice: after a device has consumed an initiation of
    peer [q], the same message is refused, and changes no peer, in every later state
    with the same keys in which the last stamp of that peer did not go back. *)
Theorem replayed_initiation_rejected (msg : MessageInitiation) (w w1 w2 : World) (q : positive) (Q1 Q2 : Peer) :
  ConsumeMessageInitiation msg w = Some (Some q, w1) -> w_peers w1 !! q = Some Q1 ->
  d_publicKey (w_dev w2) = d_publicKey (w_dev w) -> d_privateKey (w_dev w2) = d_privateKey (w_dev w) -> d_keyMap (w_dev w2) = d_keyMap (w_dev w) ->
  w_peers w2 !! q = Some Q2 -> hs_precomputedStaticStatic (p_handshake Q2) = hs_precomputedStaticStatic (p_handshake Q1) ->
  After (hs_lastTimestamp (p_handshake Q1)) (hs_lastTimestamp (p_handshake Q2)) = false ->
  exists w3, ConsumeMessageInitiation msg w2 = Some (None, w3) /\ w_peers w3 = w_peers w2 /\ w_dev w3 = w_dev w2.
Proof.
  intros Hc HQ1 Hpub Hpriv Hkm HQ2 Hpre Hlast.
  apply ConsumeMessageInitiation_inv in Hc as (hash & ck & pk & Q & k & ck' & ts & h & Hty & Ho & Hk & HQ & Hkdf & Ha & Hts & Hw1 & Hd1 & Hh & _ & Hpre' & _).
  rewrite Hw1, lookup_insert_eq in HQ1. injection HQ1 as <-. wsimpl_in Hlast. rewrite Hh in Hlast.
  unfold ConsumeMessageInitiation. rewrite Hty. cbn [negb Z.eqb MessageInitiationType Pos.eqb]. rewrite run_dev.
  assert (openInitiation (w_dev w2) msg = Some (hash, ck, pk)) as -> by (rewrite <- Ho; unfold openInitiation; by rewrite Hpub, Hpriv).
  unfold LookupPeer. rewrite run_gets, Hkm, Hk, (run_peerAt q Q2) by done.
  destruct (p_isRunning Q2); cbn [negb]; [|by eexists]. wsimpl_in Hpre. rewrite Hpre, Hpre', Hkdf, Ha. destruct (isZero _); [by eexists|].
  rewrite run_time_Now, Hlast. cbn [negb]. by eexists.
Qed.
End Replays.

(** ** A concrete pair *)

#[local] Existing Instance toyPrimitives.
#[local] Existing Instance toy_laws.

Definition sampleSide (own other clock : Z) : World :=
  let sk := replicate 32 own in
  let pk := publicKey (replicate 32 other) in
  let h := with_precomputedStaticStatic (scalarMult sk pk) (with_remoteStatic pk zeroHandshake) in
  let d := with_keyMap {[ pk := 1%positive ]} (with_privateKey sk (with_publicKey (publicKey sk) (newDeviceFields newRatelimiter 1420))) in
  mkWorld d {[ 1%positive := with_isRunning true (with_handshake h zeroPeer) ]} ∅ ∅ ∅ 2 (fun i => Z.of_nat i * own + 3) (fun _ => clock) (fun _ => 0) (fun _ => replicate 64 0) [] [].

(** Both creations succeed on the pair. *)
Definition sampleCreates : bool :=
  match CreateMessageInitiation 1 (sampleSide 5 7 (10 ^ 18)) with
  | Some (Ok m1, _) =>
      match ConsumeMessageInitiation (retypeInitiation MessageInitiationType m1) (sampleSide 7 5 (10 ^ 18)) with
      | Some (_, wR1) => match CreateMessageResponse 1 wR1 with Some (Ok _, _) => true | _ => false end
      | None => false
      end
  | _ => false
  end.

Lemma handshake_agreement_witness :
  exists m1 m2 wI1 wR1 wR2 wI2 wI3 wR3 kI kR P' Q' KI KR,
    CreateMessageInitiation 1 (sampleSide 5 7 (10 ^ 18)) = Some (Ok m1, wI1) /\
    ConsumeMessageInitiation (retypeInitiation MessageInitiationType m1) (sampleSide 7 5 (10 ^ 18)) = Some (Some 1%positive, wR1) /\
    CreateMessageResponse 1 wR1 = Some (Ok m2, wR2) /\
    ConsumeMessageResponse (retypeResponse MessageResponseType m2) wI1 = Some (Some 1%positive, wI2) /\
    BeginSymmetricSession 1 wI2 = Some (None, wI3) /\ BeginSymmetricSession 1 wR2 = Some (None, wR3) /\
    w_peers wI3 !! 1%positive = Some P' /\ current (p_keypairs P') = Some kI /\ w_keypairs wI3 !! kI = Some KI /\
    w_peers wR3 !! 1%positive = Some Q' /\ next (p_keypairs Q') = Some kR /\ w_keypairs wR3 !! kR = Some KR /\ mirrored KI KR.
Proof.
  assert (sampleCreates = true) as Hc by (vm_compute; reflexivity). unfold sampleCreates in Hc.
  destruct (CreateMessageInitiation 1 (sampleSide 5 7 (10 ^ 18))) as [[[m1|e] wI1]|] eqn:E1; [|discriminate Hc|discriminate Hc].
  destruct (handshake_agreement (sampleSide 5 7 (10 ^ 18)) (sampleSide 7 5 (10 ^ 18)) wI1 1 1
    (default zeroPeer (w_peers (sampleSide 5 7 (10 ^ 18)) !! 1%positive)) (default zeroPeer (w_peers (sampleSide 7 5 (10 ^ 18)) !! 1%positive)) m1
    ltac:(split; try (vm_compute; reflexivity); constructor) E1 ltac:(vm_compute; reflexivity) ltac:(vm_compute; reflexivity)) as (wR1 & E2 & Hresp).
  rewrite E2 in Hc. destruct (CreateMessageResponse 1 wR1) as [[[m2|e] wR2]|] eqn:E3; [|discriminate Hc|discriminate Hc].
  destruct (Hresp m2 wR2 eq_refl) as (wI2 & wI3 & wR3 & P' & Q' & kI & kR & KI & KR & Hall).
  exists m1, m2, wI1, wR1, wR2, wI2, wI3, wR3, kI, kR, P', Q', KI, KR. split; [reflexivity|]. split; [exact E2|]. split; [exact E3|]. exact Hall.
Defined.

Definition sampleInitiation : MessageInitiation :=
  match CreateMessageInitiation 1 (sampleSide 5 7 (10 ^ 18)) with
  | Some (Ok m, _) => retypeInitiation MessageInitiationType m
  | _ => mkInitiation 0 0 [] [] [] [] []
  end.
Definition sampleConsumed : World :=
  match ConsumeMessageInitiation sampleInitiation (sampleSide 7 5 (10 ^ 18)) with Some (Some _, w) => w | _ => sampleSide 7 5 0 end.

Lemma replayed_initiation_rejected_witness :
  exists w3, ConsumeMessageInitiation sampleInitiation sampleConsumed = Some (None, w3) /\
    w_peers w3 = w_peers sampleConsumed /\ w_dev w3 = w_dev sampleConsumed.
Proof.
  assert (match ConsumeMessageInitiation sampleInitiation (sampleSide 7 5 (10 ^ 18)) with Some (Some q, _) => bool_decide (q = 1%positive) | _ => false end = true) as Hc by (vm_compute; reflexivity).
  destruct (ConsumeMessageInitiation sampleInitiation (sampleSide 7 5 (10 ^ 18))) as [[[q|] w1]|] eqn:E; [|discriminate Hc|discriminate Hc].
  apply bool_decide_eq_true in Hc as ->.
  assert (sampleConsumed = w1) as -> by (unfold sampleConsumed; by rewrite E).
  assert (sampleConsumed = w1) as Hw by (unfold sampleConsumed; by rewrite E).
  apply (replayed_initiation_rejected sampleInitiation (sampleSide 7 5 (10 ^ 18)) w1 w1 1
    (default zeroPeer (w_peers w1 !! 1%positive)) (default zeroPeer (w_peers w1 !! 1%positive)) E); rewrite <- ?Hw; vm_compute; reflexivity.
Defined.
