(* ===== verification/Timers.v ===== *)
(** * Timers: the timers of a peer (src/device/timers.go)

    [timerMod] and [timerDel] start and stop one; the handlers below are called when
    packets are sent or received. What an expired timer does needs the send path and
    is in DeviceOps. *)
From S2P Require Import Prelude GoLib DeviceState.
#[local] Open Scope Z_scope.

Definition isUp : M bool := d ← dev; mret (bool_decide (d_state d = deviceStateUp)).
Definition isClosed : M bool := d ← dev; mret (bool_decide (d_state d = deviceStateClosed)).

Inductive timerName := TRetransmitHandshake | TSendKeepalive | TNewHandshake | TZeroKeyMaterial | TPersistentKeepalive.

Definition getTimer (n : timerName) (t : PeerTimers) : Timer :=
  match n with
  | TRetransmitHandshake => retransmitHandshake t
  | TSendKeepalive => sendKeepalive t
  | TNewHandshake => newHandshake t
  | TZeroKeyMaterial => zeroKeyMaterial t
  | TPersistentKeepalive => persistentKeepalive t
  end.
Definition setTimer (n : timerName) (v : Timer) (t : PeerTimers) : PeerTimers :=
  match n with
  | TRetransmitHandshake => with_retransmitHandshake v t
  | TSendKeepalive => with_sendKeepalive v t
  | TNewHandshake => with_newHandshake v t
  | TZeroKeyMaterial => with_zeroKeyMaterial v t
  | TPersistentKeepalive => with_persistentKeepalive v t
  end.

Definition timerMod (p : positive) (n : timerName) (d : Z) : M unit :=
  now ← time_Now; modTimers p (setTimer n (mkTimer true (Some (now + d)))).
Definition timerDel (p : positive) (n : timerName) : M unit := modTimers p (setTimer n (mkTimer false None)).
(** Deletes, waits for a running function, and deletes what that function started. *)
Definition timerDelSync (p : positive) (n : timerName) : M unit := timerDel p n ≫= fun _ => timerDel p n.
Definition timerIsPending (p : positive) (n : timerName) : M bool := P ← peerAt p; mret (isPending (getTimer n (p_timers P))).

Definition timersActive (p : positive) : M bool := P ← peerAt p; up ← isUp; mret (p_isRunning P && up).

(** [fastrandn(n)]: a number below [n]. *)
Definition fastrandn (n : Z) : M Z := draw (randInt n).
Definition jitter : M Z := j ← fastrandn RekeyTimeoutJitterMaxMs; mret (10 ^ 6 * j).

Definition timersDataSent (p : positive) : M unit :=
  active ← timersActive p; pending ← timerIsPending p TNewHandshake;
  whenM (active && negb pending) (j ← jitter; timerMod p TNewHandshake (KeepaliveTimeout + RekeyTimeout + j)).

Definition timersDataReceived (p : positive) : M unit :=
  active ← timersActive p; pending ← timerIsPending p TSendKeepalive;
  whenM active
    (if negb pending then timerMod p TSendKeepalive KeepaliveTimeout else modTimers p (with_needAnotherKeepalive true)).

Definition timersAnyAuthenticatedPacketSent (p : positive) : M unit :=
  active ← timersActive p; whenM active (timerDel p TSendKeepalive).

Definition timersAnyAuthenticatedPacketReceived (p : positive) : M unit :=
  active ← timersActive p; whenM active (timerDel p TNewHandshake).

Definition timersHandshakeInitiated (p : positive) : M unit :=
  active ← timersActive p; whenM active (j ← jitter; timerMod p TRetransmitHandshake (RekeyTimeout + j)).

Definition timersHandshakeComplete (p : positive) : M unit :=
  active ← timersActive p;
  whenM active (timerDel p TRetransmitHandshake) ≫= fun _ =>
  modTimers p (fun t => with_sentLastMinuteHandshake false (with_handshakeAttempts 0 t)) ≫= fun _ =>
  now ← time_Now;
  modPeer p (with_lastHandshakeNano now).

Definition timersSessionDerived (p : positive) : M unit :=
  active ← timersActive p; whenM active (timerMod p TZeroKeyMaterial (RejectAfterTime * 3)).

Definition timersAnyAuthenticatedPacketTraversal (p : positive) : M unit :=
  P ← peerAt p;
  let keepalive := p_persistentKeepaliveInterval P in
  active ← timersActive p;
  whenM ((0 <? keepalive) && active) (timerMod p TPersistentKeepalive (keepalive * second)).

Definition timersStart (p : positive) : M unit :=
  modTimers p (fun t => with_needAnotherKeepalive false (with_sentLastMinuteHandshake false (with_handshakeAttempts 0 t))).

Definition timersStop (p : positive) : M unit :=
  forM_ [TRetransmitHandshake; TSendKeepalive; TNewHandshake; TZeroKeyMaterial; TPersistentKeepalive] (timerDelSync p).
