(* ===== verification/Send.v ===== *)
(** * Send: the outbound path (src/device/send.go and SendBuffers of peer.go)

    Packets read from the TUN device are staged per peer, get a nonce, are encrypted
    by a worker and sent by the peer's sequential sender. A container travels through
    the peer's queue and the encryption queue at the same time, so it lives in the
    heap [w_out]; its lock is [oc_locked]. Buffers are not pooled in the model. *)
From S2P Require Import Prelude GoLib Replay MagicHeader Imitate AllowedIPs QUICInitial Obf Tai64n Crypto Cookie NoiseTypes NetIP DeviceState Noise Timers.
#[local] Open Scope Z_scope.

Inductive sendError := noEndpoint | bindFailed (code : Z) | noiseFailed (e : noiseError).

(** ** Slices of an element's buffer *)

Definition packetBytes (e : QueueOutboundElement) : option (list Z) :=
  match oe_packet e with
  | NilPacket => Some []
  | InBuffer off n => slice (oe_buffer e) off (off + n)
  | Detached b => Some b
  end.

Definition NewOutboundElement (buffer : list Z) : QueueOutboundElement := mkOutElem buffer NilPacket 0 None None.

Definition calculatePaddingSize (packetSize mtu : Z) : Z :=
  let lastUnit := packetSize in
  if mtu =? 0 then Z.land (lastUnit + PaddingMultiple - 1) (Z.lnot (PaddingMultiple - 1)) - lastUnit
  else
    let lastUnit := if mtu <? lastUnit then Z.rem lastUnit mtu else lastUnit in
    let paddedSize := Z.land (lastUnit + PaddingMultiple - 1) (Z.lnot (PaddingMultiple - 1)) in
    let paddedSize := if mtu <? paddedSize then mtu else paddedSize in
    paddedSize - lastUnit.

(** ** Sending buffers *)

Definition SendBuffers (p : positive) (buffers : list (list Z)) : M (option sendError) :=
  closed ← isClosed;
  if (closed : bool) then mret None else
  P ← peerAt p;
  let e := p_endpoint P in
  match ep_val e with
  | None => mret (Some noEndpoint)
  | Some endpoint =>
      let endpoint := if clearSrcOnTx e then mkEndpoint (ep_addr endpoint) (ep_port endpoint) [] else endpoint in
      modPeer p (with_endpoint (mkPeerEndpoint (Some endpoint) false (disableRoaming e))) ≫= fun _ =>
      err ← external;
      if err =? 0 then
        modify (fun w => with_sent ((endpoint, buffers) :: w_sent w) w) ≫= fun _ =>
        modPeer p (fun P => with_txBytes (u64 (p_txBytes P + foldl (fun t b => u64 (t + len b)) 0 buffers)) P) ≫= fun _ =>
        mret None
      else mret (Some (bindFailed err))
  end.

(** [if padding > 0 { buf := make(..); copy(buf[padding:], packet); device.fillPadding(buf, padding) }] *)
Definition addPadding (padding : Z) (packet : list Z) : M (list Z) :=
  if 0 <? padding then
    d ← dev;
    let buf := replicate (Z.to_nat padding) 0 ++ packet in
    draw (fillPadding (d_imitate d) buf padding)
  else mret packet.

Section Send.
Context `{Primitives} `{InitialCrypto}.

(** The packets of the custom signature chains I1-I5. *)
Fixpoint sendIPackets (chains : list (option obfChain)) : M (list (list Z) * list (option obfChain)) :=
  match chains with
  | [] => mret ([], [])
  | None :: chains => '(bufs, chains) ← sendIPackets chains; mret (bufs, None :: chains)
  | Some c :: chains =>
      let n := chainObfuscatedLen (obfs c) 0 in
      (if n <? 0 then panic else mret tt) ≫= fun _ =>
      now ← time_Now;
      '(buf, c) ← draw (fun r => '(buf, c, r) ← chainObfuscate (now / second) c (replicate (Z.to_nat n) 0) [] r; Some ((buf, c), r));
      '(bufs, chains) ← sendIPackets chains;
      mret (buf :: bufs, Some c :: chains)
  end.

(** [jc] packets of random size and content. *)
Fixpoint sendJunk (jc : nat) : M (list (list Z)) :=
  match jc with
  | O => mret []
  | S jc =>
      d ← dev;
      n ← draw (randInt (i64 (j_max (d_junk d) - j_min (d_junk d) + 1)));
      let n := n + j_min (d_junk d) in
      (if n <? 0 then panic else mret tt) ≫= fun _ =>
      '(buf, im) ← draw (fun r => '(buf, im, r) ← fillJunk (d_imitate d) (replicate (Z.to_nat n) 0) r; Some ((buf, im), r));
      modDev (with_imitate im) ≫= fun _ =>
      bufs ← sendJunk jc;
      mret (buf :: bufs)
  end.

(** [peer.cookieGenerator.AddMacs(packet)] *)
Definition addMacs (p : positive) (packet : list Z) : M (list Z) :=
  P ← peerAt p;
  now ← time_Now;
  '(packet, cg) ← lift (AddMacs (p_cookieGenerator P) packet now);
  modPeer p (with_cookieGenerator cg) ≫= fun _ => mret packet.

Definition SendHandshakeInitiation (p : positive) (isRetry : bool) : M (option sendError) :=
  whenM (negb isRetry) (modTimers p (with_handshakeAttempts 0)) ≫= fun _ =>
  P ← peerAt p;
  now ← time_Now;
  if timeSub now (hs_lastSentHandshake (p_handshake P)) <? RekeyTimeout then mret None else
  now ← time_Now;
  if timeSub now (hs_lastSentHandshake (p_handshake P)) <? RekeyTimeout then mret None else
  now ← time_Now;
  modHandshake p (with_lastSentHandshake now) ≫= fun _ =>
  created ← CreateMessageInitiation p;
  match created with
  | Err e => mret (Some (noiseFailed e))
  | Ok msg =>
      d ← dev;
      '(ibufs, chains) ← sendIPackets (d_ipackets d);
      modDev (with_ipackets chains) ≫= fun _ =>
      junk ← sendJunk (Z.to_nat (j_count (d_junk d)));
      packet ← addMacs p (writeInitiation msg);
      timersAnyAuthenticatedPacketTraversal p ≫= fun _ =>
      timersAnyAuthenticatedPacketSent p ≫= fun _ =>
      packet ← addPadding (pd_init (d_paddings d)) packet;
      err ← SendBuffers p (ibufs ++ junk ++ [packet]);
      timersHandshakeInitiated p ≫= fun _ =>
      mret err
  end.

Definition SendHandshakeResponse (p : positive) : M (option sendError) :=
  now ← time_Now;
  modHandshake p (with_lastSentHandshake now) ≫= fun _ =>
  created ← CreateMessageResponse p;
  match created with
  | Err e => mret (Some (noiseFailed e))
  | Ok response =>
      packet ← addMacs p (writeResponse response);
      err ← BeginSymmetricSession p;
      match err with
      | Some e => mret (Some (noiseFailed e))
      | None =>
          timersSessionDerived p ≫= fun _ =>
          timersAnyAuthenticatedPacketTraversal p ≫= fun _ =>
          timersAnyAuthenticatedPacketSent p ≫= fun _ =>
          d ← dev;
          packet ← addPadding (pd_response (d_paddings d)) packet;
          SendBuffers p [packet]
      end
  end.

(** [endpoint.DstToBytes()]: address, zone and little-endian port. *)
Definition DstToBytes (e : Endpoint) : list Z := ad_bytes (ep_addr e) ++ ad_zone (ep_addr e) ++ le_bytes 2 (ep_port e).

Definition SendHandshakeCookie (elem : QueueHandshakeElement) : M unit :=
  d ← dev;
  sender ← lift (slice (he_packet elem) 4 8);
  msgType ← draw (Generate (h_cookie (d_headers d)));
  now ← time_Now;
  '(reply, ck) ← draw (fun r =>
    '(reply, ck, r) ← CreateReply (d_cookieChecker d) (he_packet elem) (le_val sender) (DstToBytes (he_endpoint elem)) msgType now r;
    Some ((reply, ck), r));
  modDev (with_cookieChecker ck) ≫= fun _ =>
  packet ← addPadding (pd_cookie (d_paddings d)) (writeCookieReply reply);
  err ← external;
  whenM (err =? 0) (modify (fun w => with_sent ((he_endpoint elem, [packet]) :: w_sent w) w)).

Definition keepKeyFreshSending (p : positive) : M unit :=
  keypair ← Current p;
  match keypair with
  | None => mret tt
  | Some k =>
      K ← keypairAt k;
      now ← time_Now;
      if (RekeyAfterMessages <? kp_sendNonce K) || (kp_isInitiator K && (RekeyAfterTime <? timeSub now (kp_created K)))
      then _ ← SendHandshakeInitiation p false; mret tt
      else mret tt
  end.

(** ** Staging and nonces *)

(** The staged channel holds QueueStagedSize containers; when it is full the oldest
    one makes room. *)
Definition StagePackets (p : positive) (elems : list QueueOutboundElement) : M unit :=
  modPeer p (fun P =>
    let staged := if len (p_staged P) <? QueueStagedSize then p_staged P else drop 1 (p_staged P) in
    with_staged (staged ++ [elems]) P).

Definition FlushStagedPackets (p : positive) : M unit := modPeer p (with_staged []).

(** One element gets the next nonce; [inr] is an element the keypair has no nonce for. *)
Definition assignNonce (p k : positive) (elem : QueueOutboundElement) : M (QueueOutboundElement + QueueOutboundElement) :=
  K ← keypairAt k;
  let nonce := kp_sendNonce K in
  modKeypair k (with_sendNonce (u64 (nonce + 1))) ≫= fun _ =>
  if RejectAfterMessages <=? nonce then
    modKeypair k (with_sendNonce RejectAfterMessages) ≫= fun _ =>
    mret (inr (mkOutElem (oe_buffer elem) (oe_packet elem) nonce (oe_keypair elem) (Some p)))
  else mret (inl (mkOutElem (oe_buffer elem) (oe_packet elem) nonce (Some k) (Some p))).

(** The kept elements and those out of nonces, both in order. *)
Fixpoint assignNonces (p k : positive) (elems : list QueueOutboundElement) : M (list QueueOutboundElement * list QueueOutboundElement) :=
  match elems with
  | [] => mret ([], [])
  | elem :: elems =>
      r ← assignNonce p k elem;
      '(kept, ooo) ← assignNonces p k elems;
      mret match r with inl e => (e :: kept, ooo) | inr e => (kept, e :: ooo) end
  end.

(** [peer.queue.outbound.c <- elemsContainer; peer.device.queue.encryption.c <- elemsContainer] *)
Definition enqueueOutbound (p : positive) (elems : list QueueOutboundElement) : M unit :=
  P ← peerAt p;
  if p_isRunning P then
    c ← alloc;
    modify (fun w => with_out (<[c := mkOutContainer true elems]> (w_out w)) w) ≫= fun _ =>
    modPeer p (fun P => with_outbound (p_outbound P ++ [Some c]) P) ≫= fun _ =>
    modDev (fun d => with_encryption (d_encryption d ++ [c]) d)
  else mret tt.

(** A staged container gets its nonces and is queued; what is out of nonces is staged
    again. Answers whether nothing was queued and whether something was staged. *)
Definition sendBatch (p k : positive) (elems : list QueueOutboundElement) : M (bool * bool) :=
  '(kept, ooo) ← assignNonces p k elems;
  let again := negb (len ooo =? 0) in
  whenM again (StagePackets p ooo) ≫= fun _ =>
  if len kept =? 0 then mret (true, again) else
  enqueueOutbound p kept ≫= fun _ =>
  mret (false, again).

(** The two loops: [None] is the label top, [Some k] the inner loop with keypair [k];
    [stuck] is what running out of fuel would do. *)
Fixpoint sendStagedLoop (stuck : M unit) (fuel : nat) (p : positive) (at_ : option positive) : M unit :=
  match fuel with
  | O => stuck
  | S fuel =>
      match at_ with
      | None =>
          P ← peerAt p;
          up ← isUp;
          if (len (p_staged P) =? 0) || negb up then mret tt else
          keypair ← Current p;
          match keypair with
          | None => _ ← SendHandshakeInitiation p false; mret tt
          | Some k =>
              K ← keypairAt k;
              now ← time_Now;
              if (RejectAfterMessages <=? kp_sendNonce K) || (RejectAfterTime <=? timeSub now (kp_created K))
              then _ ← SendHandshakeInitiation p false; mret tt
              else sendStagedLoop stuck fuel p (Some k)
          end
      | Some k =>
          P ← peerAt p;
          match p_staged P with
          | [] => mret tt
          | elems :: rest =>
              modPeer p (with_staged rest) ≫= fun _ =>
              '(nothing, again) ← sendBatch p k elems;
              sendStagedLoop stuck fuel p (if nothing || again then None else Some k)
          end
      end
  end.

(** Every round of the inner loop takes a container from the queue and at most the
    last one puts one back, so twice the queue and a few rounds are enough. *)
Definition SendStagedPackets (p : positive) : M unit :=
  P ← peerAt p; sendStagedLoop panic (2 * length (p_staged P) + 4) p None.

Definition SendKeepalive (p : positive) : M unit :=
  P ← peerAt p;
  whenM ((len (p_staged P) =? 0) && p_isRunning P)
    (buffer ← GetMessageBuffer;
     modPeer p (fun P => with_staged (p_staged P ++ [[NewOutboundElement buffer]]) P)) ≫= fun _ =>
  SendStagedPackets p.

(** ** The TUN reader *)

(** The peer of a packet: [None] is an index out of range, [Some None] no peer. *)
Definition routePacket (t : AllowedIPs.AllowedIPs) (packet : list Z) : option (option positive) :=
  b ← at_ packet 0;
  if Z.shiftr b 4 =? 4 then
    if len packet <? 20 then Some None else dst ← slice packet 16 20; AllowedIPs.Lookup t dst
  else if Z.shiftr b 4 =? 6 then
    if len packet <? 40 then Some None else dst ← slice packet 24 40; AllowedIPs.Lookup t dst
  else Some None.

(** Adds an element to the container of its peer. *)
Fixpoint addElem {A} (p : positive) (e : A) (groups : list (positive * list A)) : list (positive * list A) :=
  match groups with
  | [] => [(p, [e])]
  | (q, es) :: groups => if decide (p = q) then (q, es ++ [e]) :: groups else (q, es) :: addElem p e groups
  end.

(** The packets of one read, by peer; a read fills the buffers from MessageTransportHeaderSize on. *)
Fixpoint groupPackets (t : AllowedIPs.AllowedIPs) (reads : list (list Z * Z)) (groups : list (positive * list QueueOutboundElement))
    : option (list (positive * list QueueOutboundElement)) :=
  match reads with
  | [] => Some groups
  | (buf, size) :: reads =>
      if size <? 1 then groupPackets t reads groups else
      packet ← slice buf MessageTransportHeaderSize (MessageTransportHeaderSize + size);
      r ← routePacket t packet;
      match r with
      | None => groupPackets t reads groups
      | Some p => groupPackets t reads (addElem p (mkOutElem buf (InBuffer MessageTransportHeaderSize size) 0 None None) groups)
      end
  end.

Inductive readResult := ReadOk | ReadTooManySegments | ReadFailed.

(** One round of RoutineReadFromTUN; [true] when it starts closing the device and returns. *)
Definition readFromTUN (reads : list (list Z * Z)) (res : readResult) : M bool :=
  d ← dev;
  groups ← lift (groupPackets (d_allowedips d) reads []);
  forM_ groups (fun '(p, elems) =>
    P ← peerAt p;
    if p_isRunning P then StagePackets p elems ≫= fun _ => SendStagedPackets p else mret tt) ≫= fun _ =>
  match res with
  | ReadFailed => closed ← isClosed; mret (negb closed)
  | _ => mret false
  end.

(** ** Encryption *)

(** [append(elem.packet, zeros...)] *)
Definition appendPacket (e : QueueOutboundElement) (zeros : list Z) : option QueueOutboundElement :=
  match oe_packet e with
  | NilPacket => Some (if len zeros =? 0 then e else mkOutElem (oe_buffer e) (Detached zeros) (oe_nonce e) (oe_keypair e) (oe_peer e))
  | Detached b => Some (mkOutElem (oe_buffer e) (Detached (b ++ zeros)) (oe_nonce e) (oe_keypair e) (oe_peer e))
  | InBuffer off n =>
      if off + n + len zeros <=? len (oe_buffer e) then
        buf ← copy_at (oe_buffer e) (off + n) zeros;
        Some (mkOutElem buf (InBuffer off (n + len zeros)) (oe_nonce e) (oe_keypair e) (oe_peer e))
      else
        b ← packetBytes e;
        Some (mkOutElem (oe_buffer e) (Detached (b ++ zeros)) (oe_nonce e) (oe_keypair e) (oe_peer e))
  end.

(** The body of the loop of RoutineEncryption; the header is the start of the buffer. *)
Definition encryptElement (e : QueueOutboundElement) : M QueueOutboundElement :=
  d ← dev;
  _ ← lift (slice (oe_buffer e) 0 MessageTransportHeaderSize);
  msgType ← draw (Generate (h_transport (d_headers d)));
  k ← lift (oe_keypair e);
  K ← keypairAt k;
  let header := le_bytes 4 msgType ++ le_bytes 4 (kp_remoteIndex K) ++ le_bytes 8 (oe_nonce e) in
  buf ← lift (copy_at (oe_buffer e) 0 header);
  let e := mkOutElem buf (oe_packet e) (oe_nonce e) (oe_keypair e) (oe_peer e) in
  (* pad content to multiple of 16 *)
  content ← lift (packetBytes e);
  zeros ← lift (slice (replicate 16 0) 0 (calculatePaddingSize (len content) (d_mtu d)));
  e ← lift (appendPacket e zeros);
  (* encrypt content and release to consumer *)
  content ← lift (packetBytes e);
  let sealed := aeadSeal (kp_send K) (replicate 4 0 ++ le_bytes 8 (oe_nonce e)) content [] in
  if MessageTransportHeaderSize + len sealed <=? len (oe_buffer e) then
    buf ← lift (copy_at (oe_buffer e) MessageTransportHeaderSize sealed);
    mret (mkOutElem buf (InBuffer 0 (MessageTransportHeaderSize + len sealed)) (oe_nonce e) (oe_keypair e) (oe_peer e))
  else mret (mkOutElem (oe_buffer e) (Detached (header ++ sealed)) (oe_nonce e) (oe_keypair e) (oe_peer e)).

Fixpoint encryptElements (es : list QueueOutboundElement) : M (list QueueOutboundElement) :=
  match es with
  | [] => mret []
  | e :: es => e ← encryptElement e; es ← encryptElements es; mret (e :: es)
  end.

(** One container of the encryption queue. *)
Definition RoutineEncryption : M unit :=
  d ← dev;
  match d_encryption d with
  | [] => mret tt
  | c :: rest =>
      modDev (with_encryption rest) ≫= fun _ =>
      C ← outAt c;
      es ← encryptElements (oc_elems C);
      modify (fun w => with_out (<[c := mkOutContainer false es]> (w_out w)) w)
  end.

(** ** The sequential sender *)

(** [for i := n - 1; i >= 0; i-- { buffer[i+padding] = buffer[i] }] *)
Fixpoint shiftLoop (n : nat) (padding : Z) (buf : list Z) : option (list Z) :=
  match n with
  | O => Some buf
  | S i =>
      b ← at_ buf (Z.of_nat i);
      buf ← set_at buf (Z.of_nat i + padding) b;
      shiftLoop i padding buf
  end.

(** The padding of a transport message, in place. *)
Definition padTransport (padding : Z) (e : QueueOutboundElement) : M QueueOutboundElement :=
  if 0 <? padding then
    d ← dev;
    packet ← lift (packetBytes e);
    let n := len packet in
    buf ← lift (shiftLoop (length packet) padding (oe_buffer e));
    whole ← lift (slice buf 0 (padding + n));
    filled ← draw (fillPadding (d_imitate d) whole padding);
    mret (mkOutElem (filled ++ drop (Z.to_nat (padding + n)) buf) (InBuffer 0 (padding + n)) (oe_nonce e) (oe_keypair e) (oe_peer e))
  else mret e.

Fixpoint collectBuffers (es : list QueueOutboundElement) : M (list (list Z) * bool) :=
  match es with
  | [] => mret ([], false)
  | e :: es =>
      packet ← lift (packetBytes e);
      d ← dev;
      e ← padTransport (pd_transport (d_paddings d)) e;
      b ← lift (packetBytes e);
      '(bs, dataSent) ← collectBuffers es;
      mret (b :: bs, negb (len packet =? MessageKeepaliveSize) || dataSent)
  end.

(** The codes of a bind whose GSO was disabled: the retry that went well, and one that did not. *)
Definition errGSORetryOk : Z := 1.
Definition errGSORetryFailed : Z := 2.

(** One container of the peer's queue; [false] when the routine stops or has to wait. *)
Definition RoutineSequentialSender (p : positive) : M bool :=
  P ← peerAt p;
  match p_outbound P with
  | [] => mret false
  | None :: rest => modPeer p (with_outbound rest) ≫= fun _ => mret false
  | Some c :: rest =>
      C ← outAt c;
      if oc_locked C then mret false else
      modPeer p (with_outbound rest) ≫= fun _ =>
      if negb (p_isRunning P) then mret true else
      '(bufs, dataSent) ← collectBuffers (oc_elems C);
      timersAnyAuthenticatedPacketTraversal p ≫= fun _ =>
      timersAnyAuthenticatedPacketSent p ≫= fun _ =>
      err ← SendBuffers p bufs;
      whenM dataSent (timersDataSent p) ≫= fun _ =>
      match err with
      | None => keepKeyFreshSending p ≫= fun _ => mret true
      | Some (bindFailed code) =>
          if code =? errGSORetryOk then keepKeyFreshSending p ≫= fun _ => mret true else mret true
      | Some _ => mret true
      end
  end.
End Send.
