(* ===== verification/Receive.v ===== *)
(** * Receive: the inbound path (src/device/receive.go)

    A datagram is classified by its length, padding and header range; transport
    messages are decrypted by a worker and handed to the peer's sequential receiver,
    handshake messages go through the handshake queue. Inbound containers live in the
    heap [w_in], as outbound ones do in [w_out]. *)
From S2P Require Import Prelude GoLib Replay MagicHeader Imitate AllowedIPs QUICInitial Obf Tai64n RateLimiter Crypto Cookie NoiseTypes NetIP DeviceState Noise Timers Send.
#[local] Open Scope Z_scope.

(** ** Endpoints *)

Definition SetEndpointFromPacket (p : positive) (endpoint : Endpoint) : M unit :=
  modPeer p (fun P => if disableRoaming (p_endpoint P) then P else with_endpoint (mkPeerEndpoint (Some endpoint) false false) P).

Definition markEndpointSrcForClearing (p : positive) : M unit :=
  modPeer p (fun P =>
    match ep_val (p_endpoint P) with
    | None => P
    | Some e => with_endpoint (mkPeerEndpoint (Some e) true (disableRoaming (p_endpoint P))) P
    end).

(** ** Classification *)

(** The four checks in order; [None] is an index out of range. *)
Definition checkType (packet : list Z) (padding : Z) (header : magicHeader) : option bool :=
  data ← slice packet padding (len packet);
  v ← slice data 0 4;
  Some (Validate header (le_val v)).

Definition DeterminePacketTypeAndPadding (d : Device) (packet : list Z) (expectedType : Z) : option (Z * Z) :=
  let size := len packet in
  let wanted ty := (expectedType =? MessageUnknownType) || (expectedType =? ty) in
  let '(pd, hd) := (d_paddings d, d_headers d) in
  isInit ← if wanted MessageInitiationType && (size =? pd_init pd + MessageInitiationSize)
           then checkType packet (pd_init pd) (h_init hd) else Some false;
  if (isInit : bool) then Some (MessageInitiationType, pd_init pd) else
  isResp ← if wanted MessageResponseType && (size =? pd_response pd + MessageResponseSize)
           then checkType packet (pd_response pd) (h_response hd) else Some false;
  if (isResp : bool) then Some (MessageResponseType, pd_response pd) else
  isCookie ← if wanted MessageCookieReplyType && (size =? pd_cookie pd + MessageCookieReplySize)
             then checkType packet (pd_cookie pd) (h_cookie hd) else Some false;
  if (isCookie : bool) then Some (MessageCookieReplyType, pd_cookie pd) else
  isTransport ← if wanted MessageTransportType && (pd_transport pd + MessageTransportHeaderSize <=? size)
                then checkType packet (pd_transport pd) (h_transport hd) else Some false;
  if (isTransport : bool) then Some (MessageTransportType, pd_transport pd) else
  Some (MessageUnknownType, 0).

(** What becomes of a datagram. *)
Inductive received := Dropped | ToPeer (p : positive) (e : QueueInboundElement) | ToHandshake (e : QueueHandshakeElement).

(** The body of the packet loop of RoutineReceiveIncoming. *)
Definition receiveDatagram (packet : list Z) (endpoint : Endpoint) : M received :=
  if len packet <? MinMessageSize then mret Dropped else
  d ← dev;
  '(msgType, padding) ← lift (DeterminePacketTypeAndPadding d packet MessageUnknownType);
  (* copy(packet, packet[padding:]); packet = packet[:len(packet)-padding] *)
  packet ← (if 0 <? padding then lift (slice packet padding (len packet)) else mret packet);
  if msgType =? MessageTransportType then
    if len packet <? MessageTransportSize then mret Dropped else
    receiver ← lift (slice packet MessageTransportOffsetReceiver MessageTransportOffsetCounter);
    value ← indexLookup (le_val receiver);
    match value with
    | Some (mkIndexEntry peer _ (Some k)) =>
        K ← keypairAt k;
        now ← time_Now;
        if kp_created K + RejectAfterTime <? now then mret Dropped
        else mret (ToPeer peer (mkInElem (Some packet) 0 k endpoint))
    | _ => mret Dropped
    end
  else if msgType =? MessageInitiationType then
    if len packet =? MessageInitiationSize then mret (ToHandshake (mkHsElem msgType packet endpoint)) else mret Dropped
  else if msgType =? MessageResponseType then
    if len packet =? MessageResponseSize then mret (ToHandshake (mkHsElem msgType packet endpoint)) else mret Dropped
  else if msgType =? MessageCookieReplyType then
    if len packet =? MessageCookieReplySize then mret (ToHandshake (mkHsElem msgType packet endpoint)) else mret Dropped
  else mret Dropped.

(** The handshake queue drops what does not fit. *)
Definition enqueueHandshake (e : QueueHandshakeElement) : M unit :=
  modDev (fun d => if len (d_handshakes d) <? QueueHandshakeSize then with_handshakes (d_handshakes d ++ [e]) d else d).

Fixpoint receiveBatch (dgrams : list (list Z * Endpoint)) (groups : list (positive * list QueueInboundElement))
    : M (list (positive * list QueueInboundElement)) :=
  match dgrams with
  | [] => mret groups
  | (packet, endpoint) :: dgrams =>
      r ← receiveDatagram packet endpoint;
      match r with
      | Dropped => receiveBatch dgrams groups
      | ToPeer p e => receiveBatch dgrams (addElem p e groups)
      | ToHandshake e => enqueueHandshake e ≫= fun _ => receiveBatch dgrams groups
      end
  end.

(** One batch of RoutineReceiveIncoming. *)
Definition RoutineReceiveIncoming (dgrams : list (list Z * Endpoint)) : M unit :=
  groups ← receiveBatch dgrams [];
  forM_ groups (fun '(p, elems) =>
    P ← peerAt p;
    if p_isRunning P then
      c ← alloc;
      modify (fun w => with_in (<[c := mkInContainer true elems]> (w_in w)) w) ≫= fun _ =>
      modPeer p (fun P => with_inbound (p_inbound P ++ [Some c]) P) ≫= fun _ =>
      modDev (fun d => with_decryption (d_decryption d ++ [c]) d)
    else mret tt).

Section Receive.
Context `{Primitives} `{InitialCrypto}.

(** ** Decryption *)

Definition decryptElement (e : QueueInboundElement) : M QueueInboundElement :=
  packet ← lift (ie_packet e);
  counter ← lift (slice packet MessageTransportOffsetCounter MessageTransportOffsetContent);
  content ← lift (slice packet MessageTransportOffsetContent (len packet));
  K ← keypairAt (ie_keypair e);
  let counter := le_val counter in
  mret (mkInElem (aeadOpen (kp_receive K) (replicate 4 0 ++ le_bytes 8 counter) content []) counter (ie_keypair e) (ie_endpoint e)).

Fixpoint decryptElements (es : list QueueInboundElement) : M (list QueueInboundElement) :=
  match es with
  | [] => mret []
  | e :: es => e ← decryptElement e; es ← decryptElements es; mret (e :: es)
  end.

(** One container of the decryption queue. *)
Definition RoutineDecryption : M unit :=
  d ← dev;
  match d_decryption d with
  | [] => mret tt
  | c :: rest =>
      modDev (with_decryption rest) ≫= fun _ =>
      C ← inAt c;
      es ← decryptElements (ic_elems C);
      modify (fun w => with_in (<[c := mkInContainer false es]> (w_in w)) w)
  end.

(** ** Handshake messages *)

Definition IsUnderLoad : M bool :=
  d ← dev;
  now ← time_Now;
  if QueueHandshakeSize / 8 <=? len (d_handshakes d) then
    modDev (with_underLoadUntil (now + UnderLoadAfterTime)) ≫= fun _ => mret true
  else mret (now <? d_underLoadUntil d).

(** The MAC and rate limit checks: whether the message is handled at all. *)
Definition admitHandshake (elem : QueueHandshakeElement) : M bool :=
  d ← dev;
  mac1 ← lift (CheckMAC1 (d_cookieChecker d) (he_packet elem));
  if negb mac1 then mret false else
  underLoad ← IsUnderLoad;
  if negb underLoad then mret true else
  now ← time_Now;
  mac2 ← lift (CheckMAC2 (d_cookieChecker d) (he_packet elem) (DstToBytes (he_endpoint elem)) now);
  if negb mac2 then SendHandshakeCookie elem ≫= fun _ => mret false else
  now ← time_Now;
  (* [DstIP], an address with its zone, is the key *)
  '(ok, limiter) ← lift (Allow (d_limiter d) (ad_bytes (ep_addr (he_endpoint elem)) ++ ad_zone (ep_addr (he_endpoint elem))) now);
  modDev (with_limiter limiter) ≫= fun _ =>
  mret ok.

Definition handleCookieReply (elem : QueueHandshakeElement) : M unit :=
  match readCookieReply (he_packet elem) with
  | None => mret tt
  | Some reply =>
      entry ← indexLookup (cr_Receiver reply);
      match entry with
      | None => mret tt
      | Some entry =>
          P ← peerAt (it_peer entry);
          if p_isRunning P then
            now ← time_Now;
            let '(_, cg) := ConsumeReply (p_cookieGenerator P) reply now in
            modPeer (it_peer entry) (with_cookieGenerator cg)
          else mret tt
      end
  end.

Definition addRxBytes (p : positive) (n : Z) : M unit := modPeer p (fun P => with_rxBytes (u64 (p_rxBytes P + n)) P).

Definition handleInitiation (elem : QueueHandshakeElement) : M unit :=
  match readInitiation (he_packet elem) with
  | None => mret tt
  | Some msg =>
      peer ← ConsumeMessageInitiation (retypeInitiation (he_msgType elem) msg);
      match peer with
      | None => mret tt
      | Some p =>
          timersAnyAuthenticatedPacketTraversal p ≫= fun _ =>
          timersAnyAuthenticatedPacketReceived p ≫= fun _ =>
          SetEndpointFromPacket p (he_endpoint elem) ≫= fun _ =>
          addRxBytes p (len (he_packet elem)) ≫= fun _ =>
          _ ← SendHandshakeResponse p;
          mret tt
      end
  end.

Definition handleResponse (elem : QueueHandshakeElement) : M unit :=
  match readResponse (he_packet elem) with
  | None => mret tt
  | Some msg =>
      peer ← ConsumeMessageResponse (retypeResponse (he_msgType elem) msg);
      match peer with
      | None => mret tt
      | Some p =>
          SetEndpointFromPacket p (he_endpoint elem) ≫= fun _ =>
          addRxBytes p (len (he_packet elem)) ≫= fun _ =>
          timersAnyAuthenticatedPacketTraversal p ≫= fun _ =>
          timersAnyAuthenticatedPacketReceived p ≫= fun _ =>
          err ← BeginSymmetricSession p;
          match err with
          | Some _ => mret tt
          | None =>
              timersSessionDerived p ≫= fun _ =>
              timersHandshakeComplete p ≫= fun _ =>
              SendKeepalive p
          end
      end
  end.

Definition handleHandshake (elem : QueueHandshakeElement) : M unit :=
  if he_msgType elem =? MessageCookieReplyType then handleCookieReply elem
  else if he_msgType elem =? MessageInitiationType then
    ok ← admitHandshake elem; if (ok : bool) then handleInitiation elem else mret tt
  else if he_msgType elem =? MessageResponseType then
    ok ← admitHandshake elem; if (ok : bool) then handleResponse elem else mret tt
  else mret tt.

(** One element of the handshake queue. *)
Definition RoutineHandshake : M unit :=
  d ← dev;
  match d_handshakes d with
  | [] => mret tt
  | elem :: rest => modDev (with_handshakes rest) ≫= fun _ => handleHandshake elem
  end.

(** ** The sequential receiver *)

Definition keepKeyFreshReceiving (p : positive) : M unit :=
  P ← peerAt p;
  if sentLastMinuteHandshake (p_timers P) then mret tt else
  match current (p_keypairs P) with
  | None => mret tt
  | Some k =>
      K ← keypairAt k;
      now ← time_Now;
      if kp_isInitiator K && (RejectAfterTime - KeepaliveTimeout - RekeyTimeout <? timeSub now (kp_created K)) then
        modTimers p (with_sentLastMinuteHandshake true) ≫= fun _ =>
        _ ← SendHandshakeInitiation p false; mret tt
      else mret tt
  end.

(** The inner packet as it goes to the TUN device, when its length and source address
    are acceptable. The source address is sliced from the capacity of the packet, so
    a length field that wraps around does not make it fail. *)
Definition innerPacket (t : AllowedIPs.AllowedIPs) (p : positive) (packet : list Z) : option (option (list Z)) :=
  b ← at_ packet 0;
  if Z.shiftr b 4 =? 4 then
    if len packet <? 20 then Some None else
    field ← slice packet 2 4;
    let length := be_val field in
    if (len packet <? length) || (length <? 20) then Some None else
    src ← slice packet 12 16;
    q ← AllowedIPs.Lookup t src;
    out ← slice packet 0 length;
    Some (if decide (q = Some p) then Some out else None)
  else if Z.shiftr b 4 =? 6 then
    if len packet <? 40 then Some None else
    field ← slice packet 4 6;
    let length := u16 (be_val field + 40) in
    if len packet <? length then Some None else
    src ← slice packet 8 24;
    q ← AllowedIPs.Lookup t src;
    out ← slice packet 0 length;
    Some (if decide (q = Some p) then Some out else None)
  else Some None.

(** What the loop over a container accumulates. *)
Record batchState := mkBatch { b_tail : option Endpoint; b_data : bool; b_rx : Z; b_bufs : list (list Z) }.

Definition receiveElement (p : positive) (b : batchState) (e : QueueInboundElement) : M batchState :=
  match ie_packet e with
  | None => mret b
  | Some packet =>
      K ← keypairAt (ie_keypair e);
      let '(ok, filter) := ValidateCounter (kp_replayFilter K) (ie_counter e) RejectAfterMessages in
      modKeypair (ie_keypair e) (with_replayFilter filter) ≫= fun _ =>
      if negb ok then mret b else
      confirmed ← ReceivedWithKeypair p (ie_keypair e);
      whenM confirmed
        (SetEndpointFromPacket p (ie_endpoint e) ≫= fun _ =>
         timersHandshakeComplete p ≫= fun _ =>
         SendStagedPackets p) ≫= fun _ =>
      let rx := u64 (b_rx b + u64 (len packet + MinMessageSize)) in
      if len packet =? 0 then mret (mkBatch (Some (ie_endpoint e)) (b_data b) rx (b_bufs b)) else
      d ← dev;
      out ← lift (innerPacket (d_allowedips d) p packet);
      mret (mkBatch (Some (ie_endpoint e)) true rx (b_bufs b ++ option_list out))
  end.

Fixpoint receiveElements (p : positive) (b : batchState) (es : list QueueInboundElement) : M batchState :=
  match es with
  | [] => mret b
  | e :: es => b ← receiveElement p b e; receiveElements p b es
  end.

(** One container of the peer's queue; [false] when the routine stops or has to wait. *)
Definition RoutineSequentialReceiver (p : positive) : M bool :=
  P ← peerAt p;
  match p_inbound P with
  | [] => mret false
  | None :: rest => modPeer p (with_inbound rest) ≫= fun _ => mret false
  | Some c :: rest =>
      C ← inAt c;
      if ic_locked C then mret false else
      modPeer p (with_inbound rest) ≫= fun _ =>
      b ← receiveElements p (mkBatch None false 0 []) (ic_elems C);
      addRxBytes p (b_rx b) ≫= fun _ =>
      match b_tail b with
      | None => mret tt
      | Some endpoint =>
          SetEndpointFromPacket p endpoint ≫= fun _ =>
          keepKeyFreshReceiving p ≫= fun _ =>
          timersAnyAuthenticatedPacketTraversal p ≫= fun _ =>
          timersAnyAuthenticatedPacketReceived p
      end ≫= fun _ =>
      whenM (b_data b) (timersDataReceived p) ≫= fun _ =>
      whenM (negb (len (b_bufs b) =? 0)) (modify (fun w => with_tun (rev (b_bufs b) ++ w_tun w) w)) ≫= fun _ =>
      mret true
  end.
End Receive.
