(* ===== verification/DeviceOps.v ===== *)
(** * DeviceOps: the life cycle of peers and of the device

    src/device/peer.go (Start, Stop, key erasure), the expiry functions of timers.go
    and src/device/device.go. [peer.stopping.Wait] in Stop returns when the peer's two
    routines have taken the nil that was queued behind their work; here the workers
    and the routines are run until that is the case. Loops over the peer map go
    through it in the order of the map. *)
From S2P Require Import Prelude GoLib Replay MagicHeader Imitate AllowedIPs QUICInitial Obf Tai64n RateLimiter Crypto Cookie NoiseTypes DeviceState Noise Timers Send Receive.
#[local] Open Scope Z_scope.

Section Ops.
Context `{Primitives} `{InitialCrypto}.

(** ** Peers *)

Inductive peerError := deviceClosed | tooManyPeers | existingPeer.

Definition NewPeer (pk : list Z) : M (result positive peerError) :=
  closed ← isClosed;
  if (closed : bool) then mret (Err deviceClosed) else
  d ← dev;
  if MaxPeers <=? Z.of_nat (size (d_keyMap d)) then mret (Err tooManyPeers) else
  match d_keyMap d !! pk with
  | Some _ => mret (Err existingPeer)
  | None =>
      let '(ss, _) := sharedSecret (d_privateKey d) pk in
      let h := with_remoteStatic pk (with_precomputedStaticStatic ss zeroHandshake) in
      let P := with_handshake h (with_cookieGenerator (generatorInit (p_cookieGenerator zeroPeer) pk) zeroPeer) in
      p ← alloc;
      modify (fun w => with_peers (<[p := P]> (w_peers w)) w) ≫= fun _ =>
      modDev (fun d => with_keyMap (<[pk := p]> (d_keyMap d)) d) ≫= fun _ =>
      mret (Ok p)
  end.

Definition ZeroAndFlushAll (p : positive) : M unit :=
  P ← peerAt p;
  DeleteKeypair (previous (p_keypairs P)) ≫= fun _ =>
  DeleteKeypair (current (p_keypairs P)) ≫= fun _ =>
  DeleteKeypair (next (p_keypairs P)) ≫= fun _ =>
  modPeer p (with_keypairs (mkKeypairs None None None)) ≫= fun _ =>
  P ← peerAt p;
  indexDelete (hs_localIndex (p_handshake P)) ≫= fun _ =>
  modHandshake p Clear ≫= fun _ =>
  FlushStagedPackets p.

Definition expireKeypair (key : option positive) : M unit :=
  match key with None => mret tt | Some k => modKeypair k (with_sendNonce RejectAfterMessages) end.

Definition ExpireCurrentKeypairs (p : positive) : M unit :=
  P ← peerAt p;
  indexDelete (hs_localIndex (p_handshake P)) ≫= fun _ =>
  now ← time_Now;
  modHandshake p (fun h => with_lastSentHandshake (now - (RekeyTimeout + second)) (Clear h)) ≫= fun _ =>
  expireKeypair (current (p_keypairs P)) ≫= fun _ =>
  expireKeypair (next (p_keypairs P)).

(** The queues are emptied; a nil in them would be dereferenced. *)
Definition flushQueue (q : list (option positive)) : option (list (option positive)) :=
  if decide (None ∈ q) then None else Some [].

Definition Start (p : positive) : M unit :=
  closed ← isClosed;
  if (closed : bool) then mret tt else
  P ← peerAt p;
  if p_isRunning P then mret tt else
  now ← time_Now;
  modHandshake p (with_lastSentHandshake (now - (RekeyTimeout + second))) ≫= fun _ =>
  timersStart p ≫= fun _ =>
  inb ← lift (flushQueue (p_inbound P));
  outb ← lift (flushQueue (p_outbound P));
  modPeer p (fun P => with_isRunning true (with_outbound outb (with_inbound inb P))).

(** [n] rounds of a worker. *)
Fixpoint repeatM (n : nat) (m : M unit) : M unit :=
  match n with O => mret tt | S n => m ≫= fun _ => repeatM n m end.
Fixpoint untilStopped (n : nat) (m : M bool) : M unit :=
  match n with O => mret tt | S n => go ← m; if (go : bool) then untilStopped n m else mret tt end.

(** [peer.stopping.Wait] after the two nils were queued. *)
Definition waitRoutines (p : positive) : M unit :=
  d ← dev;
  repeatM (length (d_decryption d)) RoutineDecryption ≫= fun _ =>
  P ← peerAt p;
  untilStopped (length (p_inbound P)) (RoutineSequentialReceiver p) ≫= fun _ =>
  d ← dev;
  repeatM (length (d_encryption d)) RoutineEncryption ≫= fun _ =>
  P ← peerAt p;
  untilStopped (length (p_outbound P)) (RoutineSequentialSender p).

Definition Stop (p : positive) : M unit :=
  P ← peerAt p;
  if negb (p_isRunning P) then mret tt else
  modPeer p (with_isRunning false) ≫= fun _ =>
  timersStop p ≫= fun _ =>
  modPeer p (fun P => with_outbound (p_outbound P ++ [None]) (with_inbound (p_inbound P ++ [None]) P)) ≫= fun _ =>
  waitRoutines p ≫= fun _ =>
  ZeroAndFlushAll p.

(** ** Expired timers *)

Definition expiredRetransmitHandshake (p : positive) : M unit :=
  P ← peerAt p;
  if MaxTimerHandshakes <? handshakeAttempts (p_timers P) then
    active ← timersActive p;
    whenM active (timerDel p TSendKeepalive) ≫= fun _ =>
    FlushStagedPackets p ≫= fun _ =>
    active ← timersActive p; pending ← timerIsPending p TZeroKeyMaterial;
    whenM (active && negb pending) (timerMod p TZeroKeyMaterial (RejectAfterTime * 3))
  else
    modTimers p (fun t => with_handshakeAttempts (u32 (handshakeAttempts t + 1)) t) ≫= fun _ =>
    markEndpointSrcForClearing p ≫= fun _ =>
    _ ← SendHandshakeInitiation p true;
    mret tt.

Definition expiredSendKeepalive (p : positive) : M unit :=
  SendKeepalive p ≫= fun _ =>
  P ← peerAt p;
  if needAnotherKeepalive (p_timers P) then
    modTimers p (with_needAnotherKeepalive false) ≫= fun _ =>
    active ← timersActive p;
    whenM active (timerMod p TSendKeepalive KeepaliveTimeout)
  else mret tt.

Definition expiredNewHandshake (p : positive) : M unit :=
  markEndpointSrcForClearing p ≫= fun _ => _ ← SendHandshakeInitiation p false; mret tt.

Definition expiredZeroKeyMaterial (p : positive) : M unit := ZeroAndFlushAll p.

Definition expiredPersistentKeepalive (p : positive) : M unit :=
  P ← peerAt p; whenM (0 <? p_persistentKeepaliveInterval P) (SendKeepalive p).

Definition expired (p : positive) (n : timerName) : M unit :=
  match n with
  | TRetransmitHandshake => expiredRetransmitHandshake p
  | TSendKeepalive => expiredSendKeepalive p
  | TNewHandshake => expiredNewHandshake p
  | TZeroKeyMaterial => expiredZeroKeyMaterial p
  | TPersistentKeepalive => expiredPersistentKeepalive p
  end.

(** The function NewTimer hands to the runtime. *)
Definition fireTimer (p : positive) (n : timerName) : M unit :=
  pending ← timerIsPending p n;
  if negb pending then mret tt else
  modTimers p (setTimer n (mkTimer false None)) ≫= fun _ =>
  expired p n.

(** ** The device *)

Definition peersOf (d : Device) : list (list Z * positive) := map_to_list (d_keyMap d).

Definition removePeerLocked (p : positive) (key : list Z) : M unit :=
  d ← dev;
  t ← lift (RemoveByPeer (d_allowedips d) p);
  modDev (with_allowedips t) ≫= fun _ =>
  Stop p ≫= fun _ =>
  modDev (fun d => with_keyMap (delete key (d_keyMap d)) d).

Definition RemovePeer (key : list Z) : M unit :=
  d ← dev;
  match d_keyMap d !! key with None => mret tt | Some p => removePeerLocked p key end.

Definition RemoveAllPeers : M unit :=
  d ← dev;
  forM_ (peersOf d) (fun '(key, p) => removePeerLocked p key) ≫= fun _ =>
  modDev (with_keyMap ∅).

(** The bind answers with 0 when a call went well; Open answers with the port and the
    number of receive functions. *)
Definition closeBindLocked : M Z :=
  err ← external;
  modDev (fun d => with_net (mkNet (n_port (d_net d)) (n_fwmark (d_net d)) (n_brokenRoaming (d_net d)) 0) d) ≫= fun _ =>
  mret err.

Definition setPort (port : Z) : M unit :=
  modDev (fun d => with_net (mkNet port (n_fwmark (d_net d)) (n_brokenRoaming (d_net d)) (n_receivers (d_net d))) d).

Definition clearSources : M unit := d ← dev; forM_ (peersOf d) (fun '(_, p) => markEndpointSrcForClearing p).

Definition BindSetMark (mark : Z) : M Z :=
  d ← dev;
  if n_fwmark (d_net d) =? mark then mret 0 else
  modDev (fun d => with_net (mkNet (n_port (d_net d)) mark (n_brokenRoaming (d_net d)) (n_receivers (d_net d))) d) ≫= fun _ =>
  up ← isUp;
  err ← (if (up : bool) then external else mret 0);
  if negb (err =? 0) then mret err else
  clearSources ≫= fun _ => mret 0.

Definition BindUpdate : M Z :=
  err ← closeBindLocked;
  if negb (err =? 0) then mret err else
  up ← isUp;
  if negb up then mret 0 else
  (* netc.bind.Open(netc.port) *)
  err ← external;
  if negb (err =? 0) then setPort 0 ≫= fun _ => mret err else
  port ← external;
  setPort (u16 port) ≫= fun _ =>
  (* device.startRouteListener(netc.bind) *)
  err ← external;
  if negb (err =? 0) then (_ ← external; setPort 0 ≫= fun _ => mret err) else
  d ← dev;
  err ← (if n_fwmark (d_net d) =? 0 then mret 0 else external);
  if negb (err =? 0) then mret err else
  clearSources ≫= fun _ =>
  recvFns ← external;
  modDev (fun d => with_net (mkNet (n_port (d_net d)) (n_fwmark (d_net d)) (n_brokenRoaming (d_net d)) recvFns) d) ≫= fun _ =>
  mret 0.

Definition BindClose : M Z := closeBindLocked.

Definition upLocked : M Z :=
  err ← BindUpdate;
  if negb (err =? 0) then mret err else
  d ← dev;
  forM_ (peersOf d) (fun '(_, p) =>
    Start p ≫= fun _ =>
    P ← peerAt p;
    whenM (0 <? p_persistentKeepaliveInterval P) (SendKeepalive p)) ≫= fun _ =>
  mret 0.

Definition downLocked : M Z :=
  err ← BindClose;
  d ← dev;
  forM_ (peersOf d) (fun '(_, p) => Stop p) ≫= fun _ =>
  mret err.

Definition changeState (want : deviceState) : M Z :=
  d ← dev;
  let old := d_state d in
  if decide (old = deviceStateClosed) then mret 0 else
  if decide (want = old) then mret 0 else
  let goDown (err : Z) :=
    modDev (with_dstate deviceStateDown) ≫= fun _ =>
    errDown ← downLocked;
    mret (if err =? 0 then errDown else err) in
  match want with
  | deviceStateUp =>
      modDev (with_dstate deviceStateUp) ≫= fun _ =>
      err ← upLocked;
      if err =? 0 then mret 0 else goDown err
  | deviceStateDown => goDown 0
  | deviceStateClosed => mret 0
  end.

Definition Up : M Z := changeState deviceStateUp.
Definition Down : M Z := changeState deviceStateDown.

(** The events of the TUN device; [mtu] is its answer, [None] when it has none. *)
Definition tunEvent (mtuUpdate eventUp eventDown : bool) (mtu : option Z) : M unit :=
  let others :=
    whenM eventUp (_ ← Up; mret tt) ≫= fun _ => whenM eventDown (_ ← Down; mret tt) in
  if mtuUpdate then
    match mtu with
    | None => mret tt
    | Some mtu =>
        if mtu <? 0 then mret tt else
        modDev (with_mtu (if MaxContentSize <? mtu then MaxContentSize else mtu)) ≫= fun _ => others
    end
  else others.

Definition SetPrivateKey (sk : list Z) : M unit :=
  d ← dev;
  if Equals sk (d_privateKey d) then mret tt else
  (* remove peers with matching public keys *)
  let publicKey := NoiseTypes.publicKey sk in
  forM_ (peersOf d) (fun '(key, p) =>
    P ← peerAt p;
    whenM (Equals (hs_remoteStatic (p_handshake P)) publicKey) (removePeerLocked p key)) ≫= fun _ =>
  (* update key material *)
  modDev (fun d => with_cookieChecker (checkerInit (d_cookieChecker d) publicKey) (with_publicKey publicKey (with_privateKey sk d))) ≫= fun _ =>
  (* do static-static DH pre-computations *)
  d ← dev;
  forM_ (peersOf d) (fun '(_, p) =>
    modHandshake p (fun h => with_precomputedStaticStatic (sharedSecret sk (hs_remoteStatic h)).1 h)) ≫= fun _ =>
  forM_ (peersOf d) (fun '(_, p) => ExpireCurrentKeypairs p).

Definition Close : M unit :=
  closed ← isClosed;
  if (closed : bool) then mret tt else
  modDev (with_dstate deviceStateClosed) ≫= fun _ =>
  _ ← external;                    (* device.tun.device.Close() *)
  _ ← downLocked;
  RemoveAllPeers ≫= fun _ =>
  d ← dev;
  limiter ← lift (RateLimiter.Close (d_limiter d));
  modDev (with_limiter limiter).

Definition SendKeepalivesToPeersWithCurrentKeypair : M unit :=
  up ← isUp;
  if negb up then mret tt else
  d ← dev;
  forM_ (peersOf d) (fun '(_, p) =>
    P ← peerAt p;
    match current (p_keypairs P) with
    | None => mret tt
    | Some k =>
        K ← keypairAt k;
        now ← time_Now;
        whenM (negb (kp_created K + RejectAfterTime <? now)) (SendKeepalive p)
    end).
End Ops.
