(* ===== verification/Uapi.v ===== *)
(** * Uapi: the configuration protocol (src/device/uapi.go)

    The set operation reads key=value lines and changes the device as it goes; the get
    operation prints the configuration. The bind parses endpoints as
    src/conn/bind_std.go does. *)
From S2P Require Import Prelude GoLib Replay MagicHeader Imitate AllowedIPs QUICInitial Obf Tai64n RateLimiter Crypto Cookie NoiseTypes NetIP DeviceState Noise Timers Send Receive DeviceOps.
#[local] Open Scope Z_scope.

(** The codes of src/ipc/uapi_unix.go on Linux. *)
Definition IpcErrorIO : Z := -5.
Definition IpcErrorProtocol : Z := -71.
Definition IpcErrorInvalid : Z := -22.
Definition IpcErrorPortInUse : Z := -98.

(** An operation returns the code of its error, or [None]. *)
Abbreviation IPCError := (option Z) (only parsing).

Definition ParseEndpoint (s : list Z) : option Endpoint := '(a, port) ← ParseAddrPort s; Some (mkEndpoint a port []).

Section Uapi.
Context `{Primitives} `{InitialCrypto}.

Definition invalid : M IPCError := mret (Some IpcErrorInvalid).
Definition okay : M IPCError := mret None.

(** [n, err := strconv.Atoi(value)] with a test of [n]. *)
Definition withInt (value : list Z) (bad : Z -> bool) (set : Z -> Device -> Device) : M IPCError :=
  match Atoi value with
  | None => invalid
  | Some n => if bad n then invalid else modDev (set n) ≫= fun _ => okay
  end.
Definition withHeader (value : list Z) (set : magicHeader -> Headers -> Headers) : M IPCError :=
  match newMagicHeader value with
  | Err _ => invalid
  | Ok h => modDev (fun d => with_headers (set h (d_headers d)) d) ≫= fun _ => okay
  end.
Definition withChain (value : list Z) (i : nat) : M IPCError :=
  chain ← lift (newObfChain value);
  match chain with
  | Err _ => invalid
  | Ok c => modDev (fun d => with_ipackets (<[i := Some c]> (d_ipackets d)) d) ≫= fun _ => okay
  end.

Definition setJunk (f : Junk -> Junk) (d : Device) : Device := with_junk (f (d_junk d)) d.
Definition setPaddings (f : Paddings -> Paddings) (d : Device) : Device := with_paddings (f (d_paddings d)) d.

Definition handleDeviceLine (key value : list Z) : M IPCError :=
  if str_eqb key (str "private_key") then
    let '(ok, sk) := PrivateKeyFromMaybeZeroHex zeroKey value in
    if negb ok then invalid else SetPrivateKey sk ≫= fun _ => okay
  else if str_eqb key (str "listen_port") then
    match ParseUint value 16 with
    | None => invalid
    | Some port =>
        setPort (u16 port) ≫= fun _ =>
        err ← BindUpdate;
        if negb (err =? 0) then mret (Some IpcErrorPortInUse) else okay
    end
  else if str_eqb key (str "fwmark") then
    match ParseUint value 32 with
    | None => invalid
    | Some mark => err ← BindSetMark (u32 mark); if negb (err =? 0) then mret (Some IpcErrorPortInUse) else okay
    end
  else if str_eqb key (str "replace_peers") then
    if negb (str_eqb value (str "true")) then invalid else RemoveAllPeers ≫= fun _ => okay
  else if str_eqb key (str "jc") then withInt value (fun n => n <=? 0) (fun n => setJunk (fun j => mkJunk (j_min j) (j_max j) n))
  else if str_eqb key (str "jmin") then withInt value (fun n => n <=? 0) (fun n => setJunk (fun j => mkJunk n (j_max j) (j_count j)))
  else if str_eqb key (str "jmax") then withInt value (fun n => n <=? 0) (fun n => setJunk (fun j => mkJunk (j_min j) n (j_count j)))
  else if str_eqb key (str "s1") then
    withInt value (fun n => n <? 0) (fun n => setPaddings (fun s => mkPaddings n (pd_response s) (pd_cookie s) (pd_transport s)))
  else if str_eqb key (str "s2") then
    withInt value (fun n => n <? 0) (fun n => setPaddings (fun s => mkPaddings (pd_init s) n (pd_cookie s) (pd_transport s)))
  else if str_eqb key (str "s3") then
    withInt value (fun n => n <? 0) (fun n => setPaddings (fun s => mkPaddings (pd_init s) (pd_response s) n (pd_transport s)))
  else if str_eqb key (str "s4") then
    withInt value (fun n => n <? 0) (fun n => setPaddings (fun s => mkPaddings (pd_init s) (pd_response s) (pd_cookie s) n))
  else if str_eqb key (str "imitate_protocol") then
    match parseImitateProto value with
    | None => invalid
    | Some proto => modDev (fun d => with_imitate (mkDeviceImitate proto (junkCounter (d_imitate d))) d) ≫= fun _ => okay
    end
  else if str_eqb key (str "h1") then withHeader value (fun h s => mkHeaders h (h_response s) (h_cookie s) (h_transport s))
  else if str_eqb key (str "h2") then withHeader value (fun h s => mkHeaders (h_init s) h (h_cookie s) (h_transport s))
  else if str_eqb key (str "h3") then withHeader value (fun h s => mkHeaders (h_init s) (h_response s) h (h_transport s))
  else if str_eqb key (str "h4") then withHeader value (fun h s => mkHeaders (h_init s) (h_response s) (h_cookie s) h)
  else if str_eqb key (str "i1") then withChain value 0
  else if str_eqb key (str "i2") then withChain value 1
  else if str_eqb key (str "i3") then withChain value 2
  else if str_eqb key (str "i4") then withChain value 3
  else if str_eqb key (str "i5") then withChain value 4
  else invalid.

(** The peer the operation is at; [sp_peer] is [None] before the first. *)
Record ipcSetPeer := mkSetPeer { sp_peer : option positive; sp_dummy : bool; sp_created : bool; sp_pkaOn : bool }.

Definition handlePostConfig (sp : ipcSetPeer) : M unit :=
  match sp_peer sp with
  | None => mret tt
  | Some p =>
      if sp_dummy sp then mret tt else
      d ← dev;
      whenM (sp_created sp)
        (modPeer p (fun P =>
           let e := p_endpoint P in
           with_endpoint (mkPeerEndpoint (ep_val e) (clearSrcOnTx e) (n_brokenRoaming (d_net d) && if ep_val e then true else false)) P)) ≫= fun _ =>
      up ← isUp;
      whenM up
        (Start p ≫= fun _ =>
         whenM (sp_pkaOn sp) (SendKeepalive p) ≫= fun _ =>
         SendStagedPackets p)
  end.

(** [&Peer{}] *)
Definition newDummy : M positive := p ← alloc; modify (fun w => with_peers (<[p := zeroPeer]> (w_peers w)) w) ≫= fun _ => mret p.

Definition handlePublicKeyLine (sp : ipcSetPeer) (value : list Z) : M (ipcSetPeer * IPCError) :=
  let '(ok, publicKey) := PublicKeyFromHex zeroKey value in
  if negb ok then mret (sp, Some IpcErrorInvalid) else
  d ← dev;
  let dummy := Equals (d_publicKey d) publicKey in
  found ← (if (dummy : bool) then p ← newDummy; mret (Some p) else LookupPeer publicKey);
  match found with
  | Some p => mret (mkSetPeer (Some p) dummy false (sp_pkaOn sp), None)
  | None =>
      r ← NewPeer publicKey;
      match r with
      | Err _ => mret (mkSetPeer None dummy true (sp_pkaOn sp), Some IpcErrorInvalid)
      | Ok p => mret (mkSetPeer (Some p) dummy true (sp_pkaOn sp), None)
      end
  end.

Definition handlePeerLine (sp : ipcSetPeer) (key value : list Z) : M (ipcSetPeer * IPCError) :=
  p ← lift (sp_peer sp);
  let fails : M (ipcSetPeer * IPCError) := mret (sp, Some IpcErrorInvalid) in
  let done_ (sp : ipcSetPeer) : M (ipcSetPeer * IPCError) := mret (sp, None) in
  if str_eqb key (str "update_only") then
    if negb (str_eqb value (str "true")) then fails else
    if sp_created sp && negb (sp_dummy sp) then
      P ← peerAt p;
      RemovePeer (hs_remoteStatic (p_handshake P)) ≫= fun _ =>
      q ← newDummy;
      done_ (mkSetPeer (Some q) true (sp_created sp) (sp_pkaOn sp))
    else done_ sp
  else if str_eqb key (str "remove") then
    if negb (str_eqb value (str "true")) then fails else
    (if negb (sp_dummy sp) then P ← peerAt p; RemovePeer (hs_remoteStatic (p_handshake P)) else mret tt) ≫= fun _ =>
    q ← newDummy;
    done_ (mkSetPeer (Some q) true (sp_created sp) (sp_pkaOn sp))
  else if str_eqb key (str "preshared_key") then
    P ← peerAt p;
    let '(ok, psk) := PresharedKeyFromHex (hs_presharedKey (p_handshake P)) value in
    modHandshake p (with_presharedKey psk) ≫= fun _ =>
    if negb ok then fails else done_ sp
  else if str_eqb key (str "endpoint") then
    match ParseEndpoint value with
    | None => fails
    | Some e =>
        modPeer p (fun P => with_endpoint (mkPeerEndpoint (Some e) (clearSrcOnTx (p_endpoint P)) (disableRoaming (p_endpoint P))) P) ≫= fun _ =>
        done_ sp
    end
  else if str_eqb key (str "persistent_keepalive_interval") then
    match ParseUint value 16 with
    | None => fails
    | Some secs =>
        P ← peerAt p;
        let old := p_persistentKeepaliveInterval P in
        modPeer p (with_persistentKeepaliveInterval (u32 secs)) ≫= fun _ =>
        done_ (mkSetPeer (sp_peer sp) (sp_dummy sp) (sp_created sp) ((old =? 0) && negb (secs =? 0)))
    end
  else if str_eqb key (str "replace_allowed_ips") then
    if negb (str_eqb value (str "true")) then fails else
    if sp_dummy sp then done_ sp else
    d ← dev;
    t ← lift (RemoveByPeer (d_allowedips d) p);
    modDev (with_allowedips t) ≫= fun _ => done_ sp
  else if str_eqb key (str "allowed_ip") then
    let '(add, value) := match value with 45 :: v => (false, v) | _ => (true, value) end in
    match ParsePrefix value with
    | None => fails
    | Some (ip, bits) =>
        if sp_dummy sp then done_ sp else
        d ← dev;
        t ← lift (if (add : bool) then AllowedIPs.Insert (d_allowedips d) (ad_bytes ip) bits p else AllowedIPs.Remove (d_allowedips d) (ad_bytes ip) bits p);
        modDev (with_allowedips t) ≫= fun _ => done_ sp
    end
  else if str_eqb key (str "protocol_version") then
    if negb (str_eqb value (str "1")) then fails else done_ sp
  else fails.

(** Any two of the four ranges overlap. *)
Fixpoint anyOverlap (hs : list magicHeader) : bool :=
  match hs with
  | [] => false
  | l :: hs => existsb (fun r => (start l <=? end_ r) && (start r <=? end_ l)) hs || anyOverlap hs
  end.

(** The headers of [d], where set, replace those of the device. *)
Record ipcSetDevice := mkSetDevice { sd_init : option magicHeader; sd_response : option magicHeader; sd_cookie : option magicHeader; sd_transport : option magicHeader }.

(** [true] when the headers overlap, which leaves the device as it is. *)
Definition mergeWithDevice (sd : ipcSetDevice) : M bool :=
  d ← dev;
  let hd := d_headers d in
  let m := mkHeaders (default (h_init hd) (sd_init sd)) (default (h_response hd) (sd_response sd))
             (default (h_cookie hd) (sd_cookie sd)) (default (h_transport hd) (sd_transport sd)) in
  if anyOverlap [h_init m; h_response m; h_cookie m; h_transport m] then mret true
  else modDev (with_headers m) ≫= fun _ => mret false.

Definition finishSet (sp : ipcSetPeer) (readError : bool) : M IPCError :=
  overlap ← mergeWithDevice (mkSetDevice None None None None);
  if (overlap : bool) then invalid else
  handlePostConfig sp ≫= fun _ =>
  if readError then mret (Some IpcErrorIO) else okay.

(** The lines of a bufio.Scanner and whether it stopped at a line that is too long. *)
Definition dropCR (l : list Z) : list Z := match reverse l with 13 :: r => reverse r | _ => l end.
Definition MaxScanTokenSize : Z := 65536.
Fixpoint scanLines (ls : list (list Z)) : list (list Z) * bool :=
  match ls with
  | [] => ([], false)
  | [l] => if len l =? 0 then ([], false) else if MaxScanTokenSize <=? len l then ([], true) else ([dropCR l], false)
  | l :: ls => if MaxScanTokenSize <=? len l then ([], true) else let '(r, e) := scanLines ls in (dropCR l :: r, e)
  end.

Fixpoint setLoop (lines : list (list Z)) (readError : bool) (sp : ipcSetPeer) (deviceConfig : bool) : M IPCError :=
  match lines with
  | [] => finishSet sp readError
  | line :: lines =>
      if len line =? 0 then finishSet sp false else
      match CutByte line 61 with
      | None => mret (Some IpcErrorProtocol)
      | Some (key, value) =>
          if str_eqb key (str "public_key") then
            handlePostConfig sp ≫= fun _ =>
            '(sp, err) ← handlePublicKeyLine sp value;
            match err with Some e => mret (Some e) | None => setLoop lines readError sp false end
          else if deviceConfig then
            err ← handleDeviceLine key value;
            match err with Some e => mret (Some e) | None => setLoop lines readError sp deviceConfig end
          else
            '(sp, err) ← handlePeerLine sp key value;
            match err with Some e => mret (Some e) | None => setLoop lines readError sp deviceConfig end
      end
  end.

Definition IpcSet (uapiConf : list Z) : M IPCError :=
  let '(lines, readError) := scanLines (SplitByte uapiConf 10) in
  setLoop lines readError (mkSetPeer None false false false) true.

(** ** The get operation *)

Definition line_ (key : string) (value : list Z) : list Z := str key ++ 61 :: value ++ [10].
Definition intLine (key : string) (n : Z) : list Z := if n =? 0 then [] else line_ key (Itoa n).
Definition keyf (prefix : string) (key : list Z) : list Z := line_ prefix (hexEncode key).

Definition peerLines (P : Peer) (entries : list (list Z * Z)) : list Z :=
  let h := p_handshake P in
  let nano := p_lastHandshakeNano P in
  keyf "public_key" (hs_remoteStatic h) ++ keyf "preshared_key" (hs_presharedKey h) ++ line_ "protocol_version" (str "1") ++
  match ep_val (p_endpoint P) with None => [] | Some e => line_ "endpoint" (AddrPortString (ep_addr e) (ep_port e)) end ++
  line_ "last_handshake_time_sec" (Itoa (Z.quot nano second)) ++ line_ "last_handshake_time_nsec" (Itoa (Z.rem nano second)) ++
  line_ "tx_bytes" (Itoa (p_txBytes P)) ++ line_ "rx_bytes" (Itoa (p_rxBytes P)) ++
  line_ "persistent_keepalive_interval" (Itoa (p_persistentKeepaliveInterval P)) ++
  mjoin ((fun '(ip, bits) => line_ "allowed_ip" (PrefixString (mkAddr ip []) bits)) <$> entries).

Fixpoint peersLines (ps : list (list Z * positive)) : M (list Z) :=
  match ps with
  | [] => mret []
  | (_, p) :: ps =>
      P ← peerAt p;
      d ← dev;
      entries ← lift (EntriesForPeer (d_allowedips d) p (fun _ => true));
      rest ← peersLines ps;
      mret (peerLines P entries ++ rest)
  end.

Definition deviceLines (d : Device) : list Z :=
  (if IsZero (d_privateKey d) then [] else keyf "private_key" (d_privateKey d)) ++
  intLine "listen_port" (n_port (d_net d)) ++ intLine "fwmark" (n_fwmark (d_net d)) ++
  intLine "jc" (j_count (d_junk d)) ++ intLine "jmin" (j_min (d_junk d)) ++ intLine "jmax" (j_max (d_junk d)) ++
  intLine "s1" (pd_init (d_paddings d)) ++ intLine "s2" (pd_response (d_paddings d)) ++
  intLine "s3" (pd_cookie (d_paddings d)) ++ intLine "s4" (pd_transport (d_paddings d)) ++
  (if decide (proto (d_imitate d) = imitateNone) then [] else line_ "imitate_protocol" (imitateProtoName (proto (d_imitate d)))) ++
  line_ "h1" (GenSpec (h_init (d_headers d))) ++ line_ "h2" (GenSpec (h_response (d_headers d))) ++
  line_ "h3" (GenSpec (h_cookie (d_headers d))) ++ line_ "h4" (GenSpec (h_transport (d_headers d))) ++
  mjoin (imap (fun i c => match c with None => [] | Some c => str "i" ++ Itoa (Z.of_nat i + 1) ++ 61 :: Spec c ++ [10] end) (d_ipackets d)).

Definition IpcGet : M (list Z) :=
  d ← dev;
  rest ← peersLines (peersOf d);
  mret (deviceLines d ++ rest).
End Uapi.
