(* ===== verification/Frame.v ===== *)
(** * Frame: what every handler leaves alone

    An invariant of the device speaks of little of its state: the index table, the
    peer map, the state of the device, its header ranges and routes, the keypairs and static key of each peer, the
    index and nonce counter of each keypair and the nonces of the queued packets.
    [full] is that part. A handler is [quiet] when it leaves it alone; the tactic
    [quiet_tac] shows it from the handler's parts. Only a few operations change it:
    the class [DeviceInvariant] lists what an invariant has to show of them, and
    everything built from them preserves the invariant (the lemmas [keeps_]). What
    changes the configuration or the state of the device is listed apart, in the
    classes [Reconfigurable] and [StateChanges]. *)
From S2P Require Import Prelude GoLib Replay MagicHeader Imitate AllowedIPs QUICInitial Obf Tai64n RateLimiter Crypto Cookie NoiseTypes DeviceState Run Noise Timers Send Receive DeviceOps Uapi.
#[local] Open Scope Z_scope.

Definition peerView (P : Peer) : list positive * Z * list Z := (heldBy (p_keypairs P), hs_localIndex (p_handshake P), hs_remoteStatic (p_handshake P)).
Definition keypairView (K : Keypair) : Z * Z := (kp_localIndex K, kp_sendNonce K).
Definition elemView (e : QueueOutboundElement) : option positive * Z := (oe_keypair e, oe_nonce e).
Definition outView (C : OutContainer) : list (option positive * Z) := elemView <$> oc_elems C.

Definition full (w : World) :=
  (d_indexTable (w_dev w), d_keyMap (w_dev w), d_state (w_dev w), d_headers (w_dev w), d_allowedips (w_dev w), peerView <$> w_peers w, keypairView <$> w_keypairs w, outView <$> w_out w).

(** A view [V] that the fields in [full] determine. *)
Class Coarser {T} (V : World -> T) : Prop := coarser : forall w w', full w' = full w -> V w' = V w.
#[export] Instance coarser_full : Coarser full.
Proof. by intros w w'. Qed.

Lemma fmap_insert_same {K} `{Countable K} {A B} (g : A -> B) (m : gmap K A) k x y : m !! k = Some x -> g y = g x -> g <$> <[k := y]> m = g <$> m.
Proof. intros Hk Hg. by rewrite fmap_insert, Hg, insert_id by (by rewrite lookup_fmap, Hk). Qed.

(** ** Handlers that preserve a view *)

Definition preserves {T A} (V : World -> T) (m : M A) : Prop := forall w a w', m w = Some (a, w') -> V w' = V w /\ (w_next w <= w_next w')%positive.
Abbreviation quiet := (preserves full).

Section Preserves.
Context {T : Type} (V : World -> T).

Lemma preserves_same {A} (m : M A) : (forall w a w', m w = Some (a, w') -> w' = w) -> preserves V m.
Proof. intros Hm w a w' Hr. rewrite (Hm w a w' Hr). split; [done|lia]. Qed.
Lemma preserves_ret {A} (a : A) : preserves V (mret a).
Proof. apply preserves_same. by intros w b w' [= _ <-]. Qed.
Lemma preserves_bind {A B} (m : M A) (k : A -> M B) : preserves V m -> (forall a, preserves V (k a)) -> preserves V (m ≫= k).
Proof.
  intros Hm Hk w b w' Hrun. apply bind_inv in Hrun as (a & w1 & H1 & H2). destruct (Hm _ _ _ H1) as [E1 L1], (Hk _ _ _ _ H2) as [E2 L2].
  split; [congruence|lia].
Qed.
Lemma preserves_panic {A} : preserves V (@panic A).
Proof. by intros w a w' [=]. Qed.
Lemma preserves_lift {A} (o : option A) : preserves V (lift o).
Proof. apply preserves_same. intros w a w'. unfold lift. destruct o; [|done]. by intros [= _ <-]. Qed.
Lemma preserves_gets {A} (f : World -> A) : preserves V (gets f).
Proof. apply preserves_same. by intros w a w' [= _ <-]. Qed.
Lemma preserves_dev : preserves V dev.
Proof. apply preserves_gets. Qed.
Lemma preserves_peerAt p : preserves V (peerAt p).
Proof. apply preserves_same. intros w a w' Hr. by apply peerAt_inv in Hr as [_ ->]. Qed.
Lemma preserves_keypairAt p : preserves V (keypairAt p).
Proof. apply preserves_same. intros w a w' Hr. by apply keypairAt_inv in Hr as [_ ->]. Qed.
Lemma preserves_outAt p : preserves V (outAt p).
Proof. apply preserves_same. intros w a w'. unfold outAt. destruct (w_out w !! p); [|done]. by intros [= _ <-]. Qed.
Lemma preserves_inAt p : preserves V (inAt p).
Proof. apply preserves_same. intros w a w'. unfold inAt. destruct (w_in w !! p); [|done]. by intros [= _ <-]. Qed.
Lemma preserves_modDev f : (forall w, V (with_dev (f (w_dev w)) w) = V w) -> preserves V (modDev f).
Proof. intros Hf w a w' [= _ <-]. split; [apply Hf|wsimpl; lia]. Qed.
Lemma preserves_modPeer p f : (forall w P, w_peers w !! p = Some P -> V (setPeer p (f P) w) = V w) -> preserves V (modPeer p f).
Proof. intros Hf w a w' Hr. apply modPeer_inv in Hr as (P & HP & ->). split; [by apply Hf|wsimpl; lia]. Qed.
Lemma preserves_modHandshake p f : (forall w P, w_peers w !! p = Some P -> V (setPeer p (with_handshake (f (p_handshake P)) P) w) = V w) -> preserves V (modHandshake p f).
Proof. apply (preserves_modPeer p (fun P => with_handshake (f (p_handshake P)) P)). Qed.
Lemma preserves_modKeypair p f : (forall w K, w_keypairs w !! p = Some K -> V (setKeypair p (f K) w) = V w) -> preserves V (modKeypair p f).
Proof. intros Hf w a w' Hr. apply modKeypair_inv in Hr as (P & HP & ->). split; [by apply Hf|wsimpl; lia]. Qed.
Lemma preserves_modify f : (forall w, V (f w) = V w /\ w_next (f w) = w_next w) -> preserves V (modify f).
Proof. intros Hf w a w' [= _ <-]. destruct (Hf w) as [-> ->]. split; [done|lia]. Qed.
Lemma preserves_whenM b m : preserves V m -> preserves V (whenM b m).
Proof. intros. destruct b; [done|apply preserves_ret]. Qed.
Lemma preserves_forM {A} (l : list A) f : (forall x, preserves V (f x)) -> preserves V (forM_ l f).
Proof. intros Hf. induction l; [apply preserves_ret|]. apply preserves_bind; auto. Qed.

Context `{!Coarser V}.
Lemma preserves_time_Now : preserves V time_Now.
Proof. intros w a w' [= _ <-]. split; [by apply coarser|wsimpl; lia]. Qed.
Lemma preserves_external : preserves V external.
Proof. intros w a w' [= _ <-]. split; [by apply coarser|wsimpl; lia]. Qed.
Lemma preserves_buffer : preserves V GetMessageBuffer.
Proof. intros w a w' [= _ <-]. split; [by apply coarser|wsimpl; lia]. Qed.
Lemma preserves_draw {A} (f : rng -> option (A * rng)) : preserves V (draw f).
Proof. intros w a w' Hr. apply draw_inv in Hr as (r & _ & ->). split; [by apply coarser|wsimpl; lia]. Qed.
Lemma preserves_alloc : preserves V alloc.
Proof. intros w a w' [= _ <-]. split; [by apply coarser|wsimpl; lia]. Qed.
Lemma preserves_quiet {A} (m : M A) : quiet m -> preserves V m.
Proof. intros Hm w a w' Hr. destruct (Hm w a w' Hr). split; [by apply coarser|done]. Qed.
End Preserves.

Create HintDb quiet.
#[export] Hint Resolve preserves_ret preserves_panic preserves_lift preserves_gets preserves_dev preserves_peerAt preserves_keypairAt preserves_outAt
  preserves_inAt preserves_time_Now preserves_external preserves_buffer preserves_draw preserves_alloc preserves_whenM : quiet.

(** [view_tac] shows that an update does not touch a view. *)
Ltac view_eq := lazymatch goal with |- (_, _) = (_, _) => apply (f_equal2 pair); view_eq | |- _ => first [reflexivity | eapply fmap_insert_same; [eassumption|reflexivity]] end.
Ltac view_of := match goal with |- ?V _ = ?V _ => unfold V end; wsimpl; view_eq.
Ltac view_tac := intros; cbn beta; repeat case_match; solve [reflexivity | view_of | split; [first [reflexivity | view_of]|reflexivity]].
Ltac quiet_step :=
  first
  [ solve [auto with quiet nocore typeclass_instances]
  | simple apply preserves_bind; [|intros]
  | apply preserves_modDev; view_tac
  | apply preserves_modHandshake; view_tac
  | apply preserves_modPeer; view_tac
  | apply preserves_modKeypair; view_tac
  | apply preserves_modify; view_tac
  | apply preserves_whenM
  | apply preserves_forM; intros
  | match goal with |- preserves _ (match ?x with _ => _ end) => destruct x | |- preserves _ (let x := _ in _) => cbv zeta end
  | solve [apply preserves_quiet; [apply _|auto with quiet nocore typeclass_instances]] ].
Ltac quiet_tac := intros; repeat quiet_step.

Lemma quiet_modTimers p f : quiet (modTimers p f).
Proof. unfold modTimers. quiet_tac. Qed.
#[export] Hint Resolve quiet_modTimers : quiet.

Lemma quiet_isUp : quiet isUp.
Proof. unfold isUp. quiet_tac. Qed.
Lemma quiet_isClosed : quiet isClosed.
Proof. unfold isClosed. quiet_tac. Qed.
#[export] Hint Resolve quiet_isUp quiet_isClosed : quiet.
Lemma quiet_timersActive p : quiet (timersActive p).
Proof. unfold timersActive. quiet_tac. Qed.
Lemma quiet_timerMod p n d : quiet (timerMod p n d).
Proof. unfold timerMod. quiet_tac. Qed.
Lemma quiet_timerDel p n : quiet (timerDel p n).
Proof. unfold timerDel. quiet_tac. Qed.
Lemma quiet_timerIsPending p n : quiet (timerIsPending p n).
Proof. unfold timerIsPending. quiet_tac. Qed.
Lemma quiet_jitter : quiet jitter.
Proof. unfold jitter, fastrandn. quiet_tac. Qed.
#[export] Hint Resolve quiet_timersActive quiet_timerMod quiet_timerDel quiet_timerIsPending quiet_jitter : quiet.

Lemma quiet_timersDataSent p : quiet (timersDataSent p).
Proof. unfold timersDataSent. quiet_tac. Qed.
Lemma quiet_timersDataReceived p : quiet (timersDataReceived p).
Proof. unfold timersDataReceived. quiet_tac. Qed.
Lemma quiet_timersSent p : quiet (timersAnyAuthenticatedPacketSent p).
Proof. unfold timersAnyAuthenticatedPacketSent. quiet_tac. Qed.
Lemma quiet_timersReceived p : quiet (timersAnyAuthenticatedPacketReceived p).
Proof. unfold timersAnyAuthenticatedPacketReceived. quiet_tac. Qed.
Lemma quiet_timersHandshakeInitiated p : quiet (timersHandshakeInitiated p).
Proof. unfold timersHandshakeInitiated. quiet_tac. Qed.
Lemma quiet_timersHandshakeComplete p : quiet (timersHandshakeComplete p).
Proof. unfold timersHandshakeComplete. quiet_tac. Qed.
Lemma quiet_timersSessionDerived p : quiet (timersSessionDerived p).
Proof. unfold timersSessionDerived. quiet_tac. Qed.
Lemma quiet_timersTraversal p : quiet (timersAnyAuthenticatedPacketTraversal p).
Proof. unfold timersAnyAuthenticatedPacketTraversal. quiet_tac. Qed.
Lemma quiet_timersStart p : quiet (timersStart p).
Proof. unfold timersStart. quiet_tac. Qed.
Lemma quiet_timersStop p : quiet (timersStop p).
Proof. unfold timersStop, timerDelSync. quiet_tac. Qed.
#[export] Hint Resolve quiet_timersDataSent quiet_timersDataReceived quiet_timersSent quiet_timersReceived quiet_timersHandshakeInitiated
  quiet_timersHandshakeComplete quiet_timersSessionDerived quiet_timersTraversal quiet_timersStart quiet_timersStop : quiet.

Lemma quiet_SendBuffers p bufs : quiet (SendBuffers p bufs).
Proof. unfold SendBuffers. quiet_tac. Qed.
Lemma quiet_addPadding n b : quiet (addPadding n b).
Proof. unfold addPadding. quiet_tac. Qed.
#[export] Hint Resolve quiet_SendBuffers quiet_addPadding : quiet.
Lemma quiet_addMacs `{Primitives} p b : quiet (addMacs p b).
Proof. unfold addMacs. quiet_tac. Qed.
Lemma quiet_sendIPackets `{InitialCrypto} cs : quiet (sendIPackets cs).
Proof. induction cs as [|[c|] cs IH]; cbn [sendIPackets]; quiet_tac. Qed.
Lemma quiet_sendJunk n : quiet (sendJunk n).
Proof. induction n as [|n IH]; cbn [sendJunk]; quiet_tac. Qed.
Lemma quiet_StagePackets p es : quiet (StagePackets p es).
Proof. unfold StagePackets. quiet_tac. Qed.
Lemma quiet_FlushStagedPackets p : quiet (FlushStagedPackets p).
Proof. unfold FlushStagedPackets. quiet_tac. Qed.
Lemma quiet_SendHandshakeCookie `{Primitives} e : quiet (SendHandshakeCookie e).
Proof. unfold SendHandshakeCookie. quiet_tac. Qed.
Lemma quiet_Current p : quiet (Current p).
Proof. unfold Current. quiet_tac. Qed.
Lemma quiet_indexLookup i : quiet (indexLookup i).
Proof. unfold indexLookup. quiet_tac. Qed.
Lemma quiet_LookupPeer pk : quiet (LookupPeer pk).
Proof. unfold LookupPeer. quiet_tac. Qed.
#[export] Hint Resolve quiet_addMacs quiet_sendIPackets quiet_sendJunk quiet_StagePackets quiet_FlushStagedPackets
  quiet_SendHandshakeCookie quiet_Current quiet_indexLookup quiet_LookupPeer : quiet.

(** Encryption replaces buffers, not nonces. *)
Lemma appendPacket_view e zeros e' : appendPacket e zeros = Some e' -> elemView e' = elemView e.
Proof. unfold appendPacket. intros Hr. repeat case_match; simplify_option_eq; done. Qed.
Lemma encryptElement_view `{Primitives} e w e' w' : encryptElement e w = Some (e', w') -> elemView e' = elemView e.
Proof.
  unfold encryptElement. intros Hr. do 7 (apply bind_inv in Hr as (? & ? & _ & Hr)). do 1 (apply bind_inv in Hr as (? & ? & _ & Hr)).
  apply bind_inv in Hr as (e1 & w1 & He1 & Hr). apply lift_inv in He1 as [He1 _]. apply appendPacket_view in He1. change (elemView e1 = elemView e) in He1. rewrite <- He1.
  apply bind_inv in Hr as (? & ? & _ & Hr). case_match; [apply bind_inv in Hr as (? & ? & _ & Hr)|]; apply mret_inv in Hr as [-> _]; done.
Qed.
Lemma encryptElements_view `{Primitives} es w es' w' : encryptElements es w = Some (es', w') -> elemView <$> es' = elemView <$> es.
Proof.
  revert w es' w'. induction es as [|e es IH]; intros w es' w' Hr; cbn [encryptElements] in Hr; [by apply mret_inv in Hr as [-> _]|].
  apply bind_inv in Hr as (e' & w1 & He & Hr). apply bind_inv in Hr as (es1 & w2 & Hes & Hr). apply mret_inv in Hr as [-> _].
  rewrite !fmap_cons. f_equal; [by eapply encryptElement_view|by eapply IH].
Qed.
Lemma quiet_encryptElements `{Primitives} es : quiet (encryptElements es).
Proof. induction es as [|e es IH]; cbn [encryptElements]; unfold encryptElement; quiet_tac. Qed.
Lemma quiet_RoutineEncryption `{Primitives} : quiet RoutineEncryption.
Proof.
  unfold RoutineEncryption. apply preserves_bind; [quiet_tac|]. intros d. destruct (d_encryption d) as [|c rest]; [quiet_tac|].
  apply preserves_bind; [quiet_tac|]. intros _ w a w' Hr. apply bind_inv in Hr as (C & w0 & HC & Hr). apply outAt_inv in HC as [HC ->].
  apply bind_inv in Hr as (es & w1 & Hes & Hr). prim_inv Hr. destruct (quiet_encryptElements _ _ _ _ Hes) as [Hfull Hnext]. split; [|wsimpl; done].
  rewrite <- Hfull. unfold full in *. wsimpl. apply (f_equal2 pair); [done|]. injection Hfull as _ _ _ _ _ _ _ Hout.
  rewrite fmap_insert. apply insert_id. rewrite Hout, lookup_fmap, HC. cbn. unfold outView. cbn. f_equal. symmetry. by eapply encryptElements_view.
Qed.
Lemma quiet_collectBuffers es : quiet (collectBuffers es).
Proof. induction es as [|e es IH]; cbn [collectBuffers]; unfold padTransport; quiet_tac. Qed.
Lemma quiet_RoutineDecryption `{Primitives} : quiet RoutineDecryption.
Proof.
  assert (forall es, quiet (decryptElements es)) as Hes by (induction es as [|e es IH]; cbn [decryptElements]; unfold decryptElement; quiet_tac).
  unfold RoutineDecryption. quiet_tac.
Qed.
Lemma quiet_SetEndpointFromPacket p e : quiet (SetEndpointFromPacket p e).
Proof. unfold SetEndpointFromPacket. quiet_tac. Qed.
Lemma quiet_markEndpoint p : quiet (markEndpointSrcForClearing p).
Proof. unfold markEndpointSrcForClearing. quiet_tac. Qed.
Lemma quiet_addRxBytes p n : quiet (addRxBytes p n).
Proof. unfold addRxBytes. quiet_tac. Qed.
Lemma quiet_receiveDatagram b e : quiet (receiveDatagram b e).
Proof. unfold receiveDatagram. quiet_tac. Qed.
#[export] Hint Resolve quiet_RoutineEncryption quiet_collectBuffers quiet_RoutineDecryption quiet_SetEndpointFromPacket quiet_markEndpoint quiet_addRxBytes
  quiet_receiveDatagram : quiet.
Lemma quiet_RoutineReceiveIncoming ds : quiet (RoutineReceiveIncoming ds).
Proof.
  assert (forall xs gs, quiet (receiveBatch xs gs)) as Hb.
  { induction xs as [|[b e] xs IH]; intros gs; cbn [receiveBatch]; [quiet_tac|]. apply preserves_bind; [quiet_tac|]. intros []; unfold enqueueHandshake; quiet_tac. }
  unfold RoutineReceiveIncoming. quiet_tac.
Qed.
Lemma quiet_admitHandshake `{Primitives} e : quiet (admitHandshake e).
Proof. unfold admitHandshake, IsUnderLoad. quiet_tac. Qed.
Lemma quiet_handleCookieReply `{Primitives} e : quiet (handleCookieReply e).
Proof. unfold handleCookieReply. quiet_tac. Qed.
#[export] Hint Resolve quiet_RoutineReceiveIncoming quiet_admitHandshake quiet_handleCookieReply : quiet.

Section QuietNoise.
Context `{Primitives}.
Lemma quiet_ConsumeMessageInitiation msg : quiet (ConsumeMessageInitiation msg).
Proof. unfold ConsumeMessageInitiation. quiet_tac. Qed.
Lemma quiet_ConsumeMessageResponse msg : quiet (ConsumeMessageResponse msg).
Proof. unfold ConsumeMessageResponse. quiet_tac. Qed.
Lemma quiet_BindUpdate : quiet BindUpdate.
Proof. unfold BindUpdate, closeBindLocked, setPort, clearSources. quiet_tac. Qed.
Lemma quiet_BindSetMark m : quiet (BindSetMark m).
Proof. unfold BindSetMark, clearSources. quiet_tac. Qed.
Lemma quiet_BindClose : quiet BindClose.
Proof. unfold BindClose, closeBindLocked. quiet_tac. Qed.
End QuietNoise.
#[export] Hint Resolve quiet_ConsumeMessageInitiation quiet_ConsumeMessageResponse quiet_BindUpdate quiet_BindSetMark quiet_BindClose : quiet.

(** ** Invariants *)

Definition keeps {A} (I : World -> Prop) (m : M A) : Prop := forall w a w', I w -> m w = Some (a, w') -> I w'.

(** [I] speaks of the view [V] and of no location that is not handed out. *)
Class Framed {T} (V : World -> T) (I : World -> Prop) : Prop :=
  framed : forall w w', V w' = V w -> (w_next w <= w_next w')%positive -> I w -> I w'.
Lemma keeps_preserves {T A} (V : World -> T) (I : World -> Prop) `{!Framed V I} (m : M A) : preserves V m -> keeps I m.
Proof. intros Hm w a w' Hok Hr. destruct (Hm w a w' Hr) as [E L]. by apply (framed w w' E L). Qed.
Lemma keeps_bind {A B} I (m : M A) (k : A -> M B) : keeps I m -> (forall a, keeps I (k a)) -> keeps I (m ≫= k).
Proof. intros Hm Hk w b w' Hok Hrun. apply bind_inv in Hrun as (a & w1 & H1 & H2). eapply Hk; [|done]. by eapply Hm. Qed.
Lemma keeps_ret {A} I (a : A) : keeps I (mret a).
Proof. by intros w b w' Hok [= _ <-]. Qed.
Lemma keeps_whenM I b m : keeps I m -> keeps I (whenM b m).
Proof. intros. destruct b; [done|apply keeps_ret]. Qed.
Lemma keeps_forM {A} I (l : list A) f : (forall x, keeps I (f x)) -> keeps I (forM_ l f).
Proof. intros Hf. induction l; [apply keeps_ret|]. apply keeps_bind; auto. Qed.

(** What an invariant shows of the operations that change the part it speaks of. *)
Class DeviceInvariant `{Primitives} `{InitialCrypto} (I : World -> Prop) : Prop := {
  inv_frame : Framed full I;
  inv_CreateMessageInitiation p : keeps I (CreateMessageInitiation p);
  inv_CreateMessageResponse p : keeps I (CreateMessageResponse p);
  inv_BeginSymmetricSession p : keeps I (BeginSymmetricSession p);
  inv_ReceivedWithKeypair p k : keeps I (ReceivedWithKeypair p k);
  inv_ZeroAndFlushAll p : keeps I (ZeroAndFlushAll p);
  inv_ExpireCurrentKeypairs p : keeps I (ExpireCurrentKeypairs p);
  inv_NewPeer pk : keeps I (NewPeer pk);
  inv_newDummy : keeps I newDummy;
  inv_sendBatch p k es : keeps I (sendBatch p k es);
  inv_deletePeer key : keeps I (modDev (fun d => with_keyMap (delete key (d_keyMap d)) d));
  inv_clearPeers : keeps I (modDev (with_keyMap ∅));
}.
Class Reconfigurable (I : World -> Prop) : Prop := {
  inv_headers f : keeps I (modDev (fun d => with_headers (f (d_headers d)) d));
  inv_allowedips t : keeps I (modDev (with_allowedips t));
}.
Class StateChanges (I : World -> Prop) : Prop := inv_state s : keeps I (modDev (with_dstate s)).

Create HintDb keeps.
Ltac keeps_field :=
  first [ apply inv_CreateMessageInitiation
        | apply inv_CreateMessageResponse
        | apply inv_BeginSymmetricSession
        | apply inv_ReceivedWithKeypair
        | apply inv_ZeroAndFlushAll
        | apply inv_ExpireCurrentKeypairs
        | apply inv_NewPeer
        | apply inv_newDummy
        | apply inv_sendBatch
        | apply inv_deletePeer
        | apply inv_clearPeers
        | apply inv_allowedips
        | apply inv_headers
        | apply inv_state ].
Ltac keeps_step :=
  first
  [ solve [keeps_field]
  | solve [auto with keeps nocore typeclass_instances]
  | solve [apply (keeps_preserves full); [apply inv_frame|auto with quiet nocore typeclass_instances]]
  | simple apply keeps_bind; [|intros]
  | apply keeps_whenM
  | apply keeps_forM; intros
  | match goal with |- keeps _ (match ?x with _ => _ end) => destruct x | |- keeps _ (let x := _ in _) => cbv zeta end
  | solve [apply (keeps_preserves full); [apply inv_frame|quiet_tac]] ].
Ltac keeps_tac := intros; repeat keeps_step.

(** ** All handlers *)

Section Handlers.
Context `{Primitives} `{InitialCrypto} (I : World -> Prop) `{!DeviceInvariant I}.

Lemma keeps_SendHandshakeInitiation p b : keeps I (SendHandshakeInitiation p b).
Proof. unfold SendHandshakeInitiation. keeps_tac. Qed.
Lemma keeps_SendHandshakeResponse p : keeps I (SendHandshakeResponse p).
Proof. unfold SendHandshakeResponse. keeps_tac. Qed.
#[local] Hint Resolve keeps_SendHandshakeInitiation keeps_SendHandshakeResponse : keeps.
Lemma keeps_sendStagedLoop fuel p k : keeps I (sendStagedLoop panic fuel p k).
Proof. revert k. induction fuel as [|fuel IH]; intros k; cbn [sendStagedLoop]; keeps_tac. Qed.
#[local] Hint Resolve keeps_sendStagedLoop : keeps.
Lemma keeps_SendStagedPackets p : keeps I (SendStagedPackets p).
Proof. unfold SendStagedPackets. keeps_tac. Qed.
#[local] Hint Resolve keeps_SendStagedPackets : keeps.
Lemma keeps_SendKeepalive p : keeps I (SendKeepalive p).
Proof. unfold SendKeepalive. keeps_tac. Qed.
Lemma keeps_readFromTUN reads res : keeps I (readFromTUN reads res).
Proof. unfold readFromTUN. keeps_tac. Qed.
Lemma keeps_keepKeyFreshSending p : keeps I (keepKeyFreshSending p).
Proof. unfold keepKeyFreshSending. keeps_tac. Qed.
#[local] Hint Resolve keeps_SendKeepalive keeps_readFromTUN keeps_keepKeyFreshSending : keeps.
Lemma keeps_RoutineSequentialSender p : keeps I (RoutineSequentialSender p).
Proof. unfold RoutineSequentialSender. keeps_tac. Qed.
Lemma keeps_handleInitiation e : keeps I (handleInitiation e).
Proof. unfold handleInitiation. keeps_tac. Qed.
Lemma keeps_handleResponse e : keeps I (handleResponse e).
Proof. unfold handleResponse. keeps_tac. Qed.
#[local] Hint Resolve keeps_RoutineSequentialSender keeps_handleInitiation keeps_handleResponse : keeps.
Lemma keeps_RoutineHandshake : keeps I RoutineHandshake.
Proof. unfold RoutineHandshake, handleHandshake. keeps_tac. Qed.
Lemma keeps_keepKeyFreshReceiving p : keeps I (keepKeyFreshReceiving p).
Proof. unfold keepKeyFreshReceiving. keeps_tac. Qed.
#[local] Hint Resolve keeps_RoutineHandshake keeps_keepKeyFreshReceiving : keeps.
Lemma keeps_receiveElements p b es : keeps I (receiveElements p b es).
Proof. revert b. induction es as [|e es IH]; intros b; cbn [receiveElements]; unfold receiveElement; keeps_tac. Qed.
#[local] Hint Resolve keeps_receiveElements : keeps.
Lemma keeps_RoutineSequentialReceiver p : keeps I (RoutineSequentialReceiver p).
Proof. unfold RoutineSequentialReceiver. keeps_tac. Qed.
#[local] Hint Resolve keeps_RoutineSequentialReceiver : keeps.
Lemma keeps_repeatM n m : keeps I m -> keeps I (repeatM n m).
Proof. intros Hm. induction n; cbn [repeatM]; keeps_tac. Qed.
Lemma keeps_untilStopped n m : keeps I m -> keeps I (untilStopped n m).
Proof. intros Hm. induction n; cbn [untilStopped]; keeps_tac. Qed.
Lemma keeps_waitRoutines p : keeps I (waitRoutines p).
Proof.
  unfold waitRoutines. keeps_tac; (apply keeps_repeatM || apply keeps_untilStopped); keeps_tac.
Qed.
#[local] Hint Resolve keeps_waitRoutines : keeps.
Lemma keeps_Start p : keeps I (Start p).
Proof. unfold Start. keeps_tac. Qed.
Lemma keeps_Stop p : keeps I (Stop p).
Proof. unfold Stop. keeps_tac. Qed.
#[local] Hint Resolve keeps_Start keeps_Stop : keeps.
Lemma keeps_fireTimer p n : keeps I (fireTimer p n).
Proof.
  unfold fireTimer. keeps_tac. destruct n; cbn [expired]; unfold expiredRetransmitHandshake, expiredSendKeepalive, expiredNewHandshake, expiredZeroKeyMaterial, expiredPersistentKeepalive; keeps_tac.
Qed.
Lemma keeps_downLocked : keeps I downLocked.
Proof. unfold downLocked. keeps_tac. Qed.
Lemma keeps_upLocked : keeps I upLocked.
Proof. unfold upLocked. keeps_tac. Qed.
#[local] Hint Resolve keeps_downLocked keeps_upLocked : keeps.
Lemma keeps_SendKeepalives : keeps I SendKeepalivesToPeersWithCurrentKeypair.
Proof. unfold SendKeepalivesToPeersWithCurrentKeypair. keeps_tac. Qed.
Lemma keeps_handlePostConfig sp : keeps I (handlePostConfig sp).
Proof. unfold handlePostConfig. keeps_tac. Qed.
Lemma keeps_handlePublicKeyLine sp value : keeps I (handlePublicKeyLine sp value).
Proof. unfold handlePublicKeyLine. destruct (PublicKeyFromHex _ _). keeps_tac. Qed.
#[local] Hint Resolve keeps_handlePostConfig keeps_handlePublicKeyLine : keeps.
Lemma keeps_tunEvent a b c mtu : (forall s, keeps I (changeState s)) -> keeps I (tunEvent a b c mtu).
Proof. intros Hc. unfold tunEvent, Up, Down. keeps_tac. Qed.

(** ** Configuration *)

Context `{!Reconfigurable I}.
Lemma keeps_removePeerLocked p key : keeps I (removePeerLocked p key).
Proof. unfold removePeerLocked. keeps_tac. Qed.
#[local] Hint Resolve keeps_removePeerLocked : keeps.
Lemma keeps_RemovePeer key : keeps I (RemovePeer key).
Proof. unfold RemovePeer. keeps_tac. Qed.
Lemma keeps_RemoveAllPeers : keeps I RemoveAllPeers.
Proof. unfold RemoveAllPeers. keeps_tac. Qed.
Lemma keeps_SetPrivateKey sk : keeps I (SetPrivateKey sk).
Proof. unfold SetPrivateKey. keeps_tac. Qed.
Lemma keeps_withHeader value set : keeps I (withHeader value set).
Proof. unfold withHeader, invalid, okay. destruct (newMagicHeader value) as [h|]; [|keeps_tac]. apply keeps_bind; [apply (inv_headers (set h))|keeps_tac]. Qed.
#[local] Hint Resolve keeps_RemovePeer keeps_RemoveAllPeers keeps_SetPrivateKey keeps_withHeader : keeps.
Lemma keeps_handleDeviceLine key value : keeps I (handleDeviceLine key value).
Proof.
  unfold handleDeviceLine, withInt, withChain, setPort, invalid, okay. destruct (PrivateKeyFromMaybeZeroHex _ _) as [ok sk].
  repeat (match goal with |- keeps _ (if ?c then _ else _) => destruct c end; [keeps_tac|]). keeps_tac.
Qed.
Lemma keeps_handlePeerLine sp key value : keeps I (handlePeerLine sp key value).
Proof. unfold handlePeerLine. keeps_tac. Qed.
Lemma keeps_mergeWithDevice sd : keeps I (mergeWithDevice sd).
Proof.
  unfold mergeWithDevice. apply keeps_bind; [keeps_tac|]. intros d. cbv zeta. destruct (anyOverlap _); [keeps_tac|].
  apply keeps_bind; [|keeps_tac]. match goal with |- keeps I (modDev (with_headers ?m)) => apply (inv_headers (fun _ => m)) end.
Qed.
#[local] Hint Resolve keeps_handleDeviceLine keeps_handlePeerLine keeps_mergeWithDevice : keeps.
Lemma keeps_finishSet sp b : keeps I (finishSet sp b).
Proof. unfold finishSet, invalid, okay. keeps_tac. Qed.
#[local] Hint Resolve keeps_finishSet : keeps.
Lemma keeps_setLoop lines b sp c : keeps I (setLoop lines b sp c).
Proof. revert sp c. induction lines as [|l ls IH]; intros sp c; cbn [setLoop]; keeps_tac. Qed.
Lemma keeps_IpcSet conf : keeps I (IpcSet conf).
Proof. unfold IpcSet. destruct (scanLines _). apply keeps_setLoop. Qed.

(** ** State changes *)

Context `{!StateChanges I}.
Lemma keeps_changeState s : keeps I (changeState s).
Proof. unfold changeState. keeps_tac. Qed.
Lemma keeps_Close : keeps I Close.
Proof. unfold Close. keeps_tac. Qed.
End Handlers.

Lemma quiet_IpcGet `{Primitives} `{InitialCrypto} : quiet IpcGet.
Proof.
  assert (forall ps, quiet (peersLines ps)) by (induction ps as [|[? ?] ps IH]; cbn [peersLines]; quiet_tac). unfold IpcGet. quiet_tac.
Qed.
