(* ===== verification/IndexSpec.v ===== *)
(** * IndexSpec: what the index table promises

    Seen from the index table a device is its table, the keypairs each peer holds and
    the index of its handshake, and the index of every keypair. The table is right
    when its entries at nonzero indices are exactly the live references: the index of
    every handshake in progress and the index of every keypair a peer holds, each
    attributed to its peer. (Index 0 also stands for no handshake, so the table can
    promise nothing about it.) *)
From S2P Require Import Prelude DeviceState.
#[local] Open Scope Z_scope.

Record Idx := mkIdx {
  ix_table : gmap Z IndexTableEntry;
  ix_views : gmap positive (list positive * Z);   (* held keypairs, index of the handshake *)
  ix_kps : gmap positive Z;                       (* index of a keypair *)
  ix_next : positive;
}.

(** The references of peer [p] that explain an entry. *)
Definition refsOf (kps : gmap positive Z) (p : positive) (v : list positive * Z) (i : Z) (e : IndexTableEntry) : Prop :=
  (v.2 = i /\ e = mkIndexEntry p (Some p) None) \/ (exists k, k ∈ v.1 /\ kps !! k = Some i /\ e = mkIndexEntry p None (Some k)).

Record idx_inv (s : Idx) : Prop := {
  ii_table : forall i e, i <> 0 -> ix_table s !! i = Some e <-> exists p v, ix_views s !! p = Some v /\ refsOf (ix_kps s) p v i e;
  ii_held : forall p v k, ix_views s !! p = Some v -> k ∈ v.1 -> is_Some (ix_kps s !! k);
  ii_nodup : forall p v, ix_views s !! p = Some v -> NoDup v.1;
  ii_fresh : forall k, is_Some (ix_kps s !! k) -> (k < ix_next s)%positive;
  ii_freshp : forall p, is_Some (ix_views s !! p) -> (p < ix_next s)%positive;
}.

Lemma refsOf_peer kps p v i e : refsOf kps p v i e -> it_peer e = p.
Proof. by intros [[_ ->]|(k & _ & _ & ->)]. Qed.

(** The entries of a peer are the references of that peer. *)
Lemma entries_of s p v i e : idx_inv s -> ix_views s !! p = Some v -> i <> 0 -> it_peer e = p ->
  ix_table s !! i = Some e <-> refsOf (ix_kps s) p v i e.
Proof.
  intros Hinv Hv Hi He. rewrite (ii_table s Hinv i e Hi). split; [|by eauto].
  intros (q & v' & Hv' & Hr). pose proof (refsOf_peer _ _ _ _ _ Hr). simplify_eq. done.
Qed.

(** A change of one peer is sound when the entries of the others stay and its own are
    its new references. *)
Lemma inv_update_peer s T p v v' kps nx : idx_inv s -> ix_views s !! p = Some v ->
  (forall i e, i <> 0 -> it_peer e <> p -> T !! i = Some e <-> ix_table s !! i = Some e) ->
  (forall i e, i <> 0 -> it_peer e = p -> T !! i = Some e <-> refsOf kps p v' i e) ->
  (forall q w k, q <> p -> ix_views s !! q = Some w -> k ∈ w.1 -> kps !! k = ix_kps s !! k) ->
  (forall k, k ∈ v'.1 -> is_Some (kps !! k)) -> NoDup v'.1 ->
  (forall k, is_Some (kps !! k) -> (k < nx)%positive) -> (ix_next s <= nx)%positive ->
  idx_inv (mkIdx T (<[p := v']> (ix_views s)) kps nx).
Proof.
  intros Hinv Hv Hothers Hown Hkps Hex Hnd Hfr Hnx. split; cbn [ix_table ix_views ix_kps ix_next].
  - intros i e Hi. destruct (decide (it_peer e = p)) as [Hp|Hp].
    + rewrite (Hown i e Hi Hp). split; [intros Hr; exists p, v'; by rewrite lookup_insert_eq|].
      intros (q & w & Hw & Hr). pose proof (refsOf_peer _ _ _ _ _ Hr) as Hq. rewrite Hp in Hq. subst q. rewrite lookup_insert_eq in Hw. by simplify_eq.
    + rewrite (Hothers i e Hi Hp), (ii_table s Hinv i e Hi). split; intros (q & w & Hw & Hr); pose proof (refsOf_peer _ _ _ _ _ Hr) as Hq; subst q.
      * exists (it_peer e), w. rewrite lookup_insert_ne by done. split; [done|]. destruct Hr as [?|(k & Hk & Hl & ?)]; [by left|right].
        exists k. by rewrite (Hkps _ _ k Hp Hw Hk).
      * rewrite lookup_insert_ne in Hw by done. exists (it_peer e), w. split; [done|]. destruct Hr as [?|(k & Hk & Hl & ?)]; [by left|right].
        exists k. by rewrite <- (Hkps _ _ k Hp Hw Hk).
  - intros q w k Hw Hk. destruct (decide (q = p)) as [->|Hq]; [rewrite lookup_insert_eq in Hw; simplify_eq; by apply Hex|].
    rewrite lookup_insert_ne in Hw by done. rewrite (Hkps q w k Hq Hw Hk). by eapply ii_held.
  - intros q w Hw. destruct (decide (q = p)) as [->|Hq]; [rewrite lookup_insert_eq in Hw; by simplify_eq|].
    rewrite lookup_insert_ne in Hw by done. by eapply ii_nodup.
  - exact Hfr.
  - intros q Hq. apply lookup_insert_is_Some' in Hq as [<-|Hq]; [pose proof (ii_freshp s Hinv p (mk_is_Some _ _ Hv))|pose proof (ii_freshp s Hinv q Hq)]; lia.
Qed.

(** ** The changes *)

Section Changes.
Context (s : Idx) (Hinv : idx_inv s) (p : positive) (h : list positive) (i0 : Z) (Hv : ix_views s !! p = Some (h, i0)).

Lemma own_handshake : i0 <> 0 -> ix_table s !! i0 = Some (mkIndexEntry p (Some p) None).
Proof. intros Hi. apply (entries_of s p (h, i0)); try done. by left. Qed.
Lemma own_keypair k i : k ∈ h -> ix_kps s !! k = Some i -> i <> 0 -> ix_table s !! i = Some (mkIndexEntry p None (Some k)).
Proof. intros Hk Hl Hi. apply (entries_of s p (h, i0)); try done. right. by exists k. Qed.
Lemma own_entry i e : i <> 0 -> it_peer e = p -> ix_table s !! i = Some e ->
  (i = i0 /\ e = mkIndexEntry p (Some p) None) \/ (exists k, k ∈ h /\ ix_kps s !! k = Some i /\ e = mkIndexEntry p None (Some k)).
Proof. intros Hi He Ht. apply (entries_of s p (h, i0)) in Ht as [[? ?]|?]; try done; [by left|by right]. Qed.

(** The handshake of the peer moves to a new index. *)
Lemma inv_newHandshakeIndex i : delete i0 (ix_table s) !! i = None ->
  idx_inv (mkIdx (<[i := mkIndexEntry p (Some p) None]> (delete i0 (ix_table s))) (<[p := (h, i)]> (ix_views s)) (ix_kps s) (ix_next s)).
Proof.
  intros Hnone. pose proof own_handshake as Hh. pose proof own_keypair as Hk. pose proof own_entry as He.
  apply (inv_update_peer s _ p (h, i0)); try done; try by apply Hinv.
  - intros j e Hj Hp. destruct (decide (j = i)) as [->|Hji].
    + rewrite lookup_insert_eq. split; [intros [= <-]; done|]. intros Ht.
      destruct (decide (i = i0)) as [->|Hi]; [rewrite Hh in Ht by done; by simplify_eq|rewrite lookup_delete_ne in Hnone by done; congruence].
    + rewrite lookup_insert_ne by done. destruct (decide (j = i0)) as [->|Hj0]; [|by rewrite lookup_delete_ne].
      rewrite lookup_delete_eq, Hh by done. split; [done|]. intros [= <-]. done.
  - intros j e Hj Hp. destruct (decide (j = i)) as [->|Hji].
    + rewrite lookup_insert_eq. split; [intros [= <-]; by left|]. intros [[_ ->]|(k & Hkh & Hl & ->)]; [done|]. exfalso.
      pose proof (Hk k i Hkh Hl Hj) as Ht. destruct (decide (i = i0)) as [->|Hi]; [rewrite Hh in Ht by done; done|rewrite lookup_delete_ne in Hnone by done; congruence].
    + rewrite lookup_insert_ne by done. destruct (decide (j = i0)) as [->|Hj0].
      * rewrite lookup_delete_eq. split; [done|]. intros [[? _]|(k & Hkh & Hl & ->)]; [done|]. pose proof (Hk k i0 Hkh Hl Hj) as Ht. rewrite Hh in Ht by done. done.
      * rewrite lookup_delete_ne by done. split; [intros Ht; destruct (He j e Hj Hp Ht) as [[? _]|?]; [done|by right]|].
        intros [[? _]|(k & Hkh & Hl & ->)]; [done|]. by apply Hk.
  - intros k Hkh. by apply (ii_held s Hinv p (h, i0)).
  - by apply (ii_nodup s Hinv p (h, i0)).
Qed.

(** The handshake of the peer is given up. *)
Lemma inv_clearHandshake : idx_inv (mkIdx (delete i0 (ix_table s)) (<[p := (h, 0)]> (ix_views s)) (ix_kps s) (ix_next s)).
Proof.
  pose proof own_handshake as Hh. pose proof own_keypair as Hk. pose proof own_entry as He.
  apply (inv_update_peer s _ p (h, i0)); try done; try by apply Hinv.
  - intros j e Hj Hp. destruct (decide (j = i0)) as [->|Hj0]; [|by rewrite lookup_delete_ne].
    rewrite lookup_delete_eq, Hh by done. split; [done|]. by intros [= <-].
  - intros j e Hj Hp. destruct (decide (j = i0)) as [->|Hj0].
    + rewrite lookup_delete_eq. split; [done|]. intros [[? _]|(k & Hkh & Hl & ->)]; [by simpl in *|]. pose proof (Hk k i0 Hkh Hl Hj) as Ht. by rewrite Hh in Ht.
    + rewrite lookup_delete_ne by done. split; [intros Ht; destruct (He j e Hj Hp Ht) as [[? _]|?]; [done|by right]|].
      intros [[? _]|(k & Hkh & Hl & ->)]; [by simpl in *|]. by apply Hk.
  - intros k Hkh. by apply (ii_held s Hinv p (h, i0)).
  - by apply (ii_nodup s Hinv p (h, i0)).
Qed.

(** SwapIndexForKeypair: the handshake's index becomes that of the new keypair [k]. *)
Definition swapTable (k : positive) : gmap Z IndexTableEntry :=
  match ix_table s !! i0 with None => ix_table s | Some e => <[i0 := mkIndexEntry (it_peer e) None (Some k)]> (ix_table s) end.

Lemma inv_swap k nx : ix_kps s !! k = None -> (ix_next s <= nx)%positive -> (k < nx)%positive ->
  idx_inv (mkIdx (swapTable k) (<[p := (k :: h, 0)]> (ix_views s)) (<[k := i0]> (ix_kps s)) nx).
Proof.
  intros Hnew Hnx Hkn. pose proof own_handshake as Hh. pose proof own_keypair as Hk. pose proof own_entry as He.
  assert (forall q w x, ix_views s !! q = Some w -> x ∈ w.1 -> x <> k) as Hne.
  { intros q w x Hw Hx ->. apply (ii_held s Hinv q w) in Hx as [? ?]; [congruence|done]. }
  assert (forall j, j <> 0 -> swapTable k !! j = if decide (j = i0) then Some (mkIndexEntry p None (Some k)) else ix_table s !! j) as HT.
  { intros j Hj. unfold swapTable. destruct (decide (j = i0)) as [->|Hji]; [rewrite Hh by done; by rewrite lookup_insert_eq|].
    destruct (ix_table s !! i0); [by rewrite lookup_insert_ne|done]. }
  apply (inv_update_peer s _ p (h, i0)); try done.
  - intros j e Hj Hp. rewrite HT by done. case_decide as Hd; [|done]. subst j. rewrite Hh by done. split; by intros [= <-].
  - intros j e Hj Hp. rewrite HT by done. case_decide as Hd.
    + subst j. split; [intros [= <-]; right; exists k; cbn [fst]; rewrite lookup_insert_eq; set_solver|].
      intros [[? _]|(x & Hx & Hl & ->)]; [by simpl in *|]. cbn [fst] in Hx. apply elem_of_cons in Hx as [->|Hx]; [done|].
      rewrite lookup_insert_ne in Hl by (intros ->; by apply (Hne p (h, i0) x)). pose proof (Hk x i0 Hx Hl Hj) as Ht. by rewrite Hh in Ht.
    + split; [intros Ht; destruct (He j e Hj Hp Ht) as [[? _]|(x & Hx & Hl & ->)]; [done|]; right; exists x; cbn [fst]; 
        rewrite lookup_insert_ne by (intros ->; by apply (Hne p (h, i0) x)); set_solver|].
      intros [[? _]|(x & Hx & Hl & ->)]; [by simpl in *|]. cbn [fst] in Hx. apply elem_of_cons in Hx as [->|Hx]; [rewrite lookup_insert_eq in Hl; by simplify_eq|].
      rewrite lookup_insert_ne in Hl by (intros ->; by apply (Hne p (h, i0) x)). by apply Hk.
  - intros q w x Hq Hw Hx. rewrite lookup_insert_ne; [done|]. intros ->. by apply (Hne q w x).
  - intros x Hx. cbn [fst] in Hx. apply elem_of_cons in Hx as [->|Hx]; [by rewrite lookup_insert_eq|]. apply lookup_insert_is_Some'. right. by apply (ii_held s Hinv p (h, i0)).
  - cbn [fst]. apply NoDup_cons. split; [intros Hx; by apply (Hne p (h, i0) k)|by apply (ii_nodup s Hinv p (h, i0))].
  - intros x Hx. apply lookup_insert_is_Some' in Hx as [<-|Hx]; [done|]. pose proof (ii_fresh s Hinv x Hx). lia.
Qed.

(** DeleteKeypair and forgetting the keypair. *)
Lemma inv_dropKeypair k l h' : h ≡ₚ k :: h' -> ix_kps s !! k = Some l ->
  idx_inv (mkIdx (delete l (ix_table s)) (<[p := (h', i0)]> (ix_views s)) (ix_kps s) (ix_next s)).
Proof.
  intros Hperm Hl. pose proof own_handshake as Hh. pose proof own_keypair as Hk. pose proof own_entry as He.
  pose proof (ii_nodup s Hinv p (h, i0) Hv) as Hnd. cbn [fst] in Hnd. rewrite Hperm in Hnd. apply NoDup_cons in Hnd as [Hni Hnd].
  assert (k ∈ h) as Hkh by (rewrite Hperm; set_solver). assert (forall x, x ∈ h' -> x ∈ h) as Hsub by (intros x; rewrite Hperm; set_solver).
  apply (inv_update_peer s _ p (h, i0)); try done; try by apply Hinv.
  - intros j e Hj Hp. destruct (decide (j = l)) as [->|Hjl]; [|by rewrite lookup_delete_ne].
    rewrite lookup_delete_eq, (Hk k l) by done. split; [done|]. by intros [= <-].
  - intros j e Hj Hp. destruct (decide (j = l)) as [->|Hjl].
    + rewrite lookup_delete_eq. split; [done|]. pose proof (Hk k l Hkh Hl Hj) as Ht. intros [[Hi ->]|(x & Hx & Hlx & ->)].
      * cbn [snd] in Hi. subst l. by rewrite Hh in Ht.
      * rewrite (Hk x l (Hsub x Hx) Hlx Hj) in Ht. by simplify_eq.
    + rewrite lookup_delete_ne by done. split; [intros Ht; destruct (He j e Hj Hp Ht) as [[-> ->]|(x & Hx & Hlx & ->)]; [by left|right]|].
      * exists x. split; [|done]. cbn [fst]. rewrite Hperm in Hx. apply elem_of_cons in Hx as [->|?]; [congruence|done].
      * intros [[Hi ->]|(x & Hx & Hlx & ->)]; [cbn [snd] in Hi; subst j; by apply Hh|]. apply Hk; auto.
  - intros x Hx. apply (ii_held s Hinv p (h, i0)); [done|]. by apply Hsub.
Qed.

(** Which slot holds a keypair does not matter. *)
Lemma inv_permute h' : h' ≡ₚ h -> idx_inv (mkIdx (ix_table s) (<[p := (h', i0)]> (ix_views s)) (ix_kps s) (ix_next s)).
Proof.
  intros Hperm. apply (inv_update_peer s _ p (h, i0)); try done; try by apply Hinv.
  - intros j e Hj Hp. rewrite (entries_of s p (h, i0)) by done. unfold refsOf. cbn [fst snd]. by setoid_rewrite Hperm.
  - intros x Hx. apply (ii_held s Hinv p (h, i0)); [done|]. cbn [fst] in *. by rewrite <- Hperm.
  - cbn [fst]. rewrite Hperm. by apply (ii_nodup s Hinv p (h, i0)).
Qed.
End Changes.

Lemma inv_newPeer s p nx : idx_inv s -> ix_views s !! p = None -> (p < nx)%positive -> (ix_next s <= nx)%positive ->
  idx_inv (mkIdx (ix_table s) (<[p := ([], 0)]> (ix_views s)) (ix_kps s) nx).
Proof.
  intros Hinv Hnone Hp Hnx. split; cbn [ix_table ix_views ix_kps ix_next].
  - intros i e Hi. rewrite (ii_table s Hinv i e Hi). split; intros (q & v & Hv & Hr); exists q, v; (split; [|done]).
    + rewrite lookup_insert_ne; [done|]. intros ->. congruence.
    + destruct (decide (q = p)) as [->|Hq]; [|by rewrite lookup_insert_ne in Hv]. rewrite lookup_insert_eq in Hv. simplify_eq.
      destruct Hr as [[? _]|(k & Hk & _)]; [by simpl in *|by apply elem_of_nil in Hk].
  - intros q v k Hv Hk. destruct (decide (q = p)) as [->|Hq]; [rewrite lookup_insert_eq in Hv; simplify_eq; by apply elem_of_nil in Hk|].
    rewrite lookup_insert_ne in Hv by done. by eapply ii_held.
  - intros q v Hv. destruct (decide (q = p)) as [->|Hq]; [rewrite lookup_insert_eq in Hv; simplify_eq; apply NoDup_nil_2|].
    rewrite lookup_insert_ne in Hv by done. by eapply ii_nodup.
  - intros k Hk. pose proof (ii_fresh s Hinv k Hk). lia.
  - intros q Hq. apply lookup_insert_is_Some' in Hq as [<-|Hq]; [done|]. pose proof (ii_freshp s Hinv q Hq). lia.
Qed.

(** Handing out locations changes nothing else. *)
Lemma inv_alloc s nx : idx_inv s -> (ix_next s <= nx)%positive -> idx_inv (mkIdx (ix_table s) (ix_views s) (ix_kps s) nx).
Proof.
  intros [] Hnx. split; cbn [ix_table ix_views ix_kps ix_next]; try done; intros x Hx;
    [pose proof (ii_fresh0 x Hx)|pose proof (ii_freshp0 x Hx)]; lia.
Qed.

(** DeleteKeypair of a keypair that may be missing. *)
Definition deleteKey (key : option positive) (kps : gmap positive Z) (T : gmap Z IndexTableEntry) : gmap Z IndexTableEntry :=
  match key with None => T | Some k => match kps !! k with None => T | Some l => delete l T end end.

Lemma inv_deleteKey s p h i0 key h' : idx_inv s -> ix_views s !! p = Some (h, i0) -> h ≡ₚ option_list key ++ h' ->
  idx_inv (mkIdx (deleteKey key (ix_kps s) (ix_table s)) (<[p := (h', i0)]> (ix_views s)) (ix_kps s) (ix_next s)).
Proof.
  intros Hinv Hv Hperm. destruct key as [k|]; cbn [deleteKey]; [|by apply (inv_permute s Hinv p h i0)].
  destruct (ii_held s Hinv p (h, i0) k Hv) as [l Hl]; [cbn [fst]; rewrite Hperm; set_solver|]. rewrite Hl.
  by apply (inv_dropKeypair s Hinv p h i0 Hv k l).
Qed.
