(* ===== verification/IndexInv.v ===== *)
(** * IndexInv: the index table is right in every state

    The invariant of IndexSpec, read off a state, is one of the device: the operations
    that move indices preserve it, by the changes of IndexSpec. *)
From S2P Require Import Prelude GoLib Replay MagicHeader Imitate AllowedIPs QUICInitial Obf Tai64n RateLimiter Crypto Cookie NoiseTypes DeviceState Run Noise NoiseRuns Timers Send Receive DeviceOps Uapi Frame IndexSpec.
#[local] Open Scope Z_scope.

Definition view (P : Peer) : list positive * Z := (heldBy (p_keypairs P), hs_localIndex (p_handshake P)).
Definition idx (w : World) : Idx :=
  mkIdx (d_indexTable (w_dev w)) (view <$> w_peers w) (kp_localIndex <$> w_keypairs w) (w_next w).
Definition index_ok (w : World) : Prop := idx_inv (idx w).

(** The part of the state the table depends on. *)
Definition indexView (w : World) := (d_indexTable (w_dev w), view <$> w_peers w, kp_localIndex <$> w_keypairs w).
#[export] Instance coarser_index : Coarser indexView.
Proof.
  intros w w' [= Ht _ _ _ _ Hp Hk _]. unfold indexView. apply (f_equal (fmap fst)) in Hp. apply (f_equal (fmap fst)) in Hk. rewrite <- !map_fmap_compose in Hp. rewrite <- !map_fmap_compose in Hk.
  apply (f_equal2 pair); [apply (f_equal2 pair)|]; done.
Qed.
#[export] Instance framed_index : Framed indexView index_ok.
Proof. intros w w' [= Ht Hv Hk] Hn Hok. unfold index_ok, idx in *. rewrite Ht, Hv, Hk. apply (inv_alloc _ _ Hok). exact Hn. Qed.
Lemma keeps_quiet {A} (m : M A) : preserves indexView m -> keeps index_ok m.
Proof. apply keeps_preserves. apply _. Qed.

(** [kstep H Hok] passes a quiet first action of the run [H]. *)
Ltac kstep H Hok :=
  let a := fresh "a" in let w := fresh "w" in let E := fresh "E" in
  apply bind_inv in H as (a & w & E & H); apply (fun Hq => keeps_quiet _ Hq _ _ _ Hok) in E; [|solve [quiet_tac]]; clear Hok; rename E into Hok.

Lemma idx_peer w p P : w_peers w !! p = Some P -> ix_views (idx w) !! p = Some (view P).
Proof. intros HP. unfold idx. cbn. by rewrite lookup_fmap, HP. Qed.
Lemma idx_setPeer w p P : idx (setPeer p P w) = mkIdx (ix_table (idx w)) (<[p := view P]> (ix_views (idx w))) (ix_kps (idx w)) (ix_next (idx w)).
Proof. unfold idx. wsimpl. by rewrite fmap_insert. Qed.
Lemma idx_table w T : idx (with_dev (with_indexTable T (w_dev w)) w) = mkIdx T (ix_views (idx w)) (ix_kps (idx w)) (ix_next (idx w)).
Proof. done. Qed.

Lemma idx_setPeer_same w p P P' : w_peers w !! p = Some P -> view P' = view P -> idx (setPeer p P' w) = idx w.
Proof. intros HP Hv. rewrite idx_setPeer, Hv. rewrite (insert_id _ _ _ (idx_peer w p P HP)). done. Qed.

(** The handshake takes a new index. *)
Lemma reindex_ok {B} p f (k : Z -> M B) w P i0 b w' : index_ok w -> w_peers w !! p = Some P -> hs_localIndex (p_handshake P) = i0 ->
  (forall i h, hs_localIndex (f i h) = i) -> (forall i, keeps index_ok (k i)) ->
  (indexDelete i0 ≫= fun _ => NewIndexForHandshake p ≫= fun i => modHandshake p (f i) ≫= fun _ => k i) w = Some (b, w') ->
  index_ok w'.
Proof.
  intros Hok HP <- Hf Hk Hr. unfold indexDelete in Hr. minv Hr. apply bind_inv in Hr as (i & w1 & Hi & Hr).
  apply newIndexLoop_inv in Hi as (r & Hnone & ->). wsimpl_in Hnone. minv Hr. rewrite HP in Hp. injection Hp as <-. eapply Hk; [|exact Hr].
  unfold index_ok. pose proof (inv_newHandshakeIndex (idx w) Hok p _ _ (idx_peer w p P HP) i Hnone) as Hinv.
  rewrite idx_setPeer. unfold view. wsimpl. rewrite Hf. exact Hinv.
Qed.

Section Handshakes.
Context `{Primitives}.

Lemma keeps_CreateMessageInitiation p : keeps index_ok (CreateMessageInitiation p).
Proof.
  intros w a w' Hok Hr. unfold CreateMessageInitiation in Hr. do 7 kstep Hr Hok. destruct (sharedSecret _ _) as [ss ok]. destruct ok; cbn [negb] in Hr; [|by prim_inv Hr].
  destruct (KDF2 _ _) as [ck1 k1]. kstep Hr Hok. minv Hr. destruct (isZero _); [by prim_inv Hr|]. destruct (KDF2 _ _) as [ck2 k2]. do 2 minv Hr. same_peer.
  match type of Hr with _ (setPeer p ?P' ?W) = _ =>
    revert Hr; apply (reindex_ok p _ _ (setPeer p P' W) P'); [|wsimpl; apply lookup_insert_eq|done|done|intros; apply keeps_quiet; quiet_tac];
    unfold index_ok; rewrite (idx_setPeer_same W p _ P' Hp) by done; exact Hok end.
Qed.
Lemma keeps_CreateMessageResponse p : keeps index_ok (CreateMessageResponse p).
Proof.
  intros w a w' Hok Hr. unfold CreateMessageResponse in Hr. do 2 minv Hr. destruct (bool_decide _); cbn [negb] in Hr; [|by prim_inv Hr].
  revert Hr. eapply reindex_ok; [done|done|done|done|]. intros. apply keeps_quiet. unfold hsMixHash, hsMixKey. quiet_tac.
Qed.
End Handshakes.

(** ** Sessions *)

Lemma DeleteKeypair_inv key w u w' : DeleteKeypair key w = Some (u, w') ->
  w' = with_dev (with_indexTable (deleteKey key (ix_kps (idx w)) (ix_table (idx w))) (w_dev w)) w.
Proof.
  destruct key as [k|]; cbn [DeleteKeypair deleteKey]; intros Hr; [|prim_inv Hr; by destruct w as [[]]].
  minv Hr. unfold indexDelete in Hr. prim_inv Hr. unfold idx. cbn [ix_kps ix_table]. by rewrite lookup_fmap, Hk.
Qed.
(** [dinv H] inverts a DeleteKeypair at the head of the run [H]. *)
Ltac dinv H := let u := fresh "u" in let w := fresh "w" in let E := fresh "E" in apply bind_inv in H as (u & w & E & H); apply DeleteKeypair_inv in E as ->.

(** One step of a chain of deletions, each forgetting the keypair it deletes. *)
Lemma inv_forget T V kps nx p h i0 key h' : idx_inv (mkIdx T (<[p := (h, i0)]> V) kps nx) -> h ≡ₚ option_list key ++ h' ->
  idx_inv (mkIdx (deleteKey key kps T) (<[p := (h', i0)]> V) kps nx).
Proof.
  intros Hinv Hperm. pose proof (inv_deleteKey _ p h i0 key h' Hinv (lookup_insert_eq _ _ _) Hperm) as Hd. cbn [ix_table ix_views ix_kps ix_next] in Hd.
  by rewrite insert_insert_eq in Hd.
Qed.
Lemma inv_reorder T V kps nx p h i0 h' : idx_inv (mkIdx T (<[p := (h, i0)]> V) kps nx) -> h ≡ₚ h' -> idx_inv (mkIdx T (<[p := (h', i0)]> V) kps nx).
Proof. intros Hinv Hperm. by apply (inv_forget T V kps nx p h i0 None h'). Qed.
Lemma index_ok_peer w p P : index_ok w -> w_peers w !! p = Some P ->
  idx_inv (mkIdx (ix_table (idx w)) (<[p := view P]> (ix_views (idx w))) (ix_kps (idx w)) (ix_next (idx w))).
Proof. intros Hok HP. rewrite (insert_id _ _ _ (idx_peer w p P HP)). exact Hok. Qed.

Section Sessions.
Context `{Primitives}.

Lemma keeps_ReceivedWithKeypair p k : keeps index_ok (ReceivedWithKeypair p k).
Proof.
  intros w a w' Hok Hr. unfold ReceivedWithKeypair in Hr. minv Hr. rename a0 into P. case_bool_decide as Hn; cbn [negb] in Hr; [|by prim_inv Hr].
  minv Hr. dinv Hr. minv Hr. prim_inv Hr. same_peer. unfold index_ok. rewrite idx_setPeer, idx_table, idx_setPeer. cbn [ix_table ix_views ix_kps ix_next].
  rewrite insert_insert_eq. unfold view at 1. wsimpl. unfold heldBy. wsimpl. rewrite Hn.
  apply (inv_forget _ _ _ _ _ (heldBy (p_keypairs P)) _ (previous (p_keypairs P))).
  - by apply index_ok_peer.
  - unfold heldBy. rewrite Hn. destruct (current (p_keypairs P)), (previous (p_keypairs P)); cbn; solve_Permutation.
Qed.

(** The rotation of BeginSymmetricSession, after the swap. *)
Lemma swap_ok w p P k K : index_ok w -> w_peers w !! p = Some P -> k = w_next w -> kp_localIndex K = hs_localIndex (p_handshake P) ->
  idx_inv (mkIdx (swapTable (idx w) (hs_localIndex (p_handshake P)) k) (<[p := (k :: heldBy (p_keypairs P), 0)]> (ix_views (idx w)))
    (kp_localIndex <$> <[k := K]> (w_keypairs w)) (Pos.succ k)).
Proof.
  intros Hok HP -> HK. rewrite fmap_insert, HK. apply (inv_swap (idx w) Hok p _ _ (idx_peer w p P HP)); cbn [idx ix_next ix_kps]; [|lia|lia].
  destruct ((kp_localIndex <$> w_keypairs w) !! w_next w) as [l|] eqn:E; [|done]. pose proof (ii_fresh _ Hok (w_next w)) as Hf. cbn [idx ix_kps ix_next] in Hf.
  rewrite E in Hf. specialize (Hf (mk_is_Some _ _ eq_refl)). lia.
Qed.

Lemma rotate_ok w p P ks k init u w' : w_peers w !! p = Some P -> p_keypairs P = ks -> hs_localIndex (p_handshake P) = 0 ->
  idx_inv (mkIdx (ix_table (idx w)) (<[p := (k :: heldBy ks, 0)]> (ix_views (idx w))) (ix_kps (idx w)) (ix_next (idx w))) ->
  rotateKeypairs p k init ks w = Some (u, w') -> index_ok w'.
Proof.
  intros HP <- H0 Hinv Hr. unfold rotateKeypairs in Hr. destruct init.
  - destruct (next (p_keypairs P)) as [n|] eqn:En.
    + apply bind_inv in Hr as (u1 & w1 & H1 & Hr). minv H1. apply DeleteKeypair_inv in H1 as ->. dinv Hr. prim_inv Hr. same_peer.
      unfold index_ok. rewrite idx_setPeer, !idx_table, idx_setPeer. cbn [ix_table ix_views ix_kps ix_next]. rewrite insert_insert_eq.
      unfold view at 1. wsimpl. unfold heldBy at 1. wsimpl. rewrite H0.
      apply (inv_forget _ _ _ _ _ (k :: option_list (previous (p_keypairs P)) ++ [n])); [|cbn; solve_Permutation].
      apply (inv_forget _ _ _ _ _ _ _ _ _ Hinv). unfold heldBy. rewrite En. cbn; solve_Permutation.
    + minv Hr. dinv Hr. prim_inv Hr. same_peer.
      unfold index_ok. rewrite idx_setPeer, !idx_table, idx_setPeer. cbn [ix_table ix_views ix_kps ix_next]. rewrite insert_insert_eq.
      unfold view at 1. wsimpl. unfold heldBy at 1. wsimpl. rewrite H0, En.
      apply (inv_forget _ _ _ _ _ _ _ _ _ Hinv). unfold heldBy. rewrite En. cbn; solve_Permutation.
  - minv Hr. dinv Hr. minv Hr. apply DeleteKeypair_inv in Hr as ->. same_peer.
    unfold index_ok. rewrite !idx_table, idx_setPeer, !idx_table, idx_setPeer. cbn [ix_table ix_views ix_kps ix_next]. rewrite insert_insert_eq.
    unfold view at 1. wsimpl. unfold heldBy at 1. wsimpl. rewrite H0.
    apply (inv_forget _ _ _ _ _ (k :: option_list (current (p_keypairs P)) ++ option_list (previous (p_keypairs P)))); [|cbn; solve_Permutation].
    apply (inv_forget _ _ _ _ _ _ _ _ _ Hinv). unfold heldBy. cbn; solve_Permutation.
Qed.

Lemma keeps_BeginSymmetricSession p : keeps index_ok (BeginSymmetricSession p).
Proof.
  intros w a w' Hok Hr. unfold BeginSymmetricSession in Hr. minv Hr. rename a0 into P. destruct (deriveKeys _) as [[[sk rk] init]|]; [|by prim_inv Hr].
  minv Hr. minv Hr. minv Hr. minv Hr. unfold SwapIndexForKeypair in Hr. minv Hr. minv Hr. same_peer.
  apply bind_inv in Hr as (u & w1 & Hrot & Hr). prim_inv Hr. revert Hrot.
  eapply rotate_ok; [wsimpl; apply lookup_insert_eq|done|done|].
  pose proof (swap_ok w p P (w_next w) (mkKeypair 0 sk rk (Reset zeroFilter) init (w_clock w 0%nat) (hs_localIndex (p_handshake P)) (hs_remoteIndex (p_handshake P)))
    Hok Hp eq_refl eq_refl) as Hswap.
  unfold idx. cbn [ix_table ix_views ix_kps ix_next]. wsimpl. rewrite !fmap_insert, !insert_insert_eq. cbn [idx ix_views] in Hswap. rewrite fmap_insert in Hswap.
  unfold swapTable in Hswap. cbn [idx ix_table] in Hswap. destruct (d_indexTable (w_dev w) !! _); exact Hswap.
Qed.
Lemma keeps_ZeroAndFlushAll p : keeps index_ok (ZeroAndFlushAll p).
Proof.
  intros w a w' Hok Hr. unfold ZeroAndFlushAll in Hr. minv Hr. rename a0 into P. do 3 dinv Hr. minv Hr. minv Hr. unfold indexDelete in Hr. minv Hr. minv Hr. same_peer.
  refine (keeps_quiet _ _ _ _ _ _ Hr); [quiet_tac|]. clear Hr.
  pose proof (index_ok_peer w p P Hok Hp) as Hinv. unfold view in Hinv.
  apply (inv_forget _ _ _ _ _ _ _ (previous (p_keypairs P)) (option_list (current (p_keypairs P)) ++ option_list (next (p_keypairs P)))) in Hinv; [|unfold heldBy; solve_Permutation].
  apply (inv_forget _ _ _ _ _ _ _ (current (p_keypairs P)) (option_list (next (p_keypairs P)))) in Hinv; [|done].
  apply (inv_forget _ _ _ _ _ _ _ (next (p_keypairs P)) []) in Hinv; [|by rewrite app_nil_r].
  pose proof (inv_clearHandshake _ Hinv p [] (hs_localIndex (p_handshake P)) (lookup_insert_eq _ _ _)) as Hclear. clear Hinv. rename Hclear into Hinv. cbn [ix_table ix_views ix_kps ix_next] in Hinv. rewrite insert_insert_eq in Hinv.
  unfold index_ok. rewrite idx_setPeer, idx_table, idx_setPeer, !idx_table. cbn [ix_table ix_views ix_kps ix_next]. rewrite insert_insert_eq. exact Hinv.
Qed.
Lemma keeps_ExpireCurrentKeypairs p : keeps index_ok (ExpireCurrentKeypairs p).
Proof.
  intros w a w' Hok Hr. unfold ExpireCurrentKeypairs, indexDelete in Hr. minv Hr. minv Hr. minv Hr. minv Hr. same_peer.
  refine (keeps_quiet _ _ _ _ _ _ Hr); [unfold expireKeypair; quiet_tac|]. unfold index_ok. rewrite idx_setPeer.
  exact (inv_clearHandshake _ Hok p _ _ (idx_peer w p _ Hp)).
Qed.
(** A new peer has no keypair and no handshake. *)
Lemma addPeer_ok w P : index_ok w -> view P = ([], 0) ->
  index_ok (with_peers (<[w_next w := P]> (w_peers w)) (with_nextLoc (Pos.succ (w_next w)) w)).
Proof.
  intros Hok HP. unfold index_ok, idx. wsimpl. rewrite fmap_insert, HP. apply (inv_newPeer (idx w) _ _ Hok); cbn [idx ix_views ix_next]; [|lia|lia].
  destruct ((view <$> w_peers w) !! w_next w) eqn:E; [|done]. pose proof (ii_freshp _ Hok (w_next w)) as Hf. cbn [idx ix_views ix_next] in Hf.
  rewrite E in Hf. specialize (Hf (mk_is_Some _ _ eq_refl)). lia.
Qed.
Lemma keeps_NewPeer pk : keeps index_ok (NewPeer pk).
Proof.
  intros w a w' Hok Hr. unfold NewPeer in Hr. kstep Hr Hok. destruct a0; [by prim_inv Hr|]. kstep Hr Hok. destruct (_ <=? _); [by prim_inv Hr|].
  destruct (d_keyMap a0 !! pk); [by prim_inv Hr|]. destruct (sharedSecret _ _) as [ss ok]. minv Hr. minv Hr. refine (keeps_quiet _ _ _ _ _ _ Hr); [quiet_tac|].
  by apply (addPeer_ok w1).
Qed.
Lemma keeps_newDummy : keeps index_ok newDummy.
Proof. intros w a w' Hok Hr. unfold newDummy in Hr. minv Hr. minv Hr. prim_inv Hr. by apply (addPeer_ok w). Qed.
End Sessions.

(** Nonces and queued packets are no matter of the table. *)
Lemma keeps_sendBatch p k es : keeps index_ok (sendBatch p k es).
Proof.
  apply keeps_quiet. unfold sendBatch.
  assert (preserves indexView (assignNonces p k es)) by (induction es as [|e es IH]; cbn [assignNonces]; unfold assignNonce; quiet_tac).
  unfold enqueueOutbound. quiet_tac.
Qed.

#[export] Instance index_invariant `{Primitives} `{InitialCrypto} : DeviceInvariant index_ok.
Proof.
  split; auto using keeps_CreateMessageInitiation, keeps_CreateMessageResponse, keeps_BeginSymmetricSession, keeps_ReceivedWithKeypair,
    keeps_ZeroAndFlushAll, keeps_ExpireCurrentKeypairs, keeps_NewPeer, keeps_newDummy, keeps_sendBatch.
  - intros w w' Hf. apply framed_index, coarser_index, Hf.
  - intros. apply keeps_quiet. quiet_tac.
  - apply keeps_quiet. quiet_tac.
Qed.
#[export] Instance index_reconfigurable : Reconfigurable index_ok.
Proof. split; intros; apply keeps_quiet; quiet_tac. Qed.
#[export] Instance index_state : StateChanges index_ok.
Proof. intros s. apply keeps_quiet. quiet_tac. Qed.
