(* ===== verification/NonceInv.v ===== *)
(** * NonceInv: no nonce is used twice

    Seen from the transport nonces a device is the counter of every keypair and, for
    every container that was ever queued for encryption, the keypair and nonce of its
    packets. Containers stay in the heap when they have been sent, so the second part
    is the whole history; [past] is the part of it that was there at some earlier
    point. Nonces stay below RejectAfterMessages and below the counter, and no two
    packets share a keypair and a nonce. *)
From S2P Require Import Prelude GoLib Replay MagicHeader Imitate AllowedIPs QUICInitial Obf Tai64n RateLimiter Crypto Cookie NoiseTypes DeviceState Run Noise Timers Send Receive DeviceOps Uapi Frame.
#[local] Open Scope Z_scope.

Abbreviation Used := (gmap positive (list (option positive * Z))) (only parsing).

Record nonces_inv (past : Used) (counters : gmap positive Z) (used : Used) (nx : positive) : Prop := {
  ni_past : past ⊆ used;
  ni_key : forall k, is_Some (counters !! k) -> (k < nx)%positive;
  ni_cont : forall c, is_Some (used !! c) -> (c < nx)%positive;
  ni_range : forall k s, counters !! k = Some s -> 0 <= s <= RejectAfterMessages;
  ni_below : forall c l e, used !! c = Some l -> e ∈ l -> exists k s, e.1 = Some k /\ counters !! k = Some s /\ 0 <= e.2 < s;
  ni_unique : forall c1 l1 i1 c2 l2 i2 e, used !! c1 = Some l1 -> l1 !! i1 = Some e -> used !! c2 = Some l2 -> l2 !! i2 = Some e -> c1 = c2 /\ i1 = i2;
}.

(** The nonces [s], ..., [s + n - 1] of keypair [k]. *)
Definition nonceRun (k : positive) (s : Z) (n : nat) : list (option positive * Z) := (fun i => (Some k, s + Z.of_nat i)) <$> seq 0 n.
Lemma nonceRun_lookup k s n i e : nonceRun k s n !! i = Some e <-> e = (Some k, s + Z.of_nat i) /\ (i < n)%nat.
Proof.
  unfold nonceRun. rewrite list_lookup_fmap. destruct (seq 0 n !! i) as [j|] eqn:E; cbn.
  - apply lookup_seq in E as [-> ?]. split; [intros [= <-]; split; [done|lia]|by intros [-> _]].
  - apply lookup_ge_None in E. rewrite length_seq in E. split; [done|lia].
Qed.
Lemma nonceRun_S k s n : nonceRun k s (S n) = (Some k, s) :: nonceRun k (s + 1) n.
Proof.
  unfold nonceRun. cbn [seq fmap list_fmap]. f_equal; [f_equal; lia|]. rewrite <- seq_shift. rewrite <- list_fmap_compose. apply list_fmap_ext. intros i x _. cbn. f_equal. lia.
Qed.

Section Changes.
Context (past : Used) (counters : gmap positive Z) (used : Used) (nx : positive) (Hinv : nonces_inv past counters used nx).

Lemma nonces_alloc nx' : (nx <= nx')%positive -> nonces_inv past counters used nx'.
Proof. intros Hn. destruct Hinv. split; try done; intros k Hk; [specialize (ni_key0 k Hk)|specialize (ni_cont0 k Hk)]; lia. Qed.

(** Counters only grow. *)
Lemma nonces_raise k s s' : counters !! k = Some s -> s <= s' <= RejectAfterMessages -> nonces_inv past (<[k := s']> counters) used nx.
Proof.
  intros Hk Hs. destruct Hinv. split; try done.
  - intros j [t Hj]. rewrite lookup_insert_Some in Hj. apply ni_key0. destruct Hj as [[<- _]|[_ Hj]]; eauto.
  - intros j t. rewrite lookup_insert_Some. intros [[<- <-]|[_ Hj]]; [specialize (ni_range0 k s Hk); lia|by eapply ni_range0].
  - intros c l e Hc He. destruct (ni_below0 c l e Hc He) as (j & t & Hj & Ht & Hlt). destruct (decide (j = k)) as [->|Hne].
    + exists k, s'. rewrite lookup_insert_eq. rewrite Hk in Ht. injection Ht as <-. split_and!; [done..|lia|lia].
    + exists j, t. by rewrite lookup_insert_ne.
Qed.

Lemma nonces_newKey : nonces_inv past (<[nx := 0]> counters) used (Pos.succ nx).
Proof.
  assert (counters !! nx = None) as Hfresh. { apply eq_None_not_Some. intros Hs. apply (ni_key _ _ _ _ Hinv) in Hs. lia. }
  destruct Hinv. split; try done.
  - intros j [t Hj]. rewrite lookup_insert_Some in Hj. destruct Hj as [[<- _]|[_ Hj]]; [lia|]. specialize (ni_key0 j (mk_is_Some _ _ Hj)). lia.
  - intros c Hc. specialize (ni_cont0 c Hc). lia.
  - intros j t. rewrite lookup_insert_Some. intros [[<- <-]|[_ Hj]]; [unfold RejectAfterMessages; lia|by eapply ni_range0].
  - intros c l e Hc He. destruct (ni_below0 c l e Hc He) as (j & t & Hj & Ht & Hlt). exists j, t. rewrite lookup_insert_ne; [done|congruence].
Qed.

(** A container with the next [n] nonces is queued. *)
Lemma nonces_queue k s n : counters !! k = Some s -> s + Z.of_nat n <= RejectAfterMessages ->
  nonces_inv past (<[k := s + Z.of_nat n]> counters) (<[nx := nonceRun k s n]> used) (Pos.succ nx).
Proof.
  intros Hk Hn. assert (used !! nx = None) as Hfresh. { apply eq_None_not_Some. intros Hs. apply (ni_cont _ _ _ _ Hinv) in Hs. lia. }
  assert (forall c l i e, used !! c = Some l -> l !! i = Some e -> e ∉ nonceRun k s n) as Hnew.
  { intros c l i e Hc Hi He. apply list_elem_of_lookup_1 in He as [j Hj]. apply nonceRun_lookup in Hj as [-> _]. apply list_elem_of_lookup_2 in Hi.
    destruct (ni_below _ _ _ _ Hinv c l _ Hc Hi) as (k' & t & [= <-] & Ht & Hlt). cbn in Hlt. rewrite Hk in Ht. injection Ht as <-. lia. }
  pose proof (nonces_raise k s (s + Z.of_nat n) Hk ltac:(lia)) as Hr. pose proof (ni_range _ _ _ _ Hinv k s Hk) as Hs0. destruct Hr. destruct Hinv as [_ _ _ _ _ _]. split.
  - etrans; [done|by apply insert_subseteq].
  - intros j Hj. specialize (ni_key0 j Hj). lia.
  - intros c [l Hc]. rewrite lookup_insert_Some in Hc. destruct Hc as [[<- _]|[_ Hc]]; [lia|]. specialize (ni_cont0 c (mk_is_Some _ _ Hc)). lia.
  - done.
  - intros c l e. rewrite lookup_insert_Some. intros [[<- <-]|[_ Hc]] He; [|by eapply ni_below0].
    apply list_elem_of_lookup_1 in He as [j Hj]. apply nonceRun_lookup in Hj as [-> Hj]. exists k, (s + Z.of_nat n). rewrite lookup_insert_eq. cbn. split_and!; [done..|lia|lia].
  - intros c1 l1 i1 c2 l2 i2 e. rewrite !lookup_insert_Some.
    intros [[<- <-]|[_ H1]] He1 [[<- <-]|[_ H2]] He2.
    + split; [done|]. apply nonceRun_lookup in He1 as [-> _], He2 as [E _]. injection E as E. lia.
    + destruct (Hnew c2 l2 i2 e H2 He2). by eapply list_elem_of_lookup_2.
    + destruct (Hnew c1 l1 i1 e H1 He1). by eapply list_elem_of_lookup_2.
    + by eapply ni_unique0.
Qed.
End Changes.

(** ** In a state *)

Definition nonceView (w : World) := (kp_sendNonce <$> w_keypairs w, outView <$> w_out w).
Definition nonces_ok (past : Used) (w : World) : Prop := nonces_inv past (kp_sendNonce <$> w_keypairs w) (outView <$> w_out w) (w_next w).

#[export] Instance coarser_nonce : Coarser nonceView.
Proof.
  intros w w' [= _ _ _ _ _ _ Hk Ho]. unfold nonceView. apply (f_equal (fmap snd)) in Hk. rewrite <- !map_fmap_compose in Hk. apply (f_equal2 pair); done.
Qed.
#[export] Instance framed_nonce past : Framed nonceView (nonces_ok past).
Proof. intros w w' [= Hk Ho] Hn Hok. unfold nonces_ok in *. rewrite Hk, Ho. by apply (nonces_alloc _ _ _ _ Hok). Qed.

Section Operations.
Context (past : Used).

Lemma nonce_quiet {A} (m : M A) : preserves nonceView m -> keeps (nonces_ok past) m.
Proof. apply keeps_preserves. apply _. Qed.

Lemma counter_at k K w : w_keypairs w !! k = Some K -> (kp_sendNonce <$> w_keypairs w) !! k = Some (kp_sendNonce K).
Proof. intros HK. by rewrite lookup_fmap, HK. Qed.

Lemma setKeypair_twice k K1 K2 w : setKeypair k K2 (setKeypair k K1 w) = setKeypair k K2 w.
Proof. unfold setKeypair. wsimpl. by rewrite insert_insert_eq. Qed.
Lemma setKeypair_at k K w : w_keypairs (setKeypair k K w) !! k = Some K.
Proof. wsimpl. apply lookup_insert_eq. Qed.

Lemma assignNonce_inv p k e w r w' K : w_keypairs w !! k = Some K -> 0 <= kp_sendNonce K <= RejectAfterMessages -> assignNonce p k e w = Some (r, w') ->
  (kp_sendNonce K < RejectAfterMessages /\ (exists e', r = inl e' /\ elemView e' = (Some k, kp_sendNonce K)) /\
   w' = setKeypair k (with_sendNonce (kp_sendNonce K + 1) K) w) \/
  (kp_sendNonce K = RejectAfterMessages /\ (exists e', r = inr e') /\ w' = setKeypair k (with_sendNonce RejectAfterMessages K) w).
Proof.
  intros HK Hs Hr. unfold assignNonce in Hr. minv Hr. rewrite HK in Hk. injection Hk as <-. minv Hr. rewrite HK in Hk. injection Hk as <-.
  destruct (RejectAfterMessages <=? kp_sendNonce K) eqn:E; [apply Z.leb_le in E|apply Z.leb_gt in E].
  - right. minv Hr. rewrite lookup_insert_eq in Hk. injection Hk as <-. apply mret_inv in Hr as [-> ->]. rewrite setKeypair_twice. split_and!; [lia|by eauto|done].
  - left. apply mret_inv in Hr as [-> ->]. rewrite u64_small by (unfold is_u64, RejectAfterMessages in *; lia). split_and!; [done|by eexists|done].
Qed.

(** The kept packets get the next nonces; the rest, the keypair has none for. *)
Lemma assignNonces_inv p k es w r w' K : w_keypairs w !! k = Some K -> 0 <= kp_sendNonce K <= RejectAfterMessages ->
  assignNonces p k es w = Some (r, w') ->
  elemView <$> r.1 = nonceRun k (kp_sendNonce K) (length r.1) /\
  length r.1 = Nat.min (length es) (Z.to_nat (RejectAfterMessages - kp_sendNonce K)) /\
  (length r.1 + length r.2 = length es)%nat /\
  w' = setKeypair k (with_sendNonce (kp_sendNonce K + Z.of_nat (length r.1)) K) w.
Proof.
  revert w r w' K. induction es as [|e es IH]; intros w r w' K HK Hs Hr; cbn [assignNonces] in Hr.
  - apply mret_inv in Hr as [-> ->]. cbn. split_and!; [done..|]. unfold setKeypair. rewrite Z.add_0_r.
    destruct w, K. cbn in *. by rewrite insert_id.
  - apply bind_inv in Hr as (r1 & w1 & H1 & Hr). apply bind_inv in Hr as ([kept ooo] & w2 & H2 & Hr). apply mret_inv in Hr as [-> ->].
    apply (assignNonce_inv _ _ _ _ _ _ K HK Hs) in H1 as [(Hlt & (e' & -> & He') & ->)|(Heq & (e' & ->) & ->)];
      apply (IH _ _ _ _ (setKeypair_at _ _ _)) in H2 as (Hv & Hlen & Hsum & ->); change (kp_sendNonce (with_sendNonce ?s K)) with s in *; cbn [fst snd] in *; try lia.
    + rewrite setKeypair_twice. rewrite fmap_cons, He', Hv. cbn [length]. rewrite nonceRun_S. split_and!; [done|lia|lia|].
      unfold with_sendNonce. cbn. do 2 f_equal. lia.
    + rewrite setKeypair_twice. rewrite Heq. split_and!; [done|lia|cbn [length]; lia|]. done.
Qed.

(** The counter goes up whether or not the packets are queued. *)
Lemma assigned_ok w k K n : nonces_ok past w -> w_keypairs w !! k = Some K -> kp_sendNonce K + Z.of_nat n <= RejectAfterMessages ->
  nonces_ok past (setKeypair k (with_sendNonce (kp_sendNonce K + Z.of_nat n) K) w).
Proof.
  intros Hok HK Hn. unfold nonces_ok. wsimpl. rewrite fmap_insert. apply (nonces_raise _ _ _ _ Hok k (kp_sendNonce K)); [by apply counter_at|]. wsimpl. lia.
Qed.
Lemma enqueue_ok p es k s counters used w u w' : nonces_inv past counters used (w_next w) -> counters !! k = Some s ->
  s + Z.of_nat (length es) <= RejectAfterMessages -> elemView <$> es = nonceRun k s (length es) ->
  nonceView w = (<[k := s + Z.of_nat (length es)]> counters, used) -> enqueueOutbound p es w = Some (u, w') -> nonces_ok past w'.
Proof.
  intros Hinv Hk Hn Hv [= Hc Hu] Hr. unfold enqueueOutbound in Hr. minv Hr. destruct (p_isRunning a); [|apply mret_inv in Hr as [_ ->]].
  - do 2 minv Hr. refine (nonce_quiet _ _ _ _ _ _ Hr); [quiet_tac|]. unfold nonces_ok. wsimpl. rewrite fmap_insert, Hc, Hu.
    unfold outView at 1. cbn [oc_elems]. rewrite Hv. by apply (nonces_queue _ _ _ _ Hinv).
  - unfold nonces_ok. rewrite Hc, Hu. apply (nonces_raise _ _ _ _ Hinv k s); [done|lia].
Qed.

Lemma nonces_sendBatch p k es : keeps (nonces_ok past) (sendBatch p k es).
Proof.
  intros w a w' Hok Hr. unfold sendBatch in Hr. apply bind_inv in Hr as ([kept ooo] & w1 & H1 & Hr).
  destruct es as [|e es]; [apply mret_inv in H1 as [[= -> ->] ->]; by apply mret_inv in Hr as [_ ->]|].
  assert (exists K, w_keypairs w !! k = Some K) as [K HK].
  { cbn [assignNonces] in H1. unfold assignNonce in H1. apply bind_inv in H1 as (? & ? & H1 & _). minv H1. by eauto. }
  pose proof (ni_range _ _ _ _ Hok k _ (counter_at _ _ _ HK)) as Hs.
  apply (assignNonces_inv _ _ _ _ _ _ K HK Hs) in H1 as (Hv & Hlen & _ & ->). cbn [fst] in Hv, Hlen.
  assert (kp_sendNonce K + Z.of_nat (length kept) <= RejectAfterMessages) as Hn by lia.
  apply bind_inv in Hr as (u & w2 & H2 & Hr).
  assert (preserves nonceView (whenM (negb (len ooo =? 0)) (StagePackets p ooo))) as Hq by quiet_tac. destruct (Hq _ _ _ H2) as [Hview Hnext]. clear Hq.
  case_match; [apply mret_inv in Hr as [_ ->]; refine (framed _ _ Hview Hnext _); by apply assigned_ok|].
  apply bind_inv in Hr as (u' & w3 & H3 & Hr). apply mret_inv in Hr as [_ ->].
  revert H3. apply (enqueue_ok _ _ k (kp_sendNonce K) (kp_sendNonce <$> w_keypairs w) (outView <$> w_out w)); [|by apply counter_at|done|done|].
  - by apply (nonces_alloc _ _ _ _ Hok).
  - rewrite Hview. unfold nonceView. wsimpl. by rewrite fmap_insert.
Qed.

Context `{Primitives}.
Lemma nonces_BeginSymmetricSession p : keeps (nonces_ok past) (BeginSymmetricSession p).
Proof.
  intros w a w' Hok Hr. unfold BeginSymmetricSession in Hr. minv Hr. destruct (deriveKeys _) as [[[sk rk] init]|]; [|by prim_inv Hr].
  minv Hr. minv Hr. minv Hr. minv Hr. refine (nonce_quiet _ _ _ _ _ _ Hr).
  - unfold SwapIndexForKeypair, rotateKeypairs, DeleteKeypair, indexDelete. quiet_tac.
  - unfold nonces_ok. wsimpl. rewrite fmap_insert. cbn [kp_sendNonce]. apply (nonces_newKey _ _ _ _ Hok).
Qed.
Lemma nonces_expireKeypair key : keeps (nonces_ok past) (expireKeypair key).
Proof.
  intros w a w' Hok Hr. destruct key as [k|]; cbn [expireKeypair] in Hr; [|by prim_inv Hr]. apply modKeypair_inv in Hr as (K & HK & ->).
  unfold nonces_ok. wsimpl. rewrite fmap_insert. wsimpl. pose proof (ni_range _ _ _ _ Hok k _ (counter_at _ _ _ HK)).
  apply (nonces_raise _ _ _ _ Hok k (kp_sendNonce K)); [by apply counter_at|lia].
Qed.
Lemma nonces_ExpireCurrentKeypairs p : keeps (nonces_ok past) (ExpireCurrentKeypairs p).
Proof.
  unfold ExpireCurrentKeypairs, indexDelete. do 4 (apply keeps_bind; [apply nonce_quiet; quiet_tac|intros]).
  apply keeps_bind; intros; apply nonces_expireKeypair.
Qed.
End Operations.

Lemma nonces_newIndexLoop n p : preserves nonceView (newIndexLoop n p).
Proof. induction n as [|n IH]; cbn [newIndexLoop]; unfold randUint32; quiet_tac. Qed.
#[local] Hint Resolve nonces_newIndexLoop : quiet.

(** Everything else leaves counters and queued packets alone. *)
#[export] Instance nonce_invariant `{Primitives} `{InitialCrypto} past : DeviceInvariant (nonces_ok past).
Proof.
  split; auto using nonces_BeginSymmetricSession, nonces_ExpireCurrentKeypairs, nonces_sendBatch.
  { intros w w' Hf. apply framed_nonce, coarser_nonce, Hf. }
  all: intros; apply nonce_quiet;
    unfold CreateMessageInitiation, CreateMessageResponse, ReceivedWithKeypair, ZeroAndFlushAll, NewPeer, newDummy, NewIndexForHandshake, DeleteKeypair, indexDelete.
  all: quiet_tac.
Qed.
#[export] Instance nonce_reconfigurable past : Reconfigurable (nonces_ok past).
Proof. split; intros; apply nonce_quiet; quiet_tac. Qed.
#[export] Instance nonce_state past : StateChanges (nonces_ok past).
Proof. intros s. apply nonce_quiet. quiet_tac. Qed.
