(* ===== verification/NonceRace.v ===== *)
(** * NonceRace: several routines draw nonces from one keypair

    SendStagedPackets runs in any number of routines at once, and the counter of a
    keypair is the only thing they share: a routine adds one to it and, in a separate
    step, uses the old value or, when that is too large, stores RejectAfterMessages.
    The steps of different routines interleave freely. The distance of
    RejectAfterMessages to the end of the 64-bit range is what makes this safe for up
    to 2^13 routines. *)
From S2P Require Import Prelude GoLib DeviceState.
#[local] Open Scope Z_scope.

(** The counter, what each routine has drawn and not used yet, and the nonces used. *)
Record Shared := mkShared { sh_counter : Z; sh_routines : list (option Z); sh_used : list Z }.

Inductive nonceStep : Shared -> Shared -> Prop :=
  | nonce_add s i : sh_routines s !! i = Some None ->
      nonceStep s (mkShared (u64 (sh_counter s + 1)) (<[i := Some (sh_counter s)]> (sh_routines s)) (sh_used s))
  | nonce_use s i v : sh_routines s !! i = Some (Some v) -> v < RejectAfterMessages ->
      nonceStep s (mkShared (sh_counter s) (<[i := None]> (sh_routines s)) (v :: sh_used s))
  | nonce_reject s i v : sh_routines s !! i = Some (Some v) -> RejectAfterMessages <= v ->
      nonceStep s (mkShared RejectAfterMessages (<[i := None]> (sh_routines s)) (sh_used s)).

Definition raceStart (n : nat) : Shared := mkShared 0 (replicate n None) [].

(** Values drawn that will be used, and the number of those that will not. *)
Definition drawn (t : option Z) : option Z := v ← t; if decide (v < RejectAfterMessages) then Some v else None.
Definition tooLarge (t : option Z) : nat := match t with Some v => if decide (v < RejectAfterMessages) then 0 else 1 | None => 0 end.
Definition pending (ts : list (option Z)) : list Z := omap drawn ts.
Definition overflow (ts : list (option Z)) : nat := foldr (fun t n => (tooLarge t + n)%nat) 0%nat ts.

Lemma overflow_app a b : overflow (a ++ b) = (overflow a + overflow b)%nat.
Proof. induction a as [|t a IH]; [done|]. cbn. unfold overflow in *. lia. Qed.
Lemma overflow_le ts : (overflow ts <= length ts)%nat.
Proof. induction ts as [|t ts IH]; [done|]. cbn. unfold overflow in *. assert (tooLarge t <= 1)%nat by (destruct t; cbn; [case_decide|]; lia). lia. Qed.

Lemma set_routine (ts : list (option Z)) i t t' : ts !! i = Some t -> exists a b, ts = a ++ t :: b /\ <[i := t']> ts = a ++ t' :: b.
Proof.
  intros Hi. exists (take i ts), (drop (S i) ts). split; [by rewrite take_drop_middle|]. apply insert_take_drop. by apply lookup_lt_Some in Hi.
Qed.
Lemma pending_middle a t b : pending (a ++ t :: b) = pending a ++ option_list (drawn t) ++ pending b.
Proof. unfold pending. rewrite omap_app. cbn. by destruct (drawn t). Qed.
Lemma overflow_middle a t b : overflow (a ++ t :: b) = (overflow a + tooLarge t + overflow b)%nat.
Proof. rewrite overflow_app. cbn. unfold overflow. lia. Qed.

Record race_ok (n : nat) (s : Shared) : Prop := {
  ra_routines : length (sh_routines s) = n;
  ra_counter : 0 <= sh_counter s <= RejectAfterMessages + Z.of_nat (overflow (sh_routines s));
  ra_below : Forall (fun v => 0 <= v < sh_counter s /\ v < RejectAfterMessages) (sh_used s ++ pending (sh_routines s));
  ra_distinct : NoDup (sh_used s ++ pending (sh_routines s));
}.

Lemma race_start n : race_ok n (raceStart n).
Proof.
  split; cbn [raceStart sh_counter sh_routines sh_used].
  - apply length_replicate.
  - unfold RejectAfterMessages. lia.
  - cbn. induction n; cbn; [done|exact IHn].
  - cbn. induction n; cbn; [constructor|exact IHn].
Qed.

(** The list of drawn values, with the one of a routine in front. *)
Lemma drawn_perm used a b x : used ++ pending a ++ x ++ pending b ≡ₚ x ++ used ++ pending a ++ pending b.
Proof. solve_Permutation. Qed.

Definition valid (c : Z) (l : list Z) : Prop := Forall (fun v => 0 <= v < c /\ v < RejectAfterMessages) l /\ NoDup l.
#[export] Instance valid_perm c : Proper ((≡ₚ) ==> iff) (valid c).
Proof. intros l l' Hl. unfold valid. by rewrite Hl. Qed.
Lemma valid_weaken c c' l : valid c l -> c <= c' \/ RejectAfterMessages <= c' -> valid c' l.
Proof. intros [Hb Hd] Hc. split; [|done]. eapply Forall_impl; [exact Hb|]. cbn. lia. Qed.

Lemma race_intro n s a t b : sh_routines s = a ++ t :: b -> length (sh_routines s) = n ->
  0 <= sh_counter s <= RejectAfterMessages + Z.of_nat (overflow a + tooLarge t + overflow b) ->
  valid (sh_counter s) (option_list (drawn t) ++ sh_used s ++ pending a ++ pending b) -> race_ok n s.
Proof.
  intros E Hl Hc Hv. rewrite <- drawn_perm, <- pending_middle, <- E in Hv. destruct Hv. split; try done. by rewrite E, overflow_middle.
Qed.
Lemma race_elim n s a t b : race_ok n s -> sh_routines s = a ++ t :: b ->
  0 <= sh_counter s <= RejectAfterMessages + Z.of_nat (overflow a + tooLarge t + overflow b) /\
  valid (sh_counter s) (option_list (drawn t) ++ sh_used s ++ pending a ++ pending b) /\ (overflow a + overflow b < n)%nat.
Proof.
  intros [Hl Hc Hb Hd] E. rewrite <- overflow_middle, <- E, <- drawn_perm, <- pending_middle, <- E. split_and!; [lia|lia|by split|].
  pose proof (overflow_le a). pose proof (overflow_le b). rewrite E, length_app in Hl. cbn [length] in Hl. lia.
Qed.

Lemma race_step n s s' : Z.of_nat n <= 2 ^ 13 -> race_ok n s -> nonceStep s s' -> race_ok n s'.
Proof.
  intros Hn Hok Hstep. pose proof (ra_routines n s Hok) as Hlen.
  destruct Hstep as [s i Hi|s i v Hi Hv|s i v Hi Hv];
    [destruct (set_routine _ i _ (Some (sh_counter s)) Hi) as (a & b & E & E')|destruct (set_routine _ i _ None Hi) as (a & b & E & E')..];
    destruct (race_elim n s a _ b Hok E) as (Hc & Hval & Hov); eapply race_intro; cbn [sh_counter sh_routines sh_used];
    [exact E'|by rewrite length_insert| | |exact E'|by rewrite length_insert| | |exact E'|by rewrite length_insert| |];
    cbn [drawn tooLarge option_list mbind option_bind app] in *; try (rewrite u64_small by (unfold is_u64, RejectAfterMessages in *; lia)).
  - case_decide; lia.
  - case_decide; cbn [option_list app]; [|by eapply valid_weaken; [exact Hval|lia]]. destruct Hval as [Hb Hd]. split.
    + constructor; [lia|]. eapply Forall_impl; [exact Hb|]. cbn. lia.
    + constructor; [|done]. intros Hin. rewrite Forall_forall in Hb. specialize (Hb _ Hin). cbn in Hb. lia.
  - rewrite decide_True in Hc by done. lia.
  - rewrite decide_True in Hval by done. exact Hval.
  - unfold RejectAfterMessages. lia.
  - rewrite decide_False in Hval by lia. eapply valid_weaken; [exact Hval|by right].
Qed.

(** C14: up to 2^13 routines may draw nonces from one keypair at the same time: in every
    interleaving of their steps the nonces used are pairwise distinct and below
    RejectAfterMessages. *)
Theorem concurrent_nonces_distinct (n : nat) (s : Shared) : Z.of_nat n <= 2 ^ 13 -> rtc nonceStep (raceStart n) s ->
  NoDup (sh_used s) /\ Forall (fun v => 0 <= v < RejectAfterMessages) (sh_used s).
Proof.
  intros Hn Hs. assert (race_ok n s) as [_ _ Hb Hd].
  { revert Hs. generalize (race_start n). generalize (raceStart n). intros s0 Hok Hs. induction Hs as [|s0 s1 s Hstep _ IH]; [done|].
    apply IH. by eapply race_step. }
  split; [by apply NoDup_app in Hd as [? _]|]. apply Forall_app in Hb as [Hb _]. eapply Forall_impl; [exact Hb|]. cbn. lia.
Qed.
Lemma concurrent_nonces_distinct_witness : rtc nonceStep (raceStart 2) (mkShared 2 [None; None] [0; 1]) /\ NoDup [0; 1].
Proof.
  assert (rtc nonceStep (raceStart 2) (mkShared 2 [None; None] [0; 1])) as Hs.
  { eapply rtc_l; [apply (nonce_add (raceStart 2) 0); reflexivity|].
    eapply rtc_l; [apply (nonce_add (mkShared 1 [Some 0; None] []) 1); reflexivity|].
    eapply rtc_l; [apply (nonce_use (mkShared 2 [Some 0; Some 1] []) 1 1); reflexivity|].
    eapply rtc_l; [apply (nonce_use (mkShared 2 [Some 0; None] [1]) 0 0); reflexivity|]. apply rtc_refl. }
  split; [exact Hs|]. exact (proj1 (concurrent_nonces_distinct 2 _ ltac:(vm_compute; discriminate) Hs)).
Defined.
