(* ===== verification/KeysInv.v ===== *)
(** * KeysInv: the peer map

    Every peer of the map is in it under its own static key, there are at most MaxPeers
    of them, and a closed device takes no new ones. *)
From S2P Require Import Prelude GoLib Replay MagicHeader Imitate AllowedIPs QUICInitial Obf Tai64n RateLimiter Crypto Cookie NoiseTypes DeviceState Run Noise Timers Send Receive DeviceOps Uapi Frame.
#[local] Open Scope Z_scope.

Definition static (P : Peer) : list Z := hs_remoteStatic (p_handshake P).
Definition keyView (w : World) := (d_keyMap (w_dev w), static <$> w_peers w).

Record keys_ok (w : World) : Prop := {
  ko_static : forall pk p, d_keyMap (w_dev w) !! pk = Some p -> (static <$> w_peers w) !! p = Some pk;
  ko_fresh : forall p, is_Some ((static <$> w_peers w) !! p) -> (p < w_next w)%positive;
  ko_size : Z.of_nat (size (d_keyMap (w_dev w))) <= MaxPeers;
}.

#[export] Instance coarser_keys : Coarser keyView.
Proof.
  intros w w' [= _ Hm _ _ _ Hp _ _]. unfold keyView. apply (f_equal (fmap snd)) in Hp. rewrite <- !map_fmap_compose in Hp. apply (f_equal2 pair); done.
Qed.
#[export] Instance framed_keys : Framed keyView keys_ok.
Proof. intros w w' [= Hm Hp] Hn [Hs Hf Hz]. split; rewrite ?Hm, ?Hp; try done. intros p Hex. specialize (Hf p Hex). lia. Qed.
Lemma keys_quiet {A} (m : M A) : preserves keyView m -> keeps keys_ok m.
Proof. apply keeps_preserves. apply _. Qed.

(** A peer that is not in the map yet. *)
Lemma keys_addPeer w P : keys_ok w -> keys_ok (with_peers (<[w_next w := P]> (w_peers w)) (with_nextLoc (Pos.succ (w_next w)) w)).
Proof.
  intros [Hs Hf Hz]. split; wsimpl; try done; rewrite fmap_insert.
  - intros pk p Hp. specialize (Hs pk p Hp). rewrite lookup_insert_ne; [done|]. specialize (Hf p (mk_is_Some _ _ Hs)). lia.
  - intros p. rewrite lookup_insert_is_Some. intros [<-|[_ Hp]]; [lia|]. specialize (Hf p Hp). lia.
Qed.
Lemma keys_bindPeer w pk p : keys_ok w -> (static <$> w_peers w) !! p = Some pk -> Z.of_nat (size (d_keyMap (w_dev w))) < MaxPeers ->
  keys_ok (with_dev (with_keyMap (<[pk := p]> (d_keyMap (w_dev w))) (w_dev w)) w).
Proof.
  intros [Hs Hf Hz] Hp Hlt. split; wsimpl; try done.
  - intros pk' p'. rewrite lookup_insert_Some. intros [[<- <-]|[_ ?]]; auto.
  - rewrite map_size_insert. destruct (d_keyMap (w_dev w) !! pk); cbn; lia.
Qed.
Lemma keys_shrink w m : keys_ok w -> m ⊆ d_keyMap (w_dev w) -> keys_ok (with_dev (with_keyMap m (w_dev w)) w).
Proof.
  intros [Hs Hf Hz] Hm. split; wsimpl; try done.
  - intros pk p Hp. apply Hs. by eapply lookup_weaken.
  - pose proof (map_subseteq_size _ _ Hm). lia.
Qed.

Lemma keys_NewPeer `{Primitives} pk : keeps keys_ok (NewPeer pk).
Proof.
  intros w a w' Hok Hr. unfold NewPeer in Hr. apply bind_inv in Hr as (cl & w1 & Hc & Hr). unfold isClosed in Hc. minv Hc. prim_inv Hc.
  case_bool_decide; [by prim_inv Hr|]. minv Hr. destruct (_ <=? _) eqn:Hsz; [by prim_inv Hr|]. apply Z.leb_gt in Hsz.
  destruct (d_keyMap _ !! pk) eqn:Hnone; [by prim_inv Hr|]. destruct (sharedSecret _ _) as [ss ok]. do 2 minv Hr.
  minv Hr. apply mret_inv in Hr as [_ ->].
  match goal with |- keys_ok (with_dev (with_keyMap (<[_ := _]> (d_keyMap (w_dev ?W))) _) _) => refine (keys_bindPeer W _ _ _ _ _) end.
  - by apply (keys_addPeer w).
  - wsimpl. by rewrite fmap_insert, lookup_insert_eq.
  - done.
Qed.
Lemma keys_newDummy : keeps keys_ok newDummy.
Proof. intros w a w' Hok Hr. unfold newDummy in Hr. do 2 minv Hr. prim_inv Hr. by apply (keys_addPeer w). Qed.

#[export] Instance keys_invariant `{Primitives} `{InitialCrypto} : DeviceInvariant keys_ok.
Proof.
  assert (forall n p, preserves keyView (newIndexLoop n p)) as Hloop by (induction n as [|n IH]; intros p; cbn [newIndexLoop]; unfold randUint32; quiet_tac).
  assert (forall p k es, preserves keyView (assignNonces p k es)) as Hassign by (induction es as [|e es IH]; cbn [assignNonces]; unfold assignNonce; quiet_tac).
  split; auto using keys_NewPeer, keys_newDummy.
  { intros w w' Hf. apply framed_keys, coarser_keys, Hf. }
  8: { intros key w u w' Hok [= _ <-]. apply keys_shrink; [done|apply delete_subseteq]. }
  8: { intros w u w' Hok [= _ <-]. apply keys_shrink; [done|apply map_empty_subseteq]. }
  all: intros; apply keys_quiet;
    unfold CreateMessageInitiation, CreateMessageResponse, ReceivedWithKeypair, BeginSymmetricSession, rotateKeypairs, SwapIndexForKeypair, ZeroAndFlushAll,
      ExpireCurrentKeypairs, expireKeypair, sendBatch, enqueueOutbound, NewIndexForHandshake, DeleteKeypair, indexDelete.
  all: quiet_tac.
Qed.
#[export] Instance keys_reconfigurable : Reconfigurable keys_ok.
Proof. split; intros; apply keys_quiet; quiet_tac. Qed.
#[export] Instance keys_state : StateChanges keys_ok.
Proof. intros s. apply keys_quiet. quiet_tac. Qed.
