(* ===== verification/System.v ===== *)
(** * System: the device as a transition system

    An [event] is one round of a routine, an expired timer, an event of the TUN device
    or a call of the interface; [handle] is its handler. A device starts as NewDevice
    leaves it and takes any sequence of events. Handlers are atomic: the program
    serialises what they share by locks and queues. What holds in every reachable
    state is shown once for the operations of [DeviceInvariant] (Frame). *)
From S2P Require Import Prelude GoLib Replay MagicHeader Imitate AllowedIPs QUICInitial Obf Tai64n RateLimiter Crypto Cookie NoiseTypes NetIP DeviceState Run Noise Timers Send Receive DeviceOps Uapi Frame IndexSpec IndexInv NonceInv KeysInv.
#[local] Open Scope Z_scope.

Inductive event :=
  | OnTUNRead (reads : list (list Z * Z)) (res : readResult)
  | OnTUNEvent (mtuUpdate eventUp eventDown : bool) (mtu : option Z)
  | OnDatagrams (dgrams : list (list Z * Endpoint))
  | OnEncryption | OnDecryption | OnHandshake
  | OnSender (p : positive) | OnReceiver (p : positive)
  | OnTimer (p : positive) (n : timerName)
  | OnIpcSet (conf : list Z) | OnIpcGet
  | OnUp | OnDown | OnClose | OnBindUpdate | OnBindSetMark (mark : Z)
  | OnSetPrivateKey (sk : list Z) | OnNewPeer (pk : list Z) | OnRemovePeer (pk : list Z) | OnRemoveAllPeers
  | OnKeepalives.

Section System.
Context `{Primitives} `{InitialCrypto}.

Definition ignore {A} (m : M A) : M unit := _ ← m; mret tt.
Definition handle (e : event) : M unit :=
  match e with
  | OnTUNRead reads res => ignore (readFromTUN reads res)
  | OnTUNEvent a b c mtu => tunEvent a b c mtu
  | OnDatagrams ds => RoutineReceiveIncoming ds
  | OnEncryption => RoutineEncryption
  | OnDecryption => RoutineDecryption
  | OnHandshake => RoutineHandshake
  | OnSender p => ignore (RoutineSequentialSender p)
  | OnReceiver p => ignore (RoutineSequentialReceiver p)
  | OnTimer p n => fireTimer p n
  | OnIpcSet conf => ignore (IpcSet conf)
  | OnIpcGet => ignore IpcGet
  | OnUp => ignore Up
  | OnDown => ignore Down
  | OnClose => Close
  | OnBindUpdate => ignore BindUpdate
  | OnBindSetMark mark => ignore (BindSetMark mark)
  | OnSetPrivateKey sk => SetPrivateKey sk
  | OnNewPeer pk => ignore (NewPeer pk)
  | OnRemovePeer pk => RemovePeer pk
  | OnRemoveAllPeers => RemoveAllPeers
  | OnKeepalives => SendKeepalivesToPeersWithCurrentKeypair
  end.

Inductive step : World -> World -> Prop :=
  | step_handle e w w' : handle e w = Some (tt, w') -> step w w'.

(** The state NewDevice leaves. *)
Record initial (w : World) : Prop := {
  in_dev : exists mtu, NewDevice mtu = Some (w_dev w);
  in_peers : w_peers w = ∅;
  in_keypairs : w_keypairs w = ∅;
  in_out : w_out w = ∅;
}.
Definition reachable (w : World) : Prop := exists w0, initial w0 /\ rtc step w0 w.

(** The states a list of events leads to. *)
Fixpoint run (es : list event) (w : World) : option World :=
  match es with
  | [] => Some w
  | e :: es => '(_, w) ← handle e w; run es w
  end.
Lemma run_rtc es w w' : run es w = Some w' -> rtc step w w'.
Proof.
  revert w. induction es as [|e es IH]; intros w; cbn [run]; [by intros [= <-]|].
  destruct (handle e w) as [[[] w1]|] eqn:E; [|done]. cbn. intros Hr. eapply rtc_l; [by econstructor|auto].
Qed.

(** Every event, given the state changes. *)
Lemma keeps_handle_with I `{!DeviceInvariant I, !Reconfigurable I} e : (forall s, keeps I (changeState s)) -> keeps I Close -> keeps I (handle e).
Proof.
  intros Hchange Hclose.
  assert (forall A (m : M A), keeps I m -> keeps I (ignore m)) as Hig by (intros A m Hm; apply keeps_bind; [done|intros; apply keeps_ret]).
  assert (forall A (m : M A), quiet m -> keeps I m) as Hq by (intros A m Hm; apply (keeps_preserves full); [apply inv_frame|done]).
  destruct e; cbn [handle]; try apply Hig;
    eauto using keeps_readFromTUN, keeps_tunEvent, quiet_RoutineReceiveIncoming, quiet_RoutineEncryption, quiet_RoutineDecryption, keeps_RoutineHandshake,
      keeps_RoutineSequentialSender, keeps_RoutineSequentialReceiver, keeps_fireTimer, keeps_IpcSet, quiet_IpcGet, quiet_BindUpdate,
      quiet_BindSetMark, keeps_SetPrivateKey, keeps_RemovePeer, keeps_RemoveAllPeers, keeps_SendKeepalives.
  all: first [apply Hchange | apply inv_NewPeer].
Qed.
Lemma keeps_handle I `{!DeviceInvariant I, !Reconfigurable I, !StateChanges I} e : keeps I (handle e).
Proof. apply keeps_handle_with; try done; eauto using keeps_changeState, keeps_Close. Qed.
Lemma steps_keep I w w' : (forall e, keeps I (handle e)) -> I w -> rtc step w w' -> I w'.
Proof. intros Hh Hok Hs. induction Hs as [|w w1 w' [e ? ? Hr] _ IH]; [done|]. apply IH. by eapply Hh. Qed.
Lemma invariant_steps I `{!DeviceInvariant I, !Reconfigurable I, !StateChanges I} w w' : I w -> rtc step w w' -> I w'.
Proof. apply steps_keep. intros. apply (keeps_handle I). Qed.

Lemma NewDevice_fields mtu d : NewDevice mtu = Some d -> d_indexTable d = ∅ /\ d_keyMap d = ∅.
Proof. unfold NewDevice. destruct (RateLimiter.Init newRatelimiter); [|done]. by intros [= <-]. Qed.

Lemma initial_index w : initial w -> index_ok w.
Proof.
  intros [[mtu Hd] Hp Hk _]. apply NewDevice_fields in Hd as [Ht _]. unfold index_ok, idx. rewrite Ht, Hp, Hk, !fmap_empty.
  split; cbn [ix_table ix_views ix_kps ix_next]; intros *; rewrite ?lookup_empty; try done; try by intros [? ?].
  split; [done|]. intros (p & v & Hv & _). by rewrite lookup_empty in Hv.
Qed.
Lemma initial_nonces w : initial w -> nonces_ok ∅ w.
Proof.
  intros [_ _ Hk Ho]. unfold nonces_ok. rewrite Hk, Ho, !fmap_empty.
  split; intros *; rewrite ?lookup_empty; try done; by intros [? ?].
Qed.
Lemma initial_keys w : initial w -> keys_ok w.
Proof.
  intros [[mtu Hd] Hp _ _]. apply NewDevice_fields in Hd as [_ Hm]. split; rewrite ?Hm, ?Hp, ?fmap_empty; [done| |done].
  by intros p [? ?].
Qed.

(** A reference to index [i]: the handshake in progress of a peer, or a keypair it
    holds as current, previous or next. *)
Inductive references (w : World) (i : Z) : IndexTableEntry -> Prop :=
  | ref_handshake p P : w_peers w !! p = Some P -> hs_localIndex (p_handshake P) = i -> references w i (mkIndexEntry p (Some p) None)
  | ref_keypair p P k K : w_peers w !! p = Some P -> k ∈ heldBy (p_keypairs P) -> w_keypairs w !! k = Some K -> kp_localIndex K = i ->
      references w i (mkIndexEntry p None (Some k)).

Lemma index_ok_references w i e : index_ok w -> i <> 0 -> d_indexTable (w_dev w) !! i = Some e <-> references w i e.
Proof.
  intros Hok Hi. rewrite (ii_table _ Hok i e Hi). cbn [idx ix_views ix_kps]. split.
  - intros (p & v & Hv & Hr). rewrite lookup_fmap in Hv. destruct (w_peers w !! p) as [P|] eqn:HP; [|done]. cbn in Hv. injection Hv as <-.
    destruct Hr as [[Hl ->]|(k & Hk & Hkp & ->)]; [by eapply ref_handshake|]. rewrite lookup_fmap in Hkp.
    destruct (w_keypairs w !! k) as [K|] eqn:HK; [|done]. cbn in Hkp. injection Hkp as Hkp. by eapply ref_keypair.
  - intros [p P HP Hl|p P k K HP Hk HK Hl]; exists p, (view P); rewrite lookup_fmap, HP; (split; [done|]); [by left|right].
    exists k. by rewrite lookup_fmap, HK, <- Hl.
Qed.

(** C2: in every reachable state the index table holds, at every nonzero index,
    exactly the live references: a handshake in progress or a keypair that its peer
    holds, each under its own index and attributed to its own peer. In particular two
    live sessions or handshakes never share an index, and nothing that was dropped can
    still be found. *)
Theorem index_table_exact (w : World) (i : Z) (e : IndexTableEntry) : reachable w -> i <> 0 ->
  d_indexTable (w_dev w) !! i = Some e <-> references w i e.
Proof. intros (w0 & Hi & Hs) Hne. apply index_ok_references; [|done]. by eapply (invariant_steps index_ok), Hs; apply initial_index. Qed.

(** C1: a transport nonce is never used twice: of any two packets that were ever
    queued for encryption, in states of one run of the device, with the same keypair and nonce, the
    second is the first; every such packet has a keypair and its nonce is below
    RejectAfterMessages. *)
Theorem nonce_never_reused (w1 w2 : World) (c1 c2 : positive) (C1 C2 : OutContainer) (i1 i2 : nat) (e1 e2 : QueueOutboundElement) :
  reachable w1 -> rtc step w1 w2 ->
  w_out w1 !! c1 = Some C1 -> oc_elems C1 !! i1 = Some e1 -> w_out w2 !! c2 = Some C2 -> oc_elems C2 !! i2 = Some e2 ->
  is_Some (oe_keypair e1) /\ 0 <= oe_nonce e1 < RejectAfterMessages /\
  (oe_keypair e1 = oe_keypair e2 -> oe_nonce e1 = oe_nonce e2 -> c1 = c2 /\ i1 = i2).
Proof.
  intros (w0 & Hi & H01) H12 HC1 He1 HC2 He2. pose proof (invariant_steps _ _ _ (initial_nonces _ Hi) H01) as Hok1.
  assert (nonces_ok (outView <$> w_out w1) w1) as Hok1' by (destruct Hok1; by split).
  pose proof (invariant_steps _ _ _ Hok1' H12) as Hok2.
  assert (forall w c C i e, w_out w !! c = Some C -> oc_elems C !! i = Some e -> (outView <$> w_out w) !! c = Some (outView C) /\ outView C !! i = Some (elemView e)) as Hview.
  { intros w c C i e HC He. unfold outView. by rewrite lookup_fmap, HC, list_lookup_fmap, He. }
  destruct (Hview _ _ _ _ _ HC1 He1) as [V1 E1], (Hview _ _ _ _ _ HC2 He2) as [V2 E2].
  destruct (ni_below _ _ _ _ Hok1 _ _ _ V1 ltac:(by eapply list_elem_of_lookup_2)) as (k & s & Hk & Hs & Hlt). cbn in Hk, Hlt.
  pose proof (ni_range _ _ _ _ Hok1 k s Hs). split_and!; [by rewrite Hk|lia|lia|]. intros Hkeq Hneq.
  apply (ni_unique _ _ _ _ Hok2 c1 (outView C1) i1 c2 (outView C2) i2 (elemView e1)); [|done|done|].
  - by apply (lookup_weaken _ _ _ _ V1), (ni_past _ _ _ _ Hok2).
  - rewrite E2. unfold elemView. by rewrite Hkeq, Hneq.
Qed.

(** C15: in every reachable state a peer is in the peer map under its own static public
    key and under no other, and there are at most MaxPeers of them; so the peer
    LookupPeer finds for a key is the one configured with that key. *)
Theorem peer_map_sound (w : World) : reachable w ->
  (forall pk p, d_keyMap (w_dev w) !! pk = Some p -> exists P, w_peers w !! p = Some P /\ hs_remoteStatic (p_handshake P) = pk) /\
  (forall pk1 pk2 p, d_keyMap (w_dev w) !! pk1 = Some p -> d_keyMap (w_dev w) !! pk2 = Some p -> pk1 = pk2) /\
  Z.of_nat (size (d_keyMap (w_dev w))) <= MaxPeers.
Proof.
  intros (w0 & Hi & Hs). destruct (invariant_steps _ _ _ (initial_keys _ Hi) Hs) as [Hst _ Hsz]. split_and!; [| |done].
  - intros pk p Hp. apply Hst in Hp. rewrite lookup_fmap in Hp. destruct (w_peers w !! p) as [P|]; [|done]. cbn in Hp. injection Hp as Hp. by exists P.
  - intros pk1 pk2 p H1 H2. apply Hst in H1, H2. congruence.
Qed.

(** What is left of a peer after ZeroAndFlushAll. *)
Record erased (P : Peer) : Prop := {
  er_keypairs : p_keypairs P = mkKeypairs None None None;
  er_handshake : hs_state (p_handshake P) = handshakeZeroed /\ hs_localIndex (p_handshake P) = 0;
  er_secrets : hs_localEphemeral (p_handshake P) = zeroKey /\ hs_remoteEphemeral (p_handshake P) = zeroKey /\
               hs_chainKey (p_handshake P) = zeroKey /\ hs_hash (p_handshake P) = zeroKey;
  er_staged : p_staged P = [];
}.
Lemma ZeroAndFlushAll_erases p w u w' : ZeroAndFlushAll p w = Some (u, w') -> exists P, w_peers w' !! p = Some P /\ erased P.
Proof.
  unfold ZeroAndFlushAll, indexDelete. intros Hr. minv Hr. do 3 (apply bind_inv in Hr as (? & ? & _ & Hr)). minv Hr. minv Hr. minv Hr. minv Hr. same_peer.
  unfold FlushStagedPackets in Hr. prim_inv Hr. same_peer.
  wsimpl. rewrite lookup_insert_eq. eexists. split; [done|]. split; by wsimpl.
Qed.

(** C16: when a peer is stopped or its keys have expired, ZeroAndFlushAll leaves no
    keypair, no handshake secret and no staged packet of it, and no entry of the index
    table, at a nonzero index, leads to it any more. *)
Theorem erased_peer_unreachable (p : positive) (w w' : World) (u : unit) : reachable w -> ZeroAndFlushAll p w = Some (u, w') ->
  (exists P, w_peers w' !! p = Some P /\ erased P) /\
  (forall i e, i <> 0 -> d_indexTable (w_dev w') !! i = Some e -> it_peer e <> p).
Proof.
  intros (w0 & Hi & Hs) Hr. pose proof (invariant_steps _ _ _ (initial_index _ Hi) Hs) as Hok. apply (inv_ZeroAndFlushAll (I := index_ok)) in Hr as Hok'; [|done].
  apply ZeroAndFlushAll_erases in Hr as (P & HP & He). split; [by exists P|]. intros i e Hne Ht Hp. apply (index_ok_references _ _ _ Hok' Hne) in Ht.
  destruct Ht as [q Q HQ Hl|q Q k K HQ Hk HK Hl]; cbn in Hp; subst q; rewrite HP in HQ; injection HQ as <-.
  - destruct (er_handshake P He). congruence.
  - rewrite (er_keypairs P He) in Hk. by apply elem_of_nil in Hk.
Qed.
End System.

(** ** Two devices

    A run of two devices that know each other, with the sample primitives: the first
    reads a packet, which starts a handshake; the second answers; the first sends the
    packet, then two more, and the second delivers what it is sent. *)

#[local] Existing Instance toyPrimitives.
#[local] Instance sampleInitialCrypto : InitialCrypto :=
  {| hkdfExtract _ _ := []; hkdfExpand _ _ _ := []; aesBlock _ _ := []; gcmSeal _ _ p _ := p; gcmOpen _ _ _ _ := None |}.

Definition sampleKey (own : Z) : list Z := clamp (replicate 32 own).
Definition sampleConf (own other : Z) (endpoint : string) : list Z :=
  line_ "private_key" (hexEncode (sampleKey own)) ++ line_ "listen_port" (str "51820") ++
  line_ "public_key" (hexEncode (publicKey (sampleKey other))) ++ line_ "endpoint" (str endpoint) ++ line_ "allowed_ip" (str "10.0.0.0/8").
Definition sampleStart (own : Z) : World :=
  mkWorld (default (newDeviceFields newRatelimiter 1420) (NewDevice 1420)) ∅ ∅ ∅ ∅ 1 (fun i => Z.of_nat i * own + 3)
    (fun i => 10 ^ 18 + Z.of_nat i * 1000) (fun _ => 0) (fun _ => replicate 200 0) [] [].
Definition samplePacket : list Z := [69; 0; 0; 20] ++ replicate 8 0 ++ [10; 0; 0; 1; 10; 0; 0; 2].
Definition sampleRead : list Z * Z := (replicate 16 0 ++ samplePacket ++ replicate 164 0, 20).
Definition sampleAddress (last : Z) : Endpoint := mkEndpoint (mkAddr [192; 0; 2; last] []) 51820 [].

(** The datagrams of the latest call of Send, as they arrive. *)
Definition onWire (w : World) (from : Z) : list (list Z * Endpoint) :=
  match w_sent w with (_, bufs) :: _ => (fun b => (b, sampleAddress from)) <$> bufs | [] => [] end.
Definition after (es : list event) (w : World) : World := default w (run es w).

Definition aInitiates : World := after [OnIpcSet (sampleConf 5 7 "192.0.2.7:51820"); OnUp; OnTUNRead [sampleRead] ReadOk] (sampleStart 5).
Definition bResponds : World := after [OnIpcSet (sampleConf 7 5 "192.0.2.5:51820"); OnUp; OnDatagrams (onWire aInitiates 5); OnHandshake] (sampleStart 7).
Definition aSends : World :=
  after [OnDatagrams (onWire bResponds 7); OnHandshake; OnTUNRead [sampleRead; sampleRead] ReadOk; OnEncryption; OnEncryption; OnSender 1; OnSender 1] aInitiates.
Definition bDelivers : World := after [OnDatagrams (onWire aSends 5); OnDecryption; OnReceiver 1] bResponds.

Example sample_tunnel : w_tun bDelivers = [samplePacket; samplePacket].
Proof. vm_compute. reflexivity. Qed.

Lemma after_run es w : match run es w with Some _ => true | None => false end = true -> rtc step w (after es w).
Proof. intros Hr. unfold after. destruct (run es w) as [w'|] eqn:E; [|done]. by apply (run_rtc es). Qed.
Lemma aInitiates_reachable : reachable aInitiates.
Proof. exists (sampleStart 5). split; [split; [by exists 1420|done..]|]. apply after_run. vm_compute. reflexivity. Qed.
Lemma aSends_reachable : rtc step aInitiates aSends.
Proof. apply after_run. vm_compute. reflexivity. Qed.

Lemma index_table_exact_witness : exists i, i <> 0 /\ references aInitiates i (mkIndexEntry 1 (Some 1%positive) None).
Proof.
  exists 3081940392. split; [lia|]. apply (index_table_exact aInitiates 3081940392 (mkIndexEntry 1 (Some 1%positive) None) aInitiates_reachable ltac:(lia)).
  vm_compute. reflexivity.
Defined.

Definition sampleQueued (c : positive) (i : nat) : option QueueOutboundElement := C ← w_out aSends !! c; oc_elems C !! i.
Lemma nonce_never_reused_witness : exists c1 c2 C1 C2 e1 e2,
  w_out aSends !! c1 = Some C1 /\ oc_elems C1 !! 0%nat = Some e1 /\ w_out aSends !! c2 = Some C2 /\ oc_elems C2 !! 1%nat = Some e2 /\
  oe_keypair e1 = oe_keypair e2 /\ oe_nonce e1 <> oe_nonce e2.
Proof.
  assert (match sampleQueued 3 0, sampleQueued 4 1 with Some e1, Some e2 => bool_decide (oe_keypair e1 = oe_keypair e2) | _, _ => false end = true) as Hc
    by (vm_compute; reflexivity).
  destruct (sampleQueued 3 0) as [e1|] eqn:E1; [|discriminate Hc]. destruct (sampleQueued 4 1) as [e2|] eqn:E2; [|discriminate Hc].
  apply bool_decide_eq_true in Hc. unfold sampleQueued in E1, E2.
  destruct (w_out aSends !! 3%positive) as [C1|] eqn:EC1; [|discriminate E1]. destruct (w_out aSends !! 4%positive) as [C2|] eqn:EC2; [|discriminate E2].
  exists 3%positive, 4%positive, C1, C2, e1, e2. do 5 (split; [assumption|]). intros Hn.
  destruct (nonce_never_reused aSends aSends 3 4 C1 C2 0 1 e1 e2) as (_ & _ & Huse);
    [|reflexivity|assumption|assumption|assumption|assumption|destruct (Huse Hc Hn); discriminate].
  destruct aInitiates_reachable as (w0 & H0 & H1). exists w0. split; [done|]. etransitivity; [exact H1|exact aSends_reachable].
Defined.

Lemma peer_map_sound_witness : exists pk P, d_keyMap (w_dev aInitiates) !! pk = Some 1%positive /\
  w_peers aInitiates !! 1%positive = Some P /\ hs_remoteStatic (p_handshake P) = pk.
Proof.
  assert (d_keyMap (w_dev aInitiates) !! publicKey (sampleKey 7) = Some 1%positive) as Hk by (vm_compute; reflexivity).
  destruct (peer_map_sound aInitiates aInitiates_reachable) as (Hs & _). destruct (Hs _ _ Hk) as (P & HP & Hst).
  exists (publicKey (sampleKey 7)), P. split; [exact Hk|]. split; assumption.
Defined.

Lemma erased_peer_unreachable_witness : exists w', ZeroAndFlushAll 1 aInitiates = Some (tt, w') /\ (exists P, w_peers w' !! 1%positive = Some P /\ erased P).
Proof.
  assert (match ZeroAndFlushAll 1 aInitiates with Some _ => true | None => false end = true) as Hc by (vm_compute; reflexivity).
  destruct (ZeroAndFlushAll 1 aInitiates) as [[[] w']|] eqn:E; [|discriminate Hc]. exists w'. split; [reflexivity|].
  exact (proj1 (erased_peer_unreachable 1 aInitiates w' tt aInitiates_reachable E)).
Defined.
