(* ===== verification/Staging.v ===== *)
(** * Staging: sending staged packets terminates

    The loops of SendStagedPackets put packets back into the queue they empty. They do
    so only when the keypair has run out of nonces, and then the next round ends them. *)
From S2P Require Import Prelude GoLib Replay MagicHeader Imitate AllowedIPs QUICInitial Obf Tai64n RateLimiter Crypto Cookie NoiseTypes DeviceState Run Noise Timers Send Receive DeviceOps Uapi Frame NonceInv System.
#[local] Open Scope Z_scope.

Lemma bind_congr {A B} (m : M A) (k1 k2 : A -> M B) w : (forall a w1, m w = Some (a, w1) -> k1 a w1 = k2 a w1) -> (m ≫= k1) w = (m ≫= k2) w.
Proof. intros Hk. unfold mbind, M_bind. destruct (m w) as [[a w1]|]; [by apply Hk|done]. Qed.

Section Staging.
Context `{Primitives} `{InitialCrypto}.

Lemma StagePackets_inv p es w u w' P : w_peers w !! p = Some P -> StagePackets p es w = Some (u, w') ->
  exists P', w' = setPeer p P' w /\ p_keypairs P' = p_keypairs P.
Proof. intros HP Hr. apply modPeer_inv in Hr as (P' & HP' & ->). rewrite HP in HP'. injection HP' as <-. eexists. split; [reflexivity|done]. Qed.
Lemma enqueueOutbound_inv p es w u w' P : w_peers w !! p = Some P -> enqueueOutbound p es w = Some (u, w') ->
  exists P', w_peers w' !! p = Some P' /\ p_keypairs P' = p_keypairs P /\ p_staged P' = p_staged P /\ w_keypairs w' = w_keypairs w.
Proof.
  intros HP Hr. unfold enqueueOutbound in Hr. rewrite (run_peerAt _ P) in Hr by done. destruct (p_isRunning _); [|apply mret_inv in Hr as [_ ->]; by exists P].
  rewrite run_alloc, run_modify, (run_modPeer _ P) in Hr by done. prim_inv Hr. wsimpl. rewrite lookup_insert_eq. eexists. split_and!; done.
Qed.

(** What a batch does to the peer and the keypair: the queue only grows when the
    keypair is used up. *)
Lemma sendBatch_inv past p k es w nothing again w' P : nonces_ok past w -> w_peers w !! p = Some P -> sendBatch p k es w = Some ((nothing, again), w') ->
  exists P', w_peers w' !! p = Some P' /\ p_keypairs P' = p_keypairs P /\
    (if again : bool then exists K', w_keypairs w' !! k = Some K' /\ kp_sendNonce K' = RejectAfterMessages else p_staged P' = p_staged P).
Proof.
  intros Hok HP Hr. unfold sendBatch in Hr. apply bind_inv in Hr as ([kept ooo] & w1 & H1 & Hr).
  assert (w_peers w1 = w_peers w /\ (ooo <> [] -> exists K', w_keypairs w1 !! k = Some K' /\ kp_sendNonce K' = RejectAfterMessages)) as [Hp1 Hooo].
  { destruct es as [|e es]; [apply mret_inv in H1 as [[= -> ->] ->]; done|].
    assert (exists K, w_keypairs w !! k = Some K) as [K HK].
    { cbn [assignNonces] in H1. unfold assignNonce in H1. apply bind_inv in H1 as (? & ? & H1 & _). minv H1. by eauto. }
    pose proof (ni_range _ _ _ _ Hok k _ (counter_at _ _ _ HK)) as Hs.
    apply (assignNonces_inv _ _ _ _ _ _ K HK Hs) in H1 as (_ & Hlen & Hsum & ->). cbn [fst snd] in Hlen, Hsum. split; [done|]. intros Hne.
    eexists. split; [apply setKeypair_at|]. change (kp_sendNonce K + Z.of_nat (length kept) = RejectAfterMessages). destruct ooo; [done|]. cbn [length] in Hsum, Hlen. lia. }
  cbv zeta in Hr. destruct ooo as [|o ooo].
  - change (negb (len (@nil QueueOutboundElement) =? 0)) with false in Hr. cbn [whenM] in Hr. rewrite run_mret in Hr. destruct (len kept =? 0).
    + apply mret_inv in Hr as [[= -> ->] ->]. exists P. by rewrite Hp1.
    + apply bind_inv in Hr as (u & w2 & H2 & Hr). apply mret_inv in Hr as [[= -> ->] ->]. rewrite <- Hp1 in HP.
      destruct (enqueueOutbound_inv _ _ _ _ _ _ HP H2) as (P' & ? & ? & ? & _). by exists P'.
  - destruct (Hooo ltac:(done)) as (K' & HK' & HR). change (negb (len (o :: ooo) =? 0)) with true in Hr. cbn [whenM] in Hr.
    apply bind_inv in Hr as (u & w2 & H2 & Hr). rewrite <- Hp1 in HP. apply (StagePackets_inv _ _ _ _ _ P HP) in H2 as (P' & -> & HP').
    destruct (len kept =? 0).
    + apply mret_inv in Hr as [[= -> ->] ->]. exists P'. wsimpl. rewrite lookup_insert_eq. by eauto.
    + apply bind_inv in Hr as (u' & w3 & H3 & Hr). apply mret_inv in Hr as [[= -> ->] ->].
      destruct (enqueueOutbound_inv p kept (setPeer p P' w1) u' w3 P') as (P'' & HP'' & Hkeys & _ & Hkps); [wsimpl; apply lookup_insert_eq|done|].
      exists P''. rewrite Hkps. wsimpl. split_and!; [done|congruence|by eauto].
Qed.

Section Loop.
Context (past : gmap positive (list (option positive * Z))) (stuck1 stuck2 : M unit) (p : positive).

(** A keypair without nonces ends the loops at once. *)
Lemma top_exhausted n w P k K : w_peers w !! p = Some P -> current (p_keypairs P) = Some k -> w_keypairs w !! k = Some K -> kp_sendNonce K = RejectAfterMessages ->
  sendStagedLoop stuck1 (S n) p None w = sendStagedLoop stuck2 (S n) p None w.
Proof.
  intros HP Hc HK Hn. cbn [sendStagedLoop]. rewrite !(run_peerAt _ P) by done. unfold isUp. rewrite !bind_assoc, !run_dev, !run_mret.
  destruct (_ || _); [done|]. unfold Current. rewrite !bind_assoc, !(run_peerAt _ P), !run_mret, Hc, !(run_keypairAt _ K), !run_time_Now by done.
  rewrite Hn, (proj2 (Z.leb_le _ _)) by lia. done.
Qed.

Definition innerAgrees (m : nat) : Prop := forall n w P k,
  (2 * m + 1 <= n)%nat -> nonces_ok past w -> w_peers w !! p = Some P -> current (p_keypairs P) = Some k -> length (p_staged P) = m ->
  sendStagedLoop stuck1 n p (Some k) w = sendStagedLoop stuck2 n p (Some k) w.
Definition topAgrees (m : nat) : Prop := forall n w P,
  (2 * m + 2 <= n)%nat -> nonces_ok past w -> w_peers w !! p = Some P -> length (p_staged P) = m ->
  sendStagedLoop stuck1 n p None w = sendStagedLoop stuck2 n p None w.

Lemma top_of_inner m : innerAgrees m -> topAgrees m.
Proof.
  intros Hin n w P Hn Hok HP Hm. destruct n as [|n]; [lia|]. cbn [sendStagedLoop]. rewrite !(run_peerAt _ P) by done. unfold isUp. rewrite !bind_assoc, !run_dev, !run_mret.
  destruct (_ || _); [done|]. unfold Current. rewrite !bind_assoc, !(run_peerAt _ P), !run_mret by done. destruct (current (p_keypairs P)) as [k|] eqn:Ek; [|done].
  apply bind_congr. intros K w1 HK. apply keypairAt_inv in HK as [HK ->]. rewrite !run_time_Now. destruct (_ || _); [done|].
  apply (Hin n _ P k); try done. lia.
Qed.
Lemma inner_of_less m : innerAgrees m -> innerAgrees (S m).
Proof.
  intros Hin n w P k Hn Hok HP Hc Hm. destruct n as [|n]; [lia|]. cbn [sendStagedLoop]. rewrite !(run_peerAt _ P) by done.
  destruct (p_staged P) as [|es rest] eqn:Es; [done|]. rewrite !(run_modPeer _ P) by done. apply bind_congr. intros [nothing again] w1 Hb.
  assert (nonces_ok past (setPeer p (with_staged rest P) w)) as Hok0 by exact Hok.
  pose proof (nonces_sendBatch past _ _ _ _ _ _ Hok0 Hb) as Hok1.
  destruct (sendBatch_inv past p k es _ nothing again w1 (with_staged rest P) Hok0) as (P' & HP' & Hkeys & Hagain); [wsimpl; apply lookup_insert_eq|done|].
  assert (current (p_keypairs P') = Some k) as Hc' by (by rewrite Hkeys). cbn [length] in Hm. destruct again.
  - rewrite orb_true_r. destruct Hagain as (K' & HK' & HR). destruct n as [|n]; [lia|]. by apply (top_exhausted n w1 P' k K').
  - assert (length (p_staged P') = m) as Hm' by (rewrite Hagain; cbn; lia). rewrite orb_false_r. destruct nothing.
    + apply (top_of_inner m Hin n w1 P'); try done. lia.
    + apply (Hin n w1 P' k); try done. lia.
Qed.
Lemma loops_agree m : topAgrees m.
Proof.
  apply top_of_inner. induction m as [|m IH]; [|by apply inner_of_less].
  intros n w P k Hn Hok HP Hc Hm. destruct n as [|n]; [lia|]. cbn [sendStagedLoop]. rewrite !(run_peerAt _ P) by done. by destruct (p_staged P).
Qed.
End Loop.

(** C8: sending the staged packets terminates: in every reachable state the loops
    return (or panic in something they call) before their fuel, twice the length of
    the queue and four rounds, is used up, so that it does not matter what running out
    of it would do. *)
Theorem staged_loop_terminates (w : World) (p : positive) (P : Peer) (stuck : M unit) : reachable w -> w_peers w !! p = Some P ->
  SendStagedPackets p w = sendStagedLoop stuck (2 * length (p_staged P) + 4) p None w.
Proof.
  intros (w0 & Hi & Hs) HP. pose proof (invariant_steps _ _ _ (initial_nonces _ Hi) Hs) as Hok.
  unfold SendStagedPackets. rewrite (run_peerAt _ P) by done. apply (loops_agree ∅ panic stuck p (length (p_staged P)) _ w P); try done. lia.
Qed.
End Staging.

#[local] Existing Instance toyPrimitives.
#[local] Existing Instance sampleInitialCrypto.
Lemma staged_loop_terminates_witness : exists P, w_peers aInitiates !! 1%positive = Some P /\ length (p_staged P) = 1%nat /\
  SendStagedPackets 1 aInitiates = sendStagedLoop (mret tt) (2 * length (p_staged P) + 4) 1 None aInitiates.
Proof.
  assert (match w_peers aInitiates !! 1%positive with Some P => Nat.eqb (length (p_staged P)) 1 | None => false end = true) as Hc by (vm_compute; reflexivity).
  destruct (w_peers aInitiates !! 1%positive) as [P|] eqn:E; [|discriminate Hc]. apply Nat.eqb_eq in Hc. exists P. split; [reflexivity|]. split; [exact Hc|].
  exact (staged_loop_terminates aInitiates 1 P (mret tt) aInitiates_reachable E).
Defined.
