(* ===== verification/Transport.v ===== *)
(** * Transport: what happens to a data packet between two devices

    The encryption worker, the padding of the sequential sender, the classification of
    a datagram and the decryption worker, seen as functions on bytes: padding and
    headers come off again, and a packet decrypts to what was read from the TUN device. *)
From S2P Require Import Prelude GoLib Replay MagicHeader Imitate AllowedIPs QUICInitial Obf Tai64n RateLimiter Crypto Cookie NoiseTypes DeviceState Run Noise Timers Send Receive DeviceOps Uapi.
#[local] Open Scope Z_scope.

(** ** Padding of the content *)

(** The content is padded as the last unit of the MTU. *)
Definition lastUnit (n mtu : Z) : Z := if (0 <? mtu) && (mtu <? n) then n mod mtu else n.

Lemma round16 x : 0 <= x -> let y := Z.land (x + PaddingMultiple - 1) (Z.lnot (PaddingMultiple - 1)) in x <= y < x + 16 /\ y mod 16 = 0.
Proof.
  intros Hx. unfold PaddingMultiple. cbv zeta. replace (Z.lnot (16 - 1)) with (Z.lnot (Z.ones 4)) by done.
  rewrite <- Z.ldiff_land, Z.ldiff_ones_r, Z.shiftl_mul_pow2, Z.shiftr_div_pow2 by lia. change (2 ^ 4) with 16. split; [|apply Z.mod_mul; lia].
  pose proof (Z.div_mod (x + 16 - 1) 16 ltac:(lia)). pose proof (Z.mod_pos_bound (x + 16 - 1) 16 ltac:(lia)). lia.
Qed.

Lemma calculatePaddingSize_spec n mtu : 0 <= n -> 0 <= mtu ->
  0 <= calculatePaddingSize n mtu < 16 /\
  ((lastUnit n mtu + calculatePaddingSize n mtu) mod 16 = 0 \/ lastUnit n mtu + calculatePaddingSize n mtu = mtu).
Proof.
  intros Hn Hm. unfold calculatePaddingSize, lastUnit. cbv zeta. destruct (mtu =? 0) eqn:E0.
  - apply Z.eqb_eq in E0 as ->. cbn [Z.ltb andb Z.compare]. destruct (round16 n Hn). split; [lia|left]. rewrite Zplus_minus. done.
  - rewrite (proj2 (Z.ltb_lt 0 mtu)) by lia. cbn [andb]. rewrite Z.rem_mod_nonneg by lia.
    set (u := if mtu <? n then n mod mtu else n). assert (0 <= u <= mtu) as Hu.
    { subst u. destruct (mtu <? n) eqn:E; [pose proof (Z.mod_pos_bound n mtu ltac:(lia)); lia|apply Z.ltb_ge in E; lia]. }
    clearbody u. destruct (round16 u ltac:(lia)) as [Hr Hz]. destruct (mtu <? _) eqn:E; [apply Z.ltb_lt in E|apply Z.ltb_ge in E].
    + split; [lia|right; lia].
    + split; [lia|left]. rewrite Zplus_minus. done.
Qed.

(** ** Padding of the datagram *)

(** The loop moves the first [n] bytes up by [padding], in the order that is safe for overlaps. *)
Lemma shiftLoop_spec n padding pre rest : 0 <= padding -> length pre = n -> (Z.to_nat padding <= length rest)%nat ->
  exists gap, length gap = Z.to_nat padding /\ shiftLoop n padding (pre ++ rest) = Some (gap ++ pre ++ drop (Z.to_nat padding) rest).
Proof.
  intros Hp. revert rest n. induction pre as [|x pre IH] using rev_ind; intros rest n Hn Hr.
  - cbn in Hn. subst n. exists (take (Z.to_nat padding) rest). rewrite length_take. split; [lia|]. cbn. by rewrite take_drop.
  - rewrite length_app in Hn. cbn in Hn. subst n. rewrite Nat.add_1_r. cbn [shiftLoop]. rewrite <- app_assoc.
    rewrite (at_Some _ _ x); [|rewrite Nat2Z.id; by apply list_lookup_middle|lia]. cbn [mbind option_bind].
    rewrite set_at_Some by (rewrite !len_app, len_cons; unfold len; lia). cbn [mbind option_bind].
    replace (Z.to_nat (Z.of_nat (length pre) + padding)) with (length pre + Z.to_nat padding)%nat by lia. rewrite insert_app_r.
    destruct (IH (<[Z.to_nat padding := x]> ([x] ++ rest)) (length pre) eq_refl) as (gap & Hg & ->); [rewrite length_insert; cbn; lia|].
    exists gap. split; [done|]. rewrite <- app_assoc. do 3 f_equal. rewrite (drop_S _ x) by (apply list_lookup_insert_eq; cbn; lia).
    rewrite drop_insert_lt by lia. done.
Qed.
(** A byte that would move past the end of the buffer. *)
Lemma shiftLoop_overflow n padding buf : len buf <= Z.of_nat n + padding -> shiftLoop (S n) padding buf = None.
Proof.
  intros Hn. cbn [shiftLoop]. destruct (at_ buf (Z.of_nat n)); [|done]. cbn [mbind option_bind]. unfold set_at. rewrite decide_False by lia. done.
Qed.

Lemma prefix_slice (buf pkt : list Z) : slice buf 0 (len pkt) = Some pkt -> exists rest, buf = pkt ++ rest.
Proof.
  intros Hs. assert (0 <= len pkt <= len buf) as Hb by (unfold slice in Hs; destruct (decide (0 <= 0 <= len pkt /\ len pkt <= len buf)); [lia|done]).
  rewrite slice_prefix in Hs by done. injection Hs as Hs. exists (drop (Z.to_nat (len pkt)) buf). rewrite <- Hs at 1. by rewrite take_drop.
Qed.

Lemma padTransport_ok padding e pkt w : 0 < padding -> oe_packet e = InBuffer 0 (len pkt) -> packetBytes e = Some pkt -> padding + len pkt <= len (oe_buffer e) ->
  exists e' r pad, padTransport padding e w = Some (e', with_rng r w) /\ packetBytes e' = Some (pad ++ pkt) /\ len pad = padding.
Proof.
  intros Hp Hin Hpk Hlen. unfold packetBytes in Hpk. rewrite Hin in Hpk. apply prefix_slice in Hpk as [rest Hbuf].
  rewrite Hbuf, len_app in Hlen. unfold padTransport. rewrite (proj2 (Z.ltb_lt 0 padding)) by lia. rewrite run_dev.
  rewrite (run_lift pkt) by (unfold packetBytes; rewrite Hin, Hbuf; apply slice_prefix_app).
  destruct (shiftLoop_spec (length pkt) padding pkt rest ltac:(lia) eq_refl ltac:(unfold len in *; lia)) as (gap & Hgap & Hshift).
  assert (len gap = padding) as Hg by (unfold len; lia). assert (padding + len pkt = len (gap ++ pkt)) as Hn by (rewrite len_app; lia).
  rewrite Hbuf, (run_lift _ _ _ _ Hshift), app_assoc, (run_lift (gap ++ pkt)) by (rewrite Hn; apply slice_prefix_app).
  destruct (fillPadding_spec (d_imitate (w_dev w)) (gap ++ pkt) padding (w_rng w)) as (out & r & Hfill & Hout & Hdrop); [rewrite <- Hn; unfold len; lia|].
  rewrite (run_draw _ out r) by done. do 2 eexists. exists (take (Z.to_nat padding) out). split; [reflexivity|].
  rewrite drop_app_length' in Hdrop by (unfold len in Hg; lia). split.
  - unfold packetBytes. cbn [oe_packet oe_buffer]. rewrite Z.add_0_l, Hn, <- Hout, slice_prefix_app. f_equal. rewrite <- Hdrop. by rewrite take_drop.
  - unfold len. rewrite length_take. unfold len in *. rewrite length_app in *. lia.
Qed.

(** the sequential sender moves the message up and fills the room in front of it:
    the datagram is the padding of the configured length followed by the message,
    unchanged. When the buffer has no room for the padding, the loop that moves the
    bytes runs past the end of the buffer and panics. *)
Theorem transport_padding (padding : Z) (e : QueueOutboundElement) (pkt : list Z) (w : World) :
  0 < padding -> oe_packet e = InBuffer 0 (len pkt) -> packetBytes e = Some pkt -> pkt <> [] ->
  if decide (padding + len pkt <= len (oe_buffer e)) then
    exists e' r pad, padTransport padding e w = Some (e', with_rng r w) /\ packetBytes e' = Some (pad ++ pkt) /\ len pad = padding
  else padTransport padding e w = None.
Proof.
  intros Hp Hin Hpk Hne. case_decide as Hroom; [by apply padTransport_ok|]. unfold padTransport. rewrite (proj2 (Z.ltb_lt 0 padding)) by lia.
  rewrite run_dev, (run_lift pkt) by done. destruct pkt as [|b pkt]; [done|]. cbn [length]. rewrite len_cons in Hroom.
  rewrite (shiftLoop_overflow (length pkt) padding (oe_buffer e)) by (unfold len in *; lia). done.
Qed.
Lemma transport_padding_witness :
  padTransport 4 (mkOutElem [1; 2; 3; 4; 5; 6; 7] (InBuffer 0 4) 0 None None)
    (mkWorld (newDeviceFields newRatelimiter 1420) ∅ ∅ ∅ ∅ 1 (fun _ => 9) (fun _ => 0) (fun _ => 0) (fun _ => []) [] []) = None.
Proof.
  exact (transport_padding 4 (mkOutElem [1; 2; 3; 4; 5; 6; 7] (InBuffer 0 4) 0 None None) [1; 2; 3; 4] _ eq_refl eq_refl eq_refl ltac:(discriminate)).
Defined.

(** ** Encryption and decryption *)

Section Aead.
Context `{PrimitiveLaws}.

(** The header of a transport message. *)
Definition transportHeader (msgType : Z) (K : Keypair) (nonce : Z) : list Z := le_bytes 4 msgType ++ le_bytes 4 (kp_remoteIndex K) ++ le_bytes 8 nonce.
Definition sealContent (K : Keypair) (nonce : Z) (content : list Z) : list Z := aeadSeal (kp_send K) (replicate 4 0 ++ le_bytes 8 nonce) content [].

Lemma len_transportHeader ty K nonce : len (transportHeader ty K nonce) = 16.
Proof. unfold transportHeader. by rewrite !len_app, !len_le_bytes. Qed.
Lemma len_sealContent K nonce content : len (sealContent K nonce content) = len content + 16.
Proof. unfold sealContent, len. rewrite aeadSeal_len. lia. Qed.

Lemma split_room (room : list Z) a b : 0 <= a -> 0 <= b -> a + b <= len room -> exists r1 r2 r3, room = r1 ++ r2 ++ r3 /\ len r1 = a /\ len r2 = b.
Proof.
  intros Ha Hb Hab. exists (take (Z.to_nat a) room), (take (Z.to_nat b) (drop (Z.to_nat a) room)), (drop (Z.to_nat b) (drop (Z.to_nat a) room)).
  rewrite !take_drop. unfold len in *. rewrite !length_take, length_drop. split_and!; [done|lia|lia].
Qed.

Lemma copy_at_front (a a' b : list Z) : len a' = len a -> copy_at (a ++ b) 0 a' = Some (a' ++ b).
Proof. intros Hl. exact (copy_at_mid [] a a' b Hl). Qed.

(** The worker writes the header, pads, seals in place. *)
Lemma encryptElement_ok e w k K front content room ty r :
  oe_keypair e = Some k -> w_keypairs w !! k = Some K -> 0 <= d_mtu (w_dev w) -> oe_buffer e = front ++ content ++ room -> len front = 16 ->
  oe_packet e = InBuffer 16 (len content) -> 32 <= len room -> Generate (h_transport (d_headers (w_dev w))) (w_rng w) = Some (ty, r) ->
  exists e', encryptElement e w = Some (e', with_rng r w) /\
    packetBytes e' = Some (transportHeader ty K (oe_nonce e) ++
      sealContent K (oe_nonce e) (content ++ replicate (Z.to_nat (calculatePaddingSize (len content) (d_mtu (w_dev w)))) 0)) /\
    oe_packet e' = InBuffer 0 (len content + calculatePaddingSize (len content) (d_mtu (w_dev w)) + 32) /\ len (oe_buffer e') = len (oe_buffer e).
Proof.
  intros Hk HK Hmtu Hbuf Hfront Hin Hroom Hgen. set (n := calculatePaddingSize (len content) (d_mtu (w_dev w))).
  pose proof (calculatePaddingSize_spec (len content) (d_mtu (w_dev w)) (len_nonneg content) Hmtu) as [Hn _]. fold n in Hn. set (zeros := replicate (Z.to_nat n) 0).
  assert (len zeros = n) as Hz by (unfold zeros, len; rewrite length_replicate; lia).
  destruct (split_room room n 16 ltac:(lia) ltac:(lia) ltac:(lia)) as (r1 & r2 & r3 & -> & Hr1 & Hr2).
  unfold encryptElement. rewrite run_dev. rewrite (run_lift front) by (rewrite Hbuf; change MessageTransportHeaderSize with 16; rewrite <- Hfront; apply slice_prefix_app).
  rewrite (run_draw _ ty r) by done. rewrite (run_lift k) by done. rewrite (run_keypairAt _ K) by done. fold (transportHeader ty K (oe_nonce e)).
  set (hd := transportHeader ty K (oe_nonce e)). assert (len hd = 16) as Hhd by apply len_transportHeader.
  rewrite (run_lift (hd ++ content ++ r1 ++ r2 ++ r3)) by (rewrite Hbuf; apply copy_at_front; lia). cbv zeta.
  rewrite (run_lift content) by (unfold packetBytes; cbn [oe_packet oe_buffer]; rewrite Hin, <- Hhd; by apply slice_mid). fold n.
  rewrite (run_lift zeros) by (rewrite slice_prefix by (change (len (replicate 16 0)) with 16; lia); rewrite take_replicate; unfold zeros; do 2 f_equal; lia).
  assert (hd ++ content ++ r1 ++ r2 ++ r3 = (hd ++ content) ++ r1 ++ r2 ++ r3) as Ea by by rewrite app_assoc.
  set (e1 := mkOutElem (hd ++ content ++ zeros ++ r2 ++ r3) (InBuffer 16 (len content + n)) (oe_nonce e) (oe_keypair e) (oe_peer e)).
  rewrite (run_lift e1).
  2: { unfold appendPacket. cbn [oe_packet oe_buffer oe_nonce oe_keypair oe_peer]. rewrite Hin, Hz.
    rewrite (proj2 (Z.leb_le _ _)) by (rewrite !len_app; pose proof (len_nonneg r3); lia).
    rewrite Ea. rewrite <- Hhd, <- len_app, copy_at_mid by lia. cbn [mbind option_bind]. unfold e1. by rewrite <- app_assoc, <- Hhd. }
  rewrite (run_lift (content ++ zeros)).
  2: { unfold packetBytes, e1. cbn [oe_packet oe_buffer]. rewrite <- Hhd. rewrite (app_assoc content). apply slice_mid. rewrite len_app. lia. }
  change (oe_nonce e1) with (oe_nonce e). cbv zeta. fold (sealContent K (oe_nonce e) (content ++ zeros)). set (sealed := sealContent K (oe_nonce e) (content ++ zeros)).
  assert (len sealed = len content + n + 16) as Hs by (unfold sealed; rewrite len_sealContent, len_app; lia).
  change (oe_buffer e1) with (hd ++ content ++ zeros ++ r2 ++ r3). change MessageTransportHeaderSize with 16.
  rewrite (proj2 (Z.leb_le _ _)) by (rewrite !len_app; pose proof (len_nonneg r3); lia).
  assert (hd ++ content ++ zeros ++ r2 ++ r3 = hd ++ (content ++ zeros ++ r2) ++ r3) as Eb by by rewrite !app_assoc.
  rewrite (run_lift (hd ++ sealed ++ r3)) by (rewrite Eb, <- Hhd; apply copy_at_mid; rewrite !len_app; lia).
  eexists. split; [reflexivity|]. unfold packetBytes. cbn [oe_packet oe_buffer]. split_and!.
  - rewrite Z.add_0_l, <- Hhd, <- len_app, app_assoc. apply slice_prefix_app.
  - f_equal. lia.
  - rewrite Hbuf, !len_app. lia.
Qed.

Lemma decryptElement_ok ty K nonce content k K' ep w : is_u64 nonce -> w_keypairs w !! k = Some K' -> kp_receive K' = kp_send K ->
  decryptElement (mkInElem (Some (transportHeader ty K nonce ++ sealContent K nonce content)) 0 k ep) w = Some (mkInElem (Some content) nonce k ep, w).
Proof.
  intros Hn HK' Hkeys. unfold decryptElement. cbn [ie_packet ie_keypair ie_endpoint]. rewrite (run_lift _ _ _ _ eq_refl).
  set (sealed := sealContent K nonce content). change MessageTransportOffsetCounter with 8. change MessageTransportOffsetContent with 16.
  rewrite (run_lift (le_bytes 8 nonce)) by (unfold transportHeader; rewrite app_assoc, <- (app_assoc _ (le_bytes 8 nonce)); apply slice_mid; by rewrite len_app, !len_le_bytes).
  rewrite (run_lift sealed).
  2: { pose proof (len_transportHeader ty K nonce) as Hh. rewrite slice_suffix by (rewrite len_app; pose proof (len_nonneg sealed); lia).
    rewrite drop_app_length'; [done|unfold len in Hh; lia]. }
  rewrite (run_keypairAt _ K') by done. cbv zeta. rewrite le_val_bytes by (unfold is_u64 in Hn; change (256 ^ Z.of_nat 8) with (2 ^ 64); lia).
  unfold sealed, sealContent. by rewrite Hkeys, aeadOpen_seal.
Qed.
End Aead.

(** An IP packet whose header gives its length, with its source address. *)
Inductive ipPacket (packet src : list Z) : Prop :=
  | ip4 b f : at_ packet 0 = Some b -> Z.shiftr b 4 = 4 -> 20 <= len packet -> slice packet 2 4 = Some f -> be_val f = len packet ->
      slice packet 12 16 = Some src -> ipPacket packet src
  | ip6 b f : at_ packet 0 = Some b -> Z.shiftr b 4 = 6 -> 40 <= len packet < 2 ^ 16 -> slice packet 4 6 = Some f -> be_val f + 40 = len packet ->
      slice packet 8 24 = Some src -> ipPacket packet src.

(** The receiver cuts off what the header does not cover. *)
Lemma innerPacket_ok t p packet src zeros : ipPacket packet src -> AllowedIPs.Lookup t src = Some (Some p) -> innerPacket t p (packet ++ zeros) = Some (Some packet).
Proof.
  intros [b f Hb Hv Hl Hf Hlen Hs|b f Hb Hv Hl Hf Hlen Hs] Ht; unfold innerPacket; rewrite (at_app_l _ _ _ _ Hb); cbn [mbind option_bind]; rewrite Hv;
    cbn [Z.eqb Pos.eqb]; rewrite (proj2 (Z.ltb_ge _ _)) by (rewrite len_app; pose proof (len_nonneg zeros); lia);
    rewrite (slice_app_l _ _ _ _ _ Hf); cbn [mbind option_bind]; cbv zeta.
  - rewrite Hlen. rewrite (proj2 (Z.ltb_ge _ _)) by (rewrite len_app; pose proof (len_nonneg zeros); lia). rewrite (proj2 (Z.ltb_ge _ _)) by lia. cbn [orb].
    rewrite (slice_app_l _ _ _ _ _ Hs). cbn [mbind option_bind]. rewrite Ht. cbn [mbind option_bind]. rewrite slice_prefix_app. cbn [mbind option_bind]. by rewrite decide_True.
  - rewrite Hlen, u16_small by (unfold is_u16; pose proof (len_nonneg packet); lia).
    rewrite (proj2 (Z.ltb_ge _ _)) by (rewrite len_app; pose proof (len_nonneg zeros); lia).
    rewrite (slice_app_l _ _ _ _ _ Hs). cbn [mbind option_bind]. rewrite Ht. cbn [mbind option_bind]. rewrite slice_prefix_app. cbn [mbind option_bind]. by rewrite decide_True.
Qed.

(** C6: a packet read from the TUN device with enough room behind it in its buffer is
    encrypted without panic, decrypts at a peer with the matching key to the packet
    and at most fifteen zero bytes, which fill the last unit of the MTU to a multiple
    of sixteen or to the MTU, with the nonce as its counter; and what that peer hands
    to its TUN device is the packet, when its source address belongs to the sender. *)
Theorem transport_roundtrip `{PrimitiveLaws} (e : QueueOutboundElement) (k k' : positive) (K K' : Keypair) (front packet room src : list Z)
    (wS wR : World) (t : AllowedIPs.AllowedIPs) (p : positive) (ep : Endpoint) :
  oe_keypair e = Some k -> w_keypairs wS !! k = Some K -> w_keypairs wR !! k' = Some K' -> kp_receive K' = kp_send K -> is_u64 (oe_nonce e) ->
  0 <= d_mtu (w_dev wS) -> header_wf (h_transport (d_headers (w_dev wS))) -> start (h_transport (d_headers (w_dev wS))) <> 0 ->
  oe_buffer e = front ++ packet ++ room -> len front = MessageTransportHeaderSize -> oe_packet e = InBuffer MessageTransportHeaderSize (len packet) -> 32 <= len room ->
  ipPacket packet src -> AllowedIPs.Lookup t src = Some (Some p) ->
  exists e' r wire n, encryptElement e wS = Some (e', with_rng r wS) /\ packetBytes e' = Some wire /\
    0 <= n < 16 /\ ((lastUnit (len packet) (d_mtu (w_dev wS)) + n) mod 16 = 0 \/ lastUnit (len packet) (d_mtu (w_dev wS)) + n = d_mtu (w_dev wS)) /\
    decryptElement (mkInElem (Some wire) 0 k' ep) wR = Some (mkInElem (Some (packet ++ replicate (Z.to_nat n) 0)) (oe_nonce e) k' ep, wR) /\
    innerPacket t p (packet ++ replicate (Z.to_nat n) 0) = Some (Some packet).
Proof.
  intros Hk HK HK' Hkeys Hnonce Hmtu Hwf Hstart Hbuf Hfront Hin Hroom Hip Ht. pose proof (Generate_spec _ (w_rng wS) Hwf) as Hgen.
  destruct (Generate _ (w_rng wS)) as [[ty r]|] eqn:Eg; [|lia].
  destruct (encryptElement_ok e wS k K front packet room ty r) as (e' & Henc & Hwire & _); try done.
  exists e', r, (transportHeader ty K (oe_nonce e) ++ sealContent K (oe_nonce e) (packet ++ replicate (Z.to_nat (calculatePaddingSize (len packet) (d_mtu (w_dev wS)))) 0)),
    (calculatePaddingSize (len packet) (d_mtu (w_dev wS))).
  destruct (calculatePaddingSize_spec (len packet) (d_mtu (w_dev wS)) (len_nonneg _) Hmtu). do 4 (split; [done|]). split.
  - by apply (decryptElement_ok ty K (oe_nonce e) _ k' K').
  - by apply (innerPacket_ok t p packet src).
Qed.

#[local] Existing Instance toyPrimitives.
#[local] Existing Instance toy_laws.
Definition sampleKeypair : Keypair := mkKeypair 0 (replicate 32 1) (replicate 32 1) zeroFilter true 0 7 8.
Definition sampleTransport : World :=
  mkWorld (newDeviceFields newRatelimiter 1420) ∅ {[ 1%positive := sampleKeypair ]} ∅ ∅ 2 (fun _ => 9) (fun _ => 0) (fun _ => 0) (fun _ => []) [] [].
Definition sampleInner : list Z := [69; 0; 0; 20] ++ replicate 8 0 ++ [10; 0; 0; 1; 10; 0; 0; 2].
Definition sampleElement : QueueOutboundElement := mkOutElem (replicate 16 0 ++ sampleInner ++ replicate 40 7) (InBuffer 16 20) 5 (Some 1%positive) None.
Definition sampleTable : AllowedIPs.AllowedIPs := default AllowedIPs.emptyTable (AllowedIPs.Insert AllowedIPs.emptyTable [10; 0; 0; 0] 8 1).
Lemma transport_roundtrip_witness : exists e' r wire n, encryptElement sampleElement sampleTransport = Some (e', with_rng r sampleTransport) /\ packetBytes e' = Some wire /\
  0 <= n < 16 /\ innerPacket sampleTable 1 (sampleInner ++ replicate (Z.to_nat n) 0) = Some (Some sampleInner).
Proof.
  destruct (transport_roundtrip sampleElement 1 1 sampleKeypair sampleKeypair (replicate 16 0) sampleInner (replicate 40 7) [10; 0; 0; 1]
    sampleTransport sampleTransport sampleTable 1 (mkEndpoint (NetIP.mkAddr [] []) 0 [])) as (e' & r & wire & n & He & Hw & Hn & _ & _ & Hi);
    [reflexivity|reflexivity|reflexivity|reflexivity|by vm_compute|by vm_compute|by vm_compute|by vm_compute|reflexivity|reflexivity|reflexivity|by vm_compute| |vm_compute; reflexivity|].
  - apply (ip4 _ _ 69 [0; 20]); by vm_compute.
  - exists e', r, wire, n. split; [exact He|]. split; [exact Hw|]. split; [exact Hn|exact Hi].
Defined.
