(* ===== verification/Classify.v ===== *)
(** * Classify: the type of a datagram

    A datagram is told apart by its length, its padding and the range its type field
    falls into. The test of the code is a search through the four kinds of message. *)
From S2P Require Import Prelude GoLib Replay MagicHeader Imitate AllowedIPs Tai64n RateLimiter Crypto Cookie NoiseTypes DeviceState Run Noise Send Receive.
#[local] Open Scope Z_scope.

Inductive kind := KInitiation | KResponse | KCookie | KTransport.
#[export] Instance kind_eq_dec : EqDecision kind.
Proof. solve_decision. Defined.

Definition kindType (k : kind) : Z :=
  match k with KInitiation => MessageInitiationType | KResponse => MessageResponseType | KCookie => MessageCookieReplyType | KTransport => MessageTransportType end.
Definition kindPadding (d : Device) (k : kind) : Z :=
  match k with KInitiation => pd_init | KResponse => pd_response | KCookie => pd_cookie | KTransport => pd_transport end (d_paddings d).
Definition kindHeader (d : Device) (k : kind) : magicHeader :=
  match k with KInitiation => h_init | KResponse => h_response | KCookie => h_cookie | KTransport => h_transport end (d_headers d).
(** The length of a datagram of the kind, padding included. *)
Definition kindFits (d : Device) (k : kind) (size : Z) : bool :=
  match k with
  | KInitiation => size =? pd_init (d_paddings d) + MessageInitiationSize
  | KResponse => size =? pd_response (d_paddings d) + MessageResponseSize
  | KCookie => size =? pd_cookie (d_paddings d) + MessageCookieReplySize
  | KTransport => pd_transport (d_paddings d) + MessageTransportHeaderSize <=? size
  end.

Fixpoint firstKind (d : Device) (packet : list Z) (ks : list kind) : option (Z * Z) :=
  match ks with
  | [] => Some (MessageUnknownType, 0)
  | k :: ks =>
      found ← if kindFits d k (len packet) then checkType packet (kindPadding d k) (kindHeader d k) else Some false;
      if (found : bool) then Some (kindType k, kindPadding d k) else firstKind d packet ks
  end.
Lemma determine_firstKind d packet : DeterminePacketTypeAndPadding d packet MessageUnknownType = firstKind d packet [KInitiation; KResponse; KCookie; KTransport].
Proof. reflexivity. Qed.

(** The type field of a datagram of the kind. *)
Definition typeField (d : Device) (k : kind) (packet : list Z) : Z := le_val (take 4 (drop (Z.to_nat (kindPadding d k)) packet)).

Lemma kindFits_room d k size : kindFits d k size = true -> kindPadding d k + 4 <= size.
Proof.
  destruct k; cbn [kindFits kindPadding]; unfold MessageInitiationSize, MessageResponseSize, MessageCookieReplySize, MessageTransportHeaderSize; intros Hf;
    first [apply Z.eqb_eq in Hf | apply Z.leb_le in Hf]; lia.
Qed.
Lemma checkType_fits d k packet : 0 <= kindPadding d k -> kindFits d k (len packet) = true ->
  checkType packet (kindPadding d k) (kindHeader d k) = Some (Validate (kindHeader d k) (typeField d k packet)).
Proof.
  intros Hp Hf. apply kindFits_room in Hf. unfold checkType. rewrite slice_suffix by lia. cbn [mbind option_bind].
  rewrite slice_prefix by (unfold len in *; rewrite length_drop; lia). done.
Qed.

(** The kind is recognised at [packet]. *)
Definition recognised (d : Device) (packet : list Z) (k : kind) : bool :=
  kindFits d k (len packet) && Validate (kindHeader d k) (typeField d k packet).

Lemma firstKind_spec d packet ks : (forall k, 0 <= kindPadding d k) ->
  firstKind d packet ks = match list_find (fun k => recognised d packet k = true) ks with
                          | Some (_, k) => Some (kindType k, kindPadding d k) | None => Some (MessageUnknownType, 0) end.
Proof.
  intros Hp. induction ks as [|k ks IH]; [done|]. cbn [firstKind list_find].
  assert (recognised d packet k = kindFits d k (len packet) && Validate (kindHeader d k) (typeField d k packet)) as Hk by done.
  destruct (kindFits d k (len packet)) eqn:Ef; cbn [andb] in Hk; [rewrite checkType_fits by done; destruct (Validate _ _)|]; cbn [mbind option_bind].
  - by rewrite decide_True.
  - rewrite decide_False by (by rewrite Hk). rewrite IH. by destruct (list_find _ ks) as [[]|].
  - rewrite decide_False by (by rewrite Hk). rewrite IH. by destruct (list_find _ ks) as [[]|].
Qed.


Definition sampleDevice : Device := with_paddings (mkPaddings 10 20 30 40) (newDeviceFields newRatelimiter 1420).
Definition sampleDatagram : list Z := replicate 20 255 ++ [2; 0; 0; 0] ++ replicate 88 5.
