(* ===== verification/ConfigInv.v ===== *)
(** * ConfigInv: configuration and state of the device over time

    Only the configuration protocol changes header ranges and routes, and only Up, Down
    and Close change the state; a configuration that was accepted has disjoint header
    ranges, and a closed device stays closed. *)
From S2P Require Import Prelude GoLib Replay MagicHeader Imitate AllowedIPs QUICInitial Obf Tai64n RateLimiter Crypto Cookie NoiseTypes DeviceState Run Noise Timers Send Receive DeviceOps Uapi Frame System Classify.
#[local] Open Scope Z_scope.

Definition configView (w : World) := (d_headers (w_dev w), d_allowedips (w_dev w), d_state (w_dev w)).
Definition configIs c (w : World) : Prop := configView w = c.

#[export] Instance coarser_config : Coarser configView.
Proof. intros w w' [= _ _ Hs Hh Ha _ _ _]. unfold configView. by rewrite Hs, Hh, Ha. Qed.
#[export] Instance framed_config c : Framed configView (configIs c).
Proof. intros w w' Hv _ Hc. unfold configIs in *. by rewrite Hv. Qed.

Section Config.
Context `{Primitives} `{InitialCrypto}.

Lemma config_newIndexLoop n p : preserves configView (newIndexLoop n p).
Proof. induction n as [|n IH]; cbn [newIndexLoop]; unfold randUint32; quiet_tac. Qed.
Lemma config_assignNonces p k es : preserves configView (assignNonces p k es).
Proof. induction es as [|e es IH]; cbn [assignNonces]; unfold assignNonce; quiet_tac. Qed.
#[local] Hint Resolve config_newIndexLoop config_assignNonces : quiet.

(** No operation of the running device touches the configuration or the state. *)
#[export] Instance config_invariant c : DeviceInvariant (configIs c).
Proof.
  split.
  { intros w w' Hf Hn. apply (framed_config c w w' (coarser_config w w' Hf) Hn). }
  all: intros; apply (keeps_preserves configView); [apply _|];
    unfold CreateMessageInitiation, CreateMessageResponse, ReceivedWithKeypair, BeginSymmetricSession, rotateKeypairs, SwapIndexForKeypair, ZeroAndFlushAll,
      ExpireCurrentKeypairs, expireKeypair, NewPeer, newDummy, sendBatch, enqueueOutbound, NewIndexForHandshake, DeleteKeypair, indexDelete.
  all: quiet_tac.
Qed.

(** ** A closed device *)

Definition closedEmpty (w : World) : Prop := d_state (w_dev w) = deviceStateClosed /\ d_keyMap (w_dev w) = ∅.
Definition closedView (w : World) := (d_state (w_dev w), d_keyMap (w_dev w)).
#[export] Instance coarser_closed : Coarser closedView.
Proof. intros w w' [= _ Hm Hs _ _ _ _ _]. unfold closedView. by rewrite Hs, Hm. Qed.
#[export] Instance framed_closed : Framed closedView closedEmpty.
Proof. intros w w' [= Hs Hm] _ [? ?]. unfold closedEmpty. by rewrite Hs, Hm. Qed.

Lemma NewPeer_closed pk w : d_state (w_dev w) = deviceStateClosed -> NewPeer pk w = Some (Err deviceClosed, w).
Proof. intros Hs. unfold NewPeer, isClosed. rewrite bind_assoc, run_dev, run_mret, Hs, bool_decide_true by done. done. Qed.

Lemma closed_newIndexLoop n p : preserves closedView (newIndexLoop n p).
Proof. induction n as [|n IH]; cbn [newIndexLoop]; unfold randUint32; quiet_tac. Qed.
Lemma closed_assignNonces p k es : preserves closedView (assignNonces p k es).
Proof. induction es as [|e es IH]; cbn [assignNonces]; unfold assignNonce; quiet_tac. Qed.
#[local] Hint Resolve closed_newIndexLoop closed_assignNonces : quiet.
#[local] Instance closed_invariant : DeviceInvariant closedEmpty.
Proof.
  split.
  { intros w w' Hf Hn. apply (framed_closed w w' (coarser_closed w w' Hf) Hn). }
  7: { intros pk w a w' [Hs Hm] Hr. rewrite NewPeer_closed in Hr by done. by injection Hr as _ <-. }
  9: { intros key w a w' [Hs Hm] [= _ <-]. split; [done|]. wsimpl. by rewrite Hm, delete_empty. }
  9: { intros w a w' [Hs Hm] [= _ <-]. by split. }
  all: intros; apply (keeps_preserves closedView); [apply _|];
    unfold CreateMessageInitiation, CreateMessageResponse, ReceivedWithKeypair, BeginSymmetricSession, rotateKeypairs, SwapIndexForKeypair, ZeroAndFlushAll,
      ExpireCurrentKeypairs, expireKeypair, newDummy, sendBatch, enqueueOutbound, NewIndexForHandshake, DeleteKeypair, indexDelete.
  all: quiet_tac.
Qed.
#[local] Instance closed_reconfigurable : Reconfigurable closedEmpty.
Proof. split; intros; apply (keeps_preserves closedView); [apply _|quiet_tac|apply _|quiet_tac]. Qed.

Lemma closed_steps w w' : closedEmpty w -> rtc step w w' -> closedEmpty w'.
Proof.
  apply steps_keep. intros e. apply (keeps_handle_with closedEmpty).
  - intros s v a v' Hv Hr. unfold changeState in Hr. rewrite run_dev in Hr. cbv zeta in Hr. rewrite decide_True in Hr by apply Hv. by injection Hr as _ <-.
  - intros v a v' Hv Hr. unfold Close, isClosed in Hr. rewrite bind_assoc, run_dev, run_mret, bool_decide_true in Hr by apply Hv. by injection Hr as _ <-.
Qed.

(** What keeps the whole configuration keeps a part of it. *)
Definition stateIs (s : deviceState) (w : World) : Prop := d_state (w_dev w) = s.
Lemma keeps_stateIs {A} s (m : M A) : (forall c, keeps (configIs c) m) -> keeps (stateIs s) m.
Proof. intros Hm w a w' Hs Hr. pose proof (Hm (configView w) w a w' eq_refl Hr) as Hc. injection Hc as _ _ Hc. unfold stateIs in *. congruence. Qed.
#[local] Instance state_invariant s : DeviceInvariant (stateIs s).
Proof.
  split; [intros w w' [= _ _ Hs _ _ _ _ _] _ Hw; unfold stateIs in *; congruence|..]; intros; apply keeps_stateIs; intros c; keeps_field.
Qed.
#[local] Instance state_reconfigurable s : Reconfigurable (stateIs s).
Proof. split; by intros f w a w' Hs [= _ <-]. Qed.

Lemma Close_empties w u w' : d_state (w_dev w) <> deviceStateClosed -> Close w = Some (u, w') -> closedEmpty w'.
Proof.
  intros Hs Hr. unfold Close, isClosed in Hr. rewrite bind_assoc, run_dev, run_mret, bool_decide_false in Hr by done. minv Hr.
  apply bind_inv in Hr as (? & w1 & [= _ <-] & Hr). apply bind_inv in Hr as (err & w2 & Hdown & Hr).
  apply (keeps_downLocked (stateIs deviceStateClosed)) in Hdown; [|done].
  apply bind_inv in Hr as (? & w3 & Hrem & Hr). unfold RemoveAllPeers in Hrem. minv Hrem. apply bind_inv in Hrem as (? & w4 & Hloop & Hrem).
  apply (keeps_forM (stateIs deviceStateClosed)) in Hloop; [|intros []; apply keeps_removePeerLocked; apply _|done]. prim_inv Hrem.
  minv Hr. apply bind_inv in Hr as (l & w5 & Hl & Hr). apply lift_inv in Hl as [_ ->]. prim_inv Hr. split; [exact Hloop|done].
Qed.

(** C9: closing a device is final: from the moment Close returns, whatever happens,
    the device stays closed, has no peers, and refuses to create one. *)
Theorem closed_is_final (w w1 w2 : World) (u : unit) : d_state (w_dev w) <> deviceStateClosed -> Close w = Some (u, w1) -> rtc step w1 w2 ->
  d_state (w_dev w2) = deviceStateClosed /\ d_keyMap (w_dev w2) = ∅ /\ (forall pk, NewPeer pk w2 = Some (Err deviceClosed, w2)).
Proof.
  intros Hs Hc Hsteps. pose proof (closed_steps _ _ (Close_empties _ _ _ Hs Hc) Hsteps) as [? ?]. split_and!; [done..|]. intros. by apply NewPeer_closed.
Qed.

(** ** Header ranges *)

Lemma anyOverlap_disjoint hs i j hi hj v : anyOverlap hs = false -> hs !! i = Some hi -> hs !! j = Some hj -> i <> j -> Validate hi v = true -> Validate hj v = false.
Proof.
  assert (forall h1 h2, (start h1 <=? end_ h2) && (start h2 <=? end_ h1) = false -> Validate h1 v = true -> Validate h2 v = false) as Hpair.
  { intros h1 h2 Ho Hv. unfold Validate in *. apply not_true_iff_false. intros Hv'. lia. }
  revert i j. induction hs as [|h hs IH]; intros i j Ho Hi Hj Hij Hv; [done|]. cbn [anyOverlap] in Ho. apply orb_false_iff in Ho as [Hh Ho].
  assert (forall n x, hs !! n = Some x -> (start h <=? end_ x) && (start x <=? end_ h) = false) as Hall.
  { intros n x Hx. apply not_true_iff_false. intros Hc. apply not_true_iff_false in Hh. apply Hh. apply existsb_exists. exists x. split; [|done].
    apply list_elem_of_In. by eapply list_elem_of_lookup_2. }
  destruct i as [|i], j as [|j]; cbn in Hi, Hj; [done| | |].
  - injection Hi as <-. by apply (Hpair h hj (Hall j hj Hj)).
  - injection Hj as <-. apply (Hpair hi h); [|done]. rewrite andb_comm. by apply (Hall i).
  - apply (IH i j); try done. congruence.
Qed.

Definition headerList (d : Device) : list magicHeader := [h_init (d_headers d); h_response (d_headers d); h_cookie (d_headers d); h_transport (d_headers d)].
Lemma headerList_kind d k : headerList d !! Z.to_nat (kindType k - 1) = Some (kindHeader d k).
Proof. by destruct k. Qed.

Lemma finishSet_headers sp b w w' : finishSet sp b w = Some (None, w') -> anyOverlap (headerList (w_dev w')) = false.
Proof.
  unfold finishSet. intros Hr. apply bind_inv in Hr as (o & w1 & Hm & Hr). unfold mergeWithDevice in Hm. minv Hm. cbv zeta in Hm. cbn [sd_init sd_response sd_cookie sd_transport default] in Hm.
  change (anyOverlap _) with (anyOverlap (headerList (w_dev w))) in Hm. destruct (anyOverlap (headerList (w_dev w))) eqn:Eo.
  - prim_inv Hm. unfold invalid in Hr. prim_inv Hr.
  - minv Hm. apply mret_inv in Hm as [-> ->]. apply bind_inv in Hr as (u & w2 & Hp & Hr).
    match type of Hp with _ ?W = _ => pose proof (keeps_handlePostConfig (configIs (configView W)) sp _ _ _ eq_refl Hp) as Hc end.
    injection Hc as Hh _ _. assert (w' = w2) as -> by (unfold okay in Hr; destruct b; [by prim_inv Hr|by apply mret_inv in Hr as [_ ->]]).
    unfold headerList. rewrite Hh. exact Eo.
Qed.
Lemma setLoop_headers lines b sp c w w' : setLoop lines b sp c w = Some (None, w') -> anyOverlap (headerList (w_dev w')) = false.
Proof.
  revert sp c w. induction lines as [|l ls IH]; intros sp c w Hr; cbn [setLoop] in Hr; [by eapply finishSet_headers|].
  destruct (len l =? 0); [by eapply finishSet_headers|]. destruct (CutByte l 61) as [[key value]|]; [|prim_inv Hr].
  destruct (str_eqb key _); [|destruct c].
  - apply bind_inv in Hr as (u & w1 & _ & Hr). apply bind_inv in Hr as ([sp1 [e|]] & w2 & _ & Hr); [prim_inv Hr|by eapply IH].
  - apply bind_inv in Hr as ([e|] & w1 & _ & Hr); [prim_inv Hr|by eapply IH].
  - apply bind_inv in Hr as ([sp1 [e|]] & w1 & _ & Hr); [prim_inv Hr|by eapply IH].
Qed.

(** C18: after a set operation that succeeded, the four header ranges are disjoint, so
    that no type field belongs to two kinds of message. *)
Theorem accepted_headers_disjoint (conf : list Z) (w w' : World) : IpcSet conf w = Some (None, w') ->
  forall k k' v, k' <> k -> Validate (kindHeader (w_dev w') k) v = true -> Validate (kindHeader (w_dev w') k') v = false.
Proof.
  intros Hr k k' v Hne Hv. unfold IpcSet in Hr. destruct (scanLines _) as [lines b]. apply setLoop_headers in Hr.
  eapply (anyOverlap_disjoint _ _ _ _ _ v Hr (headerList_kind _ k) (headerList_kind _ k')); [|done]. destruct k, k'; first [congruence | by vm_compute].
Qed.
End Config.

#[local] Existing Instance toyPrimitives.
#[local] Existing Instance sampleInitialCrypto.

Lemma closed_is_final_witness : exists w1, Close aInitiates = Some (tt, w1) /\ d_state (w_dev w1) = deviceStateClosed /\ d_keyMap (w_dev w1) = ∅.
Proof.
  assert (match Close aInitiates with Some _ => true | None => false end = true) as Hc by (vm_compute; reflexivity).
  destruct (Close aInitiates) as [[[] w1]|] eqn:E; [|discriminate Hc]. exists w1. split; [reflexivity|].
  destruct (closed_is_final aInitiates w1 w1 tt) as (Hs & Hm & _); [vm_compute; discriminate|exact E|reflexivity|]. split; assumption.
Defined.

Lemma accepted_headers_disjoint_witness : exists w', IpcSet (line_ "h1" (str "100-200")) (sampleStart 5) = Some (None, w') /\
  Validate (kindHeader (w_dev w') KResponse) 150 = false.
Proof.
  assert (match IpcSet (line_ "h1" (str "100-200")) (sampleStart 5) with Some (None, w') => Validate (kindHeader (w_dev w') KInitiation) 150 | _ => false end = true) as Hc
    by (vm_compute; reflexivity).
  destruct (IpcSet _ _) as [[[e|] w']|] eqn:E; [discriminate Hc| |discriminate Hc]. exists w'. split; [reflexivity|].
  apply (accepted_headers_disjoint _ _ _ E KInitiation KResponse 150); [discriminate|exact Hc].
Defined.

(** a set operation that is rejected because header ranges overlap has already
    changed them: here the device is left with initiations and responses in one range. *)
Theorem rejected_headers_stay (w : World) : exists w',
  IpcSet (line_ "h1" (str "7") ++ line_ "h2" (str "7")) w = Some (Some IpcErrorInvalid, w') /\
  kindHeader (w_dev w') KInitiation = mkMagicHeader 7 7 /\ kindHeader (w_dev w') KResponse = mkMagicHeader 7 7.
Proof. eexists. split; [vm_compute; reflexivity|]. split; reflexivity. Qed.

Lemma sendJunk_panics n w : i64 (j_max (d_junk (w_dev w)) - j_min (d_junk (w_dev w)) + 1) <= 0 -> sendJunk (S n) w = None.
Proof.
  intros Hj. cbn [sendJunk]. rewrite run_dev. unfold mbind, M_bind, draw, randInt. rewrite (proj2 (Z.leb_le _ 0)) by done. done.
Qed.

(** the bounds of the junk packets are not compared: a configuration with a lower
    bound above the upper one is accepted, and drawing the size of a junk packet for
    the next handshake initiation panics. *)
Theorem junk_bounds_unchecked : exists w',
  IpcSet (line_ "jc" (str "1") ++ line_ "jmin" (str "10") ++ line_ "jmax" (str "5")) (sampleStart 5) = Some (None, w') /\
  j_count (d_junk (w_dev w')) = 1 /\ (forall n, sendJunk (S n) w' = None).
Proof.
  assert (match IpcSet (line_ "jc" (str "1") ++ line_ "jmin" (str "10") ++ line_ "jmax" (str "5")) (sampleStart 5) with
          | Some (None, w') => (j_count (d_junk (w_dev w')) =? 1) && (i64 (j_max (d_junk (w_dev w')) - j_min (d_junk (w_dev w')) + 1) <=? 0)
          | _ => false end = true) as Hc by (vm_compute; reflexivity).
  destruct (IpcSet _ _) as [[[e|] w']|]; [done| |done]. apply andb_true_iff in Hc as [H1 H2]. apply Z.eqb_eq in H1. apply Z.leb_le in H2.
  exists w'. split_and!; [done..|]. intros n. by apply sendJunk_panics.
Qed.
