(* ===== verification/UapiSession.v ===== *)
(** * UapiSession: a connection of the configuration protocol (IpcHandle of src/device/uapi.go)

    IpcHandle reads operations from a buffered connection and answers them. The reader and the
    scanner of package bufio are modelled with their buffers, because what a scanner has read
    ahead is lost when the operation returns. The connection is the list of what its reads
    return, each of at least one byte and at most the size of the buffer; the end of the list
    is the end of the connection. *)
From S2P Require Import Prelude GoLib Replay MagicHeader Imitate AllowedIPs QUICInitial Obf Tai64n RateLimiter Crypto Cookie NoiseTypes NetIP DeviceState Noise Run NoiseRuns Agreement Timers Send Receive DeviceOps Uapi Frame System.
#[local] Open Scope Z_scope.

(** ** bufio *)

Record reader : Type := { rd_buf : list Z; rd_reads : list (list Z) }.
Definition newReader (reads : list (list Z)) : reader := {| rd_buf := []; rd_reads := reads |}.

Fixpoint readStringFrom (buf : list Z) (reads : list (list Z)) : option (list Z * reader) :=
  match CutByte buf 10 with
  | Some (l, rest) => Some (l ++ [10], {| rd_buf := rest; rd_reads := reads |})
  | None => match reads with [] => None | r :: reads => readStringFrom (buf ++ r) reads end
  end.
(** ReadString('\n'); [None] is the error. *)
Definition ReadString (rd : reader) : option (list Z * reader) := readStringFrom (rd_buf rd) (rd_reads rd).
Definition ReadByte (rd : reader) : option (Z * reader) :=
  match rd_buf rd, rd_reads rd with
  | b :: buf, reads => Some (b, {| rd_buf := buf; rd_reads := reads |})
  | [], (b :: r) :: reads => Some (b, {| rd_buf := r; rd_reads := reads |})
  | [], _ => None
  end.
(** Read into [n] bytes: what is buffered, or one read of the connection. *)
Definition ReadInto (n : nat) (rd : reader) : option (list Z * reader) :=
  match rd_buf rd, rd_reads rd with
  | [], [] => None
  | [], r :: reads => Some (take n r, {| rd_buf := drop n r; rd_reads := reads |})
  | buf, reads => Some (take n buf, {| rd_buf := drop n buf; rd_reads := reads |})
  end.

(** A scanner: the bytes it holds, where they begin in its buffer, and its size. *)
Record scanner : Type := { sc_data : list Z; sc_start : Z; sc_size : Z }.
Definition newScanner : scanner := {| sc_data := []; sc_start := 0; sc_size := 0 |}.
Definition startBufSize : Z := 4096.
(** Making room: the data is moved to the front, and the buffer grown when it is full; [None]
    is a token that is too long. *)
Definition shifted (sc : scanner) : scanner :=
  if (0 <? sc_start sc) && ((sc_start sc + len (sc_data sc) =? sc_size sc) || (sc_size sc / 2 <? sc_start sc)) then {| sc_data := sc_data sc; sc_start := 0; sc_size := sc_size sc |} else sc.
Definition makeRoom (sc : scanner) : option scanner :=
  let sc := shifted sc in
  if sc_start sc + len (sc_data sc) =? sc_size sc then
    if MaxScanTokenSize <=? sc_size sc then None
    else Some {| sc_data := sc_data sc; sc_start := 0; sc_size := Z.min (if sc_size sc =? 0 then startBufSize else sc_size sc * 2) MaxScanTokenSize |}
  else Some sc.
Definition room (sc : scanner) : nat := Z.to_nat (sc_size sc - (sc_start sc + len (sc_data sc))).

(** The next line: [NoLine true] is a line that is too long, [NoLine false] the end. *)
Inductive scanned : Type := Line (l : list Z) (sc : scanner) (rd : reader) | NoLine (tooLong : bool) (rd : reader).
Fixpoint Scan (fuel : nat) (sc : scanner) (rd : reader) : option scanned :=
  match CutByte (sc_data sc) 10 with
  | Some (l, rest) => Some (Line (dropCR l) {| sc_data := rest; sc_start := sc_start sc + len l + 1; sc_size := sc_size sc |} rd)
  | None =>
      match makeRoom sc with
      | None => Some (NoLine true rd)
      | Some sc =>
          match ReadInto (room sc) rd with
          | None =>
              (* the end: the last line, if there is one *)
              match sc_data sc with
              | [] => Some (NoLine false rd)
              | l => Some (Line (dropCR l) {| sc_data := []; sc_start := sc_start sc + len l; sc_size := sc_size sc |} rd)
              end
          | Some (data, rd) =>
              match fuel with
              | O => None
              | S fuel => Scan fuel {| sc_data := sc_data sc ++ data; sc_start := sc_start sc; sc_size := sc_size sc |} rd
              end
          end
      end
  end.

(** The bytes that are still to be read; every read takes one of them at least. *)
Definition remaining (rd : reader) : nat := length (rd_buf rd) + length (concat (rd_reads rd)).

Section Session.
Context `{Primitives} `{InitialCrypto}.

(** ** IpcSetOperation on a connection *)

(** One line of the set operation: it ends the operation, or the next one is read. *)
Inductive lineVerdict : Type := Stops (err : option Z) | Continues (sp : ipcSetPeer) (deviceConfig : bool).
Definition setLine (line : list Z) (sp : ipcSetPeer) (deviceConfig : bool) : M lineVerdict :=
  let verdict (sp : ipcSetPeer) (dc : bool) (err : option Z) := match err with Some e => Stops (Some e) | None => Continues sp dc end in
  if len line =? 0 then err ← finishSet sp false; mret (Stops err)
  else
    match CutByte line 61 with
    | None => mret (Stops (Some IpcErrorProtocol))
    | Some (key, value) =>
        if str_eqb key (str "public_key") then
          handlePostConfig sp ≫= fun _ =>
          '(sp, err) ← handlePublicKeyLine sp value; mret (verdict sp false err)
        else if deviceConfig then
          err ← handleDeviceLine key value; mret (verdict sp deviceConfig err)
        else
          '(sp, err) ← handlePeerLine sp key value; mret (verdict sp deviceConfig err)
    end.

(** The operation, and the reader it leaves; what its scanner holds is gone. *)
Fixpoint setLines (fuel : nat) (sc : scanner) (rd : reader) (sp : ipcSetPeer) (deviceConfig : bool) : M (option Z * reader) :=
  match fuel with
  | O => panic
  | S fuel =>
      s ← lift (Scan (S (remaining rd)) sc rd);
      match s with
      | NoLine tooLong rd => err ← finishSet sp tooLong; mret (err, rd)
      | Line l sc rd =>
          v ← setLine l sp deviceConfig;
          match v with
          | Stops err => mret (err, rd)
          | Continues sp dc => setLines fuel sc rd sp dc
          end
      end
  end.
Definition IpcSetOperation (rd : reader) : M (option Z * reader) :=
  setLines (S (S (remaining rd))) newScanner rd (mkSetPeer None false false false) true.

(** ** IpcHandle *)

(** The status that ends an answer. *)
Definition status (err : option Z) : list Z := str "errno=" ++ Itoa (default 0 err) ++ [10; 10].

(** What is written to the connection until the session ends. *)
Fixpoint IpcHandle (fuel : nat) (rd : reader) : M (list Z) :=
  match fuel with
  | O => panic
  | S fuel =>
      match ReadString rd with
      | None => mret []
      | Some (op, rd) =>
          if str_eqb op (str "set=1" ++ [10]) then
            '(err, rd) ← IpcSetOperation rd;
            rest ← IpcHandle fuel rd;
            mret (status err ++ rest)
          else if str_eqb op (str "get=1" ++ [10]) then
            match ReadByte rd with
            | None => mret []
            | Some (b, rd) =>
                if negb (b =? 10) then rest ← IpcHandle fuel rd; mret (status (Some IpcErrorInvalid) ++ rest)
                else
                  text ← IpcGet;
                  rest ← IpcHandle fuel rd;
                  mret (text ++ status None ++ rest)
            end
          else mret []
      end
  end.
Definition handleConnection (reads : list (list Z)) : M (list Z) := IpcHandle (S (length (concat reads))) (newReader reads).
End Session.

(** * Theorems *)

Lemma CutByte_app s c a b t : CutByte s c = Some (a, b) -> CutByte (s ++ t) c = Some (a, b ++ t).
Proof.
  revert a b. induction s as [|x s IH]; intros a b Hc; [done|]. cbn in *. destruct (x =? c); [by injection Hc as <- <-|].
  destruct (CutByte s c) as [[a' b']|]; [|done]. cbn in Hc. injection Hc as <- <-. by rewrite (IH a' b').
Qed.
Lemma CutByte_line l rest : 10 ∉ l -> CutByte (l ++ 10 :: rest) 10 = Some (l, rest).
Proof.
  induction l as [|x l IH]; intros Hn; [done|]. apply not_elem_of_cons in Hn as [Hx Hn]. cbn. rewrite (proj2 (Z.eqb_neq x 10)) by congruence. by rewrite IH.
Qed.
Lemma CutByte_none_nl l : 10 ∉ l -> CutByte l 10 = None.
Proof. induction l as [|x l IH]; intros Hn; [done|]. apply not_elem_of_cons in Hn as [Hx Hn]. cbn. rewrite (proj2 (Z.eqb_neq x 10)) by congruence. by rewrite IH. Qed.
(** Cutting a prefix of a line and what follows. *)
Lemma cut_prefix data t l rest : data ++ t = l ++ 10 :: rest -> 10 ∉ l ->
  (exists d, data = l ++ 10 :: d /\ rest = d ++ t /\ CutByte data 10 = Some (l, d)) \/ (exists r, l = data ++ r /\ t = r ++ 10 :: rest /\ CutByte data 10 = None).
Proof.
  intros E Hn. destruct (decide (length l < length data)%nat) as [Hlt|Hge].
  - left. exists (drop (S (length l)) data). assert (take (length l) data = l /\ data = take (length l) data ++ drop (length l) data) as [E1 E2].
    { split; [|by rewrite take_drop]. apply (f_equal (take (length l))) in E. rewrite take_app_le, take_app_length in E by lia. done. }
    assert (drop (length l) data = 10 :: drop (S (length l)) data /\ rest = drop (S (length l)) data ++ t) as [E3 E4].
    { apply (f_equal (drop (length l))) in E. rewrite drop_app_le, drop_app_length in E by lia. destruct (drop (length l) data) as [|x d] eqn:Ed; [apply (f_equal length) in Ed; rewrite length_drop in Ed; cbn in Ed; lia|].
      injection E as -> E. assert (drop (S (length l)) data = d) as -> by (rewrite <- (Nat.add_1_r (length l)), <- drop_drop, Ed; done). done. }
    rewrite E1, E3 in E2. split_and!; [done|done|]. rewrite E2 at 1. by apply CutByte_line.
  - right. exists (drop (length data) l). assert (l = data ++ drop (length data) l) as El.
    { apply (f_equal (take (length data))) in E. rewrite take_app_length, take_app_le in E by lia. rewrite E at 1. by rewrite take_drop. }
    split_and!; [done| |].
    + rewrite El, <- app_assoc in E. by apply app_inv_head in E.
    + apply CutByte_none_nl. intros Hd. apply Hn. rewrite El. apply elem_of_app. by left.
Qed.

(** ** The scanner *)

Record scOk (sc : scanner) : Prop := {
  sc_bounds : 0 <= sc_start sc /\ sc_start sc + len (sc_data sc) <= sc_size sc;
  sc_sizes : sc_size sc = 0 \/ startBufSize <= sc_size sc <= MaxScanTokenSize
}.
Lemma makeRoom_spec sc : scOk sc -> len (sc_data sc) < MaxScanTokenSize ->
  exists sc', makeRoom sc = Some sc' /\ scOk sc' /\ sc_data sc' = sc_data sc /\ (0 < room sc')%nat /\ (sc_size sc = 0 -> room sc' = Z.to_nat startBufSize).
Proof.
  intros [[B1 B2] S] Hl. unfold makeRoom. set (x := shifted sc).
  assert (scOk x /\ sc_data x = sc_data sc /\ sc_size x = sc_size sc /\ (sc_start x + len (sc_data x) = sc_size x -> sc_start x = 0)) as ([[X1 X2] X3] & X4 & X5 & X6).
  { unfold x, shifted. pose proof (len_nonneg (sc_data sc)). destruct (Z.ltb_spec 0 (sc_start sc)); cbn [andb]; [|split_and!; [done|done|done|lia]].
    destruct (Z.eqb_spec (sc_start sc + len (sc_data sc)) (sc_size sc)); cbn [orb]; [split_and!; cbn; [split; cbn; [lia|done]|done|done|done]|].
    destruct (_ <? sc_start sc); [split_and!; cbn; [split; cbn; [lia|done]|done|done|done]|split_and!; [done|done|done|lia]]. }
  destruct (Z.eqb_spec (sc_start x + len (sc_data x)) (sc_size x)) as [E|E].
  - specialize (X6 E). rewrite (proj2 (Z.leb_gt _ _)) by (rewrite X4 in E; lia). eexists. split; [reflexivity|]. unfold room. cbn. unfold startBufSize, MaxScanTokenSize in *. rewrite X4 in *.
    destruct (Z.eqb_spec (sc_size x) 0) as [E0|E0]; (split_and!; [split; cbn; unfold startBufSize, MaxScanTokenSize; lia|done|lia|]); [|lia]. intros _. rewrite Z.min_l by lia. f_equal. lia.
  - exists x. split_and!; [done|done|done|unfold room; lia|]. intros H0. rewrite X5, H0 in *. pose proof (len_nonneg (sc_data x)). lia.
Qed.

(** Some bytes of what the connection will deliver are read. *)
Lemma ReadInto_spec n buf reads1 reads2 : (0 < n)%nat -> Forall (fun r => r <> []) reads1 -> buf ++ concat reads1 <> [] ->
  exists data buf' reads1', ReadInto n {| rd_buf := buf; rd_reads := reads1 ++ reads2 |} = Some (data, {| rd_buf := buf'; rd_reads := reads1' ++ reads2 |}) /\
    data <> [] /\ (length data <= n)%nat /\ data ++ buf' ++ concat reads1' = buf ++ concat reads1 /\ Forall (fun r => r <> []) reads1' /\ (reads1 = [] -> (length buf <= n)%nat -> buf' = [] /\ reads1' = []).
Proof.
  intros Hn Hf Hne. unfold ReadInto. cbn. destruct buf as [|b buf].
  - destruct reads1 as [|r reads1]; [done|]. apply Forall_cons in Hf as [Hr Hf]. exists (take n r), (drop n r), reads1. split_and!; try done.
    + destruct r, n; try done; lia.
    + rewrite length_take. lia.
    + cbn. by rewrite app_assoc, take_drop.
  - exists (take n (b :: buf)), (drop n (b :: buf)), reads1. split_and!; try done.
    + destruct n; [lia|done].
    + rewrite length_take. lia.
    + by rewrite app_assoc, take_drop.
    + intros -> Hl. split; [by apply drop_ge|done].
Qed.

(** A line that is there, cut into reads in whatever way, is found; the scanner reads ahead no
    further than the read that brings the end of the line. *)
Lemma Scan_spec fuel : forall sc buf reads1 reads2 l rest, scOk sc -> Forall (fun r => r <> []) reads1 -> 10 ∉ l -> len l < MaxScanTokenSize ->
  sc_data sc ++ buf ++ concat reads1 = l ++ 10 :: rest -> (length buf + length (concat reads1) <= fuel)%nat ->
  exists sc' buf' reads1', Scan fuel sc {| rd_buf := buf; rd_reads := reads1 ++ reads2 |} = Some (Line (dropCR l) sc' {| rd_buf := buf'; rd_reads := reads1' ++ reads2 |}) /\
    scOk sc' /\ Forall (fun r => r <> []) reads1' /\ sc_data sc' ++ buf' ++ concat reads1' = rest /\
    (reads1 = [] -> buf = [] \/ (sc_size sc = 0 /\ len buf <= startBufSize) -> reads1' = [] /\ buf' = []).
Proof.
  induction fuel as [|fuel IH]; intros sc buf reads1 reads2 l rest Hok Hf Hn Hl E Hfuel; destruct (cut_prefix _ _ _ _ E Hn) as [(d & Ed & Er & Ec)|(r & El & Et & Ec)]; cbn [Scan]; rewrite Ec.
  1, 3: eexists _, _, _; split; [reflexivity|]; cbn; split_and!; [|done|by rewrite Er|];
    [destruct Hok as [[B1 B2] S]; split; cbn; [rewrite Ed in B2; rewrite len_app, len_cons in B2; pose proof (len_nonneg d); pose proof (len_nonneg l); lia|done]|];
    intros -> [->|[H0 _]]; [done|]; exfalso; destruct Hok as [[B1 B2] _]; rewrite Ed, len_app, len_cons in B2; pose proof (len_nonneg d); pose proof (len_nonneg l); lia.
  - exfalso. destruct buf; [|cbn in Hfuel; lia]. destruct (concat reads1); [|cbn in Hfuel; lia]. destruct r; done.
  - assert (len (sc_data sc) < MaxScanTokenSize) as Hd by (rewrite El, len_app in Hl; pose proof (len_nonneg r); lia).
    destruct (makeRoom_spec sc Hok Hd) as (sc1 & -> & Hok1 & Ed1 & Hroom & Hroom0).
    destruct (ReadInto_spec (room sc1) buf reads1 reads2 Hroom Hf) as (data & buf' & reads1' & -> & Hne & Hfit & Edata & Hf' & Hall); [rewrite Et; by destruct r|].
    destruct (IH {| sc_data := sc_data sc1 ++ data; sc_start := sc_start sc1; sc_size := sc_size sc1 |} buf' reads1' reads2 l rest) as (sc' & buf2 & reads2' & Hrun & Hok' & Hf2 & Erest & Hend); try done.
    + destruct Hok1 as [[B1 B2] S]. split; cbn; [|done]. rewrite len_app. unfold room in Hfit. unfold len in *. lia.
    + cbn. by rewrite Ed1, <- app_assoc, Edata.
    + apply (f_equal length) in Edata. rewrite !length_app in Edata. destruct data; [done|]. cbn in Edata. lia.
    + exists sc', buf2, reads2'. split_and!; try done. intros Hr1 [Hb|[H0 Hb]]; [exfalso; rewrite Hr1, Hb in Et; by destruct r|].
      destruct (Hall Hr1) as [-> ->]; [rewrite (Hroom0 H0); unfold len in Hb; lia|]. apply Hend; [done|by left].
Qed.

(** ** A set operation *)

Section Operations.
Context `{Primitives} `{InitialCrypto}.

(** The lines of IpcSet, one at a time. *)
Lemma setLoop_line line lines readError sp dc w : setLoop (line :: lines) readError sp dc w =
  (v ← setLine line sp dc; match v with Stops err => mret err | Continues sp dc => setLoop lines readError sp dc end) w.
Proof.
  cbn [setLoop]. unfold setLine. destruct (len line =? 0).
  - unfold mbind, M_bind, mret, M_ret. by destruct (finishSet sp false w) as [[? ?]|].
  - destruct (CutByte line 61) as [[key value]|]; [|done]. destruct (str_eqb key _).
    + unfold mbind, M_bind, mret, M_ret. destruct (handlePostConfig sp w) as [[? w1]|]; [|done]. by destruct (handlePublicKeyLine sp value w1) as [[[? [?|]] ?]|].
    + destruct dc; unfold mbind, M_bind, mret, M_ret; [by destruct (handleDeviceLine key value w) as [[[?|] ?]|]|by destruct (handlePeerLine sp key value w) as [[[? [?|]] ?]|]].
Qed.

(** The lines of a request and the empty one that ends it. *)
Definition requestBody (ls : list (list Z)) : list Z := concat ((fun l => l ++ [10]) <$> ls) ++ [10].
Definition lineOk (l : list Z) : Prop := 10 ∉ l /\ len l < MaxScanTokenSize /\ dropCR l <> [].

(** Only an empty line ends an operation that has not failed. *)
Lemma setLine_stops line sp dc w err w' : line <> [] -> setLine line sp dc w = Some (Stops err, w') -> err <> None.
Proof.
  intros Hl Hr ->. unfold setLine in Hr. destruct line as [|c line]; [done|]. rewrite (proj2 (Z.eqb_neq _ 0)) in Hr by (rewrite len_cons; pose proof (len_nonneg line); lia).
  destruct (CutByte _ 61) as [[key value]|]; [|done]. unfold mbind, M_bind, mret, M_ret in Hr. destruct (str_eqb key _).
  - destruct (handlePostConfig sp w) as [[? w1]|]; [|done]. by destruct (handlePublicKeyLine sp value w1) as [[[? [?|]] ?]|].
  - destruct dc; [by destruct (handleDeviceLine key value w) as [[[?|] ?]|]|by destruct (handlePeerLine sp key value w) as [[[? [?|]] ?]|]].
Qed.
Lemma app3_nil (a b : list Z) (reads : list (list Z)) : Forall (fun r => r <> []) reads -> a ++ b ++ concat reads = [] -> b = [] /\ reads = [].
Proof. intros Hf E. apply app_nil in E as [_ [-> E]%app_nil]. split; [done|]. destruct Hf as [|r reads Hr _]; [done|]. cbn in E. by apply app_nil in E as [-> _]. Qed.
Lemma requestBody_cons l ls : requestBody (l :: ls) = l ++ 10 :: requestBody ls.
Proof. unfold requestBody. cbn. by rewrite <- !app_assoc. Qed.


Lemma setLines_spec ls : forall fuel sc buf reads1 reads2 sp dc w err w', Forall lineOk ls -> scOk sc -> Forall (fun r => r <> []) reads1 ->
  sc_data sc ++ buf ++ concat reads1 = requestBody ls -> (length ls < fuel)%nat ->
  setLoop ((dropCR <$> ls) ++ [[]]) false sp dc w = Some (err, w') ->
  exists rd', setLines fuel sc {| rd_buf := buf; rd_reads := reads1 ++ reads2 |} sp dc w = Some ((err, rd'), w') /\
    (err = None \/ (reads1 = [] /\ (buf = [] \/ (sc_size sc = 0 /\ len buf <= startBufSize))) -> rd' = {| rd_buf := []; rd_reads := reads2 |}).
Proof.
  induction ls as [|l ls IH]; intros fuel sc buf reads1 reads2 sp dc w err w' Hls Hok Hf E Hfuel Hrun; (destruct fuel as [|fuel]; [lia|]); cbn [setLines].
  - destruct (Scan_spec (S (remaining {| rd_buf := buf; rd_reads := reads1 ++ reads2 |})) sc buf reads1 reads2 [] []) as (sc' & buf' & reads1' & HS & _ & Hf' & E' & _); try done;
      [by apply not_elem_of_nil|unfold remaining; cbn; rewrite concat_app, length_app; lia|]. rewrite HS. destruct (app3_nil _ _ _ Hf' E') as [-> ->].
    change (dropCR []) with (@nil Z). cbn [fmap list_fmap app] in Hrun. rewrite setLoop_line in Hrun. unfold lift, mbind, M_bind in Hrun |- *.
    destruct (setLine [] sp dc w) as [[[e|sp' dc'] w1]|] eqn:EL; [injection Hrun as <- <-; eexists; split; [reflexivity|done]| |done].
    exfalso. unfold setLine in EL. change (len (@nil Z) =? 0) with true in EL. cbn iota in EL. unfold mbind, M_bind in EL. by destruct (finishSet sp false w) as [[? ?]|].
  - apply Forall_cons in Hls as [(Hn & Hl & Hd) Hls]. rewrite requestBody_cons in E.
    destruct (Scan_spec (S (remaining {| rd_buf := buf; rd_reads := reads1 ++ reads2 |})) sc buf reads1 reads2 l (requestBody ls)) as (sc' & buf' & reads1' & HS & Hok' & Hf' & E' & Hend); try done;
      [unfold remaining; cbn; rewrite concat_app, length_app; lia|]. rewrite HS. cbn [fmap list_fmap app] in Hrun. rewrite setLoop_line in Hrun. unfold lift, mbind, M_bind in Hrun |- *.
    destruct (setLine (dropCR l) sp dc w) as [[[e|sp' dc'] w1]|] eqn:EL; [| |done].
    + injection Hrun as <- <-. eexists. split; [reflexivity|]. intros [->|[Hr1 Hc]]; [by destruct (setLine_stops _ _ _ _ _ _ Hd EL)|]. by destruct (Hend Hr1 Hc) as [-> ->].
    + destruct (IH fuel sc' buf' reads1' reads2 sp' dc' w1 err w' Hls Hok' Hf' E' ltac:(cbn in Hfuel; lia) Hrun) as (rd' & Hset & Hrd). exists rd'. split; [exact Hset|].
      intros [Herr|[Hr1 Hc]]; apply Hrd; [by left|right]. destruct (Hend Hr1 Hc) as [-> ->]. split; [done|by left].
Qed.

(** ** A session *)

Lemma ReadString_spec reads1 reads2 l rest : forall buf, Forall (fun r => r <> []) reads1 -> 10 ∉ l -> buf ++ concat reads1 = l ++ 10 :: rest ->
  exists buf' reads1', ReadString {| rd_buf := buf; rd_reads := reads1 ++ reads2 |} = Some (l ++ [10], {| rd_buf := buf'; rd_reads := reads1' ++ reads2 |}) /\
    buf' ++ concat reads1' = rest /\ Forall (fun r => r <> []) reads1' /\ (length reads1' <= length reads1)%nat /\ (buf = [] -> (length reads1' < length reads1)%nat).
Proof.
  unfold ReadString. cbn. induction reads1 as [|r reads1 IH]; intros buf Hf Hn E; destruct (cut_prefix _ _ _ _ E Hn) as [(d & Ed & Er & Ec)|(x & El & Et & Ec)].
  - exists d, []. split_and!; [destruct reads2; cbn; by rewrite Ec|by rewrite Er|done|done|intros ->; by destruct l].
  - by destruct x.
  - exists d, (r :: reads1). split_and!; [cbn; by rewrite Ec|by rewrite Er|done|done|intros ->; by destruct l].
  - apply Forall_cons in Hf as [Hr Hf]. cbn. rewrite Ec. destruct (IH (buf ++ r) Hf Hn) as (buf' & reads1' & -> & E2 & Hf' & Hlen & _); [by rewrite <- app_assoc|]. exists buf', reads1'. split_and!; try done; cbn; lia.
Qed.

Inductive request : Type := SetRequest (ls : list (list Z)) | GetRequest.
Definition requestBytes (r : request) : list Z := match r with SetRequest ls => str "set=1" ++ 10 :: requestBody ls | GetRequest => str "get=1" ++ 10 :: [10] end.
(** The reads in which a request arrives. *)
Definition cutInto (r : request) (reads : list (list Z)) : Prop := concat reads = requestBytes r /\ Forall (fun x => x <> [] /\ len x <= startBufSize) reads.

(** A client that waits for an answer before it sends the next request, and what it is
    answered. A request that fails has to arrive in one read. *)
Inductive session : list (request * list (list Z)) -> World -> list Z -> World -> Prop :=
| session_end w : session [] w [] w
| session_set ls reads rest w err w1 out w2 : cutInto (SetRequest ls) reads -> Forall lineOk ls -> err = None \/ length reads = 1%nat -> IpcSet (requestBody ls) w = Some (err, w1) ->
    session rest w1 out w2 -> session ((SetRequest ls, reads) :: rest) w (status err ++ out) w2
| session_get reads rest w text w1 out w2 : cutInto GetRequest reads -> IpcGet w = Some (text, w1) -> session rest w1 out w2 -> session ((GetRequest, reads) :: rest) w (text ++ status None ++ out) w2.

(** The body of a request is what IpcSet takes. *)
Lemma IpcSet_requestBody ls : Forall lineOk ls -> IpcSet (requestBody ls) = setLoop ((dropCR <$> ls) ++ [[]]) false (mkSetPeer None false false false) true.
Proof.
  intros Hls. unfold IpcSet. assert (SplitByte (requestBody ls) 10 = ls ++ [[]; []]) as ->.
  { induction Hls as [|l ls (Hn & _ & _) _ IH]; [done|]. rewrite requestBody_cons. cbn [app]. rewrite <- IH. clear IH. generalize (requestBody ls). intros t. induction l as [|x l IHl]; [done|].
    apply not_elem_of_cons in Hn as [Hx Hn]. cbn [app SplitByte]. rewrite (proj2 (Z.eqb_neq x 10)) by congruence. by rewrite IHl. }
  assert (scanLines (ls ++ [[]; []]) = ((dropCR <$> ls) ++ [[]], false)) as -> by (
    induction Hls as [|l ls (_ & Hl & _) _ IH]; [done|]; cbn [app fmap list_fmap];
    change (scanLines (l :: ls ++ [[]; []])) with (match ls ++ [[]; []] with [] => if len l =? 0 then ([], false) else if MaxScanTokenSize <=? len l then ([], true) else ([dropCR l], false)
      | _ :: _ => if MaxScanTokenSize <=? len l then ([], true) else let '(r, e) := scanLines (ls ++ [[]; []]) in (dropCR l :: r, e) end);
    destruct (ls ++ [[]; []]) eqn:E; [by destruct ls|]; rewrite (proj2 (Z.leb_gt _ _)) by done; by rewrite IH). done.
Qed.

Lemma length_requestBody ls : (length ls < length (requestBody ls))%nat.
Proof. induction ls as [|l ls IH]; [cbn; lia|]. rewrite requestBody_cons, length_app. cbn [length]. lia. Qed.
Lemma cut_nonempty r reads : cutInto r reads -> Forall (fun x => x <> []) reads.
Proof. intros [_ Hf]. eapply Forall_impl; [exact Hf|]. by intros x []. Qed.

(** The set operation of a request. *)
Lemma set_request fuel ls reads reads2 w err w1 : cutInto (SetRequest ls) reads -> Forall lineOk ls -> err = None \/ length reads = 1%nat -> IpcSet (requestBody ls) w = Some (err, w1) ->
  IpcHandle (S fuel) {| rd_buf := []; rd_reads := reads ++ reads2 |} w = (rest ← IpcHandle fuel {| rd_buf := []; rd_reads := reads2 |}; mret (status err ++ rest)) w1.
Proof.
  intros Hc Hls He Hset. pose proof Hc as [Ec Hf]. pose proof (cut_nonempty _ _ Hc) as Hf1.
  destruct (ReadString_spec reads reads2 (str "set=1") (requestBody ls) [] Hf1) as (buf & reads1 & HR & E & Hf2 & _ & Hlen); [by vm_compute; set_solver|exact Ec|]. specialize (Hlen eq_refl).
  cbn [IpcHandle]. rewrite HR. change (str_eqb (str "set=1" ++ [10]) (str "set=1" ++ [10])) with true. cbn iota. unfold IpcSetOperation. rewrite (IpcSet_requestBody ls Hls) in Hset.
  destruct (setLines_spec ls (S (S (remaining {| rd_buf := buf; rd_reads := reads1 ++ reads2 |}))) newScanner buf reads1 reads2 (mkSetPeer None false false false) true w err w1 Hls) as (rd' & HS & Hrd); try done.
  - split; [split; done|by left].
  - pose proof (length_requestBody ls) as Hlb. rewrite <- E, length_app in Hlb. unfold remaining. cbn. rewrite concat_app, length_app. lia.
  - unfold mbind at 1, M_bind at 1. rewrite HS. rewrite Hrd; [done|]. destruct He as [->|H1]; [by left|right]. destruct reads1; [|cbn in Hlen; lia]. split; [done|]. right. split; [done|].
    destruct reads as [|x [|]]; try done. apply Forall_cons in Hf as [[_ Hx] _]. cbn [concat] in Ec, E. rewrite app_nil_r in Ec, E. rewrite E. rewrite Ec in Hx. unfold requestBytes in Hx. rewrite len_app, len_cons in Hx.
    pose proof (len_nonneg (str "set=1")). lia.
Qed.
Lemma get_request fuel reads reads2 w text w1 : cutInto GetRequest reads -> IpcGet w = Some (text, w1) ->
  IpcHandle (S fuel) {| rd_buf := []; rd_reads := reads ++ reads2 |} w = (rest ← IpcHandle fuel {| rd_buf := []; rd_reads := reads2 |}; mret (text ++ status None ++ rest)) w1.
Proof.
  intros Hc Hget. pose proof Hc as [Ec _]. destruct (ReadString_spec reads reads2 (str "get=1") [10] [] (cut_nonempty _ _ Hc)) as (buf & reads1 & HR & E & Hf & _); [by vm_compute; set_solver|exact Ec|].
  assert (ReadByte {| rd_buf := buf; rd_reads := reads1 ++ reads2 |} = Some (10, {| rd_buf := []; rd_reads := reads2 |})) as HB.
  { destruct buf as [|b buf].
    - destruct Hf as [|x reads1 Hx Hf]; [done|]. destruct x as [|b x]; [done|]. cbn in E. injection E as -> E. apply (app3_nil []) in E as [-> ->]; done.
    - cbn in E. injection E as -> E. apply (app3_nil []) in E as [-> ->]; done. }
  cbn [IpcHandle]. rewrite HR. change (str_eqb (str "get=1" ++ [10]) (str "set=1" ++ [10])) with false. change (str_eqb (str "get=1" ++ [10]) (str "get=1" ++ [10])) with true. cbn iota. rewrite HB. cbn [negb Z.eqb Pos.eqb].
  unfold mbind at 1, M_bind at 1. by rewrite Hget.
Qed.
Lemma session_handled reqs w out w' : session reqs w out w' -> forall fuel, (length reqs < fuel)%nat -> IpcHandle fuel {| rd_buf := []; rd_reads := concat reqs.*2 |} w = Some (out, w').
Proof.
  induction 1 as [w|ls reads rest w err w1 out w2 Hc Hls He Hset _ IH|reads rest w text w1 out w2 Hc Hget _ IH]; intros fuel Hfuel; (destruct fuel as [|fuel]; [lia|]).
  - done.
  - cbn [fmap list_fmap concat snd]. erewrite set_request by done. unfold mbind, M_bind. rewrite IH by (cbn in Hfuel; lia). done.
  - cbn [fmap list_fmap concat snd]. erewrite get_request by done. unfold mbind, M_bind. rewrite IH by (cbn in Hfuel; lia). done.
Qed.
Lemma session_bytes reqs w out w' : session reqs w out w' -> (length reqs <= length (concat (concat reqs.*2)))%nat.
Proof.
  induction 1 as [w|ls reads rest w err w1 out w2 [Ec _] _ _ _ _ IH|reads rest w text w1 out w2 [Ec _] _ _ IH]; cbn [fmap list_fmap concat snd length]; [lia| |]; rewrite concat_app, length_app, Ec; cbn [requestBytes];
    rewrite length_app; cbn [length]; lia.
Qed.

(** C40: a connection of the configuration protocol is a sequence of operations: when the
    client waits for each answer, then however its requests are cut into reads, IpcHandle
    applies IpcSet to exactly the lines of each set request and IpcGet for each get, in
    order, each to the state the one before has left, writes what get prints and the status
    of each, and ends when the connection does. (A set request that is refused has to have
    come in one read, because what is left of it in the connection is taken for the next
    operation.) *)
Theorem uapi_session (reqs : list (request * list (list Z))) (w w' : World) (out : list Z) : session reqs w out w' -> handleConnection (concat reqs.*2) w = Some (out, w').
Proof. intros Hs. apply session_handled; [done|]. apply session_bytes in Hs. lia. Qed.
End Operations.

(** ** Sessions *)

#[local] Existing Instance toyPrimitives.
#[local] Existing Instance sampleInitialCrypto.

(** The answer to a set request that came together with a get request: the scanner has read
    the second one, and it is never answered. *)
Example pipelined_request_lost : fst <$> handleConnection [str "set=1" ++ [10; 10] ++ str "get=1" ++ [10; 10]] (sampleStart 5) = Some (status None).
Proof. vm_compute. reflexivity. Qed.
(** The rest of a set request that was refused, when it comes in another read, is taken for an
    operation, and the connection is closed: the get request behind it is not answered. *)
Example refused_request_ends :
  fst <$> handleConnection [str "set=1" ++ [10] ++ str "nonsense=1" ++ [10]; str "fwmark=1" ++ [10; 10]; str "get=1" ++ [10; 10]] (sampleStart 5) = Some (status (Some IpcErrorInvalid)).
Proof. vm_compute. reflexivity. Qed.

Definition sampleRequests : list (request * list (list Z)) :=
  [(SetRequest [str "fwmark=7"], [str "set=1"; [10] ++ str "fwmark"; str "=7" ++ [10; 10]]); (GetRequest, [str "get=1" ++ [10; 10]])].
Lemma uapi_session_witness : exists out w', handleConnection (concat sampleRequests.*2) (sampleStart 5) = Some (out, w') /\ n_fwmark (d_net (w_dev w')) = 7.
Proof.
  assert (match IpcSet (requestBody [str "fwmark=7"]) (sampleStart 5) with Some (None, w1) => match IpcGet w1 with Some (_, w2) => n_fwmark (d_net (w_dev w2)) =? 7 | None => false end | _ => false end = true) as Hc by (vm_compute; reflexivity).
  destruct (IpcSet (requestBody [str "fwmark=7"]) (sampleStart 5)) as [[[e|] w1]|] eqn:E1; try discriminate Hc. destruct (IpcGet w1) as [[text w2]|] eqn:E2; [|discriminate Hc].
  eexists _, w2. split; [|by apply Z.eqb_eq]. apply uapi_session. eapply (session_set [str "fwmark=7"] _ _ _ None); [|repeat constructor|by left|exact E1|eapply session_get; [|exact E2|apply session_end]].
  - split; [reflexivity|]. repeat constructor; done.
  - vm_compute. set_solver.
  - done.
  - split; [reflexivity|]. repeat constructor; done.
Defined.
