(* ===== verification/Delivery.v ===== *)
(** * Delivery: what reaches the TUN device

    The sequential receiver hands a decrypted packet on when its counter is new and its
    source address is routed to the peer it came from. *)
From S2P Require Import Prelude GoLib Replay MagicHeader Imitate AllowedIPs QUICInitial Obf Tai64n RateLimiter Crypto Cookie NoiseTypes DeviceState Run Noise Timers Send Receive DeviceOps Uapi Frame System ConfigInv.
#[local] Open Scope Z_scope.

(** The source address of an IP packet. *)
Definition sourceOf (packet : list Z) : option (list Z) :=
  b ← at_ packet 0;
  if Z.shiftr b 4 =? 4 then slice packet 12 16 else if Z.shiftr b 4 =? 6 then slice packet 8 24 else None.

Lemma slice_prefix_inv (l s : list Z) n : slice l 0 n = Some s -> s `prefix_of` l /\ len s = n.
Proof.
  intros Hs. split; [|apply slice_len in Hs; lia]. unfold slice in Hs. case_decide as Hd; [|done]. injection Hs as <-. cbn [drop].
  rewrite Z.sub_0_r. exists (drop (Z.to_nat n) l). symmetry. apply take_drop.
Qed.

Lemma innerPacket_inv t p packet out : innerPacket t p packet = Some (Some out) ->
  exists src, sourceOf packet = Some src /\ AllowedIPs.Lookup t src = Some (Some p) /\ out `prefix_of` packet.
Proof.
  unfold innerPacket, sourceOf. destruct (at_ packet 0) as [b|]; [|done]. cbn [mbind option_bind].
  destruct (Z.shiftr b 4 =? 4); [destruct (len packet <? 20); [done|]|destruct (Z.shiftr b 4 =? 6); [destruct (len packet <? 40); [done|]|done]].
  - destruct (slice packet 2 4) as [f|]; [|done]. cbn [mbind option_bind]. cbv zeta. destruct (_ || _); [done|].
    destruct (slice packet 12 16) as [src|]; [|done]. cbn [mbind option_bind]. destruct (AllowedIPs.Lookup t src) as [q|] eqn:Eq; [|done]. cbn [mbind option_bind].
    destruct (slice packet 0 _) as [o|] eqn:Eo; [|done]. cbn [mbind option_bind]. case_decide as Hq; [|done]. intros [= <-].
    exists src. subst q. split_and!; [done..|]. by apply slice_prefix_inv in Eo as [? _].
  - destruct (slice packet 4 6) as [f|]; [|done]. cbn [mbind option_bind]. cbv zeta. destruct (_ <? _); [done|].
    destruct (slice packet 8 24) as [src|]; [|done]. cbn [mbind option_bind]. destruct (AllowedIPs.Lookup t src) as [q|] eqn:Eq; [|done]. cbn [mbind option_bind].
    destruct (slice packet 0 _) as [o|] eqn:Eo; [|done]. cbn [mbind option_bind]. case_decide as Hq; [|done]. intros [= <-].
    exists src. subst q. split_and!; [done..|]. by apply slice_prefix_inv in Eo as [? _].
Qed.

Section Delivery.
Context `{Primitives} `{InitialCrypto}.

End Delivery.

(** The length of an IPv6 packet is computed in sixteen bits: a payload length of
    65496 or more wraps around, and instead of being dropped the packet is handed to
    the TUN device cut off inside its own header. *)
Theorem ipv6_length_wraps (t : AllowedIPs.AllowedIPs) (p : positive) (packet src f : list Z) (b : Z) :
  at_ packet 0 = Some b -> Z.shiftr b 4 = 6 -> 40 <= len packet -> slice packet 4 6 = Some f -> 65496 <= be_val f < 65536 ->
  slice packet 8 24 = Some src -> AllowedIPs.Lookup t src = Some (Some p) ->
  exists out, innerPacket t p packet = Some (Some out) /\ out `prefix_of` packet /\ len out = be_val f - 65496 /\ len out < 40.
Proof.
  intros Hb Hv Hl Hf Hwrap Hs Ht. assert (u16 (be_val f + 40) = be_val f - 65496) as Hu.
  { unfold u16. change (2 ^ 16) with 65536. rewrite <- (Z_mod_plus_full _ (-1)), Z.mod_small; lia. }
  exists (take (Z.to_nat (be_val f - 65496)) packet). split_and!.
  - unfold innerPacket. rewrite Hb. cbn [mbind option_bind]. rewrite Hv. cbn [Z.eqb Pos.eqb]. rewrite (proj2 (Z.ltb_ge _ _)), Hf by lia. cbn [mbind option_bind].
    cbv zeta. rewrite Hu, (proj2 (Z.ltb_ge _ _)), Hs by lia. cbn [mbind option_bind]. rewrite Ht. cbn [mbind option_bind]. rewrite slice_prefix by lia.
    cbn [mbind option_bind]. by rewrite decide_True.
  - eexists. symmetry. apply take_drop.
  - unfold len in *. rewrite length_take. lia.
  - unfold len in *. rewrite length_take. lia.
Qed.

Definition sampleIPv6 : list Z := [96; 0; 0; 0; 255; 240; 17; 64] ++ replicate 16 1 ++ replicate 16 2.
Definition sampleRoutes6 : AllowedIPs.AllowedIPs := default AllowedIPs.emptyTable (AllowedIPs.Insert AllowedIPs.emptyTable (replicate 16 1) 128 1).
Lemma ipv6_length_wraps_witness : exists out, innerPacket sampleRoutes6 1 sampleIPv6 = Some (Some out) /\ len out = 24.
Proof.
  destruct (ipv6_length_wraps sampleRoutes6 1 sampleIPv6 (replicate 16 1) [255; 240] 96) as (out & Ho & _ & Hl & _);
    [vm_compute; reflexivity|vm_compute; reflexivity|vm_compute; discriminate|vm_compute; reflexivity|vm_compute; split; [discriminate|reflexivity]|vm_compute; reflexivity|vm_compute; reflexivity|].
  exists out. split; [exact Ho|exact Hl].
Defined.

#[local] Existing Instance toyPrimitives.
#[local] Existing Instance sampleInitialCrypto.
Definition bDecrypted : World := after [OnDatagrams (onWire aSends 5); OnDecryption] bResponds.
Definition sampleInbound : option QueueInboundElement :=
  match map_to_list (w_in bDecrypted) with [(_, C)] => head (ic_elems C) | _ => None end.
