(* ===== verification/Checksum.v ===== *)
(** * Checksum: the Internet checksum (src/tun/checksum.go)

    The code adds the buffer in eight-byte words of the machine's own byte order with
    an end-around carry, in unrolled blocks of 128, 64, 32, 16 and 8 bytes and a tail
    of 4, 2 and 1, and folds the sum to sixteen bits. [bigEndian] is the byte order of
    the machine (binary.NativeEndian). The reference is the text of RFC 1071: the
    one's complement sum of the sixteen-bit words in network order, an odd last byte
    padded with zero. The two agree on either kind of machine. *)
From S2P Require Import Prelude.
#[local] Open Scope Z_scope.

(** ** The code *)

(** [bits.Add64] *)
Definition Add64 (x y carry : Z) : Z * Z := (u64 (x + y + carry), (x + y + carry) / 2 ^ 64).

Section Native.
Context (bigEndian : bool).

(** [binary.NativeEndian.UintN] of a slice of N/8 bytes and [PutUint64]. *)
Definition nativeUint (l : list Z) : Z := if bigEndian then be_val l else le_val l.
Definition nativePut64 (v : Z) : list Z := if bigEndian then be_bytes 8 v else le_bytes 8 v.

(** The run of [bits.Add64] over [k] eight-byte words at the front of [b]. *)
Fixpoint addWords (k : nat) (b : list Z) (ac carry : Z) : Z * Z :=
  match k with
  | O => (ac, carry)
  | S k' =>
      let '(ac, carry) := Add64 ac (nativeUint (take 8 b)) carry in
      addWords k' (drop 8 b) ac carry
  end.

(** One unrolled block: [k] words, then [ac += carry]. *)
Definition addBlock (k : nat) (b : list Z) (ac : Z) : Z :=
  let '(ac, carry) := addWords k b ac 0 in u64 (ac + carry).

(** A word of four, two or one bytes: [Add64] with no carry in, then [ac += carry]. *)
Definition addWord (w ac : Z) : Z := let '(ac, carry) := Add64 ac w 0 in u64 (ac + carry).

(** [for len(b) >= 128]; each round takes 128 bytes, so [length b] rounds are enough. *)
Fixpoint loop128 (fuel : nat) (b : list Z) (ac : Z) : list Z * Z :=
  match fuel with
  | O => (b, ac)
  | S f => if 128 <=? len b then loop128 f (drop 128 b) (addBlock 16 b ac) else (b, ac)
  end.

(** [if len(b) >= 8*k]: one block of [k] words. *)
Definition ifBlock (k : nat) (st : list Z * Z) : list Z * Z :=
  let '(b, ac) := st in
  if Z.of_nat (8 * k) <=? len b then (drop (8 * k) b, addBlock k b ac) else (b, ac).

(** [if len(b) >= n] for the four and two byte words. *)
Definition ifWord (n : nat) (st : list Z * Z) : list Z * Z :=
  let '(b, ac) := st in
  if Z.of_nat n <=? len b then (drop n b, addWord (nativeUint (take n b)) ac) else (b, ac).

(** [if len(b) == 1] *)
Definition ifByte (st : list Z * Z) : Z :=
  let '(b, ac) := st in
  match b with [x] => addWord (nativeUint [x; 0]) ac | _ => ac end.

Definition checksumNoFold (b : list Z) (initial : Z) : Z :=
  let ac := be_val (nativePut64 initial) in
  let st := loop128 (length b) b ac in
  let st := ifBlock 8 st in
  let st := ifBlock 4 st in
  let st := ifBlock 2 st in
  let st := ifBlock 1 st in
  let st := ifWord 4 st in
  let st := ifWord 2 st in
  be_val (nativePut64 (ifByte st)).

Definition fold16 (ac : Z) : Z := u64 (Z.shiftr ac 16 + Z.land ac 65535).

Definition checksum (b : list Z) (initial : Z) : Z :=
  u16 (fold16 (fold16 (fold16 (fold16 (checksumNoFold b initial))))).

Definition pseudoHeaderChecksumNoFold (protocol : Z) (srcAddr dstAddr : list Z) (totalLen : Z) : Z :=
  let sum := checksumNoFold srcAddr 0 in
  let sum := checksumNoFold dstAddr sum in
  let sum := checksumNoFold [0; protocol] sum in
  checksumNoFold (be_bytes 2 totalLen) sum.
End Native.

(** ** The reference *)

(** The sixteen-bit words of a message in network order. *)
Fixpoint words16 (l : list Z) : list Z :=
  match l with
  | [] => []
  | [a] => [256 * a]
  | a :: b :: l' => 256 * a + b :: words16 l'
  end.

(** Sixteen-bit one's complement addition: the carry out is added back in. *)
Definition onesAdd (x y : Z) : Z := (x + y) mod 65536 + (x + y) / 65536.

(** RFC 1071: the one's complement sum of the words. *)
Definition rfc1071 (l : list Z) : Z := fold_left onesAdd (words16 l) 0.

(** ** Sums modulo 65535 that tell zero apart *)

(** [Sums x s]: [x] stands for the sum [s] up to multiples of 65535, and is zero
    exactly when the sum is. One's complement arithmetic computes with such values. *)
Definition Sums (x s : Z) : Prop := 0 <= x /\ 0 <= s /\ x mod 65535 = s mod 65535 /\ (x = 0 <-> s = 0).

Definition total (l : list Z) : Z := foldr Z.add 0 (words16 l).

Lemma list_ind2 {A} (P : list A -> Prop) :
  P [] -> (forall a, P [a]) -> (forall a b l, P l -> P (a :: b :: l)) -> forall l, P l.
Proof. intros H0 H1 H2. fix IH 1. intros [|a [|b l]]; [exact H0|exact (H1 a)|exact (H2 a b l (IH l))]. Qed.

Lemma mod_eq_sub m a b : 0 < m -> (exists k, a = b + m * k) -> a mod m = b mod m.
Proof. intros Hm (k & ->). rewrite (Z.mul_comm m). apply Z_mod_plus_full. Qed.

Lemma mod_eq_ex m a b : 0 < m -> a mod m = b mod m -> exists k, a = b + m * k.
Proof. intros Hm H. exists (a / m - b / m). pose proof (Z.div_mod a m). pose proof (Z.div_mod b m). lia. Qed.

Lemma Sums_iff x s : Sums x s <-> 0 <= x /\ 0 <= s /\ (exists k, x = s + 65535 * k) /\ (x = 0 <-> s = 0).
Proof.
  unfold Sums. split; intros (? & ? & H & ?); (split_and!; [done|done| |done]).
  - apply mod_eq_ex in H; [done|lia].
  - by apply mod_eq_sub; [lia|].
Qed.

Lemma Sums_refl s : 0 <= s -> Sums s s.
Proof. unfold Sums. tauto. Qed.
Lemma Sums_sym x s : Sums x s -> Sums s x.
Proof. unfold Sums. intuition. Qed.
Lemma Sums_trans x y s : Sums x y -> Sums y s -> Sums x s.
Proof. unfold Sums. intros (? & ? & ? & ?) (? & ? & ? & ?). split_and!; [lia..| |]; [congruence|tauto]. Qed.

Lemma Sums_add x s y t : Sums x s -> Sums y t -> Sums (x + y) (s + t).
Proof.
  rewrite !Sums_iff. intros (? & ? & (k & ?) & ?) (? & ? & (j & ?) & ?).
  split_and!; [lia|lia| |lia..]. exists (k + j). lia.
Qed.

Lemma Sums_mul c x s : 0 < c -> Sums x s -> Sums (c * x) (c * s).
Proof.
  rewrite !Sums_iff. intros Hc (? & ? & (k & ?) & ?). split_and!; [lia|lia| |lia..].
  exists (c * k). nia.
Qed.

(** Removing a multiple of 65535 while leaving something. *)
Lemma Sums_sub x s k : Sums x s -> 0 < x - 65535 * k -> 0 < x -> Sums (x - 65535 * k) s.
Proof.
  rewrite !Sums_iff. intros (? & ? & (j & ?) & ?) Hk Hx. split_and!; [lia|lia| |lia..]. exists (j - k). lia.
Qed.

(** A value of sixteen bits is determined by the sum it stands for. *)
Lemma Sums_unique x y s : Sums x s -> Sums y s -> x <= 65535 -> y <= 65535 -> x = y.
Proof.
  rewrite !Sums_iff. intros (? & ? & (k & ?) & ?) (? & ? & (j & ?) & ?) Hx Hy.
  assert (k = j \/ k < j \/ j < k) as [-> |[|]] by lia; lia.
Qed.

(** ** Words of either byte order *)

Lemma total_cons2 a b l : total (a :: b :: l) = 256 * a + b + total l.
Proof. done. Qed.

Lemma total_nonneg l : Forall is_u8 l -> 0 <= total l.
Proof.
  induction l as [|a|a b l IH] using list_ind2; [done| |].
  - intros [Ha _]%Forall_cons. cbn. unfold is_u8 in Ha. lia.
  - intros [Ha [Hb Hl]%Forall_cons]%Forall_cons. rewrite total_cons2. specialize (IH Hl). unfold is_u8 in *. lia.
Qed.

Lemma total_app l m : Nat.Even (length l) -> total (l ++ m) = total l + total m.
Proof.
  induction l as [|a|a b l IH] using list_ind2; [done|intros [k Hk]; simpl in Hk; lia|].
  intros [k Hk]. simpl in Hk. cbn [app]. rewrite !total_cons2, IH by (exists (k - 1)%nat; lia). lia.
Qed.

(** Little-endian words are the network-order words times 256. *)
Lemma le_val_total l : Forall is_u8 l -> Nat.Even (length l) -> Sums (le_val l) (256 * total l).
Proof.
  induction l as [|a|a b l IH] using list_ind2; [by intros; apply Sums_refl|by intros _ [k Hk]; simpl in Hk; lia|].
  intros [Ha [Hb Hl]%Forall_cons]%Forall_cons [k Hk]. simpl in Hk.
  specialize (IH Hl (ltac:(exists (k - 1)%nat; lia))). rewrite total_cons2. cbn [le_val].
  rewrite Sums_iff in *. unfold is_u8 in *. destruct IH as (H1 & H2 & (j & Hj) & H3).
  split_and!; [lia|lia| |lia..]. exists (65536 * j + 256 * total l - a). lia.
Qed.

Lemma le_val_snoc l b : le_val (l ++ [b]) = le_val l + 256 ^ Z.of_nat (length l) * b.
Proof.
  induction l as [|a l IH]; [cbn; lia|]. cbn [app le_val length]. rewrite IH, Nat2Z.inj_succ, Z.pow_succ_r by lia. lia.
Qed.

Lemma be_val_snoc l b : be_val (l ++ [b]) = 256 * be_val l + b.
Proof. unfold be_val. rewrite reverse_app. cbn. lia. Qed.

Lemma be_val_total l : Forall is_u8 l -> Nat.Even (length l) -> Sums (be_val l) (total l).
Proof.
  intros Hl [k Hk]. revert l Hk Hl. induction k as [|k IH]; intros l Hk Hl.
  { destruct l; [|simpl in Hk; lia]. by apply Sums_refl. }
  destruct l as [|b l _] using rev_ind; [simpl in Hk; lia|]. destruct l as [|a l _] using rev_ind; [simpl in Hk; lia|].
  rewrite !length_app in Hk. simpl in Hk. apply Forall_app in Hl as [Hl [Hb _]%Forall_cons]. apply Forall_app in Hl as [Hl [Ha _]%Forall_cons].
  specialize (IH l ltac:(lia) Hl). rewrite !be_val_snoc, <- app_assoc, total_app by (exists k; lia).
  cbn [app]. rewrite total_cons2. unfold total at 2. cbn [words16 foldr]. unfold is_u8 in *.
  rewrite Sums_iff in *. destruct IH as (H1 & H2 & (j & Hj) & H3).
  split_and!; [lia|lia| |lia..]. exists (be_val l + j). lia.
Qed.

Lemma Sums_256_256 x s : Sums x (256 * (256 * s)) <-> Sums x s.
Proof.
  assert (Sums (256 * (256 * s)) s \/ s < 0) as Hs.
  { destruct (decide (0 <= s)); [left|lia]. apply Sums_iff. split_and!; [lia|lia| |lia..]. exists s. lia. }
  split; intros H.
  - destruct Hs as [Hs|Hs]; [by eapply Sums_trans|]. unfold Sums in H. lia.
  - destruct Hs as [Hs|Hs]; [|unfold Sums in H; lia]. by eapply Sums_trans, Sums_sym.
Qed.

Lemma Sums_cancel_256 x s : Sums (256 * x) (256 * s) -> Sums x s.
Proof.
  intros H. apply (Sums_mul 256) in H; [|lia]. rewrite Sums_256_256 in H.
  apply Sums_sym in H. rewrite Sums_256_256 in H. by apply Sums_sym.
Qed.

(** ** Addition with end-around carry *)

(** The state between two additions of a block: the carry still to be added fits. *)
Definition carryOk (ac carry : Z) : Prop := is_u64 ac /\ 0 <= carry <= 1 /\ ac + carry < 2 ^ 64.

Lemma Add64_carryOk ac carry w ac' carry' :
  carryOk ac carry -> is_u64 w -> Add64 ac w carry = (ac', carry') ->
  carryOk ac' carry' /\ Sums (ac' + carry') (ac + carry + w).
Proof.
  unfold Add64, carryOk, u64, is_u64. intros (Ha & Hc & Hs) Hw [= <- <-].
  pose proof (Z.div_mod (ac + w + carry) (2 ^ 64)). pose proof (Z.mod_pos_bound (ac + w + carry) (2 ^ 64)).
  assert ((ac + w + carry) / 2 ^ 64 = 0 \/ (ac + w + carry) / 2 ^ 64 = 1) as [Hq|Hq] by lia; rewrite Hq in *.
  - split; [lia|]. replace (_ + 0) with (ac + carry + w) by lia. apply Sums_refl. lia.
  - split; [lia|]. replace (_ + 1) with (ac + carry + w - 65535 * 281479271743489) by lia.
    apply Sums_sub; [apply Sums_refl| |]; lia.
Qed.

Section NativeSums.
Context (bigEndian : bool).

(** The accumulator [x] stands for the sum [s] of network-order words. *)
Definition Native (x s : Z) : Prop := is_u64 x /\ Sums x (if bigEndian then s else 256 * s).

Lemma nativeUint_sums l : Forall is_u8 l -> (length l <= 8)%nat -> Nat.Even (length l) -> Native (nativeUint bigEndian l) (total l).
Proof.
  intros Hl Hn He. assert (256 ^ Z.of_nat (length l) <= 2 ^ 64) as Hp.
  { transitivity (256 ^ 8); [apply Z.pow_le_mono_r; lia|done]. }
  unfold Native, nativeUint, is_u64. destruct bigEndian.
  - split; [|by apply be_val_total]. pose proof (le_val_bound (reverse l)) as Hb. rewrite length_reverse in Hb.
    specialize (Hb ltac:(by apply Forall_reverse)). unfold be_val. lia.
  - split; [|by apply le_val_total]. pose proof (le_val_bound l Hl). lia.
Qed.

Lemma Native_add x s y t : Native x s -> Native y t -> forall z, is_u64 z -> Sums z (x + y) -> Native z (s + t).
Proof.
  intros [_ Hx] [_ Hy] z Hz Hs. split; [done|]. eapply Sums_trans; [exact Hs|]. 
  pose proof (Sums_add _ _ _ _ Hx Hy). destruct bigEndian; [done|]. by rewrite Z.mul_add_distr_l.
Qed.

Lemma Native_zero : Native 0 0.
Proof. split; [done|]. destruct bigEndian; by apply Sums_refl. Qed.

Lemma addWord_sums ac s w t : Native ac s -> Native w t -> Native (addWord w ac) (s + t).
Proof.
  intros Ha Hw. unfold addWord. destruct (Add64 ac w 0) as [ac' c'] eqn:E.
  apply Add64_carryOk in E as [Hok Hs]; [|destruct Ha; unfold carryOk, is_u64 in *; lia|apply Hw].
  unfold carryOk in Hok. rewrite u64_small by width_lia. rewrite Z.add_0_r in Hs. apply (Native_add ac s w t Ha Hw); [width_lia|done].
Qed.

Lemma addWords_sums k b ac carry s : carryOk ac carry -> Native (ac + carry) s -> Forall is_u8 b ->
  (8 * k <= length b)%nat ->
  carryOk (addWords bigEndian k b ac carry).1 (addWords bigEndian k b ac carry).2 /\
  Native ((addWords bigEndian k b ac carry).1 + (addWords bigEndian k b ac carry).2) (s + total (take (8 * k) b)).
Proof.
  revert b ac carry s. induction k as [|k IH]; intros b ac carry s Hok Hn Hb Hl.
  { cbn [addWords fst snd Nat.mul take]. unfold total. cbn. rewrite Z.add_0_r. done. }
  cbn [addWords]. destruct (Add64 ac _ carry) as [ac' c'] eqn:E.
  assert (Native (nativeUint bigEndian (take 8 b)) (total (take 8 b))) as Hw.
  { apply nativeUint_sums; [by apply Forall_take| |]; rewrite length_take_le by lia; [lia|by exists 4%nat]. }
  apply Add64_carryOk in E as [Hok' Hs]; [|done|apply Hw].
  replace (8 * S k)%nat with (8 + 8 * k)%nat by lia. rewrite <- take_take_drop, total_app, Z.add_assoc by (rewrite length_take_le by lia; by exists 4%nat).
  apply IH; [done| |by apply Forall_drop|rewrite length_drop; lia].
  eapply Native_add; [exact Hn|exact Hw| |exact Hs]. unfold carryOk in Hok'. width_lia.
Qed.

Lemma addBlock_sums k b ac s : Native ac s -> Forall is_u8 b -> (8 * k <= length b)%nat ->
  Native (addBlock bigEndian k b ac) (s + total (take (8 * k) b)).
Proof.
  intros Hn Hb Hl. destruct (addWords_sums k b ac 0 s) as [Hok Hr]; [|by rewrite Z.add_0_r|done..|].
  { destruct Hn. unfold carryOk, is_u64 in *. lia. }
  unfold addBlock. destruct (addWords _ _ _ _ _) as [ac' c']. cbn [fst snd] in *. unfold carryOk in Hok. by rewrite u64_small by width_lia.
Qed.

(** ** The whole sum *)

(** The state of the code after part of [l] was added: what is left is a suffix, the
    accumulator stands for the rest. *)
Definition Acc (l : list Z) (initial : Z) (st : list Z * Z) : Prop :=
  exists p, l = p ++ st.1 /\ Nat.Even (length p) /\ Native st.2 (initial + total p) /\ Forall is_u8 st.1.

Lemma Acc_step l initial b ac n ac' : Acc l initial (b, ac) -> (n <= length b)%nat -> Nat.Even n ->
  (forall s, Native ac s -> Native ac' (s + total (take n b))) -> Acc l initial (drop n b, ac').
Proof.
  intros (p & -> & He & Ha & Hb) Hn Hev Hstep. exists (p ++ take n b). cbn [fst snd] in *. split_and!.
  - by rewrite <- app_assoc, take_drop.
  - rewrite length_app, length_take_le by done. destruct He as [i Hi], Hev as [j Hj]. exists (i + j)%nat. lia.
  - rewrite total_app, Z.add_assoc by done. by apply Hstep.
  - by apply Forall_drop.
Qed.

Lemma Acc_bytes l initial b ac : Acc l initial (b, ac) -> Forall is_u8 b.
Proof. intros (p & _ & _ & _ & H). done. Qed.

Lemma loop128_acc fuel l initial b ac : Acc l initial (b, ac) -> (length b <= fuel)%nat ->
  Acc l initial (loop128 bigEndian fuel b ac) /\ (length (loop128 bigEndian fuel b ac).1 < 128)%nat.
Proof.
  revert b ac. induction fuel as [|f IH]; intros b ac Ha Hf; cbn [loop128]; [split; [done|cbn [fst]; lia]|].
  destruct (Z.leb_spec 128 (len b)) as [H|H]; unfold len in H; [|split; [done|cbn [fst]; lia]].
  assert (Forall is_u8 b) as Hb by (by eapply Acc_bytes).
  apply IH; [|rewrite length_drop; lia]. apply (Acc_step l initial b ac); [done|lia|by exists 64%nat|]. intros s Hs.
  apply (addBlock_sums 16); [done|done|lia].
Qed.

Lemma ifBlock_acc k l initial st : Acc l initial st -> (length st.1 < 16 * k)%nat ->
  Acc l initial (ifBlock bigEndian k st) /\ (length (ifBlock bigEndian k st).1 < 8 * k)%nat.
Proof.
  destruct st as [b ac]. intros Ha Hl. cbn [fst ifBlock] in *.
  destruct (Z.leb_spec (Z.of_nat (8 * k)) (len b)) as [H|H]; unfold len in H; [|split; [done|cbn [fst]; lia]].
  split; [|cbn [fst]; rewrite length_drop; lia].
  apply (Acc_step l initial b ac); [done|lia|exists (4 * k)%nat; lia|]. intros s Hs.
  apply addBlock_sums; [done|by eapply Acc_bytes|lia].
Qed.

Lemma ifWord_acc n l initial st : Acc l initial st -> (length st.1 < 2 * n)%nat -> Nat.Even n -> (n <= 8)%nat ->
  Acc l initial (ifWord bigEndian n st) /\ (length (ifWord bigEndian n st).1 < n)%nat.
Proof.
  destruct st as [b ac]. intros Ha Hl He Hn. cbn [fst ifWord] in *.
  destruct (Z.leb_spec (Z.of_nat n) (len b)) as [H|H]; unfold len in H; [|split; [done|cbn [fst]; lia]].
  split; [|cbn [fst]; rewrite length_drop; lia].
  apply (Acc_step l initial b ac); [done|lia|done|]. intros s Hs. apply addWord_sums; [done|].
  apply nativeUint_sums; [by apply Forall_take, (Acc_bytes l initial _ ac)| |]; by rewrite length_take_le by lia.
Qed.

Lemma ifByte_acc l initial st : Acc l initial st -> (length st.1 < 2)%nat -> Native (ifByte bigEndian st) (initial + total l).
Proof.
  destruct st as [b ac]. intros (p & -> & He & Ha & Hb) Hl. cbn [fst snd] in *. rewrite total_app, Z.add_assoc by done.
  destruct b as [|x [|]]; [|cbn [ifByte]|simpl in Hl; lia].
  { cbn [ifByte]. by rewrite Z.add_0_r. }
  apply addWord_sums; [done|]. replace (total [x]) with (total [x; 0]) by (unfold total; cbn [words16 foldr]; lia).
  apply Forall_cons in Hb as [Hx _]. apply nativeUint_sums; [by apply Forall_cons; split; [|apply Forall_singleton]|simpl; lia|by exists 1%nat].
Qed.

Lemma nativePut64_bytes x : Forall is_u8 (nativePut64 bigEndian x) /\ length (nativePut64 bigEndian x) = 8%nat.
Proof.
  unfold nativePut64. destruct bigEndian; (split; [|by rewrite ?length_be_bytes, ?length_le_bytes]); auto using be_bytes_ok, le_bytes_ok.
Qed.

Lemma be_native_u64 x : is_u64 (be_val (nativePut64 bigEndian x)).
Proof.
  destruct (nativePut64_bytes x) as [H Hl]. pose proof (le_val_bound (reverse (nativePut64 bigEndian x))) as Hb.
  rewrite length_reverse, Hl in Hb. apply Hb. by apply Forall_reverse.
Qed.

Lemma be_native_total x : Sums (be_val (nativePut64 bigEndian x)) (total (nativePut64 bigEndian x)).
Proof. destruct (nativePut64_bytes x) as [H Hl]. apply be_val_total; [done|rewrite Hl; by exists 4%nat]. Qed.

(** Swapping the bytes of an accumulator gives the sum it stands for, and back. *)
Lemma le_swap x : is_u64 x -> Sums x (256 * total (le_bytes 8 x)).
Proof.
  intros Hx. rewrite <- (le_val_bytes 8 x) at 1 by (unfold is_u64 in Hx; lia).
  apply le_val_total; [apply le_bytes_ok|rewrite length_le_bytes; by exists 4%nat].
Qed.

Lemma be_native_sums x s : Native x s -> Sums (be_val (nativePut64 bigEndian x)) s.
Proof.
  intros [Hx Hs]. pose proof (be_native_total x) as Ht. pose proof (le_swap x Hx) as Hl. unfold nativePut64 in *. destruct bigEndian.
  - by rewrite be_val_bytes by (unfold is_u64 in Hx; lia).
  - eapply Sums_trans; [exact Ht|]. apply Sums_cancel_256. eapply Sums_trans; [apply Sums_sym, Hl|done].
Qed.

Lemma be_native_start x : is_u64 x -> Native (be_val (nativePut64 bigEndian x)) x.
Proof.
  intros Hx. split; [apply be_native_u64|]. pose proof (be_native_total x) as Ht. pose proof (le_swap x Hx) as Hl. unfold nativePut64 in *. destruct bigEndian.
  - rewrite be_val_bytes by (unfold is_u64 in Hx; lia). apply Sums_refl. width_lia.
  - eapply Sums_trans; [exact Ht|]. apply Sums_sym. eapply Sums_trans; [apply (Sums_mul 256); [lia|exact Hl]|].
    pose proof (total_nonneg _ (le_bytes_ok 8 x)). apply (proj1 (Sums_256_256 _ _)), Sums_refl. lia.
Qed.

Lemma checksumNoFold_sums b initial : is_u64 initial -> Forall is_u8 b ->
  is_u64 (checksumNoFold bigEndian b initial) /\ Sums (checksumNoFold bigEndian b initial) (initial + total b).
Proof.
  intros Hi Hb. unfold checksumNoFold. split; [apply be_native_u64|]. apply be_native_sums.
  assert (Acc b initial (b, be_val (nativePut64 bigEndian initial))) as H0.
  { exists []. split_and!; [done|by exists 0%nat| |done]. unfold total. cbn [words16 foldr fst snd]. rewrite Z.add_0_r. by apply be_native_start. }
  apply (loop128_acc (length b)) in H0 as [H L]; [|done]. cbn [fst snd] in *.
  apply (ifBlock_acc 8) in H as [H L8]; [|lia]. apply (ifBlock_acc 4) in H as [H L4]; [|lia].
  apply (ifBlock_acc 2) in H as [H L2]; [|lia]. apply (ifBlock_acc 1) in H as [H L1]; [|lia].
  apply (ifWord_acc 4) in H as [H M4]; [|lia|by exists 2%nat|lia]. apply (ifWord_acc 2) in H as [H M2]; [|lia|by exists 1%nat|lia].
  by apply ifByte_acc.
Qed.
End NativeSums.

(** ** Folding and the reference *)

Lemma fold16_sums x s : is_u64 x -> Sums x s -> Sums (fold16 x) s /\
  exists q r, x = 65536 * q + r /\ 0 <= r < 65536 /\ fold16 x = q + r.
Proof.
  intros Hx Hs. unfold fold16. change 65535 with (2 ^ 16 - 1). rewrite land_mask, shiftr_div by lia.
  change (2 ^ 16) with 65536. pose proof (Z.div_mod x 65536). pose proof (Z.mod_pos_bound x 65536).
  assert (0 <= x / 65536 < 2 ^ 48) by (unfold is_u64 in Hx; lia). rewrite u64_small by width_lia.
  split; [|exists (x / 65536), (x mod 65536); lia].
  destruct (decide (x = 0)) as [-> |Hn]; [done|].
  replace (x / 65536 + x mod 65536) with (x - 65535 * (x / 65536)) by lia. apply Sums_sub; [done| |]; width_lia.
Qed.

Lemma fold16_four x s : is_u64 x -> Sums x s -> let y := fold16 (fold16 (fold16 (fold16 x))) in Sums y s /\ 0 <= y <= 65535.
Proof.
  intros Hx Hs. apply fold16_sums in Hs as [H1 (q & r & E1)]; [|done].
  assert (0 <= fold16 x <= 281474976710655 + 65535) as B1 by (unfold is_u64 in Hx; lia). clear E1 q r.
  apply fold16_sums in H1 as [H2 (q & r & E2)]; [|width_lia].
  assert (0 <= fold16 (fold16 x) <= 4294967296 + 65534) as B2 by lia. clear E2 B1 q r.
  apply fold16_sums in H2 as [H3 (q & r & E3)]; [|width_lia].
  assert (0 <= fold16 (fold16 (fold16 x)) <= 131070) as B3 by lia. clear E3 B2 q r.
  apply fold16_sums in H3 as [H4 (q & r & E4)]; [|width_lia]. cbv zeta. split; [done|lia].
Qed.

Lemma checksum_sums be b initial : is_u64 initial -> Forall is_u8 b ->
  Sums (checksum be b initial) (initial + total b) /\ 0 <= checksum be b initial <= 65535.
Proof.
  intros Hi Hb. destruct (checksumNoFold_sums be b initial Hi Hb) as [H1 H2].
  destruct (fold16_four _ _ H1 H2) as [H3 H4]. unfold checksum. by rewrite u16_small by width_lia.
Qed.

Lemma onesAdd_sums x y s t : Sums x s -> Sums y t -> x <= 65535 -> y <= 65535 ->
  Sums (onesAdd x y) (s + t) /\ 0 <= onesAdd x y <= 65535.
Proof.
  intros Hx Hy Bx By. pose proof (Sums_add _ _ _ _ Hx Hy) as Ha. unfold onesAdd. destruct Hx as (Px & _), Hy as (Py & _).
  pose proof (Z.div_mod (x + y) 65536). pose proof (Z.mod_pos_bound (x + y) 65536).
  destruct (decide (x + y = 0)) as [E|E]; [rewrite E in *; done|].
  assert ((x + y) / 65536 = 0 \/ (x + y) / 65536 = 1) as [Q|Q] by lia; rewrite Q in *; split; try lia.
  - by replace (_ mod _ + 0) with (x + y) by lia.
  - replace (_ mod _ + 1) with (x + y - 65535 * 1) by lia. apply Sums_sub; [done|lia|lia].
Qed.

Lemma words16_range l : Forall is_u8 l -> Forall (fun w => 0 <= w <= 65535) (words16 l).
Proof.
  induction l as [|a|a b l IH] using list_ind2; [constructor| |].
  - intros [Ha _]%Forall_cons. constructor; [width_lia|constructor].
  - intros [Ha [Hb Hl]%Forall_cons]%Forall_cons. constructor; [width_lia|by apply IH].
Qed.

Lemma fold_onesAdd ws acc s : Forall (fun w => 0 <= w <= 65535) ws -> Sums acc s -> acc <= 65535 ->
  Sums (fold_left onesAdd ws acc) (s + foldr Z.add 0 ws) /\ fold_left onesAdd ws acc <= 65535.
Proof.
  intros H. revert acc s. induction H as [|w ws Hw _ IH]; intros acc s Ha Hb; cbn [fold_left foldr]; [by rewrite Z.add_0_r|].
  rewrite Z.add_assoc. destruct (onesAdd_sums acc w s w) as [H1 H2]; [done|apply Sums_refl; lia|lia|lia|]. apply IH; [done|lia].
Qed.

Lemma rfc1071_sums l : Forall is_u8 l -> Sums (rfc1071 l) (total l) /\ rfc1071 l <= 65535.
Proof. intros H. apply (fold_onesAdd (words16 l) 0 0); [by apply words16_range|by apply Sums_refl|lia]. Qed.

(** C12: the optimised checksum is the Internet checksum of RFC 1071: for every buffer
    and every initial value of 64 bits, on little- and big-endian machines alike, the
    result of [checksum] is the sixteen-bit one's complement sum of the eight bytes of
    the initial value followed by the buffer. *)
Theorem checksum_rfc1071 (bigEndian : bool) (b : list Z) (initial : Z) :
  is_u64 initial -> Forall is_u8 b ->
  checksum bigEndian b initial = rfc1071 (be_bytes 8 initial ++ b).
Proof.
  intros Hi Hb. destruct (checksum_sums bigEndian b initial Hi Hb) as [H1 H2].
  assert (Forall is_u8 (be_bytes 8 initial ++ b)) as Hf by (apply Forall_app; auto using be_bytes_ok).
  destruct (rfc1071_sums _ Hf) as [H3 H4]. eapply Sums_unique; [exact H1| |lia|done]. eapply Sums_trans; [exact H3|].
  rewrite total_app by (rewrite length_be_bytes; by exists 4%nat). apply Sums_add; [|apply Sums_refl, total_nonneg, Hb].
  apply Sums_sym. rewrite <- (be_val_bytes 8 initial) at 1 by (unfold is_u64 in Hi; lia).
  apply be_val_total; [apply be_bytes_ok|rewrite length_be_bytes; by exists 4%nat].
Qed.

Lemma checksum_rfc1071_witness : checksum false (seqZ 0 203) 65535 = 26113 /\ rfc1071 (be_bytes 8 65535 ++ seqZ 0 203) = 26113.
Proof.
  split; [|by vm_compute]. rewrite (checksum_rfc1071 false (seqZ 0 203) 65535); [by vm_compute|done|].
  apply (bool_decide_unpack (Forall is_u8 (seqZ 0 203))). by vm_compute.
Defined.

(** The sum of the pseudo header, ready to be the initial value of the segment's sum. *)
Lemma pseudoHeader_sums be protocol src dst n :
  is_u8 protocol -> is_u16 n -> Forall is_u8 src -> Forall is_u8 dst ->
  is_u64 (pseudoHeaderChecksumNoFold be protocol src dst n) /\
  Sums (pseudoHeaderChecksumNoFold be protocol src dst n) (total src + total dst + protocol + n).
Proof.
  intros Hp Hn Hs Hd. unfold pseudoHeaderChecksumNoFold.
  destruct (checksumNoFold_sums be src 0 ltac:(done) Hs) as [U1 S1].
  destruct (checksumNoFold_sums be dst _ U1 Hd) as [U2 S2].
  destruct (checksumNoFold_sums be [0; protocol] _ U2) as [U3 S3]; [by repeat apply Forall_cons_2|].
  destruct (checksumNoFold_sums be (be_bytes 2 n) _ U3 (be_bytes_ok 2 n)) as [U4 S4]. split; [done|].
  assert (Sums (total (be_bytes 2 n)) n) as Hn2.
  { apply Sums_sym. rewrite <- (be_val_bytes 2 n) at 1 by (unfold is_u16 in Hn; lia).
    apply be_val_total; [apply be_bytes_ok|rewrite length_be_bytes; by exists 1%nat]. }
  eapply Sums_trans; [exact S4|]. apply Sums_add; [|done]. eapply Sums_trans; [exact S3|].
  replace (total [0; protocol]) with protocol by (unfold total; cbn [words16 foldr]; lia).
  apply Sums_add; [|apply Sums_refl; width_lia]. eapply Sums_trans; [exact S2|].
  apply Sums_add; [exact S1|apply Sums_refl, total_nonneg, Hd].
Qed.

(** Storing the complement of a sum in a zeroed sixteen-bit field at an even offset
    makes the whole sum all ones, which is what a receiver checks. *)
Lemma total_field p v q : is_u16 v -> Nat.Even (length p) -> total (p ++ be_bytes 2 v ++ q) = total (p ++ [0; 0] ++ q) + v.
Proof.
  intros Hv He. rewrite !total_app by (done || by rewrite ?length_be_bytes; exists 1%nat). unfold be_bytes. cbn [le_bytes].
  unfold reverse. cbn [rev_append]. unfold total at 2 5. cbn [words16 foldr]. pose proof (Z.div_mod v 256). pose proof (Z.mod_pos_bound v 256). unfold is_u16 in Hv.
  rewrite (Z.mod_small (v / 256)) by lia. lia.
Qed.

Lemma checksum_complement be p q x initial : is_u64 initial -> Forall is_u8 (p ++ [0; 0] ++ q) -> Nat.Even (length p) ->
  x = checksum be (p ++ [0; 0] ++ q) initial ->
  checksum be (p ++ be_bytes 2 (65535 - x) ++ q) initial = 65535.
Proof.
  intros Hi Hb He Hx. destruct (checksum_sums be _ _ Hi Hb) as [H1 H2]. rewrite <- Hx in H1, H2.
  assert (Forall is_u8 (p ++ be_bytes 2 (65535 - x) ++ q)) as Hb'.
  { rewrite !Forall_app in *. split_and!; [tauto|apply be_bytes_ok|tauto]. }
  destruct (checksum_sums be _ _ Hi Hb') as [H3 H4].
  rewrite total_field in H3 by (done || width_lia). eapply Sums_unique; [exact H3| |lia|lia].
  rewrite Sums_iff in *. destruct H1 as (A & B & (k & C) & D). split_and!; [lia|lia| |lia..]. exists k. lia.
Qed.
