(* ===== verification/Gso.v ===== *)
(** * Gso: virtio headers, checksum offload and the splitting of large segments

    src/tun/offload_linux.go (virtioNetHdr, checksumValid, gsoNoneChecksum, gsoSplit) and
    handleVirtioRead of src/tun/tun_linux.go: what happens to a read from the TUN device
    before the device sees packets. Slices have no spare capacity, as the message buffers
    of the device and the read buffer of the TUN are used; [None] is a run-time panic.
    [bigEndian] is the byte order of the machine. *)
From S2P Require Import Prelude Checksum.
#[local] Open Scope Z_scope.

(** ** Reading and writing fields (encoding/binary, big-endian) *)

Definition get16 (b : list Z) (off : Z) : option Z := be_val <$> slice b off (off + 2).
Definition get32 (b : list Z) (off : Z) : option Z := be_val <$> slice b off (off + 4).
Definition put (n : nat) (b : list Z) (off v : Z) : option (list Z) :=
  if decide (0 <= off /\ off + Z.of_nat n <= len b) then copy_at b off (be_bytes n v) else None.
Definition put16 := put 2.
Definition put32 := put 4.

(** Constants of golang.org/x/sys/unix, as the Linux headers define them. *)
Definition IPPROTO_TCP : Z := 6.
Definition IPPROTO_UDP : Z := 17.
Definition VIRTIO_NET_HDR_F_NEEDS_CSUM : Z := 1.
Definition GSO_NONE : Z := 0.
Definition GSO_TCPV4 : Z := 1.
Definition GSO_TCPV6 : Z := 4.
Definition GSO_UDP_L4 : Z := 5.

Definition tcpFlagsOffset : Z := 13.
Definition tcpFlagFIN : Z := 1.
Definition tcpFlagPSH : Z := 8.
Definition tcpFlagACK : Z := 16.
Definition ipv4SrcAddrOffset : Z := 12.
Definition ipv6SrcAddrOffset : Z := 8.

(** ** The virtio header *)

Record virtioNetHdr : Type := {
  flags : Z;
  gsoType : Z;
  hdrLen : Z;
  gsoSize : Z;
  csumStart : Z;
  csumOffset : Z
}.

Definition virtioNetHdrLen : Z := 10.

Inductive gsoError : Type :=
| ErrShortBuffer
| ErrTooManySegments
| ErrOverflow
| ErrUnsupportedType
| ErrVersionType
| ErrVersion
| ErrTooShort
| ErrTCPHeaderLen
| ErrHdrLen
| ErrHdrStart
| ErrCsumOffset.

Section Offload.
Context (bigEndian : bool).

(** The memory of the struct: its fields in the order of the declaration, without gaps. *)
Definition native16 (v : Z) : list Z := if bigEndian then be_bytes 2 v else le_bytes 2 v.

Definition hdrBytes (v : virtioNetHdr) : list Z :=
  [flags v; gsoType v] ++ native16 (hdrLen v) ++ native16 (gsoSize v) ++ native16 (csumStart v) ++ native16 (csumOffset v).

Definition decode (b : list Z) : result virtioNetHdr gsoError :=
  if len b <? virtioNetHdrLen then Err ErrShortBuffer
  else
    let at2 i := nativeUint bigEndian (take 2 (drop i b)) in
    Ok {| flags := nth 0 b 0; gsoType := nth 1 b 0; hdrLen := at2 2%nat; gsoSize := at2 4%nat;
          csumStart := at2 6%nat; csumOffset := at2 8%nat |}.

Definition encode (v : virtioNetHdr) (b : list Z) : result (list Z) gsoError :=
  if len b <? virtioNetHdrLen then Err ErrShortBuffer
  else Ok (list_inserts 0 (hdrBytes v) b).

(** ** Checksums of packets *)

(** [^x] on sixteen bits *)
Definition not16 (x : Z) : Z := 65535 - x.

Definition checksumValid (pkt : list Z) (iphLen proto : Z) (isV6 : bool) : option bool :=
  let srcAddrAt := if isV6 then ipv6SrcAddrOffset else ipv4SrcAddrOffset in
  let addrSize := if isV6 then 16 else 4 in
  let lenForPseudo := u16 (len pkt - iphLen) in
  src ← slice pkt srcAddrAt (srcAddrAt + addrSize);
  dst ← slice pkt (srcAddrAt + addrSize) (srcAddrAt + addrSize * 2);
  let cSum := pseudoHeaderChecksumNoFold bigEndian proto src dst lenForPseudo in
  body ← slice pkt iphLen (len pkt);
  Some (not16 (checksum bigEndian body cSum) =? 0).

Definition gsoNoneChecksum (in_ : list Z) (cSumStart cSumOffset : Z) : option (list Z) :=
  let cSumAt := u16 (cSumStart + cSumOffset) in
  initial ← get16 in_ cSumAt;
  in_ ← set_at in_ cSumAt 0;
  in_ ← set_at in_ (u16 (cSumAt + 1)) 0;
  body ← slice in_ cSumStart (len in_);
  put16 in_ cSumAt (not16 (checksum bigEndian body initial)).

(** ** Splitting *)

Definition isTCP (hdr : virtioNetHdr) : bool := (gsoType hdr =? GSO_TCPV4) || (gsoType hdr =? GSO_TCPV6).

(** The IP header of segment [i], which is [totalLen] long with its headers: for IPv4
    the identification, the total length and the header checksum, for IPv6 the payload
    length. *)
Definition writeIPHeader (isV6 : bool) (iphLen i totalLen : Z) (out : list Z) : option (list Z) :=
  if isV6 then put16 out 4 (u16 (totalLen - iphLen))
  else
    out ← (if 0 <? i then id ← get16 out 4; put16 out 4 (u16 (id + u16 i)) else Some out);
    out ← put16 out 2 (u16 totalLen);
    h ← slice out 0 iphLen;
    put16 out 10 (not16 (checksum bigEndian h 0)).

(** The transport header: the TCP sequence number and flags, FIN and PSH being kept on
    the [last] segment only, or the UDP length. *)
Definition writeTransportHeader (hdr : virtioNetHdr) (firstTCPSeqNum i segmentDataLen : Z) (last : bool)
    (out : list Z) : option (list Z) :=
  if isTCP hdr then
    let tcpSeq := u32 (firstTCPSeqNum + u16 (gsoSize hdr * u16 i)) in
    out ← put32 out (u16 (csumStart hdr + 4)) tcpSeq;
    if last then Some out
    else
      let flagsAt := u16 (csumStart hdr + tcpFlagsOffset) in
      f ← at_ out flagsAt;
      set_at out flagsAt (Z.ldiff f (Z.lor tcpFlagFIN tcpFlagPSH))
  else put16 out (u16 (csumStart hdr + 4)) (u16 (u16 segmentDataLen + u16 (hdrLen hdr - csumStart hdr))).

(** One round of the loop: the segment [i], whose data is [in_[dataAt:dataEnd]], is
    written to [out]; the addresses of the pseudo header are read from [in_]. *)
Definition writeSegment (in_ : list Z) (hdr : virtioNetHdr) (isV6 : bool) (firstTCPSeqNum : Z)
    (i dataAt dataEnd : Z) (out : list Z) : option (list Z) :=
  let iphLen := csumStart hdr in
  let srcAddrOffset := if isV6 then ipv6SrcAddrOffset else ipv4SrcAddrOffset in
  let addrLen := if isV6 then 16 else 4 in
  let protocol := if isTCP hdr then IPPROTO_TCP else IPPROTO_UDP in
  let segmentDataLen := dataEnd - dataAt in
  let totalLen := hdrLen hdr + segmentDataLen in
  iph ← slice in_ 0 iphLen;
  out ← copy_at out 0 iph;
  out ← writeIPHeader isV6 iphLen i totalLen out;
  th ← slice in_ (csumStart hdr) (hdrLen hdr);
  dst ← slice out (csumStart hdr) (hdrLen hdr);
  out ← copy_at out (csumStart hdr) th;
  out ← writeTransportHeader hdr firstTCPSeqNum i segmentDataLen (dataEnd =? len in_) out;
  data ← slice in_ dataAt dataEnd;
  out ← copy_at out (hdrLen hdr) data;
  let transportHeaderLen := u16 (hdrLen hdr - csumStart hdr) in
  let lenForPseudo := u16 (transportHeaderLen + segmentDataLen) in
  src ← slice in_ srcAddrOffset (srcAddrOffset + addrLen);
  dst ← slice in_ (srcAddrOffset + addrLen) (srcAddrOffset + addrLen * 2);
  let transportCSumNoFold := pseudoHeaderChecksumNoFold bigEndian protocol src dst lenForPseudo in
  body ← slice out (csumStart hdr) totalLen;
  put16 out (u16 (csumStart hdr + csumOffset hdr)) (not16 (checksum bigEndian body transportCSumNoFold)).

(** The loop from round [i] on: the buffers already written come before [bufs], which
    are the ones left; it ends at the end of [in_] or when no buffer is left. *)
Fixpoint splitLoop (in_ : list Z) (hdr : virtioNetHdr) (isV6 : bool) (firstTCPSeqNum outOffset : Z)
    (i dataAt : Z) (bufs : list (list Z)) (sizes : list Z) :
    option (list (list Z) * list Z * (Z * option gsoError)) :=
  if dataAt <? len in_ then
    match bufs with
    | [] => Some ([], sizes, (i - 1, Some ErrTooManySegments))
    | buf :: bufs' =>
        let end_ := dataAt + gsoSize hdr in
        let nextSegmentEnd := if len in_ <? end_ then len in_ else end_ in
        sizes ← set_at sizes i (hdrLen hdr + (nextSegmentEnd - dataAt));
        out ← slice buf outOffset (len buf);
        out ← writeSegment in_ hdr isV6 firstTCPSeqNum i dataAt nextSegmentEnd out;
        '(bufs', sizes, r) ← splitLoop in_ hdr isV6 firstTCPSeqNum outOffset (i + 1) (dataAt + gsoSize hdr) bufs' sizes;
        Some ((take (Z.to_nat outOffset) buf ++ out) :: bufs', sizes, r)
    end
  else Some (bufs, sizes, (i, None)).

(** The fields of [in_] that are recomputed are cleared before the loop. *)
Definition clearFields (in_ : list Z) (hdr : virtioNetHdr) (isV6 : bool) : option (list Z) :=
  in_ ← (if isV6 then Some in_ else in_ ← set_at in_ 10 0; set_at in_ 11 0);
  let transportCsumAt := u16 (csumStart hdr + csumOffset hdr) in
  in_ ← set_at in_ transportCsumAt 0;
  set_at in_ (transportCsumAt + 1) 0.

(** The result holds [in_], the buffers and the sizes as they are left, the number of
    buffers and the error. *)
Definition gsoSplit (in_ : list Z) (hdr : virtioNetHdr) (outBuffs : list (list Z)) (sizes : list Z)
    (outOffset : Z) (isV6 : bool) : option (list Z * list (list Z) * list Z * (Z * option gsoError)) :=
  in_ ← clearFields in_ hdr isV6;
  firstTCPSeqNum ← (if isTCP hdr then get32 in_ (u16 (csumStart hdr + 4)) else Some 0);
  '(outBuffs, sizes, r) ← splitLoop in_ hdr isV6 firstTCPSeqNum outOffset 0 (hdrLen hdr) outBuffs sizes;
  Some (in_, outBuffs, sizes, r).

(** ** handleVirtioRead *)

Definition setHdrLen (hdr : virtioNetHdr) (n : Z) : virtioNetHdr :=
  {| flags := flags hdr; gsoType := gsoType hdr; hdrLen := n; gsoSize := gsoSize hdr;
     csumStart := csumStart hdr; csumOffset := csumOffset hdr |}.

(** The header length from the transport header; [hdr.hdrLen] of the kernel is not used. *)
Definition realHdrLen (in_ : list Z) (hdr : virtioNetHdr) : option (result Z gsoError) :=
  if gsoType hdr =? GSO_UDP_L4 then Some (Ok (u16 (csumStart hdr + 8)))
  else if len in_ <=? u16 (csumStart hdr + 12) then Some (Err ErrTooShort)
  else
    b ← at_ in_ (u16 (csumStart hdr + 12));
    let tcpHLen := u8 (Z.shiftr b 4 * 4) in
    Some (if (tcpHLen <? 20) || (60 <? tcpHLen) then Err ErrTCPHeaderLen else Ok (u16 (csumStart hdr + tcpHLen))).

Definition versionError (ipVersion : Z) (hdr : virtioNetHdr) : option gsoError :=
  if ipVersion =? 4 then
    if negb (gsoType hdr =? GSO_TCPV4) && negb (gsoType hdr =? GSO_UDP_L4) then Some ErrVersionType else None
  else if ipVersion =? 6 then
    if negb (gsoType hdr =? GSO_TCPV6) && negb (gsoType hdr =? GSO_UDP_L4) then Some ErrVersionType else None
  else Some ErrVersion.

(** The buffers and sizes as they are left, the count and the error. *)
Definition handleVirtioRead (in_ : list Z) (bufs : list (list Z)) (sizes : list Z) (offset : Z) :
    option (list (list Z) * list Z * (Z * option gsoError)) :=
  let fail e := Some (bufs, sizes, (0, Some e)) in
  match decode in_ with
  | Err e => fail e
  | Ok hdr =>
      in_ ← slice in_ virtioNetHdrLen (len in_);
      if gsoType hdr =? GSO_NONE then
        in_ ← (if negb (Z.land (flags hdr) VIRTIO_NET_HDR_F_NEEDS_CSUM =? 0)
               then gsoNoneChecksum in_ (csumStart hdr) (csumOffset hdr) else Some in_);
        buf ← at_ bufs 0;
        dst ← slice buf offset (len buf);
        if len dst <? len in_ then fail ErrOverflow
        else
          buf ← copy_at buf offset in_;
          bufs ← set_at bufs 0 buf;
          sizes ← set_at sizes 0 (len in_);
          Some (bufs, sizes, (1, None))
      else if negb (gsoType hdr =? GSO_TCPV4) && negb (gsoType hdr =? GSO_TCPV6) && negb (gsoType hdr =? GSO_UDP_L4)
      then fail ErrUnsupportedType
      else
        b ← at_ in_ 0;
        let ipVersion := Z.shiftr b 4 in
        match versionError ipVersion hdr with
        | Some e => fail e
        | None =>
            r ← realHdrLen in_ hdr;
            match r with
            | Err e => fail e
            | Ok n =>
                let hdr := setHdrLen hdr n in
                if len in_ <? hdrLen hdr then fail ErrHdrLen
                else if hdrLen hdr <? csumStart hdr then fail ErrHdrStart
                else if len in_ <=? u16 (csumStart hdr + csumOffset hdr) + 1 then fail ErrCsumOffset
                else
                  '(_, bufs, sizes, r) ← gsoSplit in_ hdr bufs sizes offset (ipVersion =? 6);
                  Some (bufs, sizes, r)
            end
        end
  end.
End Offload.

(** ** Fields in the middle of a buffer *)

Lemma put_field n (p m q : list Z) off v : off = len p -> length m = n ->
  put n (p ++ m ++ q) off v = Some (p ++ be_bytes n v ++ q).
Proof.
  intros -> Hm. unfold put. rewrite decide_True by len_lia. apply copy_at_mid. rewrite len_be_bytes. unfold len. lia.
Qed.

Lemma get16_field (p m q : list Z) off : off = len p -> length m = 2%nat -> get16 (p ++ m ++ q) off = Some (be_val m).
Proof. intros -> Hm. unfold get16. rewrite slice_mid; [done|unfold len; lia]. Qed.

Lemma get32_field (p m q : list Z) off : off = len p -> length m = 4%nat -> get32 (p ++ m ++ q) off = Some (be_val m).
Proof. intros -> Hm. unfold get32. rewrite slice_mid; [done|unfold len; lia]. Qed.

Lemma set_at_field {A} (p : list A) x q off v : off = len p -> set_at (p ++ x :: q) off v = Some (p ++ v :: q).
Proof.
  intros ->. rewrite set_at_Some by len_lia. unfold len. rewrite Nat2Z.id, insert_app_r_alt, Nat.sub_diag by lia. done.
Qed.

Lemma at_field {A} (p : list A) x q off : off = len p -> at_ (p ++ x :: q) off = Some x.
Proof. intros ->. apply at_Some; [|apply len_nonneg]. unfold len. by rewrite Nat2Z.id, list_lookup_middle. Qed.

(** [copy] over a region of the same length, the region given by the rest of the buffer. *)
Lemma copy_at_region (p src r : list Z) off : off = len p -> len src <= len r ->
  copy_at (p ++ r) off src = Some (p ++ src ++ drop (length src) r).
Proof.
  intros -> H. rewrite <- (take_drop (length src) r) at 1.
  rewrite copy_at_mid; [done|]. unfold len in *. rewrite length_take. lia.
Qed.

Lemma slice_tail {A} (p q : list A) n : n = len (p ++ q) -> slice (p ++ q) (len p) n = Some q.
Proof. intros ->. rewrite slice_suffix by len_lia. unfold len. by rewrite Nat2Z.id, drop_app_length. Qed.

(** Cutting a list at a given length. *)
Lemma cut {A} (l : list A) n : (n <= length l)%nat -> exists p q, l = p ++ q /\ length p = n /\ length q = (length l - n)%nat.
Proof. intros H. exists (take n l), (drop n l). rewrite take_drop, length_take, length_drop. split_and!; [done|lia|done]. Qed.

Lemma cut_field {A} (l : list A) n k : (n + k <= length l)%nat ->
  exists p m q, l = p ++ m ++ q /\ length p = n /\ length m = k /\ length q = (length l - n - k)%nat.
Proof.
  intros H. destruct (cut l n) as (p & r & -> & Hp & Hr); [lia|]. rewrite length_app in *.
  destruct (cut r k) as (m & q & -> & Hm & Hq); [lia|]. rewrite length_app in *. exists p, m, q. split_and!; [done..|lia].
Qed.

(** ** The virtio header survives the wire *)

Definition hdr_ok (v : virtioNetHdr) : Prop :=
  is_u8 (flags v) /\ is_u8 (gsoType v) /\ is_u16 (hdrLen v) /\ is_u16 (gsoSize v) /\ is_u16 (csumStart v) /\ is_u16 (csumOffset v).

Lemma native16_spec be v : is_u16 v -> length (native16 be v) = 2%nat /\ nativeUint be (native16 be v) = v.
Proof.
  intros Hv. unfold native16, nativeUint. unfold is_u16 in Hv. destruct be.
  - rewrite length_be_bytes, be_val_bytes by lia. done.
  - rewrite length_le_bytes, le_val_bytes by lia. done.
Qed.

Lemma virtio_roundtrip be v b b' : hdr_ok v -> encode be v b = Ok b' -> decode be b' = Ok v.
Proof.
  intros (_ & _ & H1 & H2 & H3 & H4) He. unfold encode, decode, virtioNetHdrLen in *.
  destruct (Z.ltb_spec (len b) 10) as [|Hb]; [done|].
  assert (b' = list_inserts 0 (hdrBytes be v) b) as -> by congruence. clear He.
  destruct (native16_spec be _ H1) as [L1 E1], (native16_spec be _ H2) as [L2 E2], (native16_spec be _ H3) as [L3 E3], (native16_spec be _ H4) as [L4 E4].
  assert (length (hdrBytes be v) = 10%nat) as Hl by (unfold hdrBytes; rewrite !length_app; simpl; lia).
  rewrite inserts_0 by (unfold len in Hb; lia). 
  assert (len (hdrBytes be v ++ drop (length (hdrBytes be v)) b) = len b) as Hlen by len_lia.
  rewrite Hlen, (proj2 (Z.ltb_ge _ _)) by lia. clear Hlen Hl. unfold hdrBytes.
  destruct (native16 be (hdrLen v)) as [|? [|? []]]; try done. destruct (native16 be (gsoSize v)) as [|? [|? []]]; try done.
  destruct (native16 be (csumStart v)) as [|? [|? []]]; try done. destruct (native16 be (csumOffset v)) as [|? [|? []]]; try done.
  cbn -[nativeUint]. rewrite take_0, E1, E2, E3, E4. by destruct v.
Qed.

(** ** Checksum offload of a single packet *)

Lemma not16_range be b i : is_u64 i -> Forall is_u8 b -> is_u16 (not16 (checksum be b i)).
Proof. intros Hi Hb. destruct (checksum_sums be b i Hi Hb) as [_ H]. unfold not16, is_u16. lia. Qed.

Lemma checksum_ext be b i j : is_u64 i -> is_u64 j -> Forall is_u8 b -> Sums i j -> checksum be b i = checksum be b j.
Proof.
  intros Hi Hj Hb Hs. destruct (checksum_sums be b i Hi Hb) as [H1 B1], (checksum_sums be b j Hj Hb) as [H2 B2].
  eapply Sums_unique; [exact H1| |lia|lia]. eapply Sums_trans; [exact H2|]. apply Sums_sym, Sums_add; [done|apply Sums_refl, total_nonneg, Hb].
Qed.

(** A packet [iph ++ seg] whose segment sums to all ones over its pseudo header is valid. *)
Lemma checksumValid_intro be iph seg proto (isV6 : bool) src dst :
  let at_ := if isV6 then ipv6SrcAddrOffset else ipv4SrcAddrOffset in
  let n := if isV6 then 16 else 4 in
  slice iph at_ (at_ + n) = Some src -> slice iph (at_ + n) (at_ + n * 2) = Some dst -> len seg <= 65535 ->
  checksum be seg (pseudoHeaderChecksumNoFold be proto src dst (len seg)) = 65535 ->
  checksumValid be (iph ++ seg) (len iph) proto isV6 = Some true.
Proof.
  intros at_ n Hs Hd Hl Hc. unfold checksumValid. fold at_ n. rewrite (slice_app_l _ seg _ _ _ Hs). cbn [mbind option_bind].
  rewrite (slice_app_l _ seg _ _ _ Hd). cbn [mbind option_bind].
  replace (len (iph ++ seg) - len iph) with (len seg) by size_lia.
  pose proof (len_nonneg seg). rewrite u16_small by width_lia.
  rewrite slice_tail by done. cbn [mbind option_bind].
  by rewrite Hc.
Qed.

(** checksum offload completes a packet: when the checksum field of a packet holds
    the folded sum of its pseudo header, which is how the kernel and the coalescing code
    leave a partial checksum, [gsoNoneChecksum] replaces the field, changes nothing else,
    and [checksumValid] accepts the result. The packet is [iph ++ t ++ field ++ rest]
    with the field at an even offset of the transport header. *)
Theorem gsoNoneChecksum_completes (be isV6 : bool) (iph t field rest src dst : list Z) (proto : Z) :
  let pkt := iph ++ t ++ field ++ rest in
  let srcAt := if isV6 then ipv6SrcAddrOffset else ipv4SrcAddrOffset in
  let n := if isV6 then 16 else 4 in
  Forall is_u8 pkt -> len pkt <= 65535 -> is_u8 proto ->
  length field = 2%nat -> Nat.Even (length t) ->
  slice iph srcAt (srcAt + n) = Some src -> slice iph (srcAt + n) (srcAt + n * 2) = Some dst ->
  be_val field = checksum be [] (pseudoHeaderChecksumNoFold be proto src dst (len pkt - len iph)) ->
  exists field', length field' = 2%nat /\
    gsoNoneChecksum be pkt (len iph) (len t) = Some (iph ++ t ++ field' ++ rest) /\
    checksumValid be (iph ++ t ++ field' ++ rest) (len iph) proto isV6 = Some true.
Proof.
  intros pkt srcAt n Hb Hl Hp Hf Ht Hs Hd Hpart. subst pkt.
  assert (Forall is_u8 (t ++ [0; 0] ++ rest)) as Hbody.
  { rewrite !Forall_app in *. split_and!; try tauto. by repeat apply Forall_cons_2. }
  assert (Forall is_u8 src /\ Forall is_u8 dst) as [Hsb Hdb].
  { rewrite !Forall_app in Hb. destruct Hb as [Hi _]. unfold slice in Hs, Hd. repeat case_decide; simplify_eq. split; by apply Forall_take, Forall_drop. }
  assert (is_u16 (len (iph ++ t ++ field ++ rest) - len iph)) as Hn.
  { unfold is_u16. len_lia. }
  destruct (pseudoHeader_sums be proto src dst _ Hp Hn Hsb Hdb) as [Hpu _].
  remember (pseudoHeaderChecksumNoFold be proto src dst _) as ps eqn:Eps.
  destruct (checksum_sums be [] ps Hpu) as [Hfs Hfb]; [constructor|]. rewrite <- Hpart in Hfs, Hfb.
  assert (is_u64 (be_val field)) as Hfu by width_lia.
  remember (checksum be (t ++ [0; 0] ++ rest) (be_val field)) as x eqn:Ex.
  exists (be_bytes 2 (not16 x)). rewrite length_be_bytes. split; [done|].
  assert (len (t ++ be_bytes 2 (not16 x) ++ rest) = len (iph ++ t ++ field ++ rest) - len iph) as Hlen by len_lia.
  assert (checksum be (t ++ be_bytes 2 (not16 x) ++ rest) ps = 65535) as Hc.
  { rewrite <- (checksum_ext be _ (be_val field) ps); [by eapply checksum_complement|done|done| |].
    - rewrite !Forall_app in *. split_and!; try tauto. apply be_bytes_ok.
    - unfold total in Hfs. cbn in Hfs. by rewrite Z.add_0_r in Hfs. }
  split; [|eapply checksumValid_intro; [exact Hs|exact Hd|unfold is_u16 in Hn; lia|by rewrite Hlen, <- Eps]].
  destruct field as [|f1 [|f2 []]]; try done. unfold gsoNoneChecksum. pose proof (len_nonneg rest).
  autorewrite with size in *. pose proof (len_nonneg iph). pose proof (len_nonneg t).
  rewrite (u16_small (len iph + len t)), (u16_small (len iph + len t + 1)) by width_lia.
  rewrite (app_assoc iph), get16_field by (done || size_lia). cbn [mbind option_bind app].
  rewrite set_at_field by size_lia. cbn [mbind option_bind].
  change (0 :: f2 :: rest) with ([0] ++ f2 :: rest). rewrite (app_assoc _ [0]), set_at_field by size_lia. cbn [mbind option_bind].
  rewrite <- !app_assoc. cbn [app].
  rewrite slice_tail by done. cbn [mbind option_bind].
  change (0 :: 0 :: rest) with ([0; 0] ++ rest). rewrite <- Ex. rewrite (app_assoc iph), (put_field 2) by (done || size_lia).
  by rewrite <- app_assoc.
Qed.

(** ** One segment *)

Lemma u16_be2 v : be_val (be_bytes 2 (u16 v)) = u16 v.
Proof. apply be_val_bytes. apply u16_range. Qed.

Lemma checksum_rfc0 be b : Forall is_u8 b -> checksum be b 0 = rfc1071 b.
Proof.
  intros Hb. destruct (checksum_sums be b 0 ltac:(done) Hb) as [H1 H2], (rfc1071_sums b Hb) as [H3 H4].
  eapply Sums_unique; [exact H1|exact H3|lia|done].
Qed.

(** The recomputed IPv4 header: [a] is the version and type of service, [f] the flags,
    fragment offset, time to live and protocol, [c] the addresses and options. *)
Lemma writeIPHeader_v4 be (a l id f k c rest : list Z) i totalLen :
  length a = 2%nat -> length l = 2%nat -> length id = 2%nat -> length f = 4%nat -> k = [0; 0] -> 0 <= i ->
  let id' := if 0 <? i then be_bytes 2 (u16 (be_val id + u16 i)) else id in
  let h x := a ++ be_bytes 2 (u16 totalLen) ++ id' ++ f ++ x ++ c in
  writeIPHeader be false (len (a ++ l ++ id ++ f ++ k ++ c)) i totalLen ((a ++ l ++ id ++ f ++ k ++ c) ++ rest) =
    Some (h (be_bytes 2 (not16 (checksum be (h [0; 0]) 0))) ++ rest).
Proof.
  intros Ha Hl Hid Hf -> Hi id' h. unfold writeIPHeader.
  assert (length id' = 2%nat) as Hid' by (unfold id'; destruct (0 <? i); [apply length_be_bytes|done]).
  assert ((if 0 <? i then v ← get16 ((a ++ l ++ id ++ f ++ [0; 0] ++ c) ++ rest) 4;
             put16 ((a ++ l ++ id ++ f ++ [0; 0] ++ c) ++ rest) 4 (u16 (v + u16 i))
           else Some ((a ++ l ++ id ++ f ++ [0; 0] ++ c) ++ rest)) = Some (a ++ l ++ id' ++ (f ++ [0; 0] ++ c) ++ rest)) as ->.
  { unfold id'. rewrite <- !app_assoc. destruct (0 <? i); [|done].
    rewrite (app_assoc a l), (get16_field (a ++ l) id) by (done || len_lia). cbn [mbind option_bind].
    unfold put16. rewrite put_field by (done || len_lia). by rewrite <- !app_assoc. }
  cbn [mbind option_bind]. unfold put16. rewrite put_field by (done || len_lia). cbn [mbind option_bind].
  replace (a ++ be_bytes 2 (u16 totalLen) ++ id' ++ (f ++ [0; 0] ++ c) ++ rest) with (h [0; 0] ++ rest) by (unfold h; by rewrite <- !app_assoc).
  replace (len (a ++ l ++ id ++ f ++ [0; 0] ++ c)) with (len (h [0; 0])) by (unfold h; len_lia).
  rewrite slice_prefix_app. cbn [mbind option_bind].
  replace (h [0; 0] ++ rest) with ((a ++ be_bytes 2 (u16 totalLen) ++ id' ++ f) ++ [0; 0] ++ (c ++ rest)) at 1 by (unfold h; by rewrite <- !app_assoc).
  rewrite put_field by (done || len_lia). unfold h. by rewrite <- !app_assoc.
Qed.

(** The IP header of a segment keeps everything but the fields that are recomputed, and
    an IPv4 header has a correct checksum. *)
Lemma writeIPHeader_spec be (isV6 : bool) iph rest i totalLen :
  (if isV6 then 40 else 20) <= len iph -> Forall is_u8 iph -> 0 <= i ->
  (isV6 = false -> take 2 (drop 10 iph) = [0; 0]) ->
  exists iph', writeIPHeader be isV6 (len iph) i totalLen (iph ++ rest) = Some (iph' ++ rest) /\
    length iph' = length iph /\ Forall is_u8 iph' /\
    (if isV6 then drop 8 iph' = drop 8 iph /\ get16 iph' 4 = Some (u16 (totalLen - len iph))
     else drop 12 iph' = drop 12 iph /\ get16 iph' 2 = Some (u16 totalLen) /\ rfc1071 iph' = 65535).
Proof.
  intros Hl Hb Hi Hz. destruct isV6.
  - destruct (cut_field iph 4 2) as (p & m & q & -> & Hp & Hm & Hq); [unfold len in Hl; lia|].
    exists (p ++ be_bytes 2 (u16 (totalLen - len (p ++ m ++ q))) ++ q). unfold writeIPHeader, put16. split_and!.
    + rewrite <- !app_assoc, put_field by (done || len_lia). done.
    + len_lia.
    + rewrite !Forall_app in *. split_and!; try tauto. apply be_bytes_ok.
    + rewrite !(app_assoc p), !drop_app_ge by len_lia. f_equal. len_lia.
    + rewrite get16_field by (len_lia || done). by rewrite u16_be2.
  - specialize (Hz eq_refl). do 12 (destruct iph as [|? iph]; [exfalso; unfold len in Hl; simpl in Hl; lia|]).
    cbn in Hz. injection Hz as -> ->. rename z into a0, z0 into a1, z1 into l0, z2 into l1, z3 into i0, z4 into i1.
    epose proof (writeIPHeader_v4 be [a0; a1] [l0; l1] [i0; i1] [_; _; _; _] [0; 0] iph rest i totalLen eq_refl eq_refl eq_refl eq_refl eq_refl Hi) as H.
    cbv zeta in H. eexists. split; [exact H|].
    remember (if 0 <? i then _ else _) as id' eqn:Eid.
    assert (length id' = 2%nat /\ Forall is_u8 id') as [Hid1 Hid2].
    { subst id'. destruct (0 <? i); [split; [apply length_be_bytes|apply be_bytes_ok]|split; [done|]].
      repeat (apply Forall_cons in Hb as [? Hb]). by repeat apply Forall_cons_2. }
    repeat (apply Forall_cons in Hb as [? Hb]).
    assert (forall x, Forall is_u8 x -> Forall is_u8 ([a0; a1] ++ be_bytes 2 (u16 totalLen) ++ id' ++ [z5; z6; z7; z8] ++ x ++ iph)) as Hbx.
    { intros x Hx. rewrite !Forall_app. split_and!; try done; try apply be_bytes_ok; by repeat apply Forall_cons_2. }
    split_and!.
    + len_lia.
    + apply Hbx, be_bytes_ok.
    + transitivity iph; [|done]. rewrite !app_assoc. apply drop_app_length'. len_lia.
    + rewrite get16_field by (len_lia || done). by rewrite u16_be2.
    + rewrite <- (checksum_rfc0 be) by apply Hbx, be_bytes_ok.
      remember ([a0; a1] ++ be_bytes 2 (u16 totalLen) ++ id' ++ [z5; z6; z7; z8]) as p eqn:Ep.
      assert (forall x, [a0; a1] ++ be_bytes 2 (u16 totalLen) ++ id' ++ [z5; z6; z7; z8] ++ x ++ iph = p ++ x ++ iph) as Hx.
      { intros x. subst p. by rewrite <- !app_assoc. }
      rewrite !Hx in *. eapply checksum_complement; [done| | |done].
      * rewrite <- Hx. apply Hbx. by repeat apply Forall_cons_2.
      * exists 5%nat. subst p. len_lia.
Qed.

Lemma ldiff_u8 f m : is_u8 f -> 0 <= m -> is_u8 (Z.ldiff f m).
Proof.
  intros Hf Hm. pose proof (Z.ldiff_nonneg f m) as Hn. split; [apply Hn; width_lia|].
  assert (Z.ldiff f m <= f); [|width_lia]. apply Z.ldiff_le; [width_lia|]. apply Z.bits_inj'. intros n Hn'.
  rewrite !Z.ldiff_spec, Z.bits_0. by destruct (Z.testbit f n), (Z.testbit m n).
Qed.

(** The transport header of a segment: everything before the checksum field [t1] is
    kept but the sequence number and flags, or the length. *)
Definition transportOk (hdr : virtioNetHdr) (firstTCPSeqNum i segmentDataLen thLen : Z) (last : bool) (t1 t1' : list Z) : Prop :=
  if isTCP hdr then
    take 4 t1' = take 4 t1 /\ take 5 (drop 8 t1') = take 5 (drop 8 t1) /\
    get32 t1' 4 = Some (u32 (firstTCPSeqNum + u16 (gsoSize hdr * u16 i))) /\
    nth 13 t1' 0 = if last then nth 13 t1 0 else Z.ldiff (nth 13 t1 0) (Z.lor tcpFlagFIN tcpFlagPSH)
  else take 4 t1' = take 4 t1 /\ get16 t1' 4 = Some (u16 (segmentDataLen + thLen)).

Lemma writeTransportHeader_spec hdr seq i n last (p t1 t2 rest : list Z) :
  csumStart hdr = len p -> hdrLen hdr = len p + len (t1 ++ [0; 0] ++ t2) -> hdrLen hdr <= 65535 ->
  length t1 = (if isTCP hdr then 16%nat else 6%nat) -> Forall is_u8 t1 ->
  exists t1', writeTransportHeader hdr seq i n last (p ++ (t1 ++ [0; 0] ++ t2) ++ rest) = Some (p ++ (t1' ++ [0; 0] ++ t2) ++ rest) /\
    length t1' = length t1 /\ Forall is_u8 t1' /\ transportOk hdr seq i n (len (t1 ++ [0; 0] ++ t2)) last t1 t1'.
Proof.
  intros Hs Hh Hm Hl Hb. unfold writeTransportHeader, transportOk. pose proof (len_nonneg p). pose proof (len_nonneg t2).
  assert (len t1 = if isTCP hdr then 16 else 6) as Hl' by (unfold len; destruct (isTCP hdr); lia).
  rewrite Hs. autorewrite with size in Hh. destruct (isTCP hdr).
  - unfold tcpFlagsOffset. rewrite (u16_small (len p + 4)), (u16_small (len p + 13)) by width_lia.
    destruct t1 as [|a0 [|a1 [|a2 [|a3 [|s0 [|s1 [|s2 [|s3 [|k0 [|k1 [|k2 [|k3 [|d [|f [|w0 [|w1 []]]]]]]]]]]]]]]]]; try done.
    remember (u32 _) as sq eqn:Esq.
    assert (put32 (p ++ ([a0; a1; a2; a3; s0; s1; s2; s3; k0; k1; k2; k3; d; f; w0; w1] ++ [0; 0] ++ t2) ++ rest) (len p + 4) sq =
            Some ((p ++ [a0; a1; a2; a3] ++ be_bytes 4 sq ++ [k0; k1; k2; k3; d]) ++ f :: [w0; w1; 0; 0] ++ t2 ++ rest)) as ->.
    { unfold put32. epose proof (put_field 4 (p ++ [a0; a1; a2; a3]) [s0; s1; s2; s3] ([k0; k1; k2; k3; d; f; w0; w1; 0; 0] ++ t2 ++ rest) (len p + 4) sq) as Hp.
      rewrite <- !app_assoc in *. cbn [app] in *. apply Hp; [len_lia|done]. }
    cbn [mbind option_bind].
    exists ([a0; a1; a2; a3] ++ be_bytes 4 sq ++ [k0; k1; k2; k3; d; if last then f else Z.ldiff f (Z.lor tcpFlagFIN tcpFlagPSH); w0; w1]).
    repeat (apply Forall_cons in Hb as [? Hb]).
    assert (length (be_bytes 4 sq) = 4%nat) as Hb4 by apply length_be_bytes.
    assert (be_val (be_bytes 4 sq) = sq) as Hv by (apply be_val_bytes; subst sq; apply u32_range).
    pose proof (be_bytes_ok 4 sq) as Hok4. 
    split_and!.
    + destruct last.
      * rewrite <- !app_assoc. done.
      * rewrite at_field by len_lia. cbn [mbind option_bind]. rewrite set_at_field by len_lia. rewrite <- !app_assoc. done.
    + len_lia.
    + rewrite !Forall_app. split_and!; [by repeat apply Forall_cons_2|done|].
      repeat apply Forall_cons_2; try done. destruct last; [done|by apply ldiff_u8].
    + done.
    + destruct (be_bytes 4 sq) as [|? [|? [|? [|? []]]]]; done.
    + rewrite get32_field by done. by rewrite Hv.
    + destruct (be_bytes 4 sq) as [|? [|? [|? [|? []]]]]; done.
  - rewrite (u16_small (len p + 4)) by width_lia.
    destruct t1 as [|a0 [|a1 [|a2 [|a3 [|l0 [|l1 []]]]]]]; try done.
    replace (hdrLen hdr - len p) with (len ([a0; a1; a2; a3; l0; l1] ++ [0; 0] ++ t2)) by (autorewrite with size; lia).
    remember (u16 (u16 n + _)) as v eqn:Ev. exists ([a0; a1; a2; a3] ++ be_bytes 2 v).
    repeat (apply Forall_cons in Hb as [? Hb]). split_and!.
    + unfold put16. epose proof (put_field 2 (p ++ [a0; a1; a2; a3]) [l0; l1] ([0; 0] ++ t2 ++ rest) (len p + 4) v) as Hp.
      rewrite <- !app_assoc in *. cbn [app] in *. apply Hp; [len_lia|done].
    + len_lia.
    + apply Forall_app; split; [by repeat apply Forall_cons_2|apply be_bytes_ok].
    + done.
    + epose proof (get16_field [a0; a1; a2; a3] (be_bytes 2 v) [] 4 eq_refl) as Hg. rewrite app_nil_r in Hg. rewrite Hg by apply length_be_bytes.
      f_equal. rewrite Ev, u16_be2. unfold u16. by rewrite <- Zplus_mod.
Qed.

(** What a receiver sees of segment [i] with payload [data] cut from [in_]. *)
Record segmentOk (be : bool) (in_ : list Z) (hdr : virtioNetHdr) (isV6 : bool) (firstTCPSeqNum i : Z) (last : bool)
    (data pkt : list Z) : Prop := {
  (** the headers are followed by the data *)
  seg_data : drop (Z.to_nat (hdrLen hdr)) pkt = data;
  seg_len : len pkt = hdrLen hdr + len data;
  (** the TCP or UDP checksum is right *)
  seg_csum : checksumValid be pkt (csumStart hdr) (if isTCP hdr then IPPROTO_TCP else IPPROTO_UDP) isV6 = Some true;
  (** so are the lengths and, for IPv4, the header checksum; the addresses are those of the input *)
  seg_ip : if isV6 then get16 pkt 4 = Some (len pkt - csumStart hdr) else
             get16 pkt 2 = Some (len pkt) /\ rfc1071 (take (Z.to_nat (csumStart hdr)) pkt) = 65535;
  seg_addr : let k := if isV6 then 8%nat else 12%nat in
             drop k (take (Z.to_nat (csumStart hdr)) pkt) = drop k (take (Z.to_nat (csumStart hdr)) in_);
  (** the sequence number is that of the data, FIN and PSH are on the last segment only *)
  seg_transport : if isTCP hdr then
      get32 pkt (csumStart hdr + 4) = Some (u32 (firstTCPSeqNum + gsoSize hdr * i)) /\
      (exists f, at_ in_ (csumStart hdr + tcpFlagsOffset) = Some f /\
        at_ pkt (csumStart hdr + tcpFlagsOffset) = Some (if last then f else Z.ldiff f (Z.lor tcpFlagFIN tcpFlagPSH)))
    else get16 pkt (csumStart hdr + 4) = Some (len pkt - csumStart hdr)
}.

Lemma slice_shift {A} (p q : list A) a b : 0 <= a -> slice (p ++ q) (len p + a) (len p + b) = slice q a b.
Proof.
  intros Ha. unfold slice. pose proof (len_nonneg p). rewrite len_app.
  destruct (decide (0 <= a <= b /\ b <= len q)) as [H1|H1]; [rewrite decide_True by lia|rewrite decide_False by lia; done].
  f_equal. replace (len p + b - (len p + a)) with (b - a) by lia. f_equal. unfold len.
  replace (Z.to_nat (Z.of_nat (length p) + a)) with (length p + Z.to_nat a)%nat by lia. rewrite <- drop_drop, drop_app_length. done.
Qed.

Lemma get16_shift (p q : list Z) a : 0 <= a -> get16 (p ++ q) (len p + a) = get16 q a.
Proof. intros Ha. unfold get16. rewrite <- Z.add_assoc, slice_shift; [done|lia]. Qed.
Lemma get32_shift (p q : list Z) a : 0 <= a -> get32 (p ++ q) (len p + a) = get32 q a.
Proof. intros Ha. unfold get32. rewrite <- Z.add_assoc, slice_shift; [done|lia]. Qed.
Lemma get16_app_l (p q : list Z) a v : get16 p a = Some v -> get16 (p ++ q) a = Some v.
Proof. unfold get16. intros (s & Hs & ->)%fmap_Some. by rewrite (slice_app_l _ q _ _ _ Hs). Qed.
Lemma get32_app_l (p q : list Z) a v : get32 p a = Some v -> get32 (p ++ q) a = Some v.
Proof. unfold get32. intros (s & Hs & ->)%fmap_Some. by rewrite (slice_app_l _ q _ _ _ Hs). Qed.
Lemma at_shift {A} (p q : list A) a : 0 <= a -> at_ (p ++ q) (len p + a) = at_ q a.
Proof.
  intros Ha. unfold at_. pose proof (len_nonneg p). rewrite !decide_True by lia. unfold len.
  rewrite lookup_app_r by lia. f_equal. lia.
Qed.
Lemma at_nth (q : list Z) a : 0 <= a < len q -> at_ q a = Some (nth (Z.to_nat a) q 0).
Proof. intros Ha. apply at_Some; [|lia]. rewrite nth_lookup. destruct (lookup_lt_is_Some_2 q (Z.to_nat a)) as [x Hx]; [unfold len in Ha; lia|]. by rewrite Hx. Qed.
Lemma slice_drop {A} (l m : list A) k a b : drop k l = drop k m -> length l = length m -> Z.of_nat k <= a -> slice l a b = slice m a b.
Proof.
  intros Hd Hl Ha. unfold slice, len. rewrite Hl. case_decide; [|done]. f_equal. f_equal.
  replace (Z.to_nat a) with (k + (Z.to_nat a - k))%nat by lia. by rewrite <- !drop_drop, Hd.
Qed.

Section Segment.
Context (be : bool) (hdr : virtioNetHdr) (isV6 : bool) (iph t1 t2 payload : list Z).

(** The input of the loop: the recomputed fields are zero, the header describes it. *)
Definition input : list Z := iph ++ (t1 ++ [0; 0] ++ t2) ++ payload.

Record inputOk : Prop := {
  in_bytes : Forall is_u8 input;
  in_len : len input <= 65535;
  in_iph : (if isV6 then 40 else 20) <= len iph;
  in_zero : isV6 = false -> take 2 (drop 10 iph) = [0; 0];
  in_start : csumStart hdr = len iph;
  in_hdrLen : hdrLen hdr = len iph + len (t1 ++ [0; 0] ++ t2);
  in_offset : csumOffset hdr = len t1;
  in_t1 : length t1 = if isTCP hdr then 16%nat else 6%nat
}.
Context (Hok : inputOk).

Lemma iph_src : exists src dst,
  let srcAt := if isV6 then ipv6SrcAddrOffset else ipv4SrcAddrOffset in
  let n := if isV6 then 16 else 4 in
  slice iph srcAt (srcAt + n) = Some src /\ slice iph (srcAt + n) (srcAt + n * 2) = Some dst /\ Forall is_u8 src /\ Forall is_u8 dst.
Proof.
  destruct Hok as [Hb _ Hi _ _ _ _ _]. unfold input in Hb. apply Forall_app in Hb as [Hb _]. unfold ipv6SrcAddrOffset, ipv4SrcAddrOffset.
  do 2 eexists. cbv zeta. rewrite !slice_Some by (destruct isV6; lia). split_and!; [done|done| |]; by apply Forall_take, Forall_drop.
Qed.

(** The bytes written by one round, with the headers as [writeIPHeader_spec] and
    [writeTransportHeader_spec] give them. *)
Lemma writeSegment_bytes pre data post out i seq :
  payload = pre ++ data ++ post -> 0 <= i -> hdrLen hdr + len data <= len out ->
  let dataAt := hdrLen hdr + len pre in
  let dataEnd := dataAt + len data in
  let last := dataEnd =? len input in
  exists iph' t1' src dst x,
    writeSegment be input hdr isV6 seq i dataAt dataEnd out =
      Some ((iph' ++ t1' ++ be_bytes 2 (not16 x) ++ t2 ++ data) ++ drop (Z.to_nat (hdrLen hdr + len data)) out) /\
    length iph' = length iph /\ Forall is_u8 iph' /\
    (if isV6 then drop 8 iph' = drop 8 iph /\ get16 iph' 4 = Some (u16 (hdrLen hdr + len data - len iph))
     else drop 12 iph' = drop 12 iph /\ get16 iph' 2 = Some (u16 (hdrLen hdr + len data)) /\ rfc1071 iph' = 65535) /\
    length t1' = length t1 /\ Forall is_u8 t1' /\
    transportOk hdr seq i (len data) (len (t1 ++ [0; 0] ++ t2)) last t1 t1' /\
    (let srcAt := if isV6 then ipv6SrcAddrOffset else ipv4SrcAddrOffset in
     let n := if isV6 then 16 else 4 in
     slice iph srcAt (srcAt + n) = Some src /\ slice iph (srcAt + n) (srcAt + n * 2) = Some dst) /\
    x = checksum be (t1' ++ [0; 0] ++ t2 ++ data) (pseudoHeaderChecksumNoFold be (if isTCP hdr then IPPROTO_TCP else IPPROTO_UDP)
          src dst (len (t1 ++ [0; 0] ++ t2 ++ data))).
Proof.
  intros Hpay Hi Hout dataAt dataEnd last. destruct iph_src as (src & dst & Hsrc & Hdst & _ & _). destruct Hok as [Hb Hl Hip Hz Hst Hhl Hof Ht1].
  assert (len input = hdrLen hdr + len pre + len data + len post) as Hin by (unfold input; rewrite Hpay; len_lia).
  assert (Forall is_u8 iph /\ Forall is_u8 t1) as [Hbi Hb1] by (unfold input in Hb; rewrite !Forall_app in Hb; tauto).
  pose proof (len_nonneg pre). pose proof (len_nonneg data). pose proof (len_nonneg post). pose proof (len_nonneg iph). pose proof (len_nonneg t1). pose proof (len_nonneg t2).
  remember (t1 ++ [0; 0] ++ t2) as th eqn:Eth. pose proof (len_nonneg th).
  destruct (writeIPHeader_spec be isV6 iph (drop (length iph) out) i (hdrLen hdr + len data) Hip Hbi Hi Hz) as (iph' & Hw & Hl' & Hb' & Hfields).
  assert (len iph' = len iph) as Hli by (unfold len; lia).
  destruct (writeTransportHeader_spec hdr seq i (len data) last iph' t1 t2 (drop (length th) (drop (length iph) out))) as (t1' & Hw2 & Hl1 & Hb1' & Htr);
    [lia|subst th; lia|lia|done|done|].
  rewrite <- Eth in Hw2, Htr.
  assert (len t1' = len t1) as Hlt by (unfold len; lia).
  exists iph', t1', src, dst. eexists. split; [|split_and!; done].
  unfold writeSegment. cbv zeta. rewrite Hst. replace (dataEnd - dataAt) with (len data) by lia.
  assert (slice input 0 (len iph) = Some iph) as -> by apply slice_prefix_app. cbn [mbind option_bind].
  assert (copy_at out 0 iph = Some (iph ++ drop (length iph) out)) as -> by (apply (copy_at_region []); [done|lia]). cbn [mbind option_bind]. rewrite Hw. cbn [mbind option_bind].
  assert (slice input (len iph) (hdrLen hdr) = Some th) as -> by (unfold input; rewrite <- Eth; by apply slice_mid). cbn [mbind option_bind].
  rewrite (slice_Some (iph' ++ _)) by (len_lia). cbn [mbind option_bind].
  rewrite (copy_at_region iph' th) by (lia || len_lia). cbn [mbind option_bind].
  fold last. rewrite Hw2. cbn [mbind option_bind].
  assert (slice input dataAt dataEnd = Some data) as ->.
  { unfold input. rewrite <- Eth, Hpay, (app_assoc iph), (app_assoc _ pre). unfold dataEnd, dataAt.
    replace (hdrLen hdr + len pre) with (len ((iph ++ th) ++ pre)) by (subst th; size_lia). by apply slice_mid. }
  cbn [mbind option_bind]. rewrite (app_assoc iph'), copy_at_region by (subst th; len_lia). cbn [mbind option_bind].
  unfold input. rewrite (slice_app_l _ _ _ _ _ Hsrc), (slice_app_l _ _ _ _ _ Hdst). cbn [mbind option_bind].
  assert (forall R, slice ((iph' ++ t1' ++ [0; 0] ++ t2) ++ data ++ R) (len iph) (hdrLen hdr + len data) = Some (t1' ++ [0; 0] ++ t2 ++ data)) as ->.
  { intros R. replace ((iph' ++ t1' ++ [0; 0] ++ t2) ++ data ++ R) with (iph' ++ (t1' ++ [0; 0] ++ t2 ++ data) ++ R) by (by rewrite <- !app_assoc).
    rewrite <- Hli. apply slice_mid. subst th. size_lia. }
  cbn [mbind option_bind]. replace (hdrLen hdr - len iph) with (len th) by lia.
  rewrite (u16_small (len th)) by width_lia. replace (len th + len data) with (len (t1 ++ [0; 0] ++ t2 ++ data)) by (subst th; size_lia).
  rewrite (u16_small (len (t1 ++ _))) by (subst th; autorewrite with size in *; width_lia).
  rewrite Hof, (u16_small (len iph + len t1)) by (subst th; autorewrite with size in *; width_lia).
  set (x := not16 _).
  unfold put16. replace ((iph' ++ t1' ++ [0; 0] ++ t2) ++ data ++ drop (length data) (drop (length th) (drop (length iph) out)))
    with ((iph' ++ t1') ++ [0; 0] ++ (t2 ++ data ++ drop (Z.to_nat (hdrLen hdr + len data)) out)).
  - rewrite put_field by (done || size_lia). by rewrite <- !app_assoc.
  - rewrite !drop_drop, <- !app_assoc. repeat f_equal. unfold len. unfold len in Hhl. lia.
Qed.

(** The transport fields of a segment, read from the packet. *)
Lemma transport_read iph' t1' csum data seq i last :
  len iph' = len iph -> length t1' = length t1 -> length csum = 2%nat ->
  0 <= i -> 0 < gsoSize hdr -> gsoSize hdr * i <= 65535 -> hdrLen hdr + len data <= 65535 ->
  transportOk hdr seq i (len data) (len (t1 ++ [0; 0] ++ t2)) last t1 t1' ->
  let pkt := iph' ++ t1' ++ csum ++ t2 ++ data in
  if isTCP hdr then
    get32 pkt (csumStart hdr + 4) = Some (u32 (seq + gsoSize hdr * i)) /\
    (exists f, at_ input (csumStart hdr + tcpFlagsOffset) = Some f /\
      at_ pkt (csumStart hdr + tcpFlagsOffset) = Some (if last then f else Z.ldiff f (Z.lor tcpFlagFIN tcpFlagPSH)))
  else get16 pkt (csumStart hdr + 4) = Some (len pkt - csumStart hdr).
Proof.
  intros Hli Hlt Hcs Hi Hg Hgi Hlen Htr pkt. destruct Hok as [_ _ _ _ Hst Hhl _ Ht1]. unfold transportOk in Htr. unfold tcpFlagsOffset.
  rewrite Hst. destruct (isTCP hdr).
  - destruct Htr as (_ & _ & Hseq & Hfl). assert (i <= 65535) by nia. rewrite (u16_small i), (u16_small (gsoSize hdr * i)) in Hseq by width_lia.
    split; [unfold pkt; rewrite <- Hli, get32_shift by lia; by apply get32_app_l|].
    exists (nth 13 t1 0). unfold input, pkt. rewrite <- Hli at 2. rewrite !at_shift by lia. split.
    + apply at_app_l, at_app_l. apply (at_nth t1 13). unfold len. lia.
    + rewrite <- Hfl. apply at_app_l. apply (at_nth t1' 13). unfold len. lia.
  - destruct Htr as (_ & Hl). unfold pkt. rewrite <- Hli, get16_shift by lia. rewrite (get16_app_l _ _ _ _ Hl). f_equal.
    rewrite u16_small; [len_lia|]. pose proof (len_nonneg iph). pose proof (len_nonneg data). pose proof (len_nonneg (t1 ++ [0; 0] ++ t2)). width_lia.
Qed.

(** One round of the loop writes a correct segment at the front of the buffer. *)
Lemma writeSegment_ok pre data post out i seq :
  payload = pre ++ data ++ post -> 0 <= i -> 0 < gsoSize hdr -> gsoSize hdr * i = len pre -> hdrLen hdr + len data <= len out ->
  let dataAt := hdrLen hdr + len pre in
  let dataEnd := dataAt + len data in
  exists pkt, writeSegment be input hdr isV6 seq i dataAt dataEnd out = Some (pkt ++ drop (length pkt) out) /\
    segmentOk be input hdr isV6 seq i (dataEnd =? len input) data pkt.
Proof.
  intros Hpay Hi Hg Hgi Hout dataAt dataEnd. pose proof Hok as [Hb Hl Hip _ Hst Hhl Hof Ht1].
  destruct (writeSegment_bytes pre data post out i seq Hpay Hi Hout) as (iph' & t1' & src & dst & x & Hw & Hl' & Hb' & Hf & Hl1 & Hb1 & Htr & [Hsrc Hdst] & Hx).
  destruct iph_src as (src0 & dst0 & Hs0 & Hd0 & Hsb & Hdb). cbv zeta in Hs0, Hd0. rewrite Hs0 in Hsrc. rewrite Hd0 in Hdst. injection Hsrc as ->. injection Hdst as ->.
  remember (be_bytes 2 (not16 x)) as csum eqn:Ec. assert (length csum = 2%nat) as Hcs by (subst; apply length_be_bytes).
  assert (len input = hdrLen hdr + len pre + len data + len post) as Hin by (unfold input; rewrite Hpay; len_lia).
  pose proof (len_nonneg pre). pose proof (len_nonneg data). pose proof (len_nonneg post). pose proof (len_nonneg iph).
  pose proof (len_nonneg (t1 ++ [0; 0] ++ t2)).
  assert (Forall is_u8 t2 /\ Forall is_u8 data) as [Hb2 Hbd] by (unfold input in Hb; rewrite Hpay, !Forall_app in Hb; tauto).
  assert (len iph' = len iph) as Hli by (unfold len; lia).
  assert (length iph' + (length t1' + (length csum + length t2)) = Z.to_nat (hdrLen hdr))%nat as Hhn by (rewrite Hhl; len_lia).
  exists (iph' ++ t1' ++ csum ++ t2 ++ data).
  assert (len (iph' ++ t1' ++ csum ++ t2 ++ data) = hdrLen hdr + len data) as Hlp by len_lia.
  split; [unfold dataEnd, dataAt; rewrite Hw; do 2 f_equal; f_equal; rewrite <- Hlp; unfold len; by rewrite Nat2Z.id|].
  assert (len (t1' ++ csum ++ t2 ++ data) = len (t1 ++ [0; 0] ++ t2 ++ data)) as Hseg by len_lia.
  assert (is_u16 (len (t1 ++ [0; 0] ++ t2 ++ data))) as Hsu by (unfold is_u16; autorewrite with size in *; pose proof (len_nonneg t1); pose proof (len_nonneg t2); lia).
  split.
  - rewrite <- Hhn, !app_assoc. apply drop_app_length'. len_lia.
  - done.
  - rewrite Hst, <- Hli. eapply checksumValid_intro.
    + rewrite <- Hs0. destruct isV6; (eapply slice_drop; [apply Hf|done|unfold ipv6SrcAddrOffset, ipv4SrcAddrOffset; lia]).
    + rewrite <- Hd0. destruct isV6; (eapply slice_drop; [apply Hf|done|unfold ipv6SrcAddrOffset, ipv4SrcAddrOffset; lia]).
    + unfold is_u16 in Hsu. lia.
    + rewrite Hseg, Ec. eapply checksum_complement; [|rewrite !Forall_app; split_and!; [done|by repeat apply Forall_cons_2|done|done]| |exact Hx].
      * apply pseudoHeader_sums; [by destruct (isTCP hdr)|done..].
      * rewrite Hl1, Ht1. destruct (isTCP hdr); [by exists 8%nat|by exists 3%nat].
  - rewrite Hlp, Hst. destruct isV6.
    + destruct Hf as (_ & Hg16). rewrite (get16_app_l _ _ _ _ Hg16). f_equal. apply u16_small. width_lia.
    + destruct Hf as (_ & Hg16 & Hr). rewrite (get16_app_l _ _ _ _ Hg16). split; [f_equal; apply u16_small; width_lia|].
      replace (Z.to_nat (len iph)) with (length iph') by (unfold len; lia). by rewrite take_app_length.
  - replace (Z.to_nat (csumStart hdr)) with (length iph') by (rewrite Hst; unfold len; lia). rewrite take_app_length. unfold input.
    rewrite Hl', take_app_length. by destruct isV6; apply Hf.
  - apply transport_read; try done; lia.
Qed.

(** ** The whole split *)

(** Packet [j] as the device reads it: [bufs[j][offset:offset+sizes[j]]]. *)
Definition packetAt (bufs : list (list Z)) (sizes : list Z) (offset : Z) (j : nat) : option (list Z) :=
  buf ← bufs !! j; n ← sizes !! j; slice buf offset (offset + n).

(** The segments from round [i] on: packets, sizes and buffers agree and every packet
    carries its piece of the payload; the last one is marked when the payload [fits]. *)
Definition segmentsFrom (seq : Z) (fits : bool) (i : nat) (offset : Z) (bufs bufs' : list (list Z)) (sizes' : list Z) (datas pkts : list (list Z)) : Prop :=
  length datas = length pkts /\ length bufs' = length bufs /\
  forall j pkt, pkts !! j = Some pkt -> exists buf buf' data,
    bufs !! j = Some buf /\ bufs' !! j = Some buf' /\ datas !! j = Some data /\
    length buf' = length buf /\ take (Z.to_nat offset) buf' = take (Z.to_nat offset) buf /\
    sizes' !! (i + j)%nat = Some (len pkt) /\ slice buf' offset (offset + len pkt) = Some pkt /\
    segmentOk be input hdr isV6 seq (Z.of_nat (i + j)) (fits && bool_decide (S j = length pkts)) data pkt.

Context (Hg : 0 < gsoSize hdr).

Lemma splitLoop_done seq offset i bufs sizes : 0 <= i -> len payload <= gsoSize hdr * i ->
  splitLoop be input hdr isV6 seq offset i (hdrLen hdr + gsoSize hdr * i) bufs sizes = Some (bufs, sizes, (i, None)).
Proof.
  intros Hi Hl. destruct Hok as [_ _ _ _ _ Hhl _ _]. assert (len input = hdrLen hdr + len payload) as Hin by (unfold input; len_lia).
  destruct bufs; cbn [splitLoop]; by rewrite (proj2 (Z.ltb_ge _ (len input))) by lia.
Qed.

Lemma buffer_written (buf pkt : list Z) offset : 0 <= offset -> offset + len pkt <= len buf ->
  let buf' := take (Z.to_nat offset) buf ++ pkt ++ drop (length pkt) (drop (Z.to_nat offset) buf) in
  length buf' = length buf /\ take (Z.to_nat offset) buf' = take (Z.to_nat offset) buf /\ slice buf' offset (offset + len pkt) = Some pkt.
Proof.
  intros Ho Hl buf'. assert (length (take (Z.to_nat offset) buf) = Z.to_nat offset) as Ht by (rewrite length_take; unfold len in Hl; lia).
  unfold buf'. split_and!; [len_lia|by rewrite take_app_length'|].
  replace offset with (len (take (Z.to_nat offset) buf)) at 3 4 by (unfold len; lia). by apply slice_mid.
Qed.

(** The packets of the first round and of the others. *)
Lemma segmentsFrom_cons seq fits i offset buf buf' bufs bufs' sizes' data datas pkt pkts :
  length buf' = length buf -> take (Z.to_nat offset) buf' = take (Z.to_nat offset) buf ->
  slice buf' offset (offset + len pkt) = Some pkt -> sizes' !! i = Some (len pkt) ->
  segmentOk be input hdr isV6 seq (Z.of_nat i) (fits && bool_decide (pkts = [])) data pkt ->
  segmentsFrom seq fits (S i) offset bufs bufs' sizes' datas pkts ->
  segmentsFrom seq fits i offset (buf :: bufs) (buf' :: bufs') sizes' (data :: datas) (pkt :: pkts).
Proof.
  intros Hbl Hbt Hbs Hsz Hseg (Hn1 & Hn2 & Hall). split_and!; [simpl; congruence..|]. intros [|j] p Hp; cbn in Hp.
  - injection Hp as <-. exists buf, buf', data. rewrite Nat.add_0_r. split_and!; try done.
    replace (bool_decide (1%nat = _)) with (bool_decide (pkts = [])); [done|]. apply bool_decide_ext. destruct pkts; simpl; split; done || lia.
  - destruct (Hall j p Hp) as (b & b' & d & ? & ? & ? & ? & ? & ? & ? & Hso). exists b, b', d.
    replace (i + S j)%nat with (S i + j)%nat by lia. split_and!; try done.
    replace (bool_decide (S (S j) = _)) with (bool_decide (S j = length pkts)); [done|]. apply bool_decide_ext. simpl. lia.
Qed.

(** A round with a buffer left: the next piece of the payload becomes a segment. *)
Lemma splitLoop_round seq offset buf bufs (i : nat) sizes :
  0 <= offset -> offset + hdrLen hdr + gsoSize hdr <= len buf -> (i < length sizes)%nat ->
  gsoSize hdr * Z.of_nat i < len payload ->
  let rest := drop (Z.to_nat (gsoSize hdr * Z.of_nat i)) payload in
  let data := take (Z.to_nat (gsoSize hdr)) rest in
  exists pkt buf', segmentOk be input hdr isV6 seq (Z.of_nat i) (bool_decide (drop (Z.to_nat (gsoSize hdr)) rest = [])) data pkt /\
    1 <= len data <= gsoSize hdr /\
    length buf' = length buf /\ take (Z.to_nat offset) buf' = take (Z.to_nat offset) buf /\ slice buf' offset (offset + len pkt) = Some pkt /\
    splitLoop be input hdr isV6 seq offset (Z.of_nat i) (hdrLen hdr + gsoSize hdr * Z.of_nat i) (buf :: bufs) sizes =
      ('(bufs', sizes', r) ← splitLoop be input hdr isV6 seq offset (Z.of_nat (S i)) (hdrLen hdr + gsoSize hdr * Z.of_nat (S i)) bufs (<[i := len pkt]> sizes);
       Some (buf' :: bufs', sizes', r)).
Proof.
  intros Ho Hbuf Hs Hd rest data. set (g := gsoSize hdr) in *. set (k := Z.to_nat (g * Z.of_nat i)) in *.
  set (pre := take k payload). set (post := drop (Z.to_nat g) rest).
  assert (payload = pre ++ data ++ post) as Hpay by (unfold pre, data, post, rest; by rewrite !take_drop).
  assert (len pre = g * Z.of_nat i) as Hpre by (unfold pre, len; rewrite length_take; unfold len in Hd; lia).
  assert (len data = Z.min g (len payload - g * Z.of_nat i)) as Hdata by (unfold data, rest, len; rewrite length_take, length_drop; unfold len in Hd; lia).
  assert (len input = hdrLen hdr + len payload) as Hin by (destruct Hok as [_ _ _ _ _ Hhl _ _]; unfold input; len_lia).
  assert (0 <= hdrLen hdr) as Hh0 by (destruct Hok as [_ _ _ _ _ Hhl _ _]; unfold len in Hhl; lia).
  destruct (writeSegment_ok pre data post (drop (Z.to_nat offset) buf) (Z.of_nat i) seq Hpay ltac:(lia) Hg) as (pkt & Hw & Hseg);
    [fold g; lia|unfold len; rewrite length_drop; unfold len in *; lia|].
  assert (len pkt = hdrLen hdr + len data) as Hlp by apply Hseg.
  destruct (buffer_written buf pkt offset Ho ltac:(lia)) as (Hbl & Hbt & Hbs).
  eexists pkt, _. split; [|split_and!; [lia|lia|exact Hbl|exact Hbt|exact Hbs|]].
  - replace (bool_decide _) with (hdrLen hdr + len pre + len data =? len input); [done|].
    assert (len payload = len pre + len data + len post) as Hlen by (rewrite Hpay at 1; size_lia).
    destruct (Z.eqb_spec (hdrLen hdr + len pre + len data) (len input)) as [E|E]; symmetry; [apply bool_decide_eq_true|apply bool_decide_eq_false];
      unfold len in *; destruct post; simpl in *; done || lia.
  - cbn [splitLoop]. fold g. rewrite (proj2 (Z.ltb_lt _ (len input))) by lia.
    replace (if len input <? _ then _ else _) with (hdrLen hdr + len pre + len data) by (destruct (Z.ltb_spec (len input) (hdrLen hdr + g * Z.of_nat i + g)); lia).
    rewrite set_at_Some by (unfold len; lia). rewrite Nat2Z.id. cbn [mbind option_bind].
    rewrite slice_suffix by lia. cbn [mbind option_bind]. rewrite <- Hpre, Hw. cbn [mbind option_bind].
    replace (hdrLen hdr + (hdrLen hdr + len pre + len data - (hdrLen hdr + len pre))) with (len pkt) by lia.
    replace (hdrLen hdr + len pre + g) with (hdrLen hdr + g * Z.of_nat (S i)) by lia. by replace (Z.of_nat i + 1) with (Z.of_nat (S i)) by lia.
Qed.

(** The last piece is the one after which nothing is left. *)
Lemma last_piece g n (rest : list Z) datas (pkts : list (list Z)) : 0 < g -> 0 <= n ->
  concat datas = take (Z.to_nat (g * n)) (drop (Z.to_nat g) rest) ->
  Forall (fun d : list Z => 1 <= len d <= g) datas -> length datas = length pkts ->
  bool_decide (drop (Z.to_nat g) rest = []) = (len rest <=? g * (1 + n)) && bool_decide (pkts = []).
Proof.
  intros Hg0 Hn Hcat Hds Hl. destruct (Z.leb_spec (len rest) (g * (1 + n))) as [Hf|Hf]; cbn [andb].
  - rewrite take_ge in Hcat by (rewrite length_drop; unfold len in Hf; lia). apply bool_decide_ext. rewrite <- Hcat.
    destruct Hds as [|d ds Hd1 _], pkts as [|q qs]; try done. split; [|done]. intros [Hnil _]%app_eq_nil. subst d. rewrite len_nil in Hd1. lia.
  - apply bool_decide_eq_false. intros Hnil%(f_equal length). rewrite length_drop in Hnil. simpl in Hnil. unfold len in Hf. nia.
Qed.

Lemma splitLoop_ok seq offset bufs : 0 <= offset ->
  Forall (fun b => offset + hdrLen hdr + gsoSize hdr <= len b) bufs ->
  forall (i : nat) sizes, (i + length bufs <= length sizes)%nat ->
  let rest := drop (Z.to_nat (gsoSize hdr * Z.of_nat i)) payload in
  let fits := len payload <=? gsoSize hdr * (Z.of_nat i + len bufs) in
  exists bufs' sizes' datas pkts,
    splitLoop be input hdr isV6 seq offset (Z.of_nat i) (hdrLen hdr + gsoSize hdr * Z.of_nat i) bufs sizes =
      Some (bufs', sizes', if fits then (Z.of_nat i + len pkts, None) else (Z.of_nat i + len bufs - 1, Some ErrTooManySegments)) /\
    concat datas = take (Z.to_nat (gsoSize hdr * len bufs)) rest /\
    (fits = false -> length pkts = length bufs) /\
    Forall (fun d => 1 <= len d <= gsoSize hdr) datas /\
    length sizes' = length sizes /\ take i sizes' = take i sizes /\
    segmentsFrom seq fits i offset bufs bufs' sizes' datas pkts.
Proof.
  intros Ho Hb. induction Hb as [|buf bufs Hbuf Hb IH]; intros i sizes Hs rest fits;
    (destruct (decide (len payload <= gsoSize hdr * Z.of_nat i)) as [Hd|Hd]).
  1, 3: assert (fits = true) as -> by (apply Z.leb_le; apply Z.le_trans with (1 := Hd), Z.mul_le_mono_nonneg_l; unfold len; lia);
    eexists _, sizes, [], []; rewrite splitLoop_done by lia; rewrite len_nil, Z.add_0_r;
    split_and!; [done|unfold rest; by rewrite drop_ge, take_nil by (unfold len in Hd; lia)|done|by apply Forall_nil|done..].
  { assert (fits = false) as -> by (apply Z.leb_gt; rewrite len_nil; lia). exists [], sizes, [], []. destruct Hok as [_ _ _ _ _ Hhl _ _].
    assert (len input = hdrLen hdr + len payload) as Hin by (unfold input; len_lia).
    cbn [splitLoop]. rewrite (proj2 (Z.ltb_lt _ (len input))) by lia. rewrite len_nil, Z.add_0_r, Z.mul_0_r.
    split_and!; try done. }
  cbn [length] in Hs.
  destruct (splitLoop_round seq offset buf bufs i sizes Ho Hbuf) as (pkt & buf' & Hseg & Hdl & Hbl & Hbt & Hbs & Hround); [lia|lia|].
  destruct (IH (S i) (<[i := len pkt]> sizes)) as (bufs' & sizes' & datas & pkts & Hrun & Hcat & Hnf & Hds & Hsl & Hst & Hfrom); [rewrite length_insert; lia|].
  rewrite Hround, Hrun. cbn [mbind option_bind]. clear Hround Hrun.
  replace (len payload <=? gsoSize hdr * (Z.of_nat (S i) + len bufs)) with fits in * by (unfold fits; rewrite len_cons; f_equal; lia).
  replace (Z.to_nat (gsoSize hdr * Z.of_nat (S i))) with (Z.to_nat (gsoSize hdr * Z.of_nat i) + Z.to_nat (gsoSize hdr))%nat in Hcat by lia.
  rewrite <- drop_drop in Hcat. fold rest in Hcat, Hseg, Hdl.
  exists (buf' :: bufs'), sizes', (take (Z.to_nat (gsoSize hdr)) rest :: datas), (pkt :: pkts). split_and!.
  - rewrite !len_cons. do 2 f_equal. destruct fits; f_equal; lia.
  - cbn [concat]. rewrite Hcat, take_take_drop, len_cons. f_equal. pose proof (len_nonneg bufs). nia.
  - intros Hf. simpl. by rewrite Hnf.
  - by constructor.
  - by rewrite Hsl, length_insert.
  - apply (f_equal (take i)) in Hst. rewrite !take_take, !Nat.min_l in Hst by lia. by rewrite Hst, take_insert_ge by lia.
  - apply segmentsFrom_cons; try done.
    + rewrite <- (lookup_take_lt sizes' (S i)) by lia. rewrite Hst, lookup_take_lt by lia. apply list_lookup_insert_eq. lia.
    + destruct Hfrom as (Hn & _). rewrite (last_piece _ (len bufs) rest datas pkts) in Hseg by (done || apply len_nonneg).
      replace fits with (len rest <=? gsoSize hdr * (1 + len bufs)); [done|]. unfold fits, rest. rewrite len_cons. unfold len at 1. rewrite length_drop.
      apply eq_true_iff_eq. rewrite !Z.leb_le. unfold len in *. lia.
Qed.
End Segment.

(** What the kernel promises of a large packet and its virtio header, with the header
    length recomputed as [handleVirtioRead] does: the transport header starts where the
    checksum does, after an IP header, the checksum field is that of TCP or UDP. *)
Record splitOk (in_ : list Z) (hdr : virtioNetHdr) (isV6 : bool) : Prop := {
  sp_bytes : Forall is_u8 in_;
  sp_len : len in_ <= 65535;
  sp_start : (if isV6 then 40 else 20) <= csumStart hdr;
  sp_hdrLen : csumStart hdr + (if isTCP hdr then 20 else 8) <= hdrLen hdr <= len in_;
  sp_offset : csumOffset hdr = if isTCP hdr then 16 else 6;
  sp_gso : 0 < gsoSize hdr
}.

(** Clearing two bytes in the middle. *)
Lemma set_at_two (p q : list Z) x y off : off = len p ->
  (l ← set_at (p ++ [x; y] ++ q) off 0; set_at l (off + 1) 0) = Some (p ++ [0; 0] ++ q).
Proof.
  intros ->. cbn [app]. rewrite set_at_field by done. cbn [mbind option_bind].
  replace (p ++ 0 :: y :: q) with ((p ++ [0]) ++ y :: q) by (by rewrite <- app_assoc).
  rewrite set_at_field by len_lia. by rewrite <- app_assoc.
Qed.

Lemma clearIP (isV6 : bool) (iph r : list Z) : (if isV6 then 40 else 20) <= len iph -> Forall is_u8 iph ->
  exists iph', (if isV6 then Some (iph ++ r) else l ← set_at (iph ++ r) 10 0; set_at l 11 0) = Some (iph' ++ r) /\
    length iph' = length iph /\ Forall is_u8 iph' /\ (isV6 = false -> take 2 (drop 10 iph') = [0; 0]) /\
    let k := if isV6 then 8%nat else 12%nat in drop k iph' = drop k iph.
Proof.
  intros Hl Hb. destruct isV6; [by exists iph|].
  destruct (cut_field iph 10 2) as (p & m & q & -> & Hp & Hm & Hq); [unfold len in Hl; lia|].
  destruct m as [|x [|y []]]; try done. exists (p ++ [0; 0] ++ q). split_and!.
  - rewrite <- !app_assoc. apply (set_at_two p (q ++ r) x y 10). unfold len. lia.
  - len_lia.
  - rewrite !Forall_app in *. split_and!; try tauto. by repeat apply Forall_cons_2.
  - intros _. rewrite drop_app_length' by done. done.
  - cbv zeta. rewrite !(app_assoc p). rewrite !drop_app_length' by len_lia. done.
Qed.

(** Clearing the recomputed fields gives an input of the loop and changes nothing else. *)
Lemma clearFields_spec in_ hdr isV6 : splitOk in_ hdr isV6 ->
  exists iph t1 t2 payload, clearFields in_ hdr isV6 = Some (input iph t1 t2 payload) /\
    inputOk hdr isV6 iph t1 t2 payload /\ payload = drop (Z.to_nat (hdrLen hdr)) in_ /\
    (let k := if isV6 then 8%nat else 12%nat in
     drop k (take (Z.to_nat (csumStart hdr)) (input iph t1 t2 payload)) = drop k (take (Z.to_nat (csumStart hdr)) in_)) /\
    (isTCP hdr = true -> at_ (input iph t1 t2 payload) (csumStart hdr + tcpFlagsOffset) = at_ in_ (csumStart hdr + tcpFlagsOffset) /\
      get32 (input iph t1 t2 payload) (csumStart hdr + 4) = get32 in_ (csumStart hdr + 4)).
Proof.
  intros [Hb Hl Hst Hh Ho Hg]. assert (20 <= csumStart hdr) as Hst' by (destruct isV6; lia).
  assert (csumStart hdr + 8 <= hdrLen hdr <= len in_) as Hh' by (destruct (isTCP hdr); lia).
  destruct (cut in_ (Z.to_nat (csumStart hdr))) as (iph0 & r & -> & Hi & _); [unfold len in Hl, Hh; destruct isV6, (isTCP hdr); lia|].
  destruct (cut r (Z.to_nat (hdrLen hdr - csumStart hdr))) as (th & payload & -> & Hth & _); [len_lia|].
  destruct (cut_field th (Z.to_nat (csumOffset hdr)) 2) as (t1 & c & t2 & -> & Ht1 & Hc & _); [destruct (isTCP hdr); lia|].
  destruct c as [|x [|y []]]; try done. rewrite !Forall_app in Hb.
  assert (csumStart hdr = len iph0) as Hcs by (unfold len; destruct isV6; lia).
  assert (csumOffset hdr = len t1) as Hco by (unfold len; destruct (isTCP hdr); lia).
  destruct (clearIP isV6 iph0 ((t1 ++ [x; y] ++ t2) ++ payload)) as (iph & Hclear & Hil & Hib & Hiz & Hid); [lia|tauto|].
  assert (len iph = len iph0) as Hlen by (unfold len; lia).
  exists iph, t1, t2, payload. split_and!.
  - unfold clearFields. rewrite Hclear. cbn [mbind option_bind].
    rewrite u16_small by (pose proof (len_nonneg t1); pose proof (len_nonneg iph0); autorewrite with size in *; pose proof (len_nonneg t2); pose proof (len_nonneg payload); width_lia).
    replace (iph ++ (t1 ++ [x; y] ++ t2) ++ payload) with ((iph ++ t1) ++ [x; y] ++ (t2 ++ payload)) by (by rewrite <- !app_assoc).
    rewrite set_at_two by (autorewrite with size; lia). unfold input. by rewrite <- !app_assoc.
  - split; try done; try lia.
    + unfold input. rewrite !Forall_app. split_and!; try tauto. by repeat apply Forall_cons_2.
    + unfold input. autorewrite with size in *. lia.
    + unfold len in *. autorewrite with len in *. simpl length in *. destruct (isTCP hdr); lia.
    + destruct (isTCP hdr); lia.
  - rewrite app_assoc, drop_app_length'; [done|]. unfold len in *. autorewrite with len in *. simpl length in *. destruct (isTCP hdr); lia.
  - cbv zeta in *. unfold input. rewrite !take_app_length' by lia. done.
  - intros Htcp. rewrite Htcp in *. unfold input, tcpFlagsOffset. rewrite Hcs. rewrite <- Hlen at 1 3. rewrite !at_shift, !get32_shift by lia.
    split.
    + by rewrite !(at_app_l _ _ 13 (nth 13 t1 0)) by (try apply at_app_l; apply (at_nth t1 13); lia).
    + destruct (cut_field t1 4 4) as (a & b & d & -> & Ha & Hbb & _); [lia|].
      rewrite <- !app_assoc. by rewrite !get32_field by (done || (unfold len; lia)).
Qed.

(** A segment is judged against the original input: what was cleared plays no part. *)
Lemma segmentOk_input (be isV6 last : bool) (in_ in' : list Z) hdr seq seq' i (data pkt : list Z) :
  (let k := if isV6 then 8%nat else 12%nat in
   drop k (take (Z.to_nat (csumStart hdr)) in') = drop k (take (Z.to_nat (csumStart hdr)) in_)) ->
  (isTCP hdr = true -> at_ in' (csumStart hdr + tcpFlagsOffset) = at_ in_ (csumStart hdr + tcpFlagsOffset) /\ seq = seq') ->
  segmentOk be in' hdr isV6 seq i last data pkt -> segmentOk be in_ hdr isV6 seq' i last data pkt.
Proof.
  intros Ha Ht [H1 H2 H3 H4 H5 H6]. split; try done; [cbv zeta in *; by rewrite H5|].
  destruct (isTCP hdr); [|done]. destruct (Ht eq_refl) as [Hf ->]. by rewrite <- Hf.
Qed.

(** The sequence number of a TCP packet. *)
Definition tcpSeqOf (in_ : list Z) (hdr : virtioNetHdr) : Z := default 0 (get32 in_ (csumStart hdr + 4)).

Lemma gsoSplit_run (be isV6 : bool) (in_ : list Z) (hdr : virtioNetHdr) (bufs : list (list Z)) (sizes : list Z) (offset : Z) :
  splitOk in_ hdr isV6 -> 0 <= offset ->
  Forall (fun b => offset + hdrLen hdr + gsoSize hdr <= len b) bufs -> (length bufs <= length sizes)%nat ->
  let fits := len in_ - hdrLen hdr <=? gsoSize hdr * len bufs in
  exists in' bufs' sizes' datas pkts,
    gsoSplit be in_ hdr bufs sizes offset isV6 =
      Some (in', bufs', sizes', if fits then (len pkts, None) else (len bufs - 1, Some ErrTooManySegments)) /\
    concat datas = take (Z.to_nat (gsoSize hdr * len bufs)) (drop (Z.to_nat (hdrLen hdr)) in_) /\
    (fits = false -> length pkts = length bufs) /\
    Forall (fun d => 1 <= len d <= gsoSize hdr) datas /\ length datas = length pkts /\
    forall j pkt, pkts !! j = Some pkt -> packetAt bufs' sizes' offset j = Some pkt /\
      exists data, datas !! j = Some data /\
        segmentOk be in_ hdr isV6 (tcpSeqOf in_ hdr) (Z.of_nat j) (fits && bool_decide (S j = length pkts)) data pkt.
Proof.
  intros Hsp Ho Hbufs Hsz fits. destruct (clearFields_spec _ _ _ Hsp) as (iph & t1 & t2 & payload & Hc & Hin & Hpay & Haddr & Htcp).
  destruct Hsp as [_ Hlen Hst Hh _ Hg]. unfold gsoSplit. rewrite Hc. cbn [mbind option_bind].
  set (seq := if isTCP hdr then tcpSeqOf in_ hdr else 0).
  assert ((if isTCP hdr then get32 (input iph t1 t2 payload) (u16 (csumStart hdr + 4)) else Some 0) = Some seq) as ->.
  { unfold seq. destruct (isTCP hdr) eqn:E; [|done]. rewrite u16_small by (destruct isV6; width_lia).
    destruct (Htcp eq_refl) as [_ Hq]. rewrite Hq. unfold tcpSeqOf, get32. rewrite slice_Some by (destruct isV6; lia). done. }
  cbn [mbind option_bind].
  destruct (splitLoop_ok be hdr isV6 iph t1 t2 payload Hin Hg seq offset bufs Ho Hbufs 0 sizes) as (bufs' & sizes' & datas & pkts & Hrun & Hcat & Hnf & Hds & _ & _ & Hn & _ & Hall); [lia|].
  change (Z.of_nat 0) with 0 in *. rewrite Z.mul_0_r, Z.add_0_r in Hrun. rewrite Z.mul_0_r, drop_0 in Hcat. rewrite !Z.add_0_l in *.
  assert (len payload = len in_ - hdrLen hdr) as Hpl by (rewrite Hpay; unfold len in *; rewrite length_drop; destruct isV6, (isTCP hdr); lia).
  rewrite Hpl in *. fold fits in Hrun, Hnf, Hall. rewrite Hrun. cbn [mbind option_bind].
  exists (input iph t1 t2 payload), bufs', sizes', datas, pkts. split_and!; try done; [by rewrite <- Hpay|].
  intros j pkt Hj. destruct (Hall j pkt Hj) as (buf & buf' & data & _ & Hb' & Hd & _ & _ & Hs & Hsl & Hseg). cbn [Nat.add] in *. split.
  - unfold packetAt. rewrite Hb'. cbn [mbind option_bind]. rewrite Hs. done.
  - exists data. split; [done|]. eapply segmentOk_input; [exact Haddr| |exact Hseg]. intros E. split; [by apply Htcp|unfold seq; by rewrite E].
Qed.

(** C11: segmentation offload is correct: when the pieces of the payload fit the buffers,
    [gsoSplit] reports no error and as many packets as it wrote; the packets carry the
    payload of the input in order, each at most [gsoSize] bytes of it; and every packet
    is a correct datagram of its own: a valid TCP or UDP checksum, the right lengths, a
    valid IPv4 header checksum, the addresses of the input, the sequence number of its
    data (sequence numbers wrap at 32 bits), FIN and PSH on the last one only. *)
Theorem gsoSplit_segments (be isV6 : bool) (in_ : list Z) (hdr : virtioNetHdr) (bufs : list (list Z)) (sizes : list Z) (offset : Z) :
  splitOk in_ hdr isV6 -> 0 <= offset ->
  Forall (fun b => offset + hdrLen hdr + gsoSize hdr <= len b) bufs -> (length bufs <= length sizes)%nat ->
  len in_ - hdrLen hdr <= gsoSize hdr * len bufs ->
  exists in' bufs' sizes' datas pkts,
    gsoSplit be in_ hdr bufs sizes offset isV6 = Some (in', bufs', sizes', (len pkts, None)) /\
    concat datas = drop (Z.to_nat (hdrLen hdr)) in_ /\
    Forall (fun d => 1 <= len d <= gsoSize hdr) datas /\ length datas = length pkts /\
    forall j pkt, pkts !! j = Some pkt -> packetAt bufs' sizes' offset j = Some pkt /\
      exists data, datas !! j = Some data /\
        segmentOk be in_ hdr isV6 (tcpSeqOf in_ hdr) (Z.of_nat j) (bool_decide (S j = length pkts)) data pkt.
Proof.
  intros Hsp Ho Hb Hs Hfit. destruct (gsoSplit_run be isV6 in_ hdr bufs sizes offset Hsp Ho Hb Hs) as (in' & bufs' & sizes' & datas & pkts & Hrun & Hcat & _ & Hds & Hn & Hall).
  rewrite (proj2 (Z.leb_le _ _) Hfit) in *. exists in', bufs', sizes', datas, pkts. split_and!; try done.
  rewrite Hcat. apply take_ge. rewrite length_drop. unfold len in *. lia.
Qed.

(** Too many segments: when the payload does not fit, every buffer is filled with a
    correct segment, the error is reported, and the number returned is one less than the
    number of buffers populated. *)
Theorem gsoSplit_too_many (be isV6 : bool) (in_ : list Z) (hdr : virtioNetHdr) (bufs : list (list Z)) (sizes : list Z) (offset : Z) :
  splitOk in_ hdr isV6 -> 0 <= offset ->
  Forall (fun b => offset + hdrLen hdr + gsoSize hdr <= len b) bufs -> (length bufs <= length sizes)%nat ->
  gsoSize hdr * len bufs < len in_ - hdrLen hdr ->
  exists in' bufs' sizes' pkts,
    gsoSplit be in_ hdr bufs sizes offset isV6 = Some (in', bufs', sizes', (len bufs - 1, Some ErrTooManySegments)) /\
    length pkts = length bufs /\
    forall j pkt, pkts !! j = Some pkt -> packetAt bufs' sizes' offset j = Some pkt /\
      exists data, segmentOk be in_ hdr isV6 (tcpSeqOf in_ hdr) (Z.of_nat j) false data pkt.
Proof.
  intros Hsp Ho Hb Hs Hfit. destruct (gsoSplit_run be isV6 in_ hdr bufs sizes offset Hsp Ho Hb Hs) as (in' & bufs' & sizes' & datas & pkts & Hrun & _ & Hnf & _ & _ & Hall).
  rewrite (proj2 (Z.leb_gt _ _) Hfit) in *. exists in', bufs', sizes', pkts. split_and!; [done|by apply Hnf|].
  intros j pkt Hj. destruct (Hall j pkt Hj) as (Hp & data & _ & Hd). eauto.
Qed.

(** ** Sample packets *)

Definition sampleTCP : list Z :=
  [69; 0; 0; 45; 18; 52; 64; 0; 64; 6; 0; 0; 10; 0; 0; 1; 10; 0; 0; 2] ++
  [4; 210; 0; 80; 255; 255; 255; 254; 0; 0; 0; 9; 80; 24; 1; 0; 7; 7; 0; 0] ++ [1; 2; 3; 4; 5].
Definition sampleHdr : virtioNetHdr :=
  {| flags := 1; gsoType := GSO_TCPV4; hdrLen := 40; gsoSize := 2; csumStart := 20; csumOffset := 16 |}.
Definition sampleBufs (n : nat) : list (list Z) := replicate n (replicate 64 0).

Lemma sampleTCP_ok : splitOk sampleTCP sampleHdr false.
Proof.
  split; [|done..]. apply (bool_decide_unpack (Forall is_u8 sampleTCP)). by vm_compute.
Qed.

Lemma sampleBufs_ok n : Forall (fun b : list Z => 4 + hdrLen sampleHdr + gsoSize sampleHdr <= len b) (sampleBufs n).
Proof. apply Forall_replicate. done. Qed.

(** Sequence numbers wrap in the sample; PSH and ACK become ACK on all but the last packet. *)
Example sample_split :
  (fun r => match r with Some (_, bufs, sizes, r) => (r, (fun j => (fun p => (get32 p 24, at_ p 33, drop 40 p)) <$> packetAt bufs sizes 4 j) <$> seq 0 3) | None => ((0, None), []) end)
    (gsoSplit false sampleTCP sampleHdr (sampleBufs 3) [0; 0; 0] 4 false) =
  ((3, None), [Some (Some 4294967294, Some 16, [1; 2]); Some (Some 0, Some 16, [3; 4]); Some (Some 2, Some 24, [5])]).
Proof. by vm_compute. Qed.

Lemma gsoSplit_segments_witness : exists in' bufs' sizes' pkts,
  gsoSplit false sampleTCP sampleHdr (sampleBufs 3) [0; 0; 0] 4 false = Some (in', bufs', sizes', (len pkts, None)) /\
  forall j pkt, pkts !! j = Some pkt -> packetAt bufs' sizes' 4 j = Some pkt.
Proof.
  destruct (gsoSplit_segments false false sampleTCP sampleHdr (sampleBufs 3) [0; 0; 0] 4) as (in' & bufs' & sizes' & datas & pkts & Hr & _ & _ & _ & Ha);
    [exact sampleTCP_ok|lia|exact (sampleBufs_ok 3)|simpl; lia|by vm_compute|].
  exists in', bufs', sizes', pkts. split; [exact Hr|]. intros j pkt Hj. exact (proj1 (Ha j pkt Hj)).
Defined.

Lemma gsoSplit_too_many_witness : exists in' bufs' sizes' pkts,
  gsoSplit true sampleTCP sampleHdr (sampleBufs 2) [0; 0] 4 false = Some (in', bufs', sizes', (1, Some ErrTooManySegments)) /\
  length pkts = 2%nat /\ forall j pkt, pkts !! j = Some pkt -> packetAt bufs' sizes' 4 j = Some pkt.
Proof.
  destruct (gsoSplit_too_many true false sampleTCP sampleHdr (sampleBufs 2) [0; 0] 4) as (in' & bufs' & sizes' & pkts & Hr & Hl & Ha);
    [exact sampleTCP_ok|lia|exact (sampleBufs_ok 2)|simpl; lia|by vm_compute|].
  exists in', bufs', sizes', pkts. split_and!; [exact Hr|exact Hl|]. intros j pkt Hj. exact (proj1 (Ha j pkt Hj)).
Defined.

(** A UDP packet over IPv4 whose checksum field holds the sum of its pseudo header. *)
Definition sampleIPH : list Z := [69; 0; 0; 31; 0; 0; 64; 0; 64; 17; 0; 0; 10; 0; 0; 1; 10; 0; 0; 2].
Lemma gsoNoneChecksum_completes_witness : exists field',
  gsoNoneChecksum false (sampleIPH ++ [4; 210; 0; 53; 0; 11] ++ [20; 31] ++ [1; 2; 3]) 20 6 = Some (sampleIPH ++ [4; 210; 0; 53; 0; 11] ++ field' ++ [1; 2; 3]) /\
  checksumValid false (sampleIPH ++ [4; 210; 0; 53; 0; 11] ++ field' ++ [1; 2; 3]) 20 17 false = Some true.
Proof.
  destruct (gsoNoneChecksum_completes false false sampleIPH [4; 210; 0; 53; 0; 11] [20; 31] [1; 2; 3] [10; 0; 0; 1] [10; 0; 0; 2] 17) as (f & _ & H1 & H2);
    [|by vm_compute|done|done|by exists 3%nat|by vm_compute|by vm_compute|by vm_compute|exists f; split; [exact H1|exact H2]].
  apply (bool_decide_unpack (Forall is_u8 (sampleIPH ++ [4; 210; 0; 53; 0; 11] ++ [20; 31] ++ [1; 2; 3]))). by vm_compute.
Defined.

(** A UDP checksum that computes to zero is sent as zero, which stands for "no checksum"
    and is not allowed over IPv6 (RFC 768 sends all ones instead): here the payload
    brings the sum to all ones. *)
Definition sampleIPH6 : list Z := [96; 0; 0; 0; 0; 10; 17; 64] ++ replicate 15 0 ++ [1] ++ replicate 15 0 ++ [2].
Example udp_zero_checksum :
  gsoNoneChecksum false (sampleIPH6 ++ [3; 232; 0; 53; 0; 10; 0; 30; 251; 186]) 40 6 =
    Some (sampleIPH6 ++ [3; 232; 0; 53; 0; 10; 0; 0; 251; 186]).
Proof. by vm_compute. Qed.

(** The header length of the kernel is not trusted: it plays no part in the result. *)
Lemma virtio_hdrLen_ignored be v n pkt bufs sizes offset : hdr_ok v -> is_u16 n ->
  handleVirtioRead be (hdrBytes be v ++ pkt) bufs sizes offset = handleVirtioRead be (hdrBytes be (setHdrLen v n) ++ pkt) bufs sizes offset.
Proof.
  intros Hv Hn. assert (forall w, hdr_ok w -> decode be (hdrBytes be w ++ pkt) = Ok w /\ slice (hdrBytes be w ++ pkt) virtioNetHdrLen (len (hdrBytes be w ++ pkt)) = Some pkt) as Hd.
  { intros w Hw. pose proof Hw as (_ & _ & H1 & H2 & H3 & H4).
    assert (length (hdrBytes be w) = 10%nat) as Hl.
    { unfold hdrBytes. destruct (native16_spec be _ H1), (native16_spec be _ H2), (native16_spec be _ H3), (native16_spec be _ H4). autorewrite with len. simpl. lia. }
    split; [|unfold virtioNetHdrLen; replace 10 with (len (hdrBytes be w)) by (unfold len; lia); by apply slice_tail].
    apply (virtio_roundtrip be w (replicate 10 0 ++ pkt)); [done|]. unfold encode, virtioNetHdrLen.
    rewrite (proj2 (Z.ltb_ge _ _)) by len_lia. rewrite inserts_0 by len_lia. rewrite Hl, drop_app_length'; [done|]. by rewrite length_replicate. }
  assert (hdr_ok (setHdrLen v n)) as Hv' by (unfold hdr_ok in *; simpl; tauto).
  unfold handleVirtioRead. destruct (Hd v Hv) as [-> ->], (Hd _ Hv') as [-> ->]. done.
Qed.
