(* ===== verification/Gro.v ===== *)
(** * Gro: coalescing of received packets before they are written to the TUN device

    src/tun/offload_linux.go: the flow tables, the decisions whether two packets may be
    merged, the merging in place, and handleGRO over a batch. A buffer is its bytes and
    its capacity; packets start at an offset that leaves room for the virtio header.
    The items of a flow come from a pool of slices, modelled by their number; [None] is
    a run-time panic. The order in which a map is visited is an argument. *)
From S2P Require Import Prelude Checksum Gso.
#[local] Open Scope Z_scope.

Record Buf : Type := { dat : list Z; bcap : Z }.

(** [b[off:]] *)
Definition tailOf (b : Buf) (off : Z) : option (list Z) := slice (dat b) off (len (dat b)).

(** ** Flow tables *)

Record tcpFlowKey : Type := {
  tk_srcAddr : list Z; tk_dstAddr : list Z; tk_srcPort : Z; tk_dstPort : Z; tk_rxAck : Z; tk_isV6 : bool }.
Record udpFlowKey : Type := {
  uk_srcAddr : list Z; uk_dstAddr : list Z; uk_srcPort : Z; uk_dstPort : Z; uk_isV6 : bool }.

#[export] Instance tcpFlowKey_eq : EqDecision tcpFlowKey.
Proof. solve_decision. Defined.
#[export] Instance udpFlowKey_eq : EqDecision udpFlowKey.
Proof. solve_decision. Defined.
#[export] Instance tcpFlowKey_countable : Countable tcpFlowKey.
Proof.
  apply (inj_countable' (fun k => (tk_srcAddr k, tk_dstAddr k, tk_srcPort k, tk_dstPort k, tk_rxAck k, tk_isV6 k))
    (fun '(a, b, c, d, e, f) => {| tk_srcAddr := a; tk_dstAddr := b; tk_srcPort := c; tk_dstPort := d; tk_rxAck := e; tk_isV6 := f |})).
  by intros [].
Defined.
#[export] Instance udpFlowKey_countable : Countable udpFlowKey.
Proof.
  apply (inj_countable' (fun k => (uk_srcAddr k, uk_dstAddr k, uk_srcPort k, uk_dstPort k, uk_isV6 k))
    (fun '(a, b, c, d, f) => {| uk_srcAddr := a; uk_dstAddr := b; uk_srcPort := c; uk_dstPort := d; uk_isV6 := f |})).
  by intros [].
Defined.

Record tcpGROItem : Type := {
  ti_key : tcpFlowKey; ti_sentSeq : Z; ti_bufsIndex : Z; ti_numMerged : Z; ti_gsoSize : Z;
  ti_iphLen : Z; ti_tcphLen : Z; ti_pshSet : bool }.
Record udpGROItem : Type := {
  ui_key : udpFlowKey; ui_bufsIndex : Z; ui_numMerged : Z; ui_gsoSize : Z; ui_iphLen : Z; ui_cSumKnownInvalid : bool }.

(** A table; the pool holds empty slices, so only their number matters. *)
Record tcpGROTable : Type := { t_itemsByFlow : gmap tcpFlowKey (list tcpGROItem); t_itemsPool : nat }.
Record udpGROTable : Type := { u_itemsByFlow : gmap udpFlowKey (list udpGROItem); u_itemsPool : nat }.

Definition IdealBatchSize : nat := 128.
Definition newTCPGROTable : tcpGROTable := {| t_itemsByFlow := ∅; t_itemsPool := IdealBatchSize |}.
Definition newUDPGROTable : udpGROTable := {| u_itemsByFlow := ∅; u_itemsPool := IdealBatchSize |}.

(** [copy] into a zeroed array of sixteen bytes. *)
Definition addr16 (s : list Z) : list Z := take 16 (s ++ replicate 16 0).

Definition newTCPFlowKey (pkt : list Z) (srcAddrOffset dstAddrOffset tcphOffset : Z) : option tcpFlowKey :=
  let addrSize := dstAddrOffset - srcAddrOffset in
  src ← slice pkt srcAddrOffset dstAddrOffset;
  dst ← slice pkt dstAddrOffset (dstAddrOffset + addrSize);
  srcPort ← get16 pkt tcphOffset;
  dstPort ← get16 pkt (tcphOffset + 2);
  rxAck ← get32 pkt (tcphOffset + 8);
  Some {| tk_srcAddr := addr16 src; tk_dstAddr := addr16 dst; tk_srcPort := srcPort; tk_dstPort := dstPort;
          tk_rxAck := rxAck; tk_isV6 := addrSize =? 16 |}.

Definition newUDPFlowKey (pkt : list Z) (srcAddrOffset dstAddrOffset udphOffset : Z) : option udpFlowKey :=
  let addrSize := dstAddrOffset - srcAddrOffset in
  src ← slice pkt srcAddrOffset dstAddrOffset;
  dst ← slice pkt dstAddrOffset (dstAddrOffset + addrSize);
  srcPort ← get16 pkt udphOffset;
  dstPort ← get16 pkt (udphOffset + 2);
  Some {| uk_srcAddr := addr16 src; uk_dstAddr := addr16 dst; uk_srcPort := srcPort; uk_dstPort := dstPort;
          uk_isV6 := addrSize =? 16 |}.

(** The last slice of the pool; an empty pool panics. *)
Definition t_newItems (t : tcpGROTable) : option (list tcpGROItem * tcpGROTable) :=
  match t_itemsPool t with O => None | S n => Some ([], {| t_itemsByFlow := t_itemsByFlow t; t_itemsPool := n |}) end.
Definition u_newItems (u : udpGROTable) : option (list udpGROItem * udpGROTable) :=
  match u_itemsPool u with O => None | S n => Some ([], {| u_itemsByFlow := u_itemsByFlow u; u_itemsPool := n |}) end.

Definition t_put (t : tcpGROTable) (k : tcpFlowKey) (items : list tcpGROItem) : tcpGROTable :=
  {| t_itemsByFlow := <[k := items]> (t_itemsByFlow t); t_itemsPool := t_itemsPool t |}.
Definition u_put (u : udpGROTable) (k : udpFlowKey) (items : list udpGROItem) : udpGROTable :=
  {| u_itemsByFlow := <[k := items]> (u_itemsByFlow u); u_itemsPool := u_itemsPool u |}.

Definition t_insert (t : tcpGROTable) (pkt : list Z) (srcAddrOffset dstAddrOffset tcphOffset tcphLen bufsIndex : Z) : option tcpGROTable :=
  key ← newTCPFlowKey pkt srcAddrOffset dstAddrOffset tcphOffset;
  payload ← slice pkt (tcphOffset + tcphLen) (len pkt);
  sentSeq ← get32 pkt (tcphOffset + 4);
  fl ← at_ pkt (tcphOffset + tcpFlagsOffset);
  let item := {| ti_key := key; ti_sentSeq := sentSeq; ti_bufsIndex := u16 bufsIndex; ti_numMerged := 0;
                 ti_gsoSize := u16 (len payload); ti_iphLen := u8 tcphOffset; ti_tcphLen := u8 tcphLen;
                 ti_pshSet := negb (Z.land fl tcpFlagPSH =? 0) |} in
  '(items, t) ← match t_itemsByFlow t !! key with Some items => Some (items, t) | None => t_newItems t end;
  Some (t_put t key (items ++ [item])).

Definition u_insert (u : udpGROTable) (pkt : list Z) (srcAddrOffset dstAddrOffset udphOffset bufsIndex : Z) (cSumKnownInvalid : bool) : option udpGROTable :=
  key ← newUDPFlowKey pkt srcAddrOffset dstAddrOffset udphOffset;
  payload ← slice pkt (udphOffset + 8) (len pkt);
  let item := {| ui_key := key; ui_bufsIndex := u16 bufsIndex; ui_numMerged := 0; ui_gsoSize := u16 (len payload);
                 ui_iphLen := u8 udphOffset; ui_cSumKnownInvalid := cSumKnownInvalid |} in
  '(items, u) ← match u_itemsByFlow u !! key with Some items => Some (items, u) | None => u_newItems u end;
  Some (u_put u key (items ++ [item])).

(** The items found, or [None] and the packet inserted. *)
Definition t_lookupOrInsert (t : tcpGROTable) (pkt : list Z) (srcAddrOffset dstAddrOffset tcphOffset tcphLen bufsIndex : Z) :
    option (option (list tcpGROItem) * tcpGROTable) :=
  key ← newTCPFlowKey pkt srcAddrOffset dstAddrOffset tcphOffset;
  match t_itemsByFlow t !! key with
  | Some items => Some (Some items, t)
  | None => t ← t_insert t pkt srcAddrOffset dstAddrOffset tcphOffset tcphLen bufsIndex; Some (None, t)
  end.
Definition u_lookupOrInsert (u : udpGROTable) (pkt : list Z) (srcAddrOffset dstAddrOffset udphOffset bufsIndex : Z) :
    option (option (list udpGROItem) * udpGROTable) :=
  key ← newUDPFlowKey pkt srcAddrOffset dstAddrOffset udphOffset;
  match u_itemsByFlow u !! key with
  | Some items => Some (Some items, u)
  | None => u ← u_insert u pkt srcAddrOffset dstAddrOffset udphOffset bufsIndex false; Some (None, u)
  end.

Definition t_updateAt (t : tcpGROTable) (item : tcpGROItem) (i : Z) : option tcpGROTable :=
  items ← set_at (default [] (t_itemsByFlow t !! ti_key item)) i item; Some (t_put t (ti_key item) items).
Definition u_updateAt (u : udpGROTable) (item : udpGROItem) (i : Z) : option udpGROTable :=
  items ← set_at (default [] (u_itemsByFlow u !! ui_key item)) i item; Some (u_put u (ui_key item) items).

Definition t_deleteAt (t : tcpGROTable) (key : tcpFlowKey) (i : Z) : option tcpGROTable :=
  let items := default [] (t_itemsByFlow t !! key) in
  a ← slice items 0 i; b ← slice items (i + 1) (len items);
  Some (t_put t key (a ++ b)).

Definition t_reset (t : tcpGROTable) : tcpGROTable :=
  {| t_itemsByFlow := ∅; t_itemsPool := (t_itemsPool t + size (t_itemsByFlow t))%nat |}.
Definition u_reset (u : udpGROTable) : udpGROTable :=
  {| u_itemsByFlow := ∅; u_itemsPool := (u_itemsPool u + size (u_itemsByFlow u))%nat |}.

(** ** May two packets be merged? *)

Inductive canCoalesce : Type := coalescePrepend | coalesceUnavailable | coalesceAppend.
#[export] Instance canCoalesce_eq : EqDecision canCoalesce.
Proof. solve_decision. Defined.

Definition ipHeadersCanCoalesce (pktA pktB : list Z) : bool :=
  if (len pktA <? 9) || (len pktB <? 9) then false
  else
    let a i := nth i pktA 0 in
    let b i := nth i pktB 0 in
    if Z.shiftr (a 0%nat) 4 =? 6 then
      if negb (a 0%nat =? b 0%nat) || negb (Z.shiftr (a 1%nat) 4 =? Z.shiftr (b 1%nat) 4) then false
      else if negb (a 7%nat =? b 7%nat) then false else true
    else
      if negb (a 1%nat =? b 1%nat) then false
      else if negb (Z.shiftr (a 6%nat) 5 =? Z.shiftr (b 6%nat) 5) then false
      else if negb (a 8%nat =? b 8%nat) then false else true.

Definition udphLen : Z := 8.

(** [len(l[a:]) % n] *)
Definition tailMod (l : list Z) (a n : Z) : option Z :=
  t ← slice l a (len l); if n =? 0 then None else Some (len t mod n).

Definition udpPacketsCanCoalesce (pkt : list Z) (iphLen gsoSize : Z) (item : udpGROItem) (bufs : list Buf) (bufsOffset : Z) : option canCoalesce :=
  b ← at_ bufs (ui_bufsIndex item);
  pktTarget ← tailOf b bufsOffset;
  if negb (ipHeadersCanCoalesce pkt pktTarget) then Some coalesceUnavailable
  else
    r ← tailMod pktTarget (u8 (iphLen + udphLen)) (ui_gsoSize item);
    if negb (r =? 0) then Some coalesceUnavailable
    else if ui_gsoSize item <? gsoSize then Some coalesceUnavailable
    else Some coalesceAppend.

Definition tcpPacketsCanCoalesce (pkt : list Z) (iphLen tcphLen seq : Z) (pshSet : bool) (gsoSize : Z) (item : tcpGROItem)
    (bufs : list Buf) (bufsOffset : Z) : option canCoalesce :=
  b ← at_ bufs (ti_bufsIndex item);
  pktTarget ← tailOf b bufsOffset;
  if negb (tcphLen =? ti_tcphLen item) then Some coalesceUnavailable
  else
    same ← (if 20 <? tcphLen then
              x ← slice pkt (u8 (iphLen + 20)) (u8 (iphLen + tcphLen));
              y ← slice pktTarget (u8 (ti_iphLen item + 20)) (u8 (iphLen + tcphLen));
              Some (bool_decide (x = y))
            else Some true);
    if negb same then Some coalesceUnavailable
    else if negb (ipHeadersCanCoalesce pkt pktTarget) then Some coalesceUnavailable
    else
      let lhsLen := u16 (ti_gsoSize item + u16 (ti_numMerged item * ti_gsoSize item)) in
      if seq =? u32 (ti_sentSeq item + lhsLen) then
        if ti_pshSet item then Some coalesceUnavailable
        else
          r ← tailMod pktTarget (u8 (iphLen + tcphLen)) (ti_gsoSize item);
          if negb (r =? 0) then Some coalesceUnavailable
          else if ti_gsoSize item <? gsoSize then Some coalesceUnavailable
          else Some coalesceAppend
      else if u32 (seq + gsoSize) =? ti_sentSeq item then
        if pshSet then Some coalesceUnavailable
        else if gsoSize <? ti_gsoSize item then Some coalesceUnavailable
        else if (ti_gsoSize item <? gsoSize) && (0 <? ti_numMerged item) then Some coalesceUnavailable
        else Some coalescePrepend
      else Some coalesceUnavailable.

(** ** Merging *)

Inductive coalesceResult : Type :=
| coalesceInsufficientCap | coalescePSHEnding | coalesceItemInvalidCSum | coalescePktInvalidCSum | coalesceSuccess.
#[export] Instance coalesceResult_eq : EqDecision coalesceResult.
Proof. solve_decision. Defined.

Definition with_dat (b : Buf) (d : list Z) : Buf := {| dat := d; bcap := bcap b |}.

(** [bufs[i] = append(bufs[i], make([]byte, extendBy)...)] followed by a copy of [src] to
    [bufs[i][at:]]; the callers have checked the capacity, so the array stays. *)
Definition extend (b : Buf) (extendBy at' : Z) (src : list Z) : option Buf :=
  if decide (0 <= extendBy) then
    d ← copy_at (dat b ++ replicate (Z.to_nat extendBy) 0) at' src; Some (with_dat b d)
  else None.

Definition u_merged (item : udpGROItem) : udpGROItem :=
  {| ui_key := ui_key item; ui_bufsIndex := ui_bufsIndex item; ui_numMerged := u16 (ui_numMerged item + 1);
     ui_gsoSize := ui_gsoSize item; ui_iphLen := ui_iphLen item; ui_cSumKnownInvalid := ui_cSumKnownInvalid item |}.

(** An item after a merge: [numMerged++] and the largest payload size. *)
Definition t_merged (item : tcpGROItem) (sentSeq gsoSize : Z) (pshSet : bool) : tcpGROItem :=
  {| ti_key := ti_key item; ti_sentSeq := sentSeq; ti_bufsIndex := ti_bufsIndex item; ti_numMerged := u16 (ti_numMerged item + 1);
     ti_gsoSize := if ti_gsoSize item <? gsoSize then gsoSize else ti_gsoSize item;
     ti_iphLen := ti_iphLen item; ti_tcphLen := ti_tcphLen item; ti_pshSet := pshSet |}.

Section Merge.
Context (bigEndian : bool).

(** The result, the item and the buffers as they are left. *)
Definition coalesceUDPPackets (pkt : list Z) (item : udpGROItem) (bufs : list Buf) (bufsOffset : Z) (isV6 : bool) :
    option (coalesceResult * udpGROItem * list Buf) :=
  b ← at_ bufs (ui_bufsIndex item);
  pktHead ← tailOf b bufsOffset;
  let headersLen := u8 (ui_iphLen item + udphLen) in
  let coalescedLen := len pktHead + len pkt - headersLen in
  if bcap b - bufsOffset - bufsOffset <? coalescedLen then Some (coalesceInsufficientCap, item, bufs)
  else
    itemOk ← (if ui_numMerged item =? 0 then
                if ui_cSumKnownInvalid item then Some false
                else checksumValid bigEndian pktHead (ui_iphLen item) IPPROTO_UDP isV6
              else Some true);
    if negb itemOk then Some (coalesceItemInvalidCSum, item, bufs)
    else
      pktOk ← checksumValid bigEndian pkt (ui_iphLen item) IPPROTO_UDP isV6;
      if negb pktOk then Some (coalescePktInvalidCSum, item, bufs)
      else
        payload ← slice pkt headersLen (len pkt);
        b ← extend b (len pkt - headersLen) (bufsOffset + len pktHead) payload;
        bufs ← set_at bufs (ui_bufsIndex item) b;
        Some (coalesceSuccess, u_merged item, bufs).

(** The checks of the checksums: [Some r] is the result to return. *)
Definition tcpCSumCheck (item : tcpGROItem) (itemPkt pkt : list Z) (isV6 : bool) : option (option coalesceResult) :=
  itemOk ← (if ti_numMerged item =? 0 then checksumValid bigEndian itemPkt (ti_iphLen item) IPPROTO_TCP isV6 else Some true);
  if negb itemOk then Some (Some coalesceItemInvalidCSum)
  else
    pktOk ← checksumValid bigEndian pkt (ti_iphLen item) IPPROTO_TCP isV6;
    Some (if negb pktOk then Some coalescePktInvalidCSum else None).

Definition coalesceTCPPackets (mode : canCoalesce) (pkt : list Z) (pktBuffsIndex gsoSize seq : Z) (pshSet : bool)
    (item : tcpGROItem) (bufs : list Buf) (bufsOffset : Z) (isV6 : bool) : option (coalesceResult * tcpGROItem * list Buf) :=
  let headersLen := u8 (ti_iphLen item + ti_tcphLen item) in
  ib ← at_ bufs (ti_bufsIndex item);
  itemPkt ← tailOf ib bufsOffset;
  let coalescedLen := len itemPkt + len pkt - headersLen in
  if decide (mode = coalescePrepend) then
    pb ← at_ bufs pktBuffsIndex;
    if bcap pb - bufsOffset - bufsOffset <? coalescedLen then Some (coalesceInsufficientCap, item, bufs)
    else if pshSet then Some (coalescePSHEnding, item, bufs)
    else
      r ← tcpCSumCheck item itemPkt pkt isV6;
      match r with
      | Some e => Some (e, item, bufs)
      | None =>
          payload ← slice (dat ib) (bufsOffset + headersLen) (len (dat ib));
          pb ← extend pb (coalescedLen - len pkt) (bufsOffset + len pkt) payload;
          bufs ← set_at bufs pktBuffsIndex ib;
          bufs ← set_at bufs (ti_bufsIndex item) pb;
          Some (coalesceSuccess, t_merged item seq gsoSize (ti_pshSet item), bufs)
      end
  else
    if bcap ib - bufsOffset - bufsOffset <? coalescedLen then Some (coalesceInsufficientCap, item, bufs)
    else
      r ← tcpCSumCheck item itemPkt pkt isV6;
      match r with
      | Some e => Some (e, item, bufs)
      | None =>
          ib ← (if pshSet then
                  let flagsAt := u8 (ti_iphLen item + tcpFlagsOffset) in
                  f ← at_ itemPkt flagsAt;
                  d ← set_at (dat ib) (bufsOffset + flagsAt) (Z.lor f tcpFlagPSH);
                  Some (with_dat ib d)
                else Some ib);
          payload ← slice pkt headersLen (len pkt);
          ib ← extend ib (len pkt - headersLen) (bufsOffset + len itemPkt) payload;
          bufs ← set_at bufs (ti_bufsIndex item) ib;
          Some (coalesceSuccess, t_merged item (ti_sentSeq item) gsoSize (if pshSet then pshSet else ti_pshSet item), bufs)
      end.

(** ** One packet *)

Inductive groResult : Type := groResultNoop | groResultTableInsert | groResultCoalesced.
#[export] Instance groResult_eq : EqDecision groResult.
Proof. solve_decision. Defined.

Definition ipv4FlagMoreFragments : Z := 32.
Definition maxUint16 : Z := 65535.

(** The checks of the IP header that tcpGRO and udpGRO share: the header length, or
    [None] when the packet is left alone. *)
Definition ipHeaderLen (pkt : list Z) (isV6 : bool) : option (option Z) :=
  if maxUint16 <? len pkt then Some None
  else
    b ← at_ pkt 0;
    let iphLen := if isV6 then 40 else u8 (Z.land b 15 * 4) in
    good ← (if isV6 then n ← get16 pkt 4; Some (n =? len pkt - iphLen) else n ← get16 pkt 2; Some (n =? len pkt));
    Some (if negb good then None else if len pkt <? iphLen then None else Some iphLen).

(** No IPv4 fragments. *)
Definition fragmented (pkt : list Z) (isV6 : bool) : option bool :=
  if isV6 then Some false
  else
    x ← at_ pkt 6; y ← at_ pkt 7;
    Some (negb (Z.land x ipv4FlagMoreFragments =? 0) || negb (u8 (Z.shiftl x 3) =? 0) || negb (y =? 0)).

(** The items of a flow from the last to the first, [n] of them left to try. *)
Fixpoint tcpItems (n : nat) (items : list tcpGROItem) (pkt : list Z) (iphLen tcphLen seq : Z) (pshSet : bool) (gsoSize : Z)
    (bufs : list Buf) (offset pktI : Z) (t : tcpGROTable) (isV6 : bool) : option (option groResult * tcpGROTable * list Buf) :=
  match n with
  | O => Some (None, t, bufs)
  | S i =>
      item ← at_ items (Z.of_nat i);
      can ← tcpPacketsCanCoalesce pkt (u8 iphLen) (u8 tcphLen) seq pshSet gsoSize item bufs offset;
      if decide (can = coalesceUnavailable) then tcpItems i items pkt iphLen tcphLen seq pshSet gsoSize bufs offset pktI t isV6
      else
        '(result, item, bufs) ← coalesceTCPPackets can pkt pktI gsoSize seq pshSet item bufs offset isV6;
        match result with
        | coalesceSuccess => t ← t_updateAt t item (Z.of_nat i); Some (Some groResultCoalesced, t, bufs)
        | coalesceItemInvalidCSum =>
            t ← t_deleteAt t (ti_key item) (Z.of_nat i);
            tcpItems i items pkt iphLen tcphLen seq pshSet gsoSize bufs offset pktI t isV6
        | coalescePktInvalidCSum => Some (Some groResultNoop, t, bufs)
        | _ => tcpItems i items pkt iphLen tcphLen seq pshSet gsoSize bufs offset pktI t isV6
        end
  end.

Definition tcpGRO (bufs : list Buf) (offset pktI : Z) (t : tcpGROTable) (isV6 : bool) : option (groResult * tcpGROTable * list Buf) :=
  let noop := Some (groResultNoop, t, bufs) in
  b ← at_ bufs pktI;
  pkt ← tailOf b offset;
  h ← ipHeaderLen pkt isV6;
  match h with
  | None => noop
  | Some iphLen =>
      x ← at_ pkt (iphLen + 12);
      let tcphLen := u8 (Z.shiftr x 4 * 4) in
      if (tcphLen <? 20) || (60 <? tcphLen) then noop
      else if len pkt <? iphLen + tcphLen then noop
      else
        frag ← fragmented pkt isV6;
        if (frag : bool) then noop
        else
          tcpFlags ← at_ pkt (iphLen + tcpFlagsOffset);
          if negb (tcpFlags =? tcpFlagACK) && negb (tcpFlags =? Z.lor tcpFlagACK tcpFlagPSH) then noop
          else
            let pshSet := negb (tcpFlags =? tcpFlagACK) in
            let gsoSize := u16 (len pkt - tcphLen - iphLen) in
            if gsoSize <? 1 then noop
            else
              seq ← get32 pkt (iphLen + 4);
              let srcAddrOffset := if isV6 then ipv6SrcAddrOffset else ipv4SrcAddrOffset in
              let addrLen := if isV6 then 16 else 4 in
              '(found, t) ← t_lookupOrInsert t pkt srcAddrOffset (srcAddrOffset + addrLen) iphLen tcphLen pktI;
              match found with
              | None => Some (groResultTableInsert, t, bufs)
              | Some items =>
                  '(r, t, bufs) ← tcpItems (length items) items pkt iphLen tcphLen seq pshSet gsoSize bufs offset pktI t isV6;
                  match r with
                  | Some g => Some (g, t, bufs)
                  | None => t ← t_insert t pkt srcAddrOffset (srcAddrOffset + addrLen) iphLen tcphLen pktI; Some (groResultTableInsert, t, bufs)
                  end
              end
  end.

Definition udpGRO (bufs : list Buf) (offset pktI : Z) (u : udpGROTable) (isV6 : bool) : option (groResult * udpGROTable * list Buf) :=
  let noop := Some (groResultNoop, u, bufs) in
  b ← at_ bufs pktI;
  pkt ← tailOf b offset;
  h ← ipHeaderLen pkt isV6;
  match h with
  | None => noop
  | Some iphLen =>
      if len pkt <? iphLen + udphLen then noop
      else
        frag ← fragmented pkt isV6;
        if (frag : bool) then noop
        else
          let gsoSize := u16 (len pkt - udphLen - iphLen) in
          if gsoSize <? 1 then noop
          else
            let srcAddrOffset := if isV6 then ipv6SrcAddrOffset else ipv4SrcAddrOffset in
            let addrLen := if isV6 then 16 else 4 in
            '(found, u) ← u_lookupOrInsert u pkt srcAddrOffset (srcAddrOffset + addrLen) iphLen pktI;
            match found with
            | None => Some (groResultTableInsert, u, bufs)
            | Some items =>
                item ← at_ items (len items - 1);
                can ← udpPacketsCanCoalesce pkt (u8 iphLen) gsoSize item bufs offset;
                '(result, item, bufs) ←
                  (if decide (can = coalesceAppend) then coalesceUDPPackets pkt item bufs offset isV6
                   else Some (coalesceInsufficientCap, item, bufs));
                if decide (result = coalesceSuccess) then
                  u ← u_updateAt u item (len items - 1); Some (groResultCoalesced, u, bufs)
                else
                  u ← u_insert u pkt srcAddrOffset (srcAddrOffset + addrLen) iphLen pktI (bool_decide (result = coalescePktInvalidCSum));
                  Some (groResultTableInsert, u, bufs)
            end
  end.

(** ** The accounting after a batch *)

(** [hdr.encode(d[at:])] *)
Definition encodeAt (hdr : virtioNetHdr) (d : list Z) (at' : Z) : option (result (list Z) gsoError) :=
  t ← slice d at' (len d);
  Some match encode bigEndian hdr t with Ok t => Ok (take (Z.to_nat at') d ++ t) | Err e => Err e end.

(** The new total length and header checksum (IPv4) or payload length (IPv6). *)
Definition setIPLength (pkt : list Z) (iphLen : Z) (isV6 : bool) : option (list Z) :=
  if isV6 then put16 pkt 4 (u16 (u16 (len pkt) - iphLen))
  else
    pkt ← set_at pkt 10 0; pkt ← set_at pkt 11 0;
    pkt ← put16 pkt 2 (u16 (len pkt));
    h ← slice pkt 0 iphLen;
    put16 pkt 10 (not16 (checksum bigEndian h 0)).

(** The folded sum of the pseudo header in the checksum field, a partial checksum. *)
Definition setPartialCSum (pkt : list Z) (iphLen proto csumAt : Z) (isV6 : bool) : option (list Z) :=
  let addrLen := if isV6 then 16 else 4 in
  let addrOffset := if isV6 then ipv6SrcAddrOffset else ipv4SrcAddrOffset in
  src ← slice pkt addrOffset (addrOffset + addrLen);
  dst ← slice pkt (addrOffset + addrLen) (addrOffset + addrLen * 2);
  let psum := pseudoHeaderChecksumNoFold bigEndian proto src dst (u16 (len pkt - iphLen)) in
  put16 pkt csumAt (checksum bigEndian [] psum).

Definition zeroHdr : virtioNetHdr := {| flags := 0; gsoType := 0; hdrLen := 0; gsoSize := 0; csumStart := 0; csumOffset := 0 |}.

(** One item of applyTCPCoalesceAccounting: the buffer, or the error of [encode]. *)
Definition accountTCP (offset : Z) (item : tcpGROItem) (b : Buf) : option (result Buf gsoError) :=
  if 0 <? ti_numMerged item then
    let isV6 := tk_isV6 (ti_key item) in
    let hdr := {| flags := VIRTIO_NET_HDR_F_NEEDS_CSUM; gsoType := if isV6 then GSO_TCPV6 else GSO_TCPV4;
                  hdrLen := u8 (ti_iphLen item + ti_tcphLen item); gsoSize := ti_gsoSize item;
                  csumStart := ti_iphLen item; csumOffset := 16 |} in
    pkt ← tailOf b offset;
    pkt ← setIPLength pkt (ti_iphLen item) isV6;
    r ← encodeAt hdr (take (Z.to_nat offset) (dat b) ++ pkt) (offset - virtioNetHdrLen);
    match r with
    | Err e => Some (Err e)
    | Ok d =>
        pkt ← slice d offset (len d);
        pkt ← setPartialCSum pkt (ti_iphLen item) IPPROTO_TCP (u16 (csumStart hdr + csumOffset hdr)) isV6;
        Some (Ok (with_dat b (take (Z.to_nat offset) d ++ pkt)))
    end
  else
    r ← encodeAt zeroHdr (dat b) (offset - virtioNetHdrLen);
    Some match r with Err e => Err e | Ok d => Ok (with_dat b d) end.

(** One item of applyUDPCoalesceAccounting. *)
Definition accountUDP (offset : Z) (item : udpGROItem) (b : Buf) : option (result Buf gsoError) :=
  if 0 <? ui_numMerged item then
    let isV6 := uk_isV6 (ui_key item) in
    let hdr := {| flags := VIRTIO_NET_HDR_F_NEEDS_CSUM; gsoType := GSO_UDP_L4;
                  hdrLen := u8 (ui_iphLen item + udphLen); gsoSize := ui_gsoSize item;
                  csumStart := ui_iphLen item; csumOffset := 6 |} in
    pkt ← tailOf b offset;
    pkt ← setIPLength pkt (ui_iphLen item) isV6;
    r ← encodeAt hdr (take (Z.to_nat offset) (dat b) ++ pkt) (offset - virtioNetHdrLen);
    match r with
    | Err e => Some (Err e)
    | Ok d =>
        pkt ← slice d offset (len d);
        body ← slice pkt (ui_iphLen item) (len pkt);
        pkt ← put16 pkt (u8 (ui_iphLen item + 4)) (u16 (len body));
        pkt ← setPartialCSum pkt (ui_iphLen item) IPPROTO_UDP (u16 (csumStart hdr + csumOffset hdr)) isV6;
        Some (Ok (with_dat b (take (Z.to_nat offset) d ++ pkt)))
    end
  else
    r ← encodeAt zeroHdr (dat b) (offset - virtioNetHdrLen);
    Some match r with Err e => Err e | Ok d => Ok (with_dat b d) end.

(** The loops over the items, in the order the map is visited; the first error ends them. *)
Fixpoint applyAccounting {A} (account : A -> Buf -> option (result Buf gsoError)) (index : A -> Z) (items : list A) (bufs : list Buf) :
    option (list Buf * option gsoError) :=
  match items with
  | [] => Some (bufs, None)
  | item :: items =>
      b ← at_ bufs (index item);
      r ← account item b;
      match r with
      | Err e => Some (bufs, Some e)
      | Ok b => bufs ← set_at bufs (index item) b; applyAccounting account index items bufs
      end
  end.

Definition applyTCPCoalesceAccounting (offset : Z) (visit : list (list tcpGROItem)) (bufs : list Buf) :=
  applyAccounting (accountTCP offset) ti_bufsIndex (concat visit) bufs.
Definition applyUDPCoalesceAccounting (offset : Z) (visit : list (list udpGROItem)) (bufs : list Buf) :=
  applyAccounting (accountUDP offset) ui_bufsIndex (concat visit) bufs.

(** ** A batch *)

Inductive groCandidateType : Type :=
| notGROCandidate | tcp4GROCandidate | tcp6GROCandidate | udp4GROCandidate | udp6GROCandidate.

Definition packetIsGROCandidate (b : list Z) (canUDPGRO : bool) : groCandidateType :=
  if len b <? 28 then notGROCandidate
  else
    let at' i := nth i b 0 in
    if Z.shiftr (at' 0%nat) 4 =? 4 then
      if negb (Z.land (at' 0%nat) 15 =? 5) then notGROCandidate
      else if (at' 9%nat =? IPPROTO_TCP) && (40 <=? len b) then tcp4GROCandidate
      else if (at' 9%nat =? IPPROTO_UDP) && canUDPGRO then udp4GROCandidate
      else notGROCandidate
    else if Z.shiftr (at' 0%nat) 4 =? 6 then
      if (at' 6%nat =? IPPROTO_TCP) && (60 <=? len b) then tcp6GROCandidate
      else if (at' 6%nat =? IPPROTO_UDP) && (48 <=? len b) && canUDPGRO then udp6GROCandidate
      else notGROCandidate
    else notGROCandidate.

Inductive groError : Type := ErrInvalidOffset | ErrEncode (e : gsoError) | ErrJoin (a b : option gsoError).

Record groState : Type := { g_bufs : list Buf; g_tcp : tcpGROTable; g_udp : udpGROTable; g_toWrite : list Z }.

(** The round of packet [i]. *)
Definition groPacket (offset : Z) (canUDPGRO : bool) (i : Z) (g : groState) : option (result groState groError) :=
  b ← at_ (g_bufs g) i;
  if (offset <? virtioNetHdrLen) || (len (dat b) - 1 <? offset) then Some (Err ErrInvalidOffset)
  else
    pkt ← tailOf b offset;
    let tcp isV6 := '(r, t, bufs) ← tcpGRO (g_bufs g) offset i (g_tcp g) isV6; Some (r, t, g_udp g, bufs) in
    let udp isV6 := '(r, u, bufs) ← udpGRO (g_bufs g) offset i (g_udp g) isV6; Some (r, g_tcp g, u, bufs) in
    '(r, t, u, bufs) ←
      match packetIsGROCandidate pkt canUDPGRO with
      | tcp4GROCandidate => tcp false
      | tcp6GROCandidate => tcp true
      | udp4GROCandidate => udp false
      | udp6GROCandidate => udp true
      | notGROCandidate => Some (groResultNoop, g_tcp g, g_udp g, g_bufs g)
      end;
    match r with
    | groResultNoop =>
        b ← at_ bufs i;
        e ← encodeAt zeroHdr (dat b) (offset - virtioNetHdrLen);
        match e with
        | Err e => Some (Err (ErrEncode e))
        | Ok d =>
            bufs ← set_at bufs i (with_dat b d);
            Some (Ok {| g_bufs := bufs; g_tcp := t; g_udp := u; g_toWrite := g_toWrite g ++ [i] |})
        end
    | groResultTableInsert => Some (Ok {| g_bufs := bufs; g_tcp := t; g_udp := u; g_toWrite := g_toWrite g ++ [i] |})
    | groResultCoalesced => Some (Ok {| g_bufs := bufs; g_tcp := t; g_udp := u; g_toWrite := g_toWrite g |})
    end.

(** [for i := range bufs]: the packets from [i] on, [n] of them. *)
Fixpoint groLoop (offset : Z) (canUDPGRO : bool) (n : nat) (i : Z) (g : groState) : option (result groState groError) :=
  match n with
  | O => Some (Ok g)
  | S n =>
      r ← groPacket offset canUDPGRO i g;
      match r with Err e => Some (Err e) | Ok g => groLoop offset canUDPGRO n (i + 1) g end
  end.

(** The whole batch; [tcpVisit] and [udpVisit] are the orders in which the maps are
    visited. On an error of the loop the packets written so far are not reported. *)
Definition handleGRO (offset : Z) (canUDPGRO : bool) (tcpVisit : gmap tcpFlowKey (list tcpGROItem) -> list (list tcpGROItem))
    (udpVisit : gmap udpFlowKey (list udpGROItem) -> list (list udpGROItem)) (bufs : list Buf) (t : tcpGROTable) (u : udpGROTable) :
    option (result groState groError) :=
  r ← groLoop offset canUDPGRO (length bufs) 0 {| g_bufs := bufs; g_tcp := t; g_udp := u; g_toWrite := [] |};
  match r with
  | Err e => Some (Err e)
  | Ok g =>
      '(bufs, errTCP) ← applyTCPCoalesceAccounting offset (tcpVisit (t_itemsByFlow (g_tcp g))) (g_bufs g);
      '(bufs, errUDP) ← applyUDPCoalesceAccounting offset (udpVisit (u_itemsByFlow (g_udp g))) bufs;
      match errTCP, errUDP with
      | None, None => Some (Ok {| g_bufs := bufs; g_tcp := g_tcp g; g_udp := g_udp g; g_toWrite := g_toWrite g |})
      | _, _ => Some (Err (ErrJoin errTCP errUDP))
      end
  end.
End Merge.
