(* ===== verification/GroInv.v ===== *)
(** * GroInv: coalescing loses, invents and reorders no datagram

    handleGRO of Gro over a batch: it never panics on buffers that hold a packet behind
    the offset, and for every UDP flow the datagrams the kernel will cut out of the
    coalesced packets are the payloads of the packets that came in, in their order. *)
From S2P Require Import Prelude Checksum Gso Gro.
#[local] Open Scope Z_scope.

(** ** Cutting a payload into datagrams *)

Fixpoint cutInto (fuel : nat) (g : nat) (l : list Z) : list (list Z) :=
  match fuel with
  | O => []
  | S f => match l with [] => [] | _ => take g l :: cutInto f g (drop g l) end
  end.
(** The pieces of [g] bytes a receiver cuts a payload into; every round takes at least
    one byte when [g] is positive. *)
Definition pieces (g : Z) (l : list Z) : list (list Z) := cutInto (length l) (Z.to_nat g) l.

Lemma cutInto_fuel f f' g l : (0 < g)%nat -> (length l <= f)%nat -> (length l <= f')%nat -> cutInto f g l = cutInto f' g l.
Proof.
  intros Hg. revert f' l. induction f as [|f IH]; intros [|f'] l Hf Hf'; [done|destruct l; [done|simpl in *; lia]..|].
  cbn [cutInto]. destruct l as [|x l]; [done|]. f_equal. apply IH; rewrite length_drop; cbn [length] in *; lia.
Qed.

Lemma pieces_one g l : 0 < g -> 1 <= len l <= g -> pieces g l = [l].
Proof.
  intros Hg Hl. unfold pieces, len in *. destruct l as [|x l]; [simpl in Hl; lia|]. cbn [cutInto length] in *.
  rewrite take_ge, drop_ge by (cbn [length]; lia). by destruct (length l).
Qed.

Lemma pieces_step g l : 0 < g <= len l -> pieces g l = take (Z.to_nat g) l :: pieces g (drop (Z.to_nat g) l).
Proof.
  intros Hg. unfold pieces. destruct l as [|x l]; [unfold len in Hg; simpl in Hg; lia|]. cbn [cutInto length]. f_equal.
  apply cutInto_fuel; [lia| |done]. rewrite length_drop. cbn [length]. unfold len in Hg. lia.
Qed.

(** Appending a datagram to whole ones. *)
Lemma pieces_snoc g l d : 0 < g -> len l mod g = 0 -> 1 <= len d <= g -> pieces g (l ++ d) = pieces g l ++ [d].
Proof.
  intros Hg Hm Hd. remember (Z.to_nat (len l / g)) as n eqn:En. revert l Hm En. induction n as [|n IH]; intros l Hm En.
  - assert (len l = 0) as Hl by (pose proof (Z.div_mod (len l) g); pose proof (Z.div_pos (len l) g (len_nonneg l) Hg); nia).
    destruct l; [|unfold len in Hl; simpl in Hl; lia]. by apply pieces_one.
  - pose proof (Z.div_mod (len l) g ltac:(lia)) as Hdm. pose proof (Z.div_pos (len l) g (len_nonneg l) Hg) as Hp.
    assert (g <= len l) as Hgl by nia.
    rewrite (pieces_step g (l ++ d)), (pieces_step g l) by (rewrite ?len_app; lia). unfold len in Hgl. rewrite take_app_le, drop_app_le by lia. cbn [app]. f_equal.
    assert (len (drop (Z.to_nat g) l) = len l - g) as Hdl by (unfold len; rewrite length_drop; lia).
    apply IH; rewrite Hdl; replace (len l - g) with (len l + (-1) * g) by lia; [rewrite Z.mod_add by lia; done|rewrite Z.div_add by lia; lia].
Qed.

(** ** Checked accesses *)

Lemma at_range {A} (l : list A) i x : at_ l i = Some x -> 0 <= i < len l.
Proof. unfold at_. case_decide; [|done]. intros Hx%lookup_lt_Some. unfold len. lia. Qed.
Lemma at_total {A} (l : list A) i : 0 <= i < len l -> exists x, at_ l i = Some x.
Proof. intros H. unfold at_. rewrite decide_True by lia. apply lookup_lt_is_Some_2. unfold len in H. lia. Qed.
Lemma set_at_total {A} (l : list A) i v : 0 <= i < len l -> exists l', set_at l i v = Some l' /\ len l' = len l /\
  forall j, at_ l' j = if decide (i = j) then Some v else at_ l j.
Proof.
  intros H. rewrite set_at_Some by done. eexists. split; [done|]. split; [unfold len; by rewrite length_insert|].
  intros j. unfold at_. destruct (decide (i = j)) as [<-|Hn].
  - rewrite decide_True by lia. apply list_lookup_insert_eq. unfold len in H. lia.
  - case_decide; [|done]. apply list_lookup_insert_ne. lia.
Qed.
Lemma slice_total {A} (l : list A) a b : 0 <= a <= b -> b <= len l -> exists s, slice l a b = Some s /\ len s = b - a.
Proof. intros H1 H2. rewrite slice_Some by done. eexists. split; [done|]. apply (slice_len l a b). by rewrite slice_Some. Qed.
Lemma get16_total l a : 0 <= a -> a + 2 <= len l -> exists v, get16 l a = Some v.
Proof. intros. unfold get16. rewrite slice_Some by lia. eauto. Qed.
Lemma get32_total l a : 0 <= a -> a + 4 <= len l -> exists v, get32 l a = Some v.
Proof. intros. unfold get32. rewrite slice_Some by lia. eauto. Qed.
Lemma put_total n l a v : 0 <= a -> a + Z.of_nat n <= len l -> exists l', put n l a v = Some l' /\ len l' = len l /\
  drop (Z.to_nat a + n) l' = drop (Z.to_nat a + n) l.
Proof.
  intros H1 H2. destruct (cut_field l (Z.to_nat a) n) as (p & m & q & -> & Hp & Hm & _); [unfold len in H2; lia|].
  rewrite put_field by (done || unfold len; lia). eexists. split; [done|]. split; [len_lia|].
  rewrite !app_assoc, !drop_app_length' by len_lia. done.
Qed.

Section Batch.
Context (be : bool) (offset : Z) (Hoff : virtioNetHdrLen <= offset).

(** The packet in a buffer. *)
Definition pktOf (b : Buf) : list Z := drop (Z.to_nat offset) (dat b).
Definition bufOk (b : Buf) : Prop := offset < len (dat b).

Lemma pktOf_len b : offset <= len (dat b) -> len (pktOf b) = len (dat b) - offset.
Proof. unfold virtioNetHdrLen in Hoff. intros H. unfold pktOf, len in *. rewrite length_drop. lia. Qed.

Lemma tailOf_pkt b : offset <= len (dat b) -> tailOf b offset = Some (pktOf b).
Proof. unfold virtioNetHdrLen in Hoff. intros H. unfold tailOf. by rewrite slice_suffix by lia. Qed.

(** ** Functions that never panic on a packet with its headers *)

Definition iphOf (isV6 : bool) : Z := if isV6 then 40 else 20.

Lemma checksumValid_total pkt iph proto isV6 : iph = iphOf isV6 -> iph <= len pkt -> exists r, checksumValid be pkt iph proto isV6 = Some r.
Proof.
  intros -> H. unfold checksumValid, iphOf, ipv6SrcAddrOffset, ipv4SrcAddrOffset in *.
  rewrite !slice_Some by (destruct isV6; lia). cbn [mbind option_bind]. eauto.
Qed.

Lemma newTCPFlowKey_total pkt (isV6 : bool) : iphOf isV6 + 20 <= len pkt ->
  let s := if isV6 then ipv6SrcAddrOffset else ipv4SrcAddrOffset in
  exists k, newTCPFlowKey pkt s (s + (if isV6 then 16 else 4)) (iphOf isV6) = Some k /\ tk_isV6 k = isV6.
Proof.
  intros H. unfold newTCPFlowKey, iphOf, ipv6SrcAddrOffset, ipv4SrcAddrOffset, get16, get32 in *.
  rewrite !slice_Some by (destruct isV6; lia). cbn [mbind option_bind fmap option_fmap option_map]. eexists. split; [done|]. by destruct isV6.
Qed.

Lemma newUDPFlowKey_total pkt (isV6 : bool) : iphOf isV6 + 8 <= len pkt ->
  let s := if isV6 then ipv6SrcAddrOffset else ipv4SrcAddrOffset in
  exists k, newUDPFlowKey pkt s (s + (if isV6 then 16 else 4)) (iphOf isV6) = Some k /\ uk_isV6 k = isV6.
Proof.
  intros H. unfold newUDPFlowKey, iphOf, ipv6SrcAddrOffset, ipv4SrcAddrOffset, get16 in *.
  rewrite !slice_Some by (destruct isV6; lia). cbn [mbind option_bind fmap option_fmap option_map]. eexists. split; [done|]. by destruct isV6.
Qed.

(** The first byte of a candidate gives the header length its version has. *)
Definition headOk (isV6 : bool) (pkt : list Z) : Prop := 28 <= len pkt /\ (isV6 = false -> Z.land (nth 0 pkt 0) 15 = 5).

Lemma ipHeaderLen_total pkt isV6 : headOk isV6 pkt ->
  exists h, ipHeaderLen pkt isV6 = Some h /\ (forall n, h = Some n -> n = iphOf isV6 /\ n <= len pkt <= 65535).
Proof.
  intros [Hl Hb]. unfold ipHeaderLen, maxUint16. destruct (Z.ltb_spec 65535 (len pkt)) as [|Hm]; [eexists; split; [done|done]|].
  rewrite at_nth by lia. cbn [mbind option_bind]. unfold get16. rewrite !slice_Some by lia. change (Z.to_nat 0) with 0%nat.
  destruct isV6; cbn [mbind option_bind fmap option_fmap option_map].
  - destruct (negb _); [by eexists|]. destruct (Z.ltb_spec (len pkt) 40); [by eexists|]. eexists. split; [done|]. intros n [= <-]. unfold iphOf. lia.
  - rewrite Hb by done. change (u8 (5 * 4)) with 20.
    destruct (negb _); [by eexists|]. destruct (Z.ltb_spec (len pkt) 20); [by eexists|]. eexists. split; [done|]. intros n [= <-]. unfold iphOf. lia.
Qed.

Lemma fragmented_total pkt isV6 : 28 <= len pkt -> exists r, fragmented pkt isV6 = Some r.
Proof. intros H. unfold fragmented. destruct isV6; [by eexists|]. rewrite !at_nth by lia. by eexists. Qed.

Lemma candidate_head pkt canUDP : 
  match packetIsGROCandidate pkt canUDP with
  | tcp4GROCandidate => headOk false pkt /\ 40 <= len pkt
  | tcp6GROCandidate => headOk true pkt /\ 60 <= len pkt
  | udp4GROCandidate => headOk false pkt
  | udp6GROCandidate => headOk true pkt
  | notGROCandidate => True
  end.
Proof.
  unfold packetIsGROCandidate, headOk. destruct (Z.ltb_spec (len pkt) 28); [done|].
  destruct (Z.shiftr _ 4 =? 4).
  - destruct (Z.eqb_spec (Z.land (nth 0 pkt 0) 15) 5) as [E|]; cbn [negb]; [|done].
    destruct ((_ =? IPPROTO_TCP) && _) eqn:E1; [apply andb_true_iff in E1 as [_ E1%Z.leb_le]; done|].
    by destruct ((_ =? IPPROTO_UDP) && _).
  - destruct (Z.shiftr _ 4 =? 6); [|done].
    destruct ((_ =? IPPROTO_TCP) && _) eqn:E1; [apply andb_true_iff in E1 as [_ E1%Z.leb_le]; done|].
    by destruct (_ && canUDP).
Qed.

Lemma tailMod_total l a n : 0 <= a <= len l -> 0 < n -> tailMod l a n = Some ((len l - a) mod n).
Proof.
  intros Ha Hn. unfold tailMod. destruct (slice_total l a (len l)) as (s & Hs & Hl); [lia|lia|]. rewrite Hs. cbn [mbind option_bind].
  rewrite (proj2 (Z.eqb_neq n 0)) by lia. by rewrite Hl.
Qed.

Lemma extend_spec b ext src : 0 <= ext -> len src = ext -> extend b ext (len (dat b)) src = Some (with_dat b (dat b ++ src)).
Proof.
  intros He Hs. unfold extend. rewrite decide_True by done. rewrite copy_at_region; [|done|unfold len; rewrite length_replicate; unfold len in Hs; lia].
  rewrite drop_ge by (rewrite length_replicate; unfold len in Hs; lia). cbn [mbind option_bind]. by rewrite app_nil_r.
Qed.

(** ** TCP: nothing outside the buffers of TCP items is touched *)

Record tItemOk (bufs : list Buf) (k : tcpFlowKey) (it : tcpGROItem) : Prop := {
  tok_key : ti_key it = k;
  tok_iph : ti_iphLen it = iphOf (tk_isV6 k);
  tok_tcph : 20 <= ti_tcphLen it <= 60;
  tok_gso : 0 < ti_gsoSize it;
  tok_buf : exists b, at_ bufs (ti_bufsIndex it) = Some b /\ offset + ti_iphLen it + ti_tcphLen it <= len (dat b)
}.

(** The buffers other than [i] keep at least their bytes. *)
Definition grows (i : Z) (bufs bufs' : list Buf) : Prop :=
  len bufs' = len bufs /\ Forall bufOk bufs' /\
  forall j b, j <> i -> at_ bufs j = Some b -> exists b', at_ bufs' j = Some b' /\ len (dat b) <= len (dat b').

Lemma grows_refl i bufs : Forall bufOk bufs -> grows i bufs bufs.
Proof. intros H. split_and!; [done|done|]. intros j b _ Hb. exists b. split; [done|lia]. Qed.

Lemma tItemOk_grows i bufs bufs' k it : grows i bufs bufs' -> ti_bufsIndex it <> i -> tItemOk bufs k it -> tItemOk bufs' k it.
Proof.
  intros (_ & _ & Hg) Hn [H1 H2 H3 H4 (b & Hb & Hl)]. split; try done. destruct (Hg _ _ Hn Hb) as (b' & Hb' & Hl'). exists b'. split; [done|lia].
Qed.

Lemma bufOk_at bufs j b : Forall bufOk bufs -> at_ bufs j = Some b -> bufOk b.
Proof. unfold at_. case_decide; [|done]. intros Hf Hj. rewrite Forall_lookup in Hf. eauto. Qed.

Lemma bufOk_set bufs j b bufs' : Forall bufOk bufs -> bufOk b -> set_at bufs j b = Some bufs' -> Forall bufOk bufs'.
Proof. intros Hf Hb. unfold set_at. case_decide; [|done]. intros [= <-]. by apply Forall_insert. Qed.

Lemma with_dat_len b d : len (dat (with_dat b d)) = len d.
Proof. done. Qed.

(** Replacing one buffer by one that is no shorter. *)
Lemma grows_set i bufs j b b' bufs' : Forall bufOk bufs -> at_ bufs j = Some b -> len (dat b) <= len (dat b') -> set_at bufs j b' = Some bufs' ->
  grows i bufs bufs' /\ forall j', j' <> j -> at_ bufs' j' = at_ bufs j'.
Proof.
  intros Hf Hb Hl Hs. destruct (set_at_total bufs j b') as (l & Hs' & Hlen & Hat); [by eapply at_range|]. rewrite Hs' in Hs. injection Hs as ->.
  split; [split_and!; [done|eapply bufOk_set; [exact Hf| |exact Hs']; pose proof (bufOk_at _ _ _ Hf Hb); unfold bufOk in *; lia|]|].
  - intros j' x Hj Hx. rewrite Hat. destruct (decide (j = j')) as [->|]; [exists b'; split; [done|congruence]|exists x; split; [done|lia]].
  - intros j' Hj. rewrite Hat. by rewrite decide_False by congruence.
Qed.

(** The packet at [i], about to be merged with an item of its flow. *)
Record tcpPkt (i : Z) (bufs : list Buf) (isV6 : bool) (iph tcph : Z) (b : Buf) : Prop := {
  tp_at : at_ bufs i = Some b;
  tp_iph : iph = iphOf isV6;
  tp_tcph : 20 <= tcph <= 60;
  tp_len : iph + tcph <= len (pktOf b)
}.

Lemma iph_small isV6 n : 0 <= n <= 60 -> u8 (iphOf isV6 + n) = iphOf isV6 + n.
Proof. intros H. apply u8_small. unfold iphOf, is_u8. destruct isV6; lia. Qed.

Lemma tcpCan_total i bufs isV6 iph tcph b k it seq psh gso : Forall bufOk bufs -> tcpPkt i bufs isV6 iph tcph b -> tItemOk bufs k it -> tk_isV6 k = isV6 ->
  exists can, tcpPacketsCanCoalesce (pktOf b) iph tcph seq psh gso it bufs offset = Some can /\ (can <> coalesceUnavailable -> ti_tcphLen it = tcph).
Proof.
  intros Hf [Hat -> Ht Hl] [Hk Hi Htc Hg (tb & Htb & Htl)] Hv. unfold tcpPacketsCanCoalesce. rewrite Htb. cbn [mbind option_bind]. rewrite Hi, Hv in *.
  assert (0 <= iphOf isV6) by (unfold iphOf; destruct isV6; lia).
  rewrite tailOf_pkt by lia. cbn [mbind option_bind]. pose proof (pktOf_len tb ltac:(lia)) as Hlt.
  destruct (Z.eqb_spec tcph (ti_tcphLen it)) as [E|]; cbn [negb]; [|by eexists].
  assert (exists same : bool, (if 20 <? tcph then
      x ← slice (pktOf b) (u8 (iphOf isV6 + 20)) (u8 (iphOf isV6 + tcph)); y ← slice (pktOf tb) (u8 (iphOf isV6 + 20)) (u8 (iphOf isV6 + tcph)); Some (bool_decide (x = y))
    else Some true) = Some same) as (same & ->).
  { destruct (20 <? tcph); [|by eexists]. rewrite !iph_small by lia. rewrite !slice_Some by lia. cbn [mbind option_bind]. by eexists. }
  cbn [mbind option_bind]. rewrite tailMod_total by (rewrite ?iph_small by lia; lia). cbn [mbind option_bind].
  repeat case_match; eexists; done.
Qed.

Lemma tcpCSumCheck_total it itemPkt pkt isV6 : ti_iphLen it = iphOf isV6 -> ti_iphLen it <= len itemPkt -> ti_iphLen it <= len pkt ->
  exists r, tcpCSumCheck be it itemPkt pkt isV6 = Some r /\ r <> Some coalesceSuccess.
Proof.
  intros Hi H1 H2. unfold tcpCSumCheck.
  destruct (checksumValid_total itemPkt _ IPPROTO_TCP isV6 Hi H1) as (x & ->), (checksumValid_total pkt _ IPPROTO_TCP isV6 Hi H2) as (y & ->).
  destruct (_ =? 0), x, y; cbn; by eexists.
Qed.

Lemma t_merged_ok bufs k it seq gso psh : tItemOk bufs k it -> 0 < gso -> tItemOk bufs k (t_merged it seq gso psh).
Proof. intros [H1 H2 H3 H4 H5] Hg. split; try done. cbn. by destruct (_ <? _). Qed.

(** What a merge of the packet at [i] into an item leaves: only the two buffers change. *)
Definition mergePost (i : Z) (k : tcpFlowKey) (it : tcpGROItem) (bufs : list Buf) (r : option (coalesceResult * tcpGROItem * list Buf)) : Prop :=
  exists res it' bufs', r = Some (res, it', bufs') /\ (res <> coalesceSuccess -> it' = it /\ bufs' = bufs) /\
    grows i bufs bufs' /\ (forall j, j <> i -> j <> ti_bufsIndex it -> at_ bufs' j = at_ bufs j) /\
    tItemOk bufs' k it' /\ ti_bufsIndex it' = ti_bufsIndex it.

Lemma mergePost_fail i k it bufs e : e <> coalesceSuccess -> Forall bufOk bufs -> tItemOk bufs k it -> mergePost i k it bufs (Some (e, it, bufs)).
Proof. intros He Hf Hit. exists e, it, bufs. split_and!; try done. by apply grows_refl. Qed.

Lemma merge_append i bufs isV6 iph tcph b k it seq (psh : bool) gso can :
  Forall bufOk bufs -> tcpPkt i bufs isV6 iph tcph b -> tItemOk bufs k it -> tk_isV6 k = isV6 -> ti_tcphLen it = tcph ->
  ti_bufsIndex it <> i -> 0 < gso -> can <> coalescePrepend ->
  mergePost i k it bufs (coalesceTCPPackets be can (pktOf b) i gso seq psh it bufs offset isV6).
Proof.
  intros Hf [Hat -> Ht Hl] Hit Hv Hth Hne Hg Hcan. pose proof Hit as [Hk Hi Htc Hgs (tb & Htb & Htl)]. rewrite Hv in Hi.
  unfold coalesceTCPPackets. rewrite Htb. cbn [mbind option_bind]. assert (0 <= iphOf isV6) by (unfold iphOf; destruct isV6; lia).
  rewrite tailOf_pkt by lia. cbn [mbind option_bind]. pose proof (pktOf_len tb ltac:(lia)) as Hlt.
  rewrite decide_False by done. destruct (_ <? _); [by apply mergePost_fail|].
  destruct (tcpCSumCheck_total it (pktOf tb) (pktOf b) isV6 Hi) as (r & -> & Hr); [lia|lia|]. cbn [mbind option_bind].
  destruct r as [e|]; [apply mergePost_fail; [congruence|done|done]|].
  assert (exists d, (if psh then f ← at_ (pktOf tb) (u8 (ti_iphLen it + tcpFlagsOffset));
       d ← set_at (dat tb) (offset + u8 (ti_iphLen it + tcpFlagsOffset)) (Z.lor f tcpFlagPSH); Some (with_dat tb d) else Some tb) = Some (with_dat tb d) /\ len d = len (dat tb)) as (d & -> & Hd).
  { destruct psh; [|exists (dat tb); by destruct tb]. rewrite Hi. unfold tcpFlagsOffset. rewrite iph_small by lia.
    rewrite at_nth by lia. cbn [mbind option_bind]. destruct (set_at_total (dat tb) (offset + (iphOf isV6 + 13)) (Z.lor (nth (Z.to_nat (iphOf isV6 + 13)) (pktOf tb) 0) tcpFlagPSH)) as (d & -> & Hd & _); [unfold virtioNetHdrLen in Hoff; lia|].
    by exists d. }
  cbn [mbind option_bind]. rewrite Hi, Hth, iph_small by lia.
  destruct (slice_total (pktOf b) (iphOf isV6 + tcph) (len (pktOf b))) as (pl & -> & Hpl); [lia|lia|]. cbn [mbind option_bind].
  replace (offset + len (pktOf tb)) with (len (dat (with_dat tb d))) by (cbn; lia). rewrite extend_spec by lia. cbn [mbind option_bind].
  destruct (set_at_total bufs (ti_bufsIndex it) (with_dat (with_dat tb d) (dat (with_dat tb d) ++ pl))) as (bufs' & Hset & _ & _); [by eapply at_range|].
  rewrite Hset. cbn [mbind option_bind].
  destruct (fun H => grows_set i _ _ _ _ _ Hf Htb H Hset) as [Hgr Hfr]; [rewrite with_dat_len, len_app, with_dat_len; pose proof (len_nonneg pl); lia|].
  eexists _, _, _. split; [done|]. split_and!; try done; [by intros; apply Hfr|].
  apply t_merged_ok; [|done]. by eapply tItemOk_grows.
Qed.

Lemma merge_prepend i bufs isV6 iph tcph b k it seq (psh : bool) gso :
  Forall bufOk bufs -> tcpPkt i bufs isV6 iph tcph b -> tItemOk bufs k it -> tk_isV6 k = isV6 -> ti_tcphLen it = tcph ->
  ti_bufsIndex it <> i -> 0 < gso ->
  mergePost i k it bufs (coalesceTCPPackets be coalescePrepend (pktOf b) i gso seq psh it bufs offset isV6).
Proof.
  intros Hf [Hat -> Ht Hl] Hit Hv Hth Hne Hg. pose proof Hit as [Hk Hi Htc Hgs (tb & Htb & Htl)]. rewrite Hv in Hi.
  pose proof (bufOk_at _ _ _ Hf Hat) as Hbo. pose proof (bufOk_at _ _ _ Hf Htb) as Htbo. unfold bufOk in Hbo.
  unfold coalesceTCPPackets. rewrite Htb. cbn [mbind option_bind]. assert (0 <= iphOf isV6) by (unfold iphOf; destruct isV6; lia).
  rewrite tailOf_pkt by lia. cbn [mbind option_bind]. pose proof (pktOf_len tb ltac:(lia)) as Hlt. pose proof (pktOf_len b ltac:(lia)) as Hlb.
  rewrite decide_True by done. rewrite Hat. cbn [mbind option_bind]. destruct (_ <? _); [by apply mergePost_fail|]. destruct psh; [by apply mergePost_fail|].
  destruct (tcpCSumCheck_total it (pktOf tb) (pktOf b) isV6 Hi) as (r & -> & Hr); [lia|lia|]. cbn [mbind option_bind].
  destruct r as [e|]; [apply mergePost_fail; [congruence|done|done]|].
  rewrite Hi, Hth, iph_small by lia.
  destruct (slice_total (dat tb) (offset + (iphOf isV6 + tcph)) (len (dat tb))) as (pl & -> & Hpl); [unfold virtioNetHdrLen in Hoff; lia|lia|]. cbn [mbind option_bind].
  replace (offset + len (pktOf b)) with (len (dat b)) by lia. rewrite extend_spec by lia. cbn [mbind option_bind].
  destruct (set_at_total bufs i tb) as (bufs1 & Hset1 & Hl1 & Hat1); [by eapply at_range|]. rewrite Hset1. cbn [mbind option_bind].
  assert (Forall bufOk bufs1) as Hf1 by (by eapply bufOk_set).
  assert (at_ bufs1 (ti_bufsIndex it) = Some tb) as Htb1 by (rewrite Hat1; by rewrite decide_False by congruence).
  destruct (set_at_total bufs1 (ti_bufsIndex it) (with_dat b (dat b ++ pl))) as (bufs' & Hset & _ & _); [by eapply at_range|].
  rewrite Hset. cbn [mbind option_bind].
  destruct (fun H => grows_set i _ _ _ _ _ Hf1 Htb1 H Hset) as [Hgr Hfr]; [rewrite with_dat_len, len_app; lia|].
  assert (grows i bufs bufs') as Hgr'.
  { destruct Hgr as (G1 & G2 & G3). split_and!; [lia|done|]. intros j x Hj Hx. apply G3; [done|]. rewrite Hat1. by rewrite decide_False by congruence. }
  eexists _, _, _. split; [done|]. split_and!; try done.
  - intros j Hj1 Hj2. rewrite Hfr by done. rewrite Hat1. by rewrite decide_False by congruence.
  - apply t_merged_ok; [|done]. by eapply tItemOk_grows.
Qed.

(** ** The TCP table *)

(** Some item of the table has buffer [j]. *)
Definition tIdx (t : tcpGROTable) (j : Z) : Prop :=
  exists k its it, t_itemsByFlow t !! k = Some its /\ it ∈ its /\ ti_bufsIndex it = j.

Record TOk (i : Z) (bufs : list Buf) (t : tcpGROTable) : Prop := {
  T_items : forall k its, t_itemsByFlow t !! k = Some its -> Forall (tItemOk bufs k) its;
  T_idx : forall j, tIdx t j -> 0 <= j < i
}.

(** What the round of packet [i] may do to the buffers and the table. *)
Record tStep (i : Z) (t : tcpGROTable) (bufs : list Buf) (t' : tcpGROTable) (bufs' : list Buf) : Prop := {
  ts_grows : grows i bufs bufs';
  ts_frame : forall j, j <> i -> ~ tIdx t j -> at_ bufs' j = at_ bufs j;
  ts_idx : forall j, tIdx t' j -> tIdx t j;
  ts_items : forall k its, t_itemsByFlow t' !! k = Some its -> Forall (tItemOk bufs' k) its;
  ts_dom : forall k, is_Some (t_itemsByFlow t !! k) -> is_Some (t_itemsByFlow t' !! k);
  ts_size : size (t_itemsByFlow t') = size (t_itemsByFlow t) /\ t_itemsPool t' = t_itemsPool t
}.

Lemma tStep_refl i t bufs : Forall bufOk bufs -> TOk i bufs t -> tStep i t bufs t bufs.
Proof. intros Hf [H1 H2]. split; try done. by apply grows_refl. Qed.

Lemma TOk_items_grow i bufs bufs' t : TOk i bufs t -> grows i bufs bufs' -> forall k its, t_itemsByFlow t !! k = Some its -> Forall (tItemOk bufs' k) its.
Proof.
  intros [H1 H2] Hg k its Hk. rewrite Forall_forall. intros it Hit. eapply tItemOk_grows; [exact Hg| |]; [|by eapply Forall_forall in Hit; [|by apply H1]].
  assert (0 <= ti_bufsIndex it < i) by (apply H2; by exists k, its, it). lia.
Qed.

(** Replacing the items of a flow by items with buffers it already had. *)
Lemma t_put_step i t bufs bufs' k its its' : TOk i bufs t -> grows i bufs bufs' -> t_itemsByFlow t !! k = Some its ->
  (forall j, j <> i -> ~ tIdx t j -> at_ bufs' j = at_ bufs j) ->
  Forall (tItemOk bufs' k) its' -> (forall it, it ∈ its' -> exists it0, it0 ∈ its /\ ti_bufsIndex it0 = ti_bufsIndex it) ->
  tStep i t bufs (t_put t k its') bufs'.
Proof.
  intros Ht Hg Hk Hfr Hits Hsub. split; [done|done| | | |].
  - intros j (k' & its2 & it & Hk' & Hin & Hj). cbn in Hk'. apply lookup_insert_Some in Hk' as [[<- <-]|[Hne Hk']].
    + destruct (Hsub it Hin) as (it0 & Hin0 & Hj0). exists k, its, it0. split_and!; [done|done|congruence].
    + by exists k', its2, it.
  - intros k' its2 Hk'. cbn in Hk'. apply lookup_insert_Some in Hk' as [[<- <-]|[Hne Hk']]; [done|]. by eapply TOk_items_grow.
  - intros k' Hk'. cbn. destruct (decide (k = k')) as [->|]; [rewrite lookup_insert_eq; by eexists|by rewrite lookup_insert_ne].
  - cbn. by rewrite (map_size_insert_Some k _ (t_itemsByFlow t)).
Qed.

Lemma tStep_trans i t bufs t1 bufs1 t2 bufs2 : tStep i t bufs t1 bufs1 -> tStep i t1 bufs1 t2 bufs2 -> tStep i t bufs t2 bufs2.
Proof.
  intros [(A1 & A2 & A3) B1 C1 D1 E1 [F1 G1]] [(A4 & A5 & A6) B2 C2 D2 E2 [F2 G2]]. split; try (by auto); try congruence.
  - split_and!; [lia|done|]. intros j b Hj Hb. destruct (A3 j b Hj Hb) as (b1 & Hb1 & L1). destruct (A6 j b1 Hj Hb1) as (b2 & Hb2 & L2). exists b2. split; [done|lia].
  - intros j Hj Hn. rewrite B2; [by apply B1|done|]. intros H. by apply Hn, C1.
  - split; congruence.
Qed.

Lemma TOk_step i t bufs t' bufs' : TOk i bufs t -> tStep i t bufs t' bufs' -> TOk i bufs' t'.
Proof. intros [H1 H2] [_ _ Hi Hits _ _]. split; [done|]. intros j Hj. by apply H2, Hi. Qed.

Lemma t_updateAt_spec t p it q it' n : t_itemsByFlow t !! ti_key it' = Some (p ++ it :: q) -> n = len p ->
  t_updateAt t it' n = Some (t_put t (ti_key it') (p ++ it' :: q)).
Proof. intros Hk Hn. unfold t_updateAt. rewrite Hk. cbn [default from_option id]. by rewrite set_at_field. Qed.

Lemma t_deleteAt_spec t k p it q n : t_itemsByFlow t !! k = Some (p ++ it :: q) -> n = len p ->
  t_deleteAt t k n = Some (t_put t k (p ++ q)).
Proof.
  intros Hk ->. unfold t_deleteAt. rewrite Hk. cbn [default from_option id]. rewrite slice_prefix_app. cbn [mbind option_bind].
  replace (p ++ it :: q) with ((p ++ [it]) ++ q) by (by rewrite <- app_assoc).
  replace (len p + 1) with (len (p ++ [it])) by size_lia. by rewrite slice_tail by done.
Qed.

(** The items of a flow from the last to the first. *)
Lemma tcpItems_spec i bufs isV6 iph tcph b k items seq (psh : bool) gso : 0 < gso -> tk_isV6 k = isV6 ->
  tcpPkt i bufs isV6 iph tcph b -> Forall bufOk bufs -> Forall (tItemOk bufs k) items -> Forall (fun it => ti_bufsIndex it <> i) items ->
  forall n rest t, (n <= length items)%nat -> TOk i bufs t -> t_itemsByFlow t !! k = Some (take n items ++ rest) ->
  exists r t' bufs', tcpItems be n items (pktOf b) iph tcph seq psh gso bufs offset i t isV6 = Some (r, t', bufs') /\
    tStep i t bufs t' bufs' /\ (r <> Some groResultCoalesced -> bufs' = bufs) /\ r <> Some groResultTableInsert.
Proof.
  intros Hg Hv Hp Hf Hits Hidx n. induction n as [|n IH]; intros rest t Hn Ht Hk.
  { exists None, t, bufs. split_and!; try done. by apply tStep_refl. }
  destruct (lookup_lt_is_Some_2 items n) as (it & Hit); [lia|].
  pose proof (Forall_lookup_1 _ _ _ _ Hits Hit) as Hok. pose proof (Forall_lookup_1 _ _ _ _ Hidx Hit) as Hne. cbn in Hne.
  assert (take (S n) items ++ rest = take n items ++ it :: rest) as Hsplit by (by rewrite (take_S_r _ _ it), <- app_assoc).
  rewrite Hsplit in Hk. cbn [tcpItems]. rewrite (at_Some items (Z.of_nat n) it) by (rewrite ?Nat2Z.id; done || lia). cbn [mbind option_bind].
  pose proof Hp as [_ Hiph Htc _]. assert (u8 iph = iph /\ u8 tcph = tcph) as [-> ->].
  { split; [rewrite <- (Z.add_0_r iph), Hiph; apply iph_small; lia|apply u8_small; width_lia]. }
  destruct (tcpCan_total i bufs isV6 iph tcph b k it seq psh gso Hf Hp Hok Hv) as (can & -> & Hcan). cbn [mbind option_bind].
  destruct (decide (can = coalesceUnavailable)) as [|Hcu]; [apply (IH (it :: rest)); [lia|done|done]|].
  assert (mergePost i k it bufs (coalesceTCPPackets be can (pktOf b) i gso seq psh it bufs offset isV6)) as (res & it' & bufs' & -> & Hfail & Hgr & Hfr & Hok' & Hidx').
  { destruct can; [eapply merge_prepend|done|eapply merge_append]; eauto. }
  cbn [mbind option_bind]. pose proof (TOk_items_grow _ _ _ _ Ht Hgr _ _ Hk) as Hall. apply Forall_app in Hall as [Ha [_ Hb]%Forall_cons].
  assert (Z.of_nat n = len (take n items)) as Hlen by (unfold len; rewrite length_take; lia).
  destruct (decide (res = coalesceSuccess)) as [->|Hres]; [|destruct (Hfail Hres) as [-> ->]; destruct res; try done; try (apply (IH (it :: rest)); [lia|done|done])].
  - assert (ti_key it' = k) as Hk' by apply Hok'. rewrite (t_updateAt_spec t (take n items) it rest) by (by rewrite ?Hk'). cbn [mbind option_bind]. rewrite Hk'.
    eexists _, _, _. split; [done|]. split_and!; [|done|done].
    eapply t_put_step; [done|done|exact Hk| |by apply Forall_app_2; [|apply Forall_cons_2]|].
    + intros j Hj Hnj. apply Hfr; [done|]. intros ->. apply Hnj. exists k, (take n items ++ it :: rest), it. split_and!; [exact Hk| |done]. apply elem_of_app. right. by left.
    + intros x [Hx|[-> |Hx]%elem_of_cons]%elem_of_app; [exists x|exists it|exists x]; (split; [|done]); apply elem_of_app; [left|right; left|right; right]; done.
  - rewrite (tok_key _ _ _ Hok), (t_deleteAt_spec t k (take n items) it rest) by done. cbn [mbind option_bind].
    assert (tStep i t bufs (t_put t k (take n items ++ rest)) bufs) as Hst.
    { eapply t_put_step; [done|by apply grows_refl|exact Hk|done|by apply Forall_app_2|].
      intros x Hx. exists x. split; [|done]. apply elem_of_app in Hx as [Hx|Hx]; apply elem_of_app; [by left|right; by right]. }
    destruct (IH rest (t_put t k (take n items ++ rest))) as (r & t' & bufs' & Hrun & Hst' & Hrest); [lia|by eapply TOk_step|cbn; apply lookup_insert_eq|].
    exists r, t', bufs'. split; [done|]. split; [by eapply tStep_trans|done].
  - exists (Some groResultNoop), t, bufs. split_and!; try done. by apply tStep_refl.
Qed.

Lemma iphOf_range isV6 : 20 <= iphOf isV6 <= 40.
Proof. unfold iphOf. destruct isV6; lia. Qed.

(** The round of a TCP packet: the table may get the packet's own buffer. *)
Record tRound (i : Z) (t : tcpGROTable) (bufs : list Buf) (t' : tcpGROTable) (bufs' : list Buf) : Prop := {
  tr_grows : grows i bufs bufs';
  tr_frame : forall j, j <> i -> ~ tIdx t j -> at_ bufs' j = at_ bufs j;
  tr_idx : forall j, tIdx t' j -> j = i \/ tIdx t j;
  tr_items : forall k its, t_itemsByFlow t' !! k = Some its -> Forall (tItemOk bufs' k) its;
  tr_size : (size (t_itemsByFlow t') + t_itemsPool t' = size (t_itemsByFlow t) + t_itemsPool t)%nat /\
            (size (t_itemsByFlow t') <= S (size (t_itemsByFlow t)))%nat
}.

Lemma tStep_round i t bufs t' bufs' : tStep i t bufs t' bufs' -> tRound i t bufs t' bufs'.
Proof. intros [A B C D E [F G]]. split; try done; [by auto|lia]. Qed.

Lemma t_insert_spec i bufs isV6 iph tcph b t : tcpPkt i bufs isV6 iph tcph b -> Forall bufOk bufs -> 0 <= i < 65536 ->
  (forall k its, t_itemsByFlow t !! k = Some its -> Forall (tItemOk bufs k) its) ->
  iph + tcph < len (pktOf b) <= 65535 ->
  let s := if isV6 then ipv6SrcAddrOffset else ipv4SrcAddrOffset in
  (0 < t_itemsPool t)%nat ->
  exists t', t_insert t (pktOf b) s (s + (if isV6 then 16 else 4)) iph tcph i = Some t' /\ tRound i t bufs t' bufs.
Proof.
  intros [Hat -> Ht Hl] Hf Hi Hits Hlen s Hpool. pose proof (iphOf_range isV6). pose proof (bufOk_at _ _ _ Hf Hat) as Hbo. unfold bufOk in Hbo.
  pose proof (pktOf_len b ltac:(lia)) as Hpl.
  destruct (newTCPFlowKey_total (pktOf b) isV6) as (k & Hk & Hkv); [lia|]. fold s in Hk. unfold t_insert. rewrite Hk. cbn [mbind option_bind].
  destruct (slice_total (pktOf b) (iphOf isV6 + tcph) (len (pktOf b))) as (pl & -> & Hpll); [lia|lia|].
  destruct (get32_total (pktOf b) (iphOf isV6 + 4)) as (sq & ->); [lia|lia|]. unfold tcpFlagsOffset. rewrite at_nth by lia. cbn [mbind option_bind].
  set (item := {| ti_key := k; ti_sentSeq := _ |}).
  assert (tItemOk bufs k item) as Hitem.
  { assert (u8 (iphOf isV6) = iphOf isV6 /\ u8 tcph = tcph) as [E1 E2] by (split; apply u8_small; width_lia).
    split; unfold item; cbn [ti_key ti_iphLen ti_tcphLen ti_gsoSize ti_bufsIndex]; rewrite ?E1, ?E2; [done|by rewrite Hkv|done|rewrite u16_small by width_lia; lia|].
    exists b. rewrite u16_small by width_lia. split; [done|lia]. }
  assert (ti_bufsIndex item = i) as Hidx by (cbn; apply u16_small; width_lia). clearbody item.
  assert (exists its t1, match t_itemsByFlow t !! k with Some items => Some (items, t) | None => t_newItems t end = Some (its, t1) /\
    t_itemsByFlow t1 = t_itemsByFlow t /\ its = default [] (t_itemsByFlow t !! k) /\
    t_itemsPool t1 = match t_itemsByFlow t !! k with Some _ => t_itemsPool t | None => pred (t_itemsPool t) end) as (its & t1 & -> & Hm1 & Hits1 & Hp1).
  { destruct (t_itemsByFlow t !! k) as [l|]; [by exists l, t|]. unfold t_newItems. destruct (t_itemsPool t) as [|n]; [lia|]. by exists [], {| t_itemsByFlow := t_itemsByFlow t; t_itemsPool := n |}. }
  cbn [mbind option_bind]. eexists. split; [done|]. split; [by apply grows_refl|done| | |].
  - intros j (k' & its' & it & Hk' & Hin & <-). cbn in Hk'. rewrite Hm1 in Hk'. apply lookup_insert_Some in Hk' as [[<- <-]|[_ Hk']]; [|right; by exists k', its', it].
    apply elem_of_app in Hin as [Hin|Hin%list_elem_of_singleton]; [right|left; congruence].
    destruct (t_itemsByFlow t !! k) as [l|] eqn:E; cbn in Hits1; subst its; [by exists k, l, it|by apply elem_of_nil in Hin].
  - intros k' its' Hk'. cbn in Hk'. rewrite Hm1 in Hk'. apply lookup_insert_Some in Hk' as [[<- <-]|[_ Hk']]; [|by apply Hits].
    apply Forall_app_2; [|by apply Forall_singleton]. destruct (t_itemsByFlow t !! k) as [l|] eqn:E; cbn in Hits1; subst its; [by apply Hits|by apply Forall_nil].
  - cbn. rewrite Hm1, Hp1. destruct (t_itemsByFlow t !! k) as [l|] eqn:E; [rewrite (map_size_insert_Some k _ (t_itemsByFlow t)) by done; lia|rewrite map_size_insert_None by done; lia].
Qed.

Lemma tRound_trans i t bufs t1 bufs1 t2 : tStep i t bufs t1 bufs1 -> tRound i t1 bufs1 t2 bufs1 -> tRound i t bufs t2 bufs1.
Proof.
  intros [A1 B1 C1 D1 E1 [F1 G1]] [A2 B2 C2 D2 [F2 G2]]. split; try done.
  - intros j Hj. destruct (C2 j Hj) as [|H]; [by left|right; by apply C1].
  - rewrite <- F1, <- G1. done.
Qed.

Lemma tRound_refl i t bufs : Forall bufOk bufs -> TOk i bufs t -> tRound i t bufs t bufs.
Proof. intros. by apply tStep_round, tStep_refl. Qed.

Lemma tcpGRO_spec i bufs t isV6 b : Forall bufOk bufs -> TOk i bufs t -> at_ bufs i = Some b -> 0 <= i < 65536 ->
  headOk isV6 (pktOf b) -> iphOf isV6 + 20 <= len (pktOf b) -> (0 < t_itemsPool t)%nat ->
  exists r t' bufs', tcpGRO be bufs offset i t isV6 = Some (r, t', bufs') /\ tRound i t bufs t' bufs'.
Proof.
  intros Hf Ht Hat Hi Hhead Hlen Hpool. assert (exists r t' bufs', Some (groResultNoop, t, bufs) = Some (r, t', bufs') /\ tRound i t bufs t' bufs') as Hnoop.
  { eexists _, _, _. split; [done|by apply tRound_refl]. }
  pose proof (bufOk_at _ _ _ Hf Hat) as Hbo. unfold bufOk in Hbo. pose proof (iphOf_range isV6).
  unfold tcpGRO. cbv zeta. rewrite Hat. cbn [mbind option_bind]. rewrite tailOf_pkt by lia. cbn [mbind option_bind].
  destruct (ipHeaderLen_total _ _ Hhead) as (h & -> & Hh). cbn [mbind option_bind]. destruct h as [iph|]; [|done].
  destruct (Hh iph eq_refl) as [-> Hpl]. clear Hh. unfold tcpFlagsOffset. rewrite !at_nth by lia. cbn [mbind option_bind].
  set (tcph := u8 _). destruct (Z.ltb_spec tcph 20) as [|H20]; [done|]. destruct (Z.ltb_spec 60 tcph) as [|H60]; [done|]. cbn [orb].
  destruct (Z.ltb_spec (len (pktOf b)) (iphOf isV6 + tcph)) as [|Hfit]; [done|].
  destruct (fragmented_total (pktOf b) isV6) as (fr & ->); [apply Hhead|]. cbn [mbind option_bind]. destruct fr; [done|].
  destruct (_ && _); [done|].
  rewrite u16_small by width_lia. destruct (Z.ltb_spec (len (pktOf b) - tcph - iphOf isV6) 1) as [|Hg]; [done|].
  destruct (get32_total (pktOf b) (iphOf isV6 + 4)) as (sq & ->); [lia|lia|]. cbn [mbind option_bind].
  assert (tcpPkt i bufs isV6 (iphOf isV6) tcph b) as Hp by (split; [done|done|lia|lia]).
  assert (forall t1, (forall k its, t_itemsByFlow t1 !! k = Some its -> Forall (tItemOk bufs k) its) -> (0 < t_itemsPool t1)%nat -> _) as Hins
    by (intros t1 H1 H2; exact (t_insert_spec i bufs isV6 (iphOf isV6) tcph b t1 Hp Hf Hi H1 ltac:(lia) H2)). cbv zeta in Hins.
  destruct (newTCPFlowKey_total (pktOf b) isV6) as (k & Hk & Hkv); [lia|]. cbv zeta in Hk. unfold t_lookupOrInsert. rewrite Hk. cbn [mbind option_bind].
  destruct (t_itemsByFlow t !! k) as [items|] eqn:E.
  - cbn [mbind option_bind].
    destruct (tcpItems_spec i bufs isV6 (iphOf isV6) tcph b k items sq (negb (nth (Z.to_nat (iphOf isV6 + 13)) (pktOf b) 0 =? tcpFlagACK)) (len (pktOf b) - tcph - iphOf isV6)
      ltac:(lia) Hkv Hp Hf) with (n := length items) (rest := @nil tcpGROItem) (t := t) as (r & t' & bufs' & -> & Hst & Hsame & Hnt); [by apply (T_items _ _ _ Ht)| |lia|done|by rewrite take_ge, app_nil_r by lia|].
    { apply Forall_forall. intros it Hit. assert (0 <= ti_bufsIndex it < i) by (apply (T_idx _ _ _ Ht); by exists k, items, it). lia. }
    cbn [mbind option_bind]. destruct r as [g|]; [eexists _, _, _; split; [done|by apply tStep_round]|].
    rewrite Hsame in * by done. destruct (Hins t') as (t2 & -> & Hr); [by apply (ts_items _ _ _ _ _ Hst)|by rewrite (proj2 (ts_size _ _ _ _ _ Hst))|].
    cbn [mbind option_bind]. eexists _, _, _. split; [done|]. by eapply tRound_trans.
  - destruct (Hins t) as (t2 & -> & Hr); [by apply (T_items _ _ _ Ht)|done|]. cbn [mbind option_bind]. eexists _, _, _. split; [done|]. done.
Qed.

(** ** UDP: the datagrams of a flow *)

Record uItemOk (bufs : list Buf) (k : udpFlowKey) (it : udpGROItem) : Prop := {
  uok_key : ui_key it = k;
  uok_iph : ui_iphLen it = iphOf (uk_isV6 k);
  uok_gso : 0 < ui_gsoSize it;
  uok_buf : exists b, at_ bufs (ui_bufsIndex it) = Some b /\ offset + ui_iphLen it + udphLen <= len (dat b)
}.

(** The datagrams a receiver cuts out of the packet of an item. *)
Definition uData (bufs : list Buf) (it : udpGROItem) : list (list Z) :=
  match at_ bufs (ui_bufsIndex it) with
  | Some b => pieces (ui_gsoSize it) (drop (Z.to_nat (offset + ui_iphLen it + udphLen)) (dat b))
  | None => []
  end.
Definition uItems (u : udpGROTable) (k : udpFlowKey) : list udpGROItem := default [] (u_itemsByFlow u !! k).
Definition flowData (bufs : list Buf) (u : udpGROTable) (k : udpFlowKey) : list (list Z) := concat (uData bufs <$> uItems u k).
Definition uIdx (u : udpGROTable) (k : udpFlowKey) : list Z := ui_bufsIndex <$> uItems u k.

Record UOk (i : Z) (bufs : list Buf) (u : udpGROTable) : Prop := {
  U_items : forall k, Forall (uItemOk bufs k) (uItems u k);
  U_nonempty : forall k, u_itemsByFlow u !! k <> Some [];
  U_idx : forall k j, j ∈ uIdx u k -> 0 <= j < i;
  U_nodup : forall k, NoDup (uIdx u k);
  U_flow : forall k k' j, j ∈ uIdx u k -> j ∈ uIdx u k' -> k = k'
}.

(** The flow and the payload of a packet that udpGRO takes up. *)
Definition udpFlow (pkt : list Z) (isV6 : bool) : option (udpFlowKey * list Z) :=
  h ← ipHeaderLen pkt isV6;
  iph ← h;
  if len pkt <? iph + udphLen then None
  else
    frag ← fragmented pkt isV6;
    if (frag : bool) then None
    else if len pkt - udphLen - iph <? 1 then None
    else
      let s := if isV6 then ipv6SrcAddrOffset else ipv4SrcAddrOffset in
      k ← newUDPFlowKey pkt s (s + (if isV6 then 16 else 4)) iph;
      Some (k, drop (Z.to_nat (iph + udphLen)) pkt).
Definition arrival (f : option (udpFlowKey * list Z)) (k : udpFlowKey) : list (list Z) :=
  match f with Some (k', p) => if decide (k' = k) then [p] else [] | None => [] end.

Record uRound (i : Z) (u : udpGROTable) (bufs : list Buf) (f : option (udpFlowKey * list Z)) (u' : udpGROTable) (bufs' : list Buf) : Prop := {
  ur_len : len bufs' = len bufs;
  ur_bufs : Forall bufOk bufs';
  ur_frame : forall j, (forall k, j ∉ uIdx u k) -> at_ bufs' j = at_ bufs j;
  ur_ok : UOk (i + 1) bufs' u';
  ur_idx : forall k j, j ∈ uIdx u' k -> j = i \/ j ∈ uIdx u k;
  ur_data : forall k, flowData bufs' u' k = flowData bufs u k ++ arrival f k;
  ur_size : (size (u_itemsByFlow u') + u_itemsPool u' = size (u_itemsByFlow u) + u_itemsPool u)%nat /\
            (size (u_itemsByFlow u') <= S (size (u_itemsByFlow u)))%nat
}.

Lemma uItems_put u k its k' : uItems (u_put u k its) k' = if decide (k = k') then its else uItems u k'.
Proof. unfold uItems, u_put. cbn. destruct (decide (k = k')) as [->|]; [by rewrite lookup_insert_eq|by rewrite lookup_insert_ne]. Qed.

Lemma UOk_weaken i bufs u : UOk i bufs u -> UOk (i + 1) bufs u.
Proof. intros [A B C D E]. split; try done. intros k j Hj. apply C in Hj. lia. Qed.

Lemma uRound_noop i u bufs : Forall bufOk bufs -> UOk i bufs u -> uRound i u bufs None u bufs.
Proof.
  intros Hf Hu. split; try done; [by apply UOk_weaken|by right| |lia].
  intros k. cbn. by rewrite app_nil_r.
Qed.

(** Adding the packet at [i] as an item of its own. *)
Lemma uRound_insert i u bufs k it p : Forall bufOk bufs -> UOk i bufs u -> (0 < u_itemsPool u)%nat ->
  uItemOk bufs k it -> ui_bufsIndex it = i -> uData bufs it = [p] ->
  exists its u1, match u_itemsByFlow u !! k with Some items => Some (items, u) | None => u_newItems u end = Some (its, u1) /\
    uRound i u bufs (Some (k, p)) (u_put u1 k (its ++ [it])) bufs.
Proof.
  intros Hf [A B C D E] Hpool Hit Hi Hd.
  assert (exists its u1, match u_itemsByFlow u !! k with Some items => Some (items, u) | None => u_newItems u end = Some (its, u1) /\
    u_itemsByFlow u1 = u_itemsByFlow u /\ its = uItems u k /\
    u_itemsPool u1 = match u_itemsByFlow u !! k with Some _ => u_itemsPool u | None => pred (u_itemsPool u) end) as (its & u1 & Hm & Hm1 & -> & Hp1).
  { unfold uItems. destruct (u_itemsByFlow u !! k) as [l|]; [by exists l, u|]. unfold u_newItems. destruct (u_itemsPool u) as [|n]; [lia|].
    by exists [], {| u_itemsByFlow := u_itemsByFlow u; u_itemsPool := n |}. }
  eexists _, u1. split; [exact Hm|].
  assert (forall k', uItems (u_put u1 k (uItems u k ++ [it])) k' = if decide (k = k') then uItems u k ++ [it] else uItems u k') as Hits.
  { intros k'. rewrite uItems_put. unfold uItems. by rewrite Hm1. }
  assert (forall k' j, j ∈ uIdx (u_put u1 k (uItems u k ++ [it])) k' -> (j = i /\ k' = k) \/ j ∈ uIdx u k') as Hidx.
  { intros k' j. unfold uIdx. rewrite Hits. destruct (decide (k = k')) as [->|]; [|by right].
    rewrite fmap_app, elem_of_app. intros [H|H]; [by right|left]. cbn in H. apply list_elem_of_singleton in H. split; congruence. }
  split; try done.
  - split.
    + intros k'. rewrite Hits. destruct (decide (k = k')) as [<-|]; [apply Forall_app_2; [done|by apply Forall_singleton]|done].
    + intros k'. cbn. rewrite Hm1. intros H. apply lookup_insert_Some in H as [[_ H]|[_ H]]; [by apply app_eq_nil in H as [_ ?]|by apply B in H].
    + intros k' j [[-> _]|Hj]%Hidx; [|apply C in Hj; lia]. split; [|lia]. destruct Hit as [_ _ _ (b' & Hb' & _)]. apply at_range in Hb'. lia.
    + intros k'. unfold uIdx. rewrite Hits. destruct (decide (k = k')) as [<-|]; [|apply D]. rewrite fmap_app. apply NoDup_app. split_and!; [apply D| |apply NoDup_singleton].
      intros j Hj Hj'. cbn in Hj'. apply list_elem_of_singleton in Hj'. apply C in Hj. lia.
    + intros k1 k2 j [[-> ->]|H1]%Hidx [[Hj ->]|H2]%Hidx; [done|apply C in H2; lia|subst j; apply C in H1; lia|by eapply E].
  - intros k' j Hj. destruct (Hidx k' j Hj) as [[-> _]|]; [by left|by right].
  - intros k'. unfold flowData. rewrite Hits. cbn [arrival]. destruct (decide (k = k')) as [<-|]; [|by rewrite app_nil_r].
    rewrite fmap_app, concat_app. cbn. by rewrite Hd, app_nil_r.
  - cbn. rewrite Hm1, Hp1. destruct (u_itemsByFlow u !! k) as [l|] eqn:El; [rewrite (map_size_insert_Some k _ (u_itemsByFlow u)) by done; lia|rewrite map_size_insert_None by done; lia].
Qed.

Lemma uData_frame bufs bufs' it : at_ bufs' (ui_bufsIndex it) = at_ bufs (ui_bufsIndex it) -> uData bufs' it = uData bufs it.
Proof. intros H. unfold uData. by rewrite H. Qed.
Lemma uItemOk_frame bufs bufs' k it : at_ bufs' (ui_bufsIndex it) = at_ bufs (ui_bufsIndex it) -> uItemOk bufs k it -> uItemOk bufs' k it.
Proof. intros H [A B C D]. split; try done. by rewrite H. Qed.

(** Appending the payload [pl] to the last item of a flow. *)
Lemma uRound_merge i u bufs k p it b pl bufs' : Forall bufOk bufs -> UOk i bufs u -> u_itemsByFlow u !! k = Some (p ++ [it]) ->
  at_ bufs (ui_bufsIndex it) = Some b -> set_at bufs (ui_bufsIndex it) (with_dat b (dat b ++ pl)) = Some bufs' ->
  (len (dat b) - (offset + ui_iphLen it + udphLen)) mod ui_gsoSize it = 0 -> 1 <= len pl <= ui_gsoSize it ->
  uRound i u bufs (Some (k, pl)) (u_put u k (p ++ [u_merged it])) bufs'.
Proof.
  intros Hf Hu Hk Hb Hset Hmod Hpl. pose proof Hu as [A B C D E].
  destruct (set_at_total bufs (ui_bufsIndex it) (with_dat b (dat b ++ pl))) as (l & Hset' & Hlen & Hat); [by eapply at_range|].
  rewrite Hset' in Hset. injection Hset as ->. assert (uItems u k = p ++ [it]) as Hits by (unfold uItems; by rewrite Hk).
  assert (it ∈ uItems u k) as Hin by (rewrite Hits; apply elem_of_app; right; by apply list_elem_of_singleton).
  assert (uItemOk bufs k it) as Hit by (specialize (A k); rewrite Forall_forall in A; by apply A).
  pose proof Hit as [Hkey Hiph Hgso (b0 & Hb0 & Hbl)]. rewrite Hb in Hb0. injection Hb0 as <-.
  assert (ui_bufsIndex it ∈ uIdx u k) as Hidx by (by apply list_elem_of_fmap_2).
  pose proof (D k) as Hnd. unfold uIdx in Hnd. rewrite Hits, fmap_app in Hnd. apply NoDup_app in Hnd as (_ & Hnd & _).
  assert (forall x, x ∈ p -> at_ bufs' (ui_bufsIndex x) = at_ bufs (ui_bufsIndex x)) as Hpf.
  { intros x Hx. rewrite Hat, decide_False; [done|]. intros Heq. apply (Hnd (ui_bufsIndex x)); [by apply list_elem_of_fmap_2|]. apply list_elem_of_singleton. by rewrite <- Heq. }
  assert (forall k' x, k' <> k -> x ∈ uItems u k' -> at_ bufs' (ui_bufsIndex x) = at_ bufs (ui_bufsIndex x)) as Hkf.
  { intros k' x Hne Hx. rewrite Hat, decide_False; [done|]. intros Heq. apply Hne, (E k' k (ui_bufsIndex x)); [by apply list_elem_of_fmap_2|by rewrite <- Heq]. }
  assert (forall k', uIdx (u_put u k (p ++ [u_merged it])) k' = uIdx u k') as Hsame.
  { intros k'. unfold uIdx. rewrite uItems_put. destruct (decide (k = k')) as [<-|]; [|done]. rewrite Hits, !fmap_app. done. }
  assert (Forall bufOk bufs') as Hf'.
  { eapply bufOk_set; [exact Hf| |exact Hset']. pose proof (bufOk_at _ _ _ Hf Hb) as Hbo. unfold bufOk in *. rewrite with_dat_len, len_app. lia. }
  split; try done.
  - intros j Hj. rewrite Hat, decide_False; [done|]. intros <-. by apply (Hj k).
  - split; try (intros *; rewrite ?Hsame; auto).
    + rewrite uItems_put. specialize (A k0). destruct (decide (k = k0)) as [<-|Hne].
      * rewrite Hits in A. apply Forall_app in A as [A1 _]. apply Forall_app_2.
        -- rewrite Forall_forall in *. intros x Hx. eapply uItemOk_frame; [by apply Hpf|by apply A1].
        -- apply Forall_singleton. split; [done|done|done|]. cbn. exists (with_dat b (dat b ++ pl)). rewrite Hat, decide_True by done. split; [done|]. rewrite with_dat_len, len_app. lia.
      * rewrite Forall_forall in *. intros x Hx. eapply uItemOk_frame; [by eapply Hkf|by apply A].
    + cbn. intros H. apply lookup_insert_Some in H as [[_ H]|[_ H]]; [by apply app_eq_nil in H as [_ ?]|by apply B in H].
    + intros Hj. apply C in Hj. lia.
    + apply E.
  - intros k' j. rewrite Hsame. by right.
  - intros k'. unfold flowData. rewrite uItems_put. cbn [arrival]. destruct (decide (k = k')) as [<-|Hne].
    + rewrite Hits, !fmap_app, !concat_app. cbn [fmap list_fmap concat]. rewrite !app_nil_r, <- app_assoc. f_equal.
      * f_equal. apply list_fmap_ext. intros n x Hx. apply uData_frame, Hpf. by eapply list_elem_of_lookup_2.
      * unfold uData. cbn [u_merged ui_bufsIndex ui_iphLen ui_gsoSize]. rewrite Hat, decide_True by done. rewrite Hb. cbn [dat with_dat].
        rewrite drop_app_le by (unfold len in Hbl; lia). apply pieces_snoc; [done| |done].
        rewrite <- Hmod. f_equal. unfold len in *. rewrite length_drop. unfold virtioNetHdrLen in Hoff. pose proof (iphOf_range (uk_isV6 k)). unfold udphLen in *. lia.
    + rewrite app_nil_r. f_equal. apply list_fmap_ext. intros n x Hx. apply uData_frame, (Hkf k'); [done|]. by eapply list_elem_of_lookup_2.
  - cbn. rewrite (map_size_insert_Some k _ (u_itemsByFlow u)) by done. lia.
Qed.

(** Inserting the packet at [i]: the payload is its only datagram. *)
Lemma u_insert_spec i u bufs (isV6 : bool) b k inv : Forall bufOk bufs -> UOk i bufs u -> (0 < u_itemsPool u)%nat -> at_ bufs i = Some b -> 0 <= i < 65536 ->
  let s := if isV6 then ipv6SrcAddrOffset else ipv4SrcAddrOffset in
  newUDPFlowKey (pktOf b) s (s + (if isV6 then 16 else 4)) (iphOf isV6) = Some k -> uk_isV6 k = isV6 ->
  1 <= len (pktOf b) - udphLen - iphOf isV6 -> len (pktOf b) <= 65535 ->
  exists u', u_insert u (pktOf b) s (s + (if isV6 then 16 else 4)) (iphOf isV6) i inv = Some u' /\
    uRound i u bufs (Some (k, drop (Z.to_nat (iphOf isV6 + udphLen)) (pktOf b))) u' bufs.
Proof.
  intros Hf Hu Hpool Hat Hi s Hk Hv Hg Hl. unfold u_insert. rewrite Hk. cbn [mbind option_bind]. unfold udphLen in *. pose proof (iphOf_range isV6).
  pose proof (bufOk_at _ _ _ Hf Hat) as Hbo. unfold bufOk in Hbo. pose proof (pktOf_len b ltac:(lia)) as Hpl.
  rewrite slice_suffix by lia. cbn [mbind option_bind]. set (pl := drop (Z.to_nat (iphOf isV6 + 8)) (pktOf b)).
  assert (len pl = len (pktOf b) - 8 - iphOf isV6) as Hpll by (unfold pl, len; rewrite length_drop; unfold len in *; lia).
  set (it := {| ui_key := k; ui_bufsIndex := _ |}).
  assert (ui_bufsIndex it = i /\ ui_iphLen it = iphOf isV6 /\ ui_gsoSize it = len pl) as (E1 & E2 & E3).
  { cbn. split_and!; [apply u16_small; width_lia|apply u8_small; width_lia|apply u16_small; width_lia]. }
  destruct (uRound_insert i u bufs k it pl Hf Hu Hpool) as (its & u1 & -> & Hr); [|done| |].
  - split; [done|by rewrite Hv|lia|]. exists b. rewrite E1, E2. unfold udphLen. split; [done|lia].
  - unfold uData. rewrite E1, E2, E3, Hat. unfold udphLen. replace (drop _ (dat b)) with pl; [apply pieces_one; lia|].
    unfold pl, pktOf. rewrite drop_drop. f_equal. unfold virtioNetHdrLen in Hoff. lia.
  - cbn [mbind option_bind]. by eexists.
Qed.

Lemma udpCan_spec bufs isV6 k it tb pkt gso : uItemOk bufs k it -> uk_isV6 k = isV6 -> at_ bufs (ui_bufsIndex it) = Some tb ->
  exists can, udpPacketsCanCoalesce pkt (u8 (iphOf isV6)) gso it bufs offset = Some can /\
    (can = coalesceAppend -> (len (dat tb) - (offset + ui_iphLen it + udphLen)) mod ui_gsoSize it = 0 /\ gso <= ui_gsoSize it).
Proof.
  intros [_ Hiph Hgso (b & Hb & Htl)] Hkv Htb. rewrite Htb in Hb. injection Hb as <-. rewrite Hkv in Hiph. pose proof (iphOf_range isV6).
  unfold udphLen in *. pose proof (pktOf_len tb ltac:(lia)) as Hlt.
  assert (u8 (iphOf isV6) = iphOf isV6 /\ u8 (iphOf isV6 + 8) = iphOf isV6 + 8) as [E8 E9] by (split; apply u8_small; width_lia).
  unfold udpPacketsCanCoalesce. rewrite E8, Htb. cbn [mbind option_bind]. rewrite tailOf_pkt by lia. cbn [mbind option_bind]. unfold udphLen. rewrite E9, tailMod_total by lia.
  cbn [mbind option_bind]. destruct (ipHeadersCanCoalesce _ _); cbn [negb]; [|by eexists].
  destruct (Z.eqb_spec ((len (pktOf tb) - (iphOf isV6 + 8)) mod ui_gsoSize it) 0) as [Hmod|]; cbn [negb]; [|by eexists].
  destruct (Z.ltb_spec (ui_gsoSize it) gso); [by eexists|]. eexists. split; [done|]. intros _. split; [|done]. rewrite <- Hmod. f_equal. lia.
Qed.

Lemma coalesceUDP_spec bufs isV6 k it tb pkt : uItemOk bufs k it -> uk_isV6 k = isV6 -> at_ bufs (ui_bufsIndex it) = Some tb -> iphOf isV6 + udphLen <= len pkt ->
  exists res it' bufs', coalesceUDPPackets be pkt it bufs offset isV6 = Some (res, it', bufs') /\
    (res <> coalesceSuccess -> it' = it /\ bufs' = bufs) /\
    (res = coalesceSuccess -> it' = u_merged it /\
      set_at bufs (ui_bufsIndex it) (with_dat tb (dat tb ++ drop (Z.to_nat (iphOf isV6 + udphLen)) pkt)) = Some bufs').
Proof.
  intros [_ Hiph Hgso (b & Hb & Htl)] Hkv Htb Hl. rewrite Htb in Hb. injection Hb as <-. rewrite Hkv in Hiph. pose proof (iphOf_range isV6).
  unfold udphLen in *. pose proof (pktOf_len tb ltac:(lia)) as Hlt. unfold coalesceUDPPackets. rewrite Htb. cbn [mbind option_bind]. rewrite tailOf_pkt by lia. cbn [mbind option_bind].
  destruct (_ <? _); [by eexists _, _, _|].
  destruct (checksumValid_total (pktOf tb) _ IPPROTO_UDP isV6 Hiph) as (c1 & ->); [lia|]. destruct (checksumValid_total pkt _ IPPROTO_UDP isV6 Hiph) as (c2 & ->); [lia|].
  assert (exists ok : bool, (if ui_numMerged it =? 0 then if ui_cSumKnownInvalid it then Some false else Some c1 else Some true) = Some ok) as (ok & ->) by (repeat case_match; by eexists).
  cbn [mbind option_bind]. destruct ok; cbn [negb]; [|by eexists _, _, _]. destruct c2; cbn [negb]; [|by eexists _, _, _].
  unfold udphLen. rewrite Hiph, u8_small by width_lia. rewrite slice_suffix by lia. cbn [mbind option_bind].
  replace (offset + len (pktOf tb)) with (len (dat tb)) by lia. rewrite extend_spec by (try (unfold len; rewrite length_drop; unfold len in *); lia). cbn [mbind option_bind].
  destruct (set_at_total bufs (ui_bufsIndex it) (with_dat tb (dat tb ++ drop (Z.to_nat (iphOf isV6 + 8)) pkt))) as (bufs' & Hset & _ & _); [by eapply at_range|].
  rewrite Hset. cbn [mbind option_bind]. eexists _, _, _. split; [done|]. split; [done|]. done.
Qed.

Lemma udpGRO_spec i bufs u isV6 b : Forall bufOk bufs -> UOk i bufs u -> at_ bufs i = Some b -> 0 <= i < 65536 ->
  headOk isV6 (pktOf b) -> (0 < u_itemsPool u)%nat ->
  exists r u' bufs', udpGRO be bufs offset i u isV6 = Some (r, u', bufs') /\ uRound i u bufs (udpFlow (pktOf b) isV6) u' bufs'.
Proof.
  intros Hf Hu Hat Hi Hhead Hpool. assert (exists r u' bufs', Some (groResultNoop, u, bufs) = Some (r, u', bufs') /\ uRound i u bufs None u' bufs') as Hnoop.
  { eexists _, _, _. split; [done|by apply uRound_noop]. }
  pose proof (bufOk_at _ _ _ Hf Hat) as Hbo. unfold bufOk in Hbo. pose proof (iphOf_range isV6).
  unfold udpGRO, udpFlow. cbv zeta. rewrite Hat. cbn [mbind option_bind]. rewrite tailOf_pkt by lia. cbn [mbind option_bind].
  destruct (ipHeaderLen_total _ _ Hhead) as (h & -> & Hh). cbn [mbind option_bind]. destruct h as [iph|]; [|done].
  destruct (Hh iph eq_refl) as [-> Hl]. clear Hh. cbn [mbind option_bind].
  destruct (Z.ltb_spec (len (pktOf b)) (iphOf isV6 + udphLen)) as [|Hfit]; [done|].
  destruct (fragmented_total (pktOf b) isV6) as (fr & ->); [apply Hhead|]. cbn [mbind option_bind]. destruct fr; [done|].
  rewrite u16_small by (unfold udphLen in *; width_lia). destruct (Z.ltb_spec (len (pktOf b) - udphLen - iphOf isV6) 1) as [|Hg]; [done|].
  destruct (newUDPFlowKey_total (pktOf b) isV6) as (k & Hk & Hkv); [unfold udphLen in *; lia|]. cbv zeta in Hk. unfold u_lookupOrInsert. rewrite Hk. cbn [mbind option_bind].
  pose proof (fun inv => u_insert_spec i u bufs isV6 b k inv Hf Hu Hpool Hat Hi Hk Hkv Hg ltac:(lia)) as Hins. cbv zeta in Hins.
  destruct (u_itemsByFlow u !! k) as [items|] eqn:E; cycle 1.
  { destruct (Hins false) as (u' & -> & Hr). cbn [mbind option_bind]. by eexists _, _, _. }
  cbn [mbind option_bind]. destruct items as [|it p _] using rev_ind; [by apply (U_nonempty _ _ _ Hu) in E|].
  replace (len (p ++ [it]) - 1) with (len p) by size_lia. rewrite (at_field p it []) by done. cbn [mbind option_bind].
  assert (uItemOk bufs k it) as Hit.
  { pose proof (U_items _ _ _ Hu k) as HA. unfold uItems in HA. rewrite E in HA. apply Forall_app in HA as [_ HA]. by apply Forall_cons in HA as [? _]. }
  pose proof Hit as [Hkey _ _ (tb & Htb & _)].
  destruct (udpCan_spec bufs isV6 k it tb (pktOf b) (len (pktOf b) - udphLen - iphOf isV6) Hit Hkv Htb) as (can & -> & Hcan). cbn [mbind option_bind].
  destruct (decide (can = coalesceAppend)) as [Ha|]; cbn [mbind option_bind]; [|rewrite decide_False by done; destruct (Hins (bool_decide (coalesceInsufficientCap = coalescePktInvalidCSum))) as (u' & -> & Hr); by eexists _, _, _].
  destruct (Hcan Ha) as [Hmod Hsz]. destruct (coalesceUDP_spec bufs isV6 k it tb (pktOf b) Hit Hkv Htb Hfit) as (res & it' & bufs' & -> & Hfail & Hsucc). cbn [mbind option_bind].
  destruct (decide (res = coalesceSuccess)) as [Hs|Hns].
  - destruct (Hsucc Hs) as [-> Hset]. unfold u_updateAt. cbn [u_merged ui_key]. rewrite Hkey, E. cbn [default from_option id]. rewrite (set_at_field p it [] (len p)) by done.
    cbn [mbind option_bind]. eexists _, _, _. split; [done|]. eapply uRound_merge; [done|done|exact E|exact Htb|exact Hset|exact Hmod|].
    unfold len in *. rewrite length_drop. unfold udphLen in *. lia.
  - destruct (Hfail Hns) as [-> ->]. destruct (Hins (bool_decide (res = coalescePktInvalidCSum))) as (u' & -> & Hr). by eexists _, _, _.
Qed.
End Batch.
