(* ===== verification/GroSpec.v ===== *)
(** * GroSpec: handleGRO over a batch

    The invariant of the loop over the packets, the accounting of the coalesced packets,
    and the theorem that the datagrams of every UDP flow survive. *)
From S2P Require Import Prelude Checksum Gso Gro GroInv.
#[local] Open Scope Z_scope.

Section Batch.
Context (be : bool) (offset : Z) (Hoff : virtioNetHdrLen <= offset).

(** ** Buffers whose header region is rewritten *)

(** [b'] has the length of [b] and the same bytes from [n] on. *)
Definition sameFrom (n : Z) (b b' : Buf) : Prop := len (dat b') = len (dat b) /\ drop (Z.to_nat n) (dat b') = drop (Z.to_nat n) (dat b).

Lemma hdrBytes_length v : length (hdrBytes be v) = 10%nat.
Proof. unfold hdrBytes, native16. by destruct be. Qed.

Lemma drop_more {A} (l m : list A) n k : (n <= k)%nat -> drop n l = drop n m -> drop k l = drop k m.
Proof. intros Hk H. replace k with (n + (k - n))%nat by lia. by rewrite <- !drop_drop, H. Qed.

Lemma encodeAt_spec hdr d : offset <= len d ->
  exists d', encodeAt be hdr d (offset - virtioNetHdrLen) = Some (Ok d') /\ len d' = len d /\ drop (Z.to_nat offset) d' = drop (Z.to_nat offset) d.
Proof.
  intros Hd. unfold virtioNetHdrLen in Hoff. unfold encodeAt, encode, virtioNetHdrLen. rewrite slice_suffix by lia. cbn [mbind option_bind].
  set (n := Z.to_nat (offset - 10)). assert (length (drop n d) = length d - n)%nat as Hl by apply length_drop.
  rewrite (proj2 (Z.ltb_ge _ _)) by (unfold len in *; lia). eexists. split; [done|].
  rewrite inserts_0 by (rewrite hdrBytes_length; unfold len in Hd; lia). rewrite hdrBytes_length. split.
  - unfold len in *. rewrite !length_app, length_take, hdrBytes_length, !length_drop. lia.
  - rewrite app_assoc, drop_app_length'; [rewrite drop_drop; f_equal; lia|]. rewrite length_app, length_take, hdrBytes_length. unfold len in Hd. lia.
Qed.

Lemma bufOk_same n b b' : sameFrom n b b' -> bufOk offset b -> bufOk offset b'.
Proof. unfold sameFrom, bufOk. lia. Qed.

(** Rewriting the headers of a buffer keeps the tables and the datagrams. *)
Lemma touch_tcp n i bufs j b b' bufs' t : at_ bufs j = Some b -> sameFrom n b b' -> set_at bufs j b' = Some bufs' -> TOk offset i bufs t -> TOk offset i bufs' t.
Proof.
  intros Hb [Hl _] Hs [H1 H2]. destruct (set_at_total bufs j b') as (l & Hs' & _ & Hat); [by eapply at_range|]. rewrite Hs' in Hs. injection Hs as ->.
  split; [|done]. intros k its Hk. eapply Forall_impl; [by apply H1|]. intros it [A B C D (x & Hx & Hxl)]. split; try done.
  rewrite Hat. destruct (decide (j = _)) as [-> |]; [|by exists x]. exists b'. split; [done|]. rewrite Hb in Hx. injection Hx as ->. lia.
Qed.

Lemma touch_udp n i bufs j b b' bufs' u : at_ bufs j = Some b -> sameFrom n b b' -> set_at bufs j b' = Some bufs' -> UOk offset i bufs u ->
  (forall k it, it ∈ uItems u k -> ui_bufsIndex it = j -> n <= offset + ui_iphLen it + udphLen) ->
  UOk offset i bufs' u /\ forall k, flowData offset bufs' u k = flowData offset bufs u k.
Proof.
  intros Hb [Hl Hd] Hs [A B C D E] Hn. destruct (set_at_total bufs j b') as (l & Hs' & _ & Hat); [by eapply at_range|]. rewrite Hs' in Hs. injection Hs as ->. split.
  - split; try done. intros k. eapply Forall_impl; [apply A|]. intros it [A1 A2 A3 (x & Hx & Hxl)]. split; try done.
    rewrite Hat. destruct (decide (j = _)) as [-> |]; [|by exists x]. exists b'. split; [done|]. rewrite Hb in Hx. injection Hx as ->. lia.
  - intros k. unfold flowData. f_equal. apply list_fmap_ext. intros m it Hit. apply list_elem_of_lookup_2 in Hit. unfold uData. rewrite Hat.
    destruct (decide (j = ui_bufsIndex it)) as [->|]; [|done]. rewrite Hb. f_equal. eapply drop_more; [|exact Hd]. specialize (Hn k it Hit eq_refl). lia.
Qed.

(** ** The loop *)

Definition udpArrival (canUDPGRO : bool) (b : Buf) : option (udpFlowKey * list Z) :=
  match packetIsGROCandidate (pktOf offset b) canUDPGRO with
  | udp4GROCandidate => udpFlow (pktOf offset b) false
  | udp6GROCandidate => udpFlow (pktOf offset b) true
  | _ => None
  end.
(** The payloads of the packets of flow [k], in the order of the batch. *)
Definition arrivals (canUDPGRO : bool) (bufs : list Buf) (k : udpFlowKey) : list (list Z) :=
  concat ((fun b => arrival (udpArrival canUDPGRO b) k) <$> bufs).

Record GInv (canUDPGRO : bool) (bufs0 : list Buf) (i : nat) (g : groState) : Prop := {
  gi_len : len (g_bufs g) = len bufs0;
  gi_bufs : Forall (bufOk offset) (g_bufs g);
  gi_todo : forall j, Z.of_nat i <= j -> at_ (g_bufs g) j = at_ bufs0 j;
  gi_tcp : TOk offset (Z.of_nat i) (g_bufs g) (g_tcp g);
  gi_udp : UOk offset (Z.of_nat i) (g_bufs g) (g_udp g);
  gi_disj : forall j k, tIdx (g_tcp g) j -> j ∉ uIdx (g_udp g) k;
  gi_tsize : (size (t_itemsByFlow (g_tcp g)) <= i)%nat /\ (IdealBatchSize <= size (t_itemsByFlow (g_tcp g)) + t_itemsPool (g_tcp g))%nat;
  gi_usize : (size (u_itemsByFlow (g_udp g)) <= i)%nat /\ (IdealBatchSize <= size (u_itemsByFlow (g_udp g)) + u_itemsPool (g_udp g))%nat;
  gi_data : forall k, flowData offset (g_bufs g) (g_udp g) k = arrivals canUDPGRO (take i bufs0) k
}.

Lemma arrivals_S canUDPGRO bufs0 i b k : at_ bufs0 (Z.of_nat i) = Some b ->
  arrivals canUDPGRO (take (S i) bufs0) k = arrivals canUDPGRO (take i bufs0) k ++ arrival (udpArrival canUDPGRO b) k.
Proof.
  intros H. unfold at_ in H. rewrite decide_True, Nat2Z.id in H by lia. unfold arrivals. rewrite (take_S_r _ _ b) by done.
  rewrite fmap_app, concat_app. cbn. by rewrite app_nil_r.
Qed.

(** After a TCP round nothing of UDP has changed. *)
Lemma tcp_round_inv canUDPGRO bufs0 i g b t' bufs' : GInv canUDPGRO bufs0 i g -> at_ bufs0 (Z.of_nat i) = Some b -> udpArrival canUDPGRO b = None ->
  tRound offset (Z.of_nat i) (g_tcp g) (g_bufs g) t' bufs' ->
  forall tw, GInv canUDPGRO bufs0 (S i) {| g_bufs := bufs'; g_tcp := t'; g_udp := g_udp g; g_toWrite := tw |}.
Proof.
  intros [A1 A2 A3 A4 A5 A6 A7 A8 A9] Hb Hno [(B1 & B1' & B1'') B2 B3 B4 [B5 B6]] tw.
  assert (forall k j, j ∈ uIdx (g_udp g) k -> at_ bufs' j = at_ (g_bufs g) j) as Hfr.
  { intros k j Hj. apply B2; [apply (U_idx _ _ _ _ A5) in Hj; lia|]. intros Ht. by apply (A6 j k). }
  split; cbn; try done.
  - by rewrite B1.
  - intros j Hj. rewrite <- A3 by lia. apply B2; [lia|]. intros Ht. apply (T_idx _ _ _ _ A4) in Ht. lia.
  - split; [done|]. intros j [-> |Hj]%B3; [lia|]. apply (T_idx _ _ _ _ A4) in Hj. lia.
  - destruct A5 as [U1 U2 U3 U4 U5]. split; try done; [|intros k j Hj; apply U3 in Hj; lia]. intros k. specialize (U1 k). rewrite Forall_forall in *. intros it Hit.
    eapply uItemOk_frame; [|by apply U1]. apply (Hfr k). by apply list_elem_of_fmap_2.
  - intros j k [-> |Hj]%B3; [|by apply A6]. intros Hj. apply (U_idx _ _ _ _ A5) in Hj. lia.
  - lia.
  - lia.
  - intros k. rewrite (arrivals_S _ _ _ b) by done. rewrite Hno. cbn [arrival]. rewrite app_nil_r, <- A9. unfold flowData. f_equal. apply list_fmap_ext. intros n it Hit.
    apply uData_frame, (Hfr k). apply list_elem_of_fmap_2. by eapply list_elem_of_lookup_2.
Qed.

Lemma udp_round_inv canUDPGRO bufs0 i g b u' bufs' : GInv canUDPGRO bufs0 i g -> at_ bufs0 (Z.of_nat i) = Some b ->
  uRound offset (Z.of_nat i) (g_udp g) (g_bufs g) (udpArrival canUDPGRO b) u' bufs' ->
  forall tw, GInv canUDPGRO bufs0 (S i) {| g_bufs := bufs'; g_tcp := g_tcp g; g_udp := u'; g_toWrite := tw |}.
Proof.
  intros [A1 A2 A3 A4 A5 A6 A7 A8 A9] Hb [B1 B2 B3 B4 B5 B6 [B7 B8]] tw. split; cbn; try done.
  - by rewrite B1.
  - intros j Hj. rewrite <- A3 by lia. apply B3. intros k Hk. apply (U_idx _ _ _ _ A5) in Hk. lia.
  - destruct A4 as [T1 T2]. split; [|intros j Hj; apply T2 in Hj; lia]. intros k its Hk. specialize (T1 k its Hk). rewrite Forall_forall in *. intros it Hit.
    destruct (T1 it Hit) as [C1 C2 C3 C4 C5]. split; try done. rewrite B3; [done|]. intros k'. apply A6. by exists k, its, it.
  - by replace (Z.of_nat (S i)) with (Z.of_nat i + 1) by lia.
  - intros j k Hj [-> |Hk]%B5; [apply (T_idx _ _ _ _ A4) in Hj; lia|by apply (A6 j k)].
  - lia.
  - lia.
  - intros k. rewrite (arrivals_S _ _ _ b) by done. by rewrite B6, A9.
Qed.

Lemma uItems_iph i bufs u k it : UOk offset i bufs u -> it ∈ uItems u k -> 20 <= ui_iphLen it.
Proof. intros Hu Hit. pose proof (U_items _ _ _ _ Hu k) as HA. rewrite Forall_forall in HA. destruct (HA it Hit) as [_ -> _ _]. pose proof (iphOf_range (uk_isV6 k)). lia. Qed.

(** The virtio header written in front of a packet that is left alone. *)
Lemma touch_inv canUDPGRO bufs0 i g b b' bufs' tw n j : GInv canUDPGRO bufs0 i g -> at_ (g_bufs g) j = Some b -> j < Z.of_nat i -> sameFrom n b b' ->
  (forall k it, it ∈ uItems (g_udp g) k -> ui_bufsIndex it = j -> n <= offset + ui_iphLen it + udphLen) ->
  set_at (g_bufs g) j b' = Some bufs' -> GInv canUDPGRO bufs0 i {| g_bufs := bufs'; g_tcp := g_tcp g; g_udp := g_udp g; g_toWrite := tw |}.
Proof.
  intros [A1 A2 A3 A4 A5 A6 A7 A8 A9] Hb Hj Hsame Hn Hset.
  destruct (touch_udp n _ _ _ _ _ _ _ Hb Hsame Hset A5 Hn) as [Hu Hd].
  destruct (set_at_total (g_bufs g) j b') as (l & Hs' & Hlen & Hat); [by eapply at_range|]. rewrite Hs' in Hset. injection Hset as ->.
  split; cbn; try done.
  - by rewrite Hlen.
  - eapply bufOk_set; [exact A2| |exact Hs']. eapply bufOk_same; [exact Hsame|]. by eapply bufOk_at.
  - intros j' Hj'. rewrite Hat, decide_False by lia. by apply A3.
  - by eapply touch_tcp.
  - intros k. by rewrite Hd.
Qed.

(** The verdict of the packet [i], whatever its kind. *)
Definition groVerdict (canUDPGRO : bool) (i : Z) (g : groState) (b : Buf) : option (groResult * tcpGROTable * udpGROTable * list Buf) :=
  match packetIsGROCandidate (pktOf offset b) canUDPGRO with
  | tcp4GROCandidate => '(r, t, bufs) ← tcpGRO be (g_bufs g) offset i (g_tcp g) false; Some (r, t, g_udp g, bufs)
  | tcp6GROCandidate => '(r, t, bufs) ← tcpGRO be (g_bufs g) offset i (g_tcp g) true; Some (r, t, g_udp g, bufs)
  | udp4GROCandidate => '(r, u, bufs) ← udpGRO be (g_bufs g) offset i (g_udp g) false; Some (r, g_tcp g, u, bufs)
  | udp6GROCandidate => '(r, u, bufs) ← udpGRO be (g_bufs g) offset i (g_udp g) true; Some (r, g_tcp g, u, bufs)
  | notGROCandidate => Some (groResultNoop, g_tcp g, g_udp g, g_bufs g)
  end.

Lemma groVerdict_spec canUDPGRO bufs0 (i : nat) g b : GInv canUDPGRO bufs0 i g -> at_ (g_bufs g) (Z.of_nat i) = Some b -> at_ bufs0 (Z.of_nat i) = Some b ->
  (i < IdealBatchSize)%nat ->
  exists r t u bufs', groVerdict canUDPGRO (Z.of_nat i) g b = Some (r, t, u, bufs') /\
    forall tw, GInv canUDPGRO bufs0 (S i) {| g_bufs := bufs'; g_tcp := t; g_udp := u; g_toWrite := tw |}.
Proof.
  intros Hg Hb Hb0 Hib. pose proof (candidate_head (pktOf offset b) canUDPGRO) as Hhead. unfold IdealBatchSize in Hib.
  destruct (gi_tsize _ _ _ _ Hg) as [Hts1 Hts2], (gi_usize _ _ _ _ Hg) as [Hus1 Hus2]. unfold IdealBatchSize in Hts2, Hus2.
  assert (forall isV6, headOk isV6 (pktOf offset b) -> iphOf isV6 + 20 <= len (pktOf offset b) -> udpArrival canUDPGRO b = None -> exists r t u bufs',
      ('(r, t, bufs) ← tcpGRO be (g_bufs g) offset (Z.of_nat i) (g_tcp g) isV6; Some (r, t, g_udp g, bufs)) = Some (r, t, u, bufs') /\
      forall tw, GInv canUDPGRO bufs0 (S i) {| g_bufs := bufs'; g_tcp := t; g_udp := u; g_toWrite := tw |}) as Htcp.
  { intros isV6 H1 H2 H3. destruct (tcpGRO_spec be offset Hoff (Z.of_nat i) (g_bufs g) (g_tcp g) isV6 b (gi_bufs _ _ _ _ Hg) (gi_tcp _ _ _ _ Hg) Hb) as (r & t & bufs' & -> & Hr); try done; [lia|lia|].
    cbn [mbind option_bind]. eexists _, _, _, _. split; [done|]. by eapply tcp_round_inv. }
  assert (forall isV6, headOk isV6 (pktOf offset b) -> udpArrival canUDPGRO b = udpFlow (pktOf offset b) isV6 -> exists r t u bufs',
      ('(r, u, bufs) ← udpGRO be (g_bufs g) offset (Z.of_nat i) (g_udp g) isV6; Some (r, g_tcp g, u, bufs)) = Some (r, t, u, bufs') /\
      forall tw, GInv canUDPGRO bufs0 (S i) {| g_bufs := bufs'; g_tcp := t; g_udp := u; g_toWrite := tw |}) as Hudp.
  { intros isV6 H1 H2. destruct (udpGRO_spec be offset Hoff (Z.of_nat i) (g_bufs g) (g_udp g) isV6 b (gi_bufs _ _ _ _ Hg) (gi_udp _ _ _ _ Hg) Hb) as (r & u & bufs' & -> & Hr); try done; [lia|lia|].
    cbn [mbind option_bind]. eexists _, _, _, _. split; [done|]. rewrite <- H2 in Hr. by eapply udp_round_inv. }
  unfold groVerdict. unfold udpArrival in Htcp, Hudp. destruct (packetIsGROCandidate (pktOf offset b) canUDPGRO) eqn:Ec.
  - eexists _, _, _, _. split; [done|]. eapply udp_round_inv; [done|exact Hb0|]. unfold udpArrival. rewrite Ec. apply uRound_noop; [apply Hg|apply Hg].
  - apply Htcp; [apply Hhead| |done]. unfold iphOf. lia.
  - apply Htcp; [apply Hhead| |done]. unfold iphOf. lia.
  - by apply Hudp.
  - by apply Hudp.
Qed.

Lemma groPacket_spec canUDPGRO bufs0 (i : nat) g : GInv canUDPGRO bufs0 i g -> (i < length bufs0)%nat -> (i < IdealBatchSize)%nat ->
  exists g', groPacket be offset canUDPGRO (Z.of_nat i) g = Some (Ok g') /\ GInv canUDPGRO bufs0 (S i) g'.
Proof.
  intros Hg Hi Hib. destruct (at_total (g_bufs g) (Z.of_nat i)) as (b & Hb); [rewrite (gi_len _ _ _ _ Hg); unfold len; lia|].
  assert (at_ bufs0 (Z.of_nat i) = Some b) as Hb0 by (rewrite <- (gi_todo _ _ _ _ Hg) by lia; done).
  pose proof (bufOk_at _ _ _ _ (gi_bufs _ _ _ _ Hg) Hb) as Hbo. unfold bufOk in Hbo.
  unfold groPacket. rewrite Hb. cbn [mbind option_bind]. rewrite (proj2 (Z.ltb_ge offset _)), (proj2 (Z.ltb_ge _ offset)) by lia. cbn [orb].
  rewrite (tailOf_pkt offset Hoff) by lia. cbn [mbind option_bind].
  destruct (groVerdict_spec canUDPGRO bufs0 i g b Hg Hb Hb0 Hib) as (r & t & u & bufs' & Hv & Hinv). unfold groVerdict in Hv. rewrite Hv. clear Hv.
  cbn [mbind option_bind]. destruct r; [|eexists; split; [done|apply Hinv]..].
  specialize (Hinv []). destruct (at_total bufs' (Z.of_nat i)) as (b1 & Hb1); [pose proof (gi_len _ _ _ _ Hinv) as Hl; cbn in Hl; rewrite Hl; unfold len; lia|].
  pose proof (bufOk_at _ _ _ _ (gi_bufs _ _ _ _ Hinv) Hb1) as Hbo1. unfold bufOk in Hbo1.
  rewrite Hb1. cbn [mbind option_bind]. destruct (encodeAt_spec zeroHdr (dat b1)) as (d & -> & Hd1 & Hd2); [lia|]. cbn [mbind option_bind].
  destruct (set_at_total bufs' (Z.of_nat i) (with_dat b1 d)) as (bufs2 & Hset & _ & _); [by eapply at_range|]. rewrite Hset. cbn [mbind option_bind].
  eexists. split; [done|]. refine (touch_inv _ _ _ _ b1 (with_dat b1 d) bufs2 _ offset _ Hinv Hb1 _ _ _ Hset); [lia|by split|].
  intros k it Hit _. pose proof (uItems_iph _ _ _ _ _ (gi_udp _ _ _ _ Hinv) Hit). unfold udphLen. lia.
Qed.

Lemma groLoop_spec canUDPGRO bufs0 n : (length bufs0 <= IdealBatchSize)%nat -> forall i g, GInv canUDPGRO bufs0 i g -> (i + n = length bufs0)%nat ->
  exists g', groLoop be offset canUDPGRO n (Z.of_nat i) g = Some (Ok g') /\ GInv canUDPGRO bufs0 (length bufs0) g'.
Proof.
  intros Hl. induction n as [|n IH]; intros i g Hg Hi.
  - exists g. split; [done|]. by replace (length bufs0) with i by lia.
  - cbn [groLoop]. destruct (groPacket_spec canUDPGRO bufs0 i g Hg) as (g1 & -> & Hg1); [lia|lia|]. cbn [mbind option_bind].
    replace (Z.of_nat i + 1) with (Z.of_nat (S i)) by lia. apply IH; [done|lia].
Qed.

(** ** The accounting *)

Lemma set_at_drop (l : list Z) i v n : 0 <= i < len l -> i < Z.of_nat n -> exists l', set_at l i v = Some l' /\ len l' = len l /\ drop n l' = drop n l.
Proof.
  intros Hi Hn. rewrite set_at_Some by done. eexists. split; [done|]. split; [len_lia|]. by rewrite drop_insert_lt by lia.
Qed.

Lemma put_drop m (l : list Z) a v n : 0 <= a -> a + Z.of_nat m <= len l -> a + Z.of_nat m <= Z.of_nat n ->
  exists l', put m l a v = Some l' /\ len l' = len l /\ drop n l' = drop n l.
Proof.
  intros H1 H2 H3. destruct (put_total m l a v H1 H2) as (l' & Hp & Hl & Hd). exists l'. split_and!; [done|done|].
  eapply drop_more; [|exact Hd]. lia.
Qed.

Lemma setIPLength_spec pkt isV6 n : iphOf isV6 <= len pkt -> iphOf isV6 <= Z.of_nat n ->
  exists pkt', setIPLength be pkt (iphOf isV6) isV6 = Some pkt' /\ len pkt' = len pkt /\ drop n pkt' = drop n pkt.
Proof.
  intros Hl Hn. pose proof (iphOf_range isV6). unfold setIPLength, put16. destruct isV6; [by apply put_drop; lia|].
  destruct (set_at_drop pkt 10 0 n) as (p1 & -> & L1 & D1); [lia|lia|]. cbn [mbind option_bind].
  destruct (set_at_drop p1 11 0 n) as (p2 & -> & L2 & D2); [lia|lia|]. cbn [mbind option_bind].
  destruct (put_drop 2 p2 2 (u16 (len p2)) n) as (p3 & -> & L3 & D3); [lia|lia|lia|]. cbn [mbind option_bind].
  rewrite slice_Some by lia. cbn [mbind option_bind]. edestruct (put_drop 2 p3 10) as (p4 & -> & L4 & D4); [lia|lia| |]; cycle 1.
  - exists p4. split_and!; [done|lia|]. rewrite D4, D3, D2. exact D1.
  - lia.
Qed.

Lemma setPartialCSum_spec pkt isV6 proto at' n : iphOf isV6 <= len pkt -> 0 <= at' -> at' + 2 <= len pkt -> at' + 2 <= Z.of_nat n ->
  exists pkt', setPartialCSum be pkt (iphOf isV6) proto at' isV6 = Some pkt' /\ len pkt' = len pkt /\ drop n pkt' = drop n pkt.
Proof.
  intros Hl Ha Hb Hn. unfold setPartialCSum, ipv6SrcAddrOffset, ipv4SrcAddrOffset, put16. unfold iphOf in Hl.
  rewrite !slice_Some by (destruct isV6; lia). cbn [mbind option_bind]. by apply put_drop; lia.
Qed.

(** Splitting the dat at the offset. *)
Lemma dat_split b : offset <= len (dat b) -> length (take (Z.to_nat offset) (dat b)) = Z.to_nat offset.
Proof. intros H. rewrite length_take. unfold len in H. lia. Qed.

Lemma drop_offset (p q : list Z) n : length p = Z.to_nat offset -> drop (Z.to_nat offset + n) (p ++ q) = drop n q.
Proof. intros H. rewrite <- drop_drop. by rewrite drop_app_length'. Qed.

(** The common steps of the accounting of a merged packet up to the virtio header. *)
Lemma account_headers isV6 b n : offset + iphOf isV6 <= len (dat b) -> iphOf isV6 <= Z.of_nat n ->
  exists pkt, setIPLength be (pktOf offset b) (iphOf isV6) isV6 = Some pkt /\ len pkt = len (dat b) - offset /\ drop n pkt = drop n (pktOf offset b) /\
    forall hdr, exists d, encodeAt be hdr (take (Z.to_nat offset) (dat b) ++ pkt) (offset - virtioNetHdrLen) = Some (Ok d) /\
      slice d offset (len d) = Some pkt /\ len d = len (dat b).
Proof.
  intros Hl Hn. pose proof (iphOf_range isV6). pose proof (pktOf_len offset Hoff b ltac:(lia)) as Hpl. pose proof (dat_split b ltac:(lia)) as Ht.
  destruct (setIPLength_spec (pktOf offset b) isV6 n) as (pkt & -> & L1 & D1); [lia|lia|]. exists pkt. split_and!; [done|lia|done|]. intros hdr.
  assert (len (take (Z.to_nat offset) (dat b) ++ pkt) = len (dat b)) as Hlen by (rewrite len_app; unfold len in *; unfold virtioNetHdrLen in Hoff; lia).
  destruct (encodeAt_spec hdr (take (Z.to_nat offset) (dat b) ++ pkt)) as (d & He & L2 & D2); [lia|]. exists d. split_and!; try done; try lia.
  rewrite slice_suffix by (unfold virtioNetHdrLen in Hoff; lia). f_equal. rewrite D2. by rewrite drop_app_length'.
Qed.

(** The packet written back behind the first [offset] bytes. *)
Lemma write_back (b : Buf) (d pkt : list Z) n : len d = len (dat b) -> len pkt = len (dat b) - offset -> offset <= len (dat b) ->
  drop n pkt = drop n (pktOf offset b) -> sameFrom (offset + Z.of_nat n) b (with_dat b (take (Z.to_nat offset) d ++ pkt)).
Proof.
  intros L1 L2 Hl Hd. unfold virtioNetHdrLen in Hoff. assert (length (take (Z.to_nat offset) d) = Z.to_nat offset) as Ht by (rewrite length_take; unfold len in *; lia).
  split; [rewrite with_dat_len, len_app; unfold len in *; lia|]. cbn [dat with_dat].
  replace (Z.to_nat (offset + Z.of_nat n)) with (Z.to_nat offset + n)%nat by lia. rewrite drop_offset by done. rewrite Hd. unfold pktOf. by rewrite drop_drop.
Qed.

Lemma accountTCP_spec it b : ti_iphLen it = iphOf (tk_isV6 (ti_key it)) -> 20 <= ti_tcphLen it <= 60 -> offset + ti_iphLen it + ti_tcphLen it <= len (dat b) ->
  exists b', accountTCP be offset it b = Some (Ok b') /\ sameFrom (len (dat b)) b b'.
Proof.
  intros Hi Ht Hl. assert (forall b', len (dat b') = len (dat b) -> sameFrom (len (dat b)) b b') as Hsame.
  { intros b' Hb'. split; [done|]. by rewrite !drop_ge by (unfold len in *; lia). }
  unfold accountTCP. pose proof (iphOf_range (tk_isV6 (ti_key it))). destruct (0 <? _).
  - rewrite Hi, (tailOf_pkt offset Hoff) by lia. cbn [mbind option_bind].
    destruct (account_headers (tk_isV6 (ti_key it)) b 40) as (pkt & -> & L2 & _ & He); [lia|lia|]. cbn [mbind option_bind].
    edestruct He as (d & -> & Hs & L1). cbn [mbind option_bind]. rewrite Hs. cbn [mbind option_bind csumStart csumOffset]. rewrite u16_small by width_lia.
    destruct (setPartialCSum_spec pkt (tk_isV6 (ti_key it)) IPPROTO_TCP (iphOf (tk_isV6 (ti_key it)) + 16) (length pkt)) as (p2 & -> & L3 & _); [lia|lia|lia|unfold len in *; lia|].
    cbn [mbind option_bind]. eexists. split; [done|]. apply Hsame. rewrite with_dat_len, len_app, L3. unfold len in *. rewrite length_take. unfold virtioNetHdrLen in Hoff. lia.
  - destruct (encodeAt_spec zeroHdr (dat b)) as (d & -> & L & _); [lia|]. cbn [mbind option_bind]. eexists. split; [done|by apply Hsame].
Qed.

Lemma accountUDP_spec it b : ui_iphLen it = iphOf (uk_isV6 (ui_key it)) -> offset + ui_iphLen it + udphLen <= len (dat b) ->
  exists b', accountUDP be offset it b = Some (Ok b') /\ sameFrom (offset + ui_iphLen it + udphLen) b b'.
Proof.
  intros Hi Hl. unfold accountUDP. pose proof (iphOf_range (uk_isV6 (ui_key it))) as Hr. unfold udphLen in *. destruct (0 <? _).
  - rewrite Hi in *. set (iph := iphOf (uk_isV6 (ui_key it))) in *. set (n := Z.to_nat (iph + 8)). rewrite (tailOf_pkt offset Hoff) by lia. cbn [mbind option_bind].
    destruct (account_headers (uk_isV6 (ui_key it)) b n) as (pkt & Hset & L2 & D2 & He); [fold iph; lia|fold iph; lia|]. fold iph in Hset. rewrite Hset. cbn [mbind option_bind].
    edestruct He as (d & -> & Hs & L1). cbn [mbind option_bind]. rewrite Hs. cbn [mbind option_bind csumStart csumOffset].
    rewrite slice_Some by lia. cbn [mbind option_bind]. rewrite (u8_small (iph + 4)), (u16_small (iph + 6)) by width_lia.
    edestruct (put_drop 2 pkt (iph + 4)) as (p1 & Hp1 & L3 & D3); [lia|lia| |]; cycle 1.
    + unfold put16. rewrite Hp1. cbn [mbind option_bind].
      destruct (setPartialCSum_spec p1 (uk_isV6 (ui_key it)) IPPROTO_UDP (iph + 6) n) as (p2 & Hp2 & L4 & D4); [fold iph; lia|lia|lia|lia|].
      fold iph in Hp2. rewrite Hp2. cbn [mbind option_bind]. eexists. split; [done|].
      replace (offset + iph + 8) with (offset + Z.of_nat n) by lia. apply write_back; [done|lia|lia|]. rewrite D4. etransitivity; [|exact D2]. exact D3.
    + lia.
  - destruct (encodeAt_spec zeroHdr (dat b)) as (d & -> & L & D); [lia|]. cbn [mbind option_bind]. eexists. split; [done|]. split; [done|].
    cbn [dat with_dat]. eapply drop_more; [|exact D]. lia.
Qed.

Definition with_bufs (g : groState) (bufs : list Buf) : groState :=
  {| g_bufs := bufs; g_tcp := g_tcp g; g_udp := g_udp g; g_toWrite := g_toWrite g |}.

Lemma with_bufs_id g : with_bufs g (g_bufs g) = g.
Proof. by destruct g. Qed.

(** An accounting that rewrites the headers in the buffers of its items keeps the
    invariant; the tables of [g] stay. *)
Lemma applyAccounting_spec {A} (account : A -> Buf -> option (result Buf gsoError)) (index : A -> Z) canUDPGRO bufs0 i g (items : list A) :
  (forall bufs it, GInv canUDPGRO bufs0 i (with_bufs g bufs) -> it ∈ items -> exists b b' n, at_ bufs (index it) = Some b /\ index it < Z.of_nat i /\
    account it b = Some (Ok b') /\ sameFrom n b b' /\
    (forall k x, x ∈ uItems (g_udp g) k -> ui_bufsIndex x = index it -> n <= offset + ui_iphLen x + udphLen)) ->
  forall bufs, GInv canUDPGRO bufs0 i (with_bufs g bufs) ->
  exists bufs', applyAccounting account index items bufs = Some (bufs', None) /\ GInv canUDPGRO bufs0 i (with_bufs g bufs').
Proof.
  induction items as [|it items IH]; intros Hacc bufs Hg; [by exists bufs|]. cbn [applyAccounting].
  destruct (Hacc bufs it Hg) as (b & b' & n & Hb & Hi & Ha & Hs & Hn); [by left|]. rewrite Hb. cbn [mbind option_bind]. rewrite Ha. cbn [mbind option_bind].
  destruct (set_at_total bufs (index it) b') as (bufs1 & Hset & _ & _); [by eapply at_range|]. rewrite Hset. cbn [mbind option_bind].
  apply IH; [intros bufs2 x Hg2 Hx; apply Hacc; [done|by right]|]. exact (touch_inv _ _ _ _ b b' bufs1 _ n _ Hg Hb Hi Hs Hn Hset).
Qed.

Lemma account_tcp_inv canUDPGRO bufs0 i g items bufs : (forall it, it ∈ items -> exists k its, t_itemsByFlow (g_tcp g) !! k = Some its /\ it ∈ its) ->
  GInv canUDPGRO bufs0 i (with_bufs g bufs) ->
  exists bufs', applyAccounting (accountTCP be offset) ti_bufsIndex items bufs = Some (bufs', None) /\ GInv canUDPGRO bufs0 i (with_bufs g bufs').
Proof.
  intros Hin. apply applyAccounting_spec. intros bufs1 it Hg Hit. destruct (Hin it Hit) as (k & its & Hk & Hits).
  assert (tIdx (g_tcp g) (ti_bufsIndex it)) as Hidx by (by exists k, its, it).
  pose proof (T_items _ _ _ _ (gi_tcp _ _ _ _ Hg) k its Hk) as HF. rewrite Forall_forall in HF. destruct (HF it Hits) as [Hkey Hiph Htc _ (b & Hb & Hl)].
  destruct (accountTCP_spec it b) as (b' & Ha & Hs); [by rewrite Hkey|done|done|].
  exists b, b', (len (dat b)). split_and!; try done; [by apply (T_idx _ _ _ _ (gi_tcp _ _ _ _ Hg))|].
  intros k' x Hx Hj. exfalso. apply (gi_disj _ _ _ _ Hg (ti_bufsIndex it) k'); [done|]. rewrite <- Hj. by apply list_elem_of_fmap_2.
Qed.

Lemma account_udp_inv canUDPGRO bufs0 i g items bufs : (forall it, it ∈ items -> exists k its, u_itemsByFlow (g_udp g) !! k = Some its /\ it ∈ its) ->
  GInv canUDPGRO bufs0 i (with_bufs g bufs) ->
  exists bufs', applyAccounting (accountUDP be offset) ui_bufsIndex items bufs = Some (bufs', None) /\ GInv canUDPGRO bufs0 i (with_bufs g bufs').
Proof.
  intros Hin. apply applyAccounting_spec. intros bufs1 it Hg Hit. destruct (Hin it Hit) as (k & its & Hk & Hits).
  assert (it ∈ uItems (g_udp g) k) as Hik by (unfold uItems; by rewrite Hk).
  assert (ui_bufsIndex it ∈ uIdx (g_udp g) k) as Hidx by (by apply list_elem_of_fmap_2).
  assert (forall k' x, x ∈ uItems (g_udp g) k' -> uItemOk offset bufs1 k' x) as HF.
  { intros k' x Hx. pose proof (U_items _ _ _ _ (gi_udp _ _ _ _ Hg) k') as HF. rewrite Forall_forall in HF. by apply HF. }
  destruct (HF k it Hik) as [Hkey Hiph _ (b & Hb & Hl)].
  destruct (accountUDP_spec it b) as (b' & Ha & Hs); [by rewrite Hkey|done|].
  exists b, b', (offset + ui_iphLen it + udphLen). split_and!; try done; [by apply (U_idx _ _ _ _ (gi_udp _ _ _ _ Hg) k)|].
  intros k' x Hx Hj. assert (k' = k) as ->.
  { apply (U_flow _ _ _ _ (gi_udp _ _ _ _ Hg) k' k (ui_bufsIndex it)); [|done]. cbn. rewrite <- Hj. by apply list_elem_of_fmap_2. }
  destruct (HF k x Hx) as [_ Hiph' _ _]. rewrite Hiph, Hiph'. lia.
Qed.

Lemma visited {K} `{Countable K} {A} (m : gmap K (list A)) visit x : visit ≡ₚ (map_to_list m).*2 -> x ∈ concat visit -> exists k its, m !! k = Some its /\ x ∈ its.
Proof.
  intros Hv Hx. apply list_elem_of_In, in_concat in Hx as (its & H1%list_elem_of_In & H2%list_elem_of_In).
  rewrite Hv in H1. apply list_elem_of_fmap_1 in H1 as ([k its'] & -> & Hk%elem_of_map_to_list). by exists k, its'.
Qed.

Lemma GInv_start canUDPGRO bufs t u : Forall (bufOk offset) bufs -> t_itemsByFlow t = ∅ -> u_itemsByFlow u = ∅ ->
  (IdealBatchSize <= t_itemsPool t)%nat -> (IdealBatchSize <= u_itemsPool u)%nat ->
  GInv canUDPGRO bufs 0 {| g_bufs := bufs; g_tcp := t; g_udp := u; g_toWrite := [] |}.
Proof.
  intros Hf Ht Hu Hpt Hpu. assert (forall j, ~ tIdx t j) as Hti by (intros j (k & its & it & Hk & _); by rewrite Ht, lookup_empty in Hk).
  assert (forall k, uItems u k = []) as Hui by (intros k; unfold uItems; by rewrite Hu, lookup_empty).
  split; cbn; try done.
  - split; [intros k its Hk; by rewrite Ht, lookup_empty in Hk|intros j Hj; by apply Hti in Hj].
  - split; intros *; unfold uIdx; rewrite ?Hui; try (by apply Forall_nil); try (by intros ?%elem_of_nil); [by rewrite Hu, lookup_empty|apply NoDup_nil_2].
  - intros j k Hj. by apply Hti in Hj.
  - rewrite Ht, map_size_empty. lia.
  - rewrite Hu, map_size_empty. lia.
  - intros k. unfold flowData. by rewrite Hui.
Qed.
End Batch.

(** A batch on empty tables is merged without an error; the packets to write are those of the
    loop, and the accounting keeps the invariant. *)
Lemma handleGRO_runs (be canUDPGRO : bool) (offset : Z) tcpVisit udpVisit (bufs : list Buf) (t : tcpGROTable) (u : udpGROTable) :
  virtioNetHdrLen <= offset -> (length bufs <= IdealBatchSize)%nat -> Forall (bufOk offset) bufs ->
  (forall m, tcpVisit m ≡ₚ (map_to_list m).*2) -> (forall m, udpVisit m ≡ₚ (map_to_list m).*2) ->
  t_itemsByFlow t = ∅ -> u_itemsByFlow u = ∅ -> (IdealBatchSize <= t_itemsPool t)%nat -> (IdealBatchSize <= u_itemsPool u)%nat ->
  exists g bufs', groLoop be offset canUDPGRO (length bufs) 0 {| g_bufs := bufs; g_tcp := t; g_udp := u; g_toWrite := [] |} = Some (Ok g) /\
    handleGRO be offset canUDPGRO tcpVisit udpVisit bufs t u = Some (Ok (with_bufs g bufs')) /\ GInv offset canUDPGRO bufs (length bufs) (with_bufs g bufs').
Proof.
  intros Hoff Hl Hf Hvt Hvu Ht Hu Hpt Hpu. unfold handleGRO.
  destruct (groLoop_spec be offset Hoff canUDPGRO bufs (length bufs) Hl 0 _ (GInv_start offset canUDPGRO bufs t u Hf Ht Hu Hpt Hpu) eq_refl) as (g & Hrun & Hg).
  change (Z.of_nat 0) with 0 in Hrun. rewrite Hrun. cbn [mbind option_bind].
  destruct (account_tcp_inv be offset Hoff canUDPGRO bufs (length bufs) g (concat (tcpVisit (t_itemsByFlow (g_tcp g)))) (g_bufs g)) as (bufs1 & Ha1 & Hg1);
    [intros it; by eapply visited|by rewrite with_bufs_id|].
  unfold applyTCPCoalesceAccounting. rewrite Ha1. cbn [mbind option_bind].
  destruct (account_udp_inv be offset Hoff canUDPGRO bufs (length bufs) g (concat (udpVisit (u_itemsByFlow (g_udp g)))) bufs1) as (bufs2 & Ha2 & Hg2);
    [intros it; by eapply visited|done|].
  unfold applyUDPCoalesceAccounting. rewrite Ha2. cbn [mbind option_bind]. by exists g, bufs2.
Qed.

(** coalescing loses, invents, alters and reorders no UDP datagram, and never
    panics: for a batch of at most 128 packets behind an offset with room for the virtio
    header and empty tables, [handleGRO] succeeds, in whatever order the tables are
    visited at the end; for every UDP flow, cutting the payloads of its coalesced
    packets at the size of its items gives exactly the payloads of the flow's packets of
    the batch, in order; and resetting the tables makes them fit for the next batch. *)
Theorem udp_datagrams_preserved (be canUDPGRO : bool) (offset : Z) tcpVisit udpVisit (bufs : list Buf) (t : tcpGROTable) (u : udpGROTable) :
  virtioNetHdrLen <= offset -> (length bufs <= IdealBatchSize)%nat -> Forall (bufOk offset) bufs ->
  (forall m, tcpVisit m ≡ₚ (map_to_list m).*2) -> (forall m, udpVisit m ≡ₚ (map_to_list m).*2) ->
  t_itemsByFlow t = ∅ -> u_itemsByFlow u = ∅ -> (IdealBatchSize <= t_itemsPool t)%nat -> (IdealBatchSize <= u_itemsPool u)%nat ->
  exists g, handleGRO be offset canUDPGRO tcpVisit udpVisit bufs t u = Some (Ok g) /\
    (forall k, flowData offset (g_bufs g) (g_udp g) k = arrivals offset canUDPGRO bufs k) /\
    (t_itemsByFlow (t_reset (g_tcp g)) = ∅ /\ (IdealBatchSize <= t_itemsPool (t_reset (g_tcp g)))%nat) /\
    (u_itemsByFlow (u_reset (g_udp g)) = ∅ /\ (IdealBatchSize <= u_itemsPool (u_reset (g_udp g)))%nat).
Proof.
  intros Hoff Hl Hf Hvt Hvu Ht Hu Hpt Hpu.
  destruct (handleGRO_runs be canUDPGRO offset tcpVisit udpVisit bufs t u) as (g & bufs' & _ & Hrun & [_ _ _ _ _ _ [_ T] [_ U] D]); try done.
  exists (with_bufs g bufs'). cbn in *. split_and!; try done; try lia. intros k. rewrite D, take_ge by lia. done.
Qed.

(** ** A batch of two datagrams of one flow *)

Definition sampleDatagram (payload : list Z) : list Z :=
  default [] (gsoNoneChecksum false (sampleIPH ++ [4; 210; 0; 53; 0; 11; 20; 31] ++ payload) 20 6).
Definition sampleBatch : list Buf :=
  (fun p => {| dat := replicate 16 0 ++ sampleDatagram p; bcap := 256 |}) <$> [[1; 2; 3]; [4; 5; 6]].

(** The second datagram is merged into the first: one packet of 34 bytes is written,
    its virtio header says UDP segments of three bytes. *)
Example sample_gro :
  match handleGRO false 16 true (fun m => (map_to_list m).*2) (fun m => (map_to_list m).*2) sampleBatch newTCPGROTable newUDPGROTable with
  | Some (Ok g) => Some (g_toWrite g, (fun b => (take 10 (drop 6 (dat b)), drop 44 (dat b))) <$> at_ (g_bufs g) 0)
  | _ => None
  end = Some ([0], Some ([1; 5; 28; 0; 3; 0; 20; 0; 6; 0], [1; 2; 3; 4; 5; 6])).
Proof. by vm_compute. Qed.

Lemma udp_datagrams_preserved_witness : exists g,
  handleGRO false 16 true (fun m => (map_to_list m).*2) (fun m => (map_to_list m).*2) sampleBatch newTCPGROTable newUDPGROTable = Some (Ok g) /\
  forall k, flowData 16 (g_bufs g) (g_udp g) k = arrivals 16 true sampleBatch k.
Proof.
  destruct (udp_datagrams_preserved false true 16 (fun m => (map_to_list m).*2) (fun m => (map_to_list m).*2) sampleBatch newTCPGROTable newUDPGROTable) as (g & H1 & H2 & _);
    [by vm_compute|by vm_compute; lia| |done|done|done|done|done|done|exists g; split; [exact H1|exact H2]].
  repeat apply Forall_cons_2; [by vm_compute|by vm_compute|apply Forall_nil_2].
Defined.
