(* ===== verification/GroTcp.v ===== *)
(** * GroTcp: coalescing keeps the segments of TCP flows

    handleGRO of Gro over a batch, for TCP: the segments that a receiver cuts out of the
    coalesced packets, by the sequence number in their header and the size in their item,
    together with the packets that were left alone, are the segments that came in. *)
From S2P Require Import Prelude Checksum Gso Gro GroInv GroSpec.
#[local] Open Scope Z_scope.

(** ** Segments *)

(** What a receiver makes of a payload that begins at sequence number [s]: pieces of [g]
    bytes, each with its own number. *)
Definition segs (s g : Z) (l : list Z) : list (Z * list Z) := imap (fun n p => (u32 (s + Z.of_nat n * g), p)) (pieces g l).

Lemma u32_add a b : u32 (u32 a + b) = u32 (a + b).
Proof. unfold u32. by rewrite Zplus_mod_idemp_l. Qed.

Lemma pieces_front g p l : 0 < g -> len p = g -> 0 < len l -> pieces g (p ++ l) = p :: pieces g l.
Proof.
  intros Hg Hp Hl. assert (length p = Z.to_nat g) as Hn by (unfold len in Hp; lia).
  rewrite pieces_step by (rewrite len_app; lia). rewrite <- Hn. by rewrite take_app_length, drop_app_length.
Qed.
Lemma pieces_count g l : 0 < g -> forall n, 0 <= n -> n * g < len l <= (n + 1) * g -> Z.of_nat (length (pieces g l)) = n + 1.
Proof.
  intros Hg n Hn. revert l. pattern n. apply natlike_ind; [| |done].
  - intros l Hl. rewrite pieces_one by lia. done.
  - intros x Hx IH l Hl. rewrite pieces_step by nia. cbn [length]. rewrite Nat2Z.inj_succ, IH; [lia|].
    assert (len (drop (Z.to_nat g) l) = len l - g) as -> by (unfold len in *; rewrite length_drop; nia). nia.
Qed.

Lemma segs_one s g l : 0 < g -> 1 <= len l <= g -> segs s g l = [(u32 s, l)].
Proof. intros Hg Hl. unfold segs. rewrite pieces_one by done. cbn. by rewrite Z.add_0_r. Qed.
Lemma segs_snoc s g n l d : 0 < g -> 0 <= n -> len l = (n + 1) * g -> 1 <= len d <= g -> segs s g (l ++ d) = segs s g l ++ [(u32 (s + (n + 1) * g), d)].
Proof.
  intros Hg Hn Hl Hd. unfold segs. rewrite pieces_snoc; [|done|rewrite Hl; by apply Z_mod_mult|done].
  rewrite imap_app. cbn. by rewrite Nat.add_0_r, (pieces_count g l Hg n) by lia.
Qed.
Lemma segs_cons s s' g p l : 0 < g -> len p = g -> 0 < len l -> u32 (s + g) = u32 s' -> segs s g (p ++ l) = (u32 s, p) :: segs s' g l.
Proof.
  intros Hg Hp Hl Hs. unfold segs. rewrite pieces_front by done. cbn. rewrite Z.add_0_r. f_equal. apply imap_ext. intros n x _. cbn. f_equal.
  replace (s + Z.of_nat (S n) * g) with ((s + g) + Z.of_nat n * g) by lia. by rewrite <- u32_add, Hs, u32_add.
Qed.

(** The flow, sequence number and payload of a packet that tcpGRO takes up. *)
Definition tcpFlow (pkt : list Z) (isV6 : bool) : option (tcpFlowKey * (Z * list Z)) :=
  h ← ipHeaderLen pkt isV6;
  iph ← h;
  x ← at_ pkt (iph + 12);
  let tcph := u8 (Z.shiftr x 4 * 4) in
  if (tcph <? 20) || (60 <? tcph) then None
  else if len pkt <? iph + tcph then None
  else
    frag ← fragmented pkt isV6;
    if (frag : bool) then None
    else
      fl ← at_ pkt (iph + tcpFlagsOffset);
      if negb (fl =? tcpFlagACK) && negb (fl =? Z.lor tcpFlagACK tcpFlagPSH) then None
      else if len pkt - tcph - iph <? 1 then None
      else
        seq ← get32 pkt (iph + 4);
        let s := if isV6 then ipv6SrcAddrOffset else ipv4SrcAddrOffset in
        k ← newTCPFlowKey pkt s (s + (if isV6 then 16 else 4)) iph;
        Some (k, (u32 seq, drop (Z.to_nat (iph + tcph)) pkt)).

(** ** Items and their data *)

Section Batch.
Context (be : bool) (offset : Z) (Hoff : virtioNetHdrLen <= offset) (canUDPGRO : bool) (bufs0 : list Buf).

Definition tcpArrival (b : Buf) : option (tcpFlowKey * (Z * list Z)) :=
  match packetIsGROCandidate (pktOf offset b) canUDPGRO with
  | tcp4GROCandidate => tcpFlow (pktOf offset b) false
  | tcp6GROCandidate => tcpFlow (pktOf offset b) true
  | _ => None
  end.
(** What packet [b] brings to flow [k]. *)
Definition brings (b : option Buf) (k : tcpFlowKey) : list (Z * list Z) :=
  match b ≫= tcpArrival with Some (k', s) => if decide (k' = k) then [s] else [] | None => [] end.
Definition tcpArrivals (bufs : list Buf) (k : tcpFlowKey) : list (Z * list Z) := concat ((fun b => brings (Some b) k) <$> bufs).

Definition tPayload (it : tcpGROItem) (b : Buf) : list Z := drop (Z.to_nat (offset + ti_iphLen it + ti_tcphLen it)) (dat b).
Definition tData (bufs : list Buf) (it : tcpGROItem) : list (Z * list Z) :=
  match at_ bufs (ti_bufsIndex it) with
  | Some b => match get32 (pktOf offset b) (ti_iphLen it + 4) with Some s => segs s (ti_gsoSize it) (tPayload it b) | None => [] end
  | None => []
  end.
Definition tItems (t : tcpGROTable) (k : tcpFlowKey) : list tcpGROItem := default [] (t_itemsByFlow t !! k).
Definition tIdxs (t : tcpGROTable) (k : tcpFlowKey) : list Z := ti_bufsIndex <$> tItems t k.
(** The segments of a flow in its items, and in the packets that are left alone. *)
Definition tFlowData (bufs : list Buf) (t : tcpGROTable) (k : tcpFlowKey) : list (Z * list Z) := concat (tData bufs <$> tItems t k).
Definition aloneData (alone : list Z) (k : tcpFlowKey) : list (Z * list Z) := concat ((fun j => brings (at_ bufs0 j) k) <$> alone).
Definition ledger (bufs : list Buf) (t : tcpGROTable) (alone : list Z) (k : tcpFlowKey) : list (Z * list Z) := tFlowData bufs t k ++ aloneData alone k.

(** No merged packet outgrows the 16 bits of the IP length. *)
Definition capOk (b : Buf) : Prop := bcap b - offset - offset <= 65535.

Record tDataOk (bufs : list Buf) (k : tcpFlowKey) (it : tcpGROItem) : Prop := {
  td_item : tItemOk offset bufs k it;
  td_merged : 0 <= ti_numMerged it;
  td_buf : exists b, at_ bufs (ti_bufsIndex it) = Some b /\ get32 (pktOf offset b) (ti_iphLen it + 4) = Some (ti_sentSeq it) /\
    ti_numMerged it * ti_gsoSize it < len (tPayload it b) <= (ti_numMerged it + 1) * ti_gsoSize it /\ len (pktOf offset b) <= 65535 /\ capOk b /\
    (ti_numMerged it = 0 -> at_ bufs0 (ti_bufsIndex it) = Some b /\ tcpArrival b = Some (k, (u32 (ti_sentSeq it), tPayload it b)))
}.

Record TD (i : Z) (bufs : list Buf) (t : tcpGROTable) (alone : list Z) : Prop := {
  D_items : forall k, Forall (tDataOk bufs k) (tItems t k);
  D_idx : forall k j, j ∈ tIdxs t k -> 0 <= j < i;
  D_nodup : forall k, NoDup (tIdxs t k);
  D_flow : forall k k' j, j ∈ tIdxs t k -> j ∈ tIdxs t k' -> k = k';
  D_alone : NoDup alone /\ forall j, j ∈ alone -> 0 <= j < i /\ forall k, j ∉ tIdxs t k;
  D_same : forall j, j ∈ alone -> pktOf offset <$> at_ bufs j = pktOf offset <$> at_ bufs0 j
}.

(** An item that has merged nothing is the packet that came in. *)
Lemma unmerged_data bufs k it : tDataOk bufs k it -> ti_numMerged it = 0 -> forall k', (if decide (k = k') then tData bufs it else []) = brings (at_ bufs0 (ti_bufsIndex it)) k'.
Proof.
  intros [[_ _ _ Hg _] _ (b & Hb & Hs & Hl & _ & _ & H0)] Hn k'. destruct (H0 Hn) as [Hb0 Ha]. rewrite Hn in Hl. unfold tData, brings. rewrite Hb, Hs, Hb0. cbn [mbind option_bind]. rewrite Ha.
  destruct (decide (k = k')); [|done]. apply segs_one; [done|lia].
Qed.

Lemma tItems_put t k its k' : tItems (t_put t k its) k' = if decide (k = k') then its else tItems t k'.
Proof. unfold tItems, t_put. cbn. destruct (decide (k = k')) as [->|]; [by rewrite lookup_insert_eq|by rewrite lookup_insert_ne]. Qed.
Lemma tData_frame bufs bufs' it : at_ bufs' (ti_bufsIndex it) = at_ bufs (ti_bufsIndex it) -> tData bufs' it = tData bufs it.
Proof. intros H. unfold tData. by rewrite H. Qed.
Lemma tDataOk_frame bufs bufs' k it : at_ bufs' (ti_bufsIndex it) = at_ bufs (ti_bufsIndex it) -> tDataOk bufs k it -> tDataOk bufs' k it.
Proof. intros H [[A B C D E] F G]. split; [split; try done; by rewrite H|done|by rewrite H]. Qed.
Lemma tItems_lookup t k its : t_itemsByFlow t !! k = Some its -> tItems t k = its.
Proof. intros H. unfold tItems. by rewrite H. Qed.
Lemma tIdxs_in t k it : it ∈ tItems t k -> ti_bufsIndex it ∈ tIdxs t k.
Proof. intros H. by apply list_elem_of_fmap_2. Qed.

(** The buffers of the items that were there are the same, and the data too. *)
Lemma TD_frame i bufs bufs' t alone : TD i bufs t alone ->
  (forall k it, it ∈ tItems t k -> tDataOk bufs' k it /\ tData bufs' it = tData bufs it) -> (forall j, j ∈ alone -> pktOf offset <$> at_ bufs' j = pktOf offset <$> at_ bufs j) ->
  TD i bufs' t alone /\ forall k, ledger bufs' t alone k = ledger bufs t alone k.
Proof.
  intros [B C D E F S] Hfr Hal. split; [split; try done|].
  - intros k. apply Forall_forall. intros it Hit. by apply (Hfr k).
  - intros j Hj. rewrite Hal by done. by apply S.
  - intros k. unfold ledger. f_equal. unfold tFlowData. f_equal. apply list_fmap_ext. intros n it Hit. apply (Hfr k). by eapply list_elem_of_lookup_2.
Qed.
Lemma TD_weaken i bufs t alone : TD i bufs t alone -> TD (i + 1) bufs t alone.
Proof. intros [B C D E [F G] S]. split; try done; [intros k j Hj; apply C in Hj; lia|]. split; [done|]. intros j Hj. destruct (G j Hj). split; [lia|done]. Qed.

(** Packet [i] is left alone. *)
Lemma TD_alone i bufs t alone : 0 <= i -> at_ bufs i = at_ bufs0 i -> TD i bufs t alone -> TD (i + 1) bufs t (i :: alone).
Proof.
  intros Hi Hb [B C D E [F G] S]. split; try done; [intros k j Hj; apply C in Hj; lia| |intros j [->|Hj]%elem_of_cons; [by rewrite Hb|by apply S]]. split; [apply NoDup_cons; split; [|done]; intros Hin; apply G in Hin; lia|].
  intros j [->|Hj]%elem_of_cons; [split; [lia|intros k Hk; apply C in Hk; lia]|]. destruct (G j Hj). split; [lia|done].
Qed.

(** An item is given up: its packet is left alone. *)
Lemma TD_delete i bufs t alone k pre it post : TD i bufs t alone -> t_itemsByFlow t !! k = Some (pre ++ it :: post) -> ti_numMerged it = 0 ->
  TD i bufs (t_put t k (pre ++ post)) (ti_bufsIndex it :: alone) /\
  forall k', ledger bufs (t_put t k (pre ++ post)) (ti_bufsIndex it :: alone) k' ≡ₚ ledger bufs t alone k'.
Proof.
  intros [B C D E [F G] S] Hk Hn. pose proof (tItems_lookup _ _ _ Hk) as Hits.
  assert (ti_bufsIndex it ∈ tIdxs t k) as Hin by (apply tIdxs_in; rewrite Hits; apply elem_of_app; right; left).
  assert (forall k' j, j ∈ tIdxs (t_put t k (pre ++ post)) k' -> j ∈ tIdxs t k' /\ j <> ti_bufsIndex it) as Hsub.
  { intros k' j. unfold tIdxs. rewrite tItems_put. pose proof (D k) as Hnd. unfold tIdxs in Hnd. rewrite Hits, fmap_app, fmap_cons in Hnd. destruct (decide (k = k')) as [<-|Hne].
    - rewrite Hits, !fmap_app, fmap_cons. intros Hj. split; [apply elem_of_app in Hj as [|]; apply elem_of_app; [by left|right; by right]|].
      rewrite <- Permutation_middle in Hnd. apply NoDup_cons in Hnd as [Hni _]. intros ->. by apply Hni.
    - intros Hj. split; [done|]. intros ->. by apply Hne, (E k k' (ti_bufsIndex it)). }
  assert (tDataOk bufs k it) as Hok by (specialize (B k); rewrite Hits in B; by apply Forall_app in B as [_ [? _]%Forall_cons]).
  split; [split; try done|].
  - intros k'. rewrite tItems_put. destruct (decide (k = k')) as [<-|]; [|done]. specialize (B k). rewrite Hits in B. apply Forall_app in B as [B1 [_ B2]%Forall_cons]. by apply Forall_app_2.
  - intros k' j [Hj _]%Hsub. by eapply C.
  - intros k'. unfold tIdxs. rewrite tItems_put. destruct (decide (k = k')) as [<-|]; [|apply D]. pose proof (D k) as Hnd. unfold tIdxs in Hnd. rewrite Hits, fmap_app, fmap_cons, <- Permutation_middle in Hnd.
    rewrite fmap_app. by apply NoDup_cons in Hnd as [_ ?].
  - intros k1 k2 j [H1 _]%Hsub [H2 _]%Hsub. by eapply E.
  - split; [apply NoDup_cons; split; [intros Hj; apply G in Hj as [_ Hj]; by apply (Hj k)|done]|].
    intros j [->|Hj]%elem_of_cons; [split; [by eapply C|]; intros k' [_ Hne]%Hsub; done|]. destruct (G j Hj) as [G1 G2]. split; [done|]. intros k' [Hj' _]%Hsub. by apply (G2 k').
  - intros j [->|Hj]%elem_of_cons; [|by apply S]. destruct Hok as [_ _ (b & Hb & _ & _ & _ & _ & H0)]. destruct (H0 Hn) as [-> _]. by rewrite Hb.
  - intros k'. unfold ledger, tFlowData, aloneData. rewrite tItems_put, fmap_cons. cbn [concat]. rewrite <- (unmerged_data bufs k it Hok Hn k'). destruct (decide (k = k')) as [<-|]; [|done].
    rewrite Hits, !fmap_app, fmap_cons, !concat_app. cbn [concat]. rewrite <- !app_assoc. apply Permutation_app_head. rewrite !app_assoc. apply Permutation_app_tail, Permutation_app_comm.
Qed.

(** An item takes up a segment; beside its buffer only that of packet [i] changes. *)
Lemma TD_replace i bufs t alone k pre it post bufs' it' x : TD i bufs t alone -> t_itemsByFlow t !! k = Some (pre ++ it :: post) ->
  (forall j, j <> i -> j <> ti_bufsIndex it -> at_ bufs' j = at_ bufs j) -> tDataOk bufs' k it' -> ti_bufsIndex it' = ti_bufsIndex it ->
  tData bufs' it' ≡ₚ x :: tData bufs it ->
  TD i bufs' (t_put t k (pre ++ it' :: post)) alone /\
  forall k', ledger bufs' (t_put t k (pre ++ it' :: post)) alone k' ≡ₚ (if decide (k = k') then [x] else []) ++ ledger bufs t alone k'.
Proof.
  intros [B C D E [F G] S] Hk Hfr Hok Hidx Hd. pose proof (tItems_lookup _ _ _ Hk) as Hits.
  assert (ti_bufsIndex it ∈ tIdxs t k) as Hin by (apply tIdxs_in; rewrite Hits; apply elem_of_app; right; left).
  assert (forall k', tIdxs (t_put t k (pre ++ it' :: post)) k' = tIdxs t k') as Hsame.
  { intros k'. unfold tIdxs. rewrite tItems_put. destruct (decide (k = k')) as [<-|]; [|done]. rewrite Hits, !fmap_app, !fmap_cons. by rewrite Hidx. }
  pose proof (D k) as Hnd. unfold tIdxs in Hnd. rewrite Hits, fmap_app, fmap_cons, <- Permutation_middle in Hnd. apply NoDup_cons in Hnd as [Hni _].
  assert (forall y, y ∈ pre ++ post -> at_ bufs' (ti_bufsIndex y) = at_ bufs (ti_bufsIndex y)) as Hrest.
  { intros y Hy. apply Hfr.
    - assert (ti_bufsIndex y ∈ tIdxs t k) as Hyk by (apply tIdxs_in; rewrite Hits; apply elem_of_app in Hy as [|]; apply elem_of_app; [by left|right; by right]). apply C in Hyk. lia.
    - intros Heq. apply Hni. rewrite <- Heq, <- fmap_app. by apply list_elem_of_fmap_2. }
  assert (forall k' y, k <> k' -> y ∈ tItems t k' -> at_ bufs' (ti_bufsIndex y) = at_ bufs (ti_bufsIndex y)) as Hother.
  { intros k' y Hne Hy%tIdxs_in. apply Hfr; [apply C in Hy; lia|]. intros Heq. apply Hne. apply (E k k' (ti_bufsIndex it)); [done|by rewrite <- Heq]. }
  split; [split; try done|].
  - intros k'. rewrite tItems_put. specialize (B k'). destruct (decide (k = k')) as [<-|Hne].
    + rewrite Hits in B. apply Forall_app in B as [B1 [_ B2]%Forall_cons]. apply Forall_app_2; [|apply Forall_cons_2; [done|]]; rewrite Forall_forall in *; intros y Hy;
        (eapply tDataOk_frame; [apply Hrest, elem_of_app; auto|auto]).
    + rewrite Forall_forall in *. intros y Hy. eapply tDataOk_frame; [by apply (Hother k')|by apply B].
  - intros k' j. rewrite Hsame. apply C.
  - intros k'. rewrite Hsame. apply D.
  - intros k1 k2 j. rewrite !Hsame. apply E.
  - split; [done|]. intros j Hj. destruct (G j Hj) as [G1 G2]. split; [done|]. intros k'. by rewrite Hsame.
  - intros j Hj. destruct (G j Hj) as [G1 G2]. rewrite Hfr; [by apply S|lia|]. intros ->. by apply (G2 k).
  - intros k'. unfold ledger, tFlowData. rewrite tItems_put. destruct (decide (k = k')) as [<-|Hne].
    + rewrite Hits, !fmap_app, !fmap_cons, !concat_app. cbn [concat]. rewrite Hd.
      assert (forall l : list tcpGROItem, (forall y, y ∈ l -> y ∈ pre ++ post) -> tData bufs' <$> l = tData bufs <$> l) as Heq.
      { intros l Hl. apply list_fmap_ext. intros n y Hy. apply tData_frame, Hrest, Hl. by eapply list_elem_of_lookup_2. }
      rewrite (Heq pre), (Heq post) by (intros y Hy; apply elem_of_app; auto). cbn [app]. by rewrite <- Permutation_middle.
    + cbn [app]. apply Permutation_app_tail. apply reflexive_eq. f_equal. apply list_fmap_ext. intros n y Hy. apply tData_frame, (Hother k'); [done|]. by eapply list_elem_of_lookup_2.
Qed.

(** Packet [i] becomes an item. *)
Lemma TD_insert i bufs t t1 alone k it x : 0 <= i -> TD i bufs t alone -> t_itemsByFlow t1 = t_itemsByFlow t -> tDataOk bufs k it -> ti_bufsIndex it = i -> tData bufs it = [x] ->
  TD (i + 1) bufs (t_put t1 k (tItems t k ++ [it])) alone /\
  forall k', ledger bufs (t_put t1 k (tItems t k ++ [it])) alone k' ≡ₚ (if decide (k = k') then [x] else []) ++ ledger bufs t alone k'.
Proof.
  intros Hi [B C D E [F G] S] Ht1 Hok Hidx Hd.
  assert (forall k', tItems (t_put t1 k (tItems t k ++ [it])) k' = if decide (k = k') then tItems t k ++ [it] else tItems t k') as Hits by (intros k'; rewrite tItems_put; unfold tItems; by rewrite Ht1).
  assert (forall k' j, j ∈ tIdxs (t_put t1 k (tItems t k ++ [it])) k' -> (j = i /\ k' = k) \/ j ∈ tIdxs t k') as Hsub.
  { intros k' j. unfold tIdxs. rewrite Hits. destruct (decide (k = k')) as [->|]; [|by right]. rewrite fmap_app, elem_of_app. intros [H|H]; [by right|left]. cbn in H. apply list_elem_of_singleton in H. split; congruence. }
  split; [split; try done|].
  - intros k'. rewrite Hits. destruct (decide (k = k')) as [<-|]; [apply Forall_app_2; [done|by apply Forall_singleton]|done].
  - intros k' j [[-> _]|Hj]%Hsub; [lia|apply C in Hj; lia].
  - intros k'. unfold tIdxs. rewrite Hits. destruct (decide (k = k')) as [<-|]; [|apply D]. rewrite fmap_app. apply NoDup_app. split_and!; [apply D| |apply NoDup_singleton].
    intros j Hj Hj'. cbn in Hj'. apply list_elem_of_singleton in Hj'. apply C in Hj. lia.
  - intros k1 k2 j [[-> ->]|H1]%Hsub [[Hj ->]|H2]%Hsub; [done|apply C in H2; lia|subst j; apply C in H1; lia|by eapply E].
  - split; [done|]. intros j Hj. destruct (G j Hj) as [G1 G2]. split; [lia|]. intros k' [[-> _]|Hj']%Hsub; [lia|by apply (G2 k')].
  - intros k'. unfold ledger, tFlowData. rewrite Hits. destruct (decide (k = k')) as [<-|]; [|done]. rewrite fmap_app, concat_app. cbn. rewrite Hd. cbn. rewrite <- app_assoc. cbn. by rewrite <- Permutation_middle.
Qed.

(** ** What a merge does to the data *)

Lemma get32_take (l l' : list Z) a n : 0 <= a -> a + 4 <= Z.of_nat n -> (n <= length l)%nat -> (n <= length l')%nat -> take n l = take n l' -> get32 l a = get32 l' a.
Proof.
  intros Ha Hn H1 H2 Ht. unfold get32. rewrite !slice_Some by (unfold len; lia). f_equal. f_equal.
  assert (forall m : list Z, take (Z.to_nat (a + 4 - a)) (drop (Z.to_nat a) m) = take (Z.to_nat (a + 4 - a)) (drop (Z.to_nat a) (take n m))) as Heq.
  { intros m. rewrite take_drop_commute, take_drop_commute, take_take. do 2 f_equal. lia. }
  rewrite (Heq l), (Heq l'). by rewrite Ht.
Qed.

(** The verdict whether a packet may be merged, and why. *)
Lemma can_facts pkt iph tcph seq (psh : bool) gso it bufs can b : at_ bufs (ti_bufsIndex it) = Some b -> offset <= len (dat b) ->
  tcpPacketsCanCoalesce pkt iph tcph seq psh gso it bufs offset = Some can ->
  match can with
  | coalesceAppend => tcph = ti_tcphLen it /\ seq = u32 (ti_sentSeq it + u16 (ti_gsoSize it + u16 (ti_numMerged it * ti_gsoSize it))) /\
      tailMod (pktOf offset b) (u8 (iph + tcph)) (ti_gsoSize it) = Some 0 /\ gso <= ti_gsoSize it
  | coalescePrepend => tcph = ti_tcphLen it /\ u32 (seq + gso) = ti_sentSeq it /\ psh = false /\ ti_gsoSize it <= gso /\ (gso = ti_gsoSize it \/ ti_numMerged it <= 0)
  | coalesceUnavailable => True
  end.
Proof.
  intros Hb Hl H. unfold tcpPacketsCanCoalesce in H. rewrite Hb in H. cbn [mbind option_bind] in H. rewrite (tailOf_pkt offset Hoff) in H by done. cbn [mbind option_bind] in H.
  destruct (Z.eqb_spec tcph (ti_tcphLen it)) as [Et|]; cbn [negb] in H; [|by injection H as <-].
  apply bind_Some in H as (same & _ & H). destruct same; cbn [negb] in H; [|by injection H as <-]. destruct (ipHeadersCanCoalesce _ _); cbn [negb] in H; [|by injection H as <-].
  destruct (Z.eqb_spec seq (u32 (ti_sentSeq it + u16 (ti_gsoSize it + u16 (ti_numMerged it * ti_gsoSize it))))) as [Es|_].
  - destruct (ti_pshSet it); [by injection H as <-|]. apply bind_Some in H as (r & Hr & H). destruct (Z.eqb_spec r 0) as [->|]; cbn [negb] in H; [|by injection H as <-].
    destruct (Z.ltb_spec (ti_gsoSize it) gso); injection H as <-; [done|]. done.
  - destruct (Z.eqb_spec (u32 (seq + gso)) (ti_sentSeq it)) as [Es|]; [|by injection H as <-]. destruct psh; [by injection H as <-|].
    destruct (Z.ltb_spec gso (ti_gsoSize it)); [by injection H as <-|]. destruct (Z.ltb_spec (ti_gsoSize it) gso), (Z.ltb_spec 0 (ti_numMerged it)); cbn [andb] in H; injection H as <-; try done; (split; [done|]); (split; [done|]); (split; [done|]); lia.
Qed.

(** The pieces a successful append is made of. *)
Lemma append_inv pkt i gso seq (psh : bool) it bufs isV6 can it' bufs' ib : can <> coalescePrepend -> at_ bufs (ti_bufsIndex it) = Some ib -> offset <= len (dat ib) ->
  coalesceTCPPackets be can pkt i gso seq psh it bufs offset isV6 = Some (coalesceSuccess, it', bufs') ->
  exists d payload h, h = u8 (ti_iphLen it + ti_tcphLen it) /\ slice pkt h (len pkt) = Some payload /\ len (pktOf offset ib) + len pkt - h <= bcap ib - offset - offset /\
    (d = dat ib \/ exists v, set_at (dat ib) (offset + u8 (ti_iphLen it + tcpFlagsOffset)) v = Some d) /\
    (exists ib', extend (with_dat ib d) (len pkt - h) (offset + len (pktOf offset ib)) payload = Some ib' /\ set_at bufs (ti_bufsIndex it) ib' = Some bufs') /\
    it' = t_merged it (ti_sentSeq it) gso (if psh then psh else ti_pshSet it).
Proof.
  intros Hc Hb Hl H. unfold coalesceTCPPackets in H. rewrite Hb in H. cbn [mbind option_bind] in H. rewrite (tailOf_pkt offset Hoff) in H by done. cbn [mbind option_bind] in H.
  rewrite decide_False in H by done. destruct (Z.ltb_spec (bcap ib - offset - offset) (len (pktOf offset ib) + len pkt - u8 (ti_iphLen it + ti_tcphLen it))) as [|Hcap]; [done|].
  apply bind_Some in H as (r & Hr & H). destruct r as [e|].
  { exfalso. injection H as -> _ _. unfold tcpCSumCheck in Hr. apply bind_Some in Hr as (a & _ & Hr). destruct a; cbn [negb] in Hr; [|done]. apply bind_Some in Hr as (c & _ & Hr). by destruct c. }
  apply bind_Some in H as (ib1 & Hib1 & H). apply bind_Some in H as (pl & Hpl & H). apply bind_Some in H as (ib2 & Hib2 & H). apply bind_Some in H as (bufs2 & Hset & H). injection H as <- <-.
  assert (exists d, ib1 = with_dat ib d /\ (d = dat ib \/ exists v, set_at (dat ib) (offset + u8 (ti_iphLen it + tcpFlagsOffset)) v = Some d)) as (d & -> & Hd).
  { destruct psh; [|injection Hib1 as <-; exists (dat ib); split; [by destruct ib|by left]].
    apply bind_Some in Hib1 as (f & _ & Hib1). apply bind_Some in Hib1 as (d & Hd & [= <-]). exists d. split; [done|right; eauto]. }
  exists d, pl, (u8 (ti_iphLen it + ti_tcphLen it)). split_and!; try done. by exists ib2.
Qed.
Lemma prepend_inv pkt i gso seq (psh : bool) it bufs isV6 it' bufs' ib pb : at_ bufs (ti_bufsIndex it) = Some ib -> at_ bufs i = Some pb -> offset <= len (dat ib) ->
  coalesceTCPPackets be coalescePrepend pkt i gso seq psh it bufs offset isV6 = Some (coalesceSuccess, it', bufs') ->
  exists payload h pb' bufs1, h = u8 (ti_iphLen it + ti_tcphLen it) /\ slice (dat ib) (offset + h) (len (dat ib)) = Some payload /\ len (pktOf offset ib) + len pkt - h <= bcap pb - offset - offset /\
    extend pb (len (pktOf offset ib) + len pkt - h - len pkt) (offset + len pkt) payload = Some pb' /\ set_at bufs i ib = Some bufs1 /\ set_at bufs1 (ti_bufsIndex it) pb' = Some bufs' /\
    it' = t_merged it seq gso (ti_pshSet it).
Proof.
  intros Hb Hp Hl H. unfold coalesceTCPPackets in H. rewrite Hb in H. cbn [mbind option_bind] in H. rewrite (tailOf_pkt offset Hoff) in H by done. cbn [mbind option_bind] in H.
  rewrite decide_True, Hp in H by done. cbn [mbind option_bind] in H. destruct (Z.ltb_spec (bcap pb - offset - offset) (len (pktOf offset ib) + len pkt - u8 (ti_iphLen it + ti_tcphLen it))) as [|Hcap]; [done|].
  destruct psh; [done|]. apply bind_Some in H as (r & Hr & H). destruct r as [e|].
  { exfalso. injection H as -> _ _. unfold tcpCSumCheck in Hr. apply bind_Some in Hr as (a & _ & Hr). destruct a; cbn [negb] in Hr; [|done]. apply bind_Some in Hr as (c & _ & Hr). by destruct c. }
  apply bind_Some in H as (pl & Hpl & H). apply bind_Some in H as (pb' & Hpb & H). apply bind_Some in H as (bufs1 & Hs1 & H). apply bind_Some in H as (bufs2 & Hs2 & H). injection H as <- <-.
  exists pl, (u8 (ti_iphLen it + ti_tcphLen it)), pb', bufs1. split_and!; done.
Qed.
(** Only an item that has merged nothing is found to have a wrong checksum. *)
Lemma invalid_unmerged mode pkt i gso seq (psh : bool) it bufs isV6 it' bufs' :
  coalesceTCPPackets be mode pkt i gso seq psh it bufs offset isV6 = Some (coalesceItemInvalidCSum, it', bufs') -> ti_numMerged it = 0.
Proof.
  unfold coalesceTCPPackets. intros H. assert (forall p q, tcpCSumCheck be it p q isV6 = Some (Some coalesceItemInvalidCSum) -> ti_numMerged it = 0) as Hc.
  { intros p q Hr. unfold tcpCSumCheck in Hr. destruct (Z.eqb_spec (ti_numMerged it) 0); [done|]. cbn [mbind option_bind negb] in Hr. apply bind_Some in Hr as (c & _ & Hr). by destruct c. }
  apply bind_Some in H as (ib & _ & H). apply bind_Some in H as (ip & _ & H). destruct (decide (mode = coalescePrepend)) as [_|_].
  - apply bind_Some in H as (pb & _ & H). destruct (_ <? _); [done|]. destruct psh; [done|]. apply bind_Some in H as (r & Hr & H). destruct r as [er|]; [injection H as -> _ _; by eapply Hc|].
    repeat (apply bind_Some in H as (? & _ & H)). done.
  - destruct (_ <? _); [done|]. apply bind_Some in H as (r & Hr & H). destruct r as [e|]; [injection H as -> _ _; by eapply Hc|]. repeat (apply bind_Some in H as (? & _ & H)). done.
Qed.

Lemma set_at_at {A} (l : list A) j x l' : set_at l j x = Some l' -> at_ l' j = Some x.
Proof.
  intros H. assert (0 <= j < len l) as Hj by (unfold set_at in H; by destruct (decide _)). destruct (set_at_total l j x Hj) as (l2 & H2 & _ & Hat). rewrite H in H2. injection H2 as <-.
  rewrite Hat. by rewrite decide_True.
Qed.
(** The payload of an item has the size of its packet without the headers. *)
Lemma tPayload_len it b : 0 <= ti_iphLen it -> 0 <= ti_tcphLen it -> offset + ti_iphLen it + ti_tcphLen it <= len (dat b) ->
  len (tPayload it b) = len (pktOf offset b) - (ti_iphLen it + ti_tcphLen it).
Proof. intros H1 H2 Hl. unfold virtioNetHdrLen in Hoff. unfold tPayload, pktOf, len in *. rewrite !length_drop. lia. Qed.
Lemma u16_lt n g L : 0 <= n -> 0 < g -> n * g < L <= 65535 -> u16 (n + 1) = n + 1.
Proof. intros Hn Hg HL. apply u16_small. unfold is_u16. nia. Qed.

(** The packet at [i] with its segment, about to be merged. *)
Record tcpSeg (i : Z) (bufs : list Buf) (isV6 : bool) (iph tcph seq gso : Z) (b : Buf) : Prop := {
  sg_pkt : tcpPkt offset i bufs isV6 iph tcph b;
  sg_seq : get32 (pktOf offset b) (iph + 4) = Some seq;
  sg_gso : gso = len (pktOf offset b) - tcph - iph /\ 1 <= gso;
  sg_cap : capOk b
}.

Lemma append_data i bufs isV6 iph tcph seq gso b k it psh it' bufs' can : Forall (bufOk offset) bufs ->
  tcpSeg i bufs isV6 iph tcph seq gso b -> tDataOk bufs k it -> tk_isV6 k = isV6 -> can = coalesceAppend ->
  tcpPacketsCanCoalesce (pktOf offset b) iph tcph seq psh gso it bufs offset = Some can ->
  coalesceTCPPackets be can (pktOf offset b) i gso seq psh it bufs offset isV6 = Some (coalesceSuccess, it', bufs') ->
  tItemOk offset bufs' k it' ->
  tDataOk bufs' k it' /\ tData bufs' it' = tData bufs it ++ [(u32 seq, drop (Z.to_nat (iph + tcph)) (pktOf offset b))].
Proof.
  intros Hf [[Hat Hi Htc Hl] Hsq [Hgso Hg1] _] [Hit Hn0 (ib & Hib & Hs & HL & Hmax & Hcb & _)] Hv -> Hcan Hm Hit'. pose proof Hit as [_ Hiph Htc' Hg (ib0 & Hib0 & Hibl)].
  rewrite Hib in Hib0. injection Hib0 as <-. pose proof (iphOf_range isV6) as Hr. rewrite Hv, <- Hi in Hiph. unfold virtioNetHdrLen in Hoff.
  destruct (can_facts _ _ _ _ _ _ _ _ _ ib Hib ltac:(lia) Hcan) as (Et & Eseq & Emod & Hle).
  destruct (append_inv (pktOf offset b) i gso seq psh it bufs isV6 coalesceAppend it' bufs' ib ltac:(done) Hib ltac:(lia) Hm) as (d & pl & h & Eh & Hpl & Hfit & Hd & (ib' & Hext & Hset) & ->).
  pose proof (tPayload_len it ib ltac:(lia) ltac:(lia) ltac:(lia)) as HPL. pose proof (pktOf_len offset Hoff ib ltac:(lia)) as Hpk.
  assert (u8 (iph + tcph) = iph + tcph) as E8 by (rewrite Hi; apply iph_small; lia). rewrite Hiph, <- Et, E8 in Eh. subst h.
  rewrite E8, (tailMod_total _ (iph + tcph)) in Emod by lia. injection Emod as Emod. rewrite Hiph, <- Et in HPL.
  assert (len (tPayload it ib) = (ti_numMerged it + 1) * ti_gsoSize it) as Efull.
  { rewrite <- HPL in Emod. apply Z.mod_divide in Emod as [q Hq]; [|lia]. assert (q = ti_numMerged it + 1) by nia. nia. }
  assert (u16 (ti_gsoSize it + u16 (ti_numMerged it * ti_gsoSize it)) = (ti_numMerged it + 1) * ti_gsoSize it) as Elhs.
  { assert (0 <= ti_numMerged it * ti_gsoSize it) by nia. rewrite !u16_small by (rewrite ?u16_small by width_lia; width_lia). lia. }
  rewrite Elhs in Eseq. assert (pl = drop (Z.to_nat (iph + tcph)) (pktOf offset b)) as -> by (rewrite slice_suffix in Hpl by lia; by injection Hpl).
  set (pl := drop _ (pktOf offset b)) in *. assert (len pl = gso) as Hpll by (unfold pl, len in *; rewrite length_drop; lia).
  assert (len d = len (dat ib) /\ drop (Z.to_nat (offset + iph + tcph)) d = tPayload it ib /\ take (Z.to_nat (offset + iph + 13)) d = take (Z.to_nat (offset + iph + 13)) (dat ib)) as (Hdl & Hdd & Hdt).
  { unfold tPayload. rewrite Hiph, <- Et. destruct Hd as [->|(v & Hd)]; [done|]. unfold tcpFlagsOffset in Hd. rewrite Hiph, Hi, iph_small, <- Hi in Hd by lia.
    unfold set_at in Hd. destruct (decide _) as [Hr'|]; [|done]. injection Hd as <-. split_and!; [unfold len; by rewrite length_insert|by rewrite drop_insert_lt by lia|by rewrite take_insert_ge by lia]. }
  replace (offset + len (pktOf offset ib)) with (len (dat (with_dat ib d))) in Hext by (cbn; lia). rewrite extend_spec in Hext by lia. injection Hext as <-. cbn [dat with_dat] in Hset.
  pose proof (set_at_at _ _ _ _ Hset) as Hat'. set (nb := with_dat _ (d ++ pl)) in *. assert (dat nb = d ++ pl) as Enb by done.
  assert (tPayload it nb = tPayload it ib ++ pl) as Epay.
  { unfold tPayload at 1. rewrite Hiph, <- Et, Enb, drop_app_le by (unfold len in *; lia). by rewrite Hdd. }
  assert (get32 (pktOf offset nb) (iph + 4) = Some (ti_sentSeq it)) as Eget.
  { rewrite Hiph in Hs. rewrite <- Hs. unfold pktOf. rewrite Enb. apply (get32_take _ _ _ (Z.to_nat (iph + 13))); [lia|lia|unfold len in *; rewrite length_drop, length_app; lia|unfold len in *; rewrite length_drop; lia|].
    rewrite !take_drop_commute. f_equal. replace (Z.to_nat offset + Z.to_nat (iph + 13))%nat with (Z.to_nat (offset + iph + 13)) by lia. rewrite take_app_le by (unfold len in *; lia). done. }
  assert (u16 (ti_numMerged it + 1) = ti_numMerged it + 1) as Em by (apply (u16_lt _ (ti_gsoSize it) (len (tPayload it ib))); lia).
  assert (forall x, (if ti_gsoSize it <? gso then x else ti_gsoSize it) = ti_gsoSize it) as Emax by (intros x; by rewrite (proj2 (Z.ltb_ge _ _)) by lia).
  split.
  - split; [done|cbn; lia|]. exists nb. change (tPayload (t_merged _ _ _ _) nb) with (tPayload it nb). cbn [t_merged ti_bufsIndex ti_iphLen ti_gsoSize ti_numMerged ti_sentSeq].
    rewrite Emax, Em, Epay, len_app, Hiph. split; [done|]. split; [done|]. split; [lia|]. split; [|split; [exact Hcb|lia]]. unfold capOk in Hcb. unfold pktOf, len in *. rewrite Enb, length_drop, length_app. unfold len in *. lia.
  - unfold tData. change (tPayload (t_merged _ _ _ _)) with (tPayload it). cbn [t_merged ti_bufsIndex ti_iphLen ti_gsoSize]. rewrite Hat', Hib, Hs. rewrite Hiph in Hs |- *. rewrite Eget, Emax, Epay.
    rewrite (segs_snoc _ _ (ti_numMerged it)) by lia. do 2 f_equal. rewrite Eseq. by rewrite (u32_small (u32 _)) by apply u32_range.
Qed.

Lemma prepend_data i bufs isV6 iph tcph seq gso b k it psh it' bufs' : Forall (bufOk offset) bufs ->
  tcpSeg i bufs isV6 iph tcph seq gso b -> tDataOk bufs k it -> tk_isV6 k = isV6 -> ti_bufsIndex it <> i ->
  tcpPacketsCanCoalesce (pktOf offset b) iph tcph seq psh gso it bufs offset = Some coalescePrepend ->
  coalesceTCPPackets be coalescePrepend (pktOf offset b) i gso seq psh it bufs offset isV6 = Some (coalesceSuccess, it', bufs') ->
  tItemOk offset bufs' k it' ->
  tDataOk bufs' k it' /\ tData bufs' it' = (u32 seq, drop (Z.to_nat (iph + tcph)) (pktOf offset b)) :: tData bufs it.
Proof.
  intros Hf [[Hat Hi Htc Hl] Hsq [Hgso Hg1] Hcb] [Hit Hn0 (ib & Hib & Hs & HL & Hmax & _)] Hv Hne Hcan Hm Hit'. pose proof Hit as [_ Hiph Htc' Hg (ib0 & Hib0 & Hibl)].
  rewrite Hib in Hib0. injection Hib0 as <-. pose proof (iphOf_range isV6) as Hr. rewrite Hv, <- Hi in Hiph. unfold virtioNetHdrLen in Hoff.
  pose proof (bufOk_at _ _ _ _ Hf Hat) as Hbo. unfold bufOk in Hbo.
  destruct (can_facts _ _ _ _ _ _ _ _ _ ib Hib ltac:(lia) Hcan) as (Et & Eseq & _ & Hle & Hor).
  destruct (prepend_inv _ _ _ _ _ _ _ _ _ _ ib b Hib Hat ltac:(lia) Hm) as (P & h & nb & bufs1 & Eh & HP & Hfit & Hext & Hset1 & Hset & ->).
  pose proof (tPayload_len it ib ltac:(lia) ltac:(lia) ltac:(lia)) as HPL. pose proof (pktOf_len offset Hoff ib ltac:(lia)) as Hpk. pose proof (pktOf_len offset Hoff b ltac:(lia)) as Hpb.
  assert (u8 (iph + tcph) = iph + tcph) as E8 by (rewrite Hi; apply iph_small; lia). rewrite Hiph, <- Et, E8 in Eh. subst h. rewrite Hiph, <- Et in HPL.
  assert (P = tPayload it ib) as -> by (rewrite slice_suffix in HP by lia; injection HP as <-; unfold tPayload; rewrite Hiph, <- Et; f_equal; lia).
  replace (offset + len (pktOf offset b)) with (len (dat b)) in Hext by lia. rewrite extend_spec in Hext by lia. injection Hext as <-.
  pose proof (set_at_at _ _ _ _ Hset) as Hat'. set (nb := with_dat b (dat b ++ tPayload it ib)) in *. assert (dat nb = dat b ++ tPayload it ib) as Enb by done.
  set (pl := drop (Z.to_nat (iph + tcph)) (pktOf offset b)). assert (len pl = gso) as Hpll by (unfold pl, len in *; rewrite length_drop; lia).
  assert (tPayload it nb = pl ++ tPayload it ib) as Epay.
  { unfold tPayload at 1. rewrite Hiph, <- Et, Enb, drop_app_le by (unfold len in *; lia). f_equal. unfold pl, pktOf. rewrite drop_drop. f_equal. lia. }
  assert (get32 (pktOf offset nb) (iph + 4) = Some seq) as Eget.
  { rewrite <- Hsq. unfold pktOf. rewrite Enb. apply (get32_take _ _ _ (Z.to_nat (iph + 13))); [lia|lia|unfold len in *; rewrite length_drop, length_app; lia|unfold len in *; rewrite length_drop; lia|].
    rewrite drop_app_le, take_app_le by (unfold len in *; rewrite ?length_drop; lia). done. }
  assert (u16 (ti_numMerged it + 1) = ti_numMerged it + 1) as Em by (apply (u16_lt _ (ti_gsoSize it) (len (tPayload it ib))); lia).
  assert ((if ti_gsoSize it <? gso then gso else ti_gsoSize it) = gso) as Emax by (destruct (Z.ltb_spec (ti_gsoSize it) gso); lia).
  assert (0 <= ti_numMerged it * ti_gsoSize it) as Hpos by nia.
  split.
  - split; [done|cbn; lia|]. exists nb. change (tPayload (t_merged _ _ _ _) nb) with (tPayload it nb). cbn [t_merged ti_bufsIndex ti_iphLen ti_gsoSize ti_numMerged ti_sentSeq].
    rewrite Emax, Em, Epay, len_app, Hiph. split; [done|]. split; [done|]. split; [destruct Hor as [Eg|Hn]; [rewrite <- Eg in HL; lia|assert (ti_numMerged it = 0) as En by lia; rewrite En in HL |- *; lia]|]. split; [|split; [exact Hcb|lia]]. unfold capOk in Hcb. unfold pktOf, len in *. rewrite Enb, length_drop, length_app. unfold len in *. lia.
  - unfold tData. change (tPayload (t_merged _ _ _ _)) with (tPayload it). cbn [t_merged ti_bufsIndex ti_iphLen ti_gsoSize]. rewrite Hat', Hib, Hs. rewrite Hiph in Hs |- *. rewrite Eget, Emax, Epay.
    rewrite (segs_cons seq (ti_sentSeq it) gso); [|lia|done|lia|rewrite <- Eseq; by rewrite (u32_small (u32 _)) by apply u32_range]. f_equal.
    destruct Hor as [->|Hn]; [done|]. assert (ti_numMerged it = 0) as En by lia. rewrite En in HL. rewrite !segs_one by lia. done.
Qed.

(** ** The items of a flow *)

Definition gained (r : option groResult) (k k' : tcpFlowKey) (x : Z * list Z) : list (Z * list Z) :=
  if decide (r = Some groResultCoalesced) then (if decide (k = k') then [x] else []) else [].

Lemma tcpItems_data i bufs isV6 iph tcph seq gso b k items (psh : bool) : tk_isV6 k = isV6 -> tcpSeg i bufs isV6 iph tcph seq gso b ->
  Forall (bufOk offset) bufs -> Forall (tDataOk bufs k) items -> Forall (fun it => ti_bufsIndex it <> i) items ->
  forall n rest t alone r t' bufs', (n <= length items)%nat -> TOk offset i bufs t -> TD i bufs t alone -> t_itemsByFlow t !! k = Some (take n items ++ rest) ->
  tcpItems be n items (pktOf offset b) iph tcph seq psh gso bufs offset i t isV6 = Some (r, t', bufs') ->
  exists alone', TD i bufs' t' alone' /\ (r <> Some groResultCoalesced -> bufs' = bufs) /\ (forall j, j ∈ alone' -> j ∈ alone \/ tIdx t j) /\
    (forall j, j ∈ alone \/ tIdx t j <-> j ∈ alone' \/ tIdx t' j) /\
    forall k', ledger bufs' t' alone' k' ≡ₚ gained r k k' (u32 seq, drop (Z.to_nat (iph + tcph)) (pktOf offset b)) ++ ledger bufs t alone k'.
Proof.
  intros Hv Hseg Hf Hits Hidx n. pose proof Hseg as [Hp Hsq [Hgso Hg1] _]. induction n as [|n IH]; intros rest t alone r t' bufs' Hn Ht HD Hk Hrun.
  { cbn [tcpItems] in Hrun. injection Hrun as <- <- <-. exists alone. split_and!; try done. by left. }
  destruct (lookup_lt_is_Some_2 items n) as (it & Hit); [lia|].
  pose proof (Forall_lookup_1 _ _ _ _ Hits Hit) as Hok. pose proof (Forall_lookup_1 _ _ _ _ Hidx Hit) as Hne. cbn in Hne.
  assert (take (S n) items ++ rest = take n items ++ it :: rest) as Hsplit by (by rewrite (take_S_r _ _ it), <- app_assoc).
  rewrite Hsplit in Hk. cbn [tcpItems] in Hrun. rewrite (at_Some items (Z.of_nat n) it) in Hrun by (rewrite ?Nat2Z.id; done || lia). cbn [mbind option_bind] in Hrun.
  pose proof Hp as [_ Hiph Htc _]. assert (u8 iph = iph /\ u8 tcph = tcph) as [E1 E2].
  { split; [rewrite <- (Z.add_0_r iph), Hiph; apply iph_small; lia|apply u8_small; width_lia]. }
  rewrite E1, E2 in Hrun. apply bind_Some in Hrun as (can & Hcan & Hrun).
  assert (forall r t' bufs', tcpItems be n items (pktOf offset b) iph tcph seq psh gso bufs offset i t isV6 = Some (r, t', bufs') -> _) as IH'
    by (intros r1 t1 b1; exact (IH (it :: rest) t alone r1 t1 b1 ltac:(lia) Ht HD Hk)).
  destruct (decide (can = coalesceUnavailable)) as [|Hcu]; [by apply IH'|].
  apply bind_Some in Hrun as ([[res it'] bufs1] & Hm & Hrun).
  destruct (tcpCan_total offset Hoff i bufs isV6 iph tcph b k it seq psh gso Hf Hp (td_item _ _ _ Hok) Hv) as (can' & Hcan' & Htcph). rewrite Hcan in Hcan'. injection Hcan' as <-.
  assert (mergePost offset i k it bufs (coalesceTCPPackets be can (pktOf offset b) i gso seq psh it bufs offset isV6)) as (res0 & it0 & bufs0' & Hm0 & Hfail & Hgr & Hfr & Hok' & Hidx').
  { specialize (Htcph Hcu). destruct can; [eapply merge_prepend|done|eapply merge_append]; eauto using td_item; lia. }
  rewrite Hm in Hm0. injection Hm0 as <- <- <-.
  assert (Z.of_nat n = len (take n items)) as Hlen by (unfold len; rewrite length_take; lia).
  destruct res.
  - destruct Hfail as [-> ->]; [done|]. by apply IH'.
  - destruct Hfail as [-> ->]; [done|]. by apply IH'.
  - destruct Hfail as [-> ->]; [done|]. rewrite (tok_key _ _ _ _ (td_item _ _ _ Hok)), (t_deleteAt_spec t k (take n items) it rest) in Hrun by done. cbn [mbind option_bind] in Hrun.
    pose proof (invalid_unmerged _ _ _ _ _ _ _ _ _ _ _ Hm) as Hum. destruct (TD_delete i bufs t alone k (take n items) it rest HD Hk Hum) as [HD1 Hl1].
    assert (tStep offset i t bufs (t_put t k (take n items ++ rest)) bufs) as Hst.
    { pose proof (T_items _ _ _ _ Ht _ _ Hk) as Hall. apply Forall_app in Hall as [Ha [_ Hb]%Forall_cons].
      eapply t_put_step; [done|by apply grows_refl|exact Hk|done|by apply Forall_app_2|].
      intros x Hx. exists x. split; [|done]. apply elem_of_app in Hx as [Hx|Hx]; apply elem_of_app; [by left|right; by right]. }
    destruct (IH rest _ (ti_bufsIndex it :: alone) r t' bufs' ltac:(lia) (TOk_step _ _ _ _ _ _ Ht Hst) HD1 ltac:(cbn; apply lookup_insert_eq) Hrun) as (alone' & HD' & Hs' & Ha' & Hiff' & Hl').
    assert (forall j, j ∈ ti_bufsIndex it :: alone \/ tIdx (t_put t k (take n items ++ rest)) j <-> j ∈ alone \/ tIdx t j) as Hiff1.
    { intros j. rewrite elem_of_cons. split.
      - intros [[->|]|Hj]; [right; exists k, (take n items ++ it :: rest), it; split_and!; [done| |done]; apply elem_of_app; right; left|by left|right; by apply (ts_idx _ _ _ _ _ _ Hst)].
      - intros [|(k1 & its1 & x & Hk1 & Hx & <-)]; [by left; right|]. destruct (decide (k = k1)) as [<-|Hnk].
        + rewrite Hk in Hk1. injection Hk1 as <-. apply elem_of_app in Hx as [Hx|[->|Hx]%elem_of_cons]; [right|by left; left|right];
            exists k, (take n items ++ rest), x; (split; [apply lookup_insert_eq|]); (split; [apply elem_of_app; auto|done]).
        + right. exists k1, its1, x. split; [cbn; by rewrite lookup_insert_ne|done]. }
    exists alone'. split; [done|]. split; [done|]. split; [|split].
    + intros j [Hj|Hj]%Ha'; apply Hiff1; auto.
    + intros j. by rewrite <- Hiff', Hiff1.
    + intros k'. by rewrite Hl', Hl1.
  - destruct Hfail as [-> ->]; [done|]. injection Hrun as <- <- <-. exists alone. split_and!; try done. by left.
  - assert (tDataOk bufs1 k it' /\ tData bufs1 it' ≡ₚ (u32 seq, drop (Z.to_nat (iph + tcph)) (pktOf offset b)) :: tData bufs it) as (HOk & Hdata).
    { destruct can; [|done|].
      - destruct (prepend_data i bufs isV6 iph tcph seq gso b k it psh it' bufs1 Hf Hseg Hok Hv Hne Hcan Hm Hok') as (? & ->). done.
      - destruct (append_data i bufs isV6 iph tcph seq gso b k it psh it' bufs1 coalesceAppend Hf Hseg Hok Hv eq_refl Hcan Hm Hok') as (? & ->). split; [done|]. by rewrite Permutation_app_comm. }
    assert (ti_key it' = k) as Hk' by apply Hok'. rewrite (t_updateAt_spec t (take n items) it rest) in Hrun by (by rewrite ?Hk'). cbn [mbind option_bind] in Hrun. rewrite Hk' in Hrun. injection Hrun as <- <- <-.
    destruct (TD_replace i bufs t alone k (take n items) it rest bufs1 it' _ HD Hk Hfr HOk Hidx' Hdata) as [HD1 Hl1].
    exists alone. split; [done|]. split; [done|]. split; [by left|]. split.
    + intros j. enough (tIdx t j <-> tIdx (t_put t k (take n items ++ it' :: rest)) j) as -> by done. split.
      * intros (k1 & its1 & x & Hk1 & Hx & <-). destruct (decide (k = k1)) as [<-|Hnk].
        -- rewrite Hk in Hk1. injection Hk1 as <-. exists k, (take n items ++ it' :: rest). apply elem_of_app in Hx as [Hx|[->|Hx]%elem_of_cons]; [exists x|exists it'|exists x];
             (split; [apply lookup_insert_eq|]); (split; [apply elem_of_app; rewrite elem_of_cons; auto|done]).
        -- exists k1, its1, x. split; [cbn; by rewrite lookup_insert_ne|done].
      * intros (k1 & its1 & x & Hk1 & Hx & <-). cbn in Hk1. apply lookup_insert_Some in Hk1 as [[<- <-]|[Hnk Hk1]]; [|by exists k1, its1, x].
        exists k, (take n items ++ it :: rest). apply elem_of_app in Hx as [Hx|[->|Hx]%elem_of_cons]; [exists x|exists it|exists x]; (split; [done|]); (split; [apply elem_of_app; rewrite elem_of_cons; auto|done]).
    + intros k'. rewrite Hl1. unfold gained. by destruct (decide (Some groResultCoalesced = Some groResultCoalesced)).
Qed.

(** ** The round of a TCP packet *)

Lemma tIdx_items t j : tIdx t j <-> exists k, j ∈ tIdxs t k.
Proof.
  split.
  - intros (k & its & it & Hk & Hin & <-). exists k. apply tIdxs_in. by rewrite (tItems_lookup _ _ _ Hk).
  - intros (k & (it & -> & Hit)%list_elem_of_fmap). unfold tItems in Hit. destruct (t_itemsByFlow t !! k) as [its|] eqn:E; [by exists k, its, it|by apply elem_of_nil in Hit].
Qed.

Lemma t_insert_data i bufs isV6 iph tcph seq gso b k t alone t2 : 0 <= i < 65536 -> tcpSeg i bufs isV6 iph tcph seq gso b -> Forall (bufOk offset) bufs -> len (pktOf offset b) <= 65535 ->
  at_ bufs0 i = Some b -> tcpArrival b = Some (k, (u32 seq, drop (Z.to_nat (iph + tcph)) (pktOf offset b))) -> tk_isV6 k = isV6 -> TD i bufs t alone ->
  let s := if isV6 then ipv6SrcAddrOffset else ipv4SrcAddrOffset in
  newTCPFlowKey (pktOf offset b) s (s + (if isV6 then 16 else 4)) iph = Some k ->
  t_insert t (pktOf offset b) s (s + (if isV6 then 16 else 4)) iph tcph i = Some t2 ->
  TD (i + 1) bufs t2 alone /\ (forall j, tIdx t2 j <-> tIdx t j \/ j = i) /\ forall k', ledger bufs t2 alone k' ≡ₚ brings (Some b) k' ++ ledger bufs t alone k'.
Proof.
  intros Hi [[Hat Eiph Htc Hl] Hsq [Hgso Hg1] Hcb] Hf Hmax Hb0 Harr Hv HD s Hk Hins. unfold t_insert in Hins. rewrite Hk in Hins. cbn [mbind option_bind] in Hins.
  pose proof (iphOf_range isV6). pose proof (bufOk_at _ _ _ _ Hf Hat) as Hbo. unfold bufOk in Hbo. pose proof (pktOf_len offset Hoff b ltac:(lia)) as Hpl. unfold virtioNetHdrLen in Hoff.
  rewrite slice_suffix in Hins by lia. cbn [mbind option_bind] in Hins. rewrite Hsq in Hins. cbn [mbind option_bind] in Hins. apply bind_Some in Hins as (fl & _ & Hins).
  set (pl := drop (Z.to_nat (iph + tcph)) (pktOf offset b)) in *. assert (len pl = gso) as Hpll by (unfold pl, len in *; rewrite length_drop; lia).
  set (item := {| ti_key := k; ti_sentSeq := seq |}) in Hins. apply bind_Some in Hins as ([its t1] & Hits & [= <-]).
  assert (its = tItems t k /\ t_itemsByFlow t1 = t_itemsByFlow t) as [-> Ht1].
  { unfold tItems. destruct (t_itemsByFlow t !! k); [by injection Hits as <- <-|]. unfold t_newItems in Hits. destruct (t_itemsPool t); [done|]. by injection Hits as <- <-. }
  assert (u8 iph = iph /\ u8 tcph = tcph /\ u16 i = i /\ u16 (len pl) = len pl) as (E1 & E2 & E3 & E4) by (split_and!; [apply u8_small; width_lia|apply u8_small; width_lia|apply u16_small; width_lia|apply u16_small; width_lia]).
  assert (tPayload item b = pl) as Epl by (unfold tPayload, item; cbn [ti_iphLen ti_tcphLen]; rewrite E1, E2; unfold pl, pktOf; rewrite drop_drop; f_equal; lia).
  assert (tDataOk bufs k item) as Hok.
  { split; [split|done|].
    - done.
    - cbn. by rewrite E1, Hv.
    - cbn. by rewrite E2.
    - cbn. rewrite E4. lia.
    - cbn. rewrite E1, E2, E3. exists b. split; [done|lia].
    - exists b. rewrite Epl. cbn [item ti_bufsIndex ti_iphLen ti_sentSeq ti_numMerged ti_gsoSize]. rewrite E1, E3, E4. split_and!; try done; lia. }
  assert (ti_bufsIndex item = i) as Hidx by exact E3.
  assert (tData bufs item = [(u32 seq, pl)]) as Hdata.
  { unfold tData. rewrite Hidx, Hat, Epl. cbn [item ti_iphLen ti_gsoSize]. rewrite E1, E4, Hsq. apply segs_one; lia. }
  destruct (TD_insert i bufs t t1 alone k item (u32 seq, pl) ltac:(lia) HD Ht1 Hok Hidx Hdata) as [HD' Hl']. split; [done|]. split.
  - intros j. rewrite !tIdx_items. unfold tIdxs. split.
    + intros (k' & Hj). rewrite tItems_put in Hj. destruct (decide (k = k')) as [<-|]; [|left; exists k'; unfold tItems in *; by rewrite Ht1 in Hj].
      rewrite fmap_app in Hj. apply elem_of_app in Hj as [Hj|Hj]; [left; by exists k|right]. apply list_elem_of_singleton in Hj. by rewrite Hj.
    + intros [(k' & Hj)| ->].
      * exists k'. rewrite tItems_put. destruct (decide (k = k')) as [<-|]; [rewrite fmap_app; apply elem_of_app; by left|unfold tItems in *; by rewrite Ht1].
      * exists k. rewrite tItems_put, decide_True by done. rewrite fmap_app. apply elem_of_app. right. apply list_elem_of_singleton. by rewrite Hidx.
  - intros k'. rewrite Hl'. unfold brings. cbn [mbind option_bind]. by rewrite Harr.
Qed.

Lemma tcpGRO_data i bufs t isV6 b alone r t' bufs' : Forall (bufOk offset) bufs -> TOk offset i bufs t -> TD i bufs t alone -> at_ bufs i = Some b -> at_ bufs0 i = Some b -> capOk b -> 0 <= i < 65536 ->
  headOk isV6 (pktOf offset b) -> iphOf isV6 + 20 <= len (pktOf offset b) -> tcpArrival b = tcpFlow (pktOf offset b) isV6 ->
  tcpGRO be bufs offset i t isV6 = Some (r, t', bufs') ->
  exists alone', TD (i + 1) bufs' t' alone' /\ (forall j, j ∈ alone' -> j = i \/ j ∈ alone \/ tIdx t j) /\
    (forall j, j ∈ alone' \/ tIdx t' j <-> (j ∈ alone \/ tIdx t j) \/ (j = i /\ r <> groResultCoalesced /\ is_Some (tcpArrival b))) /\
    (r <> groResultTableInsert -> ~ tIdx t' i) /\ forall k, ledger bufs' t' alone' k ≡ₚ brings (Some b) k ++ ledger bufs t alone k.
Proof.
  intros Hf Ht HD Hat Hb0 Hcb Hi Hhead Hlen Harr H.
  assert (forall alone0 bufs0' t0, TD i bufs0' t0 alone0 -> ~ tIdx t0 i) as Hni by (intros a0 b0 t0 H0 (k & Hk)%tIdx_items; apply (D_idx _ _ _ _ H0) in Hk; lia).
  assert (tcpArrival b = None -> exists alone', TD (i + 1) bufs t alone' /\ (forall j, j ∈ alone' -> j = i \/ j ∈ alone \/ tIdx t j) /\
    (forall j, j ∈ alone' \/ tIdx t j <-> (j ∈ alone \/ tIdx t j) \/ (j = i /\ groResultNoop <> groResultCoalesced /\ is_Some (tcpArrival b))) /\
    (groResultNoop <> groResultTableInsert -> ~ tIdx t i) /\ forall k, ledger bufs t alone' k ≡ₚ brings (Some b) k ++ ledger bufs t alone k) as Hnoop.
  { intros Hno. exists alone. split; [by apply TD_weaken|]. split; [auto|]. split; [intros j; rewrite Hno; split; [auto|]; intros [?|(_ & _ & [? [=]])]; done|]. split; [intros _; by eapply Hni|].
    intros k. unfold brings. cbn [mbind option_bind]. by rewrite Hno. }
  pose proof (bufOk_at _ _ _ _ Hf Hat) as Hbo. unfold bufOk in Hbo. pose proof (iphOf_range isV6) as Hr. unfold tcpFlow in Harr.
  unfold tcpGRO in H. cbv zeta in H. rewrite Hat in H. cbn [mbind option_bind] in H. rewrite (tailOf_pkt offset Hoff) in H by lia. cbn [mbind option_bind] in H.
  destruct (ipHeaderLen_total _ _ Hhead) as (h & Eh & Hh). rewrite Eh in H, Harr. cbn [mbind option_bind] in H, Harr.
  destruct h as [iph|]; [|injection H as <- <- <-; by apply Hnoop]. cbn [mbind option_bind] in Harr.
  destruct (Hh iph eq_refl) as [-> Hpl]. clear Hh. unfold tcpFlagsOffset in H, Harr. rewrite !at_nth in H by lia. rewrite !at_nth in Harr by lia. cbn [mbind option_bind] in H, Harr.
  set (tcph := u8 _) in H, Harr. destruct (Z.ltb_spec tcph 20) as [|H20]; [injection H as <- <- <-; by apply Hnoop|]. destruct (Z.ltb_spec 60 tcph) as [|H60]; [injection H as <- <- <-; by apply Hnoop|].
  cbn [orb] in H, Harr. destruct (Z.ltb_spec (len (pktOf offset b)) (iphOf isV6 + tcph)) as [|Hfit]; [injection H as <- <- <-; by apply Hnoop|].
  destruct (fragmented_total (pktOf offset b) isV6) as (fr & Efr); [apply Hhead|]. rewrite Efr in H, Harr. cbn [mbind option_bind] in H, Harr. destruct fr; [injection H as <- <- <-; by apply Hnoop|].
  destruct (negb _ && negb _); [injection H as <- <- <-; by apply Hnoop|].
  rewrite u16_small in H by width_lia. destruct (Z.ltb_spec (len (pktOf offset b) - tcph - iphOf isV6) 1) as [|Hg]; [injection H as <- <- <-; by apply Hnoop|].
  destruct (get32_total (pktOf offset b) (iphOf isV6 + 4)) as (sq & Esq); [lia|lia|]. rewrite Esq in H, Harr. cbn [mbind option_bind] in H, Harr.
  destruct (newTCPFlowKey_total (pktOf offset b) isV6) as (k & Hk & Hkv); [lia|]. cbv zeta in Hk. rewrite Hk in Harr. cbn [mbind option_bind] in Harr.
  unfold t_lookupOrInsert in H. rewrite Hk in H. cbn [mbind option_bind] in H. set (gso := len (pktOf offset b) - tcph - iphOf isV6) in *.
  assert (tcpSeg i bufs isV6 (iphOf isV6) tcph sq gso b) as Hseg by (split; [split; [done|done|lia|lia]|done|done|done]).
  assert (forall t0 alone0 t2, TD i bufs t0 alone0 -> t_insert t0 (pktOf offset b) _ _ (iphOf isV6) tcph i = Some t2 -> _) as Hins
    by (intros t0 a0 t2 H1 H2; exact (t_insert_data i bufs isV6 (iphOf isV6) tcph sq gso b k t0 a0 t2 Hi Hseg Hf ltac:(lia) Hb0 Harr Hkv H1 Hk H2)).
  destruct (t_itemsByFlow t !! k) as [items|] eqn:E.
  - cbn [mbind option_bind] in H. apply bind_Some in H as ([[r1 t1] bufs1] & Hitems & H).
    destruct (tcpItems_data i bufs isV6 (iphOf isV6) tcph sq gso b k items (negb (nth (Z.to_nat (iphOf isV6 + 13)) (pktOf offset b) 0 =? tcpFlagACK)) Hkv Hseg Hf) with (n := length items) (rest := @nil tcpGROItem) (t := t) (alone := alone) (r := r1) (t' := t1) (bufs' := bufs1)
      as (alone1 & HD1 & Hsame & Ha1 & Hiff1 & Hl1); [|  |lia|done|done|by rewrite take_ge, app_nil_r by lia|exact Hitems|].
    { pose proof (D_items _ _ _ _ HD k) as HB. by rewrite (tItems_lookup _ _ _ E) in HB. }
    { apply Forall_forall. intros it Hit. assert (0 <= ti_bufsIndex it < i) by (apply (T_idx _ _ _ _ Ht); by exists k, items, it). lia. }
    assert (forall k', brings (Some b) k' = if decide (k = k') then [(u32 sq, drop (Z.to_nat (iphOf isV6 + tcph)) (pktOf offset b))] else []) as Hbr by (intros k'; unfold brings; cbn [mbind option_bind]; by rewrite Harr).
    destruct r1 as [g|].
    + injection H as <- <- <-. destruct (decide (g = groResultCoalesced)) as [->|Hng].
      * exists alone1. split; [by apply TD_weaken|]. split; [intros j Hj; right; by apply Ha1|]. split; [intros j; rewrite <- Hiff1; naive_solver|]. split; [intros _; by eapply Hni|].
        intros k'. rewrite Hl1, Hbr. unfold gained. by destruct (decide (Some groResultCoalesced = Some groResultCoalesced)).
      * rewrite Hsame in * by congruence. exists (i :: alone1). split; [apply TD_alone; [lia|congruence|done]|]. split; [intros j [->|Hj]%elem_of_cons; [by left|right; by apply Ha1]|].
        split; [intros j; rewrite elem_of_cons, Hiff1, Harr; split; [intros [[->|]|]; eauto 10|intros [[|]|(-> & _)]; auto]|]. split; [intros _; by eapply Hni|].
        intros k'. unfold ledger, aloneData. rewrite fmap_cons, Hb0. cbn [concat]. specialize (Hl1 k'). unfold ledger, gained in Hl1. rewrite decide_False in Hl1 by congruence. cbn [app] in Hl1.
        rewrite Permutation_app_swap_app. by apply Permutation_app_head.
    + rewrite Hsame in * by done. apply bind_Some in H as (t2 & Ht2 & [= <- <- <-]). destruct (Hins t1 alone1 t2 HD1 Ht2) as (HD2 & Hidx2 & Hl2).
      exists alone1. split; [done|]. split; [intros j Hj; right; by apply Ha1|]. split; [intros j; rewrite Hidx2, Harr, Hiff1; naive_solver|]. split; [done|].
      intros k'. by rewrite Hl2, Hl1.
  - apply bind_Some in H as ([found t1] & Hfound & H). apply bind_Some in Hfound as (t2 & Ht2 & [= <- <-]). injection H as <- <- <-.
    destruct (Hins t alone t2 HD Ht2) as (HD2 & Hidx2 & Hl2). exists alone. split; [done|]. split; [auto|]. split; [intros j; rewrite Hidx2, Harr; naive_solver|]. split; [done|done].
Qed.
End Batch.
