(* ===== verification/GroTcpSpec.v ===== *)
(** * GroTcpSpec: the TCP segments of a batch

    The invariant of the loop of handleGRO for TCP, the accounting of the coalesced packets,
    and the theorem that the segments of every TCP flow survive. *)
From S2P Require Import Prelude Checksum Gso Gro GroInv GroSpec GroTcp.
#[local] Open Scope Z_scope.

Section Batch.
Context (be : bool) (offset : Z) (Hoff : virtioNetHdrLen <= offset) (canUDPGRO : bool) (bufs0 : list Buf) (Hcap : Forall (capOk offset) bufs0).

#[local] Abbreviation TD := (TD offset canUDPGRO bufs0).
#[local] Abbreviation ledger := (ledger offset canUDPGRO bufs0).
#[local] Abbreviation tcpArrival := (tcpArrival offset canUDPGRO).

(** The packets of the batch up to [i] are accounted for: in items, or alone and unchanged;
    what is written is exactly that. *)
Record TInv (i : nat) (g : groState) (alone : list Z) : Prop := {
  tv_td : TD (Z.of_nat i) (g_bufs g) (g_tcp g) alone;
  tv_udp : forall j k, j ∈ alone -> j ∉ uIdx (g_udp g) k;
  tv_write : forall j, j ∈ alone \/ tIdx (g_tcp g) j -> j ∈ g_toWrite g;
  tv_exact : forall j, j ∈ g_toWrite g -> is_Some (at_ bufs0 j ≫= tcpArrival) -> j ∈ alone \/ tIdx (g_tcp g) j;
  tv_ledger : forall k, ledger (g_bufs g) (g_tcp g) alone k ≡ₚ tcpArrivals offset canUDPGRO (take i bufs0) k
}.

Lemma tcpArrivals_S i b k : at_ bufs0 (Z.of_nat i) = Some b ->
  tcpArrivals offset canUDPGRO (take (S i) bufs0) k = tcpArrivals offset canUDPGRO (take i bufs0) k ++ brings offset canUDPGRO (Some b) k.
Proof.
  intros H. unfold at_ in H. rewrite decide_True, Nat2Z.id in H by lia. unfold tcpArrivals. rewrite (take_S_r _ _ b) by done.
  rewrite fmap_app, concat_app. cbn. by rewrite app_nil_r.
Qed.

(** The header written in front of packet [j], which no item has. *)
Lemma TD_touch i bufs t alone j b d bufs' : TD i bufs t alone -> at_ bufs j = Some b -> ~ tIdx t j -> drop (Z.to_nat offset) d = pktOf offset b ->
  set_at bufs j (with_dat b d) = Some bufs' -> TD i bufs' t alone /\ forall k, ledger bufs' t alone k = ledger bufs t alone k.
Proof.
  intros HD Hb Hn Hd Hs. destruct (set_at_total bufs j (with_dat b d)) as (l & Hs' & _ & Hat); [by eapply at_range|]. rewrite Hs in Hs'. injection Hs' as <-.
  apply TD_frame; [done| |].
  - intros k it Hit. assert (at_ bufs' (ti_bufsIndex it) = at_ bufs (ti_bufsIndex it)) as Heq.
    { rewrite Hat, decide_False; [done|]. intros ->. apply Hn, tIdx_items. exists k. by apply tIdxs_in. }
    split; [|by apply tData_frame]. eapply tDataOk_frame; [exact Heq|]. pose proof (D_items _ _ _ _ _ _ _ HD k) as HA. rewrite Forall_forall in HA. by apply HA.
  - intros j' _. rewrite Hat. destruct (decide (j = j')) as [<-|]; [|done]. rewrite Hb. cbn. f_equal. exact Hd.
Qed.

(** What the verdict on packet [i] leaves; [r] says whether it will be written. *)
Record verdictOk (i : nat) (g : groState) (alone : list Z) (b : Buf) (r : groResult) (t : tcpGROTable) (u : udpGROTable) (bufs : list Buf) (alone' : list Z) : Prop := {
  vo_td : TD (Z.of_nat (S i)) bufs t alone';
  vo_udp : forall j k, j ∈ alone' -> j ∉ uIdx u k;
  vo_idx : forall j, j ∈ alone' \/ tIdx t j <-> (j ∈ alone \/ tIdx (g_tcp g) j) \/ (j = Z.of_nat i /\ r <> groResultCoalesced /\ is_Some (tcpArrival b));
  vo_noop : r = groResultNoop -> ~ tIdx t (Z.of_nat i);
  vo_ledger : forall k, ledger bufs t alone' k ≡ₚ brings offset canUDPGRO (Some b) k ++ ledger (g_bufs g) (g_tcp g) alone k
}.

Lemma tcp_verdict i g alone b isV6 r t bufs : GInv offset canUDPGRO bufs0 i g -> TInv i g alone -> at_ (g_bufs g) (Z.of_nat i) = Some b -> at_ bufs0 (Z.of_nat i) = Some b -> (i < IdealBatchSize)%nat ->
  headOk isV6 (pktOf offset b) -> iphOf isV6 + 20 <= len (pktOf offset b) -> tcpArrival b = tcpFlow (pktOf offset b) isV6 ->
  tcpGRO be (g_bufs g) offset (Z.of_nat i) (g_tcp g) isV6 = Some (r, t, bufs) -> exists alone', verdictOk i g alone b r t (g_udp g) bufs alone'.
Proof.
  intros Hg [HD Hu Hw He Hl] Hb Hb0 Hi Hhead Hlen Harr Hrun. unfold IdealBatchSize in Hi. assert (capOk offset b) as Hcb.
  { unfold at_ in Hb0. destruct (decide _); [|done]. rewrite Forall_lookup in Hcap. by eapply Hcap. }
  destruct (tcpGRO_data be offset Hoff canUDPGRO bufs0 (Z.of_nat i) (g_bufs g) (g_tcp g) isV6 b alone r t bufs (gi_bufs _ _ _ _ _ Hg) (gi_tcp _ _ _ _ _ Hg) HD Hb Hb0 Hcb ltac:(lia) Hhead Hlen Harr Hrun)
    as (alone' & HD' & Ha' & Hiff & Hno & Hl'). exists alone'. split; try done.
  - by replace (Z.of_nat (S i)) with (Z.of_nat i + 1) by lia.
  - intros j k [->|[Hj|Hj]]%Ha'; [|by apply Hu|by apply (gi_disj _ _ _ _ _ Hg)]. intros Hj. apply (U_idx _ _ _ _ (gi_udp _ _ _ _ _ Hg)) in Hj. lia.
  - intros ->. by apply Hno.
Qed.

(** A packet that is not taken up by tcpGRO: the buffers of TCP items and of packets left
    alone are as they were. *)
Lemma other_verdict i g alone b r u bufs : GInv offset canUDPGRO bufs0 i g -> TInv i g alone -> tcpArrival b = None ->
  (forall j, (forall k, j ∉ uIdx (g_udp g) k) -> at_ bufs j = at_ (g_bufs g) j) -> (forall k j, j ∈ uIdx u k -> j = Z.of_nat i \/ j ∈ uIdx (g_udp g) k) ->
  verdictOk i g alone b r (g_tcp g) u bufs alone.
Proof.
  intros Hg [HD Hu Hw He Hl] Hno Hfr Hidx.
  assert (TD (Z.of_nat i) bufs (g_tcp g) alone /\ forall k, ledger bufs (g_tcp g) alone k = ledger (g_bufs g) (g_tcp g) alone k) as [HD' Hl'].
  { apply TD_frame; [done| |].
    - intros k it Hit. assert (at_ bufs (ti_bufsIndex it) = at_ (g_bufs g) (ti_bufsIndex it)) as Heq.
      { apply Hfr. intros k'. apply (gi_disj _ _ _ _ _ Hg). apply tIdx_items. exists k. by apply tIdxs_in. }
      split; [|by apply tData_frame]. eapply tDataOk_frame; [exact Heq|]. pose proof (D_items _ _ _ _ _ _ _ HD k) as HA. rewrite Forall_forall in HA. by apply HA.
    - intros j Hj. rewrite Hfr; [done|]. intros k. by apply Hu. }
  split.
  - replace (Z.of_nat (S i)) with (Z.of_nat i + 1) by lia. by apply TD_weaken.
  - intros j k Hj [->|Hk]%Hidx; [|by apply (Hu j k)]. destruct (D_alone _ _ _ _ _ _ _ HD) as [_ Ha]. destruct (Ha _ Hj). lia.
  - intros j. rewrite Hno. split; [by left|]. intros [|(_ & _ & [? [=]])]; done.
  - intros _ Ht. apply (T_idx _ _ _ _ (gi_tcp _ _ _ _ _ Hg)) in Ht. lia.
  - intros k. unfold brings. cbn [mbind option_bind]. rewrite Hno. by rewrite Hl'.
Qed.

Lemma groVerdict_tcp i g alone b r t u bufs : GInv offset canUDPGRO bufs0 i g -> TInv i g alone -> at_ (g_bufs g) (Z.of_nat i) = Some b -> at_ bufs0 (Z.of_nat i) = Some b -> (i < IdealBatchSize)%nat ->
  groVerdict be offset canUDPGRO (Z.of_nat i) g b = Some (r, t, u, bufs) -> exists alone', verdictOk i g alone b r t u bufs alone'.
Proof.
  intros Hg HT Hb Hb0 Hi Hv. pose proof (candidate_head (pktOf offset b) canUDPGRO) as Hhead. unfold groVerdict in Hv.
  assert (forall isV6, tcpArrival b = None -> headOk isV6 (pktOf offset b) -> ('(r, u, bufs) ← udpGRO be (g_bufs g) offset (Z.of_nat i) (g_udp g) isV6; Some (r, g_tcp g, u, bufs)) = Some (r, t, u, bufs) ->
    exists alone', verdictOk i g alone b r t u bufs alone') as Hudp.
  { intros isV6 Hno Hh H. destruct (gi_usize _ _ _ _ _ Hg) as [Hus1 Hus2]. unfold IdealBatchSize in Hi, Hus2.
    destruct (udpGRO_spec be offset Hoff (Z.of_nat i) (g_bufs g) (g_udp g) isV6 b (gi_bufs _ _ _ _ _ Hg) (gi_udp _ _ _ _ _ Hg) Hb) as (r1 & u1 & bufs1 & E & Hr); try done; [lia|lia|].
    rewrite E in H. cbn [mbind option_bind] in H. injection H as <- <- <- <-. exists alone. apply other_verdict; [done|done|done|apply Hr|apply Hr]. }
  unfold GroTcp.tcpArrival in Hudp. destruct (packetIsGROCandidate (pktOf offset b) canUDPGRO) eqn:Ec.
  - injection Hv as <- <- <- <-. exists alone. apply other_verdict; [done|done|unfold GroTcp.tcpArrival; by rewrite Ec|done|by right].
  - apply bind_Some in Hv as ([[r1 t1] b1] & E & [= <- <- <- <-]). eapply tcp_verdict; try done; [apply Hhead|unfold iphOf; lia|unfold GroTcp.tcpArrival; by rewrite Ec].
  - apply bind_Some in Hv as ([[r1 t1] b1] & E & [= <- <- <- <-]). eapply tcp_verdict; try done; [apply Hhead|unfold iphOf; lia|unfold GroTcp.tcpArrival; by rewrite Ec].
  - by eapply (Hudp false).
  - by eapply (Hudp true).
Qed.

Lemma verdict_inv i g alone b r t u bufs alone' bufs2 : TInv i g alone -> at_ bufs0 (Z.of_nat i) = Some b -> verdictOk i g alone b r t u bufs alone' ->
  TD (Z.of_nat (S i)) bufs2 t alone' -> (forall k, ledger bufs2 t alone' k = ledger bufs t alone' k) ->
  TInv (S i) {| g_bufs := bufs2; g_tcp := t; g_udp := u; g_toWrite := if decide (r = groResultCoalesced) then g_toWrite g else g_toWrite g ++ [Z.of_nat i] |} alone'.
Proof.
  intros [HD Hu Hw He Hl] Hb0 [V1 V2 V3 V4 V5] HD2 Hl2. split; cbn; try done.
  - intros j [Hj|(-> & Hr & _)]%V3; [apply Hw in Hj; destruct (decide _); [done|apply elem_of_app; by left]|]. rewrite decide_False by done. apply elem_of_app. right. by left.
  - intros j Hj Hs. apply V3. destruct (decide (r = groResultCoalesced)) as [|Hr]; [left; by apply He|]. apply elem_of_app in Hj as [Hj|Hj%list_elem_of_singleton]; [left; by apply He|right; subst j].
    rewrite Hb0 in Hs. done.
  - intros k. rewrite Hl2, V5, (tcpArrivals_S i b) by done. by rewrite Hl, Permutation_app_comm.
Qed.

Lemma groPacket_tcp i g alone g' : GInv offset canUDPGRO bufs0 i g -> TInv i g alone -> (i < IdealBatchSize)%nat -> groPacket be offset canUDPGRO (Z.of_nat i) g = Some (Ok g') ->
  exists alone', TInv (S i) g' alone'.
Proof.
  intros Hg HT Hi Hrun. unfold groPacket in Hrun. apply bind_Some in Hrun as (b & Hb & Hrun). assert (at_ bufs0 (Z.of_nat i) = Some b) as Hb0 by (rewrite <- (gi_todo _ _ _ _ _ Hg) by lia; done).
  pose proof (bufOk_at _ _ _ _ (gi_bufs _ _ _ _ _ Hg) Hb) as Hbo. unfold bufOk in Hbo.
  rewrite (proj2 (Z.ltb_ge offset _)), (proj2 (Z.ltb_ge _ offset)) in Hrun by lia. cbn [orb] in Hrun. rewrite (tailOf_pkt offset Hoff) in Hrun by lia. cbn [mbind option_bind] in Hrun.
  apply bind_Some in Hrun as ([[[r t] u] bufs] & Hv & Hrun). destruct (groVerdict_tcp i g alone b r t u bufs Hg HT Hb Hb0 Hi Hv) as (alone' & HV). exists alone'.
  pose proof (fun bufs2 => verdict_inv i g alone b r t u bufs alone' bufs2 HT Hb0 HV) as Hinv. destruct r.
  - apply bind_Some in Hrun as (b1 & Hb1 & Hrun). apply bind_Some in Hrun as (e & He & Hrun). destruct e as [d|]; [|done]. apply bind_Some in Hrun as (bufs2 & Hset & [= <-]).
    destruct (groVerdict_spec be offset Hoff canUDPGRO bufs0 i g b Hg Hb Hb0 Hi) as (r2 & t2 & u2 & bufs3 & Hv2 & HG). unfold groVerdict in Hv2. rewrite Hv in Hv2. injection Hv2 as <- <- <- <-.
    pose proof (bufOk_at _ _ _ _ (gi_bufs _ _ _ _ _ (HG [])) Hb1) as Hbo1. unfold bufOk in Hbo1.
    destruct (encodeAt_spec be offset Hoff zeroHdr (dat b1) ltac:(lia)) as (d' & He' & _ & Hd). rewrite He in He'. injection He' as <-.
    destruct (TD_touch _ bufs t alone' _ b1 d bufs2 (vo_td _ _ _ _ _ _ _ _ _ HV) Hb1 (vo_noop _ _ _ _ _ _ _ _ _ HV eq_refl) Hd Hset) as [HD2 Hl2]. by apply Hinv.
  - injection Hrun as <-. apply Hinv; [apply HV|done].
  - injection Hrun as <-. apply Hinv; [apply HV|done].
Qed.

Lemma groLoop_tcp n : (length bufs0 <= IdealBatchSize)%nat -> forall i g alone g', GInv offset canUDPGRO bufs0 i g -> TInv i g alone -> (i + n = length bufs0)%nat ->
  groLoop be offset canUDPGRO n (Z.of_nat i) g = Some (Ok g') -> exists alone', TInv (length bufs0) g' alone'.
Proof.
  intros Hl. induction n as [|n IH]; intros i g alone g' Hg HT Hi Hrun.
  - injection Hrun as <-. exists alone. by replace (length bufs0) with i by lia.
  - cbn [groLoop] in Hrun. destruct (groPacket_spec be offset Hoff canUDPGRO bufs0 i g Hg) as (g1 & E & Hg1); [lia|lia|]. rewrite E in Hrun. cbn [mbind option_bind] in Hrun.
    destruct (groPacket_tcp i g alone g1 Hg HT ltac:(lia) E) as (alone1 & HT1). replace (Z.of_nat i + 1) with (Z.of_nat (S i)) in Hrun by lia. by apply (IH (S i) g1 alone1 g' Hg1 HT1 ltac:(lia)).
Qed.

(** ** The accounting *)

(** A loop of the accounting changes the buffer of each item once, and no other. *)
Lemma applyAccounting_frame {A} (account : A -> Buf -> option (result Buf gsoError)) (index : A -> Z) items : forall bufs bufs' e,
  applyAccounting account index items bufs = Some (bufs', e) -> forall j, j ∉ index <$> items -> at_ bufs' j = at_ bufs j.
Proof.
  induction items as [|x items IH]; intros bufs bufs' e Hrun j Hj; cbn [applyAccounting] in Hrun; [by injection Hrun as <- _|].
  rewrite fmap_cons in Hj. apply not_elem_of_cons in Hj as [H1 H2]. apply bind_Some in Hrun as (b & Hb & Hrun). apply bind_Some in Hrun as (res & Ha & Hrun). destruct res as [b1|]; [|by injection Hrun as <- _].
  apply bind_Some in Hrun as (bufs1 & Hset & Hrun). rewrite (IH _ _ _ Hrun j H2).
  destruct (set_at_total bufs (index x) b1) as (l & Hs & _ & Hat); [by eapply at_range|]. rewrite Hset in Hs. injection Hs as <-. by rewrite Hat, decide_False by congruence.
Qed.
Lemma applyAccounting_runs {A} (account : A -> Buf -> option (result Buf gsoError)) (index : A -> Z) items : forall bufs bufs', NoDup (index <$> items) ->
  applyAccounting account index items bufs = Some (bufs', None) ->
  forall it, it ∈ items -> exists b b', at_ bufs (index it) = Some b /\ account it b = Some (Ok b') /\ at_ bufs' (index it) = Some b'.
Proof.
  induction items as [|x items IH]; intros bufs bufs' Hnd Hrun it Hit; cbn [applyAccounting] in Hrun; [by apply elem_of_nil in Hit|].
  rewrite fmap_cons in Hnd. apply NoDup_cons in Hnd as [Hni Hnd]. apply bind_Some in Hrun as (b & Hb & Hrun). apply bind_Some in Hrun as (res & Ha & Hrun). destruct res as [b1|]; [|done].
  apply bind_Some in Hrun as (bufs1 & Hset & Hrun). destruct (set_at_total bufs (index x) b1) as (l & Hs & _ & Hat); [by eapply at_range|]. rewrite Hset in Hs. injection Hs as <-.
  apply elem_of_cons in Hit as [->|Hit].
  - exists b, b1. split; [done|]. split; [done|]. rewrite (applyAccounting_frame _ _ _ _ _ _ Hrun) by done. rewrite Hat. by rewrite decide_True.
  - destruct (IH _ _ Hnd Hrun it Hit) as (c & c' & Hc & Hac & Hc'). exists c, c'. split; [|done]. rewrite <- Hc, Hat. rewrite decide_False; [done|]. intros E. apply Hni. rewrite E. by apply list_elem_of_fmap_2.
Qed.

Lemma get32_drop (l l' : list Z) a n : Z.of_nat n <= a -> len l = len l' -> drop n l = drop n l' -> get32 l a = get32 l' a.
Proof.
  intros Ha Hl Hd. unfold get32, slice. rewrite Hl. destruct (decide _); [|done]. f_equal. f_equal. f_equal. replace (Z.to_nat a) with (n + (Z.to_nat a - n))%nat by lia. by rewrite <- !drop_drop, Hd.
Qed.
Lemma put_take m (l : list Z) a v l' : put m l a v = Some l' -> len l' = len l /\ take (Z.to_nat a) l' = take (Z.to_nat a) l.
Proof.
  unfold put. destruct (decide _) as [[H1 H2]|]; [|done]. intros H. destruct (cut_field l (Z.to_nat a) m) as (p & q & w & -> & Hp & Hq & _); [unfold len in H2; lia|].
  assert (copy_at (p ++ q ++ w) a (be_bytes m v) = Some (p ++ be_bytes m v ++ w)) as E.
  { replace a with (len p) by (unfold len; lia). apply copy_at_mid. rewrite len_be_bytes. unfold len. lia. }
  rewrite E in H. injection H as <-. split; [unfold len; rewrite !length_app, length_be_bytes; lia|]. by rewrite !take_app_length' by lia.
Qed.

(** The accounting of an item keeps its sequence number and its payload. *)
Lemma accountTCP_data it b b' : ti_iphLen it = iphOf (tk_isV6 (ti_key it)) -> 20 <= ti_tcphLen it <= 60 -> offset + ti_iphLen it + ti_tcphLen it <= len (dat b) ->
  accountTCP be offset it b = Some (Ok b') -> get32 (pktOf offset b') (ti_iphLen it + 4) = get32 (pktOf offset b) (ti_iphLen it + 4) /\ tPayload offset it b' = tPayload offset it b.
Proof.
  intros Hi Ht Hl H. unfold accountTCP in H. pose proof (iphOf_range (tk_isV6 (ti_key it))). unfold tPayload. destruct (0 <? ti_numMerged it).
  - rewrite Hi in *. set (iph := iphOf (tk_isV6 (ti_key it))) in *. rewrite (tailOf_pkt offset Hoff) in H by lia. cbn [mbind option_bind] in H.
    destruct (account_headers be offset Hoff (tk_isV6 (ti_key it)) b (Z.to_nat iph)) as (pkt & Hset & L2 & D2 & He); [fold iph; lia|fold iph; lia|]. fold iph in Hset. rewrite Hset in H. cbn [mbind option_bind] in H.
    edestruct He as (d & Ed & Hs & L1). rewrite Ed in H. cbn [mbind option_bind] in H. rewrite Hs in H. cbn [mbind option_bind csumStart csumOffset] in H. rewrite u16_small in H by width_lia.
    apply bind_Some in H as (p2 & Hp2 & [= <-]). unfold setPartialCSum in Hp2. apply bind_Some in Hp2 as (src & _ & Hp2). apply bind_Some in Hp2 as (dst & _ & Hp2).
    pose proof (put_take _ _ _ _ _ Hp2) as [L3 T3]. unfold virtioNetHdrLen in Hoff.
    assert (length (take (Z.to_nat offset) d) = Z.to_nat offset) as Ht0 by (rewrite length_take; unfold len in *; lia).
    assert (pktOf offset (with_dat b (take (Z.to_nat offset) d ++ p2)) = p2) as Epk by (unfold pktOf; cbn [dat with_dat]; by rewrite drop_app_length').
    pose proof (pktOf_len offset Hoff b ltac:(lia)) as Hpl. split.
    + rewrite Epk. etransitivity; [apply (get32_take p2 pkt (iph + 4) (Z.to_nat (iph + 16))); [lia|lia|unfold len in *; lia|unfold len in *; lia|done]|].
      apply (get32_drop _ _ _ (Z.to_nat iph)); [lia|lia|done].
    + cbn [dat with_dat].
      replace (Z.to_nat (offset + iph + ti_tcphLen it)) with (Z.to_nat offset + Z.to_nat (iph + ti_tcphLen it))%nat by lia. rewrite drop_offset by done.
      destruct (put_total 2 pkt (iph + 16) (checksum be [] (pseudoHeaderChecksumNoFold be IPPROTO_TCP src dst (u16 (len pkt - iph))))) as (p3 & Hp3 & _ & D3); [lia|lia|].
      unfold put16 in Hp2. rewrite Hp2 in Hp3. injection Hp3 as <-. rewrite (drop_more p2 pkt (Z.to_nat (iph + 16) + 2) (Z.to_nat (iph + ti_tcphLen it))) by (done || lia).
      rewrite (drop_more pkt (pktOf offset b) (Z.to_nat iph) (Z.to_nat (iph + ti_tcphLen it))) by (done || lia). unfold pktOf. by rewrite drop_drop.
  - apply bind_Some in H as (res & He & H). destruct (encodeAt_spec be offset Hoff zeroHdr (dat b) ltac:(lia)) as (d & Ed & L & D). rewrite He in Ed. injection Ed as ->. injection H as <-. unfold virtioNetHdrLen in Hoff.
    split; [unfold pktOf; cbn [dat with_dat]; by rewrite D|]. cbn [dat with_dat]. apply (drop_more _ _ (Z.to_nat offset)); [lia|done].
Qed.

(** Items of different flows have different buffers, so a visit meets each buffer once. *)
Lemma concat_perm {A} (l l' : list (list A)) : l ≡ₚ l' -> concat l ≡ₚ concat l'.
Proof. intros H. induction H; cbn; [done|by f_equiv|rewrite !app_assoc; by rewrite (Permutation_app_comm y x)|by etransitivity]. Qed.
Lemma visit_nodup {K} `{Countable K} {A} (m : gmap K (list A)) (index : A -> Z) visit : visit ≡ₚ (map_to_list m).*2 ->
  (forall k its, m !! k = Some its -> NoDup (index <$> its)) ->
  (forall k k' its its' j, m !! k = Some its -> m !! k' = Some its' -> j ∈ index <$> its -> j ∈ index <$> its' -> k = k') -> NoDup (index <$> concat visit).
Proof.
  intros Hv H1 H2. rewrite (concat_perm _ _ Hv). clear Hv. pose proof (NoDup_fst_map_to_list m) as Hnd.
  assert (forall p, p ∈ map_to_list m -> m !! p.1 = Some p.2) as Hin by (intros [k its] Hp; by apply elem_of_map_to_list).
  induction (map_to_list m) as [|[k its] l IH]; [apply NoDup_nil_2|]. cbn in *. apply NoDup_cons in Hnd as [Hni Hnd]. rewrite fmap_app. apply NoDup_app. split_and!.
  - apply (H1 k). apply (Hin (k, its)). by left.
  - intros j Hj (it & -> & Hit)%list_elem_of_fmap_1. apply list_elem_of_In, in_concat in Hit as (its' & Ha%list_elem_of_In & Hb%list_elem_of_In). apply list_elem_of_fmap_1 in Ha as ([k' its2] & -> & Hp).
    apply Hni. rewrite (H2 k k' its its2 (index it) (Hin (k, its) ltac:(by left)) (Hin (k', its2) ltac:(by right)) Hj); [|by apply list_elem_of_fmap_2]. apply list_elem_of_fmap. by exists (k', its2).
  - apply IH; [done|]. intros p Hp. apply Hin. by right.
Qed.

(** The two loops of the accounting keep the segments of every item and the packets left
    alone. *)
Lemma tcp_accounting_data i g alone tcpVisit bufs1 : TInv i g alone -> tcpVisit (t_itemsByFlow (g_tcp g)) ≡ₚ (map_to_list (t_itemsByFlow (g_tcp g))).*2 ->
  applyAccounting (accountTCP be offset) ti_bufsIndex (concat (tcpVisit (t_itemsByFlow (g_tcp g)))) (g_bufs g) = Some (bufs1, None) ->
  (forall k it, it ∈ tItems (g_tcp g) k -> tData offset bufs1 it = tData offset (g_bufs g) it) /\
  forall j, ~ tIdx (g_tcp g) j -> at_ bufs1 j = at_ (g_bufs g) j.
Proof.
  intros [HD _ _ _ _] Hv Hrun.
  assert (NoDup (ti_bufsIndex <$> concat (tcpVisit (t_itemsByFlow (g_tcp g))))) as Hnd.
  { eapply visit_nodup; [done| |].
    - intros k its Hk. pose proof (D_nodup _ _ _ _ _ _ _ HD k) as Hk'. unfold tIdxs in Hk'. by rewrite (tItems_lookup _ _ _ Hk) in Hk'.
    - intros k k' its its' j Hk Hk' Hj Hj'. apply (D_flow _ _ _ _ _ _ _ HD k k' j); unfold tIdxs; by erewrite tItems_lookup by done. }
  pose proof (applyAccounting_frame _ _ _ _ _ _ Hrun) as Hfr. pose proof (applyAccounting_runs _ _ _ _ _ Hnd Hrun) as Hits. split.
  - intros k it Hit. assert (it ∈ concat (tcpVisit (t_itemsByFlow (g_tcp g)))) as Hin.
    { unfold tItems in Hit. destruct (t_itemsByFlow (g_tcp g) !! k) as [its|] eqn:Hk; [|by apply elem_of_nil in Hit]. rewrite (concat_perm _ _ Hv). apply list_elem_of_In, in_concat. exists its. split; apply list_elem_of_In; [|done].
      apply list_elem_of_fmap. exists (k, its). split; [done|]. by apply elem_of_map_to_list. }
    destruct (Hits it Hin) as (b & b' & Hb & Ha & Hb'). pose proof (D_items _ _ _ _ _ _ _ HD k) as HF. rewrite Forall_forall in HF. destruct (HF it Hit) as [[Hkey Hiph Htc Hg (b1 & Hb1 & Hlb)] _ _].
    rewrite Hb in Hb1. injection Hb1 as <-. destruct (accountTCP_data it b b') as [Hs Hp]; [by rewrite Hkey|done|done|done|]. unfold tData. by rewrite Hb, Hb', Hs, Hp.
  - intros j Hj. apply Hfr. intros (it & -> & Hit)%list_elem_of_fmap_1. apply Hj. destruct (visited _ _ it Hv Hit) as (k & its & Hk & Hin). by exists k, its, it.
Qed.

Lemma TInv_start t u : t_itemsByFlow t = ∅ -> TInv 0 {| g_bufs := bufs0; g_tcp := t; g_udp := u; g_toWrite := [] |} [].
Proof.
  intros Ht. assert (forall k, tItems t k = []) as Hit by (intros k; unfold tItems; by rewrite Ht, lookup_empty).
  assert (forall k, tIdxs t k = []) as Hix by (intros k; unfold tIdxs; by rewrite Hit).
  split; cbn; try done.
  - split; intros *; rewrite ?Hit, ?Hix; try (by intros ?%elem_of_nil); try (by intros _ ?%elem_of_nil); [apply Forall_nil_2|apply NoDup_nil_2|]. split; [apply NoDup_nil_2|by intros j ?%elem_of_nil].
  - by intros j k ?%elem_of_nil.
  - intros j [Hj|(k & its & it & Hk & _)]; [done|]. by rewrite Ht, lookup_empty in Hk.
  - by intros j ?%elem_of_nil.
  - intros k. unfold GroTcp.ledger, tFlowData. by rewrite Hit.
Qed.
End Batch.


(** ** A batch of two segments of one flow *)

Definition sampleSegment (seq : Z) (payload : list Z) : list Z :=
  default [] (gsoNoneChecksum false ([69; 0; 0; 43; 0; 0; 64; 0; 64; 6; 0; 0; 10; 0; 0; 1; 10; 0; 0; 2] ++
    [4; 210; 0; 80] ++ be_bytes 4 seq ++ [0; 0; 0; 7; 80; 16; 1; 0; 20; 32; 0; 0] ++ payload) 20 16).
(** The room in front of the packet holds what an earlier batch left there. *)
Definition sampleBuf (pkt : list Z) : Buf := {| dat := replicate 16 9 ++ pkt; bcap := 256 |}.
(** The second segment comes first. *)
Definition sampleSegments : list Buf := sampleBuf <$> [sampleSegment 1003 [4; 5; 6]; sampleSegment 1000 [1; 2; 3]].
Definition sampleTCPKey : tcpFlowKey := {| tk_srcAddr := addr16 [10; 0; 0; 1]; tk_dstAddr := addr16 [10; 0; 0; 2]; tk_srcPort := 1234; tk_dstPort := 80; tk_rxAck := 7; tk_isV6 := false |}.

(** They are put in order: one packet of 46 bytes is written, its virtio header says TCP
    segments of three bytes and its sequence number is the smaller one. *)
Example sample_tcp_gro :
  match handleGRO false 16 true (fun m => (map_to_list m).*2) (fun m => (map_to_list m).*2) sampleSegments newTCPGROTable newUDPGROTable with
  | Some (Ok g) => Some (g_toWrite g, (fun b => (take 10 (drop 6 (dat b)), get32 (dat b) 40, drop 56 (dat b))) <$> at_ (g_bufs g) 0)
  | _ => None
  end = Some ([0], Some ([1; 1; 40; 0; 3; 0; 20; 0; 16; 0], Some 1000, [1; 2; 3; 4; 5; 6])).
Proof. by vm_compute. Qed.

(** A packet that was an item is taken out of the table when its checksum turns out to be
    wrong. It is written, but it is neither accounted for nor given an empty virtio header:
    what the earlier batch left in front of it is written as its header. *)
Example invalid_item_keeps_stale_header :
  let bad := insert 36%nat 255 (sampleSegment 1000 [1; 2; 3]) in
  match handleGRO false 16 true (fun m => (map_to_list m).*2) (fun m => (map_to_list m).*2) (sampleBuf <$> [bad; sampleSegment 1003 [4; 5; 6]]) newTCPGROTable newUDPGROTable with
  | Some (Ok g) => Some (g_toWrite g, (fun b => take 10 (drop 6 (dat b))) <$> g_bufs g)
  | _ => None
  end = Some ([0; 1], [replicate 10 9; replicate 10 0]).
Proof. by vm_compute. Qed.

