(* ===== verification/Bind.v ===== *)
(** * Bind: the UDP bind (src/conn/bind_std.go, gso_linux.go, sticky_linux.go, errors_linux.go)

    The bind sends and receives batches of datagrams through a pool of messages. A
    message points into the caller's buffers, so memory is a list of arrays and a slice
    is a window of one: appending to a message writes behind the caller's packet. The
    control bytes of a message have their own array, whose old contents shine through
    where nothing is written. What the kernel answers (how many messages it took, which
    datagrams it received, which ports it gave) is an argument. [unix.ParseOneSocketControlMessage]
    is a parameter with its documented behaviour as a law; [bigEndian] is the byte order
    of the machine, and [linux] is [runtime.GOOS] being linux or android. [None] is a
    panic, or a system call that has not been answered. *)
From S2P Require Import Prelude GoLib NetIP DeviceState Checksum Gso Gro GroInv.
#[local] Open Scope Z_scope.

(** ** Memory *)

Notation heap := (list (list Z)).
(** A Go slice: array, first byte, length and capacity. *)
Record bslice : Type := Slice { s_arr : nat; s_off : Z; s_len : Z; s_cap : Z }.

Definition contents (h : heap) (s : bslice) : list Z :=
  take (Z.to_nat (s_len s)) (drop (Z.to_nat (s_off s)) (default [] (h !! s_arr s))).
(** Writes [src] into the array of [s], [at'] bytes behind its first. *)
Definition store (h : heap) (s : bslice) (at' : Z) (src : list Z) : heap :=
  alter (list_inserts (Z.to_nat (s_off s + at')) src) (s_arr s) h.
(** [append(s, src...)]: in place when the capacity allows it, in a new array otherwise. *)
Definition append (h : heap) (s : bslice) (src : list Z) : heap * bslice :=
  if s_len s + len src <=? s_cap s
  then (store h s (s_len s) src, Slice (s_arr s) (s_off s) (s_len s + len src) (s_cap s))
  else (h ++ [contents h s ++ src], Slice (length h) 0 (s_len s + len src) (s_len s + len src)).
(** [copy(d, src)] and the number of bytes copied. *)
Definition copyInto (h : heap) (d : bslice) (src : list Z) : heap * Z :=
  let n := Z.min (s_len d) (len src) in (store h d 0 (take (Z.to_nat n) src), n).
(** [s[a:b]] *)
Definition subslice (s : bslice) (a b : Z) : option bslice :=
  if decide (0 <= a <= b /\ b <= s_cap s) then Some (Slice (s_arr s) (s_off s + a) (b - a) (s_cap s - a)) else None.

(** A slice with an array of its own: the whole capacity and the length. *)
Record ctl : Type := { c_mem : list Z; c_len : Z }.
Definition c_cap (c : ctl) : Z := len (c_mem c).
Definition c_data (c : ctl) : list Z := take (Z.to_nat (c_len c)) (c_mem c).

(** ** Endpoints and messages *)

(** StdNetEndpoint with the capacity of its src; [toEndpoint] is the view of the device. *)
Record StdNetEndpoint : Type := { e_addr : Addr; e_port : Z; e_src : option ctl }.
Definition srcBytes (ep : StdNetEndpoint) : list Z := default [] (c_data <$> e_src ep).
Definition toEndpoint (ep : StdNetEndpoint) : Endpoint := mkEndpoint (e_addr ep) (e_port ep) (srcBytes ep).

Definition with_src (src : option ctl) (ep : StdNetEndpoint) : StdNetEndpoint :=
  {| e_addr := e_addr ep; e_port := e_port ep; e_src := src |}.
Definition ClearSrc (ep : StdNetEndpoint) : StdNetEndpoint :=
  match e_src ep with
  | Some c => with_src (Some {| c_mem := c_mem c; c_len := 0 |}) ep
  | None => ep
  end.
Definition DstIP (ep : StdNetEndpoint) : Addr := e_addr ep.
Definition DstToString (ep : StdNetEndpoint) : list Z := AddrPortString (e_addr ep) (e_port ep).

(** net.UDPAddr: the array behind IP and its length, port and zone. *)
Record UDPAddr : Type := { ua_IP : ctl; ua_Port : Z; ua_Zone : list Z }.
(** UDPAddr.AddrPort; IPv4 addresses have no zone. *)
Definition AddrPort (a : UDPAddr) : Addr * Z :=
  let ip := c_data (ua_IP a) in (mkAddr ip (if len ip =? 16 then ua_Zone a else []), u16 (ua_Port a)).

(** ipv6.Message; Buffers has one element. *)
Record Message : Type := {
  m_buf : bslice;
  m_OOB : ctl;
  m_Addr : option UDPAddr;
  m_N : Z;
  m_NN : Z
}.
Definition with_buf (b : bslice) (m : Message) : Message :=
  {| m_buf := b; m_OOB := m_OOB m; m_Addr := m_Addr m; m_N := m_N m; m_NN := m_NN m |}.
Definition with_OOB (c : ctl) (m : Message) : Message :=
  {| m_buf := m_buf m; m_OOB := c; m_Addr := m_Addr m; m_N := m_N m; m_NN := m_NN m |}.
Definition with_Addr (a : option UDPAddr) (m : Message) : Message :=
  {| m_buf := m_buf m; m_OOB := m_OOB m; m_Addr := a; m_N := m_N m; m_NN := m_NN m |}.
Definition with_N (n : Z) (m : Message) : Message :=
  {| m_buf := m_buf m; m_OOB := m_OOB m; m_Addr := m_Addr m; m_N := n; m_NN := m_NN m |}.
Definition with_NN (n : Z) (m : Message) : Message :=
  {| m_buf := m_buf m; m_OOB := m_OOB m; m_Addr := m_Addr m; m_N := m_N m; m_NN := n |}.

(** ** Control messages *)

(** The layout of the Linux kernel on 64-bit machines. *)
Definition SizeofCmsghdr : Z := 16.
Definition SizeofInet4Pktinfo : Z := 12.
Definition SizeofInet6Pktinfo : Z := 20.
Definition CmsgLen (n : Z) : Z := SizeofCmsghdr + n.
Definition CmsgSpace (n : Z) : Z := SizeofCmsghdr + (n + 7) / 8 * 8.
Definition IPPROTO_IP : Z := 0.
Definition IPPROTO_IPV6 : Z := 41.
Definition IP_PKTINFO : Z := 8.
Definition IPV6_PKTINFO : Z := 50.
Definition SOL_UDP : Z := 17.
Definition UDP_SEGMENT : Z := 103.
Definition UDP_GRO : Z := 104.
Definition EIO : Z := 5.
Definition EINVAL : Z := 22.
Definition EAFNOSUPPORT : Z := 97.
Definition EADDRINUSE : Z := 98.

Definition sizeOfGSOData : Z := 2.
Definition gsoControlSize : Z := CmsgSpace sizeOfGSOData.
Definition stickyControlSize : Z := CmsgSpace SizeofInet6Pktinfo.

Record Cmsghdr : Type := { h_Len : Z; h_Level : Z; h_Type : Z }.

Definition native (bigEndian : bool) (n : nat) (v : Z) : list Z := if bigEndian then be_bytes n v else le_bytes n v.
Lemma len_native be n v : len (native be n v) = Z.of_nat n.
Proof. unfold native. destruct be; [apply len_be_bytes|apply len_le_bytes]. Qed.
Lemma nativeUint_native be n v : 0 <= v < 256 ^ Z.of_nat n -> nativeUint be (native be n v) = v.
Proof. intros H. unfold nativeUint, native. destruct be; [by apply be_val_bytes|by apply le_val_bytes]. Qed.
Lemma length_native be n v : length (native be n v) = n.
Proof. pose proof (len_native be n v). unfold len in *. lia. Qed.
(** The memory of a Cmsghdr. *)
Definition hdrBuf (bigEndian : bool) (h : Cmsghdr) : list Z :=
  native bigEndian 8 (h_Len h) ++ native bigEndian 4 (h_Level h) ++ native bigEndian 4 (h_Type h).

(** [unix.ParseOneSocketControlMessage]: the first control message, its data and the rest. *)
Class ControlParser : Type :=
  ParseOneSocketControlMessage : list Z -> option (Cmsghdr * list Z * list Z).

Section Control.
Context (bigEndian : bool) {parser : ControlParser}.

(** The loop that getGSOSize and getSrcFromControl share: the data of the first control
    message that [wanted] takes, an error, or none. [fuel] bounds the messages. *)
Inductive found : Type := Found (hdr : Cmsghdr) (data : list Z) | NotFound | ParseError.
Fixpoint scanControl (wanted : Cmsghdr -> list Z -> bool) (fuel : nat) (rem : list Z) : found :=
  match fuel with
  | O => NotFound
  | S fuel' =>
      if len rem >? SizeofCmsghdr then
        match ParseOneSocketControlMessage rem with
        | None => ParseError
        | Some (hdr, data, rem) => if wanted hdr data then Found hdr data else scanControl wanted fuel' rem
        end
      else NotFound
  end.
Definition scan (wanted : Cmsghdr -> list Z -> bool) (control : list Z) : found := scanControl wanted (length control) control.

Definition isGSO (type : Z) (hdr : Cmsghdr) (data : list Z) : bool :=
  (h_Level hdr =? SOL_UDP) && (h_Type hdr =? type) && (len data >=? sizeOfGSOData).

(** The errors of system calls, as an os.SyscallError or without one. *)
Inductive netError : Type := SyscallError (errno : Z) | OtherError (code : Z).
Inductive bindError : Type :=
| ErrBindAlreadyOpen
| Errno (errno : Z)
| NetError (e : netError)
| ErrParseControl
| ErrSplitOverflow
| ErrUDPGSODisabled (retryErr : option bindError).

Definition getGSOSize (control : list Z) : result Z bindError :=
  match scan (isGSO UDP_GRO) control with
  | Found _ data => Ok (nativeUint bigEndian (take 2 data))
  | NotFound => Ok 0
  | ParseError => Err ErrParseControl
  end.

Definition gsoHdr : Cmsghdr := {| h_Len := CmsgLen sizeOfGSOData; h_Level := SOL_UDP; h_Type := UDP_SEGMENT |}.
Definition setGSOSize (control : ctl) (gsoSize : Z) : ctl :=
  let existingLen := c_len control in
  let avail := c_cap control - existingLen in
  let space := CmsgSpace sizeOfGSOData in
  if avail <? space then control
  else
    {| c_mem := list_inserts (Z.to_nat existingLen) (hdrBuf bigEndian gsoHdr ++ native bigEndian 2 gsoSize) (c_mem control);
       c_len := existingLen + space |}.

Definition setSrcControl (control : ctl) (ep : StdNetEndpoint) : ctl :=
  if c_cap control <? len (srcBytes ep) then control
  else {| c_mem := list_inserts 0 (srcBytes ep) (c_mem control); c_len := len (srcBytes ep) |}.

Definition isPktinfo (hdr : Cmsghdr) (data : list Z) : bool :=
  (h_Level hdr =? IPPROTO_IP) && (h_Type hdr =? IP_PKTINFO) || (h_Level hdr =? IPPROTO_IPV6) && (h_Type hdr =? IPV6_PKTINFO).

(** [ep.src] made [space] bytes long, in place when it has the capacity, then the header
    and the data copied over it. *)
Definition putSrc (space : Z) (hdr : Cmsghdr) (data : list Z) (src : option ctl) : ctl :=
  let mem := match src with
             | Some c => if c_cap c <? space then replicate (Z.to_nat space) 0 else c_mem c
             | None => replicate (Z.to_nat space) 0
             end in
  let visible := list_inserts (Z.to_nat (CmsgLen 0)) data (list_inserts 0 (hdrBuf bigEndian hdr) (take (Z.to_nat space) mem)) in
  {| c_mem := visible ++ drop (Z.to_nat space) mem; c_len := space |}.

Definition getSrcFromControl (control : list Z) (ep : StdNetEndpoint) : StdNetEndpoint :=
  let ep := ClearSrc ep in
  match scan isPktinfo control with
  | Found hdr data =>
      let size := if h_Level hdr =? IPPROTO_IP then SizeofInet4Pktinfo else SizeofInet6Pktinfo in
      with_src (Some (putSrc (CmsgSpace size) hdr data (e_src ep))) ep
  | _ => ep
  end.

(** Inet4Pktinfo is Ifindex, Spec_dst, Addr; Inet6Pktinfo is Addr, Ifindex. *)
Definition SrcIP (ep : StdNetEndpoint) : option Addr :=
  let info := drop (Z.to_nat (CmsgLen 0)) (srcBytes ep) in
  if len (srcBytes ep) =? CmsgSpace SizeofInet4Pktinfo then Some (mkAddr (take 4 (drop 4 info)) [])
  else if len (srcBytes ep) =? CmsgSpace SizeofInet6Pktinfo then Some (mkAddr (take 16 info) [])
  else None.
Definition i32 (x : Z) : Z := (x + 2 ^ 31) mod 2 ^ 32 - 2 ^ 31.
Definition SrcIfidx (ep : StdNetEndpoint) : Z :=
  let info := drop (Z.to_nat (CmsgLen 0)) (srcBytes ep) in
  if len (srcBytes ep) =? CmsgSpace SizeofInet4Pktinfo then i32 (nativeUint bigEndian (take 4 info))
  else if len (srcBytes ep) =? CmsgSpace SizeofInet6Pktinfo then i32 (nativeUint bigEndian (take 4 (drop 16 info)))
  else 0.

(** ** Coalescing *)

Definition maxIPv4PayloadLen : Z := 2 ^ 16 - 1 - 20 - 8.
Definition maxIPv6PayloadLen : Z := 2 ^ 16 - 1 - 8.
Definition udpSegmentMaxDatagrams : Z := 64.

(** The variables of the loop. *)
Record coalescing : Type := {
  co_heap : heap;
  co_msgs : list Message;
  co_base : Z;
  co_gsoSize : Z;
  co_dgramCnt : Z;
  co_endBatch : bool
}.

Definition modMsg (msgs : list Message) (i : Z) (f : Message -> Message) : option (list Message) :=
  m ← at_ msgs i; set_at msgs i (f m).
Definition setGSO (gsoSize : Z) (m : Message) : Message := with_OOB (setGSOSize (m_OOB m) (u16 gsoSize)) m.

(** A buffer that does not join msgs[base]. *)
Definition newBatch (addr : UDPAddr) (ep : StdNetEndpoint) (buf : bslice) (c : coalescing) : option coalescing :=
  msgs ← (if co_dgramCnt c >? 1 then modMsg (co_msgs c) (co_base c) (setGSO (co_gsoSize c)) else Some (co_msgs c));
  let base := co_base c + 1 in
  msgs ← modMsg msgs base (fun m => with_Addr (Some addr) (with_buf buf (with_OOB (setSrcControl (m_OOB m) ep) m)));
  Some {| co_heap := co_heap c; co_msgs := msgs; co_base := base; co_gsoSize := s_len buf; co_dgramCnt := 1; co_endBatch := false |}.

Definition maxPayloadLen (ep : StdNetEndpoint) : Z := if Is6 (DstIP ep) then maxIPv6PayloadLen else maxIPv4PayloadLen.

(** One round; [first] is [i == 0] and [last] is [i == len(bufs)-1]. *)
Definition coalesceRound (addr : UDPAddr) (ep : StdNetEndpoint) (first last : bool) (buf : bslice) (c : coalescing) : option coalescing :=
  if first then newBatch addr ep buf c
  else
    m ← at_ (co_msgs c) (co_base c);
    let msgLen := s_len buf in
    let baseLenBefore := s_len (m_buf m) in
    let freeBaseCap := s_cap (m_buf m) - baseLenBefore in
    if (msgLen + baseLenBefore <=? maxPayloadLen ep) && (msgLen <=? co_gsoSize c) && (msgLen <=? freeBaseCap)
       && (co_dgramCnt c <? udpSegmentMaxDatagrams) && negb (co_endBatch c) then
      let '(h, b) := append (co_heap c) (m_buf m) (contents (co_heap c) buf) in
      let m := with_buf b m in
      let m := if last then setGSO (co_gsoSize c) m else m in
      msgs ← set_at (co_msgs c) (co_base c) m;
      Some {| co_heap := h; co_msgs := msgs; co_base := co_base c; co_gsoSize := co_gsoSize c;
              co_dgramCnt := co_dgramCnt c + 1;
              co_endBatch := if msgLen <? co_gsoSize c then true else co_endBatch c |}
    else newBatch addr ep buf c.

Fixpoint coalesceLoop (addr : UDPAddr) (ep : StdNetEndpoint) (first : bool) (bufs : list bslice) (c : coalescing) : option coalescing :=
  match bufs with
  | [] => Some c
  | buf :: bufs' =>
      c ← coalesceRound addr ep first (match bufs' with [] => true | _ => false end) buf c;
      coalesceLoop addr ep false bufs' c
  end.

Definition coalesceMessages (addr : UDPAddr) (ep : StdNetEndpoint) (bufs : list bslice) (msgs : list Message) (h : heap) :
  option (Z * list Message * heap) :=
  c ← coalesceLoop addr ep true bufs
        {| co_heap := h; co_msgs := msgs; co_base := -1; co_gsoSize := 0; co_dgramCnt := 0; co_endBatch := false |};
  Some (co_base c + 1, co_msgs c, co_heap c).

(** ** Splitting *)

Record splitting : Type := { sp_heap : heap; sp_msgs : list Message; sp_n : Z }.

(** The loop over the datagrams of msgs[i]. *)
Fixpoint splitOne (i gsoSize : Z) (numToSplit : nat) (start end_ : Z) (s : splitting) : option (splitting * option bindError) :=
  match numToSplit with
  | O => Some (s, None)
  | S j =>
      if sp_n s >? i then Some (s, Some ErrSplitOverflow)
      else
        msg ← at_ (sp_msgs s) i;
        src ← subslice (m_buf msg) start end_;
        dst ← at_ (sp_msgs s) (sp_n s);
        let '(h, copied) := copyInto (sp_heap s) (m_buf dst) (contents (sp_heap s) src) in
        msgs ← set_at (sp_msgs s) (sp_n s) (with_Addr (m_Addr msg) (with_N copied dst));
        msg ← at_ msgs i;
        let start := end_ in
        let end_ := if end_ + gsoSize >? m_N msg then m_N msg else end_ + gsoSize in
        splitOne i gsoSize j start end_ {| sp_heap := h; sp_msgs := msgs; sp_n := sp_n s + 1 |}
  end.

(** The outer loop; [todo] messages from [i] on. *)
Fixpoint splitLoop (todo : nat) (i : Z) (s : splitting) : option (splitting * option bindError) :=
  match todo with
  | O => Some (s, None)
  | S todo' =>
      msg ← at_ (sp_msgs s) i;
      if m_N msg =? 0 then Some (s, None)
      else
        control ← slice (c_mem (m_OOB msg)) 0 (m_NN msg);
        match getGSOSize control with
        | Err e => Some (s, Some e)
        | Ok gsoSize =>
            let '(numToSplit, end_) :=
              if gsoSize >? 0 then ((m_N msg + gsoSize - 1) / gsoSize, gsoSize) else (1, m_N msg) in
            '(s, err) ← splitOne i gsoSize (Z.to_nat numToSplit) 0 end_ s;
            match err with
            | Some e => Some (s, Some e)
            | None =>
                msgs ← (if negb (i =? sp_n s - 1) then modMsg (sp_msgs s) i (with_N 0) else Some (sp_msgs s));
                splitLoop todo' (i + 1) {| sp_heap := sp_heap s; sp_msgs := msgs; sp_n := sp_n s |}
            end
        end
  end.

Definition splitCoalescedMessages (msgs : list Message) (firstMsgAt : Z) (h : heap) : option (splitting * option bindError) :=
  splitLoop (Z.to_nat (len msgs - firstMsgAt)) firstMsgAt {| sp_heap := h; sp_msgs := msgs; sp_n := 0 |}.
End Control.

(** ** The bind *)

(** A socket the kernel gave; [sk_port] is the port it is bound to. *)
Record socket : Type := { sk_id : nat; sk_port : Z }.

Record StdNetBind : Type := {
  ipv4 : option socket;
  ipv6 : option socket;
  ipv4PC : option socket;
  ipv6PC : option socket;
  ipv4TxOffload : bool;
  ipv4RxOffload : bool;
  ipv6TxOffload : bool;
  ipv6RxOffload : bool;
  udpAddrPool : list UDPAddr;
  msgsPool : list (list Message);
  blackhole4 : bool;
  blackhole6 : bool
}.

Definition newUDPAddr : UDPAddr := {| ua_IP := {| c_mem := replicate 16 0; c_len := 16 |}; ua_Port := 0; ua_Zone := [] |}.
Definition nilSlice : bslice := Slice 0 0 0 0.
Definition newMessage : Message :=
  {| m_buf := nilSlice; m_OOB := {| c_mem := replicate (Z.to_nat (stickyControlSize + gsoControlSize)) 0; c_len := 0 |};
     m_Addr := None; m_N := 0; m_NN := 0 |}.
Definition newMessages : list Message := replicate IdealBatchSize newMessage.

Definition NewStdNetBind : StdNetBind :=
  {| ipv4 := None; ipv6 := None; ipv4PC := None; ipv6PC := None; ipv4TxOffload := false; ipv4RxOffload := false;
     ipv6TxOffload := false; ipv6RxOffload := false; udpAddrPool := []; msgsPool := []; blackhole4 := false; blackhole6 := false |}.

(** sync.Pool: Get takes an element of the pool or makes a new one; [choice] says which. *)
Definition poolGet {A} (new : A) (choice : nat) (pool : list A) : A * list A :=
  match pool !! choice with
  | Some x => (x, take choice pool ++ drop (S choice) pool)
  | None => (new, pool)
  end.

Definition with_pools (addrs : list UDPAddr) (msgs : list (list Message)) (s : StdNetBind) : StdNetBind :=
  {| ipv4 := ipv4 s; ipv6 := ipv6 s; ipv4PC := ipv4PC s; ipv6PC := ipv6PC s; ipv4TxOffload := ipv4TxOffload s;
     ipv4RxOffload := ipv4RxOffload s; ipv6TxOffload := ipv6TxOffload s; ipv6RxOffload := ipv6RxOffload s;
     udpAddrPool := addrs; msgsPool := msgs; blackhole4 := blackhole4 s; blackhole6 := blackhole6 s |}.
Definition clearTxOffload (is6 : bool) (s : StdNetBind) : StdNetBind :=
  {| ipv4 := ipv4 s; ipv6 := ipv6 s; ipv4PC := ipv4PC s; ipv6PC := ipv6PC s;
     ipv4TxOffload := if is6 then ipv4TxOffload s else false;
     ipv4RxOffload := ipv4RxOffload s;
     ipv6TxOffload := if is6 then false else ipv6TxOffload s;
     ipv6RxOffload := ipv6RxOffload s;
     udpAddrPool := udpAddrPool s; msgsPool := msgsPool s; blackhole4 := blackhole4 s; blackhole6 := blackhole6 s |}.

Definition resetMessage (m : Message) : Message :=
  {| m_buf := m_buf m; m_OOB := {| c_mem := c_mem (m_OOB m); c_len := 0 |}; m_Addr := None; m_N := 0; m_NN := 0 |}.
Definition putMessages (msgs : list Message) (s : StdNetBind) : StdNetBind :=
  with_pools (udpAddrPool s) (map resetMessage msgs :: msgsPool s) s.
Definition getMessages (choice : nat) (s : StdNetBind) : list Message * StdNetBind :=
  let '(msgs, pool) := poolGet newMessages choice (msgsPool s) in (msgs, with_pools (udpAddrPool s) pool s).

Definition BatchSize (linux : bool) : Z := if linux then Z.of_nat IdealBatchSize else 1.

(** *** Open and Close *)

(** What the kernel answers to a ListenPacket: a socket or an error number. *)
Definition listenAnswer : Type := result socket Z.
(** [listenNet]: the socket and its port, or no socket, port 0 and the error. *)
Definition listenNet (a : listenAnswer) : option socket * Z * option Z :=
  match a with
  | Ok sk => (Some sk, sk_port sk, None)
  | Err e => (None, 0, Some e)
  end.

(** The kernel: [listen v6 port k] answers the [k]-th call. *)
Definition listener : Type := bool -> Z -> nat -> listenAnswer.

Record opened : Type := {
  o_v4 : option socket;
  o_v6 : option socket;
  o_port : Z;
  o_closed : list socket  (* the sockets closed on the way *)
}.

Definition isErr (e : Z) (err : option Z) : bool := match err with Some x => x =? e | None => false end.
Definition hard (err : option Z) : bool := match err with Some x => negb (x =? EAFNOSUPPORT) | None => false end.

(** The part of Open between [again] and the second error check; [left] is [100 - tries]
    and [k] counts the calls of the kernel. *)
Fixpoint openLoop (listen : listener) (uport : Z) (left k : nat) (closed : list socket) : result opened Z * list socket :=
  let '(v4conn, port, err) := listenNet (listen false uport k) in
  if hard err then (Err (default 0 err), closed)
  else
    let '(v6conn, port, err) := listenNet (listen true port (S k)) in
    let closed' := closed ++ option_list v4conn in
    let give_back := if hard err then (Err (default 0 err), closed')
                     else (Ok {| o_v4 := v4conn; o_v6 := v6conn; o_port := port; o_closed := closed |}, closed) in
    if (uport =? 0) && isErr EADDRINUSE err then
      match left with
      | S left' => openLoop listen uport left' (S (S k)) closed'
      | O => give_back
      end
    else give_back.

(** [supportsUDPOffload] of a socket, by its number. *)
Definition offloads : Type := nat -> bool * bool.

(** The receive functions are the sockets they read, with their rxOffload. *)
Definition Open (linux : bool) (listen : listener) (supports : offloads) (uport : Z) (s : StdNetBind) :
  StdNetBind * list socket * result (list (socket * bool) * Z) bindError :=
  if (if ipv4 s then true else false) || (if ipv6 s then true else false) then (s, [], Err ErrBindAlreadyOpen)
  else
    match openLoop listen uport 100 0 [] with
    | (Err e, closed) => (s, closed, Err (NetError (SyscallError e)))
    | (Ok o, closed) =>
        let off c := match c with Some sk => supports (sk_id sk) | None => (false, false) end in
        let pc c old := if linux then (match c with Some sk => Some sk | None => old end) else old in
        let s' := {| ipv4 := match o_v4 o with Some sk => Some sk | None => ipv4 s end;
                     ipv6 := match o_v6 o with Some sk => Some sk | None => ipv6 s end;
                     ipv4PC := pc (o_v4 o) (ipv4PC s);
                     ipv6PC := pc (o_v6 o) (ipv6PC s);
                     ipv4TxOffload := if o_v4 o then fst (off (o_v4 o)) else ipv4TxOffload s;
                     ipv4RxOffload := if o_v4 o then snd (off (o_v4 o)) else ipv4RxOffload s;
                     ipv6TxOffload := if o_v6 o then fst (off (o_v6 o)) else ipv6TxOffload s;
                     ipv6RxOffload := if o_v6 o then snd (off (o_v6 o)) else ipv6RxOffload s;
                     udpAddrPool := udpAddrPool s; msgsPool := msgsPool s;
                     blackhole4 := blackhole4 s; blackhole6 := blackhole6 s |} in
        let fns := map (fun sk => (sk, ipv4RxOffload s')) (option_list (o_v4 o))
                   ++ map (fun sk => (sk, ipv6RxOffload s')) (option_list (o_v6 o)) in
        if len fns =? 0 then (s', closed, Err (Errno EAFNOSUPPORT))
        else (s', closed, Ok (fns, u16 (o_port o)))
    end.

(** The answers of the kernel to closing the two sockets. *)
Definition Close (err4 err6 : option bindError) (s : StdNetBind) : StdNetBind * list socket * option bindError :=
  let err1 := if ipv4 s then err4 else None in
  let err2 := if ipv6 s then err6 else None in
  ({| ipv4 := None; ipv6 := None;
      ipv4PC := if ipv4 s then None else ipv4PC s;
      ipv6PC := if ipv6 s then None else ipv6PC s;
      ipv4TxOffload := false; ipv4RxOffload := false; ipv6TxOffload := false; ipv6RxOffload := false;
      udpAddrPool := udpAddrPool s; msgsPool := msgsPool s; blackhole4 := false; blackhole6 := false |},
   option_list (ipv4 s) ++ option_list (ipv6 s),
   match err1 with Some e => Some e | None => err2 end).

(** *** Sending *)

(** What goes to the kernel: destination, payload and control bytes of a message. *)
Record outgoing : Type := { g_to : Addr * Z; g_payload : list Z; g_control : list Z }.
Definition outgoingOf (h : heap) (m : Message) : option outgoing :=
  a ← m_Addr m;
  Some {| g_to := AddrPort a; g_payload := contents h (m_buf m); g_control := c_data (m_OOB m) |}.

(** WriteBatch answers how many messages it took or an error; the loop of send. *)
Definition writeAnswer : Type := Z * option netError.
Fixpoint writeAll (answers : list writeAnswer) (msgs : list Message) : option (option netError * list Message * list writeAnswer) :=
  match answers with
  | [] => None
  | (n, err) :: answers' =>
      match err with
      | Some e => Some (Some e, [], answers')
      | None =>
          if n =? len msgs then Some (None, msgs, answers')
          else
            taken ← slice msgs 0 n;
            rest ← slice msgs n (len msgs);
            '(err, more, answers) ← writeAll answers' rest;
            Some (err, taken ++ more, answers)
      end
  end.
(** The loop of WriteMsgUDP on other systems; its count is not looked at. *)
Fixpoint writeEach (answers : list writeAnswer) (msgs : list Message) {struct msgs} : option (option netError * list Message * list writeAnswer) :=
  match msgs with
  | [] => Some (None, [], answers)
  | msg :: msgs' =>
      match answers with
      | [] => None
      | (_, Some e) :: answers' => Some (Some e, [], answers')
      | (_, None) :: answers' =>
          '(err, more, answers) ← writeEach answers' msgs';
          Some (err, msg :: more, answers)
      end
  end.
(** The error, the messages the kernel took and the answers that are left. *)
Definition send (linux : bool) (answers : list writeAnswer) (msgs : list Message) :=
  if linux then writeAll answers msgs else writeEach answers msgs.

Definition errShouldDisableUDPGSO (err : netError) : bool :=
  match err with
  | SyscallError e => (e =? EIO) || (e =? EINVAL)
  | _ => false
  end.

(** The destination written into a pooled address: copy stops at the length the slice
    has, then the slice is cut or extended to the length of the address. *)
Definition fillAddr (ep : StdNetEndpoint) (ua : UDPAddr) : option UDPAddr :=
  let ip := ad_bytes (DstIP ep) in
  let n := if Is6 (DstIP ep) then 16 else 4 in
  if negb (len ip =? n) || (c_cap (ua_IP ua) <? n) then None
  else
    let mem := list_inserts 0 (take (Z.to_nat (Z.min (c_len (ua_IP ua)) n)) ip) (c_mem (ua_IP ua)) in
    Some {| ua_IP := {| c_mem := mem; c_len := n |}; ua_Port := e_port ep; ua_Zone := ua_Zone ua |}.

(** The messages of a send without offload, one for each buffer. *)
Fixpoint plainMessages (ua : UDPAddr) (ep : StdNetEndpoint) (bufs : list bslice) (msgs : list Message) : option (list Message) :=
  match bufs, msgs with
  | [], _ => Some msgs
  | buf :: bufs', m :: msgs' =>
      rest ← plainMessages ua ep bufs' msgs';
      Some (with_OOB (setSrcControl (m_OOB m) ep) (with_buf buf (with_Addr (Some ua) m)) :: rest)
  | _ :: _, [] => None
  end.

Record sent : Type := { sd_bind : StdNetBind; sd_heap : heap; sd_err : option bindError; sd_wire : list outgoing }.

Section Send.
Context (bigEndian linux : bool).

Definition plainSend (ua : UDPAddr) (ep : StdNetEndpoint) (bufs : list bslice) (msgs : list Message) (h : heap) (answers : list writeAnswer) :
  option (option netError * list outgoing * list Message) :=
  msgs ← plainMessages ua ep bufs msgs;
  out ← slice msgs 0 (len bufs);
  '(err, taken, _) ← send linux answers out;
  wire ← mapM (outgoingOf h) taken;
  Some (err, wire, msgs).

(** The part of Send between [retry] and its end when offload is on: an error that says the
    kernel does not do it leads to a second attempt without it. *)
Definition offloadSend (ua : UDPAddr) (ep : StdNetEndpoint) (bufs : list bslice) (msgs : list Message) (h : heap) (answers : list writeAnswer) :
  option (option bindError * list outgoing * list Message * heap * bool) :=
  '(n, msgs, h) ← coalesceMessages bigEndian ua ep bufs msgs h;
  out ← slice msgs 0 n;
  '(err, taken, answers) ← send linux answers out;
  wire ← mapM (outgoingOf h) taken;
  match err with
  | None => Some (None, wire, msgs, h, false)
  | Some e =>
      if errShouldDisableUDPGSO e then
        '(err, wire', msgs) ← plainSend ua ep bufs msgs h answers;
        Some (Some (ErrUDPGSODisabled (NetError <$> err)), wire ++ wire', msgs, h, true)
      else Some (Some (NetError e), wire, msgs, h, false)
  end.

(** [km] and [ka] choose from the pools, [answers] are those of the kernel. *)
Definition Send (bufs : list bslice) (ep : StdNetEndpoint) (km ka : nat) (answers : list writeAnswer) (h : heap) (s : StdNetBind) : option sent :=
  let is6 := Is6 (DstIP ep) in
  let blackhole := if is6 then blackhole6 s else blackhole4 s in
  let conn := if is6 then ipv6 s else ipv4 s in
  let offload := if is6 then ipv6TxOffload s else ipv4TxOffload s in
  if blackhole then Some {| sd_bind := s; sd_heap := h; sd_err := None; sd_wire := [] |}
  else
    match conn with
    | None => Some {| sd_bind := s; sd_heap := h; sd_err := Some (Errno EAFNOSUPPORT); sd_wire := [] |}
    | Some _ =>
        let '(msgs, s) := getMessages km s in
        let '(ua, addrs) := poolGet newUDPAddr ka (udpAddrPool s) in
        let s := with_pools addrs (msgsPool s) s in
        ua ← fillAddr ep ua;
        let finish s h msgs err wire :=
          Some {| sd_bind := putMessages msgs (with_pools (ua :: udpAddrPool s) (msgsPool s) s); sd_heap := h; sd_err := err; sd_wire := wire |} in
        if offload then
          '(err, wire, msgs, h, retried) ← offloadSend ua ep bufs msgs h answers;
          finish (if (retried : bool) then clearTxOffload is6 s else s) h msgs err wire
        else
          '(err, wire, msgs) ← plainSend ua ep bufs msgs h answers;
          finish s h msgs (NetError <$> err) wire
    end.
End Send.

(** *** Receiving *)

(** A datagram, or several that the kernel has coalesced, with its control bytes. *)
Record received : Type := { r_payload : list Z; r_control : list Z; r_from : UDPAddr }.

(** What the kernel does to the message it fills; what does not fit is cut off. *)
Definition deliver (h : heap) (m : Message) (d : received) : heap * Message :=
  let '(h, n) := copyInto h (m_buf m) (r_payload d) in
  let control := take (Z.to_nat (c_len (m_OOB m))) (r_control d) in
  (h, with_NN (len control) (with_N n (with_Addr (Some (r_from d))
        (with_OOB {| c_mem := list_inserts 0 control (c_mem (m_OOB m)); c_len := c_len (m_OOB m) |} m)))).
(** ReadBatch into msgs[at:]; the kernel fills no more messages than there are. *)
Fixpoint readBatch (h : heap) (ds : list received) (at' : Z) (msgs : list Message) : option (heap * list Message) :=
  match ds with
  | [] => Some (h, msgs)
  | d :: ds' =>
      m ← at_ msgs at';
      let '(h, m) := deliver h m d in
      msgs ← set_at msgs at' m;
      readBatch h ds' (at' + 1) msgs
  end.

(** The messages of the pool with the buffers of the caller. *)
Fixpoint pointMessages (bufs : list bslice) (msgs : list Message) : option (list Message) :=
  match bufs, msgs with
  | [], _ => Some msgs
  | buf :: bufs', m :: msgs' =>
      rest ← pointMessages bufs' msgs';
      Some (with_OOB {| c_mem := c_mem (m_OOB m); c_len := c_cap (m_OOB m) |} (with_buf buf m) :: rest)
  | _ :: _, [] => None
  end.

Section Receive.
Context (bigEndian linux : bool) {parser : ControlParser}.

(** The loop that hands sizes and endpoints to the caller; an empty message leaves the
    endpoint of its slot as it was. *)
Fixpoint report (msgs : list Message) (i : Z) (sizes : list Z) (eps : list (option StdNetEndpoint)) :
  option (list Z * list (option StdNetEndpoint)) :=
  match msgs with
  | [] => Some (sizes, eps)
  | msg :: msgs' =>
      sizes ← set_at sizes i (m_N msg);
      if m_N msg =? 0 then report msgs' (i + 1) sizes eps
      else
        a ← m_Addr msg;
        let '(addr, port) := AddrPort a in
        control ← slice (c_mem (m_OOB msg)) 0 (m_NN msg);
        let ep := getSrcFromControl bigEndian control {| e_addr := addr; e_port := port; e_src := None |} in
        eps ← set_at eps i (Some ep);
        report msgs' (i + 1) sizes eps
  end.

Record receivedBatch : Type := {
  rb_bind : StdNetBind; rb_heap : heap; rb_sizes : list Z; rb_eps : list (option StdNetEndpoint); rb_result : result Z bindError }.

Definition receiveIP (rxOffload : bool) (bufs : list bslice) (sizes : list Z) (eps : list (option StdNetEndpoint))
  (km : nat) (answer : result (list received) netError) (h : heap) (s : StdNetBind) : option receivedBatch :=
  let '(msgs, s) := getMessages km s in
  msgs ← pointMessages bufs msgs;
  let fail e h msgs := Some {| rb_bind := putMessages msgs s; rb_heap := h; rb_sizes := sizes; rb_eps := eps; rb_result := Err e |} in
  let finish numMsgs h msgs :=
    got ← slice msgs 0 numMsgs;
    '(sizes, eps) ← report got 0 sizes eps;
    Some {| rb_bind := putMessages msgs s; rb_heap := h; rb_sizes := sizes; rb_eps := eps; rb_result := Ok numMsgs |} in
  match answer with
  | Err e => fail (NetError e) h msgs
  | Ok ds =>
      if linux then
        if rxOffload then
          let readAt := len msgs - Z.of_nat IdealBatchSize / udpSegmentMaxDatagrams in
          '(h, msgs) ← readBatch h ds readAt msgs;
          '(sp, err) ← splitCoalescedMessages bigEndian msgs readAt h;
          match err with
          | Some e => fail e (sp_heap sp) (sp_msgs sp)
          | None => finish (sp_n sp) (sp_heap sp) (sp_msgs sp)
          end
        else
          '(h, msgs) ← readBatch h ds 0 msgs;
          finish (len ds) h msgs
      else
        match ds with
        | [d] =>
            m ← at_ msgs 0;
            let '(h, m) := deliver h m d in
            msgs ← set_at msgs 0 m;
            finish 1 h msgs
        | _ => None
        end
  end.
End Receive.

(** ** Socket options (features_linux.go, mark_unix.go, controlfns.go, controlfns_linux.go) *)

(** The answers of the kernel are booleans: did the call succeed. *)
Definition supportsUDPOffload (rawConn control getSegment setGRO : bool) : bool * bool :=
  if negb rawConn then (false, false)
  else if negb control then (false, false)
  else (getSegment, setGRO).

(** SetMark; [setsockopt sk mark] is the answer for a socket. The sockets that were marked
    and the error. *)
Definition SetMark (fwmarkIoctl : Z) (setsockopt : socket -> Z -> option netError) (mark : Z) (s : StdNetBind) : list socket * option netError :=
  if fwmarkIoctl =? 0 then ([], None)
  else
    let mark6 done :=
      match ipv6 s with
      | None => (done, None)
      | Some sk => match setsockopt sk mark with Some e => (done, Some e) | None => (done ++ [sk], None) end
      end in
    match ipv4 s with
    | None => mark6 []
    | Some sk => match setsockopt sk mark with Some e => ([], Some e) | None => mark6 [sk] end
    end.

(** kernelVersion: the loop over uname.Release; [vi] values are stored, [value] is being
    read. *)
Fixpoint versionLoop (release : list Z) (values : list Z) (value : Z) : list Z :=
  match release with
  | [] => values
  | c :: release' =>
      if (48 <=? c) && (c <=? 57) then versionLoop release' values (value * 10 + (c - 48))
      else
        let values := values ++ [value] in
        if len values >=? 2 then values else versionLoop release' values 0
  end.
Definition kernelVersion (release : option (list Z)) : Z * Z :=
  match release with
  | None => (0, 0)
  | Some release => let values := versionLoop release [] 0 in (nth 0 values 0, nth 1 values 0)
  end.

(** A call of SetsockoptInt: level, name and value, and whether its error is returned. *)
Record sockopt : Type := { so_level : Z; so_name : Z; so_value : Z; so_checked : bool }.
Inductive network : Type := udp4 | udp6 | otherNetwork.
Definition socketBufferSize : Z := 7 * 2 ^ 20.
Definition SOL_SOCKET : Z := 1.
Definition SO_SNDBUF : Z := 7.
Definition SO_RCVBUF : Z := 8.
Definition SO_SNDBUFFORCE : Z := 32.
Definition SO_RCVBUFFORCE : Z := 33.
Definition IPV6_V6ONLY : Z := 26.
Definition IPV6_RECVPKTINFO : Z := 49.
Definition quiet (level name value : Z) : sockopt := {| so_level := level; so_name := name; so_value := value; so_checked := false |}.
Definition checked (level name value : Z) : sockopt := {| so_level := level; so_name := name; so_value := value; so_checked := true |}.

(** The functions of controlfns_linux.go: the calls each makes for a network, [None] for a
    network it does not know. *)
Definition bufferFn : list sockopt :=
  [quiet SOL_SOCKET SO_RCVBUF socketBufferSize; quiet SOL_SOCKET SO_SNDBUF socketBufferSize;
   quiet SOL_SOCKET SO_RCVBUFFORCE socketBufferSize; quiet SOL_SOCKET SO_SNDBUFFORCE socketBufferSize].
Definition pktinfoFn (android : bool) (n : network) : option (list sockopt) :=
  match n with
  | udp4 => Some (if android then [] else [checked IPPROTO_IP IP_PKTINFO 1])
  | udp6 => Some ((if android then [] else [checked IPPROTO_IPV6 IPV6_RECVPKTINFO 1]) ++ [checked IPPROTO_IPV6 IPV6_V6ONLY 1])
  | otherNetwork => None
  end.
Definition groFn (version : Z * Z) : list sockopt :=
  let '(major, minor) := version in
  if (major <? 5) || ((major =? 5) && (minor <? 12)) then [] else [quiet SOL_UDP UDP_GRO 1].

(** One function: its calls in order up to the first checked one that fails. *)
Fixpoint runOptions (setsockopt : sockopt -> option Z) (opts : list sockopt) : list sockopt * option Z :=
  match opts with
  | [] => ([], None)
  | o :: opts' =>
      match setsockopt o with
      | Some e => if so_checked o then ([o], Some e) else let '(done, err) := runOptions setsockopt opts' in (o :: done, err)
      | None => let '(done, err) := runOptions setsockopt opts' in (o :: done, err)
      end
  end.
(** listenConfig on Linux: the functions one after the other, up to the first error. *)
Definition listenControl (android : bool) (release : option (list Z)) (setsockopt : sockopt -> option Z) (n : network) : list sockopt * option Z :=
  let '(a, _) := runOptions setsockopt bufferFn in
  match pktinfoFn android n with
  | None => (a, Some EINVAL)
  | Some opts =>
      match runOptions setsockopt opts with
      | (b, Some e) => (a ++ b, Some e)
      | (b, None) => let '(c, _) := runOptions setsockopt (groFn (kernelVersion release)) in (a ++ b ++ c, None)
      end
  end.
