(* ===== verification/RouteListener.v ===== *)
(** * RouteListener: clearing sticky sources when routes change (src/device/sticky_linux.go)

    The routine reads messages of the kernel's routing table. A change of a route makes it
    ask, in a goroutine of its own, for the route of every peer that has a source address;
    the answers carry the number of the request. When the interface of an answer is not
    the one of the cached source, the source is dropped before the next send. [bigEndian]
    is the byte order of the machine; the order in which the map of peers is visited, and
    the answers of the socket, are arguments. *)
From S2P Require Import Prelude GoLib NetIP DeviceState Checksum Gso Bind.
#[local] Open Scope Z_scope.

(** The constants of the Linux kernel. *)
Definition SizeofNlMsghdr : Z := 16.
Definition SizeofRtMsg : Z := 12.
Definition SizeofRtAttr : Z := 4.
Definition RTM_NEWROUTE : Z := 24.
Definition RTM_DELROUTE : Z := 25.
Definition RTM_GETROUTE : Z := 26.
Definition NLM_F_REQUEST : Z := 1.
Definition AF_INET : Z := 2.
Definition RTA_DST : Z := 1.
Definition RTA_SRC : Z := 2.
Definition RTA_OIF : Z := 4.
Definition RTA_MARK : Z := 16.

(** peerEndpointPtr: a peer and the address of its field endpoint.val, which is named by
    the peer it belongs to. *)
Record peerEndpointPtr : Type := { pe_peer : nat; pe_endpoint : nat }.

(** The endpoints of the peers and the variable reqPeer. *)
Record routes : Type := { rl_endpoints : gmap nat PeerEndpoint; rl_reqPeer : option (gmap Z peerEndpointPtr) }.
Definition with_endpoints (e : gmap nat PeerEndpoint) (r : routes) : routes := {| rl_endpoints := e; rl_reqPeer := rl_reqPeer r |}.
Definition with_reqPeer (m : option (gmap Z peerEndpointPtr)) (r : routes) : routes := {| rl_endpoints := rl_endpoints r; rl_reqPeer := m |}.

(** The endpoint as the bind sees it. *)
Definition nativeEP (e : Endpoint) : StdNetEndpoint :=
  {| e_addr := ep_addr e; e_port := ep_port e; e_src := Some {| c_mem := ep_src e; c_len := len (ep_src e) |} |}.

(** What a step of the routine comes to. *)
Inductive outcome (A : Type) : Type := Done (a : A) | Panic | OutOfFuel.
Arguments Done {A} a.
Arguments Panic {A}.
Arguments OutOfFuel {A}.

Section Listener.
Context (bigEndian : bool).

Record NlMsghdr : Type := { nl_Len : Z; nl_Type : Z; nl_Flags : Z; nl_Seq : Z; nl_Pid : Z }.
Definition field (b : list Z) (off n : nat) : Z := nativeUint bigEndian (take n (drop off b)).
Definition readNlMsghdr (b : list Z) : NlMsghdr :=
  {| nl_Len := field b 0 4; nl_Type := field b 4 2; nl_Flags := field b 6 2; nl_Seq := field b 8 4; nl_Pid := field b 12 4 |}.
Definition nlBytes (h : NlMsghdr) : list Z :=
  native bigEndian 4 (nl_Len h) ++ native bigEndian 2 (nl_Type h) ++ native bigEndian 2 (nl_Flags h) ++ native bigEndian 4 (nl_Seq h) ++ native bigEndian 4 (nl_Pid h).
Definition rtAttr (l type : Z) : list Z := native bigEndian 2 l ++ native bigEndian 2 type.

(** An interface in the answer to request [seq]: the new state and whether the walk over the
    attributes ends here. [None] is a panic. *)
Definition checkInterface (seq ifidx : Z) (r : routes) : option (routes * bool) :=
  match rl_reqPeer r with
  | None => Some (r, true)
  | Some reqPeer =>
      match reqPeer !! seq with
      | None => Some (r, true)
      | Some pePtr =>
          ep ← rl_endpoints r !! pe_peer pePtr;
          if negb (pe_peer pePtr =? pe_endpoint pePtr)%nat then Some (r, true)
          else
            val ← ep_val ep;
            if u32 (SrcIfidx bigEndian (nativeEP val)) =? ifidx then Some (r, true)
            else Some (with_endpoints (<[pe_peer pePtr := mkPeerEndpoint (ep_val ep) true (disableRoaming ep)]> (rl_endpoints r)) r, false)
      end
  end.

(** The loop over the attributes; each takes at least four bytes. *)
Fixpoint attrLoop (fuel : nat) (seq : Z) (attr : list Z) (r : routes) : option routes :=
  match fuel with
  | O => Some r
  | S fuel' =>
      if len attr <? SizeofRtAttr then Some r
      else
        let attrLen := field attr 0 2 in
        let attrType := field attr 2 2 in
        if (attrLen <? SizeofRtAttr) || (len attr <? attrLen) then Some r
        else
          next ← (if (attrType =? RTA_OIF) && (attrLen =? SizeofRtAttr + 4) then
                    ifidx ← slice attr SizeofRtAttr (SizeofRtAttr + 4);
                    checkInterface seq (nativeUint bigEndian ifidx) r
                  else Some (r, false));
          let '(r, stop) := next in
          if (stop : bool) then Some r
          else attr ← slice attr attrLen (len attr); attrLoop fuel' seq attr r
  end.

(** The switch on one message; [true] says that a round of requests is started. *)
Definition handleMessage (hdr : NlMsghdr) (remain : list Z) (r : routes) : option (routes * bool) :=
  if (nl_Type hdr =? RTM_NEWROUTE) || (nl_Type hdr =? RTM_DELROUTE) then
    if (nl_Seq hdr <=? MaxPeers) && (nl_Seq hdr >? 0) then
      if nl_Len hdr >? SizeofNlMsghdr + SizeofRtMsg then
        attr ← slice remain (SizeofNlMsghdr + SizeofRtMsg) (len remain);
        r ← attrLoop (length attr) (nl_Seq hdr) attr r;
        Some (r, false)
      else Some (r, false)
    else Some (with_reqPeer (Some ∅) r, true)
  else Some (r, false).

(** The loop over what one read returned; the number of rounds of requests it started. *)
Fixpoint messageLoop (fuel : nat) (remain : list Z) (rounds : nat) (r : routes) : outcome (routes * nat) :=
  match fuel with
  | O => OutOfFuel
  | S fuel' =>
      if len remain <? SizeofNlMsghdr then Done (r, rounds)
      else
        let hdr := readNlMsghdr remain in
        if nl_Len hdr >? len remain then Done (r, rounds)
        else
          match handleMessage hdr remain r with
          | None => Panic
          | Some (r, started) =>
              match slice remain (nl_Len hdr) (len remain) with
              | None => Panic
              | Some remain => messageLoop fuel' remain (if (started : bool) then S rounds else rounds) r
              end
          end
  end.

(** [Addr.As4], which panics for other addresses. *)
Definition As4 (a : Addr) : option (list Z) :=
  if Is4 a then Some (ad_bytes a)
  else if Is4In6 a then Some (drop 12 (ad_bytes a))
  else None.

(** The request for the route of a peer: 52 bytes. *)
Definition routeRequest (seq fwmark : Z) (dst src : list Z) : list Z :=
  nlBytes {| nl_Len := 52; nl_Type := RTM_GETROUTE; nl_Flags := NLM_F_REQUEST; nl_Seq := seq; nl_Pid := 0 |}
  ++ [AF_INET; 32; 32; 0; 0; 0; 0; 0] ++ native bigEndian 4 0
  ++ rtAttr 8 RTA_DST ++ dst ++ rtAttr 8 RTA_SRC ++ src ++ rtAttr 8 RTA_MARK ++ native bigEndian 4 fwmark.

(** One round of the loop of the goroutine, for a peer and the next number: leave the loop,
    go on with the same number, or send a request. *)
Inductive requestStep : Type := Leave | Skip | Ask (msg : list Z) (r : routes).
Definition requestPeer (fwmark i : Z) (peer : nat) (r : routes) : option requestStep :=
  ep ← rl_endpoints r !! peer;
  match ep_val ep with
  | None => Some Skip
  | Some e =>
      if Is6 (DstIP (nativeEP e)) || (SrcIfidx bigEndian (nativeEP e) =? 0) then Some Leave
      else
        dst ← As4 (DstIP (nativeEP e));
        src ← (SrcIP (nativeEP e) ≫= As4);
        reqPeer ← rl_reqPeer r;
        Some (Ask (routeRequest i fwmark dst src) (with_reqPeer (Some (<[i := {| pe_peer := peer; pe_endpoint := peer |}]> reqPeer)) r))
  end.

(** The goroutine: the peers in the order of the map, [answers] telling whether each write
    succeeds. The requests written and the state. *)
Fixpoint requestLoop (fwmark i : Z) (peers : list nat) (answers : list bool) (r : routes) : option (list (list Z) * routes) :=
  match peers with
  | [] => Some ([], r)
  | peer :: peers' =>
      step ← requestPeer fwmark i peer r;
      match step with
      | Leave => Some ([], r)
      | Skip => requestLoop fwmark i peers' answers r
      | Ask msg r =>
          match answers with
          | true :: answers' => '(msgs, r) ← requestLoop fwmark (u32 (i + 1)) peers' answers' r; Some (msg :: msgs, r)
          | _ => Some ([], r)
          end
      end
  end.
End Listener.

(** ** The routine never panics *)

(** Every peer that was asked about has an endpoint; endpoints are never removed. *)
Definition asked_ok (r : routes) : Prop :=
  forall reqPeer seq pe, rl_reqPeer r = Some reqPeer -> reqPeer !! seq = Some pe ->
    exists ep e, rl_endpoints r !! pe_peer pe = Some ep /\ ep_val ep = Some e.

Section Safety.
Context (be : bool).

Lemma checkInterface_safe seq ifidx r : asked_ok r -> exists r' stop, checkInterface be seq ifidx r = Some (r', stop) /\ asked_ok r'.
Proof.
  intros Hok. unfold checkInterface. destruct (rl_reqPeer r) as [reqPeer|] eqn:Er; [|by exists r, true].
  destruct (reqPeer !! seq) as [pe|] eqn:Es; [|by exists r, true]. destruct (Hok _ _ _ Er Es) as (ep & e & Hep & Hval). rewrite Hep. cbn [mbind option_bind].
  destruct (negb _); [by exists r, true|]. rewrite Hval. cbn [mbind option_bind]. destruct (_ =? ifidx); [by exists r, true|].
  eexists _, false. split; [done|]. intros m s p Hm Hs. destruct (Hok m s p Hm Hs) as (ep' & e' & Hep' & Hval'). simpl.
  destruct (decide (pe_peer p = pe_peer pe)) as [->|]; [rewrite lookup_insert_eq|rewrite lookup_insert_ne by done]; eauto.
Qed.

Lemma attrLoop_safe fuel : forall seq attr r, asked_ok r -> exists r', attrLoop be fuel seq attr r = Some r' /\ asked_ok r'.
Proof.
  induction fuel as [|fuel IH]; intros seq attr r Hok; cbn [attrLoop]; [eauto|]. destruct (Z.ltb_spec (len attr) SizeofRtAttr) as [|H4]; [eauto|].
  set (l := field be attr 0 2). destruct (Z.ltb_spec l SizeofRtAttr) as [|Hl]; [simpl; eauto|]. destruct (Z.ltb_spec (len attr) l) as [|Hll]; [simpl; eauto|]. simpl orb. cbv iota.
  assert (exists r1 stop, (if (field be attr 2 2 =? RTA_OIF) && (l =? SizeofRtAttr + 4) then ifidx ← slice attr SizeofRtAttr (SizeofRtAttr + 4); checkInterface be seq (nativeUint be ifidx) r else Some (r, false)) = Some (r1, stop) /\ asked_ok r1) as (r1 & stop & -> & Hok1).
  { destruct (_ && _) eqn:E; [|by exists r, false]. apply andb_true_iff in E as (_ & E%Z.eqb_eq). unfold SizeofRtAttr in *. rewrite slice_Some by lia. cbn [mbind option_bind]. by apply checkInterface_safe. }
  cbn [mbind option_bind]. destruct stop; [eauto|]. rewrite slice_suffix by (unfold SizeofRtAttr in *; lia). cbn [mbind option_bind]. by apply IH.
Qed.

Lemma handleMessage_safe hdr remain r : asked_ok r -> 0 <= nl_Len hdr <= len remain -> exists r' b, handleMessage be hdr remain r = Some (r', b) /\ asked_ok r'.
Proof.
  intros Hok Hl. unfold handleMessage. destruct (_ || _); [|by exists r, false]. destruct (_ && _).
  - destruct (Z.gtb_spec (nl_Len hdr) (SizeofNlMsghdr + SizeofRtMsg)) as [H|]; [|by exists r, false]. rewrite slice_suffix by (unfold SizeofNlMsghdr, SizeofRtMsg in *; lia). cbn [mbind option_bind].
    destruct (attrLoop_safe (length (drop (Z.to_nat (SizeofNlMsghdr + SizeofRtMsg)) remain)) (nl_Seq hdr) (drop (Z.to_nat (SizeofNlMsghdr + SizeofRtMsg)) remain) r Hok) as (r' & -> & Hok'). cbn [mbind option_bind]. by exists r', false.
  - eexists _, true. split; [done|]. intros m s p [= <-]. by rewrite lookup_empty.
Qed.

(** A header with length 0: the loop makes no progress, whatever the fuel. *)
Lemma zero_length_hangs fuel remain rounds r : SizeofNlMsghdr <= len remain -> nl_Len (readNlMsghdr be remain) = 0 -> asked_ok r ->
  messageLoop be fuel remain rounds r = OutOfFuel.
Proof.
  intros H16 H0. revert rounds r. induction fuel as [|fuel IH]; intros rounds r Hok; [done|]. cbn [messageLoop]. rewrite (proj2 (Z.ltb_ge _ _)) by done.
  rewrite H0. rewrite Z.gtb_ltb, (proj2 (Z.ltb_ge _ _)) by apply len_nonneg.
  destruct (handleMessage_safe (readNlMsghdr be remain) remain r Hok) as (r' & b & -> & Hok'); [rewrite H0; split; [done|apply len_nonneg]|].
  rewrite slice_all. by apply IH.
Qed.
End Safety.

(** Whatever the kernel sends, the loop does not panic; it ends when every message it looks
    at says that it has at least one byte. *)
Definition messages_nonempty (be : bool) (remain : list Z) : Prop :=
  forall k, SizeofNlMsghdr <= len (drop k remain) -> 0 < nl_Len (readNlMsghdr be (drop k remain)).
Lemma field_nonneg be b off n : Forall is_u8 b -> 0 <= field be b off n.
Proof.
  intros Hb. unfold field, nativeUint. assert (Forall is_u8 (take n (drop off b))) as H by (by apply Forall_take, Forall_drop).
  destruct be; [apply (le_val_bound (reverse _)); by apply Forall_reverse|by apply le_val_bound].
Qed.
Lemma messageLoop_safe be fuel : forall remain rounds r, Forall is_u8 remain -> asked_ok r ->
  match messageLoop be fuel remain rounds r with
  | Done (r', _) => asked_ok r'
  | Panic => False
  | OutOfFuel => messages_nonempty be remain -> (fuel <= length remain)%nat
  end.
Proof.
  induction fuel as [|fuel IH]; intros remain rounds r Hb Hok; cbn [messageLoop]; [lia|].
  destruct (Z.ltb_spec (len remain) SizeofNlMsghdr) as [|H16]; [done|]. rewrite Z.gtb_ltb. destruct (Z.ltb_spec (len remain) (nl_Len (readNlMsghdr be remain))) as [|Hl]; [done|].
  assert (0 <= nl_Len (readNlMsghdr be remain)) as H0 by (by apply field_nonneg).
  destruct (handleMessage_safe be (readNlMsghdr be remain) remain r Hok) as (r' & b & -> & Hok'); [lia|]. rewrite slice_suffix by lia.
  specialize (IH (drop (Z.to_nat (nl_Len (readNlMsghdr be remain))) remain) (if b then S rounds else rounds) r' (Forall_drop _ _ _ Hb) Hok').
  destruct (messageLoop _ _ _ _ _) as [[r'' n]| |]; [done|done|]. intros Hne.
  assert (0 < nl_Len (readNlMsghdr be remain)) as Hpos by (apply (Hne 0%nat); done).
  rewrite length_drop in IH. unfold len in *. enough (fuel <= length remain - Z.to_nat (nl_Len (readNlMsghdr be remain)))%nat by lia.
  apply IH. intros k. rewrite drop_drop. apply Hne.
Qed.

(** ** Answers *)

(** An attribute: type and data. *)
Definition attrBytes (be : bool) (a : Z * list Z) : list Z := rtAttr be (4 + len a.2) a.1 ++ a.2.
Definition attr_ok (a : Z * list Z) : Prop := is_u16 a.1 /\ 4 + len a.2 < 2 ^ 16.
Definition otherAttr (a : Z * list Z) : Prop := a.1 <> RTA_OIF \/ len a.2 <> 4.

Lemma field_at be (p m q : list Z) off n v : length p = off -> m = native be n v -> 0 <= v < 256 ^ Z.of_nat n -> field be (p ++ m ++ q) off n = v.
Proof. intros <- -> Hv. unfold field. rewrite drop_app_length, take_app_length' by (by rewrite length_native). by apply nativeUint_native. Qed.

(** A header reads as it was written. *)
Definition hdr_ok (h : NlMsghdr) : Prop := is_u32 (nl_Len h) /\ is_u16 (nl_Type h) /\ is_u16 (nl_Flags h) /\ is_u32 (nl_Seq h) /\ is_u32 (nl_Pid h).
Lemma length_nlBytes be h : length (nlBytes be h) = 16%nat.
Proof. unfold nlBytes. by rewrite !length_app, !length_native. Qed.
Lemma readNlMsghdr_nlBytes be h rest : hdr_ok h -> readNlMsghdr be (nlBytes be h ++ rest) = h.
Proof.
  destruct h as [l t f s p]. intros (Hl & Ht & Hf & Hs & Hp). cbn in *. unfold readNlMsghdr, nlBytes. cbn. rewrite <- !app_assoc. f_equal.
  - apply (field_at be []); [done|done|width_lia].
  - apply field_at; [apply length_native|done|width_lia].
  - rewrite app_assoc. apply field_at; [rewrite length_app, !length_native; done|done|width_lia].
  - do 2 rewrite app_assoc. apply field_at; [rewrite !length_app, !length_native; done|done|width_lia].
  - do 3 rewrite app_assoc. apply field_at; [rewrite !length_app, !length_native; done|done|width_lia].
Qed.

Section Answers.
Context (be : bool).

Lemma attr_fields a rest : attr_ok a -> field be (attrBytes be a ++ rest) 0 2 = 4 + len a.2 /\ field be (attrBytes be a ++ rest) 2 2 = a.1 /\
  len (attrBytes be a ++ rest) = 4 + len a.2 + len rest /\ slice (attrBytes be a ++ rest) (4 + len a.2) (4 + len a.2 + len rest) = Some rest.
Proof.
  intros [Hu Hl]. pose proof (len_nonneg a.2). assert (len (attrBytes be a) = 4 + len a.2) as Hla.
  { unfold attrBytes, rtAttr. rewrite !len_app, !len_native. lia. }
  split; [|split; [|split]].
  - unfold attrBytes, rtAttr. rewrite <- !app_assoc. apply (field_at be []); [done|done|lia].
  - unfold attrBytes, rtAttr. rewrite <- !app_assoc. apply field_at; [apply length_native|done|width_lia].
  - rewrite len_app, Hla. done.
  - rewrite <- Hla. apply (slice_tail (attrBytes be a) rest). by rewrite len_app.
Qed.

(** An attribute that is not an interface is skipped. *)
Lemma attrLoop_skip fuel seq a rest r : attr_ok a -> otherAttr a -> attrLoop be (S fuel) seq (attrBytes be a ++ rest) r = attrLoop be fuel seq rest r.
Proof.
  intros Ha Ho. destruct (attr_fields a rest Ha) as (E1 & E2 & E3 & E4). pose proof (len_nonneg a.2). pose proof (len_nonneg rest).
  cbn [attrLoop]. rewrite E1, E2, E3. unfold SizeofRtAttr in *. rewrite !(proj2 (Z.ltb_ge _ _)) by lia. simpl orb. cbv iota.
  replace ((a.1 =? RTA_OIF) && (4 + len a.2 =? 4 + 4)) with false.
  - cbn [mbind option_bind]. by rewrite E4.
  - symmetry. apply andb_false_iff. destruct Ho; [left|right]; apply Z.eqb_neq; lia.
Qed.
Lemma attrLoop_others fuel seq attrs r : Forall attr_ok attrs -> Forall otherAttr attrs -> attrLoop be (length attrs + fuel) seq (concat (map (attrBytes be) attrs)) r = Some r.
Proof.
  intros Ha Ho. induction attrs as [|a attrs IH]; [by destruct fuel|]. apply Forall_cons in Ha as [Ha1 Ha]. apply Forall_cons in Ho as [Ho1 Ho].
  simpl concat. simpl plus. rewrite attrLoop_skip by done. by apply IH.
Qed.

(** The walk over the attributes of an answer finds the interface. *)
Lemma attrLoop_finds seq pre ifidx post r r' stop fuel : Forall attr_ok (pre ++ post) -> Forall otherAttr (pre ++ post) -> is_u32 ifidx ->
  checkInterface be seq ifidx r = Some (r', stop) ->
  attrLoop be (length pre + S (length post + fuel)) seq (concat (map (attrBytes be) (pre ++ (RTA_OIF, native be 4 ifidx) :: post))) r = Some r'.
Proof.
  intros [Ha Hap]%Forall_app [Ho Hop]%Forall_app Hu Hc. induction pre as [|a pre IH].
  - simpl plus. rewrite app_nil_l. cbn [map concat]. set (a := (RTA_OIF, native be 4 ifidx)).
    assert (len a.2 = 4) as H4 by apply len_native.
    assert (attr_ok a) as Hok by (split; [done|lia]). destruct (attr_fields a (concat (map (attrBytes be) post)) Hok) as (E1 & E2 & E3 & E4).
    pose proof (len_nonneg (concat (map (attrBytes be) post))). cbn [attrLoop]. rewrite E1, E2, E3, H4 in *. unfold SizeofRtAttr. rewrite !(proj2 (Z.ltb_ge _ _)) by lia. simpl orb. cbv iota.
    change ((a.1 =? RTA_OIF) && (4 + 4 =? 4 + 4)) with true. cbv iota.
    assert (slice (attrBytes be a ++ concat (map (attrBytes be) post)) 4 (4 + 4) = Some (native be 4 ifidx)) as ->.
    { assert (len (rtAttr be (4 + len a.2) a.1) = 4) as Hr by (unfold rtAttr; rewrite len_app, !len_native; done).
      pose proof (slice_mid (rtAttr be (4 + len a.2) a.1) a.2 (concat (map (attrBytes be) post)) _ eq_refl) as Hs. rewrite Hr, H4 in Hs.
      unfold attrBytes at 1. rewrite <- app_assoc, H4. exact Hs. }
    cbn [mbind option_bind]. rewrite nativeUint_native by width_lia. rewrite Hc. cbn [mbind option_bind]. destruct stop; [done|]. rewrite E4. cbn [mbind option_bind]. by apply attrLoop_others.
  - apply Forall_cons in Ha as [Ha1 Ha]. apply Forall_cons in Ho as [Ho1 Ho]. simpl plus. rewrite <- app_comm_cons. cbn [map concat]. rewrite attrLoop_skip by done. by apply IH.
Qed.

(** More fuel than the attributes need changes nothing. *)
Lemma attrs_length attrs : (length attrs <= length (concat (map (attrBytes be) attrs)))%nat.
Proof.
  induction attrs as [|a attrs IH]; [done|]. simpl. rewrite length_app. unfold attrBytes at 1, rtAttr. rewrite !length_app, !length_native. lia.
Qed.

(** The answer to request [seq]: header, route message and attributes. *)
Definition answer (type seq pid : Z) (rtmsg : list Z) (attrs : list (Z * list Z)) : list Z :=
  let body := rtmsg ++ concat (map (attrBytes be) attrs) in
  nlBytes be {| nl_Len := SizeofNlMsghdr + len body; nl_Type := type; nl_Flags := 0; nl_Seq := seq; nl_Pid := pid |} ++ body.

Lemma answer_header type seq pid rtmsg attrs : is_u16 type -> is_u32 seq -> is_u32 pid -> len (answer type seq pid rtmsg attrs) < 2 ^ 32 ->
  readNlMsghdr be (answer type seq pid rtmsg attrs) =
  {| nl_Len := len (answer type seq pid rtmsg attrs); nl_Type := type; nl_Flags := 0; nl_Seq := seq; nl_Pid := pid |} /\
  len (answer type seq pid rtmsg attrs) = SizeofNlMsghdr + len (rtmsg ++ concat (map (attrBytes be) attrs)).
Proof.
  intros Ht Hs Hp. unfold answer. set (body := rtmsg ++ _). set (h := {| nl_Len := SizeofNlMsghdr + len body |}). pose proof (len_nonneg body).
  assert (len (nlBytes be h ++ body) = SizeofNlMsghdr + len body) as HL by (rewrite len_app; unfold len at 1; by rewrite length_nlBytes).
  rewrite HL. intros Hlt. split; [|done]. apply readNlMsghdr_nlBytes. unfold SizeofNlMsghdr in *. repeat split; cbn; width_lia.
Qed.
End Answers.

(** ** Rounds of requests *)

Section Rounds.
Context (be : bool).

(** A peer whose route is asked for: an IPv4 endpoint with a source. *)
Definition askable (r : routes) (p : nat) : Prop :=
  exists ep e dst src a, rl_endpoints r !! p = Some ep /\ ep_val ep = Some e /\ Is6 (ep_addr e) = false /\ As4 (ep_addr e) = Some dst /\
    SrcIfidx be (nativeEP e) <> 0 /\ SrcIP (nativeEP e) = Some a /\ As4 a = Some src.
(** A peer that ends the round. *)
Definition ends_round (r : routes) (p : nat) : Prop :=
  exists ep e, rl_endpoints r !! p = Some ep /\ ep_val ep = Some e /\ (Is6 (ep_addr e) = true \/ SrcIfidx be (nativeEP e) = 0).

Lemma requestPeer_asks fwmark i p m r : askable r p -> rl_reqPeer r = Some m ->
  exists msg, requestPeer be fwmark i p r = Some (Ask msg (with_reqPeer (Some (<[i := {| pe_peer := p; pe_endpoint := p |}]> m)) r)).
Proof.
  intros (ep & e & dst & src & a & Hep & Hval & H6 & Hd & Hi & Hs & Ha) Hm. unfold requestPeer. rewrite Hep. cbn [mbind option_bind]. rewrite Hval.
  change (DstIP (nativeEP e)) with (ep_addr e). rewrite H6, (proj2 (Z.eqb_neq _ _) Hi), Hd. cbn [orb mbind option_bind]. rewrite Hs. cbn [mbind option_bind]. rewrite Ha, Hm. cbn [mbind option_bind]. eauto.
Qed.

(** The requests are numbered from [i] on, in the order of the peers, up to the first peer
    that ends the round. *)
Lemma requestLoop_numbers fwmark peers : forall rest i answers m r, Forall (askable r) peers -> rl_reqPeer r = Some m ->
  (forall q rest', rest = q :: rest' -> ends_round r q) -> (length peers <= length answers)%nat -> Forall (eq true) answers -> 0 <= i -> i + len peers < 2 ^ 32 ->
  exists msgs m', requestLoop be fwmark i (peers ++ rest) answers r = Some (msgs, with_reqPeer (Some m') r) /\ length msgs = length peers /\
    (forall k p, peers !! k = Some p -> m' !! (i + Z.of_nat k) = Some {| pe_peer := p; pe_endpoint := p |}) /\
    (forall j, j < i -> m' !! j = m !! j).
Proof.
  induction peers as [|p peers IH]; intros rest i answers m r Hask Hm Hend Hlen Hans Hi Hmax.
  - exists [], m. rewrite app_nil_l. assert (with_reqPeer (Some m) r = r) as -> by (destruct r; simpl in *; by rewrite Hm). split; [|done]. destruct rest as [|q rest]; [done|].
    destruct (Hend q rest eq_refl) as (ep & e & Hep & Hval & Hor). cbn [requestLoop]. unfold requestPeer. rewrite Hep. cbn [mbind option_bind]. rewrite Hval.
    replace (Is6 (DstIP (nativeEP e)) || (SrcIfidx be (nativeEP e) =? 0)) with true; [done|]. symmetry. apply orb_true_iff. destruct Hor as [H|H]; [by left|right; by apply Z.eqb_eq].
  - apply Forall_cons in Hask as [Hp Hask]. destruct (requestPeer_asks fwmark i p m r Hp Hm) as (msg & E). rewrite <- app_comm_cons. cbn [requestLoop]. rewrite E. cbn [mbind option_bind].
    destruct answers as [|b answers]; [simpl in Hlen; lia|]. apply Forall_cons in Hans as [<- Hans]. rewrite len_cons in Hmax. pose proof (len_nonneg peers).
    rewrite u32_small by width_lia.
    destruct (IH rest (i + 1) answers (<[i := {| pe_peer := p; pe_endpoint := p |}]> m) (with_reqPeer (Some (<[i := {| pe_peer := p; pe_endpoint := p |}]> m)) r)) as (msgs & m' & -> & Hl & Hk & Hlow);
      [done|done|done|simpl in Hlen; lia|done|lia|lia|]. cbn [mbind option_bind]. exists (msg :: msgs), m'. split; [done|]. split; [simpl; lia|]. split.
    + intros [|k] q Hq; [injection Hq as <-; rewrite Hlow by lia; replace (i + Z.of_nat 0) with i by lia; by rewrite lookup_insert_eq|].
      replace (i + Z.of_nat (S k)) with (i + 1 + Z.of_nat k) by lia. by apply Hk.
    + intros j Hj. rewrite Hlow by lia. by rewrite lookup_insert_ne by lia.
Qed.

(** What the answer with interface [ifidx] does to peer [p]. *)
Definition answered (r : routes) (p : nat) (ep : PeerEndpoint) (e : Endpoint) (ifidx : Z) : routes :=
  if u32 (SrcIfidx be (nativeEP e)) =? ifidx then r
  else with_endpoints (<[p := mkPeerEndpoint (Some e) true (disableRoaming ep)]> (rl_endpoints r)) r.

Lemma answer_handled r m seq p ep e type pid rtmsg pre ifidx post :
  rl_reqPeer r = Some m -> m !! seq = Some {| pe_peer := p; pe_endpoint := p |} -> rl_endpoints r !! p = Some ep -> ep_val ep = Some e ->
  type = RTM_NEWROUTE \/ type = RTM_DELROUTE -> 0 < seq <= MaxPeers -> is_u32 pid -> is_u32 ifidx -> len rtmsg = SizeofRtMsg ->
  Forall attr_ok (pre ++ post) -> Forall otherAttr (pre ++ post) ->
  let msg := answer be type seq pid rtmsg (pre ++ (RTA_OIF, native be 4 ifidx) :: post) in
  len msg < 2 ^ 32 -> messageLoop be (S (length msg)) msg 0 r = Done (answered r p ep e ifidx, 0%nat).
Proof.
  intros Hm Hseq Hep Hval Hty Hs Hpid Hif Hrt Ha Ho msg Hlt. set (attrs := pre ++ (RTA_OIF, native be 4 ifidx) :: post) in *.
  destruct (answer_header be type seq pid rtmsg attrs) as (Hh & HL); [destruct Hty as [->| ->]; done|unfold MaxPeers in Hs; width_lia|done|done|]. fold msg in Hh, HL.
  assert (exists stop, checkInterface be seq ifidx r = Some (answered r p ep e ifidx, stop)) as (stop & Hc).
  { unfold checkInterface, answered. rewrite Hm, Hseq. cbn [pe_peer pe_endpoint]. rewrite Hep. cbn [mbind option_bind]. rewrite Nat.eqb_refl, Hval. cbn [negb mbind option_bind]. destruct (_ =? ifidx); eauto. }
  pose proof (attrs_length be attrs) as Hal. assert (0 < len (concat (map (attrBytes be) attrs))) as Hpos by (unfold attrs, len in *; rewrite length_app in Hal; simpl in Hal; lia).
  rewrite len_app, Hrt in HL. unfold SizeofNlMsghdr, SizeofRtMsg in HL.
  assert (handleMessage be (readNlMsghdr be msg) msg r = Some (answered r p ep e ifidx, false)) as Hhm.
  { unfold handleMessage. rewrite Hh. cbn [nl_Type nl_Seq nl_Len]. replace ((type =? RTM_NEWROUTE) || (type =? RTM_DELROUTE)) with true by (destruct Hty as [->| ->]; done).
    rewrite (proj2 (Z.leb_le _ _)), Z.gtb_ltb, (proj2 (Z.ltb_lt _ _)) by lia. simpl andb. cbv iota. rewrite Z.gtb_ltb, (proj2 (Z.ltb_lt _ _)) by (unfold SizeofNlMsghdr, SizeofRtMsg; lia).
    assert (slice msg (SizeofNlMsghdr + SizeofRtMsg) (len msg) = Some (concat (map (attrBytes be) attrs))) as ->.
    { unfold msg, answer in *. rewrite app_assoc in *. set (hd := _ ++ rtmsg) in *. replace (SizeofNlMsghdr + SizeofRtMsg) with (len hd) by (rewrite len_app in HL; unfold SizeofNlMsghdr, SizeofRtMsg; lia). by apply slice_tail. }
    cbn [mbind option_bind]. replace (length (concat (map (attrBytes be) attrs))) with (length pre + S (length post + (length (concat (map (attrBytes be) attrs)) - length attrs)))%nat by (unfold attrs at 2; rewrite length_app; simpl; unfold attrs in Hal; rewrite length_app in Hal; simpl in Hal; unfold attrs; lia).
    unfold attrs at 2. rewrite (attrLoop_finds be seq pre ifidx post r _ stop) by done. done. }
  cbn [messageLoop]. rewrite Hhm, Hh. cbn [nl_Len]. rewrite (proj2 (Z.ltb_ge (len msg) SizeofNlMsghdr)) by (unfold SizeofNlMsghdr; lia).
  rewrite Z.gtb_ltb, Z.ltb_irrefl. rewrite slice_suffix by (pose proof (len_nonneg msg); lia). rewrite drop_ge by (unfold len; lia).
  destruct (length msg) eqn:E; [unfold len in HL; rewrite E in HL; unfold len in Hpos; lia|]. done.
Qed.
End Rounds.

(** When routes change, the routine asks for the route of each peer with a source, numbering
    the requests in the order of the peers, but only up to the first peer with an IPv6
    endpoint or without a source: there the round ends and the peers behind it are not
    asked about. The answer to a request drops the cached source of exactly the peer the
    request was for, and only if the interface is another one than that of its source,
    wherever in the answer the interface is. *)
Theorem route_round be fwmark peers rest answers r m :
  rl_reqPeer r = Some m -> Forall (askable be r) peers -> (forall q rest', rest = q :: rest' -> ends_round be r q) ->
  (length peers <= length answers)%nat -> Forall (eq true) answers -> len peers <= MaxPeers ->
  exists msgs r1, requestLoop be fwmark 1 (peers ++ rest) answers r = Some (msgs, r1) /\ length msgs = length peers /\ rl_endpoints r1 = rl_endpoints r /\
    forall k p ep e type pid rtmsg pre ifidx post, peers !! k = Some p -> rl_endpoints r !! p = Some ep -> ep_val ep = Some e ->
      type = RTM_NEWROUTE \/ type = RTM_DELROUTE -> is_u32 pid -> is_u32 ifidx -> len rtmsg = SizeofRtMsg ->
      Forall attr_ok (pre ++ post) -> Forall otherAttr (pre ++ post) ->
      let msg := answer be type (1 + Z.of_nat k) pid rtmsg (pre ++ (RTA_OIF, native be 4 ifidx) :: post) in
      len msg < 2 ^ 32 -> messageLoop be (S (length msg)) msg 0 r1 = Done (answered be r1 p ep e ifidx, 0%nat).
Proof.
  intros Hm Hask Hend Hlen Hans Hmax. destruct (requestLoop_numbers be fwmark peers rest 1 answers m r) as (msgs & m' & E & Hl & Hk & _); try done; [unfold MaxPeers in Hmax; lia|].
  exists msgs, (with_reqPeer (Some m') r). split; [done|]. split; [done|]. split; [done|].
  intros k p ep e type pid rtmsg pre ifidx post Hp Hep Hval Hty Hpid Hif Hrt Ha Ho msg Hlt. pose proof (lookup_lt_Some _ _ _ Hp).
  apply (answer_handled be _ m'); try done; [by apply Hk|unfold len in Hmax; lia].
Qed.

(** Peer 7 has a source on interface 3, peer 8 is an IPv6 peer. *)
Definition sampleEndpoint : Endpoint := mkEndpoint (mkAddr [10;0;0;1] []) 51820
  (hdrBuf false {| h_Len := CmsgLen 12; h_Level := IPPROTO_IP; h_Type := IP_PKTINFO |} ++ [3;0;0;0; 10;0;0;2; 10;0;0;2] ++ [0;0;0;0]).
Definition sampleRoutes : routes :=
  {| rl_endpoints := {[ 7%nat := mkPeerEndpoint (Some sampleEndpoint) false false;
                        8%nat := mkPeerEndpoint (Some (mkEndpoint (mkAddr (replicate 16 1) []) 51820 [])) false false ]};
     rl_reqPeer := Some ∅ |}.

Lemma route_round_witness : exists msgs r1, requestLoop false 0 1 [7%nat; 8%nat] [true; true] sampleRoutes = Some (msgs, r1) /\ length msgs = 1%nat /\
  messageLoop false 45 (answer false RTM_NEWROUTE 1 0 (replicate 12 0) [(RTA_DST, [10;0;0;1]); (RTA_OIF, [4;0;0;0])]) 0 r1 =
    Done (with_endpoints (<[7%nat := mkPeerEndpoint (Some sampleEndpoint) true false]> (rl_endpoints r1)) r1, 0%nat).
Proof.
  assert (askable false sampleRoutes 7) as H7.
  { eexists _, _, _, _, _. repeat (split; [reflexivity|]). split; [vm_compute; discriminate|]. split; reflexivity. }
  assert (ends_round false sampleRoutes 8) as H8 by (eexists _, _; split; [reflexivity|]; split; [reflexivity|left; reflexivity]).
  destruct (route_round false 0 [7%nat] [8%nat] [true; true] sampleRoutes ∅ eq_refl ltac:(constructor; [exact H7|constructor])
    ltac:(intros q rest' [= <- <-]; exact H8) ltac:(simpl; lia) ltac:(repeat constructor) ltac:(vm_compute; congruence)) as (msgs & r1 & E & Hl & He & H).
  exists msgs, r1. split; [exact E|]. split; [exact Hl|].
  refine (H 0%nat 7%nat _ sampleEndpoint RTM_NEWROUTE 0 (replicate 12 0) [(RTA_DST, [10;0;0;1])] 4 [] eq_refl eq_refl eq_refl (or_introl eq_refl) _ _ eq_refl _ _ _).
  - split; lia.
  - split; lia.
  - cbn [app]. constructor; [split; [split; vm_compute; congruence|reflexivity]|constructor].
  - cbn [app]. constructor; [left; discriminate|constructor].
  - vm_compute. reflexivity.
Defined.
