(* ===== verification/Pools.v ===== *)
(** * Pools: bounded pools and counted queues (src/device/pools.go, channels.go)

    A WaitPool bounds the number of objects that are in use: Get waits on a condition
    variable while the bound is reached, Put gives back and signals. A queue counts its
    writers and closes its channel when the last one is done. Both are step relations in
    which the calls of any number of routines interleave, a routine being able to stop
    between any two accesses to what they share. *)
From S2P Require Import Prelude.
#[local] Open Scope Z_scope.

(** ** WaitPool *)

Module WaitPool.

(** Objects are numbered. A call of Get is first [getting] (counted, not yet with an object)
    or [waiting] in [cond.Wait], or [woken] and about to look at the count again; a call of
    Put is [putting] between giving the object to the pool and counting down. *)
Record WaitPool : Type := {
  max : Z;
  count : Z;
  items : list nat;     (* in the sync.Pool *)
  inUse : list nat;     (* got and not put back *)
  fresh : nat;          (* the next object that New makes *)
  getting : nat;
  putting : nat;
  waiting : nat;
  woken : nat
}.

Definition NewWaitPool (max : Z) : WaitPool :=
  {| max := max; count := 0; items := []; inUse := []; fresh := 0; getting := 0; putting := 0; waiting := 0; woken := 0 |}.

Definition counted (p : WaitPool) : WaitPool :=
  {| max := max p; count := u32 (count p + 1); items := items p; inUse := inUse p; fresh := fresh p;
     getting := S (getting p); putting := putting p; waiting := waiting p; woken := woken p |}.
Definition waits (p : WaitPool) : WaitPool :=
  {| max := max p; count := count p; items := items p; inUse := inUse p; fresh := fresh p;
     getting := getting p; putting := putting p; waiting := S (waiting p); woken := woken p |}.
Definition wakes (p : WaitPool) : WaitPool :=
  {| max := max p; count := count p; items := items p; inUse := inUse p; fresh := fresh p;
     getting := getting p; putting := putting p; waiting := waiting p; woken := pred (woken p) |}.

(** Get up to the first test of the count. Without a bound nothing is counted. *)
Definition GetEnter (p : WaitPool) : WaitPool :=
  if max p =? 0 then
    {| max := max p; count := count p; items := items p; inUse := inUse p; fresh := fresh p;
       getting := S (getting p); putting := putting p; waiting := waiting p; woken := woken p |}
  else if count p >=? max p then waits p else counted p.
(** A woken Get tests the count again. *)
Definition GetRetry (p : WaitPool) : option WaitPool :=
  if (woken p =? 0)%nat then None
  else Some (let p := wakes p in if count p >=? max p then waits p else counted p).
(** [p.pool.Get()]: the object at [choice] in the pool, or a new one. *)
Definition GetTake (choice : nat) (p : WaitPool) : option WaitPool :=
  if (getting p =? 0)%nat then None
  else
    let '(x, items', fresh') :=
      match items p !! choice with
      | Some x => (x, take choice (items p) ++ drop (S choice) (items p), fresh p)
      | None => (fresh p, items p, S (fresh p))
      end in
    Some {| max := max p; count := count p; items := items'; inUse := x :: inUse p; fresh := fresh';
            getting := pred (getting p); putting := putting p; waiting := waiting p; woken := woken p |}.
(** [p.pool.Put(x)] for an object in use. *)
Definition PutItem (choice : nat) (p : WaitPool) : option WaitPool :=
  x ← inUse p !! choice;
  Some {| max := max p; count := count p; items := x :: items p; inUse := take choice (inUse p) ++ drop (S choice) (inUse p); fresh := fresh p;
          getting := getting p; putting := if max p =? 0 then putting p else S (putting p); waiting := waiting p; woken := woken p |}.
(** The rest of Put: count down and signal, which wakes one waiting call if there is one. *)
Definition PutCount (p : WaitPool) : option WaitPool :=
  if (putting p =? 0)%nat then None
  else Some {| max := max p; count := u32 (count p - 1); items := items p; inUse := inUse p; fresh := fresh p;
               getting := getting p; putting := pred (putting p);
               waiting := pred (waiting p); woken := if (waiting p =? 0)%nat then woken p else S (woken p) |}.
(** The garbage collector may empty a sync.Pool at any time. *)
Definition Collect (p : WaitPool) : WaitPool :=
  {| max := max p; count := count p; items := []; inUse := inUse p; fresh := fresh p;
     getting := getting p; putting := putting p; waiting := waiting p; woken := woken p |}.

Inductive step : WaitPool -> WaitPool -> Prop :=
| step_enter p : step p (GetEnter p)
| step_retry p p' : GetRetry p = Some p' -> step p p'
| step_take choice p p' : GetTake choice p = Some p' -> step p p'
| step_put choice p p' : PutItem choice p = Some p' -> step p p'
| step_count p p' : PutCount p = Some p' -> step p p'
| step_collect p : step p (Collect p).
Definition reachable (max : Z) : WaitPool -> Prop := rtc step (NewWaitPool max).

(** What holds between the steps. *)
Record inv (p : WaitPool) : Prop := {
  iv_max : is_u32 (max p);
  iv_count : max p <> 0 -> count p = Z.of_nat (getting p + length (inUse p) + putting p) /\ count p <= max p;
  iv_woken : max p <> 0 -> (0 < waiting p)%nat -> max p <= count p + Z.of_nat (woken p);
  iv_free : max p = 0 -> waiting p = 0%nat /\ woken p = 0%nat /\ putting p = 0%nat;
  iv_items : NoDup (items p ++ inUse p);
  iv_fresh : Forall (fun x => x < fresh p)%nat (items p ++ inUse p)
}.

Lemma inv_new max : is_u32 max -> inv (NewWaitPool max).
Proof. intros H. split; simpl; try done; try lia; [|constructor..]. intros _. destruct H. lia. Qed.

(** The steps that test the count. *)
Lemma counted_inv p : inv p -> max p <> 0 -> count p < max p -> inv (counted p).
Proof.
  intros [Hm Hc Hw Hf Hi Hfr] H0 Hlt. destruct (Hc H0) as (Ec & Hle). unfold counted. split; cbn; try done.
  - intros _. rewrite u32_small by (width_lia). lia.
  - intros _ Hpos. specialize (Hw H0 Hpos). rewrite u32_small by width_lia. lia.
Qed.
Lemma waits_inv p : inv p -> max p <> 0 -> max p <= count p -> inv (waits p).
Proof. intros [Hm Hc Hw Hf Hi Hfr] H0 Hge. unfold waits. split; cbn; try done. lia. Qed.

(** Taking an element out of a list by its index. *)
Lemma remove_at {A} (l : list A) i x : l !! i = Some x -> l ≡ₚ x :: take i l ++ drop (S i) l.
Proof. intros H. rewrite <- (take_drop_middle l i x H) at 1. by rewrite Permutation_middle. Qed.

Lemma take_inv choice p p' : inv p -> GetTake choice p = Some p' -> inv p'.
Proof.
  intros [Hm Hc Hw Hf Hi Hfr]. unfold GetTake. destruct (Nat.eqb_spec (getting p) 0) as [|Hg]; [done|].
  destruct (items p !! choice) as [x|] eqn:E; intros [= <-].
  - assert (items p ++ inUse p ≡ₚ (take choice (items p) ++ drop (S choice) (items p)) ++ x :: inUse p) as Hperm by (rewrite (remove_at _ _ _ E) at 1; apply Permutation_middle).
    split; cbn; try done; [intros H; destruct (Hc H); simpl; lia|by rewrite <- Hperm|by rewrite <- Hperm].
  - split; cbn; try done; [intros H; destruct (Hc H); simpl; lia|rewrite <- Permutation_middle; constructor; [|done]|].
    + intros Hin. apply (proj1 (Forall_forall _ _) Hfr) in Hin. lia.
    + rewrite <- Permutation_middle. constructor; [lia|]. eapply Forall_impl; [exact Hfr|]. simpl. lia.
Qed.
Lemma put_inv choice p p' : inv p -> PutItem choice p = Some p' -> inv p'.
Proof.
  intros [Hm Hc Hw Hf Hi Hfr]. unfold PutItem. destruct (inUse p !! choice) as [x|] eqn:E; [|done]. intros [= <-].
  assert (items p ++ inUse p ≡ₚ (x :: items p) ++ (take choice (inUse p) ++ drop (S choice) (inUse p))) as Hperm by (rewrite (remove_at _ _ _ E) at 1; symmetry; apply Permutation_middle).
  assert (length (inUse p) = S (length (take choice (inUse p) ++ drop (S choice) (inUse p)))) as Hl by (rewrite (remove_at _ _ _ E) at 1; done).
  split; cbn; try done; [| |by rewrite <- Hperm|by rewrite <- Hperm].
  - intros H. rewrite (proj2 (Z.eqb_neq _ _) H). destruct (Hc H). lia.
  - intros H. rewrite (proj2 (Z.eqb_eq _ _) H). by apply Hf.
Qed.
Lemma putcount_inv p p' : inv p -> PutCount p = Some p' -> inv p'.
Proof.
  intros [Hm Hc Hw Hf Hi Hfr]. unfold PutCount. destruct (Nat.eqb_spec (putting p) 0) as [|Hp]; [done|]. intros [= <-]. split; cbn; try done.
  - intros H. destruct (Hc H). rewrite u32_small by width_lia. lia.
  - intros H Hpos. destruct (Hc H). rewrite u32_small by width_lia. destruct (Nat.eqb_spec (waiting p) 0); [lia|]. specialize (Hw H ltac:(lia)). lia.
  - intros H. destruct (Hf H) as (? & ? & ?). lia.
Qed.

Lemma step_inv p p' : inv p -> step p p' -> inv p'.
Proof.
  intros Hinv Hs. destruct Hs as [p|p p' H|c p p' H|c p p' H|p p' H|p].
  - unfold GetEnter. destruct (Z.eqb_spec (max p) 0) as [E|E].
    + destruct Hinv as [Hm Hc Hw Hf Hi Hfr]. split; cbn; done.
    + destruct (Z.geb_spec (count p) (max p)); [apply waits_inv|apply counted_inv]; done || lia.
  - unfold GetRetry in H. destruct (Nat.eqb_spec (woken p) 0) as [|Hwk]; [done|]. injection H as <-.
    assert (max p <> 0) as H0 by (intros E; destruct (iv_free _ Hinv E); lia).
    destruct Hinv as [Hm Hc Hw Hf Hi Hfr]. destruct (Hc H0) as (Ec & Hle). change (count (wakes p)) with (count p). change (max (wakes p)) with (max p).
    destruct (Z.geb_spec (count p) (max p)) as [Hge|Hlt].
    + split; unfold waits, wakes; cbn [max count items inUse fresh getting putting waiting woken]; try done; lia.
    + split; unfold counted, wakes; cbn [max count items inUse fresh getting putting waiting woken]; try done; rewrite ?u32_small by width_lia; [lia|].
      intros _ Hpos. specialize (Hw H0 Hpos). lia.
  - by eapply take_inv.
  - by eapply put_inv.
  - by eapply putcount_inv.
  - destruct Hinv as [Hm Hc Hw Hf Hi Hfr]. split; cbn; try done; [by apply NoDup_app in Hi as (_ & _ & ?)|by apply Forall_app in Hfr as [_ ?]].
Qed.

Lemma reachable_inv max p : is_u32 max -> reachable max p -> inv p.
Proof. intros Hm Hr. unfold reachable in Hr. remember (NewWaitPool max) as p0 eqn:E. assert (inv p0) as H0 by (subst; by apply inv_new). clear E. induction Hr; [done|]. apply IHHr. by eapply step_inv. Qed.

Lemma step_max p p' : step p p' -> max p' = max p.
Proof.
  intros Hs. destruct Hs as [p|p p' H|c p p' H|c p p' H|p p' H|p]; try done.
  - unfold GetEnter. repeat case_match; done.
  - unfold GetRetry in H. case_match; [done|]. injection H as <-. case_match; done.
  - unfold GetTake in H. case_match; [done|]. destruct (items p !! c); by injection H as <-.
  - unfold PutItem in H. destruct (inUse p !! c); [by injection H as <-|done].
  - unfold PutCount in H. case_match; [done|]. by injection H as <-.
Qed.
Lemma reachable_max max' p : reachable max' p -> max p = max'.
Proof. unfold reachable. intros Hr. remember (NewWaitPool max') as p0 eqn:E. assert (max p0 = max') as H0 by (by subst). clear E. induction Hr; [done|]. apply IHHr. rewrite (step_max _ _ H). done. Qed.

End WaitPool.

(** ** Queues that count their writers *)

Module CountedQueue.
Section Queue.
Context {A : Type}.

(** outboundQueue, inboundQueue and handshakeQueue: a channel of [cap] elements and the
    counter of the WaitGroup; [sent] and [received] are the history. *)
Record queue : Type := {
  cap : nat;
  chan : list A;
  closed : bool;
  refs : Z;
  sent : list A;
  received : list A
}.
Definition newQueue (cap : nat) : queue := {| cap := cap; chan := []; closed := false; refs := 1; sent := []; received := [] |}.

(** [None] is a panic: of the WaitGroup below zero, of a send on a closed channel, of a
    second close. *)
Definition Add (n : Z) (q : queue) : option queue :=
  if refs q + n <? 0 then None
  else Some {| cap := cap q; chan := chan q; closed := closed q; refs := refs q + n; sent := sent q; received := received q |}.
Definition DoneRef (q : queue) : option queue := Add (-1) q.
(** The goroutine of newOutboundQueue after [wg.Wait()]. *)
Definition CloseChan (q : queue) : option queue :=
  if closed q then None
  else Some {| cap := cap q; chan := chan q; closed := true; refs := refs q; sent := sent q; received := received q |}.
Definition SendElem (x : A) (q : queue) : option queue :=
  if closed q then None
  else Some {| cap := cap q; chan := chan q ++ [x]; closed := closed q; refs := refs q; sent := sent q ++ [x]; received := received q |}.
Definition RecvElem (q : queue) : option (A * queue) :=
  match chan q with
  | [] => None
  | x :: rest => Some (x, {| cap := cap q; chan := rest; closed := closed q; refs := refs q; sent := sent q; received := received q ++ [x] |})
  end.

(** The steps of the routines that keep to the rule of the comment in channels.go: who adds
    a writer or writes holds a reference; the goroutine closes when there is none. A
    send waits for room. *)
Inductive step : queue -> queue -> Prop :=
| step_add n q q' : 0 < refs q -> 0 <= n -> Add n q = Some q' -> step q q'
| step_done q q' : 0 < refs q -> DoneRef q = Some q' -> step q q'
| step_close q q' : refs q = 0 -> closed q = false -> CloseChan q = Some q' -> step q q'
| step_send x q q' : 0 < refs q -> (length (chan q) < cap q)%nat -> SendElem x q = Some q' -> step q q'
| step_recv x q q' : RecvElem q = Some (x, q') -> step q q'.
Definition reachable (n : nat) : queue -> Prop := rtc step (newQueue n).

Record inv (q : queue) : Prop := {
  iv_refs : 0 <= refs q;
  iv_closed : closed q = true -> refs q = 0;
  iv_fifo : received q ++ chan q = sent q;
  iv_cap : (length (chan q) <= cap q)%nat
}.

Lemma queue_step_inv q q' : inv q -> step q q' -> inv q'.
Proof.
  intros [Hr Hc Hf Hcap] Hs. destruct Hs as [n q q' Hpos Hn H|q q' Hpos H|q q' H0 Hcl H|x q q' Hpos Hroom H|x q q' H].
  - unfold Add in H. destruct (_ <? 0); [done|]. injection H as <-. split; simpl; try done; [lia|]. intros E. specialize (Hc E). lia.
  - unfold DoneRef, Add in H. destruct (Z.ltb_spec (refs q + -1) 0); [done|]. injection H as <-. split; simpl; try done. intros E. specialize (Hc E). lia.
  - unfold CloseChan in H. destruct (closed q); [done|]. injection H as <-. split; simpl; done.
  - unfold SendElem in H. destruct (closed q) eqn:E; [done|]. injection H as <-. split; simpl; try done; [by rewrite app_assoc, Hf|rewrite length_app; simpl; lia].
  - unfold RecvElem in H. destruct (chan q) as [|y rest]; [done|]. injection H as -> <-. split; simpl; try done; [by rewrite <- app_assoc|simpl in Hcap; lia].
Qed.
Lemma queue_reachable_inv n q : reachable n q -> inv q.
Proof.
  unfold reachable. intros Hr. remember (newQueue n) as q0 eqn:E. assert (inv q0) as H0 by (subst; split; simpl; done || lia). clear E.
  induction Hr as [|? ? ? H1 _ IH]; [done|]. apply IH. by eapply queue_step_inv.
Qed.
End Queue.
End CountedQueue.

(** C29: The bound of a WaitPool: in any interleaving of Get and Put by any number of routines,
    at most [max] objects are in use, no object is in use twice or in use and in the pool,
    and the counter is exact. No wake-up is lost: as long as a Get waits, either an object
    is in use or on its way in or out, or another Get has been woken; and when there is
    room, a Get has been woken and will go through. *)
Theorem pool_bounded max p : is_u32 max -> WaitPool.reachable max p -> max <> 0 ->
  len (WaitPool.inUse p) <= max /\ NoDup (WaitPool.items p ++ WaitPool.inUse p) /\
  WaitPool.count p = Z.of_nat (WaitPool.getting p + length (WaitPool.inUse p) + WaitPool.putting p) /\
  ((0 < WaitPool.waiting p)%nat ->
   (WaitPool.inUse p <> [] \/ (0 < WaitPool.getting p)%nat \/ (0 < WaitPool.putting p)%nat \/ (0 < WaitPool.woken p)%nat) /\
   (WaitPool.count p < max -> exists p', WaitPool.GetRetry p = Some p' /\ WaitPool.getting p' = S (WaitPool.getting p))).
Proof.
  intros Hm Hr H0. pose proof (WaitPool.reachable_inv _ _ Hm Hr) as [_ Hc Hw _ Hi _]. pose proof (WaitPool.reachable_max _ _ Hr) as E. rewrite E in *. destruct (Hc H0) as (Ec & Hle).
  split_and!; [unfold len; lia|done|done|]. intros Hpos. specialize (Hw H0 Hpos). split.
  - destruct (WaitPool.inUse p) as [|x l]; [|by left]. right. simpl in Ec. destruct Hm. lia.
  - intros Hlt. unfold WaitPool.GetRetry. destruct (Nat.eqb_spec (WaitPool.woken p) 0); [lia|]. eexists. split; [done|].
    change (WaitPool.count (WaitPool.wakes p)) with (WaitPool.count p). change (WaitPool.max (WaitPool.wakes p)) with (WaitPool.max p). rewrite E.
    rewrite Z.geb_leb, (proj2 (Z.leb_gt _ _)) by done. done.
Qed.

(** A pool of one object: the second Get waits, is woken by Put and goes through. *)
Definition samplePool : WaitPool.WaitPool :=
  {| WaitPool.max := 1; WaitPool.count := 0; WaitPool.items := [0%nat]; WaitPool.inUse := []; WaitPool.fresh := 1;
     WaitPool.getting := 0; WaitPool.putting := 0; WaitPool.waiting := 1; WaitPool.woken := 1 |}.
Lemma samplePool_reachable : WaitPool.reachable 1 samplePool.
Proof.
  eapply rtc_l; [apply WaitPool.step_enter|]. eapply rtc_l; [eapply (WaitPool.step_take 0); reflexivity|].
  eapply rtc_l; [apply WaitPool.step_enter|]. eapply rtc_l; [apply WaitPool.step_enter|].
  eapply rtc_l; [eapply (WaitPool.step_put 0); reflexivity|]. eapply rtc_l; [eapply WaitPool.step_count; reflexivity|]. apply rtc_refl.
Qed.
Lemma pool_bounded_witness : exists p', WaitPool.GetRetry samplePool = Some p' /\ WaitPool.getting p' = 1%nat.
Proof. apply (pool_bounded 1 samplePool ltac:(split; lia) samplePool_reachable ltac:(discriminate)). - simpl. lia. - reflexivity. Defined.



(** ** Elements, containers and draining *)

Module Elements.

(** A queue element of either direction: [ref] is its peer or its endpoint. *)
Record element : Type := { buffer : option nat; packet : option (list Z); keypair : option nat; ref : option nat }.
Definition clearPointers (e : element) : element := {| buffer := None; packet := None; keypair := None; ref := None |}.
Definition container : Type := list element.

(** What has been put back into the pools: buffers, elements and containers. *)
Record putBack : Type := { buffers : list (option nat); elements : list element; containers : list container }.
Definition PutMessageBuffer (b : option nat) (p : putBack) : putBack := {| buffers := b :: buffers p; elements := elements p; containers := containers p |}.
Definition PutElement (e : element) (p : putBack) : putBack := {| buffers := buffers p; elements := clearPointers e :: elements p; containers := containers p |}.
(** The elements are overwritten with nil and the slice is cut to length 0. *)
Definition PutContainer (c : container) (p : putBack) : putBack := {| buffers := buffers p; elements := elements p; containers := [] :: containers p |}.

(** flushInboundQueue and flushOutboundQueue: everything in the channel is put back. A nil
    container, the sentinel that stops a routine, is dereferenced. *)
Fixpoint flush (q : list (option container)) (p : putBack) : option putBack :=
  match q with
  | [] => Some p
  | None :: _ => None
  | Some c :: q' => flush q' (PutContainer c (foldl (fun p e => PutElement e (PutMessageBuffer (buffer e) p)) p c))
  end.

Lemma put_elements c p :
  foldl (fun p e => PutElement e (PutMessageBuffer (buffer e) p)) p c =
  {| buffers := reverse (map buffer c) ++ buffers p; elements := reverse (map clearPointers c) ++ elements p; containers := containers p |}.
Proof.
  revert p. induction c as [|e c IH]; intros p; [by destruct p|]. simpl. rewrite IH. cbn [PutElement PutMessageBuffer buffers elements containers].
  by rewrite !reverse_cons, <- !app_assoc.
Qed.

(** Draining gives back every buffer, every element without its pointers and one empty
    container for each one. *)
Lemma flush_all cs p : exists p', flush (map Some cs) p = Some p' /\
  buffers p' = reverse (map buffer (concat cs)) ++ buffers p /\ elements p' = reverse (map clearPointers (concat cs)) ++ elements p /\
  length (containers p') = (length cs + length (containers p))%nat.
Proof.
  revert p. induction cs as [|c cs IH]; intros p; [by exists p|]. cbn [map flush]. rewrite put_elements.
  destruct (IH (PutContainer c {| buffers := reverse (map buffer c) ++ buffers p; elements := reverse (map clearPointers c) ++ elements p; containers := containers p |})) as (p' & E & Hb & He & Hc).
  exists p'. split; [done|]. simpl in *. rewrite !map_app, !reverse_app, <- !app_assoc. split_and!; [done|done|lia].
Qed.
End Elements.
