(* ===== verification/BindSpec.v ===== *)
(** * BindSpec: what the UDP bind does to datagrams

    Coalescing and splitting keep the datagrams of a batch, their order and their
    bounds; a batch that is sent arrives as it was given, also after a retry without
    offload; control messages are read as they were written. [datagrams] is what the
    kernel makes of a message: it cuts the payload at the size of a UDP_SEGMENT control
    message. *)
From S2P Require Import Prelude GoLib NetIP DeviceState Checksum Gso Gro GroInv Bind.
#[local] Open Scope Z_scope.

(** ** Memory *)

Definition wf (h : heap) (s : bslice) : Prop :=
  exists m, h !! s_arr s = Some m /\ 0 <= s_off s /\ 0 <= s_len s <= s_cap s /\ s_off s + s_cap s <= len m.

Lemma contents_len h s : wf h s -> len (contents h s) = s_len s.
Proof. intros (m & Hm & ? & ? & ?). unfold contents, len in *. rewrite Hm. simpl. rewrite length_take, length_drop. lia. Qed.

Lemma store_wf h s at' src t : wf h t -> wf (store h s at' src) t.
Proof.
  intros (m & Hm & Hr). unfold wf, store. destruct (decide (s_arr t = s_arr s)) as [e|].
  - rewrite <- e, list_lookup_alter_eq, Hm. simpl. eexists. split; [done|]. unfold len in *. by rewrite length_inserts.
  - rewrite list_lookup_alter_ne by done. eauto.
Qed.

Lemma store_other h s at' src t : s_arr t <> s_arr s -> contents (store h s at' src) t = contents h t.
Proof. intros H. unfold contents, store. by rewrite list_lookup_alter_ne. Qed.

(** An array around a window, and a window read out of an array. *)
Lemma wf_inv h s : wf h s -> exists a b c, h !! s_arr s = Some (a ++ b ++ c) /\ contents h s = b /\ s_off s = len a /\ s_len s = len b /\ s_cap s <= len b + len c /\ len b <= s_cap s.
Proof.
  intros (m & Hm & H1 & H2 & H3). unfold contents, len in *. rewrite Hm. simpl.
  exists (take (Z.to_nat (s_off s)) m), (take (Z.to_nat (s_len s)) (drop (Z.to_nat (s_off s)) m)), (drop (Z.to_nat (s_len s)) (drop (Z.to_nat (s_off s)) m)).
  rewrite !take_drop. repeat split; rewrite ?length_take, ?length_drop; lia.
Qed.
Lemma contents_window h s a b c : h !! s_arr s = Some (a ++ b ++ c) -> s_off s = len a -> s_len s = len b -> contents h s = b.
Proof.
  intros Hm Ha Hb. unfold contents, len in *. rewrite Hm, Ha, Hb, !Nat2Z.id. simpl. rewrite drop_app_length. by rewrite take_app_length.
Qed.
Lemma wf_window h s a b c : h !! s_arr s = Some (a ++ b ++ c) -> s_off s = len a -> s_len s = len b -> len b <= s_cap s <= len b + len c -> wf h s.
Proof. intros Hm Ha Hb Hc. exists (a ++ b ++ c). rewrite !len_app. pose proof (len_nonneg a). pose proof (len_nonneg b). repeat split; [done|lia..]. Qed.

(** Writing [src] over the front of what follows [p] in an array. *)
Lemma inserts_mid {A} (p src c : list A) : (length src <= length c)%nat -> list_inserts (length p) src (p ++ c) = p ++ src ++ drop (length src) c.
Proof. intros H. rewrite <- (Nat.add_0_r (length p)) at 1. rewrite list_inserts_app_r. f_equal. by apply inserts_0. Qed.

Record appended (h : heap) (s : bslice) (src : list Z) (h' : heap) (s' : bslice) : Prop := {
  ap_slice : s' = Slice (s_arr s) (s_off s) (s_len s + len src) (s_cap s);
  ap_wf : wf h' s';
  ap_contents : contents h' s' = contents h s ++ src;
  ap_old : contents h' s = contents h s;
  ap_wfs : forall t, wf h t -> wf h' t;
  ap_other : forall t, s_arr t <> s_arr s -> contents h' t = contents h t
}.
Lemma append_fits h s src : wf h s -> s_len s + len src <= s_cap s ->
  appended h s src (fst (append h s src)) (snd (append h s src)).
Proof.
  intros Hwf Hfit. pose proof (wf_inv h s Hwf) as (a & b & c & Hm & Hb & Ha & Hlen & Hcap & Hge). unfold append. rewrite (proj2 (Z.leb_le _ _)) by lia. cbn [fst snd].
  assert (store h s (s_len s) src !! s_arr s = Some (a ++ (b ++ src) ++ drop (length src) c)) as Hm'.
  { unfold store. rewrite list_lookup_alter_eq, Hm. simpl. f_equal. rewrite Ha, Hlen.
    replace (Z.to_nat (len a + len b)) with (length (a ++ b)) by (rewrite length_app; unfold len; lia).
    rewrite app_assoc, inserts_mid by (unfold len in *; lia). by rewrite <- !app_assoc. }
  pose proof (len_app b src) as Hbs. assert (len (drop (length src) c) = len c - len src) as Hd by (unfold len in *; rewrite length_drop; lia).
  split; [done| | | |intros; by apply store_wf|intros; by apply store_other].
  - apply (wf_window _ (Slice _ _ _ _) a (b ++ src) (drop (length src) c)); cbn [s_arr s_off s_len s_cap]; [done|lia..].
  - rewrite Hb. apply (contents_window _ (Slice _ _ _ _) a _ (drop (length src) c)); cbn [s_arr s_off s_len]; [done|lia..].
  - rewrite Hb. apply (contents_window _ _ a _ (src ++ drop (length src) c)); [|done..]. by rewrite Hm', <- !app_assoc.
Qed.

(** ** Control messages *)

(** A control message as the kernel lays it out: header, data, padding. *)
Definition cmsg (be : bool) (level type : Z) (data pad : list Z) : list Z :=
  hdrBuf be {| h_Len := CmsgLen (len data); h_Level := level; h_Type := type |} ++ data ++ pad.
Definition padded (data pad : list Z) : Prop := SizeofCmsghdr + len data + len pad = CmsgSpace (len data).

(** The documented behaviour of [ParseOneSocketControlMessage]: it takes the first control
    message apart, and what it leaves over is shorter than its argument. *)
Class ControlLaws (be : bool) (parser : ControlParser) : Prop := {
  parse_control : forall level type data pad rest, is_u16 level -> is_u16 type -> is_u16 (len data) -> padded data pad ->
    ParseOneSocketControlMessage (cmsg be level type data pad ++ rest) =
    Some ({| h_Len := CmsgLen (len data); h_Level := level; h_Type := type |}, data, rest);
  parse_shrinks : forall control hdr data rest,
    ParseOneSocketControlMessage control = Some (hdr, data, rest) -> (length rest < length control)%nat
}.

(** The source address of an endpoint as [getSrcFromControl] leaves it. *)
Definition srcOk (be : bool) (src : list Z) : Prop :=
  src = [] \/ exists level type data pad, src = cmsg be level type data pad /\ padded data pad /\
    ((level = IPPROTO_IP /\ type = IP_PKTINFO /\ len data = SizeofInet4Pktinfo) \/
     (level = IPPROTO_IPV6 /\ type = IPV6_PKTINFO /\ len data = SizeofInet6Pktinfo)).

Lemma len_hdrBuf be h : len (hdrBuf be h) = SizeofCmsghdr.
Proof. unfold hdrBuf. rewrite !len_app, !len_native. done. Qed.
Lemma len_cmsg be level type data pad : len (cmsg be level type data pad) = SizeofCmsghdr + len data + len pad.
Proof. unfold cmsg. rewrite !len_app, len_hdrBuf. lia. Qed.

Section Parsing.
Context (be : bool) {parser : ControlParser} {laws : ControlLaws be parser}.

(** Every round takes at least a byte, so the length of the control bytes is enough fuel. *)
Lemma scan_fuel wanted f control : (length control <= f)%nat -> scanControl wanted f control = scan wanted control.
Proof.
  unfold scan. remember (length control) as k eqn:Ek. assert (length control <= k)%nat as Hk by lia. clear Ek. revert f k control Hk. 
  induction f as [|f IH]; intros [|k] control Hk Hf; [done|lia|..]; cbn [scanControl].
  - rewrite Z.gtb_ltb. destruct (Z.ltb_spec SizeofCmsghdr (len control)) as [H|]; [|done]. unfold len, SizeofCmsghdr in H. lia.
  - destruct (_ >? _); [|done]. destruct (ParseOneSocketControlMessage control) as [[[hdr data] rest]|] eqn:E; [|done].
    apply parse_shrinks in E. destruct (wanted hdr data); [done|]. apply IH; lia.
Qed.

Lemma scan_cmsg wanted level type data pad rest : is_u16 level -> is_u16 type -> is_u16 (len data) -> padded data pad -> 0 < len data ->
  scan wanted (cmsg be level type data pad ++ rest) =
  let hdr := {| h_Len := CmsgLen (len data); h_Level := level; h_Type := type |} in
  if wanted hdr data then Found hdr data else scan wanted rest.
Proof.
  intros Hl Ht Hd Hp Hpos. pose proof (len_cmsg be level type data pad) as Hlen. pose proof (len_nonneg pad).
  rewrite <- (scan_fuel wanted (S (length (cmsg be level type data pad ++ rest)))) by lia. cbn [scanControl].
  rewrite Z.gtb_ltb, (proj2 (Z.ltb_lt _ _)) by (rewrite len_app; pose proof (len_nonneg rest); lia).
  rewrite parse_control by done. cbv zeta. destruct (wanted _ data); [done|]. apply scan_fuel. rewrite length_app. lia.
Qed.
Lemma scan_nil wanted : scan wanted [] = NotFound.
Proof. done. Qed.
End Parsing.

Lemma setSrcControl_data c ep : len (srcBytes ep) <= c_cap c ->
  c_data (setSrcControl c ep) = srcBytes ep /\ c_len (setSrcControl c ep) = len (srcBytes ep) /\ c_cap (setSrcControl c ep) = c_cap c.
Proof.
  intros H. unfold setSrcControl. rewrite (proj2 (Z.ltb_ge _ _)) by done. unfold c_data, c_cap, len in *. cbn [c_mem c_len].
  rewrite length_inserts, inserts_0, Nat2Z.id, take_app_length by lia. done.
Qed.

Definition gsoControl (be : bool) (g : Z) (pad : list Z) : list Z := cmsg be SOL_UDP UDP_SEGMENT (native be 2 g) pad.
Lemma gsoPadded be g pad : len pad = 6 -> padded (native be 2 g) pad.
Proof. intros H. unfold padded. rewrite H, len_native. done. Qed.

(** The size goes behind what is there; its padding is what the pooled array held. *)
Lemma setGSOSize_data be c g : 0 <= c_len c -> c_len c + gsoControlSize <= c_cap c ->
  exists pad, len pad = 6 /\ c_data (setGSOSize be c g) = c_data c ++ gsoControl be g pad /\ c_cap (setGSOSize be c g) = c_cap c.
Proof.
  intros H0 H. assert (gsoControlSize = 24) as H24 by done. unfold setGSOSize. fold gsoControlSize. rewrite (proj2 (Z.ltb_ge _ _)) by lia. unfold c_cap in *. cbn [c_mem].
  destruct (cut_field (c_mem c) (Z.to_nat (c_len c)) 24) as (p & m & q & Em & Hp & Hm); [unfold len in *; lia|].
  set (new := hdrBuf be gsoHdr ++ native be 2 g).
  assert (length new = 18%nat) as Hn by (unfold new; pose proof (len_hdrBuf be gsoHdr); pose proof (len_native be 2 g); rewrite length_app; unfold len, SizeofCmsghdr in *; lia).
  exists (drop 18 m). split; [unfold len; rewrite length_drop; lia|]. unfold c_data. cbn [c_mem c_len]. split; [|unfold len; by rewrite length_inserts].
  rewrite Em, <- Hp, inserts_mid by (rewrite Hn, length_app; lia). rewrite take_app_length.
  replace (Z.to_nat (c_len c + gsoControlSize)) with (length p + 24)%nat by lia.
  rewrite take_app_add. f_equal. rewrite Hn, drop_app_le, app_assoc by lia.
  rewrite take_app_length' by (rewrite length_app, length_drop; lia). unfold new, gsoControl, cmsg. rewrite len_native. by rewrite <- app_assoc.
Qed.

(** ** Coalescing keeps the datagrams *)

(** The kernel's reading of a message: the size of its UDP_SEGMENT control message, 0
    without one, and the datagrams it puts on the wire. *)
Definition segmentSize (be : bool) {parser : ControlParser} (control : list Z) : Z :=
  match scan (isGSO UDP_SEGMENT) control with
  | Found _ data => nativeUint be (take 2 data)
  | _ => 0
  end.
Definition datagrams (be : bool) {parser : ControlParser} (o : outgoing) : list (list Z) :=
  let g := segmentSize be (g_control o) in if g >? 0 then pieces g (g_payload o) else [g_payload o].

Section Coalesce.
Context (be : bool) {parser : ControlParser} {laws : ControlLaws be parser}.
Context (addr : UDPAddr) (ep : StdNetEndpoint) (h0 : heap) (bufs : list bslice).

(** What a caller of Send provides: packets in arrays of their own that a single
    datagram can carry, and an endpoint whose source was received. *)
Record sendable : Prop := {
  sa_wf : Forall (wf h0) bufs;
  sa_own : NoDup (map s_arr bufs);
  sa_len : Forall (fun b => 1 <= s_len b <= maxPayloadLen ep) bufs;
  sa_src : srcOk be (srcBytes ep)
}.
Context (Hok : sendable).

(** The control array of a pooled message has room for a source and a size. *)
Definition roomy (m : Message) : Prop := stickyControlSize + gsoControlSize <= c_cap (m_OOB m).

Lemma srcOk_spec src : srcOk be src -> len src <= stickyControlSize /\ segmentSize be src = 0 /\
  forall g pad, is_u16 g -> len pad = 6 -> segmentSize be (src ++ gsoControl be g pad) = g.
Proof.
  assert (stickyControlSize = 40) as H40 by done.
  assert (forall g pad, is_u16 g -> len pad = 6 -> segmentSize be (gsoControl be g pad) = g) as Hg.
  { intros g pad Hg Hpad. unfold segmentSize. rewrite <- (app_nil_r (gsoControl be g pad)). unfold gsoControl.
    rewrite (scan_cmsg be) by (try apply gsoPadded; rewrite ?len_native; done).
    cbv zeta. replace (isGSO UDP_SEGMENT _ _) with true by (unfold isGSO; by rewrite len_native).
    rewrite take_ge by (pose proof (len_native be 2 g); unfold len in *; lia). apply nativeUint_native. width_lia. }
  intros [->|(level & type & data & pad & -> & Hp & Hk)].
  - rewrite len_nil. split; [lia|]. split; [done|]. apply Hg.
  - assert (is_u16 level /\ is_u16 type /\ is_u16 (len data) /\ 0 < len data /\ isGSO UDP_SEGMENT {| h_Len := CmsgLen (len data); h_Level := level; h_Type := type |} data = false) as (H1 & H2 & H3 & H4 & H5).
    { destruct Hk as [(-> & -> & ->)|(-> & -> & ->)]; repeat split; try done. }
    split; [rewrite len_cmsg; unfold padded in Hp; rewrite Hp; destruct Hk as [(_ & _ & ->)|(_ & _ & ->)]; vm_compute; congruence|].
    split; [|intros g p Hg' Hp']; unfold segmentSize.
    + rewrite <- (app_nil_r (cmsg _ _ _ _ _)), (scan_cmsg be) by done. cbv zeta. by rewrite H5, scan_nil.
    + rewrite (scan_cmsg be) by done. cbv zeta. rewrite H5. by apply Hg.
Qed.

(** A message that is complete: it puts the packets [g] on the wire. *)
Record final (h : heap) (g : list (list Z)) (m : Message) : Prop := {
  fi_out : exists o, outgoingOf h m = Some o /\ datagrams be o = g /\ g_to o = AddrPort addr /\
    len (g_payload o) <= maxPayloadLen ep /\ exists tail, g_control o = srcBytes ep ++ tail;
  fi_count : 1 <= len g <= udpSegmentMaxDatagrams
}.

(** The message the loop adds packets to. *)
Record current (h : heap) (g : list (list Z)) (m : Message) (c : coalescing) : Prop := {
  cu_wf : wf h (m_buf m);
  cu_contents : contents h (m_buf m) = concat g;
  cu_addr : m_Addr m = Some addr;
  cu_src : c_data (m_OOB m) = srcBytes ep /\ c_len (m_OOB m) = len (srcBytes ep) /\ roomy m;
  cu_max : len (concat g) <= maxPayloadLen ep;
  cu_gso : 1 <= co_gsoSize c <= maxPayloadLen ep;
  cu_pieces : pieces (co_gsoSize c) (concat g) = g;
  cu_end : co_endBatch c = false -> len (concat g) mod co_gsoSize c = 0;
  cu_cnt : co_dgramCnt c = len g;
  cu_count : 1 <= len g <= udpSegmentMaxDatagrams
}.

Lemma maxPayload_u16 x : 0 <= x <= maxPayloadLen ep -> is_u16 x.
Proof. unfold maxPayloadLen, is_u16. destruct (Is6 _); unfold maxIPv6PayloadLen, maxIPv4PayloadLen; lia. Qed.

Lemma current_single h g m c : current h g m c -> len g = 1 -> final h g m.
Proof.
  intros [Hwf Hc Ha (Hs & _) Hmax _ _ _ _ Hn] H1. split; [|done].
  destruct g as [|d [|d' g]]; [done| |rewrite !len_cons in H1; pose proof (len_nonneg g); lia].
  eexists. unfold outgoingOf. rewrite Ha. split; [done|]. unfold datagrams. cbn [g_control g_payload g_to].
  destruct (srcOk_spec _ (sa_src Hok)) as (_ & H0 & _). rewrite Hs, H0, Hc. simpl. rewrite app_nil_r.
  repeat split; [simpl in Hmax; by rewrite app_nil_r in Hmax|]. exists []. by rewrite app_nil_r.
Qed.

Lemma current_setGSO h g m c : current h g m c -> final h g (setGSO be (co_gsoSize c) m).
Proof.
  intros [Hwf Hc Ha (Hs & Hl & Hr) Hmax Hg Hp _ _ Hn]. split; [|done].
  destruct (srcOk_spec _ (sa_src Hok)) as (H40 & _ & Hseg).
  assert (is_u16 (co_gsoSize c)) as Hu by (apply maxPayload_u16; lia).
  destruct (setGSOSize_data be (m_OOB m) (u16 (co_gsoSize c))) as (pad & Hpad & Hd & _); [rewrite Hl; apply len_nonneg|unfold roomy in Hr; lia|].
  eexists. unfold outgoingOf, setGSO, with_OOB. cbn [m_Addr m_buf m_OOB]. rewrite Ha. split; [done|]. unfold datagrams. cbn [g_control g_payload g_to].
  rewrite Hd, Hs, Hseg, Hc by auto with width. rewrite u16_small by done. rewrite Z.gtb_ltb, (proj2 (Z.ltb_lt _ _)) by lia.
  rewrite Hp. repeat split; [done|]. by eexists.
Qed.

Lemma final_other h h' g m : contents h' (m_buf m) = contents h (m_buf m) -> final h g m -> final h' g m.
Proof. intros Hc [Ho Hn]. split; [|done]. unfold outgoingOf in *. by rewrite Hc. Qed.

(** The memory: every packet reads as it did. *)
Definition kept (h : heap) : Prop := Forall (fun b => wf h b /\ contents h b = contents h0 b) bufs.

(** The loop has dealt with the packets [done]: complete messages, the current one and
    free ones, in arrays of different packets. *)
Record coalesced (done : list bslice) (c : coalescing) : Prop := {
  cs_kept : kept (co_heap c);
  cs_done : done ⊆ bufs;
  cs_state : exists fin cur rest gs g owner,
    co_msgs c = fin ++ cur :: rest /\ co_base c = len fin /\
    Forall2 (final (co_heap c)) gs fin /\ current (co_heap c) g cur c /\
    concat gs ++ g = map (contents h0) done /\
    Forall (fun m => exists b, b ∈ done /\ s_arr (m_buf m) = s_arr b /\ b <> owner) fin /\
    owner ∈ done /\ s_arr (m_buf cur) = s_arr owner /\ s_off (m_buf cur) = s_off owner /\ s_len owner <= s_len (m_buf cur) /\
    Forall roomy rest /\ (length fin < length done)%nat
}.

(** The end of the loop: every message is complete. *)
Definition finished (done : list bslice) (c : coalescing) : Prop :=
  kept (co_heap c) /\ exists fin rest gs, co_msgs c = fin ++ rest /\ co_base c + 1 = len fin /\
    Forall2 (final (co_heap c)) gs fin /\ concat gs = map (contents h0) done.

Lemma own_arrays a b : a ∈ bufs -> b ∈ bufs -> s_arr a = s_arr b -> a = b.
Proof.
  intros (i & Hi)%list_elem_of_lookup (j & Hj)%list_elem_of_lookup He.
  assert (i = j) as ->; [|congruence]. apply (NoDup_lookup (map s_arr bufs) i j (s_arr a)); [apply Hok|..]; rewrite list_lookup_fmap, ?Hi, ?Hj; simpl; congruence.
Qed.

Lemma modMsg_mid fin m rest f i : i = len fin -> modMsg (fin ++ m :: rest) i f = Some (fin ++ f m :: rest).
Proof. intros Hi. unfold modMsg. rewrite (at_field _ _ _ _ Hi). simpl. by apply set_at_field. Qed.

(** The message that a batch starts with. *)
Definition fresh (buf : bslice) (m : Message) : Message :=
  with_Addr (Some addr) (with_buf buf (with_OOB (setSrcControl (m_OOB m) ep) m)).

Lemma fresh_current h m buf msgs base : kept h -> buf ∈ bufs -> roomy m ->
  current h [contents h0 buf] (fresh buf m)
    {| co_heap := h; co_msgs := msgs; co_base := base; co_gsoSize := s_len buf; co_dgramCnt := 1; co_endBatch := false |}.
Proof.
  intros Hk Hb Hr. pose proof (proj1 (Forall_forall _ _) Hk buf Hb) as (Hwf & Hc).
  pose proof (proj1 (Forall_forall _ _) (sa_len Hok) buf Hb) as Hl. simpl in Hl.
  assert (len (contents h0 buf) = s_len buf) as Hlen by (rewrite <- Hc; by apply contents_len).
  destruct (srcOk_spec _ (sa_src Hok)) as (H40 & _). destruct (setSrcControl_data (m_OOB m) ep) as (Hd & Hcl & Hcc); [unfold roomy in Hr; change gsoControlSize with 24 in Hr; lia|].
  assert (concat [contents h0 buf] = contents h0 buf) as Hcat by (simpl; apply app_nil_r).
  split; cbn [m_buf m_Addr m_OOB fresh with_Addr with_buf with_OOB co_gsoSize co_endBatch co_dgramCnt]; rewrite ?Hcat; try done.
  - split_and!; [done..|]. unfold roomy, fresh, with_Addr, with_buf, with_OOB. cbn [m_OOB]. by rewrite Hcc.
  - lia.
  - apply pieces_one; lia.
  - intros _. rewrite Hlen. apply Z.mod_same. lia.
Qed.

(** The invariant with a new message [m] behind complete ones. *)
Lemma start_batch done buf h fin m rest gs : kept h -> buf ∈ bufs -> buf ∉ done -> done ⊆ bufs ->
  Forall2 (final h) gs fin -> concat gs = map (contents h0) done ->
  Forall (fun m => exists b, b ∈ done /\ s_arr (m_buf m) = s_arr b) fin -> roomy m -> Forall roomy rest -> (length fin <= length done)%nat ->
  coalesced (done ++ [buf])
    {| co_heap := h; co_msgs := fin ++ fresh buf m :: rest; co_base := len fin; co_gsoSize := s_len buf; co_dgramCnt := 1; co_endBatch := false |}.
Proof.
  intros Hk Hb Hnew Hsub Hfin Hcat Harr Hm Hrest Hle. split; [done|set_solver|].
  exists fin, (fresh buf m), rest, gs, [contents h0 buf], buf. cbn [co_msgs co_base co_heap]. split_and!; try done.
  - by apply fresh_current.
  - rewrite map_app, Hcat. done.
  - eapply Forall_impl; [exact Harr|]. intros m' (b & Hb' & He). exists b. set_solver.
  - set_solver.
  - rewrite length_app. simpl. lia.
Qed.

Lemma newBatch_ok done c buf : coalesced done c -> buf ∈ bufs -> buf ∉ done -> (length done < length (co_msgs c))%nat ->
  exists c', newBatch be addr ep buf c = Some c' /\ coalesced (done ++ [buf]) c' /\ length (co_msgs c') = length (co_msgs c) /\ co_dgramCnt c' = 1.
Proof.
  intros [Hk Hsub (fin & cur & rest & gs & g & owner & Em & Eb & Hfin & Hcur & Hcat & Harr & Hown & Ha & _ & _ & Hrest & Hlt)] Hb Hnew Hlen.
  set (cur' := if co_dgramCnt c >? 1 then setGSO be (co_gsoSize c) cur else cur).
  assert (final (co_heap c) g cur') as Hf.
  { unfold cur'. rewrite (cu_cnt _ _ _ _ Hcur), Z.gtb_ltb. pose proof (cu_count _ _ _ _ Hcur). destruct (Z.ltb_spec 1 (len g)); [by apply current_setGSO|].
    eapply current_single; [done|lia]. }
  assert (m_buf cur' = m_buf cur) as Hbuf by (unfold cur'; by destruct (_ >? _)).
  rewrite Em, length_app in Hlen. simpl in Hlen. destruct rest as [|m rest]; [simpl in Hlen; lia|]. inversion Hrest; subst.
  assert ((if co_dgramCnt c >? 1 then modMsg (co_msgs c) (co_base c) (setGSO be (co_gsoSize c)) else Some (co_msgs c)) = Some ((fin ++ [cur']) ++ m :: rest)) as E1.
  { rewrite <- app_assoc. unfold cur'. destruct (_ >? _); [|by rewrite Em]. rewrite Em. by apply modMsg_mid. }
  assert (co_base c + 1 = len (fin ++ [cur'])) as Eb' by (rewrite len_app, Eb; done).
  eexists. unfold newBatch. rewrite E1. simpl. rewrite (modMsg_mid (fin ++ [cur']) m rest _ _ Eb'). simpl. split; [done|]. cbn [co_msgs co_dgramCnt].
  split; [|split; [|done]].
  - rewrite Eb'. apply (start_batch done buf _ (fin ++ [cur']) m rest (gs ++ [g])); try done.
    + by apply Forall2_app; [|constructor].
    + rewrite concat_app. simpl. by rewrite app_nil_r.
    + apply Forall_app. split; [|constructor; [|done]].
      * eapply Forall_impl; [exact Harr|]. intros ? (b & ? & ? & ?). eauto.
      * exists owner. by rewrite Hbuf.
    + rewrite length_app. simpl. lia.
  - rewrite Em, !length_app. simpl. lia.
Qed.

(** A slice that begins with another one, in the same array. *)
Lemma contents_prefix h s t : s_arr t = s_arr s -> s_off t = s_off s -> s_len t <= s_len s -> contents h t = take (Z.to_nat (s_len t)) (contents h s).
Proof. intros Ha Ho Hl. unfold contents. rewrite Ha, Ho, take_take. f_equal. lia. Qed.

(** Appending to the current message leaves the packets alone. *)
Lemma kept_append h owner s src h' s' : kept h -> owner ∈ bufs -> s_arr s = s_arr owner -> s_off s = s_off owner -> s_len owner <= s_len s ->
  appended h s src h' s' -> kept h'.
Proof.
  intros Hk Ho Ha Hoff Hl Hap. apply Forall_forall. intros b Hb. pose proof (proj1 (Forall_forall _ _) Hk b Hb) as (Hwf & Hc).
  split; [by apply Hap|]. rewrite <- Hc. destruct (decide (s_arr b = s_arr s)) as [e|]; [|by apply Hap].
  assert (b = owner) as -> by (apply own_arrays; [done..|congruence]).
  rewrite !(contents_prefix _ s owner) by congruence. by rewrite (ap_old _ _ _ _ _ Hap).
Qed.

Lemma finish_last done c : coalesced done c -> co_dgramCnt c = 1 -> finished done c.
Proof.
  intros [Hk Hsub (fin & cur & rest & gs & g & owner & Em & Eb & Hfin & Hcur & Hcat & _)] H1. split; [done|].
  exists (fin ++ [cur]), rest, (gs ++ [g]). rewrite Em, <- app_assoc, len_app, Eb. split_and!; [done..| |].
  - apply Forall2_app; [done|]. constructor; [|done]. eapply current_single; [done|]. by rewrite <- (cu_cnt _ _ _ _ Hcur).
  - rewrite concat_app. simpl. by rewrite app_nil_r.
Qed.

(** The current message with one more packet. *)
Lemma join_current h g cur c buf d h' b' : current h g cur c -> len d = s_len buf -> 1 <= s_len buf -> appended h (m_buf cur) d h' b' ->
  s_len buf + len (concat g) <= maxPayloadLen ep -> s_len buf <= co_gsoSize c -> co_dgramCnt c < udpSegmentMaxDatagrams -> co_endBatch c = false ->
  forall msgs, current h' (g ++ [d]) (with_buf b' cur)
    {| co_heap := h'; co_msgs := msgs; co_base := co_base c; co_gsoSize := co_gsoSize c; co_dgramCnt := co_dgramCnt c + 1;
       co_endBatch := if s_len buf <? co_gsoSize c then true else co_endBatch c |}.
Proof.
  intros [Hwf Hc Ha Hs Hmax Hg Hp He Hcnt Hn] Hd H1 Hap Hm Hgso Hlt Hend msgs.
  assert (concat (g ++ [d]) = concat g ++ d) as Hcat by (rewrite concat_app; simpl; by rewrite app_nil_r).
  split; cbn [m_buf m_Addr m_OOB with_buf co_gsoSize co_endBatch co_dgramCnt]; rewrite ?Hcat, ?len_app; try done.
  - by apply Hap.
  - by rewrite (ap_contents _ _ _ _ _ Hap), Hc.
  - lia.
  - rewrite pieces_snoc by (auto; lia). by rewrite Hp.
  - destruct (Z.ltb_spec (s_len buf) (co_gsoSize c)); [done|]. intros _.
    replace (len d) with (1 * co_gsoSize c) by lia. rewrite Z.mod_add by lia. by apply He.
  - rewrite Hcnt. done.
  - change (len [d]) with 1. lia.
Qed.

Lemma round_ok done c buf last : coalesced done c -> buf ∈ bufs -> buf ∉ done -> (length done < length (co_msgs c))%nat ->
  exists c', coalesceRound be addr ep false last buf c = Some c' /\ length (co_msgs c') = length (co_msgs c) /\
    if last then finished (done ++ [buf]) c' else coalesced (done ++ [buf]) c'.
Proof.
  intros Hinv Hb Hnew Hlen. pose proof Hinv as [Hk Hsub (fin & cur & rest & gs & g & owner & Em & Eb & Hfin & Hcur & Hcat & Harr & Hown & Ha & Hoff & Hol & Hrest & Hlt)].
  unfold coalesceRound. rewrite Em, (at_field _ _ _ _ Eb). cbn [mbind option_bind]. rewrite <- Em.
  destruct (_ && _ && _ && _ && _) eqn:Hcond.
  2: { destruct (newBatch_ok done c buf) as (c' & -> & Hc' & Hl & H1); [done..|]. exists c'. split; [done|]. split; [done|]. destruct last; [by apply finish_last|done]. }
  rewrite !andb_true_iff, negb_true_iff, !Z.leb_le, Z.ltb_lt in Hcond. destruct Hcond as ((((Hm & Hgso) & Hfree) & Hcnt) & Hend).
  pose proof (proj1 (Forall_forall _ _) Hk buf Hb) as (Hwfb & Hcb). pose proof (proj1 (Forall_forall _ _) (sa_len Hok) buf Hb) as Hlb. simpl in Hlb.
  pose proof (contents_len _ _ (cu_wf _ _ _ _ Hcur)) as Hlc. rewrite (cu_contents _ _ _ _ Hcur) in Hlc. pose proof (contents_len _ _ Hwfb) as Hlb'.
  pose proof (append_fits (co_heap c) (m_buf cur) (contents (co_heap c) buf) (cu_wf _ _ _ _ Hcur) ltac:(lia)) as Hap.
  destruct (append _ _ _) as [h' b']. cbn [fst snd] in Hap.
  assert (current h' (g ++ [contents h0 buf]) (with_buf b' cur)
    {| co_heap := h'; co_msgs := fin ++ with_buf b' cur :: rest; co_base := co_base c; co_gsoSize := co_gsoSize c; co_dgramCnt := co_dgramCnt c + 1;
       co_endBatch := if s_len buf <? co_gsoSize c then true else co_endBatch c |}) as Hcur'.
  { rewrite <- Hcb. eapply join_current; try done; lia. }
  assert (kept h') as Hk' by (by apply (kept_append _ owner _ _ _ _ Hk (Hsub _ Hown) Ha Hoff Hol Hap)).
  assert (Forall2 (final h') gs fin) as Hfin'.
  { apply Forall2_same_length_lookup_2; [by eapply Forall2_length|]. intros i x y Hx Hy. eapply final_other; [|by eapply Forall2_lookup_lr].
    apply Hap. pose proof (proj1 (Forall_lookup _ _) Harr i y Hy) as (b & Hbd & He & Hne). rewrite He, Ha. intros Hee. apply Hne. apply own_arrays; auto. }
  assert (concat gs ++ g ++ [contents h0 buf] = map (contents h0) (done ++ [buf])) as Hcat'.
  { rewrite map_app, <- Hcat, <- app_assoc. done. }
  assert (co_base c + 1 = len (fin ++ [cur])) as Eb' by (rewrite len_app, Eb; done).
  rewrite Em, (set_at_field _ _ _ _ _ Eb). cbn [mbind option_bind]. eexists. split; [done|]. cbn [co_msgs]. split; [rewrite !length_app; done|].
  destruct last.
  - split; [done|]. exists (fin ++ [setGSO be (co_gsoSize c) (with_buf b' cur)]), rest, (gs ++ [g ++ [contents h0 buf]]). cbn [co_msgs co_base co_heap].
    rewrite <- app_assoc, Eb', !len_app. split_and!; [done..| |].
    + apply Forall2_app; [done|]. constructor; [|done]. by apply (current_setGSO _ _ _ _ Hcur').
    + rewrite concat_app. simpl. by rewrite app_nil_r.
  - split; [done|set_solver|]. exists fin, (with_buf b' cur), rest, gs, (g ++ [contents h0 buf]), owner. cbn [co_msgs co_base co_heap]. 
    rewrite (ap_slice _ _ _ _ _ Hap). cbn [m_buf with_buf s_arr s_off s_len]. split_and!; try done; try lia.
    + by rewrite <- (ap_slice _ _ _ _ _ Hap).
    + eapply Forall_impl; [exact Harr|]. intros m (b & ? & ? & ?). exists b. set_solver.
    + set_solver.
    + rewrite length_app. lia.
Qed.

Lemma loop_ok todo : forall past c, todo <> [] -> past ++ todo = bufs -> coalesced past c -> (length bufs <= length (co_msgs c))%nat ->
  exists c', coalesceLoop be addr ep false todo c = Some c' /\ length (co_msgs c') = length (co_msgs c) /\ finished bufs c'.
Proof.
  induction todo as [|buf todo IH]; intros past c Hne Hall Hinv Hlen; [done|]. cbn [coalesceLoop].
  assert (NoDup bufs) as Hnd by (eapply NoDup_fmap_1; apply Hok). rewrite <- Hall in Hnd. apply NoDup_app in Hnd as (_ & Hdis & _).
  assert (length (past ++ buf :: todo) = length bufs) as Hl by (by rewrite Hall). rewrite length_app in Hl. simpl in Hl.
  destruct (round_ok past c buf (match todo with [] => true | _ => false end)) as (c' & -> & Hlen' & Hc'); [done|rewrite <- Hall; set_solver| |lia|].
  { intros Hin. apply (Hdis buf Hin). set_solver. }
  simpl. destruct todo as [|b todo].
  - exists c'. split; [done|]. by rewrite <- Hall.
  - destruct (IH (past ++ [buf]) c') as (c'' & -> & ? & ?); [done|by rewrite <- app_assoc|done|lia|]. exists c''. split; [done|]. split; [lia|done].
Qed.

Lemma coalesceLoop_ok msgs : Forall roomy msgs -> (length bufs <= length msgs)%nat ->
  exists c, coalesceLoop be addr ep true bufs
    {| co_heap := h0; co_msgs := msgs; co_base := -1; co_gsoSize := 0; co_dgramCnt := 0; co_endBatch := false |} = Some c /\
    length (co_msgs c) = length msgs /\ finished bufs c.
Proof.
  intros Hr Hlen. assert (kept h0) as Hk by (eapply Forall_impl; [apply (sa_wf Hok)|done]).
  assert (bufs = [] \/ exists buf todo, bufs = buf :: todo) as [E|(buf & todo & E)] by (destruct bufs; eauto).
  { rewrite E. eexists. split; [done|]. split; [done|]. split; [done|]. by exists [], msgs, []. }
  destruct msgs as [|m rest]; [rewrite E in Hlen; simpl in Hlen; lia|]. apply Forall_cons in Hr as [Hm Hrest].
  replace (coalesceLoop be addr ep true bufs) with (coalesceLoop be addr ep true (buf :: todo)) by (by rewrite E). cbn [coalesceLoop coalesceRound]. unfold newBatch. cbn [co_dgramCnt co_msgs co_base co_heap mbind option_bind Z.gtb Z.compare].
  change (-1 + 1) with (len (@nil Message)). rewrite (modMsg_mid [] m rest _ (len (@nil Message)) eq_refl). cbn [mbind option_bind].
  assert (buf ∈ bufs) as Hin by (rewrite E; set_solver).
  pose proof (start_batch [] buf h0 [] m rest [] Hk Hin ltac:(set_solver) ltac:(set_solver) ltac:(constructor) eq_refl ltac:(constructor) Hm Hrest (Nat.le_refl _)) as Hs.
  rewrite app_nil_l in Hs. unfold fresh in Hs.
  destruct todo as [|b todo].
  - eexists. split; [done|]. split; [done|]. rewrite E. by apply finish_last.
  - destruct (loop_ok (b :: todo) [buf] _ ltac:(done) (eq_sym E) Hs Hlen) as (c' & E' & Hl & Hf). exists c'. by rewrite E', Hl.
Qed.
End Coalesce.

(** C26: Coalescing a batch of packets into messages with UDP_SEGMENT sizes loses, reorders and
    alters nothing: the datagrams that the kernel cuts out of the messages are exactly the
    packets, in order; no message has more than 64 of them or more bytes than the address
    family allows, each goes to the destination and carries the source address of the
    endpoint; and although the packets are appended in place, behind the first of each
    message, every buffer of the caller still reads as before. *)
Theorem coalesce_keeps_datagrams be (parser : ControlParser) (laws : ControlLaws be parser) addr ep h bufs msgs :
  sendable be ep h bufs -> Forall roomy msgs -> (length bufs <= length msgs)%nat ->
  exists n msgs' h' out, coalesceMessages be addr ep bufs msgs h = Some (n, msgs', h') /\
    length msgs' = length msgs /\ 0 <= n <= len bufs /\
    (slice msgs' 0 n ≫= mapM (outgoingOf h')) = Some out /\
    concat (map (datagrams be) out) = map (contents h) bufs /\
    Forall (fun o => g_to o = AddrPort addr /\ len (g_payload o) <= maxPayloadLen ep /\
                     1 <= len (datagrams be o) <= udpSegmentMaxDatagrams /\ exists tail, g_control o = srcBytes ep ++ tail) out /\
    Forall (fun b => wf h' b /\ contents h' b = contents h b) bufs.
Proof.
  intros Hok Hr Hlen. destruct (coalesceLoop_ok be addr ep h bufs Hok msgs Hr Hlen) as (c & E & Hl & Hk & fin & rest & gs & Em & Eb & Hfin & Hcat).
  unfold coalesceMessages. rewrite E. cbn [mbind option_bind]. rewrite Em, Eb. rewrite Em, length_app in Hl.
  assert (exists out, mapM (outgoingOf (co_heap c)) fin = Some out /\ map (datagrams be) out = gs /\ Forall (fun o => g_to o = AddrPort addr /\ len (g_payload o) <= maxPayloadLen ep /\
                     1 <= len (datagrams be o) <= udpSegmentMaxDatagrams /\ exists tail, g_control o = srcBytes ep ++ tail) out) as (out & Ho & Hg & Hall).
  { clear -Hfin. induction Hfin as [|g m gs fin [(o & Ho & Hd & Ha & Hm & Hs) Hn] _ (out & IH & Hg & Hall)]; [by exists []|].
    exists (o :: out). simpl. rewrite Ho, IH. simpl. split; [done|]. rewrite Hd, Hg. split; [done|]. constructor; [by rewrite Hd|done]. }
  exists (len fin), (fin ++ rest), (co_heap c), out. split; [done|]. split; [by rewrite length_app|]. split_and!.
  - apply len_nonneg.
  - apply (f_equal length) in Hcat. rewrite length_map in Hcat. unfold len. rewrite <- Hcat. 
    enough (length fin <= length (concat gs))%nat by lia. clear -Hfin.
    induction Hfin as [|g m gs fin [_ Hn] _ IH]; [done|]. simpl. rewrite length_app. unfold len in Hn. lia.
  - by rewrite slice_prefix_app.
  - by rewrite Hg.
  - done.
  - done.
Qed.

(** ** Sticky sources *)

(** The two kinds of PKTINFO: level, type and size of the data. *)
Definition pktinfo (level type n : Z) : Prop :=
  (level = IPPROTO_IP /\ type = IP_PKTINFO /\ n = SizeofInet4Pktinfo) \/ (level = IPPROTO_IPV6 /\ type = IPV6_PKTINFO /\ n = SizeofInet6Pktinfo).

Lemma pktinfo_small level type n : pktinfo level type n -> is_u16 level /\ is_u16 type /\ is_u16 n /\ 0 < n.
Proof. intros [(-> & -> & ->)|(-> & -> & ->)]; done. Qed.

(** A new src: header, data and zeros. *)
Lemma putSrc_new be space hdr data z : Z.to_nat space = (16 + (length data + z))%nat ->
  c_data (putSrc be space hdr data None) = hdrBuf be hdr ++ data ++ replicate z 0.
Proof.
  intros Esp. unfold putSrc, c_data. cbn [c_mem c_len]. rewrite Esp. pose proof (len_hdrBuf be hdr) as Hh. unfold len, SizeofCmsghdr in Hh.
  rewrite (take_ge (replicate _ 0)) by (rewrite length_replicate; lia). rewrite (drop_ge (replicate _ 0)), app_nil_r by (rewrite length_replicate; lia).
  rewrite !replicate_add. change (Z.to_nat (CmsgLen 0)) with 16%nat. rewrite (inserts_0 (hdrBuf be hdr)) by (rewrite !length_app, !length_replicate; lia).
  rewrite (drop_app_length' (replicate 16 0)) by (rewrite length_replicate; lia).
  replace 16%nat with (length (hdrBuf be hdr)) by lia. rewrite inserts_mid by (rewrite length_app, !length_replicate; lia).
  rewrite (drop_app_length' (replicate (length data) 0)) by (by rewrite length_replicate).
  apply take_ge. rewrite !length_app, length_replicate. lia.
Qed.

Lemma getSrc_fresh be (parser : ControlParser) (laws : ControlLaws be parser) level type data pad rest ep :
  pktinfo level type (len data) -> padded data pad -> e_src ep = None ->
  exists zeros, padded data zeros /\
    srcBytes (getSrcFromControl be (cmsg be level type data pad ++ rest) ep) = cmsg be level type data zeros.
Proof.
  intros Hk Hp Hs. destruct (pktinfo_small _ _ _ Hk) as (H1 & H2 & H3 & H4).
  set (hdr := {| h_Len := CmsgLen (len data); h_Level := level; h_Type := type |}).
  set (size := if h_Level hdr =? IPPROTO_IP then SizeofInet4Pktinfo else SizeofInet6Pktinfo).
  assert (isPktinfo hdr data = true /\ size = len data) as (Hw & Hsz) by (unfold size; destruct Hk as [(-> & -> & ->)|(-> & -> & ->)]; done).
  assert (e_src (ClearSrc ep) = None) as Hcl by (unfold ClearSrc; by rewrite Hs).
  set (z := Z.to_nat (CmsgSpace (len data) - SizeofCmsghdr - len data)). exists (replicate z 0).
  split; [unfold padded, z, len, SizeofCmsghdr in *; rewrite length_replicate; lia|].
  unfold getSrcFromControl. rewrite (scan_cmsg be) by done. cbv zeta. fold hdr. rewrite Hw, Hcl. fold size. rewrite Hsz.
  unfold srcBytes, with_src. cbn [e_src fmap option_fmap option_map default]. apply putSrc_new. unfold z, padded, SizeofCmsghdr, len in *. lia.
Qed.

(** Sticky sources: the PKTINFO that came with a datagram is kept in the endpoint, SrcIP and
    SrcIfidx read its address and interface, and what setSrcControl puts into the control
    bytes of a message reads as the same PKTINFO, whatever the array held before. *)
Theorem sticky_roundtrip be (parser : ControlParser) (laws : ControlLaws be parser) level type data pad rest ep c :
  pktinfo level type (len data) -> padded data pad -> e_src ep = None -> stickyControlSize <= c_cap c ->
  let ep' := getSrcFromControl be (cmsg be level type data pad ++ rest) ep in
  srcOk be (srcBytes ep') /\
  scan isPktinfo (c_data (setSrcControl c ep')) = Found {| h_Len := CmsgLen (len data); h_Level := level; h_Type := type |} data /\
  (level = IPPROTO_IP -> SrcIP ep' = Some (mkAddr (take 4 (drop 4 data)) []) /\ SrcIfidx be ep' = i32 (nativeUint be (take 4 data))) /\
  (level = IPPROTO_IPV6 -> SrcIP ep' = Some (mkAddr (take 16 data) []) /\ SrcIfidx be ep' = i32 (nativeUint be (take 4 (drop 16 data)))).
Proof.
  intros Hk Hp Hs Hc ep'. destruct (getSrc_fresh be parser laws level type data pad rest ep Hk Hp Hs) as (zeros & Hz & Hsrc). fold ep' in Hsrc.
  assert (srcOk be (srcBytes ep')) as Hok by (right; exists level, type, data, zeros; done).
  pose proof (len_cmsg be level type data zeros) as Hlen. unfold padded in Hz. rewrite Hz in Hlen.
  assert (drop (Z.to_nat (CmsgLen 0)) (srcBytes ep') = data ++ zeros) as Hinfo.
  { rewrite Hsrc. unfold cmsg. apply drop_app_length'. change (Z.to_nat (CmsgLen 0)) with 16%nat. pose proof (len_hdrBuf be {| h_Len := CmsgLen (len data); h_Level := level; h_Type := type |}) as Hh. unfold SizeofCmsghdr in Hh. unfold len at 1 in Hh. lia. }
  split; [done|]. split; [|split].
  - destruct (setSrcControl_data c ep') as (-> & _); [pose proof (proj1 (srcOk_spec be _ Hok)); lia|]. rewrite Hsrc, <- (app_nil_r (cmsg _ _ _ _ _)).
    destruct (pktinfo_small _ _ _ Hk) as (? & ? & ? & ?). rewrite (scan_cmsg be) by done. cbv zeta. by destruct Hk as [(-> & -> & _)|(-> & -> & _)].
  - intros ->. destruct Hk as [(_ & _ & Hn)|(E & _)]; [|done]. unfold SrcIP, SrcIfidx. rewrite Hinfo, Hsrc, Hlen, Hn, Z.eqb_refl. change (SizeofInet4Pktinfo) with 12 in Hn. unfold len in Hn.
    rewrite !drop_app_le, !take_app_le by (rewrite ?length_drop; lia). done.
  - intros ->. destruct Hk as [(E & _)|(_ & _ & Hn)]; [done|]. unfold SrcIP, SrcIfidx. rewrite Hinfo, Hsrc, Hlen, Hn, Z.eqb_refl. change (CmsgSpace SizeofInet6Pktinfo =? CmsgSpace SizeofInet4Pktinfo) with false. cbv iota. change (SizeofInet6Pktinfo) with 20 in Hn. unfold len in Hn.
    rewrite !drop_app_le, !take_app_le by (rewrite ?length_drop; lia). done.
Qed.

(** ** A parser with these laws, and runs of the theorems *)

Definition sampleParse (be : bool) : ControlParser := fun b =>
  let l := nativeUint be (take 8 b) in
  if (len b <? SizeofCmsghdr) || (l <? SizeofCmsghdr) || (len b <? l) then None
  else Some ({| h_Len := l; h_Level := nativeUint be (take 4 (drop 8 b)); h_Type := nativeUint be (take 4 (drop 12 b)) |},
             take (Z.to_nat (l - SizeofCmsghdr)) (drop 16 b), drop (Z.to_nat ((l + 7) / 8 * 8)) b).

Lemma sampleParse_laws be : ControlLaws be (sampleParse be).
Proof.
  split; unfold ParseOneSocketControlMessage, sampleParse.
  - intros level type data pad rest Hl Ht Hd Hp. pose proof (len_nonneg pad). pose proof (len_nonneg rest). pose proof (len_nonneg data).
    assert (forall n v, length (native be n v) = n) as Hn by (intros n v; pose proof (len_native be n v); unfold len in *; lia).
    assert (cmsg be level type data pad ++ rest = native be 8 (CmsgLen (len data)) ++ native be 4 level ++ native be 4 type ++ data ++ pad ++ rest) as E
      by (unfold cmsg, hdrBuf; simpl; by rewrite <- !app_assoc).
    assert (len (cmsg be level type data pad ++ rest) = CmsgSpace (len data) + len rest) as Elen by (rewrite len_app, len_cmsg; unfold padded in Hp; lia).
    rewrite Elen, E. clear E Elen. pose proof (Hn 8%nat (CmsgLen (len data))) as L8. pose proof (Hn 4%nat level) as Ll. pose proof (Hn 4%nat type) as Lt.
    assert (nativeUint be (native be 8 (CmsgLen (len data))) = CmsgLen (len data)) as V8 by (apply nativeUint_native; unfold CmsgLen, SizeofCmsghdr; width_lia).
    assert (nativeUint be (native be 4 level) = level) as Vl by (apply nativeUint_native; width_lia).
    assert (nativeUint be (native be 4 type) = type) as Vt by (apply nativeUint_native; width_lia).
    revert L8 Ll Lt V8 Vl Vt. generalize (native be 8 (CmsgLen (len data))) as hl, (native be 4 level) as hv, (native be 4 type) as ht. intros hl hv ht L8 Ll Lt V8 Vl Vt.
    rewrite (take_app_length' hl), V8 by done. unfold padded in Hp. rewrite <- Hp. unfold CmsgLen, SizeofCmsghdr in *.
    rewrite (proj2 (Z.ltb_ge _ _)), (proj2 (Z.ltb_ge (16 + len data) 16)), (proj2 (Z.ltb_ge _ (16 + len data))) by lia. simpl orb. cbv iota.
    rewrite (drop_app_length' hl), (take_app_length' hv), Vl by done.
    rewrite (app_assoc hl hv), (drop_app_length' (hl ++ hv)), (take_app_length' ht), Vt by (rewrite ?length_app; lia).
    rewrite (app_assoc _ ht), (drop_app_length' ((hl ++ hv) ++ ht)) by (rewrite !length_app; lia).
    rewrite take_app_length' by (unfold len; lia). do 2 f_equal. rewrite (app_assoc _ data), (app_assoc _ pad). apply drop_app_length'.
    rewrite !length_app. unfold CmsgSpace, SizeofCmsghdr in Hp. replace (16 + len data + 7) with (len data + 7 + 2 * 8) by lia. rewrite Z.div_add by lia. unfold len in *. lia.
  - intros control hdr data rest. destruct (_ || _) eqn:E; [done|]. intros [= _ _ <-]. rewrite !orb_false_iff, !Z.ltb_ge in E. destruct E as ((H1 & H2) & H3).
    unfold SizeofCmsghdr in *. rewrite length_drop. set (l := nativeUint be (take 8 control)) in *. pose proof (Z.div_le_mono 16 (l + 7) 8 ltac:(lia) ltac:(lia)) as Hd. change (16 / 8) with 2 in Hd. unfold len in *. lia.
Qed.

(** Three packets of four, four and two bytes in arrays of ten. *)
Definition sampleHeap : heap := [[1;2;3;4;0;0;0;0;0;0]; [5;6;7;8;0;0;0;0;0;0]; [9;10;0;0;0;0;0;0;0;0]].
Definition sampleBufs : list bslice := [Slice 0 0 4 10; Slice 1 0 4 10; Slice 2 0 2 10].
Definition sampleEp4 : StdNetEndpoint := {| e_addr := mkAddr [10;0;0;1] []; e_port := 51820; e_src := None |}.
Definition sampleEp6 : StdNetEndpoint := {| e_addr := mkAddr [32;1;13;184;0;0;0;0;0;0;0;0;0;0;0;1] []; e_port := 51820; e_src := None |}.

Lemma sample_wf h s m : h !! s_arr s = Some m -> (0 <=? s_off s) && (0 <=? s_len s) && (s_len s <=? s_cap s) && (s_off s + s_cap s <=? len m) = true -> wf h s.
Proof. rewrite !andb_true_iff, !Z.leb_le. intros Hm (((? & ?) & ?) & ?). by exists m. Qed.
Lemma sample_sendable ep : srcBytes ep = [] -> 4 <= maxPayloadLen ep -> sendable false ep sampleHeap sampleBufs.
Proof.
  intros Hs Hm. split.
  - repeat constructor; (eapply sample_wf; [reflexivity|reflexivity]).
  - apply (bool_decide_unpack _). by vm_compute.
  - repeat constructor; simpl; lia.
  - rewrite Hs. by left.
Qed.
Lemma newMessages_roomy : Forall roomy newMessages.
Proof. apply Forall_replicate. done. Qed.

Lemma coalesce_keeps_datagrams_witness : exists n msgs h out,
  coalesceMessages false newUDPAddr sampleEp4 sampleBufs newMessages sampleHeap = Some (n, msgs, h) /\
  concat (map (@datagrams false (sampleParse false)) out) = [[1;2;3;4]; [5;6;7;8]; [9;10]].
Proof.
  destruct (coalesce_keeps_datagrams false (sampleParse false) (sampleParse_laws false) newUDPAddr sampleEp4 sampleHeap sampleBufs newMessages
    (sample_sendable sampleEp4 eq_refl ltac:(vm_compute; congruence)) newMessages_roomy ltac:(vm_compute; lia)) as (n & msgs & h & out & H1 & _ & _ & _ & H2 & _).
  exists n, msgs, h, out. split; [exact H1|]. rewrite H2. reflexivity.
Defined.

Lemma sticky_roundtrip_witness :
  let data := [3;0;0;0; 10;0;0;2; 10;0;0;2] in
  let ep := @getSrcFromControl false (sampleParse false) (cmsg false IPPROTO_IP IP_PKTINFO data [0;0;0;0] ++ []) sampleEp4 in
  SrcIP ep = Some (mkAddr [10;0;0;2] []) /\ SrcIfidx false ep = 3.
Proof.
  cbv zeta. pose proof (sticky_roundtrip false (sampleParse false) (sampleParse_laws false) IPPROTO_IP IP_PKTINFO [3;0;0;0; 10;0;0;2; 10;0;0;2] [0;0;0;0] [] sampleEp4
    {| c_mem := replicate 64 7; c_len := 0 |} (or_introl (conj eq_refl (conj eq_refl eq_refl))) eq_refl eq_refl ltac:(vm_compute; congruence)) as (_ & _ & H & _).
  destruct (H eq_refl) as [H1 H2]. split; [exact H1|]. rewrite H2. reflexivity.
Defined.
