(* ===== verification/BindRecv.v ===== *)
(** * BindRecv: what the UDP bind hands to the device

    A batch of messages that the kernel has coalesced is split in place, within the
    messages of the batch: the datagrams come out complete and in order, and the two
    messages the kernel may fill never overflow the batch. *)
From S2P Require Import Prelude GoLib NetIP DeviceState Checksum Gso Gro GroInv Bind BindSpec.
#[local] Open Scope Z_scope.

(** ** Pieces *)

Lemma pieces_cons g l : 0 < g -> l <> [] -> pieces g l = take (Z.to_nat g) l :: pieces g (drop (Z.to_nat g) l).
Proof.
  intros Hg Hl. unfold pieces. destruct l as [|x l]; [done|]. cbn [cutInto length]. f_equal.
  apply cutInto_fuel; [lia| |done]. rewrite length_drop. cbn [length]. lia.
Qed.
Lemma length_pieces g l : 0 < g -> len (pieces g l) = (len l + g - 1) / g.
Proof.
  intros Hg. remember (length l) as n eqn:En. revert l En. induction (lt_wf n) as [n _ IH]. intros l ->.
  destruct (decide (l = [])) as [->|Hl]; [symmetry; apply Z.div_small; change (len []) with 0; lia|].
  rewrite pieces_cons, len_cons by done.
  assert (0 < len l) as Hpos by (destruct l; [done|rewrite len_cons; pose proof (len_nonneg l); lia]).
  rewrite (IH (length (drop (Z.to_nat g) l))) by (try done; rewrite length_drop; unfold len in Hpos; lia).
  destruct (Z.le_gt_cases g (len l)) as [H|H].
  - assert (len (drop (Z.to_nat g) l) = len l - g) as -> by (unfold len in *; rewrite length_drop; lia).
    replace (len l + g - 1) with (len l - g + g - 1 + 1 * g) by lia. rewrite Z.div_add by lia. lia.
  - rewrite drop_ge by (unfold len in *; lia). rewrite len_nil, (Z.div_small (0 + g - 1)) by lia.
    replace (len l + g - 1) with (len l - 1 + 1 * g) by lia. rewrite Z.div_add, Z.div_small by lia. done.
Qed.

(** ** Splitting in place *)

Section Split.
Context (be : bool) {parser : ControlParser}.
Context (msgs0 : list Message) (h0 : heap).

Notation bufs0 := (map m_buf msgs0).
Context (Hwf0 : Forall (wf h0) bufs0) (Hown : NoDup (map s_arr bufs0)).

(** A slot of the batch that holds datagram [d] from [a]. *)
Definition holds (h : heap) (msgs : list Message) (j : nat) (d : list Z) (a : option UDPAddr) : Prop :=
  exists m, msgs !! j = Some m /\ m_N m = len d /\ m_Addr m = a /\ take (length d) (contents h (m_buf m)) = d.

(** The state of the loops: [ds] is delivered, the messages from [i] on are as the kernel
    left them. *)
Record split_inv (ds : list (list Z * option UDPAddr)) (i : nat) (s : splitting) : Prop := {
  sv_bufs : map m_buf (sp_msgs s) = bufs0;
  sv_control : map (fun m => (m_OOB m, m_NN m)) (sp_msgs s) = map (fun m => (m_OOB m, m_NN m)) msgs0;
  sv_wf : Forall (wf (sp_heap s)) bufs0;
  sv_n : sp_n s = len ds;
  sv_ds : forall j d a, ds !! j = Some (d, a) -> holds (sp_heap s) (sp_msgs s) j d a;
  sv_rest : forall j m, (i <= j)%nat -> msgs0 !! j = Some m ->
    sp_msgs s !! j = Some m /\ contents (sp_heap s) (m_buf m) = contents h0 (m_buf m)
}.

Lemma other_arrays (i j : nat) a b : bufs0 !! i = Some a -> bufs0 !! j = Some b -> i <> j -> s_arr a <> s_arr b.
Proof.
  intros Ha Hb Hne He. apply Hne. apply (NoDup_lookup (map s_arr bufs0) i j (s_arr a)); [done|..]; rewrite list_lookup_fmap, ?Ha, ?Hb; simpl; congruence.
Qed.

(** Copying [d] to the front of a buffer that is long enough. *)
Lemma copyInto_fits h b d : wf h b -> len d <= s_len b ->
  copyInto h b d = (store h b 0 d, len d) /\ take (length d) (contents (store h b 0 d) b) = d.
Proof.
  intros Hwf Hl. unfold copyInto. rewrite Z.min_r by lia. rewrite take_ge by (unfold len; lia). split; [done|].
  destruct (wf_inv h b Hwf) as (p & q & r & Hm & Hq & Hp & Hlq & _).
  assert (length d <= length q)%nat as Hdq by (unfold len in *; lia).
  rewrite (contents_window _ _ p (d ++ drop (length d) q) r).
  - apply take_app_length.
  - unfold store. rewrite list_lookup_alter_eq, Hm. simpl. f_equal. rewrite Z.add_0_r, Hp.
    replace (Z.to_nat (len p)) with (length p) by (unfold len; lia). rewrite inserts_mid by (rewrite length_app; lia).
    rewrite drop_app_le by lia. by rewrite <- !app_assoc.
  - done.
  - unfold len in *. rewrite length_app, length_drop. lia.
Qed.

(** One datagram goes to slot [n]; the messages behind it stay as they are. *)
Lemma deliver_slot ds i s d a dst : split_inv ds i s -> (length ds <= i)%nat -> sp_msgs s !! length ds = Some dst -> len d <= s_len (m_buf dst) ->
  let s' := {| sp_heap := store (sp_heap s) (m_buf dst) 0 d; sp_msgs := <[length ds := with_Addr a (with_N (len d) dst)]> (sp_msgs s); sp_n := sp_n s + 1 |} in
  copyInto (sp_heap s) (m_buf dst) d = (sp_heap s', len d) /\
  split_inv (ds ++ [(d, a)]) (if decide (length ds = i) then S i else i) s'.
Proof.
  intros [Hb Hc Hw Hn Hds Hrest] Hle Hdst Hd s'.
  assert (length (sp_msgs s) = length msgs0) as Hlen by (apply (f_equal length) in Hb; by rewrite !length_map in Hb).
  assert (bufs0 !! length ds = Some (m_buf dst)) as Hbd by (rewrite <- Hb, list_lookup_fmap, Hdst; done).
  pose proof (proj1 (Forall_lookup _ _) Hw _ _ Hbd) as Hwd. destruct (copyInto_fits _ _ _ Hwd Hd) as (Hcp & Htk).
  split; [done|]. split; cbn [s' sp_heap sp_msgs sp_n].
  - rewrite <- Hb. rewrite list_fmap_insert. apply list_insert_id. by rewrite list_lookup_fmap, Hdst.
  - rewrite <- Hc, list_fmap_insert. apply list_insert_id. by rewrite list_lookup_fmap, Hdst.
  - eapply Forall_impl; [exact Hw|]. intros b. apply store_wf.
  - rewrite Hn, len_app. done.
  - intros j d' a' [Hj|(Hj & (Hj0 & [= <- <-])%list_lookup_singleton_Some)]%lookup_app_Some.
    + pose proof (lookup_lt_Some _ _ _ Hj) as Hlt. destruct (Hds _ _ _ Hj) as (m & Hm & ? & ? & Ht). exists m. rewrite list_lookup_insert_ne by lia. split_and!; [done..|].
      rewrite store_other; [done|]. eapply (other_arrays j (length ds)); [by rewrite <- Hb, list_lookup_fmap, Hm|done|lia].
    + replace j with (length ds) by lia. eexists. rewrite list_lookup_insert_eq by (eapply lookup_lt_Some; done). done.
  - intros j m Hj Hm. destruct (decide (length ds = i)) as [<-|Hne]; (assert (j <> length ds) as Hjn by lia);
      (destruct (Hrest j m) as (H1 & H2); [lia|done|]); rewrite list_lookup_insert_ne by lia; (split; [done|]);
      rewrite <- H2; apply store_other; eapply (other_arrays j (length ds)); [by rewrite list_lookup_fmap, Hm|done|lia|by rewrite list_lookup_fmap, Hm|done|lia].
Qed.

Lemma split_inv_weaken ds i s : split_inv ds i s -> split_inv ds (S i) s.
Proof. intros [? ? ? ? ? Hr]. split; try done. intros j m Hj. apply Hr. lia. Qed.

(** Message [i] of the batch as the kernel left it, with payload [P]. *)
Record sourced (i : nat) (m : Message) (P : list Z) : Prop := {
  so_at : msgs0 !! i = Some m;
  so_payload : P = take (Z.to_nat (m_N m)) (contents h0 (m_buf m));
  so_N : 0 <= m_N m;
  so_fits : Forall (fun b => m_N m <= s_len b) bufs0
}.

Lemma sourced_slice i m P : sourced i m P -> wf h0 (m_buf m) /\ len P = m_N m /\ m_N m <= s_len (m_buf m) <= s_cap (m_buf m) /\ m_buf m ∈ bufs0.
Proof.
  intros [Hat -> HN Hf]. assert (bufs0 !! i = Some (m_buf m)) as Hb by (by rewrite list_lookup_fmap, Hat).
  pose proof (proj1 (Forall_lookup _ _) Hwf0 _ _ Hb) as Hw. pose proof (proj1 (Forall_lookup _ _) Hf _ _ Hb) as Hl. simpl in Hl.
  pose proof (contents_len _ _ Hw) as Hc. split; [done|]. split; [unfold len in *; rewrite length_take; lia|].
  split; [|by apply list_elem_of_lookup_2 in Hb]. destruct Hw as (? & _ & _ & ? & _). lia.
Qed.

(** The window of the current message that a round copies. *)
Lemma source_window i m P h start end_ : sourced i m P -> contents h (m_buf m) = contents h0 (m_buf m) -> 0 <= start <= end_ -> end_ <= m_N m ->
  exists src, subslice (m_buf m) start end_ = Some src /\ contents h src = take (Z.to_nat (end_ - start)) (drop (Z.to_nat start) P).
Proof.
  intros Hs Hc H1 H2. destruct (sourced_slice _ _ _ Hs) as (Hw & Hl & Hcap & _). unfold subslice. rewrite decide_True by lia. eexists. split; [done|].
  rewrite (so_payload _ _ _ Hs), <- Hc. unfold contents. cbn [s_arr s_off s_len].
  destruct Hw as (mm & _ & Ho & _). rewrite !skipn_firstn_comm, !take_take, drop_drop. f_equal; [lia|]. f_equal; lia.
Qed.

(** A round of the inner loop. *)
Lemma splitOne_round i m P g k ds s start end_ : sourced i m P -> split_inv ds i s -> (length ds <= i)%nat -> 0 <= start <= end_ -> end_ <= m_N m ->
  let d := take (Z.to_nat (end_ - start)) (drop (Z.to_nat start) P) in
  exists s' m', splitOne (Z.of_nat i) g (S k) start end_ s =
    splitOne (Z.of_nat i) g k end_ (if end_ + g >? m_N m' then m_N m' else end_ + g) s' /\
    split_inv (ds ++ [(d, m_Addr m)]) (if decide (length ds = i) then S i else i) s' /\ ((length ds < i)%nat -> m' = m).
Proof.
  intros Hs Hinv Hle H1 H2 d. destruct (sv_rest _ _ _ Hinv i m (Nat.le_refl _) (so_at _ _ _ Hs)) as (Hat & Hc).
  destruct (source_window i m P (sp_heap s) start end_ Hs Hc H1 H2) as (src & Esrc & Hsrc). fold d in Hsrc.
  destruct (sourced_slice _ _ _ Hs) as (_ & HlP & Hcap & _).
  assert (length (sp_msgs s) = length msgs0) as Hlen by (pose proof (f_equal length (sv_bufs _ _ _ Hinv)) as Hb; by rewrite !length_map in Hb).
  pose proof (lookup_lt_Some _ _ _ Hat) as Hlt.
  destruct (lookup_lt_is_Some_2 (sp_msgs s) (length ds)) as (dst & Hdst); [lia|].
  assert (bufs0 !! length ds = Some (m_buf dst)) as Hbd by (rewrite <- (sv_bufs _ _ _ Hinv), list_lookup_fmap, Hdst; done).
  pose proof (proj1 (Forall_lookup _ _) (so_fits _ _ _ Hs) _ _ Hbd) as Hfit. simpl in Hfit.
  assert (len d <= m_N m) as Hd by (unfold d, len in *; rewrite length_take, length_drop; lia).
  destruct (deliver_slot ds i s d (m_Addr m) dst Hinv Hle Hdst ltac:(lia)) as (Hcp & Hinv').
  set (s' := {| sp_heap := _ |}) in *. pose proof (sv_n _ _ _ Hinv) as Hn. unfold len in Hn.
  assert (is_Some (sp_msgs s' !! i)) as (m' & Hm') by (apply lookup_lt_is_Some_2; simpl; rewrite length_insert; lia).
  exists s', m'. split; [|split; [done|]].
  - cbn [splitOne]. rewrite Z.gtb_ltb, (proj2 (Z.ltb_ge _ _)) by lia. rewrite (at_Some _ (Z.of_nat i) m), Hn, (at_Some _ (Z.of_nat (length ds)) dst) by (rewrite ?Nat2Z.id; done || lia).
    cbn [mbind option_bind]. rewrite Esrc. cbn [mbind option_bind]. rewrite Hsrc, Hcp.
    rewrite set_at_Some by (unfold len; lia). rewrite Nat2Z.id. cbn [mbind option_bind]. 
    rewrite (at_Some _ (Z.of_nat i) m') by (rewrite ?Nat2Z.id; done || lia). cbn [mbind option_bind]. unfold s'. by rewrite Hn.
  - intros Hlti. simpl in Hm'. rewrite list_lookup_insert_ne in Hm' by lia. congruence.
Qed.

Lemma splitOne_pieces i m P g : sourced i m P -> 0 < g -> forall k ds s start end_,
  split_inv ds i s -> (length ds + k <= S i)%nat -> 0 <= start <= m_N m -> end_ = Z.min (start + g) (m_N m) ->
  k = length (pieces g (drop (Z.to_nat start) P)) ->
  exists s', splitOne (Z.of_nat i) g k start end_ s = Some (s', None) /\
    split_inv (ds ++ map (fun d => (d, m_Addr m)) (pieces g (drop (Z.to_nat start) P))) (S i) s'.
Proof.
  intros Hs Hg. destruct (sourced_slice _ _ _ Hs) as (_ & HlP & _). induction k as [|k IH]; intros ds s start end_ Hinv Hfit Hst -> Hk.
  { destruct (pieces _ _); [|done]. exists s. split; [done|]. simpl. rewrite app_nil_r. by apply split_inv_weaken. }
  assert (drop (Z.to_nat start) P <> []) as Hne by (intros E; rewrite E in Hk; done).
  rewrite pieces_cons in * by done. cbn [length map] in *. injection Hk as Hk.
  destruct (splitOne_round i m P g k ds s start (Z.min (start + g) (m_N m)) Hs Hinv) as (s' & m' & -> & Hinv' & Hm'); [lia..|].
  assert (take (Z.to_nat (Z.min (start + g) (m_N m) - start)) (drop (Z.to_nat start) P) = take (Z.to_nat g) (drop (Z.to_nat start) P)) as Hd.
  { destruct (Z.le_gt_cases (start + g) (m_N m)); [f_equal; lia|]. unfold len in *. rewrite !take_ge by (rewrite length_drop; lia). done. }
  assert (drop (Z.to_nat g) (drop (Z.to_nat start) P) = drop (Z.to_nat (Z.min (start + g) (m_N m))) P) as Hdr.
  { rewrite drop_drop. destruct (Z.le_gt_cases (start + g) (m_N m)); [f_equal; lia|]. unfold len in *. rewrite !drop_ge by lia. done. }
  rewrite Hd in Hinv'. rewrite Hdr in *. rewrite cons_middle, app_assoc. destruct k as [|k].
  - destruct (pieces _ _); [|done]. exists s'. split; [done|]. simpl. rewrite app_nil_r. case_decide; [done|by apply split_inv_weaken].
  - rewrite Hm' by lia. rewrite decide_False in Hinv' by lia. apply IH; [done|rewrite length_app; simpl; lia|lia| |done].
    rewrite Z.gtb_ltb. destruct (Z.ltb_spec (m_N m) (Z.min (start + g) (m_N m) + g)); lia.
Qed.

(** The datagrams in a message the kernel filled: its payload cut at the GRO size. *)
Definition received_pieces (g : Z) (P : list Z) : list (list Z) := if g >? 0 then pieces g P else [P].

Lemma splitOne_ok i m P g ds s : sourced i m P -> 0 <= g <= m_N m -> m_N m <> 0 -> split_inv ds i s ->
  (length ds + length (received_pieces g P) <= S i)%nat ->
  let '(num, end_) := if g >? 0 then ((m_N m + g - 1) / g, g) else (1, m_N m) in
  exists s', splitOne (Z.of_nat i) g (Z.to_nat num) 0 end_ s = Some (s', None) /\
    split_inv (ds ++ map (fun d => (d, m_Addr m)) (received_pieces g P)) (S i) s'.
Proof.
  intros Hs Hg HN Hinv Hfit. destruct (sourced_slice _ _ _ Hs) as (_ & HlP & _). pose proof (so_N _ _ _ Hs). unfold received_pieces in *.
  rewrite Z.gtb_ltb in *. destruct (Z.ltb_spec 0 g) as [Hpos|Hz].
  - apply (splitOne_pieces i m P g Hs Hpos); [done| |lia|lia|]; rewrite <- HlP, <- length_pieces, ?drop_0 by done; unfold len; rewrite ?Nat2Z.id; done.
  - destruct (splitOne_round i m P g 0 ds s 0 (m_N m) Hs Hinv) as (s' & m' & E & Hinv' & _); [simpl in Hfit; lia|lia..|].
    exists s'. change (Z.to_nat 1) with 1%nat. rewrite E. split; [done|]. rewrite Z.sub_0_r, drop_0, take_ge in Hinv' by (unfold len in HlP; lia). simpl. case_decide; [done|by apply split_inv_weaken].
Qed.

(** The reset of a message that is not the last destination. *)
Lemma reset_source ds i s : split_inv ds (S i) s -> (i < length msgs0)%nat -> (length ds <= S i)%nat ->
  exists msgs', (if negb (Z.of_nat i =? sp_n s - 1) then modMsg (sp_msgs s) (Z.of_nat i) (with_N 0) else Some (sp_msgs s)) = Some msgs' /\
    split_inv ds (S i) {| sp_heap := sp_heap s; sp_msgs := msgs'; sp_n := sp_n s |}.
Proof.
  intros Hinv Hlt Hle. pose proof (sv_n _ _ _ Hinv) as Hn. pose proof Hinv as [Hb Hc Hw _ Hds Hr]. unfold len in Hn.
  destruct (Z.eqb_spec (Z.of_nat i) (sp_n s - 1)) as [E|E]; simpl; [by exists (sp_msgs s); destruct s|].
  assert (length (sp_msgs s) = length msgs0) as Hlen by (apply (f_equal length) in Hb; by rewrite !length_map in Hb).
  destruct (lookup_lt_is_Some_2 (sp_msgs s) i) as (m & Hm); [lia|]. exists (<[i := with_N 0 m]> (sp_msgs s)).
  split; [unfold modMsg; rewrite (at_Some _ (Z.of_nat i) m) by (rewrite ?Nat2Z.id; done || lia); simpl; rewrite set_at_Some, Nat2Z.id by (unfold len; lia); done|].
  split; cbn [sp_heap sp_msgs sp_n]; try done.
  - rewrite <- Hb, list_fmap_insert. apply list_insert_id. by rewrite list_lookup_fmap, Hm.
  - rewrite <- Hc, list_fmap_insert. apply list_insert_id. by rewrite list_lookup_fmap, Hm.
  - intros j d a Hj. destruct (Hds j d a Hj) as (m' & Hm' & ?). exists m'. apply lookup_lt_Some in Hj. rewrite list_lookup_insert_ne by lia. done.
  - intros j m' Hj Hm'. rewrite list_lookup_insert_ne by lia. apply Hr; [lia|done].
Qed.

(** A message that the kernel filled, what it holds and the size in its control bytes. *)
Record source : Type := { src_msg : Message; src_payload : list Z; src_gso : Z }.
Definition src_datagrams (x : source) : list (list Z * option UDPAddr) :=
  map (fun d => (d, m_Addr (src_msg x))) (received_pieces (src_gso x) (src_payload x)).
Record source_ok (i : nat) (x : source) : Prop := {
  sk_sourced : sourced i (src_msg x) (src_payload x);
  sk_nonempty : m_N (src_msg x) <> 0;
  sk_control : (slice (c_mem (m_OOB (src_msg x))) 0 (m_NN (src_msg x)) ≫= fun control => Some (getGSOSize be control)) = Some (Ok (src_gso x));
  sk_gso : 0 <= src_gso x <= m_N (src_msg x)
}.

(** Every message has a slot for each datagram up to its own. *)
Fixpoint no_overflow (n i : nat) (xs : list source) : Prop :=
  match xs with
  | [] => True
  | x :: xs' => let n' := (n + length (src_datagrams x))%nat in (n' <= S i)%nat /\ no_overflow n' (S i) xs'
  end.
Fixpoint sources_ok (i : nat) (xs : list source) : Prop :=
  match xs with
  | [] => i = length msgs0 \/ exists m, msgs0 !! i = Some m /\ m_N m = 0
  | x :: xs' => source_ok i x /\ sources_ok (S i) xs'
  end.

Lemma batchSplit_ok xs : forall i ds s, sources_ok i xs -> no_overflow (length ds) i xs -> split_inv ds i s ->
  exists s' j, splitLoop be (length msgs0 - i) (Z.of_nat i) s = Some (s', None) /\ split_inv (ds ++ concat (map src_datagrams xs)) j s'.
Proof.
  induction xs as [|x xs IH]; intros i ds s Hok Hfit Hinv.
  - simpl. rewrite app_nil_r. exists s, i. split; [|done]. destruct Hok as [->|(m & Hm & HN)]; [by rewrite Nat.sub_diag|].
    destruct (sv_rest _ _ _ Hinv i m (Nat.le_refl _) Hm) as (Hat & _). pose proof (lookup_lt_Some _ _ _ Hm).
    destruct (length msgs0 - i)%nat eqn:E; [lia|]. cbn [splitLoop]. rewrite (at_Some _ (Z.of_nat i) m) by (rewrite ?Nat2Z.id; done || lia).
    cbn [mbind option_bind]. by rewrite HN.
  - destruct Hok as ([Hs HN Hc Hg] & Hok). destruct Hfit as [Hfit Hfits]. unfold src_datagrams in Hfit at 1. rewrite length_map in Hfit.
    pose proof (lookup_lt_Some _ _ _ (so_at _ _ _ Hs)) as Hlt. destruct (sv_rest _ _ _ Hinv i _ (Nat.le_refl _) (so_at _ _ _ Hs)) as (Hat & _).
    replace (length msgs0 - i)%nat with (S (length msgs0 - S i)) by lia. cbn [splitLoop]. rewrite (at_Some _ (Z.of_nat i) (src_msg x)) by (rewrite ?Nat2Z.id; done || lia).
    cbn [mbind option_bind]. rewrite (proj2 (Z.eqb_neq _ _) HN). destruct (slice _ 0 _) as [control|]; [|done]. cbn [mbind option_bind] in *. injection Hc as ->.
    pose proof (splitOne_ok i _ _ (src_gso x) ds s Hs Hg HN Hinv Hfit) as H1. destruct (if src_gso x >? 0 then _ else _) as [num end_].
    destruct H1 as (s1 & -> & Hinv1). cbn [mbind option_bind].
    destruct (reset_source _ i s1 Hinv1 Hlt) as (msgs' & -> & Hinv2); [rewrite length_app, length_map; done|]. cbn [mbind option_bind].
    replace (Z.of_nat i + 1) with (Z.of_nat (S i)) by lia. simpl. rewrite app_assoc. apply IH; [done| |done].
    by rewrite length_app.
Qed.

Lemma split_inv_start i : split_inv [] i {| sp_heap := h0; sp_msgs := msgs0; sp_n := 0 |}.
Proof. split; try done. Qed.
End Split.

(** Splitting a batch whose messages from [firstMsgAt] on the kernel has filled. *)
Lemma split_keeps_datagrams be (parser : ControlParser) msgs h xs (firstMsgAt : nat) :
  Forall (wf h) (map m_buf msgs) -> NoDup (map s_arr (map m_buf msgs)) ->
  sources_ok be msgs h firstMsgAt xs -> no_overflow 0 firstMsgAt xs -> (firstMsgAt <= length msgs)%nat ->
  exists s i, splitCoalescedMessages be msgs (Z.of_nat firstMsgAt) h = Some (s, None) /\
    split_inv msgs h (concat (map src_datagrams xs)) i s.
Proof.
  intros Hwf Hown Hok Hfit Hle. unfold splitCoalescedMessages. replace (Z.to_nat (len msgs - Z.of_nat firstMsgAt)) with (length msgs - firstMsgAt)%nat by (unfold len; lia).
  apply (batchSplit_ok be msgs h Hwf Hown xs firstMsgAt []); [done|done|by apply split_inv_start].
Qed.

(** ** Reading a batch *)

(** Message [m] holds what the kernel received. *)
Record filled (h : heap) (m : Message) (d : received) : Prop := {
  fl_N : m_N m = len (r_payload d);
  fl_addr : m_Addr m = Some (r_from d);
  fl_control : slice (c_mem (m_OOB m)) 0 (m_NN m) = Some (r_control d);
  fl_payload : take (length (r_payload d)) (contents h (m_buf m)) = r_payload d
}.

Lemma deliver_fits h m d : wf h (m_buf m) -> len (r_payload d) <= s_len (m_buf m) -> c_len (m_OOB m) = c_cap (m_OOB m) -> len (r_control d) <= c_cap (m_OOB m) ->
  exists m', deliver h m d = (store h (m_buf m) 0 (r_payload d), m') /\ m_buf m' = m_buf m /\ filled (store h (m_buf m) 0 (r_payload d)) m' d.
Proof.
  intros Hwf Hp Hc Hl. destruct (copyInto_fits h (m_buf m) (r_payload d) Hwf Hp) as (Hcp & Ht). unfold deliver. rewrite Hcp.
  rewrite (take_ge (r_control d)) by (unfold len in *; lia). eexists. split; [done|]. split; [done|].
  split; try done. cbn [m_OOB m_NN with_NN with_N with_Addr with_OOB c_mem]. unfold c_cap, len in *. rewrite inserts_0 by lia. apply slice_prefix_app.
Qed.

Record read_ok (h : heap) (msgs : list Message) (ds : list received) (at' : nat) (h' : heap) (msgs' : list Message) : Prop := {
  rd_bufs : map m_buf msgs' = map m_buf msgs;
  rd_wf : Forall (wf h') (map m_buf msgs);
  rd_other : forall j m, msgs !! j = Some m -> (j < at' \/ at' + length ds <= j)%nat -> msgs' !! j = Some m /\ contents h' (m_buf m) = contents h (m_buf m);
  rd_filled : forall k d, ds !! k = Some d -> exists m, msgs' !! (at' + k)%nat = Some m /\ filled h' m d
}.

Definition receivable (msgs : list Message) (d : received) : Prop :=
  Forall (fun m => len (r_payload d) <= s_len (m_buf m) /\ len (r_control d) <= c_cap (m_OOB m)) msgs.

Lemma readBatch_ok ds : forall at' msgs h, Forall (wf h) (map m_buf msgs) -> NoDup (map s_arr (map m_buf msgs)) ->
  (at' + length ds <= length msgs)%nat -> Forall (fun m => c_len (m_OOB m) = c_cap (m_OOB m)) (drop at' msgs) -> Forall (receivable (drop at' msgs)) ds ->
  exists h' msgs', readBatch h ds (Z.of_nat at') msgs = Some (h', msgs') /\ read_ok h msgs ds at' h' msgs'.
Proof.
  induction ds as [|d ds IH]; intros at' msgs h Hwf Hown Hlen Hfull Hrec.
  { exists h, msgs. split; [done|]. split; try done. }
  simpl in Hlen. destruct (lookup_lt_is_Some_2 msgs at') as (m & Hm); [lia|]. rewrite (drop_S _ _ _ Hm) in Hfull, Hrec.
  apply Forall_cons in Hfull as [Hfm Hfull]. apply Forall_cons in Hrec as [Hd Hrec]. apply Forall_cons in Hd as [[Hp Hc] Hd].
  assert (map m_buf msgs !! at' = Some (m_buf m)) as Hb by (by rewrite list_lookup_fmap, Hm).
  destruct (deliver_fits h m d (proj1 (Forall_lookup _ _) Hwf _ _ Hb) Hp Hfm Hc) as (m' & Edel & Eb & Hfill).
  cbn [readBatch]. rewrite (at_Some _ (Z.of_nat at') m) by (rewrite ?Nat2Z.id; done || lia). cbn [mbind option_bind].
  rewrite Edel, set_at_Some, Nat2Z.id by (unfold len; lia). cbn [mbind option_bind]. replace (Z.of_nat at' + 1) with (Z.of_nat (S at')) by lia.
  assert (map m_buf (<[at' := m']> msgs) = map m_buf msgs) as Ebufs by (rewrite list_fmap_insert, Eb; by apply list_insert_id).
  set (h1 := store h (m_buf m) 0 (r_payload d)) in *.
  destruct (IH (S at') (<[at' := m']> msgs) h1) as (h' & msgs' & -> & [Hb' Hw' Ho' Hf']); rewrite ?Ebufs, ?length_insert, ?drop_insert_lt by lia; try done; [|lia|..].
  { eapply Forall_impl; [exact Hwf|]. intros b. apply store_wf. }
  { eapply Forall_impl; [exact Hrec|]. intros x Hx. by apply Forall_cons in Hx as [_ Hx]. }
  exists h', msgs'. split; [done|]. rewrite Ebufs in *. split; [done|done| |].
  - intros j x Hj Hr. simpl in Hr. destruct (Ho' j x) as (H1 & H2); [rewrite list_lookup_insert_ne by lia; done|lia|]. split; [done|]. rewrite H2.
    apply store_other. eapply (other_arrays msgs Hown j at'); [by rewrite list_lookup_fmap, Hj|done|lia].
  - intros [|k] x Hk.
    + injection Hk as ->. rewrite Nat.add_0_r. destruct (Ho' at' m') as (H1 & H2); [rewrite list_lookup_insert_eq by lia; done|lia|].
      exists m'. split; [done|]. destruct Hfill as [? ? ? Hpl]. split; try done. by rewrite H2.
    + replace (at' + S k)%nat with (S at' + k)%nat by lia. by apply Hf'.
Qed.

(** ** receiveIP *)

Lemma getSrcFromControl_dst be (parser : ControlParser) control ep :
  e_addr (getSrcFromControl be control ep) = e_addr ep /\ e_port (getSrcFromControl be control ep) = e_port ep.
Proof. unfold getSrcFromControl, ClearSrc. destruct (e_src ep); destruct (scan _ _); done. Qed.

(** A message of the pool: reset, with control bytes for a source and a size. *)
Definition idle (m : Message) : Prop := m_N m = 0 /\ m_NN m = 0 /\ c_cap (m_OOB m) = stickyControlSize + gsoControlSize.
Definition batch_ok (msgs : list Message) : Prop := length msgs = IdealBatchSize /\ Forall idle msgs.
Definition pools_ok (s : StdNetBind) : Prop := Forall batch_ok (msgsPool s).

Lemma newMessages_ok : batch_ok newMessages.
Proof. split; [done|]. unfold newMessages. by apply Forall_replicate. Qed.

Lemma getMessages_ok km s msgs s' : pools_ok s -> getMessages km s = (msgs, s') -> batch_ok msgs /\ pools_ok s'.
Proof.
  unfold pools_ok, getMessages, poolGet. intros Hp. destruct (msgsPool s !! km) as [x|] eqn:E; intros [= <- <-]; cbn [with_pools msgsPool].
  - split; [by eapply Forall_lookup_1|]. apply Forall_app. split; [by apply Forall_take|by apply Forall_drop].
  - split; [apply newMessages_ok|done].
Qed.

Lemma putMessages_ok msgs s : length msgs = IdealBatchSize -> Forall (fun m => c_cap (m_OOB m) = stickyControlSize + gsoControlSize) msgs ->
  pools_ok s -> pools_ok (putMessages msgs s).
Proof.
  intros Hl Hc Hp. unfold pools_ok, putMessages. cbn [with_pools msgsPool]. constructor; [|done]. split; [by rewrite length_map|].
  apply Forall_map. eapply Forall_impl; [exact Hc|]. intros m Hm. split; [done|]. split; [done|]. apply Hm.
Qed.

(** The messages before the kernel fills them. *)
Definition pointed (m : Message) : Prop :=
  m_N m = 0 /\ m_NN m = 0 /\ c_cap (m_OOB m) = stickyControlSize + gsoControlSize /\ c_len (m_OOB m) = c_cap (m_OOB m).
Lemma pointMessages_ok bufs msgs : length bufs = length msgs -> Forall idle msgs ->
  exists ms, pointMessages bufs msgs = Some ms /\ map m_buf ms = bufs /\ Forall pointed ms.
Proof.
  revert msgs. induction bufs as [|b bufs IH]; intros [|m msgs] Hl Hi; try done; [by exists []|].
  apply Forall_cons in Hi as [(H1 & H2 & H3) Hi]. destruct (IH msgs) as (ms & E & Hb & Hp); [simpl in Hl; lia|done|].
  cbn [pointMessages]. rewrite E. eexists. split; [done|]. simpl. rewrite Hb. split; [done|]. constructor; [|done]. done.
Qed.

Section Report.
Context (be : bool) {parser : ControlParser}.

(** What the loop over the messages reports about a message. *)
Definition reported (m : Message) (size : option Z) (ep : option (option StdNetEndpoint)) : Prop :=
  size = Some (m_N m) /\
  exists a control, m_Addr m = Some a /\ slice (c_mem (m_OOB m)) 0 (m_NN m) = Some control /\
    ep = Some (Some (getSrcFromControl be control {| e_addr := (AddrPort a).1; e_port := (AddrPort a).2; e_src := None |})).

Definition reportable (m : Message) : Prop :=
  m_N m <> 0 /\ (exists a, m_Addr m = Some a) /\ exists control, slice (c_mem (m_OOB m)) 0 (m_NN m) = Some control.

Lemma report_ok got : forall (i : nat) sizes eps, Forall reportable got -> (i + length got <= length sizes)%nat -> (i + length got <= length eps)%nat ->
  exists sizes' eps', report be got (Z.of_nat i) sizes eps = Some (sizes', eps') /\
    (forall j, (j < i)%nat -> sizes' !! j = sizes !! j /\ eps' !! j = eps !! j) /\
    (forall k m, got !! k = Some m -> reported m (sizes' !! (i + k)%nat) (eps' !! (i + k)%nat)).
Proof.
  induction got as [|m got IH]; intros i sizes eps Hg Hs He; [exists sizes, eps; split; [done|]; split; done|].
  apply Forall_cons in Hg as [(HN & (a & Ha) & (control & Hc)) Hg]. simpl in Hs, He. cbn [report]. rewrite set_at_Some by (unfold len; lia).
  cbn [mbind option_bind]. rewrite (proj2 (Z.eqb_neq _ _) HN), Ha. cbn [mbind option_bind]. destruct (AddrPort a) as [addr port] eqn:Eap. rewrite Hc. cbn [mbind option_bind].
  rewrite set_at_Some, !Nat2Z.id by (unfold len; lia). cbn [mbind option_bind]. replace (Z.of_nat i + 1) with (Z.of_nat (S i)) by lia.
  destruct (IH (S i) (<[i := m_N m]> sizes) (<[i := Some (getSrcFromControl be control {| e_addr := addr; e_port := port; e_src := None |})]> eps)) as (sizes' & eps' & -> & Hlow & Hhi);
    rewrite ?length_insert; try done; try lia.
  exists sizes', eps'. split; [done|]. split.
  - intros j Hj. destruct (Hlow j) as (-> & ->); [lia|]. by rewrite !list_lookup_insert_ne by lia.
  - intros [|k] x Hk.
    + injection Hk as <-. rewrite Nat.add_0_r. destruct (Hlow i) as (-> & ->); [lia|]. rewrite !list_lookup_insert_eq by lia.
      split; [done|]. exists a, control. by rewrite Eap.
    + replace (i + S k)%nat with (S i + k)%nat by lia. by apply Hhi.
Qed.
End Report.

Lemma pieces_nonempty g l : 0 < g -> Forall (fun d => d <> []) (pieces g l).
Proof.
  intros Hg. unfold pieces. generalize (length l). intros f. revert l. induction f as [|f IH]; intros l; [constructor|]. cbn [cutInto].
  destruct l as [|x l]; constructor; [|apply IH]. destruct (Z.to_nat g) eqn:E; [lia|done].
Qed.

Section Receive.
Context (be : bool) {parser : ControlParser}.

(** A message from the kernel, with the size of its UDP_GRO control message or 0: it fits
    the buffers, and holds at most 64 datagrams, which is the limit of the kernel. *)
Record arriving (bufs : list bslice) (d : received) (g : Z) : Prop := {
  ar_payload : 1 <= len (r_payload d);
  ar_fits : Forall (fun b => len (r_payload d) <= s_len b) bufs;
  ar_control : len (r_control d) <= stickyControlSize + gsoControlSize;
  ar_size : getGSOSize be (r_control d) = Ok g;
  ar_gso : 0 <= g <= len (r_payload d);
  ar_count : len (received_pieces g (r_payload d)) <= udpSegmentMaxDatagrams
}.
(** The datagrams in a batch of such messages and where they come from. *)
Definition arrived (dgs : list (received * Z)) : list (list Z * option UDPAddr) :=
  concat (map (fun '(d, g) => map (fun p => (p, Some (r_from d))) (received_pieces g (r_payload d))) dgs).

Lemma received_nonempty bufs d g : arriving bufs d g -> Forall (fun p => p <> []) (received_pieces g (r_payload d)).
Proof.
  intros [Hp _ _ _ Hg _]. unfold received_pieces. rewrite Z.gtb_ltb. destruct (Z.ltb_spec 0 g); [by apply pieces_nonempty|].
  constructor; [|done]. intros E. rewrite E, len_nil in Hp. lia.
Qed.
Lemma arrived_nonempty bufs dgs : Forall (fun '(d, g) => arriving bufs d g) dgs -> Forall (fun '(p, a) => p <> [] /\ exists x, a = Some x) (arrived dgs).
Proof.
  induction 1 as [|[d g] dgs Hd _ IH]; [constructor|]. unfold arrived. simpl. apply Forall_app. split; [|done].
  apply Forall_map. eapply Forall_impl; [by eapply received_nonempty|]. intros p Hp. split; [done|by eexists].
Qed.

Lemma arrived_len bufs dgs : Forall (fun '(d, g) => arriving bufs d g) dgs -> (length (arrived dgs) <= 64 * length dgs)%nat.
Proof.
  induction 1 as [|[d g] dgs Hd _ IH]; [done|]. unfold arrived in *. simpl. rewrite length_app, length_map.
  pose proof (ar_count _ _ _ Hd). unfold len, udpSegmentMaxDatagrams in *. lia.
Qed.

(** The messages after ReadBatch as the sources of the split. *)
Lemma sources_from h msgs h' msgs' dgs : read_ok h msgs (map fst dgs) (length msgs - 2) h' msgs' -> (length dgs <= 2)%nat -> length msgs = IdealBatchSize ->
  Forall pointed msgs -> Forall (fun '(d, g) => arriving (map m_buf msgs) d g) dgs ->
  exists xs, sources_ok be msgs' h' (length msgs - 2) xs /\ no_overflow 0 (length msgs - 2) xs /\ concat (map src_datagrams xs) = arrived dgs.
Proof.
  intros [Hb Hw Ho Hf] Hle Hlen Hpt Har. unfold IdealBatchSize in Hlen. rewrite Hlen in *. simpl (128 - 2)%nat in *.
  assert (length msgs' = 128%nat) as Hlen' by (apply (f_equal length) in Hb; rewrite !length_map in Hb; lia).
  assert (forall k d g, dgs !! k = Some (d, g) -> exists m, source_ok be msgs' h' (126 + k) {| src_msg := m; src_payload := r_payload d; src_gso := g |} /\
    src_datagrams {| src_msg := m; src_payload := r_payload d; src_gso := g |} = map (fun p => (p, Some (r_from d))) (received_pieces g (r_payload d)) /\
    length (received_pieces g (r_payload d)) <= 64)%nat as Hsrc.
  { intros k d g Hk. pose proof (proj1 (Forall_lookup _ _) Har k _ Hk) as [H1 H2 H3 H4 H5 H6]. simpl in *.
    destruct (Hf k d) as (m & Hm & [HN Ha Hc Hp]); [by rewrite list_lookup_fmap, Hk|]. exists m. unfold src_datagrams. simpl. rewrite Ha. 
    split; [|split; [done|unfold len, udpSegmentMaxDatagrams in H6; lia]]. split; simpl; [|lia| |lia].
    - split; [done| |lia|by rewrite HN, Hb]. rewrite HN. unfold len. by rewrite Nat2Z.id, Hp.
    - rewrite Hc. simpl. by rewrite H4. }
  assert (forall k, length dgs = k -> (k < 2)%nat -> exists m, msgs' !! (126 + k)%nat = Some m /\ m_N m = 0) as Hstop.
  { intros k Hk Hlt. destruct (lookup_lt_is_Some_2 msgs (126 + k)) as (m & Hm); [lia|]. destruct (Ho _ _ Hm) as (H1 & _); [rewrite length_map; lia|].
    exists m. split; [done|]. by apply (proj1 (Forall_lookup _ _) Hpt _ _ Hm). }
  destruct dgs as [|[d1 g1] [|[d2 g2] [|]]]; [| | |simpl in Hle; lia].
  - exists []. split; [right; by apply (Hstop 0%nat); [|lia]|]. done.
  - destruct (Hsrc 0%nat d1 g1 eq_refl) as (m1 & H1 & E1 & N1). exists [{| src_msg := m1; src_payload := r_payload d1; src_gso := g1 |}].
    split; [split; [done|right; by apply (Hstop 1%nat); [|lia]]|]. cbn [no_overflow concat map arrived]. unfold arrived. simpl. rewrite E1, length_map, !app_nil_r. split; [split; [lia|done]|done].
  - destruct (Hsrc 0%nat d1 g1 eq_refl) as (m1 & H1 & E1 & N1). destruct (Hsrc 1%nat d2 g2 eq_refl) as (m2 & H2 & E2 & N2).
    exists [{| src_msg := m1; src_payload := r_payload d1; src_gso := g1 |}; {| src_msg := m2; src_payload := r_payload d2; src_gso := g2 |}].
    split; [split; [done|split; [done|left; by rewrite Hlen']]|]. cbn [no_overflow concat map]. unfold arrived. simpl. rewrite E1, E2, !length_map, !app_nil_r. split; [split; [lia|split; [lia|done]]|done].
Qed.

(** The messages that the split leaves can all be reported. *)
Lemma split_reportable msgs h ds i s : split_inv msgs h ds i s -> Forall (fun m => exists control, slice (c_mem (m_OOB m)) 0 (m_NN m) = Some control) msgs ->
  (length ds <= length msgs)%nat -> Forall (fun '(p, a) => p <> [] /\ exists x, a = Some x) ds ->
  slice (sp_msgs s) 0 (sp_n s) = Some (take (length ds) (sp_msgs s)) /\ Forall reportable (take (length ds) (sp_msgs s)).
Proof.
  intros [Hb Hc Hw Hn Hds _] Hcs Hle Hne. assert (length (sp_msgs s) = length msgs) as Hlen by (apply (f_equal length) in Hb; by rewrite !length_map in Hb).
  split; [rewrite Hn, slice_prefix by (unfold len; lia); f_equal; f_equal; unfold len; lia|].
  apply Forall_lookup. intros j m (Hj & Hlt)%lookup_take_Some. destruct (lookup_lt_is_Some_2 ds j) as ([p a] & Hpa); [lia|].
  destruct (Hds j p a Hpa) as (m' & Hm' & HN & Ha & _). rewrite Hj in Hm'. injection Hm' as <-.
  pose proof (proj1 (Forall_lookup _ _) Hne j _ Hpa) as (Hp & x & ->). split; [|split; [by exists x|]].
  - rewrite HN. destruct p; [done|rewrite len_cons; pose proof (len_nonneg p); lia].
  - assert ((fun m => (m_OOB m, m_NN m)) <$> msgs !! j = Some (m_OOB m, m_NN m)) as Hk.
    { rewrite <- list_lookup_fmap. transitivity (map (fun m => (m_OOB m, m_NN m)) (sp_msgs s) !! j); [by rewrite Hc|]. by rewrite list_lookup_fmap, Hj. }
    destruct (msgs !! j) as [m0|] eqn:E0; [|done]. simpl in Hk. injection Hk as <- <-. by apply (proj1 (Forall_lookup _ _) Hcs j m0 E0).
Qed.

Lemma split_controls msgs h ds i s : split_inv msgs h ds i s -> forall j m, sp_msgs s !! j = Some m ->
  (forall m1, msgs !! j = Some m1 -> m_NN m1 = 0) -> m_NN m = 0.
Proof.
  intros [_ Hc _ _ _ _] j m Hm H0. apply (f_equal (fun l => l !! j)) in Hc. rewrite !list_lookup_fmap, Hm in Hc. simpl in Hc.
  destruct (msgs !! j) as [m1|]; [|done]. simpl in Hc. injection Hc as _ ->. by apply H0.
Qed.

(** The control bytes after ReadBatch: those received, or none. *)
Lemma read_controls h msgs (dgs : list (received * Z)) at' h' msgs' : read_ok h msgs (map fst dgs) at' h' msgs' -> Forall pointed msgs -> (at' + length dgs <= length msgs)%nat ->
  Forall (fun m => exists control, slice (c_mem (m_OOB m)) 0 (m_NN m) = Some control) msgs' /\
  (forall j m, (j < at')%nat -> msgs' !! j = Some m -> m_NN m = 0).
Proof.
  intros [Hb _ Ho Hf] Hp Hle. assert (length msgs' = length msgs) as Hlen by (apply (f_equal length) in Hb; by rewrite !length_map in Hb).
  assert (forall j m, (j < at' \/ at' + length dgs <= j)%nat -> msgs' !! j = Some m -> m_NN m = 0) as H0.
  { intros j m Hj Hm. destruct (lookup_lt_is_Some_2 msgs j) as (m0 & Hm0); [apply lookup_lt_Some in Hm; lia|].
    destruct (Ho j m0 Hm0) as (H1 & _); [rewrite length_map; lia|]. assert (m = m0) as -> by congruence. apply (proj1 (Forall_lookup _ _) Hp _ _ Hm0). }
  split; [|intros j m Hj; apply H0; lia]. apply Forall_lookup. intros j m Hm.
  destruct (decide (j < at' \/ at' + length dgs <= j)%nat) as [Hj|Hj].
  - rewrite (H0 j m Hj Hm). eexists. by rewrite slice_prefix by (unfold len; lia).
  - destruct (lookup_lt_is_Some_2 dgs (j - at')) as ([d g] & Hd); [lia|]. destruct (Hf (j - at')%nat d) as (m' & Hm' & Hfl); [by rewrite list_lookup_fmap, Hd|].
    replace (at' + (j - at'))%nat with j in Hm' by lia. assert (m = m') as -> by congruence. eexists. apply Hfl.
Qed.
End Receive.

(** C27: What the kernel received arrives in the caller's buffers: when it fills the last two
    messages of the batch (UDP_GRO), each with at most 64 coalesced datagrams, receiveIP
    never runs over the batch and returns exactly their datagrams, in order, one per buffer
    with its size and the address it came from. The sticky source address is not among what
    it returns: an endpoint in any of the first 126 slots has none, whatever control
    messages came with the datagrams. *)
Theorem receive_datagrams be (parser : ControlParser) bufs sizes eps km dgs h s :
  pools_ok s -> length bufs = IdealBatchSize -> Forall (wf h) bufs -> NoDup (map s_arr bufs) ->
  length sizes = IdealBatchSize -> length eps = IdealBatchSize -> (length dgs <= 2)%nat -> Forall (fun '(d, g) => arriving be bufs d g) dgs ->
  exists r, receiveIP be true true bufs sizes eps km (Ok (map fst dgs)) h s = Some r /\
    rb_result r = Ok (len (arrived dgs)) /\
    forall j p a, arrived dgs !! j = Some (p, a) -> exists b ep from, bufs !! j = Some b /\ a = Some from /\
      rb_sizes r !! j = Some (len p) /\ take (length p) (contents (rb_heap r) b) = p /\
      rb_eps r !! j = Some (Some ep) /\ (e_addr ep, e_port ep) = AddrPort from /\ ((j < 126)%nat -> e_src ep = None).
Proof.
  intros Hpools Hlb Hwf Hown Hls Hle Hd2 Har. unfold receiveIP. destruct (getMessages km s) as [msgs0 s0] eqn:Eg.
  destruct (getMessages_ok _ _ _ _ Hpools Eg) as ((Hl0 & Hi0) & Hp0). destruct (pointMessages_ok bufs msgs0) as (msgs & -> & Hb & Hpt); [congruence|done|].
  cbn [mbind option_bind]. assert (length msgs = IdealBatchSize) as Hlm by (rewrite <- Hlb, <- Hb; by rewrite length_map).
  unfold IdealBatchSize in *. replace (len msgs - _) with (Z.of_nat (length msgs - 2)) by (unfold len; rewrite Hlm; done). rewrite <- Hb in *.
  destruct (readBatch_ok (map fst dgs) (length msgs - 2) msgs h) as (h1 & msgs1 & -> & Hread); [done|done|rewrite length_map; lia|apply Forall_drop; eapply Forall_impl; [exact Hpt|]; by intros m (_ & _ & _ & ?)| |].
  { apply Forall_map. eapply Forall_impl; [exact Har|]. intros [d g] [_ Hf Hc _ _ _]. simpl. apply Forall_drop, Forall_lookup. intros j m Hm.
    rewrite (proj1 (proj2 (proj2 (proj1 (Forall_lookup _ _) Hpt _ _ Hm)))). split; [|done]. apply (proj1 (Forall_lookup _ _) Hf j). by rewrite list_lookup_fmap, Hm. }
  cbn [mbind option_bind]. destruct (sources_from be _ _ _ _ _ Hread Hd2 Hlm Hpt Har) as (xs & Hok & Hno & Exs).
  destruct (read_controls _ _ _ _ _ _ Hread Hpt) as (Hcs & HNN); [lia|].
  assert (length msgs1 = length msgs) as Hl1 by (pose proof (f_equal length (rd_bufs _ _ _ _ _ _ Hread)) as H; by rewrite !length_map in H).
  destruct (split_keeps_datagrams be parser msgs1 h1 xs (length msgs - 2)) as (sp & i & -> & Hinv); [rewrite (rd_bufs _ _ _ _ _ _ Hread); apply Hread|by rewrite (rd_bufs _ _ _ _ _ _ Hread)|done|done|lia|].
  rewrite Exs in Hinv. cbn [mbind option_bind].
  assert (length (sp_msgs sp) = length msgs) as Hlsp by (pose proof (f_equal length (sv_bufs _ _ _ _ _ Hinv)) as H; rewrite !length_map in H; lia).
  pose proof (arrived_len _ _ _ Har) as Hal.
  destruct (split_reportable _ _ _ _ _ Hinv Hcs ltac:(lia) (arrived_nonempty _ _ _ Har)) as (-> & Hrep). cbn [mbind option_bind].
  destruct (report_ok be (take (length (arrived dgs)) (sp_msgs sp)) 0 sizes eps Hrep) as (sizes' & eps' & Erep & _ & Hdone); [rewrite length_take; lia..|].
  change (Z.of_nat 0) with 0 in Erep. rewrite Erep. cbn [mbind option_bind]. eexists. split; [done|]. cbn [rb_result rb_sizes rb_eps rb_heap]. rewrite (sv_n _ _ _ _ _ Hinv).
  split; [done|]. intros j p a Hj. pose proof (lookup_lt_Some _ _ _ Hj) as Hlt. destruct (sv_ds _ _ _ _ _ Hinv j p a Hj) as (m & Hm & HN & Ha & Ht).
  destruct (Hdone j m) as (Hsz & from & control & Hfrom & Hctl & Hep); [by rewrite lookup_take_lt|]. simpl in Hsz, Hep.
  exists (m_buf m), (getSrcFromControl be control {| e_addr := (AddrPort from).1; e_port := (AddrPort from).2; e_src := None |}), from. rewrite Hsz, Hep, HN. split_and!; [|congruence|done|done|done| |].
  - rewrite <- (rd_bufs _ _ _ _ _ _ Hread), <- (sv_bufs _ _ _ _ _ Hinv), list_lookup_fmap, Hm. done.
  - destruct (getSrcFromControl_dst be parser control {| e_addr := (AddrPort from).1; e_port := (AddrPort from).2; e_src := None |}) as (-> & ->). by destruct (AddrPort from).
  - intros Hj126. rewrite (split_controls _ _ _ _ _ Hinv j m Hm) in Hctl by (intros m1; apply HNN; lia).
    rewrite slice_prefix in Hctl by (unfold len; lia). by injection Hctl as <-.
Qed.

(** A batch of 128 buffers, and ten bytes that the kernel coalesced from three datagrams. *)
Definition sampleRecvHeap : heap := replicate 128 (replicate 40 0).
Definition sampleRecvBufs : list bslice := map (fun i => Slice i 0 40 40) (seq 0 128).
Definition sampleReceived : received :=
  {| r_payload := [1;2;3;4;5;6;7;8;9;10]; r_control := cmsg false SOL_UDP UDP_GRO [4;0] [0;0;0;0;0;0]; r_from := newUDPAddr |}.

Lemma sampleRecv_wf : Forall (wf sampleRecvHeap) sampleRecvBufs.
Proof.
  apply Forall_map, Forall_forall. intros i Hi%elem_of_seq. exists (replicate 40 0). split; [|done].
  apply lookup_replicate_2. simpl. lia.
Qed.
Lemma sampleRecv_own : NoDup (map s_arr sampleRecvBufs).
Proof. unfold sampleRecvBufs. rewrite map_map. cbn [s_arr]. rewrite map_id. apply NoDup_seq. Qed.
Lemma sampleRecv_arriving : @arriving false (sampleParse false) sampleRecvBufs sampleReceived 4.
Proof.
  split; try (by vm_compute).
  apply Forall_map, Forall_true. intros i. by vm_compute.
Qed.

Lemma receive_datagrams_witness : exists r,
  @receiveIP false true (sampleParse false) true sampleRecvBufs (replicate 128 0) (replicate 128 None) 0 (Ok [sampleReceived]) sampleRecvHeap NewStdNetBind = Some r /\
  rb_result r = Ok 3.
Proof.
  destruct (receive_datagrams false (sampleParse false) sampleRecvBufs (replicate 128 0) (replicate 128 None) 0 [(sampleReceived, 4)] sampleRecvHeap NewStdNetBind
    ltac:(constructor) eq_refl sampleRecv_wf sampleRecv_own eq_refl eq_refl ltac:(simpl; lia) ltac:(constructor; [exact sampleRecv_arriving|constructor])) as (r & H1 & H2 & _).
  exists r. split; [exact H1|]. rewrite H2. reflexivity.
Defined.
