(* ===== verification/BindSend.v ===== *)
(** * BindSend: what the UDP bind puts on the wire

    Send with and without segmentation offload, the retry after the kernel refuses it,
    the destination that a pooled address ends up with, and Open and Close. *)
From S2P Require Import Prelude GoLib NetIP DeviceState Checksum Gso Gro GroInv Bind BindSpec BindRecv.
#[local] Open Scope Z_scope.

(** ** The loops that hand messages to the kernel *)

Lemma slice_split {A} (l a b : list A) n : slice l 0 n = Some a -> slice l n (len l) = Some b -> l = a ++ b.
Proof.
  unfold slice. case_decide as H1; [|done]. case_decide as H2; [|done]. intros [= <-] [= <-]. rewrite Z.sub_0_r, drop_0.
  rewrite (take_ge (drop _ _)) by (rewrite length_drop; unfold len; lia). by rewrite take_drop.
Qed.

(** The kernel takes messages in order from the front, all of them when there is no error. *)
Lemma send_prefix linux answers msgs err taken rest : send linux answers msgs = Some (err, taken, rest) ->
  taken `prefix_of` msgs /\ (err = None -> taken = msgs).
Proof.
  unfold send. destruct linux.
  - revert msgs err taken rest. induction answers as [|[n [e|]] answers IH]; intros msgs err taken rest; [done|..]; cbn [writeAll].
    + intros [= <- <- <-]. split; [apply prefix_nil|done].
    + destruct (Z.eqb_spec n (len msgs)) as [->|]; [by intros [= <- <- <-]|].
      destruct (slice msgs 0 n) as [a|] eqn:Ea; [|done]. destruct (slice msgs n _) as [b|] eqn:Eb; [|done]. cbn [mbind option_bind].
      destruct (writeAll answers b) as [[[err' more] answers']|] eqn:Ew; [|done]. cbn [mbind option_bind]. intros [= <- <- <-].
      apply IH in Ew as (Hp & He). rewrite (slice_split _ _ _ _ Ea Eb). split; [by apply prefix_app|]. intros H. by rewrite (He H).
  - revert answers err taken rest. induction msgs as [|m msgs IH]; intros answers err taken rest; cbn [writeEach]; [by intros [= <- <- <-]|].
    destruct answers as [|[n [e|]] answers]; [done|intros [= <- <- <-]; split; [apply prefix_nil|done]|].
    destruct (writeEach answers msgs) as [[[err' more] answers']|] eqn:Ew; [|done]. cbn [mbind option_bind]. intros [= <- <- <-].
    apply IH in Ew as (Hp & He). split; [by apply prefix_cons|]. intros H. by rewrite (He H).
Qed.

(** The loop ends: as long as each answer takes a message or fails, it needs no more
    answers than there are messages (one if there are none). *)
Definition progress (k : Z) (a : writeAnswer) : Prop := match a with (_, Some _) => True | (n, None) => 0 <= n <= k /\ (n = 0 -> k = 0) end.
Lemma writeAll_ends (kernel : Z -> writeAnswer) : (forall k, 0 <= k -> progress k (kernel k)) -> forall msgs,
  exists answers err taken, (length answers <= max 1 (length msgs))%nat /\ writeAll answers msgs = Some (err, taken, []).
Proof.
  intros Hk msgs. remember (length msgs) as n eqn:En. revert msgs En. induction (lt_wf n) as [n _ IH]. intros msgs ->.
  pose proof (Hk (len msgs) (len_nonneg msgs)) as Hp. destruct (kernel (len msgs)) as [k [e|]] eqn:Ek.
  { exists [(k, Some e)], (Some e), []. split; [simpl; lia|done]. }
  destruct Hp as (Hr & H0). destruct (Z.eqb_spec k (len msgs)) as [->|Hne].
  { exists [(len msgs, None)], None, msgs. split; [simpl; lia|]. simpl. by rewrite Z.eqb_refl. }
  destruct (IH (length (drop (Z.to_nat k) msgs))) with (msgs := drop (Z.to_nat k) msgs) as (answers & err & taken & Hl & E); [rewrite length_drop; unfold len in *; lia|done|].
  exists ((k, None) :: answers), err, (take (Z.to_nat k) msgs ++ taken). rewrite length_drop in Hl. split; [simpl; unfold len in *; lia|].
  cbn [writeAll]. rewrite (proj2 (Z.eqb_neq _ _) Hne), slice_prefix, slice_suffix by lia. cbn [mbind option_bind]. by rewrite E.
Qed.

(** ** Control arrays keep their size *)

Definition caps (msgs : list Message) : list Z := map (fun m => c_cap (m_OOB m)) msgs.

Lemma setGSOSize_cap be c g : c_cap (setGSOSize be c g) = c_cap c.
Proof. unfold setGSOSize. case_match; [done|]. unfold c_cap, len. simpl. by rewrite length_inserts. Qed.
Lemma setSrcControl_cap c ep : c_cap (setSrcControl c ep) = c_cap c.
Proof. unfold setSrcControl. case_match; [done|]. unfold c_cap, len. cbn [c_mem]. by rewrite length_inserts. Qed.
Lemma set_at_caps msgs i m m' msgs' : at_ msgs i = Some m -> c_cap (m_OOB m') = c_cap (m_OOB m) -> set_at msgs i m' = Some msgs' -> caps msgs' = caps msgs.
Proof.
  intros Hm Hc. unfold set_at, at_ in *. repeat case_decide; try done. intros [= <-]. unfold caps. rewrite list_fmap_insert, Hc.
  apply list_insert_id. by rewrite list_lookup_fmap, Hm.
Qed.
Lemma modMsg_caps msgs i f msgs' : (forall m, c_cap (m_OOB (f m)) = c_cap (m_OOB m)) -> modMsg msgs i f = Some msgs' -> caps msgs' = caps msgs.
Proof. intros Hf. unfold modMsg. destruct (at_ msgs i) eqn:E; [|done]. simpl. eapply set_at_caps; [done|apply Hf]. Qed.

Lemma newBatch_caps be addr ep buf c c' : newBatch be addr ep buf c = Some c' -> caps (co_msgs c') = caps (co_msgs c).
Proof.
  unfold newBatch. destruct (if co_dgramCnt c >? 1 then _ else _) as [m1|] eqn:E1; [|done]. cbn [mbind option_bind].
  destruct (modMsg m1 _ _) as [m2|] eqn:E2; [|done]. cbn [mbind option_bind]. intros [= <-]. cbn [co_msgs].
  apply modMsg_caps in E2; [|intros; apply setSrcControl_cap]. rewrite E2. destruct (_ >? _); [|by injection E1 as <-].
  eapply modMsg_caps; [|exact E1]. intros. apply setGSOSize_cap.
Qed.
Lemma coalesceRound_caps be addr ep first last buf c c' : coalesceRound be addr ep first last buf c = Some c' -> caps (co_msgs c') = caps (co_msgs c).
Proof.
  unfold coalesceRound. destruct first; [apply newBatch_caps|]. destruct (at_ _ _) as [m|] eqn:Em; [|done]. cbn [mbind option_bind].
  destruct (_ && _); [|apply newBatch_caps]. destruct (append _ _ _) as [h b]. destruct (set_at _ _ _) as [msgs|] eqn:E; [|done]. cbn [mbind option_bind]. intros [= <-]. cbn [co_msgs].
  eapply set_at_caps; [done| |done]. destruct last; [apply setGSOSize_cap|done].
Qed.
Lemma coalesceMessages_caps be addr ep bufs msgs h n msgs' h' : coalesceMessages be addr ep bufs msgs h = Some (n, msgs', h') -> caps msgs' = caps msgs.
Proof.
  unfold coalesceMessages. destruct (coalesceLoop _ _ _ _ _ _) as [c|] eqn:E; [|done]. intros [= _ <- _].
  change (caps msgs) with (caps (co_msgs {| co_heap := h; co_msgs := msgs; co_base := -1; co_gsoSize := 0; co_dgramCnt := 0; co_endBatch := false |})).
  revert E. generalize true. set (c0 := {| co_heap := h |}) at 1 2. clearbody c0. revert c0. induction bufs as [|b bufs IH]; intros c0 f; cbn [coalesceLoop]; [by intros [= <-]|].
  destruct (coalesceRound _ _ _ _ _ _ _) as [c1|] eqn:E; [|done]. cbn [mbind option_bind]. intros H. apply coalesceRound_caps in E. rewrite <- E. eapply IH, H.
Qed.
Lemma caps_roomy msgs msgs' : caps msgs' = caps msgs -> Forall roomy msgs -> Forall roomy msgs'.
Proof.
  intros Hc Hr. unfold roomy in *. rewrite <- (Forall_map (fun m => c_cap (m_OOB m)) (fun x => _ <= x)) in *. unfold caps in Hc. by rewrite Hc.
Qed.

(** ** What goes on the wire *)

Lemma mapM_prefix {A B} (f : A -> option B) l k l' k' : mapM f l = Some k -> l' `prefix_of` l -> mapM f l' = Some k' -> k' `prefix_of` k.
Proof.
  intros Hl (x & ->) Hl'. apply mapM_Some in Hl as (k1 & k2 & H1 & _ & ->)%Forall2_app_inv_l. apply mapM_Some in H1. assert (k1 = k') as -> by congruence. by eexists.
Qed.
Lemma concat_prefix {A} (l k : list (list A)) : l `prefix_of` k -> concat l `prefix_of` concat k.
Proof. intros (x & ->). rewrite concat_app. by eexists. Qed.

(** The datagrams of the messages that the kernel took, out of those it was offered. *)
Lemma taken_datagrams be (parser : ControlParser) linux answers h msgs out err taken rest wire :
  mapM (outgoingOf h) msgs = Some out -> send linux answers msgs = Some (err, taken, rest) -> mapM (outgoingOf h) taken = Some wire ->
  wire `prefix_of` out /\ concat (map (datagrams be) wire) `prefix_of` concat (map (datagrams be) out) /\ (err = None -> wire = out).
Proof.
  intros Ho Hs Hw. destruct (send_prefix _ _ _ _ _ _ Hs) as (Hp & He). pose proof (mapM_prefix _ _ _ _ _ Ho Hp Hw) as Hpre. split; [done|]. split.
  - apply concat_prefix. destruct Hpre as (x & ->). rewrite map_app. by eexists.
  - intros H. rewrite (He H) in Hw. congruence.
Qed.

Section Sending.
Context (be linux : bool) {parser : ControlParser} {laws : ControlLaws be parser}.

Lemma plainMessages_ok ua ep h bufs msgs : srcOk be (srcBytes ep) -> Forall roomy msgs -> (length bufs <= length msgs)%nat ->
  exists om rest out, plainMessages ua ep bufs msgs = Some (om ++ rest) /\ length om = length bufs /\ caps (om ++ rest) = caps msgs /\
    mapM (outgoingOf h) om = Some out /\ concat (map (datagrams be) out) = map (contents h) bufs /\ Forall (fun o => g_to o = AddrPort ua) out.
Proof.
  intros Hsrc. destruct (srcOk_spec be _ Hsrc) as (H40 & H0 & _). revert msgs.
  induction bufs as [|b bufs IH]; intros msgs Hr Hl; [by exists [], msgs, []|]. destruct msgs as [|m msgs]; [simpl in Hl; lia|].
  apply Forall_cons in Hr as [Hm Hr]. destruct (IH msgs Hr) as (om & rest & out & E & Hlen & Hc & Ho & Hd & Ha); [simpl in Hl; lia|].
  cbn [plainMessages]. rewrite E. cbn [mbind option_bind]. set (m' := with_OOB _ _).
  assert (c_data (m_OOB m') = srcBytes ep /\ c_cap (m_OOB m') = c_cap (m_OOB m)) as (Hcd & Hcc).
  { destruct (setSrcControl_data (m_OOB m) ep) as (? & _ & ?); [unfold roomy in Hm; change gsoControlSize with 24 in Hm; lia|]. done. }
  set (o := {| g_to := AddrPort ua; g_payload := contents h b; g_control := srcBytes ep |}).
  assert (outgoingOf h m' = Some o) as Hm' by (unfold outgoingOf; rewrite Hcd; done).
  exists (m' :: om), rest, (o :: out). split; [done|]. split; [simpl; by rewrite Hlen|]. split; [unfold caps in *; cbn [map app]; by rewrite Hc, Hcc|].
  split; [apply mapM_Some; apply mapM_Some in Ho; by constructor|]. split; [|by constructor]. cbn [map concat]. rewrite Hd. unfold datagrams at 1. cbn [o g_control g_payload].
  by rewrite H0.
Qed.

Lemma plainSend_ok ua ep bufs msgs h answers err wire msgs' : srcOk be (srcBytes ep) -> Forall roomy msgs -> (length bufs <= length msgs)%nat ->
  plainSend linux ua ep bufs msgs h answers = Some (err, wire, msgs') ->
  concat (map (datagrams be) wire) `prefix_of` map (contents h) bufs /\ (err = None -> concat (map (datagrams be) wire) = map (contents h) bufs) /\
  Forall (fun o => g_to o = AddrPort ua) wire /\ caps msgs' = caps msgs.
Proof.
  intros Hsrc Hr Hl. destruct (plainMessages_ok ua ep h bufs msgs Hsrc Hr Hl) as (om & rest & out & E & Hlen & Hc & Ho & Hd & Ha).
  unfold plainSend. rewrite E. cbn [mbind option_bind]. replace (len bufs) with (len om) by (unfold len; lia). rewrite slice_prefix_app. cbn [mbind option_bind].
  destruct (send linux answers om) as [[[e taken] left]|] eqn:Es; [|done]. cbn [mbind option_bind].
  destruct (mapM (outgoingOf h) taken) as [w|] eqn:Ew; [|done]. cbn [mbind option_bind]. intros [= <- <- <-].
  destruct (taken_datagrams be parser _ _ _ _ _ _ _ _ _ Ho Es Ew) as (Hp & Hpre & He). rewrite Hd in Hpre. split_and!; [done| | |done].
  - intros H. by rewrite (He H).
  - destruct Hp as (x & ->). by apply Forall_app in Ha as [? _].
Qed.
End Sending.

(** The part of the bind that a Send uses. *)
Definition usable (ep : StdNetEndpoint) (s : StdNetBind) : Prop :=
  (if Is6 (DstIP ep) then blackhole6 s else blackhole4 s) = false /\
  exists sk, (if Is6 (DstIP ep) then ipv6 s else ipv4 s) = Some sk.
(** The packets that Send has put on the wire, by the error it returns: [first] by the
    attempt with offload, [second] by the one without. *)
Definition sent_by (err : option bindError) (packets first second : list (list Z)) : Prop :=
  match err with
  | None => (first = packets /\ second = []) \/ (first = [] /\ second = packets)
  | Some (ErrUDPGSODisabled None) => second = packets
  | Some _ => True
  end.

Lemma batch_roomy msgs : batch_ok msgs -> Forall roomy msgs.
Proof. intros [_ H]. eapply Forall_impl; [exact H|]. intros m (_ & _ & Hc). unfold roomy. lia. Qed.

Lemma caps_pools msgs msgs' s : batch_ok msgs -> caps msgs' = caps msgs -> pools_ok s -> pools_ok (putMessages msgs' s).
Proof.
  intros [Hl Hi] Hc Hp. apply putMessages_ok; [apply (f_equal length) in Hc; unfold caps in Hc; rewrite !length_map in Hc; lia| |done].
  rewrite <- (Forall_map (fun m => c_cap (m_OOB m)) (fun x => x = _)). fold (caps msgs'). rewrite Hc. apply Forall_map. eapply Forall_impl; [exact Hi|]. by intros m (_ & _ & ?).
Qed.

(** What a finished Send leaves: the wire, the buffers, and the pools. *)
Record send_done (be : bool) (parser : ControlParser) (ep : StdNetEndpoint) (bufs : list bslice) (ua : UDPAddr) (h : heap) (s : StdNetBind) (r : sent) : Prop := {
  sn_wire : exists first second, concat (map (datagrams be) (sd_wire r)) = first ++ second /\
    first `prefix_of` map (contents h) bufs /\ second `prefix_of` map (contents h) bufs /\ sent_by (sd_err r) (map (contents h) bufs) first second;
  sn_to : Forall (fun o => g_to o = AddrPort ua) (sd_wire r);
  sn_kept : Forall (fun b => contents (sd_heap r) b = contents h b) bufs;
  sn_pool : pools_ok (sd_bind r) /\ exists addrs, udpAddrPool (sd_bind r) = ua :: addrs;
  sn_offload : forall e, sd_err r = Some (ErrUDPGSODisabled e) -> (if Is6 (DstIP ep) then ipv6TxOffload (sd_bind r) else ipv4TxOffload (sd_bind r)) = false;
  sn_usable : forall ep', usable ep' s -> usable ep' (sd_bind r)
}.

Section Sends.
Context (be linux : bool) {parser : ControlParser} {laws : ControlLaws be parser}.

Lemma getMessages_fields km s msgs s' : getMessages km s = (msgs, s') ->
  udpAddrPool s' = udpAddrPool s /\ (forall ep, usable ep s -> usable ep s') /\
  ipv4TxOffload s' = ipv4TxOffload s /\ ipv6TxOffload s' = ipv6TxOffload s.
Proof. unfold getMessages. destruct (poolGet _ _ _) as [m pool]. by intros [= <- <-]. Qed.

Lemma offloadSend_ok ua ep bufs msgs h answers err wire msgs' h' retried : sendable be ep h bufs -> Forall roomy msgs -> (length bufs <= length msgs)%nat ->
  offloadSend be linux ua ep bufs msgs h answers = Some (err, wire, msgs', h', retried) ->
  (exists first second, concat (map (datagrams be) wire) = first ++ second /\
    first `prefix_of` map (contents h) bufs /\ second `prefix_of` map (contents h) bufs /\ sent_by err (map (contents h) bufs) first second) /\
  Forall (fun o => g_to o = AddrPort ua) wire /\ Forall (fun b => contents h' b = contents h b) bufs /\ caps msgs' = caps msgs /\
  (forall e, err = Some (ErrUDPGSODisabled e) -> retried = true).
Proof.
  intros Hok Hr Hlm. destruct (coalesce_keeps_datagrams be parser laws ua ep h bufs msgs Hok Hr Hlm) as (n & ms & h1 & out & Eco & Hl' & _ & Hout & Hdg & Hfa & Hk).
  unfold offloadSend. rewrite Eco. cbn [mbind option_bind]. apply coalesceMessages_caps in Eco as Hc. destruct (slice ms 0 n) as [om|]; [|done]. cbn [mbind option_bind] in *.
  destruct (send linux answers om) as [[[e taken] answers']|] eqn:Es; [|done]. cbn [mbind option_bind].
  destruct (mapM (outgoingOf h1) taken) as [w|] eqn:Ew; [|done]. cbn [mbind option_bind].
  destruct (taken_datagrams be parser _ _ _ _ _ _ _ _ _ Hout Es Ew) as (Hpw & Hpre & Hall). rewrite Hdg in Hpre.
  assert (Forall (fun o => g_to o = AddrPort ua) w) as Hto.
  { destruct Hpw as (x & ->). apply Forall_app in Hfa as [Hfa _]. eapply Forall_impl; [exact Hfa|]. by intros o (? & _). }
  assert (Forall (fun b => contents h1 b = contents h b) bufs) as Hk' by (eapply Forall_impl; [exact Hk|]; by intros b (_ & ?)).
  assert (map (contents h1) bufs = map (contents h) bufs) as Hmap by (by apply map_ext_Forall).
  destruct e as [e|]; [destruct (errShouldDisableUDPGSO e)|].
  - destruct (plainSend _ _ _ _ _ _ _) as [[[err' wire'] ms']|] eqn:Ep; [|done]. cbn [mbind option_bind]. intros [= <- <- <- <- <-].
    assert (length bufs <= length ms)%nat as Hlm' by lia. destruct (plainSend_ok be linux _ _ _ _ _ _ _ _ _ (sa_src _ _ _ _ Hok) (caps_roomy _ _ Hc Hr) Hlm' Ep) as (Hpre' & Hall' & Hto' & Hc').
    rewrite Hmap in *. split_and!; [|by apply Forall_app|done|by rewrite Hc'|done].
    exists (concat (map (datagrams be) w)), (concat (map (datagrams be) wire')). rewrite map_app, concat_app. split_and!; try done. destruct err'; [done|]. by apply Hall'.
  - intros [= <- <- <- <- <-]. split_and!; try done. exists (concat (map (datagrams be) w)), []. rewrite app_nil_r. split_and!; [done|done|apply prefix_nil|done].
  - intros [= <- <- <- <- <-]. rewrite (Hall eq_refl) in *. split_and!; try done. exists (map (contents h) bufs), []. rewrite app_nil_r. split_and!; [done|done|apply prefix_nil|by left].
Qed.

Lemma Send_done bufs ep km ka answers h s r : sendable be ep h bufs -> pools_ok s -> (length bufs <= IdealBatchSize)%nat -> usable ep s ->
  Send be linux bufs ep km ka answers h s = Some r ->
  exists ua, fillAddr ep (poolGet newUDPAddr ka (udpAddrPool s)).1 = Some ua /\ send_done be parser ep bufs ua h s r.
Proof.
  intros Hok Hpools Hlen Hus. pose proof Hus as (Hbl & sk & Hsk). unfold Send. rewrite Hbl, Hsk.
  destruct (getMessages km s) as [msgs s0] eqn:Eg. destruct (getMessages_ok _ _ _ _ Hpools Eg) as (Hb & Hp0). destruct (getMessages_fields _ _ _ _ Eg) as (-> & Hus0 & _).
  destruct (poolGet newUDPAddr ka (udpAddrPool s)) as [ua0 addrs]. cbn [fst]. destruct (fillAddr ep ua0) as [ua|]; [|done]. cbn [mbind option_bind].
  pose proof (batch_roomy _ Hb) as Hr. assert (length bufs <= length msgs)%nat as Hlm by (destruct Hb as [-> _]; done).
  destruct (if Is6 _ then ipv6TxOffload s else _).
  - destruct (offloadSend _ _ _ _ _ _ _ _) as [[[[[err wire] msgs'] h'] retried]|] eqn:Eo; [|done]. cbn [mbind option_bind]. intros [= <-]. exists ua. split; [done|].
    destruct (offloadSend_ok _ _ _ _ _ _ _ _ _ _ _ Hok Hr Hlm Eo) as (Hw & Hto & Hk & Hc & Hret). split; cbn [sd_wire sd_err sd_heap sd_bind]; try done.
    + destruct retried; (split; [by eapply caps_pools|by eexists]).
    + intros e He. rewrite (Hret e He). unfold clearTxOffload. by destruct (Is6 _).
    + by destruct retried.
  - destruct (plainSend _ _ _ _ _ _ _) as [[[err wire] msgs']|] eqn:Ep; [|done]. cbn [mbind option_bind]. intros [= <-]. exists ua. split; [done|].
    destruct (plainSend_ok be linux _ _ _ _ _ _ _ _ _ (sa_src _ _ _ _ Hok) Hr Hlm Ep) as (Hpre & Hall & Hto & Hc). split; cbn [sd_wire sd_err sd_heap sd_bind]; try done.
    + exists [], (concat (map (datagrams be) wire)). split_and!; [done|apply prefix_nil|done|]. destruct err as [e|]; [done|]. right. by rewrite Hall.
    + by apply Forall_true.
    + split; [by eapply caps_pools|by eexists].
    + by destruct err.
Qed.
End Sends.

(** ** The destination in a pooled address *)

(** The bytes of the address after [fillAddr]: as many of the destination as the slice was
    long, then what the array held. *)
Lemma fillAddr_bytes ep ua0 ua : fillAddr ep ua0 = Some ua -> 0 <= c_len (ua_IP ua0) ->
  let n := if Is6 (DstIP ep) then 16 else 4 in let k := Z.to_nat (Z.min (c_len (ua_IP ua0)) n) in
  len (ad_bytes (DstIP ep)) = n /\ c_cap (ua_IP ua) = c_cap (ua_IP ua0) /\ c_len (ua_IP ua) = n /\
  c_mem (ua_IP ua) = take k (ad_bytes (DstIP ep)) ++ drop k (c_mem (ua_IP ua0)) /\
  ad_bytes (AddrPort ua).1 = take k (ad_bytes (DstIP ep)) ++ drop k (take (Z.to_nat n) (c_mem (ua_IP ua0))) /\
  (AddrPort ua).2 = u16 (e_port ep).
Proof.
  intros H H0. unfold fillAddr in H. cbv zeta. set (n := if Is6 (DstIP ep) then 16 else 4) in *. assert (n = 16 \/ n = 4) as Hn by (unfold n; destruct (Is6 _); auto).
  destruct (Z.eqb_spec (len (ad_bytes (DstIP ep))) n) as [Hl|]; [|done]. simpl in H. destruct (Z.ltb_spec (c_cap (ua_IP ua0)) n) as [|Hcap]; [done|]. injection H as <-.
  unfold AddrPort, c_data, c_cap in *. cbn [ua_IP ua_Port c_mem c_len fst snd ad_bytes]. set (k := Z.to_nat (Z.min (c_len (ua_IP ua0)) n)).
  assert (length (take k (ad_bytes (DstIP ep))) = k) as Hk by (rewrite length_take; unfold len in *; lia).
  rewrite inserts_0 by (rewrite Hk; unfold len in *; lia). rewrite Hk. split; [done|]. split; [unfold len in *; rewrite length_app, length_drop, Hk; lia|].
  split_and!; try done. rewrite take_app_ge by (rewrite Hk; lia). f_equal. rewrite Hk, skipn_firstn_comm. f_equal.
Qed.

(** Pooled addresses have room for both families; the length is that of the last use. *)
Definition addr_ok (ua : UDPAddr) : Prop := c_cap (ua_IP ua) = 16 /\ (c_len (ua_IP ua) = 16 \/ c_len (ua_IP ua) = 4).

Section Wire.
Context (be linux : bool) {parser : ControlParser} {laws : ControlLaws be parser}.

(** C28: A Send that the kernel does not refuse puts exactly the given packets on the wire, in
    order, with and without segmentation offload. When the kernel cannot offload, offload
    is switched off and everything is sent again without it: the packets arrive complete
    and in order behind those the first attempt had already sent, the error names the
    retry, and coalescing in place has not touched the caller's buffers. Every datagram
    goes to the destination, provided the pooled address was last used for a destination
    of the same family or is new. *)
Theorem send_delivers bufs ep km ka answers h s r :
  sendable be ep h bufs -> pools_ok s -> (length bufs <= IdealBatchSize)%nat -> usable ep s ->
  Send be linux bufs ep km ka answers h s = Some r ->
  (exists first second, concat (map (datagrams be) (sd_wire r)) = first ++ second /\
    first `prefix_of` map (contents h) bufs /\ second `prefix_of` map (contents h) bufs /\
    (sd_err r = None -> first ++ second = map (contents h) bufs) /\
    (sd_err r = Some (ErrUDPGSODisabled None) -> second = map (contents h) bufs)) /\
  (forall e, sd_err r = Some (ErrUDPGSODisabled e) -> (if Is6 (DstIP ep) then ipv6TxOffload (sd_bind r) else ipv4TxOffload (sd_bind r)) = false) /\
  Forall (fun b => contents (sd_heap r) b = contents h b) bufs /\
  let ua0 := (poolGet newUDPAddr ka (udpAddrPool s)).1 in
  (addr_ok ua0 -> (if Is6 (DstIP ep) then c_len (ua_IP ua0) = 16 else True) ->
   Forall (fun o => ad_bytes (g_to o).1 = ad_bytes (DstIP ep) /\ (g_to o).2 = u16 (e_port ep)) (sd_wire r)).
Proof.
  intros Hok Hp Hl Hus HS. destruct (Send_done be linux bufs ep km ka answers h s r Hok Hp Hl Hus HS) as (ua & Hfa & [(first & second & Hw & H1 & H2 & Hby) Hto Hk _ Hoff _]).
  split; [|split; [done|split; [done|]]].
  - exists first, second. split_and!; try done; intros E; rewrite E in Hby; simpl in Hby; [|done]. destruct Hby as [(-> & ->)|(-> & ->)]; [apply app_nil_r|done].
  - intros ua0 (Hcap & Hlen) Hsame. assert (0 <= c_len (ua_IP ua0)) as H0 by lia. destruct (fillAddr_bytes ep ua0 ua Hfa H0) as (Hn & _ & _ & _ & Hb & Hport).
    eapply Forall_impl; [exact Hto|]. intros o ->. split; [|done]. rewrite Hb. unfold c_cap, len in *.
    destruct (Is6 (DstIP ep)); rewrite (take_ge (ad_bytes _)), drop_ge, app_nil_r by (rewrite ?length_take; lia); done.
Qed.

(** An address that was used for an IPv4 destination keeps its length of four bytes in
    the pool, and a later Send to an IPv6 destination copies only four bytes into it: all
    of its datagrams go to an address whose last twelve bytes are whatever the array held,
    zero when the array is new. *)
Theorem stale_destination bufs4 bufs6 ep4 ep6 km4 ka4 km6 answers4 answers6 h s r4 r6 :
  sendable be ep4 h bufs4 -> sendable be ep6 (sd_heap r4) bufs6 -> pools_ok s -> (length bufs4 <= IdealBatchSize)%nat -> (length bufs6 <= IdealBatchSize)%nat ->
  usable ep4 s -> usable ep6 s -> Is6 (DstIP ep4) = false -> Is6 (DstIP ep6) = true -> udpAddrPool s = [] ->
  Send be linux bufs4 ep4 km4 ka4 answers4 h s = Some r4 -> Send be linux bufs6 ep6 km6 0 answers6 (sd_heap r4) (sd_bind r4) = Some r6 ->
  Forall (fun o => ad_bytes (g_to o).1 = take 4 (ad_bytes (DstIP ep6)) ++ replicate 12 0) (sd_wire r6).
Proof.
  intros Hok4 Hok6 Hp Hl4 Hl6 Hu4 Hu6 H4 H6 Hempty HS4 HS6.
  destruct (Send_done be linux _ _ _ _ _ _ _ _ Hok4 Hp Hl4 Hu4 HS4) as (ua4 & Hfa4 & [_ _ _ (Hp4 & addrs & Epool) _ Hus]).
  destruct (Send_done be linux _ _ _ _ _ _ _ _ Hok6 Hp4 Hl6 (Hus _ Hu6) HS6) as (ua6 & Hfa6 & [_ Hto _ _ _ _]).
  rewrite Hempty in Hfa4. rewrite Epool in Hfa6. unfold poolGet in Hfa4, Hfa6. simpl in Hfa4, Hfa6.
  destruct (fillAddr_bytes _ _ _ Hfa4 ltac:(done)) as (Hn4 & _ & Hl & Hm & _). rewrite H4 in *.
  destruct (fillAddr_bytes _ _ _ Hfa6 ltac:(lia)) as (_ & _ & _ & _ & Hb & _). rewrite H6, Hl, Hm in Hb.
  eapply Forall_impl; [exact Hto|]. intros o ->. rewrite Hb. simpl (Z.to_nat _). f_equal. unfold len in Hn4.
  rewrite (take_ge (ad_bytes (DstIP ep4))) by lia. rewrite take_ge by (rewrite length_app; simpl; lia). rewrite drop_app_length' by lia. done.
Qed.
End Wire.

(** ** Open and Close *)

(** The kernel binds a socket to the port it is asked for; for port 0 it picks one. *)
Definition kernel_ports (listen : listener) : Prop :=
  forall v6 port k sk, is_u16 port -> listen v6 port k = Ok sk -> is_u16 (sk_port sk) /\ (port <> 0 -> sk_port sk = port) /\ sk_port sk <> 0.

(** What a successful search for sockets has found. *)
Record search_ok (listen : listener) (uport : Z) (o : opened) : Prop := {
  se_v4 : forall sk, o_v4 o = Some sk -> exists k, listen false uport k = Ok sk;
  se_v6 : forall sk, o_v6 o = Some sk -> o_port o = sk_port sk /\ exists k, listen true (from_option sk_port 0 (o_v4 o)) k = Ok sk;
  se_none : o_v6 o = None -> o_port o = 0
}.

Lemma openLoop_ok listen uport left : forall k closed o closed', openLoop listen uport left k closed = (Ok o, closed') -> search_ok listen uport o.
Proof.
  assert (forall k closed o closed', (let '(v4conn, port, err) := listenNet (listen false uport k) in
    if hard err then (Err (default 0 err), closed) else
    let '(v6conn, port, err) := listenNet (listen true port (S k)) in
    if hard err then (Err (default 0 err), closed ++ option_list v4conn)
    else (Ok {| o_v4 := v4conn; o_v6 := v6conn; o_port := port; o_closed := closed |}, closed)) = (Ok o, closed') -> search_ok listen uport o) as Hround.
  { intros k closed o closed'. unfold listenNet. destruct (listen false uport k) as [a|e4] eqn:E4; simpl.
    - destruct (listen true (sk_port a) (S k)) as [b|e6] eqn:E6; simpl; [|destruct (negb _); [done|]]; intros [= <- <-]; split; simpl; try done; intros sk [= <-]; eauto.
    - destruct (negb _); [done|]. destruct (listen true 0 (S k)) as [b|e6] eqn:E6; simpl; [|destruct (negb _); [done|]]; intros [= <- <-]; split; simpl; try done; intros sk [= <-]; eauto. }
  induction left as [|left IH]; intros k closed o closed' H; cbn [openLoop] in H; specialize (Hround k closed o closed');
    destruct (listenNet (listen false uport k)) as [[v4 p4] err4]; (destruct (hard err4); [done|]); destruct (listenNet (listen true p4 (S k))) as [[v6 p6] err6];
    destruct ((uport =? 0) && isErr EADDRINUSE err6); [auto..|by eapply IH|auto].
Qed.

(** After a successful Open at least one socket is open. When there are two, both have the
    same port, it is the one that was asked for, and it is returned. When only IPv4 works,
    the socket has the port that was asked for, but Open returns port 0; when only IPv6
    works, the port asked for is lost: the kernel is asked for port 0, and picks any. *)
Theorem open_ports linux listen supports uport s s' closed fns port :
  kernel_ports listen -> is_u16 uport -> ipv4 s = None -> ipv6 s = None ->
  Open linux listen supports uport s = (s', closed, Ok (fns, port)) ->
  match ipv4 s', ipv6 s' with
  | Some a, Some b => map fst fns = [a; b] /\ sk_port a = port /\ sk_port b = port /\ (uport <> 0 -> port = uport) /\ port <> 0
  | Some a, None => map fst fns = [a] /\ port = 0 /\ (uport <> 0 -> sk_port a = uport) /\ sk_port a <> 0
  | None, Some b => map fst fns = [b] /\ port = sk_port b /\ exists k, listen true 0 k = Ok b
  | None, None => False
  end.
Proof.
  intros Hk Hu H4 H6. unfold Open. rewrite H4, H6. simpl orb. destruct (openLoop listen uport 100 0 []) as [[o|e] cl] eqn:E; [|done].
  destruct (openLoop_ok _ _ _ _ _ _ _ E) as [S4 S6 SN]. destruct (len _ =? 0) eqn:E0; [done|]. intros [= <- <- <- <-]. cbn [ipv4 ipv6].
  destruct (o_v4 o) as [a|] eqn:Ea; destruct (o_v6 o) as [b|] eqn:Eb; cbn [option_list map app fst] in *.
  - destruct (S4 a eq_refl) as (k & Hka). destruct (S6 b eq_refl) as (-> & k' & Hkb). simpl in Hkb.
    destruct (Hk _ _ _ _ Hu Hka) as (Ha & Hau & Ha0). destruct (Hk _ _ _ _ Ha Hkb) as (Hb & Hbu & Hb0). rewrite u16_small by done.
    split_and!; [done|by rewrite Hbu|done|intros; rewrite Hbu, Hau; done|done].
  - destruct (S4 a eq_refl) as (k & Hka). destruct (Hk _ _ _ _ Hu Hka) as (Ha & Hau & Ha0). rewrite (SN eq_refl). done.
  - destruct (S6 b eq_refl) as (-> & k' & Hkb). simpl in Hkb. assert (is_u16 0) as Hu0 by width_lia. destruct (Hk _ _ _ _ Hu0 Hkb) as (Hb & _). rewrite u16_small by done. split_and!; [done..|by exists k'].
  - done.
Qed.

(** Closing closes what is open and leaves the bind as it was made, up to its pools. *)
Lemma close_resets err4 err6 s s' socks err : (ipv4 s = None -> ipv4PC s = None) -> (ipv6 s = None -> ipv6PC s = None) ->
  Close err4 err6 s = (s', socks, err) -> s' = with_pools (udpAddrPool s) (msgsPool s) NewStdNetBind /\ socks = option_list (ipv4 s) ++ option_list (ipv6 s).
Proof.
  intros H4 H6. unfold Close. intros [= <- <- <-]. split; [|done]. unfold with_pools, NewStdNetBind. simpl.
  destruct (ipv4 s); destruct (ipv6 s); try rewrite H4 by done; try rewrite H6 by done; done.
Qed.

(** ** Socket options *)

(** Reading a run of digits. *)
Definition digitsValue (ds : list Z) : Z := fold_left (fun v c => v * 10 + (c - 48)) ds 0.
Lemma versionLoop_digits ds c rest values value : Forall (fun d => 48 <= d <= 57) ds -> ~ (48 <= c <= 57) ->
  versionLoop (ds ++ c :: rest) values value =
  let values := values ++ [fold_left (fun v c => v * 10 + (c - 48)) ds value] in if len values >=? 2 then values else versionLoop rest values 0.
Proof.
  intros Hd Hc. revert value. induction Hd as [|d ds Hd _ IH]; intros value; cbn [app versionLoop fold_left].
  - destruct (Z.leb_spec 48 c); simpl; [destruct (Z.leb_spec c 57); simpl; [lia|]|]; done.
  - rewrite (proj2 (Z.leb_le 48 d)), (proj2 (Z.leb_le d 57)) by lia. apply IH.
Qed.
(** A release that begins with two numbers, each followed by something else. *)
Lemma kernelVersion_numbers major minor c1 c2 rest : Forall (fun d => 48 <= d <= 57) major -> Forall (fun d => 48 <= d <= 57) minor ->
  ~ (48 <= c1 <= 57) -> ~ (48 <= c2 <= 57) ->
  kernelVersion (Some (major ++ c1 :: minor ++ c2 :: rest)) = (digitsValue major, digitsValue minor).
Proof. intros H1 H2 H3 H4. unfold kernelVersion. rewrite versionLoop_digits by done. simpl. by rewrite versionLoop_digits by done. Qed.

Lemma runOptions_all f opts done : runOptions f opts = (done, None) -> done = opts /\ Forall (fun o => so_checked o = true -> f o = None) opts.
Proof.
  revert done. induction opts as [|o opts IH]; intros done; cbn [runOptions]; [by intros [= <-]|].
  destruct (f o) as [e|] eqn:E.
  - destruct (so_checked o) eqn:Ec; [done|]. destruct (runOptions f opts) as [d err]. intros [= <- ->]. destruct (IH d eq_refl) as (-> & Hf). split; [done|]. constructor; [congruence|done].
  - destruct (runOptions f opts) as [d err]. intros [= <- ->]. destruct (IH d eq_refl) as (-> & Hf). by split; [|constructor].
Qed.

(** An IPv6 socket that is listened on never takes the IPv4 traffic of the same port, and
    both kinds report the address their datagrams came to (except on Android). *)
Lemma listen_options android release f n done : listenControl android release f n = (done, None) ->
  match n with
  | udp6 => f (checked IPPROTO_IPV6 IPV6_V6ONLY 1) = None /\ (android = false -> f (checked IPPROTO_IPV6 IPV6_RECVPKTINFO 1) = None)
  | udp4 => android = false -> f (checked IPPROTO_IP IP_PKTINFO 1) = None
  | otherNetwork => False
  end.
Proof.
  unfold listenControl. destruct (runOptions f bufferFn) as [a ?]. destruct n; cbn [pktinfoFn]; [| |done];
    (destruct (runOptions f (_)) as [b [e|]] eqn:E; [done|]); intros _; apply runOptions_all in E as (_ & Hf).
  - intros ->. by inversion Hf as [|? ? H _]; apply H.
  - destruct android; simpl in Hf; [inversion Hf as [|? ? H _]; split; [by apply H|done]|].
    inversion Hf as [|? ? H H']; inversion H' as [|? ? H2 _]. split; [by apply H2|intros _; by apply H].
Qed.

(** ** Runs *)

(** A bind with sockets of both families, offload on for IPv4. *)
Definition sampleBind : StdNetBind :=
  {| ipv4 := Some {| sk_id := 4; sk_port := 51820 |}; ipv6 := Some {| sk_id := 6; sk_port := 51820 |};
     ipv4PC := Some {| sk_id := 4; sk_port := 51820 |}; ipv6PC := Some {| sk_id := 6; sk_port := 51820 |};
     ipv4TxOffload := true; ipv4RxOffload := true; ipv6TxOffload := false; ipv6RxOffload := false;
     udpAddrPool := []; msgsPool := []; blackhole4 := false; blackhole6 := false |}.

(** The kernel refuses the offload with EIO, then takes two messages and one. *)
Definition sampleAnswers : list writeAnswer := [(0, Some (SyscallError EIO)); (2, None); (1, None)].
Definition sampleSent : option sent := Send false true sampleBufs sampleEp4 0 0 sampleAnswers sampleHeap sampleBind.

Lemma send_delivers_witness : exists r, sampleSent = Some r /\ sd_err r = Some (ErrUDPGSODisabled None) /\
  Forall (fun b => contents (sd_heap r) b = contents sampleHeap b) sampleBufs.
Proof.
  destruct sampleSent as [r|] eqn:E; [|exfalso; vm_compute in E; discriminate E]. exists r. split; [reflexivity|]. split.
  - assert (sd_err <$> sampleSent = Some (Some (ErrUDPGSODisabled None))) as H by (vm_compute; reflexivity). rewrite E in H. injection H as H. exact H.
  - destruct (send_delivers false true (laws := sampleParse_laws false) sampleBufs sampleEp4 0 0 sampleAnswers sampleHeap sampleBind r
      (sample_sendable sampleEp4 eq_refl ltac:(vm_compute; congruence)) ltac:(constructor) ltac:(vm_compute; lia) ltac:(split; [reflexivity|eexists; reflexivity]) E) as (_ & _ & H & _).
    exact H.
Defined.

(** The same buffers to an IPv4 peer and then to an IPv6 peer. *)
Lemma stale_destination_witness : exists r4 r6, sampleSent = Some r4 /\
  Send false true sampleBufs sampleEp6 0 0 [(3, None)] (sd_heap r4) (sd_bind r4) = Some r6 /\
  Forall (fun o => ad_bytes (g_to o).1 = [32;1;13;184;0;0;0;0;0;0;0;0;0;0;0;0]) (sd_wire r6).
Proof.
  destruct sampleSent as [r4|] eqn:E4; [|exfalso; vm_compute in E4; discriminate E4].
  assert (sendable false sampleEp6 (sd_heap r4) sampleBufs) as Hok.
  { assert (sd_heap <$> sampleSent = Some [[1;2;3;4;5;6;7;8;9;10]; [5;6;7;8;0;0;0;0;0;0]; [9;10;0;0;0;0;0;0;0;0]]) as H by (vm_compute; reflexivity).
    rewrite E4 in H. injection H as ->. destruct (sample_sendable sampleEp6 eq_refl ltac:(vm_compute; congruence)) as [_ H2 H3 H4]. split; [|assumption..].
    repeat constructor; (eapply sample_wf; [reflexivity|reflexivity]). }
  destruct (Send false true sampleBufs sampleEp6 0 0 [(3, None)] (sd_heap r4) (sd_bind r4)) as [r6|] eqn:E6.
  - exists r4, r6. split; [reflexivity|]. split; [exact E6|].
    exact (stale_destination false true (laws := sampleParse_laws false) sampleBufs sampleBufs sampleEp4 sampleEp6 0 0 0 sampleAnswers [(3, None)] sampleHeap sampleBind r4 r6
      (sample_sendable sampleEp4 eq_refl ltac:(vm_compute; congruence)) Hok ltac:(constructor) ltac:(vm_compute; lia) ltac:(vm_compute; lia)
      ltac:(split; [reflexivity|eexists; reflexivity]) ltac:(split; [reflexivity|eexists; reflexivity]) eq_refl eq_refl eq_refl E4 E6).
  - exfalso. assert ((sampleSent ≫= fun r => Send false true sampleBufs sampleEp6 0 0 [(3, None)] (sd_heap r) (sd_bind r)) <> None) as H by (vm_compute; congruence).
    rewrite E4 in H. exact (H E6).
Defined.

(** A kernel that has no IPv6. *)
Definition sampleListen : listener := fun v6 port k =>
  if v6 then Err EAFNOSUPPORT else Ok {| sk_id := k; sk_port := if port =? 0 then 40000 else port |}.

Lemma open_ports_witness : exists s' closed fns, Open true sampleListen (fun _ => (true, true)) 51820 NewStdNetBind = (s', closed, Ok (fns, 0)) /\
  match ipv4 s', ipv6 s' with Some a, None => sk_port a = 51820 | _, _ => False end.
Proof.
  destruct (Open true sampleListen (fun _ => (true, true)) 51820 NewStdNetBind) as [[s' closed] [[fns port]|e]] eqn:E; [|exfalso; vm_compute in E; discriminate E].
  assert (kernel_ports sampleListen) as Hk.
  { intros v6 port' k sk Hp. unfold sampleListen. destruct v6; [discriminate|]. intros [= <-]. simpl. destruct (Z.eqb_spec port' 0); [subst; repeat split; try lia; intros H; congruence|]. repeat split; [apply Hp..|lia]. }
  pose proof (open_ports true sampleListen (fun _ => (true, true)) 51820 NewStdNetBind s' closed fns port Hk ltac:(split; lia) eq_refl eq_refl E) as H.
  exists s', closed, fns. assert (ipv4 s' = Some {| sk_id := 0; sk_port := 51820 |} /\ ipv6 s' = None) as [H4 H6].
  { vm_compute in E. injection E as <- _ _ _. split; reflexivity. }
  rewrite H4, H6 in *. destruct H as (_ & -> & _ & _). split; reflexivity.
Defined.
