(* ===== verification/Netstack.v ===== *)
(** * Netstack: the resolver and dialer of the user space network stack (src/tun/netstack/tun.go)

    The stack itself is gVisor, and DNS messages are taken apart by
    golang.org/x/net/dns/dnsmessage; both are outside the sources. The DNS parser is the
    class [Dnsmessage], whose laws say that it walks over the records of a message; what
    connections return, and the clock, are arguments. A result [None] is a panic or a call
    that does not return. *)
From S2P Require Import Prelude GoLib NetIP.
#[local] Open Scope Z_scope.

(** ** Names *)

Definition dot : Z := 46.
Definition hyphen : Z := 45.
Definition isLetter (c : Z) : bool := (97 <=? c) && (c <=? 122) || (65 <=? c) && (c <=? 90) || (c =? 95).
Definition isDigit (c : Z) : bool := (48 <=? c) && (c <=? 57).

(** The variables of the loop of isDomainName. *)
Record nameScan : Type := { ns_last : Z; ns_nonNumeric : bool; ns_partlen : Z }.
Fixpoint scanName (s : list Z) (n : nameScan) : option nameScan :=
  match s with
  | [] => Some n
  | c :: s' =>
      if isLetter c then scanName s' {| ns_last := c; ns_nonNumeric := true; ns_partlen := ns_partlen n + 1 |}
      else if isDigit c then scanName s' {| ns_last := c; ns_nonNumeric := ns_nonNumeric n; ns_partlen := ns_partlen n + 1 |}
      else if c =? hyphen then
        if ns_last n =? dot then None
        else scanName s' {| ns_last := c; ns_nonNumeric := true; ns_partlen := ns_partlen n + 1 |}
      else if c =? dot then
        if (ns_last n =? dot) || (ns_last n =? hyphen) then None
        else if (ns_partlen n >? 63) || (ns_partlen n =? 0) then None
        else scanName s' {| ns_last := c; ns_nonNumeric := ns_nonNumeric n; ns_partlen := 0 |}
      else None
  end.
Definition isDomainName (s : list Z) : bool :=
  let l := len s in
  if (l =? 0) || (l >? 254) || (l =? 254) && negb (default 0 (last s) =? dot) then false
  else
    match scanName s {| ns_last := dot; ns_nonNumeric := false; ns_partlen := 0 |} with
    | None => false
    | Some n => if (ns_last n =? hyphen) || (ns_partlen n >? 63) then false else ns_nonNumeric n
    end.

(** ** DNS messages *)

Record Question : Type := { q_name : list Z; q_type : Z; q_class : Z }.
Record Header : Type := {
  h_ID : Z; h_Response : bool; h_Authoritative : bool; h_Truncated : bool; h_RecursionAvailable : bool; h_RCode : Z }.
Definition TypeA : Z := 1.
Definition TypeAAAA : Z := 28.
Definition ClassINET : Z := 1.
Definition RCodeSuccess : Z := 0.
Definition RCodeServerFailure : Z := 2.
Definition RCodeNameError : Z := 3.

(** A call on a section of a message: done with it, an error, or a value. *)
Inductive section (A : Type) : Type := SectionDone | SectionError | SectionItem (a : A).
Arguments SectionDone {A}.
Arguments SectionError {A}.
Arguments SectionItem {A} a.

(** What the code uses of dnsmessage. AnswerHeader reads the header of the next record and
    returns its type; the next call reads it again unless the record is read or skipped. *)
Class Dnsmessage : Type := {
  Parser : Type;
  zeroParser : Parser;
  NewName : list Z -> option (list Z);
  buildQuestion : Z -> Question -> option (list Z);
  Start : list Z -> option (Parser * Header);
  ParseQuestion : Parser -> option (Question * Parser);
  SkipQuestion : Parser -> section Parser;
  AnswerHeader : Parser -> section (Z * Parser);
  SkipAnswer : Parser -> option Parser;
  AResource : Parser -> option (list Z * Parser);
  AAAAResource : Parser -> option (list Z * Parser)
}.

Inductive dnsErr : Type :=
| errNoSuchHost | errLameReferral | errCannotUnmarshalDNSMessage | errCannotMarshalDNSMessage | errServerMisbehaving
| errInvalidDNSResponse | errNoAnswerFromDNSServer | errServerTemporarilyMisbehaving | errCanceled | errTimeout
| errNumericPort | errNoSuitableAddress | errMissingAddress
| errConn (code : Z) (timeout op : bool) | errUnknownNetwork | errAddress (code : Z).

(** net.DNSError *)
Record DNSError : Type := { de_Err : dnsErr; de_Name : list Z; de_Server : option Addr; de_IsTimeout : bool; de_IsTemporary : bool; de_IsNotFound : bool }.
Definition mkDNSError (e : dnsErr) (name : list Z) (server : option Addr) : DNSError :=
  {| de_Err := e; de_Name := name; de_Server := server; de_IsTimeout := false; de_IsTemporary := false; de_IsNotFound := false |}.

(** The error of a lookup: nil, a DNSError or one of the errors above. *)
Inductive lookupErr : Type := Wrapped (e : DNSError) | Plain (e : dnsErr).

Definition lower (a : Z) : Z := if (65 <=? a) && (a <=? 90) then a + 32 else a.
Fixpoint equalFrom (x y : list Z) : bool :=
  match x, y with
  | a :: x', b :: y' => if lower a =? lower b then equalFrom x' y' else false
  | _, _ => true
  end.
Definition equalASCIIName (x y : list Z) : bool := if negb (len x =? len y) then false else equalFrom x y.

Definition checkResponse (reqID : Z) (reqQues : Question) (respHdr : Header) (respQues : Question) : bool :=
  if negb (h_Response respHdr) then false
  else if negb (reqID =? h_ID respHdr) then false
  else if negb (q_type reqQues =? q_type respQues) || negb (q_class reqQues =? q_class respQues) || negb (equalASCIIName (q_name reqQues) (q_name respQues)) then false
  else true.

Section Resolver.
Context {D : Dnsmessage}.

(** The two bytes before the message are its length; the UDP request is what follows. *)
Definition newRequest (id : Z) (q : Question) : option (list Z * list Z) :=
  msg ← buildQuestion id q;
  let l := len msg in
  Some (msg, [u8 (Z.shiftr l 8); u8 l] ++ msg).

(** The loop over the datagrams that the connection delivers. *)
Fixpoint readPackets (id : Z) (query : Question) (reads : list (result (list Z) dnsErr)) : option (result (Parser * Header) dnsErr) :=
  match reads with
  | [] => None
  | Err e :: _ => Some (Err e)
  | Ok b :: reads' =>
      match Start (take 512 b) with
      | None => readPackets id query reads'
      | Some (p, h) =>
          match ParseQuestion p with
          | None => readPackets id query reads'
          | Some (q, p) => if checkResponse id query h q then Some (Ok (p, h)) else readPackets id query reads'
          end
      end
  end.
Definition dnsPacketRoundTrip (write : option dnsErr) (reads : list (result (list Z) dnsErr)) (id : Z) (query : Question) : option (result (Parser * Header) dnsErr) :=
  match write with
  | Some e => Some (Err e)
  | None => readPackets id query reads
  end.

(** [stream] is what the connection delivers before it fails with [e]. *)
Definition dnsStreamRoundTrip (write : option dnsErr) (stream : list Z) (e : dnsErr) (id : Z) (query : Question) : result (Parser * Header) dnsErr :=
  match write with
  | Some e => Err e
  | None =>
      match stream with
      | b0 :: b1 :: rest =>
          let l := Z.lor (Z.shiftl b0 8) b1 in
          if len rest <? l then Err e
          else
            match Start (take (Z.to_nat l) rest) with
            | None => Err errCannotUnmarshalDNSMessage
            | Some (p, h) =>
                match ParseQuestion p with
                | None => Err errCannotUnmarshalDNSMessage
                | Some (q, p) => if checkResponse id query h q then Ok (p, h) else Err errInvalidDNSResponse
                end
            end
      | _ => Err e
      end
  end.

(** What the connections of one exchange do: the transaction id, dialling, setting the
    deadline and the traffic, for UDP and for TCP. *)
Record exchangeEnv : Type := {
  x_id : Z;
  x_udpDial : option dnsErr; x_udpDeadline : option dnsErr; x_udpWrite : option dnsErr; x_udpReads : list (result (list Z) dnsErr);
  x_tcpDial : option dnsErr; x_tcpDeadline : option dnsErr; x_tcpWrite : option dnsErr; x_tcpStream : list Z; x_tcpErr : dnsErr
}.

(** The end of a round: the question section has one question, and the answer is complete
    ([None]: it was truncated, go on). *)
Definition finishRound (r : result (Parser * Header) dnsErr) : option (result (Parser * Header) dnsErr) :=
  match r with
  | Err e => Some (Err e)
  | Ok (p, h) =>
      match SkipQuestion p with
      | SectionDone => if h_Truncated h then None else Some (Ok (p, h))
      | _ => Some (Err errInvalidDNSResponse)
      end
  end.
Definition orElse {A} (a b : option A) : option A := match a with Some x => Some x | None => b end.

Definition exchange (x : exchangeEnv) (q : Question) : option (result (Parser * Header) dnsErr) :=
  let q := {| q_name := q_name q; q_type := q_type q; q_class := ClassINET |} in
  match newRequest (x_id x) q with
  | None => Some (Err errCannotMarshalDNSMessage)
  | Some _ =>
      match orElse (x_udpDial x) (x_udpDeadline x) with
      | Some e => Some (Err e)
      | None =>
          r ← dnsPacketRoundTrip (x_udpWrite x) (x_udpReads x) (x_id x) q;
          match finishRound r with
          | Some r => Some r
          | None =>
              match orElse (x_tcpDial x) (x_tcpDeadline x) with
              | Some e => Some (Err e)
              | None =>
                  match finishRound (dnsStreamRoundTrip (x_tcpWrite x) (x_tcpStream x) (x_tcpErr x) (x_id x) q) with
                  | Some r => Some r
                  | None => Some (Err errNoAnswerFromDNSServer)
                  end
              end
          end
      end
  end.

Definition checkHeader (p : Parser) (h : Header) : option dnsErr :=
  if h_RCode h =? RCodeNameError then Some errNoSuchHost
  else
    match AnswerHeader p with
    | SectionError => Some errCannotUnmarshalDNSMessage
    | s =>
        let none := match s with SectionDone => true | _ => false end in
        if (h_RCode h =? RCodeSuccess) && negb (h_Authoritative h) && negb (h_RecursionAvailable h) && none then Some errLameReferral
        else if negb (h_RCode h =? RCodeSuccess) && negb (h_RCode h =? RCodeNameError) then
          if h_RCode h =? RCodeServerFailure then Some errServerTemporarilyMisbehaving else Some errServerMisbehaving
        else None
    end.

(** The parser at the first answer of type [qtype]; [fuel] bounds the answers. *)
Fixpoint skipToAnswer (fuel : nat) (p : Parser) (qtype : Z) : option (result Parser dnsErr) :=
  match fuel with
  | O => None
  | S fuel' =>
      match AnswerHeader p with
      | SectionDone => Some (Err errNoSuchHost)
      | SectionError => Some (Err errCannotUnmarshalDNSMessage)
      | SectionItem (t, p) =>
          if t =? qtype then Some (Ok p)
          else match SkipAnswer p with
               | None => Some (Err errCannotUnmarshalDNSMessage)
               | Some p => skipToAnswer fuel' p qtype
               end
      end
  end.

Definition dnsErr_eqb (a b : dnsErr) : bool :=
  match a, b with
  | errNoSuchHost, errNoSuchHost => true
  | errServerTemporarilyMisbehaving, errServerTemporarilyMisbehaving => true
  | _, _ => false
  end.

(** One server of tryOneName: an answer, an error that ends the search, or one that is
    remembered. *)
Inductive attempt : Type := Answer (p : Parser) (server : Addr) | GiveUp (e : DNSError) | TryNext (e : DNSError).
Definition tryServer (fuel : nat) (name : list Z) (q : Question) (qtype : Z) (server : Addr) (x : exchangeEnv) : option attempt :=
  r ← exchange x q;
  match r with
  | Err e =>
      Some (TryNext {| de_Err := e; de_Name := name; de_Server := Some server;
                       de_IsTimeout := match e with errConn _ t _ => t | _ => false end;
                       de_IsTemporary := match e with errConn _ _ o => o | _ => false end; de_IsNotFound := false |})
  | Ok (p, h) =>
      match checkHeader p h with
      | Some e =>
          if dnsErr_eqb e errNoSuchHost then
            Some (GiveUp {| de_Err := e; de_Name := name; de_Server := Some server; de_IsTimeout := false; de_IsTemporary := false; de_IsNotFound := true |})
          else
            Some (TryNext {| de_Err := e; de_Name := name; de_Server := Some server; de_IsTimeout := false;
                             de_IsTemporary := dnsErr_eqb e errServerTemporarilyMisbehaving; de_IsNotFound := false |})
      | None =>
          r ← skipToAnswer fuel p qtype;
          match r with
          | Ok p => Some (Answer p server)
          | Err e =>
              if dnsErr_eqb e errNoSuchHost then
                Some (GiveUp {| de_Err := e; de_Name := name; de_Server := Some server; de_IsTimeout := false; de_IsTemporary := false; de_IsNotFound := true |})
              else Some (TryNext (mkDNSError e name (Some server)))
          end
      end
  end.

(** The servers in turn; [env k] is what the [k]-th exchange meets. The parser, the server
    and the error; when there are no servers, a zero parser and no error. *)
Record named : Type := { nm_p : Parser; nm_server : option Addr; nm_err : option lookupErr }.
Fixpoint tryServers (fuel : nat) (name : list Z) (q : Question) (qtype : Z) (servers : list Addr) (env : nat -> exchangeEnv) (k : nat) (lastErr : option DNSError) : option named :=
  match servers with
  | [] => Some {| nm_p := zeroParser; nm_server := None; nm_err := Wrapped <$> lastErr |}
  | server :: servers' =>
      a ← tryServer fuel name q qtype server (env k);
      match a with
      | Answer p server => Some {| nm_p := p; nm_server := Some server; nm_err := None |}
      | GiveUp e => Some {| nm_p := zeroParser; nm_server := Some server; nm_err := Some (Wrapped e) |}
      | TryNext e => tryServers fuel name q qtype servers' env (S k) (Some e)
      end
  end.
(** Two rounds over the servers. *)
Definition tryOneName (fuel : nat) (dnsServers : list Addr) (env : nat -> exchangeEnv) (name : list Z) (qtype : Z) : option named :=
  match NewName name with
  | None => Some {| nm_p := zeroParser; nm_server := None; nm_err := Some (Plain errCannotMarshalDNSMessage) |}
  | Some n => tryServers fuel name {| q_name := n; q_type := qtype; q_class := ClassINET |} qtype (dnsServers ++ dnsServers) env 0 None
  end.

(** The loop over the answers of one lane: the addresses and the error it leaves. *)
Record lane : Type := { ln_v4 : list Addr; ln_v6 : list Addr; ln_err : option lookupErr }.
Definition laneErr (host : list Z) (server : option Addr) (l : lane) : lane :=
  {| ln_v4 := ln_v4 l; ln_v6 := ln_v6 l; ln_err := Some (Wrapped (mkDNSError errCannotMarshalDNSMessage host server)) |}.
Fixpoint collect (fuel : nat) (host : list Z) (server : option Addr) (p : Parser) (l : lane) : option lane :=
  match fuel with
  | O => None
  | S fuel' =>
      match AnswerHeader p with
      | SectionError => Some (laneErr host server l)
      | SectionDone => Some l
      | SectionItem (t, p) =>
          if t =? TypeA then
            match AResource p with
            | None => Some (laneErr host server l)
            | Some (a, p) => collect fuel' host server p {| ln_v4 := ln_v4 l ++ [mkAddr a []]; ln_v6 := ln_v6 l; ln_err := ln_err l |}
            end
          else if t =? TypeAAAA then
            match AAAAResource p with
            | None => Some (laneErr host server l)
            | Some (a, p) => collect fuel' host server p {| ln_v4 := ln_v4 l; ln_v6 := ln_v6 l ++ [mkAddr a []]; ln_err := ln_err l |}
            end
          else
            match SkipAnswer p with
            | None => Some (laneErr host server l)
            | Some p => collect fuel' host server p l
            end
      end
  end.
(** The results in the order in which the lanes deliver them. *)
Fixpoint collectLanes (fuel : nat) (host : list Z) (results : list named) (l : lane) : option lane :=
  match results with
  | [] => Some l
  | r :: results' =>
      match nm_err r with
      | Some e => collectLanes fuel host results' {| ln_v4 := ln_v4 l; ln_v6 := ln_v6 l; ln_err := match ln_err l with Some e' => Some e' | None => Some e end |}
      | None => l ← collect fuel host (nm_server r) (nm_p r) l; collectLanes fuel host results' l
      end
  end.

(** The stack: its addresses families and DNS servers. *)
Record Net : Type := { hasV4 : bool; hasV6 : bool; dnsServers : list Addr }.

Definition notFound (host : list Z) : lookupErr :=
  Wrapped {| de_Err := errNoSuchHost; de_Name := host; de_Server := None; de_IsTimeout := false; de_IsTemporary := false; de_IsNotFound := true |}.

(** [strings.LastIndexByte] *)
Fixpoint lastIndex (c : Z) (s : list Z) : option nat :=
  match s with
  | [] => None
  | x :: s' => match lastIndex c s' with Some i => Some (S i) | None => if x =? c then Some 0%nat else None end
  end.
(** The host without its zone, when it has a colon. *)
Definition withoutZone (host : list Z) : list Z :=
  if bool_decide (58 ∈ host) then match lastIndex 37 host with Some i => take i host | None => host end else host.

(** [envs qtype] is what the exchanges of the lane for [qtype] meet; [swap] says that the
    lane for IPv6 delivers first. *)
Definition LookupContextHost (fuel : nat) (tnet : Net) (envs : Z -> nat -> exchangeEnv) (swap : bool) (host : list Z) : option (result (list (list Z)) lookupErr) :=
  if (len host =? 0) || (negb (hasV6 tnet) && negb (hasV4 tnet)) then Some (Err (notFound host))
  else
    match ParseAddr (withoutZone host) with
    | Some ip => Some (Ok [AddrString ip])
    | None =>
        if negb (isDomainName host) then Some (Err (notFound host))
        else
          r4 ← (if hasV4 tnet then r ← tryOneName fuel (dnsServers tnet) (envs TypeA) (host ++ [dot]) TypeA; Some [r] else Some []);
          r6 ← (if hasV6 tnet then r ← tryOneName fuel (dnsServers tnet) (envs TypeAAAA) (host ++ [dot]) TypeAAAA; Some [r] else Some []);
          l ← collectLanes fuel host (if swap then r6 ++ r4 else r4 ++ r6) {| ln_v4 := []; ln_v6 := []; ln_err := None |};
          let addrs := if hasV6 tnet then ln_v6 l ++ ln_v4 l else ln_v4 l ++ ln_v6 l in
          match addrs, ln_err l with
          | [], Some e => Some (Err e)
          | _, _ => Some (Ok (map AddrString addrs))
          end
    end.

(** ** Dialling *)

Definition saneMinimum : Z := 2 * 10 ^ 9.
(** A zero deadline is [None]; [Duration] division truncates towards zero. *)
Definition partialDeadline (now : Z) (deadline : option Z) (addrsRemaining : Z) : result (option Z) dnsErr :=
  match deadline with
  | None => Ok None
  | Some deadline =>
      let timeRemaining := deadline - now in
      if timeRemaining <=? 0 then Err errTimeout
      else
        let timeout := Z.quot timeRemaining addrsRemaining in
        let timeout := if timeout <? saneMinimum then (if timeRemaining <? saneMinimum then timeRemaining else saneMinimum) else timeout in
        Ok (Some (now + timeout))
  end.

Inductive proto : Type := tcp | udp | ping.
(** The strings that protoSplitter matches: the protocol and the family, 4, 6 or either. *)
Definition protoSplitter (network : list Z) : option (proto * option Z) :=
  let split name p := if bool_decide (network = name) then Some (p, None)
                      else if bool_decide (network = name ++ [52]) then Some (p, Some 4)
                      else if bool_decide (network = name ++ [54]) then Some (p, Some 6) else None in
  match split [116; 99; 112] tcp with
  | Some r => Some r
  | None => match split [117; 100; 112] udp with Some r => Some r | None => split [112; 105; 110; 103] ping end
  end.

(** The state of a context at a time: done with an error, or its deadline. *)
Record ctxAt : Type := { cx_done : option dnsErr; cx_deadline : option Z; cx_now : Z }.

(** The loop over the addresses: [ctx i] is the context at round [i], [dial] the answer to
    an attempt with its deadline. The connection is the address it goes to. *)
Fixpoint dialLoop (p : proto) (ctx : nat -> ctxAt) (dial : proto -> Addr * Z -> option Z -> option dnsErr) (addrs : list (Addr * Z)) (i : nat) (firstErr : option dnsErr) :
  result (Addr * Z) dnsErr * list (Addr * Z * option Z) :=
  match addrs with
  | [] => (Err (default errMissingAddress firstErr), [])
  | addr :: addrs' =>
      let c := ctx i in
      match cx_done c with
      | Some e => (Err e, [])
      | None =>
          match (match cx_deadline c with
                 | None => Ok None
                 | Some d => match partialDeadline (cx_now c) (Some d) (len addrs) with
                             | Err e => Err e
                             | Ok (Some pd) => Ok (Some (if pd <? d then pd else d))
                             | Ok None => Ok (Some d)
                             end
                 end) with
          | Err e => (Err (match firstErr with Some e' => e' | None => e end), [])
          | Ok deadline =>
              match dial p addr deadline with
              | None => (Ok addr, [(addr, deadline)])
              | Some e =>
                  let '(r, log) := dialLoop p ctx dial addrs' (S i) (Some (match firstErr with Some e' => e' | None => e end)) in
                  (r, (addr, deadline) :: log)
              end
          end
      end
  end.

(** The addresses that a dial tries, from the strings of the lookup. *)
Definition suitable (family : option Z) (port : Z) (all : list (list Z)) : list (Addr * Z) :=
  let acceptV4 := match family with Some f => f =? 4 | None => true end in
  let acceptV6 := match family with Some _ => negb acceptV4 | None => true end in
  omap (fun s => ip ← ParseAddr s; if Is4 ip && acceptV4 || Is6 ip && acceptV6 then Some (ip, u16 port) else None) all.

(** DialContext; [lookup] is the resolver. *)
Definition DialContext (lookup : list Z -> option (result (list (list Z)) lookupErr)) (ctx : nat -> ctxAt) (dial : proto -> Addr * Z -> option Z -> option dnsErr)
  (network address : list Z) : option (result (Addr * Z) lookupErr * list (Addr * Z * option Z)) :=
  match protoSplitter network with
  | None => Some (Err (Plain errUnknownNetwork), [])
  | Some (p, family) =>
      match (match p with
             | ping => Ok (address, 0)
             | _ => match SplitHostPort address with
                    | None => Err (errAddress 0)
                    | Some (host, sport) =>
                        match Atoi sport with
                        | None => Err errNumericPort
                        | Some port => if (port <? 0) || (port >? 65535) then Err errNumericPort else Ok (host, port)
                        end
                    end
             end) with
      | Err e => Some (Err (Plain e), [])
      | Ok (host, port) =>
          all ← lookup host;
          match all with
          | Err e => Some (Err e, [])
          | Ok all =>
              let addrs := suitable family port all in
              if (len addrs =? 0) && negb (len all =? 0) then Some (Err (Plain errNoSuitableAddress), [])
              else
                let '(r, log) := dialLoop p ctx dial addrs 0 None in
                Some (match r with Ok a => Ok a | Err e => Err (Plain e) end, log)
          end
      end
  end.
End Resolver.

(** ** The TUN side *)

(** netTun.Write: what is given to the stack, with its family, and the result. *)
Inductive netWrite : Type := Wrote (n : Z) | ErrFamily.
Fixpoint injectLoop (bufs : list (list Z)) (offset : Z) : option (list (Z * list Z) * bool) :=
  match bufs with
  | [] => Some ([], true)
  | buf :: bufs' =>
      packet ← slice buf offset (len buf);
      match packet with
      | [] => injectLoop bufs' offset
      | b0 :: _ =>
          let v := Z.shiftr b0 4 in
          if (v =? 4) || (v =? 6) then '(rest, ok) ← injectLoop bufs' offset; Some ((v, packet) :: rest, ok)
          else Some ([], false)
      end
  end.
Definition netTunWrite (bufs : list (list Z)) (offset : Z) : option (list (Z * list Z) * netWrite) :=
  '(injected, ok) ← injectLoop bufs offset;
  Some (injected, if (ok : bool) then Wrote (len bufs) else ErrFamily).

(** netTun.Read: [None] for the view is the closed channel; [offset] must be in the buffer. *)
Definition netTunRead (view : option (list Z)) (buf : list Z) (offset : Z) : option (result (list Z * Z) unit) :=
  match view with
  | None => Some (Err tt)
  | Some v =>
      rest ← slice buf offset (len buf);
      let n := Z.min (len rest) (len v) in
      buf ← copy_at buf offset (take (Z.to_nat n) v);
      Some (Ok (buf, n))
  end.
