(* ===== verification/NetstackSpec.v ===== *)
(** * NetstackSpec: what the resolver and the dialer of the network stack promise

    Names are accepted by the rules for labels; only responses that match the question
    are used; a lookup returns the addresses of the answers, IPv6 first; a dial tries the
    addresses of the right family in order, each with its share of the time. *)
From S2P Require Import Prelude GoLib NetIP Netstack.
#[local] Open Scope Z_scope.

(** ** Names *)

(** The labels of a name, [cur] being the beginning of the first. *)
Fixpoint labels (cur : list Z) (s : list Z) : list (list Z) :=
  match s with
  | [] => [cur]
  | c :: s' => if c =? dot then cur :: labels [] s' else labels (cur ++ [c]) s'
  end.
Definition nameChar (c : Z) : bool := isLetter c || isDigit c || (c =? hyphen).
Definition starts (l : list Z) : bool := match l with c :: _ => c =? hyphen | [] => false end.
Definition ends (l : list Z) : bool := default 0 (last l) =? hyphen.
(** A label has 1 to 63 letters, digits, underscores and hyphens, none at an end. *)
Definition labelOk (l : list Z) : bool :=
  (1 <=? len l) && (len l <=? 63) && forallb nameChar l && negb (starts l) && negb (ends l).
(** Every label is one, except that the last may be empty (the root). *)
Fixpoint labelsOk (ls : list (list Z)) : bool :=
  match ls with
  | [] => true
  | [l] => (len l =? 0) || labelOk l
  | l :: ls' => labelOk l && labelsOk ls'
  end.
Definition nonNumericChar (c : Z) : bool := isLetter c || (c =? hyphen).
(** The reference: at most 253 bytes, or 254 with a final dot; labels; not only digits. *)
Definition validName (s : list Z) : bool :=
  (1 <=? len s) && (len s <=? 254) && ((len s <? 254) || (default 0 (last s) =? dot)) && labelsOk (labels [] s) && existsb nonNumericChar s.

(** A beginning of a label that no continuation makes right. *)
Definition hopeless (l : list Z) : Prop := forallb nameChar l = false \/ starts l = true.
Lemma hopeless_app l k : hopeless l -> hopeless (l ++ k).
Proof. intros [H|H]; [left; rewrite forallb_app, H; done|right; by destruct l]. Qed.
Lemma hopeless_labelOk l : hopeless l -> labelOk l = false.
Proof. unfold labelOk. intros [->| ->]; by rewrite ?andb_false_r. Qed.
Lemma labels_first cur s : exists k ls, labels cur s = (cur ++ k) :: ls.
Proof.
  revert cur. induction s as [|c s IH]; intros cur; cbn [labels]; [exists [], []; by rewrite app_nil_r|].
  destruct (c =? dot); [exists [], (labels [] s); by rewrite app_nil_r|]. destruct (IH (cur ++ [c])) as (k & ls & ->). exists ([c] ++ k), ls. by rewrite app_assoc.
Qed.
Lemma hopeless_labels cur s : hopeless cur -> labelsOk (labels cur s) = false.
Proof.
  intros H. destruct (labels_first cur s) as (k & ls & ->). apply (hopeless_app _ k) in H. pose proof (hopeless_labelOk _ H) as Hl.
  destruct ls as [|l ls]; cbn [labelsOk]; [|by rewrite Hl]. rewrite Hl, orb_false_r. destruct (cur ++ k); [by destruct H|done].
Qed.

(** The state of the scan inside a label that began with [cur]. *)
Definition scanState (cur : list Z) (nn : bool) : nameScan :=
  {| ns_last := match cur with [] => dot | _ => default 0 (last cur) end; ns_nonNumeric := nn; ns_partlen := len cur |}.
Definition promising (cur : list Z) : Prop := forallb nameChar cur = true /\ starts cur = false.

Lemma char_classes c : isLetter c = true -> isDigit c = false /\ (c =? hyphen) = false /\ (c =? dot) = false.
Proof. unfold isLetter, isDigit, hyphen, dot. intros H. lia. Qed.
Lemma digit_class c : isDigit c = true -> (c =? hyphen) = false /\ (c =? dot) = false.
Proof. unfold isDigit, hyphen, dot. intros H. lia. Qed.
Lemma scanState_snoc cur c nn : {| ns_last := c; ns_nonNumeric := nn; ns_partlen := len cur + 1 |} = scanState (cur ++ [c]) nn.
Proof. unfold scanState. rewrite last_snoc, len_app. by destruct cur. Qed.
Lemma promising_snoc cur c : promising cur -> nameChar c = true -> (cur = [] -> c <> hyphen) -> promising (cur ++ [c]).
Proof.
  intros [H1 H2] Hc H0. split; [by rewrite forallb_app, H1; simpl; rewrite Hc|]. destruct cur; [simpl; apply Z.eqb_neq; auto|done].
Qed.
(** A complete label that began well: only its length and its end are left to check. *)
Lemma promising_labelOk cur : promising cur -> labelOk cur = (1 <=? len cur) && (len cur <=? 63) && negb (ends cur).
Proof. intros [H1 H2]. unfold labelOk. rewrite H1, H2, !andb_true_r. done. Qed.

Definition verdict (r : option nameScan) : bool :=
  match r with None => false | Some n => if (ns_last n =? hyphen) || (ns_partlen n >? 63) then false else ns_nonNumeric n end.

Lemma last_dot cur nn : promising cur -> (ns_last (scanState cur nn) =? dot) = (len cur =? 0).
Proof.
  intros [H1 _]. destruct cur as [|c cur] using rev_ind; [done|]. unfold scanState. cbn [ns_last]. rewrite last_snoc, len_app.
  replace (match cur ++ [c] with [] => dot | _ => default 0 (Some c) end) with c by (by destruct cur). rewrite forallb_app in H1. simpl in H1. rewrite andb_true_r in H1. apply andb_true_iff in H1 as [_ H1].
  pose proof (len_nonneg cur). rewrite (proj2 (Z.eqb_neq (len cur + len [c]) 0)) by (change (len [c]) with 1; lia).
  apply Z.eqb_neq. intros ->. unfold nameChar, isLetter, isDigit, dot, hyphen in H1. simpl in H1. done.
Qed.
Lemma last_hyphen cur nn : (ns_last (scanState cur nn) =? hyphen) = ends cur.
Proof. unfold scanState, ends. cbn [ns_last]. by destruct cur. Qed.

Lemma scan_labels s : forall cur nn, promising cur ->
  verdict (scanName s (scanState cur nn)) = labelsOk (labels cur s) && (nn || existsb nonNumericChar s).
Proof.
  induction s as [|c s IH]; intros cur nn Hp; cbn [scanName labels existsb].
  - cbn [labelsOk verdict]. rewrite last_hyphen, orb_false_r, promising_labelOk by done. cbn [scanState ns_partlen ns_nonNumeric]. pose proof (len_nonneg cur).
    rewrite Z.gtb_ltb, Z.ltb_antisym. destruct (Z.leb_spec (len cur) 63); simpl; [|rewrite orb_true_r; destruct (Z.eqb_spec (len cur) 0); [lia|]; by rewrite !andb_false_r].
    rewrite orb_false_r, andb_true_r. destruct (Z.eqb_spec (len cur) 0) as [E|E]; [destruct cur; [done|rewrite len_cons in E; pose proof (len_nonneg cur); lia]|].
    rewrite (proj2 (Z.leb_le 1 (len cur))) by lia. simpl. by destruct (ends cur).
  - cbn [scanState ns_partlen ns_nonNumeric]. destruct (isLetter c) eqn:El.
    { destruct (char_classes c El) as (Ed & Eh & Edot). rewrite scanState_snoc, Edot, IH by (apply promising_snoc; [done|unfold nameChar; by rewrite El|intros _ ->; done]).
      unfold nonNumericChar at 2. rewrite El. simpl. by rewrite orb_true_r. }
    destruct (isDigit c) eqn:Ed.
    { destruct (digit_class c Ed) as (Eh & Edot). rewrite scanState_snoc, Edot, IH by (apply promising_snoc; [done|unfold nameChar; by rewrite Ed, orb_true_r|intros _ ->; done]).
      unfold nonNumericChar at 2. by rewrite El, Eh. }
    destruct (Z.eqb_spec c hyphen) as [->|Eh].
    { change (hyphen =? dot) with false. cbv iota. rewrite (last_dot cur nn Hp). destruct (Z.eqb_spec (len cur) 0) as [E|E].
      - destruct cur; [|rewrite len_cons in E; pose proof (len_nonneg cur); lia]. cbn [verdict]. rewrite hopeless_labels; [done|]. right. done.
      - rewrite scanState_snoc, IH by (apply promising_snoc; [done|unfold nameChar; by rewrite Z.eqb_refl, orb_true_r|intros ->; done]).
        unfold nonNumericChar at 2. rewrite El, Z.eqb_refl. simpl. by rewrite orb_true_r. }
    destruct (Z.eqb_spec c dot) as [->|Edot].
    { rewrite (last_dot cur nn Hp), last_hyphen. replace (nonNumericChar dot) with false by done. simpl orb at 3.
      assert (exists l ls, labels [] s = l :: ls) as (l & ls & Els) by (destruct (labels_first [] s) as (k & ls & ->); eauto).
      assert (labelsOk (cur :: labels [] s) = labelOk cur && labelsOk (labels [] s)) as -> by (rewrite Els; done). rewrite promising_labelOk by done. pose proof (len_nonneg cur).
      rewrite Z.gtb_ltb, Z.ltb_antisym. destruct (Z.eqb_spec (len cur) 0) as [E|E]; [rewrite (proj2 (Z.leb_gt 1 (len cur))) by lia; done|].
      rewrite (proj2 (Z.leb_le 1 (len cur))) by lia. destruct (ends cur); simpl; [by rewrite andb_false_r|]. destruct (len cur <=? 63); simpl; [|done].
      change {| ns_last := dot; ns_nonNumeric := nn; ns_partlen := 0 |} with (scanState [] nn). apply IH. done. }
    cbn [verdict]. rewrite hopeless_labels; [done|]. left. rewrite forallb_app. simpl. unfold nameChar at 2. rewrite El, Ed, (proj2 (Z.eqb_neq _ _) Eh). simpl. apply andb_false_r.
Qed.

(** isDomainName accepts exactly the names that the rules for labels allow: 1 to 253 bytes
    (254 with a final dot), labels of 1 to 63 letters, digits, underscores and hyphens
    that do not begin or end with a hyphen, and not only digits and dots. *)
Theorem isDomainName_spec s : isDomainName s = validName s.
Proof.
  unfold isDomainName, validName. pose proof (len_nonneg s).
  change {| ns_last := dot; ns_nonNumeric := false; ns_partlen := 0 |} with (scanState [] false).
  pose proof (scan_labels s [] false ltac:(done)) as Hv. unfold verdict in Hv. rewrite Z.gtb_ltb. simpl orb in Hv.
  destruct (Z.eqb_spec (len s) 0) as [E|E]; [by rewrite (proj2 (Z.leb_gt 1 (len s))) by lia|]. rewrite (proj2 (Z.leb_le 1 (len s))) by lia.
  destruct (Z.ltb_spec 254 (len s)); [by rewrite (proj2 (Z.leb_gt (len s) 254)) by lia|]. rewrite (proj2 (Z.leb_le (len s) 254)) by lia. simpl orb. simpl andb.
  destruct (Z.eqb_spec (len s) 254) as [E'|E']; simpl andb.
  - rewrite (proj2 (Z.ltb_ge (len s) 254)) by lia. simpl orb. destruct (default 0 (last s) =? dot); simpl; [exact Hv|done].
  - rewrite (proj2 (Z.ltb_lt (len s) 254)) by lia. simpl. exact Hv.
Qed.

(** ** Responses *)

Lemma equalFrom_lower x : forall y, len x = len y -> equalFrom x y = bool_decide (map lower x = map lower y).
Proof.
  induction x as [|a x IH]; intros [|b y] Hl; [done|rewrite len_cons, len_nil in Hl; pose proof (len_nonneg y); lia|rewrite len_cons, len_nil in Hl; pose proof (len_nonneg x); lia|].
  rewrite !len_cons in Hl. cbn [equalFrom map]. destruct (Z.eqb_spec (lower a) (lower b)) as [E|E].
  - rewrite IH by lia. apply bool_decide_ext. rewrite E. split; [congruence|]. by intros [= ->].
  - symmetry. apply bool_decide_eq_false. by intros [= ? ?].
Qed.
(** Names are compared without regard to the case of ASCII letters. *)
Lemma equalASCIIName_spec x y : equalASCIIName x y = bool_decide (map lower x = map lower y).
Proof.
  unfold equalASCIIName. destruct (Z.eqb_spec (len x) (len y)) as [E|E]; simpl; [by apply equalFrom_lower|].
  symmetry. apply bool_decide_eq_false. intros H. apply E. apply (f_equal length) in H. rewrite !length_map in H. unfold len. lia.
Qed.

(** What the resolver requires of a response. *)
Definition matches (id : Z) (q : Question) (h : Header) (q' : Question) : Prop :=
  h_Response h = true /\ h_ID h = id /\ q_type q' = q_type q /\ q_class q' = q_class q /\ map lower (q_name q') = map lower (q_name q).
Lemma checkResponse_spec id q h q' : checkResponse id q h q' = true <-> matches id q h q'.
Proof.
  unfold checkResponse, matches. rewrite equalASCIIName_spec. destruct (h_Response h); simpl; [|naive_solver].
  destruct (Z.eqb_spec id (h_ID h)); simpl; [|naive_solver]. destruct (Z.eqb_spec (q_type q) (q_type q')); simpl; [|naive_solver].
  destruct (Z.eqb_spec (q_class q) (q_class q')); simpl; [|naive_solver]. case_bool_decide; simpl; naive_solver.
Qed.

Section Responses.
Context {D : Dnsmessage}.

(** A datagram that is not a response to the question. *)
Definition ignored (id : Z) (q : Question) (b : list Z) : Prop :=
  forall p h q' p', Start (take 512 b) = Some (p, h) -> ParseQuestion p = Some (q', p') -> ~ matches id q h q'.

Lemma readPackets_ignores id q noise rest : Forall (ignored id q) noise -> readPackets id q (map Ok noise ++ rest) = readPackets id q rest.
Proof.
  intros Hn. induction Hn as [|b noise Hb _ IH]; [done|]. cbn [map app readPackets]. rewrite IH. destruct (Start (take 512 b)) as [[p h]|] eqn:Es; [|done].
  destruct (ParseQuestion p) as [[q' p']|] eqn:Eq; [|done]. destruct (checkResponse id q h q') eqn:Ec; [|done]. apply checkResponse_spec in Ec. by destruct (Hb _ _ _ _ Es Eq).
Qed.
Lemma readPackets_sound id q reads p h : readPackets id q reads = Some (Ok (p, h)) ->
  exists noise b rest p0 q', reads = map Ok noise ++ Ok b :: rest /\ Forall (ignored id q) noise /\
    Start (take 512 b) = Some (p0, h) /\ ParseQuestion p0 = Some (q', p) /\ matches id q h q'.
Proof.
  induction reads as [|[b|e] reads IH]; [done| |done]. cbn [readPackets]. intros H.
  assert (readPackets id q reads = Some (Ok (p, h)) -> ignored id q b -> exists noise b' rest p0 q', Ok b :: reads = map Ok noise ++ Ok b' :: rest /\ Forall (ignored id q) noise /\
    Start (take 512 b') = Some (p0, h) /\ ParseQuestion p0 = Some (q', p) /\ matches id q h q') as Hnext.
  { intros H' Hb. destruct (IH H') as (noise & b' & rest & p0 & q' & -> & Hn & Hr). exists (b :: noise), b', rest, p0, q'. split; [done|]. split; [by constructor|done]. }
  destruct (Start (take 512 b)) as [[p1 h1]|] eqn:Es; [|apply Hnext; [done|intros ? ? ? ? E; congruence]].
  destruct (ParseQuestion p1) as [[q1 p2]|] eqn:Eq; [|apply Hnext; [done|intros ? ? ? ? E E'; congruence]].
  destruct (checkResponse id q h1 q1) eqn:Ec.
  - injection H as -> ->. exists [], b, reads, p1, q1. split; [done|]. split; [constructor|]. split; [done|]. split; [done|]. by apply checkResponse_spec.
  - apply Hnext; [done|]. intros p' h' q' p'' E E' Hm. assert (p' = p1 /\ h' = h1) as [-> ->] by (split; congruence). assert (q' = q1) as -> by congruence.
    apply checkResponse_spec in Hm. congruence.
Qed.
End Responses.

(** C32: Over UDP the resolver uses exactly the first datagram that answers its question: every
    datagram before it that does not parse, is not a response, or has another id, type,
    class or name is ignored, so datagrams that others inject without knowing the id do
    not end the exchange; and what it uses does match. *)
Theorem first_matching_response {D : Dnsmessage} id q noise b rest p0 h q' p :
  Forall (ignored id q) noise -> Start (take 512 b) = Some (p0, h) -> ParseQuestion p0 = Some (q', p) ->
  (matches id q h q' -> dnsPacketRoundTrip None (map Ok noise ++ Ok b :: rest) id q = Some (Ok (p, h))) /\
  (forall reads r h', dnsPacketRoundTrip None reads id q = Some (Ok (r, h')) ->
     exists noise' b' rest' p1 q1, reads = map Ok noise' ++ Ok b' :: rest' /\ Forall (ignored id q) noise' /\
       Start (take 512 b') = Some (p1, h') /\ ParseQuestion p1 = Some (q1, r) /\ matches id q h' q1).
Proof.
  intros Hn Hs Hq. unfold dnsPacketRoundTrip. split.
  - intros Hm. rewrite readPackets_ignores by done. cbn [readPackets]. rewrite Hs, Hq. by rewrite (proj2 (checkResponse_spec _ _ _ _) Hm).
  - intros reads r h'. apply readPackets_sound.
Qed.

(** The TCP request is the UDP request behind its length, and what a server sends that way is
    read as that message. *)
Lemma newRequest_frame {D : Dnsmessage} id q udp tcp : newRequest id q = Some (udp, tcp) -> tcp = be_bytes 2 (len udp) ++ udp.
Proof.
  unfold newRequest. destruct (buildQuestion id q) as [msg|]; [|done]. intros [= <- <-]. rewrite shiftr_div by lia. unfold be_bytes, u8. simpl. done.
Qed.
Lemma stream_framed {D : Dnsmessage} e id q msg rest p0 h q' p : len msg < 2 ^ 16 ->
  Start msg = Some (p0, h) -> ParseQuestion p0 = Some (q', p) -> matches id q h q' ->
  dnsStreamRoundTrip None (be_bytes 2 (len msg) ++ msg ++ rest) e id q = Ok (p, h).
Proof.
  intros Hl Hs Hq Hm. pose proof (len_nonneg msg). pose proof (len_nonneg rest). unfold dnsStreamRoundTrip, be_bytes. simpl.
  assert (Z.lor (Z.shiftl ((len msg / 256) mod 256) 8) (len msg mod 256) = len msg) as ->.
  { rewrite (Z.mod_small (len msg / 256)) by (split; [apply Z.div_pos; lia|apply Z.div_lt_upper_bound; lia]).
    rewrite Z.shiftl_mul_pow2 by lia. rewrite <- Z.lxor_lor; [rewrite <- Z.add_nocarry_lxor|].
    - change (2 ^ 8) with 256. pose proof (Z.div_mod (len msg) 256). lia.
    - apply Z.bits_inj'. intros n Hn. rewrite Z.land_spec, Z.bits_0. destruct (Z.ltb_spec n 8); [rewrite Z.mul_pow2_bits_low by lia; done|].
      change 256 with (2 ^ 8). rewrite Z.mod_pow2_bits_high by lia. apply andb_false_r.
    - apply Z.bits_inj'. intros n Hn. rewrite Z.land_spec, Z.bits_0. destruct (Z.ltb_spec n 8); [rewrite Z.mul_pow2_bits_low by lia; done|].
      change 256 with (2 ^ 8). rewrite Z.mod_pow2_bits_high by lia. apply andb_false_r. }
  rewrite (proj2 (Z.ltb_ge _ _)) by (rewrite len_app; lia). rewrite take_app_length' by (unfold len; lia). rewrite Hs, Hq. by rewrite (proj2 (checkResponse_spec _ _ _ _) Hm).
Qed.

(** ** Lookups *)

(** The answers of a message. *)
Inductive record : Type := RA (a : list Z) | RAAAA (a : list Z) | ROther (type : Z).
Definition recordType (r : record) : Z := match r with RA _ => TypeA | RAAAA _ => TypeAAAA | ROther t => t end.
Definition v4s (rs : list record) : list Addr := omap (fun r => match r with RA a => Some (mkAddr a []) | _ => None end) rs.
Definition v6s (rs : list record) : list Addr := omap (fun r => match r with RAAAA a => Some (mkAddr a []) | _ => None end) rs.
Definition proper (r : record) : Prop := match r with ROther t => t <> TypeA /\ t <> TypeAAAA | _ => True end.

(** The documented behaviour of the parser: it walks over the answers, [represents] saying
    which are left and [headed] that the header of the first has been read. *)
Class DnsLaws (D : Dnsmessage) : Type := {
  represents : Parser -> list record -> Prop;
  headed : Parser -> record -> list record -> Prop;
  header_done : forall p, represents p [] -> AnswerHeader p = SectionDone;
  header_item : forall p r rs, represents p (r :: rs) -> exists p', AnswerHeader p = SectionItem (recordType r, p') /\ headed p' r rs;
  headed_again : forall p r rs, headed p r rs -> represents p (r :: rs);
  headed_skip : forall p r rs, headed p r rs -> exists p', SkipAnswer p = Some p' /\ represents p' rs;
  headed_A : forall p a rs, headed p (RA a) rs -> exists p', AResource p = Some (a, p') /\ represents p' rs;
  headed_AAAA : forall p a rs, headed p (RAAAA a) rs -> exists p', AAAAResource p = Some (a, p') /\ represents p' rs;
  name_same : forall s n, NewName s = Some n -> n = s;
  name_labels : forall id q, (exists pre, q_name q = pre ++ [dot; dot]) -> buildQuestion id q = None
}.

Section Lookup.
Context {D : Dnsmessage} {L : DnsLaws D}.

Lemma collect_all fuel host server rs : forall p l, represents p rs -> Forall proper rs -> (length rs < fuel)%nat ->
  collect fuel host server p l = Some {| ln_v4 := ln_v4 l ++ v4s rs; ln_v6 := ln_v6 l ++ v6s rs; ln_err := ln_err l |}.
Proof.
  revert rs. induction fuel as [|fuel IH]; intros rs p l Hp Hpr Hf; [lia|]. cbn [collect]. destruct rs as [|r rs].
  { rewrite header_done by done. unfold v4s, v6s. cbn. rewrite !app_nil_r. by destruct l. }
  apply Forall_cons in Hpr as [Hr Hpr]. simpl in Hf. destruct (header_item _ _ _ Hp) as (p' & -> & Hh). destruct r as [a|a|t]; cbn [recordType].
  - rewrite Z.eqb_refl. destruct (headed_A _ _ _ Hh) as (p'' & -> & Hp''). rewrite (IH rs) by (done || lia). cbn [ln_v4 ln_v6 ln_err]. by rewrite <- app_assoc.
  - change (TypeAAAA =? TypeA) with false. cbv iota. rewrite Z.eqb_refl. destruct (headed_AAAA _ _ _ Hh) as (p'' & -> & Hp''). rewrite (IH rs) by (done || lia). cbn [ln_v4 ln_v6 ln_err]. by rewrite <- app_assoc.
  - destruct Hr as [H1 H2]. rewrite (proj2 (Z.eqb_neq _ _) H1), (proj2 (Z.eqb_neq _ _) H2). destruct (headed_skip _ _ _ Hh) as (p'' & -> & Hp''). by rewrite (IH rs) by (done || lia).
Qed.

(** Skipping to the first answer of a type leaves all answers of that type. *)
Lemma skipToAnswer_finds fuel qtype rs : forall p, represents p rs -> (length rs < fuel)%nat -> (exists r, r ∈ rs /\ recordType r = qtype) ->
  exists pre rs' p', skipToAnswer fuel p qtype = Some (Ok p') /\ rs = pre ++ rs' /\ Forall (fun r => recordType r <> qtype) pre /\ represents p' rs'.
Proof.
  revert rs. induction fuel as [|fuel IH]; intros rs p Hp Hf (r0 & Hin & Ht); [lia|]. destruct rs as [|r rs]; [set_solver|]. simpl in Hf.
  cbn [skipToAnswer]. destruct (header_item _ _ _ Hp) as (p' & -> & Hh). destruct (Z.eqb_spec (recordType r) qtype) as [E|E].
  - exists [], (r :: rs), p'. split; [done|]. split; [done|]. split; [constructor|]. by apply headed_again.
  - destruct (headed_skip _ _ _ Hh) as (p'' & -> & Hp''). destruct (IH rs p'') as (pre & rs' & p3 & -> & -> & Hpre & H3); [done|lia|exists r0; split; [set_solver|done]|].
    exists (r :: pre), rs', p3. split; [done|]. split; [done|]. split; [by constructor|done].
Qed.

(** The first server has answered the question of a lane with the records [rs]. *)
Record answers (fuel : nat) (x : exchangeEnv) (name : list Z) (qtype : Z) (rs : list record) : Prop := {
  an_reply : exists p h, exchange x {| q_name := name; q_type := qtype; q_class := ClassINET |} = Some (Ok (p, h)) /\ h_RCode h = RCodeSuccess /\ represents p rs;
  an_proper : Forall proper rs;
  an_found : exists r, r ∈ rs /\ recordType r = qtype;
  an_fuel : (length rs < fuel)%nat
}.

Lemma tryOneName_first fuel servers s env name qtype rs : NewName name = Some name -> answers fuel (env 0%nat) name qtype rs ->
  exists pre rs' p', tryOneName fuel (s :: servers) env name qtype = Some {| nm_p := p'; nm_server := Some s; nm_err := None |} /\
    rs = pre ++ rs' /\ Forall (fun r => recordType r <> qtype) pre /\ represents p' rs'.
Proof.
  intros Hn [(p & h & Hx & Hrc & Hp) Hpr Hfound Hf]. destruct (skipToAnswer_finds fuel qtype rs p Hp Hf Hfound) as (pre & rs' & p' & Es & Ers & Hpre & Hp').
  exists pre, rs', p'. split; [|done]. unfold tryOneName. rewrite Hn. cbn [app tryServers]. unfold tryServer. rewrite Hx. cbn [mbind option_bind].
  assert (checkHeader p h = None) as ->.
  { unfold checkHeader. rewrite Hrc. change (RCodeSuccess =? RCodeNameError) with false. cbv iota. destruct rs as [|r rs0]; [destruct Hfound as (r & Hr & _); set_solver|].
    destruct (header_item _ _ _ Hp) as (p1 & -> & _). rewrite !andb_false_r. done. }
  rewrite Es. done.
Qed.

Lemma v4s_app a b : v4s (a ++ b) = v4s a ++ v4s b.
Proof. apply omap_app. Qed.
Lemma v6s_app a b : v6s (a ++ b) = v6s a ++ v6s b.
Proof. apply omap_app. Qed.
Lemma v4s_none pre : Forall (fun r => recordType r <> TypeA) pre -> v4s pre = [].
Proof. induction 1 as [|r pre Hr _ IH]; [done|]. unfold v4s in *. cbn. destruct r; [done|exact IH..]. Qed.
Lemma v6s_none pre : Forall (fun r => recordType r <> TypeAAAA) pre -> v6s pre = [].
Proof. induction 1 as [|r pre Hr _ IH]; [done|]. unfold v6s in *. cbn. destruct r; [exact IH|done|exact IH]. Qed.
End Lookup.

(** A lookup of a host name asks for both families and returns all addresses of the answers,
    those of IPv6 first, each family in the order of the message, whichever answer comes
    first; records of other types (such as CNAME) are passed over. *)
Theorem lookup_addresses {D : Dnsmessage} {L : DnsLaws D} fuel tnet s servers envs swap host rs4 rs6 :
  hasV4 tnet = true -> hasV6 tnet = true -> dnsServers tnet = s :: servers ->
  isDomainName host = true -> ParseAddr (withoutZone host) = None -> NewName (host ++ [dot]) = Some (host ++ [dot]) ->
  answers fuel (envs TypeA 0%nat) (host ++ [dot]) TypeA rs4 -> answers fuel (envs TypeAAAA 0%nat) (host ++ [dot]) TypeAAAA rs6 ->
  v6s rs4 = [] -> v4s rs6 = [] ->
  LookupContextHost fuel tnet envs swap host = Some (Ok (map AddrString (v6s rs6 ++ v4s rs4))).
Proof.
  intros H4 H6 Hsrv Hdom Hip Hname A4 A6 E64 E46. unfold LookupContextHost. rewrite H4, H6, Hsrv, Hip, Hdom.
  assert ((len host =? 0) || (negb true && negb true) = false) as ->.
  { destruct (Z.eqb_spec (len host) 0) as [E|]; [|done]. rewrite isDomainName_spec in Hdom. unfold validName in Hdom. rewrite E in Hdom. done. }
  destruct (tryOneName_first fuel servers s (envs TypeA) _ _ _ Hname A4) as (pre4 & rs4' & p4 & -> & -> & Hpre4 & Hp4). cbn [negb mbind option_bind].
  destruct (tryOneName_first fuel servers s (envs TypeAAAA) _ _ _ Hname A6) as (pre6 & rs6' & p6 & -> & -> & Hpre6 & Hp6). cbn [mbind option_bind].
  destruct A4 as [_ Hpr4 _ Hf4]. destruct A6 as [_ Hpr6 _ Hf6]. apply Forall_app in Hpr4 as [_ Hpr4]. apply Forall_app in Hpr6 as [_ Hpr6]. rewrite length_app in Hf4, Hf6.
  rewrite v6s_app in E64. rewrite v4s_app in E46. apply app_eq_nil in E64 as [_ E64]. apply app_eq_nil in E46 as [_ E46].
  rewrite v4s_app, v6s_app, (v4s_none pre4), (v6s_none pre6), !app_nil_l by done.
  assert (collectLanes fuel host (if swap then [{| nm_p := p6; nm_server := Some s; nm_err := None |}] ++ [{| nm_p := p4; nm_server := Some s; nm_err := None |}]
    else [{| nm_p := p4; nm_server := Some s; nm_err := None |}] ++ [{| nm_p := p6; nm_server := Some s; nm_err := None |}]) {| ln_v4 := []; ln_v6 := []; ln_err := None |} =
    Some {| ln_v4 := v4s rs4'; ln_v6 := v6s rs6'; ln_err := None |}) as ->.
  { destruct swap; cbn [app collectLanes nm_err nm_server nm_p].
    - rewrite (collect_all fuel host (Some s) rs6') by (done || lia). cbn [mbind option_bind]. rewrite (collect_all fuel host (Some s) rs4') by (done || lia). cbn [mbind option_bind ln_v4 ln_v6 ln_err app]. by rewrite E64, E46, app_nil_r.
    - rewrite (collect_all fuel host (Some s) rs4') by (done || lia). cbn [mbind option_bind]. rewrite (collect_all fuel host (Some s) rs6') by (done || lia). cbn [mbind option_bind ln_v4 ln_v6 ln_err app]. by rewrite E64, E46, app_nil_r. }
  cbn [mbind option_bind ln_v4 ln_v6 ln_err]. by destruct (v6s rs6' ++ v4s rs4').
Qed.

Section FinalDot.
Context {D : Dnsmessage} {L : DnsLaws D}.

(** A name that ends in two dots cannot be asked for. *)
Lemma dots_unaskable fuel servers env name qtype : (exists pre, name = pre ++ [dot; dot]) -> servers <> [] ->
  exists r e, tryOneName fuel servers env name qtype = Some r /\ nm_err r = Some e.
Proof.
  intros Hname Hne. unfold tryOneName. destruct (NewName name) as [n|] eqn:En; [|by eexists _, _]. apply name_same in En as ->.
  set (q := {| q_name := name; q_type := qtype; q_class := ClassINET |}).
  assert (forall x, exchange x q = Some (Err errCannotMarshalDNSMessage)) as Hx by (intros x; unfold exchange, newRequest; by rewrite (name_labels (x_id x) q Hname)).
  assert (forall srv k last, srv <> [] \/ last <> None -> exists r e, tryServers fuel name q qtype srv env k last = Some r /\ nm_err r = Some e) as H.
  { induction srv as [|s srv IH]; intros k last Hor; [destruct last as [e|]; [by eexists _, _|destruct Hor; done]|].
    cbn [tryServers]. unfold tryServer. rewrite Hx. cbn [mbind option_bind]. apply IH. by right. }
  apply H. left. by destruct servers.
Qed.

(** Lanes that all failed. *)
Lemma collect_errors fuel host results l : Forall (fun r => exists e, nm_err r = Some e) results -> results <> [] \/ ln_err l <> None ->
  exists e, collectLanes fuel host results l = Some {| ln_v4 := ln_v4 l; ln_v6 := ln_v6 l; ln_err := Some e |}.
Proof.
  intros Hr. revert l. induction Hr as [|r results (e & He) _ IH]; intros l Hor; cbn [collectLanes].
  - destruct l as [a b [e|]]; [by exists e|]. by destruct Hor.
  - rewrite He. destruct (IH {| ln_v4 := ln_v4 l; ln_v6 := ln_v6 l; ln_err := match ln_err l with Some e' => Some e' | None => Some e end |}) as (e' & ->); [right; by destruct (ln_err l)|]. by exists e'.
Qed.
End FinalDot.

(** A fully qualified name, with its final dot, is a valid name and yet never resolves:
    another dot is appended to it, the question cannot be built, and the lookup fails
    whatever the servers would answer. *)
Theorem final_dot_fails {D : Dnsmessage} {L : DnsLaws D} fuel tnet envs swap host :
  dnsServers tnet <> [] -> (exists pre, host = pre ++ [dot]) -> ParseAddr (withoutZone host) = None ->
  exists e, LookupContextHost fuel tnet envs swap host = Some (Err e).
Proof.
  intros Hsrv (pre & ->) Hip. unfold LookupContextHost. destruct (_ || _) eqn:Eor; [eauto|]. apply orb_false_iff in Eor as [_ Eor]. rewrite Hip. destruct (isDomainName (pre ++ [dot])); cbn [negb]; [|eauto].
  assert (exists pre', (pre ++ [dot]) ++ [dot] = pre' ++ [dot; dot]) as Hname by (exists pre; by rewrite <- app_assoc).
  destruct (dots_unaskable fuel (dnsServers tnet) (envs TypeA) _ TypeA Hname Hsrv) as (r4 & e4 & E4 & H4).
  destruct (dots_unaskable fuel (dnsServers tnet) (envs TypeAAAA) _ TypeAAAA Hname Hsrv) as (r6 & e6 & E6 & H6).
  rewrite E4, E6. cbn [mbind option_bind].
  set (rs4 := if hasV4 tnet then [r4] else []). set (rs6 := if hasV6 tnet then [r6] else []).
  assert ((if hasV4 tnet then Some [r4] else Some []) = Some rs4) as -> by (unfold rs4; by destruct (hasV4 tnet)). cbn [mbind option_bind].
  assert ((if hasV6 tnet then Some [r6] else Some []) = Some rs6) as -> by (unfold rs6; by destruct (hasV6 tnet)). cbn [mbind option_bind].
  destruct (collect_errors fuel (pre ++ [dot]) (if swap then rs6 ++ rs4 else rs4 ++ rs6) {| ln_v4 := []; ln_v6 := []; ln_err := None |}) as (e & ->).
  - unfold rs4, rs6. destruct (hasV4 tnet), (hasV6 tnet), swap; cbn [app]; repeat (apply Forall_cons; split; [by eexists|]); apply Forall_nil; done.
  - left. unfold rs4, rs6. destruct (hasV4 tnet), (hasV6 tnet), swap; done.
  - cbn [mbind option_bind ln_v4 ln_v6 ln_err]. destruct (hasV6 tnet); simpl; eauto.
Qed.

(** ** Dialling *)

(** The deadline of an attempt: none without one for the whole dial; otherwise in the future,
    not behind that of the dial, and two seconds away unless it is that of the dial. *)
Definition shareOk (c : ctxAt) (d : option Z) : Prop :=
  match cx_deadline c, d with
  | None, None => True
  | Some total, Some t => cx_now c < t <= total /\ (t = total \/ cx_now c + saneMinimum <= t)
  | _, _ => False
  end.
Lemma partialDeadline_bounds now d n t : 1 <= n -> partialDeadline now (Some d) n = Ok (Some t) -> now < t <= d /\ (t = d \/ now + saneMinimum <= t).
Proof.
  intros Hn. unfold partialDeadline. destruct (Z.leb_spec (d - now) 0); [done|]. set (rem := d - now).
  assert (0 <= Z.quot rem n <= rem) as Hq by (split; [apply Z.quot_pos; lia|apply Z.quot_le_upper_bound; nia]).
  unfold saneMinimum. destruct (Z.ltb_spec (Z.quot rem n) (2 * 10 ^ 9)); [destruct (Z.ltb_spec rem (2 * 10 ^ 9))|]; intros [= <-]; unfold rem in *; lia.
Qed.

Section Dialing.
Context (p : proto) (ctx : nat -> ctxAt) (dial : proto -> Addr * Z -> option Z -> option dnsErr).

Definition failed (x : Addr * Z * option Z) : Prop := dial p x.1 x.2 <> None.

Lemma dialLoop_log addrs : forall i fe r log, dialLoop p ctx dial addrs i fe = (r, log) ->
  map fst log `prefix_of` addrs /\ (forall k a d, log !! k = Some (a, d) -> shareOk (ctx (i + k)%nat) d) /\
  match r with
  | Ok a => exists pre d, log = pre ++ [(a, d)] /\ dial p a d = None /\ Forall failed pre
  | Err _ => Forall failed log
  end.
Proof.
  induction addrs as [|addr addrs IH]; intros i fe r log; cbn [dialLoop]; [intros [= <- <-]; split; [done|]; split; [done|constructor]|].
  destruct (cx_done (ctx i)); [intros [= <- <-]; split; [apply prefix_nil|]; split; [done|constructor]|].
  set (dl := match cx_deadline (ctx i) with None => Ok None | Some d => _ end).
  assert (forall d, dl = Ok d -> shareOk (ctx i) d) as Hdl.
  { intros d. unfold dl, shareOk. destruct (cx_deadline (ctx i)) as [total|]; [|by intros [= <-]].
    destruct (partialDeadline _ _ _) as [[pd|]|] eqn:E; [|unfold partialDeadline in E; repeat case_match; done|done]. intros [= <-].
    apply partialDeadline_bounds in E; [|rewrite len_cons; pose proof (len_nonneg addrs); lia]. destruct (Z.ltb_spec pd total); lia. }
  destruct dl as [d|e]; [|intros [= <- <-]; split; [apply prefix_nil|]; split; [done|constructor]]. specialize (Hdl d eq_refl).
  destruct (dial p addr d) as [e|] eqn:Ed.
  - destruct (dialLoop p ctx dial addrs (S i) _) as [r' log'] eqn:El. intros [= <- <-]. destruct (IH _ _ _ _ El) as (Hpre & Hk & Hr). split; [by apply prefix_cons|]. split.
    + intros [|k] a d' Hl; [injection Hl as <- <-; by rewrite Nat.add_0_r|]. rewrite <- Nat.add_succ_comm. by apply (Hk k a).
    + assert (failed (addr, d)) as Hf by (unfold failed; simpl; congruence). destruct r' as [a|e']; [|by constructor].
      destruct Hr as (pre & d' & -> & Hd & Hpf). exists ((addr, d) :: pre), d'. split; [done|]. split; [done|by constructor].
  - intros [= <- <-]. split; [apply prefix_cons, prefix_nil|]. split; [|by exists [], d]. intros [|k] a d' Hl; [injection Hl as <- <-; by rewrite Nat.add_0_r|by destruct k].
Qed.
End Dialing.

(** The family that a network name asks for. *)
Definition familyOk (family : option Z) (a : Addr) : Prop :=
  match family with None => Is4 a = true \/ Is6 a = true | Some f => if f =? 4 then Is4 a = true else Is6 a = true end.
Lemma suitable_family family port all a : a ∈ suitable family port all -> familyOk family a.1 /\ a.2 = u16 port.
Proof.
  unfold suitable. intros (s & _ & H)%list_elem_of_omap. destruct (ParseAddr s) as [ip|]; [|done]. cbn [mbind option_bind] in H. unfold familyOk.
  destruct family as [f|]; [destruct (f =? 4)|]; destruct (Is4 ip) eqn:E4, (Is6 ip) eqn:E6; simpl in H; try done; injection H as <-; simpl; auto.
Qed.

(** A dial tries the addresses of the lookup that are of the family the network name asks
    for, in the order of the lookup and on the port of the address, one after the other
    until one succeeds; the connection it returns is to the first address whose dial did
    not fail. Every attempt gets a share of the time: its deadline is in the future, not
    behind the deadline of the dial, and at least two seconds away unless that comes
    first. *)
Theorem dial_in_order lookup ctx dial network address r log :
  DialContext lookup ctx dial network address = Some (r, log) -> log <> [] ->
  exists p family host port all, protoSplitter network = Some (p, family) /\ lookup host = Some (Ok all) /\
    map fst log `prefix_of` suitable family port all /\
    (forall k a d, log !! k = Some (a, d) -> familyOk family a.1 /\ a.2 = u16 port /\ shareOk (ctx k) d) /\
    (p <> ping -> exists sport, SplitHostPort address = Some (host, sport) /\ Atoi sport = Some port /\ is_u16 port) /\
    match r with
    | Ok a => exists pre d, log = pre ++ [(a, d)] /\ dial p a d = None /\ Forall (failed p dial) pre
    | Err _ => Forall (failed p dial) log
    end.
Proof.
  intros H Hne. unfold DialContext in H. destruct (protoSplitter network) as [[p family]|]; [|by injection H as <- <-].
  set (hp := match p with ping => Ok (address, 0) | _ => _ end) in H.
  assert (forall host port, hp = Ok (host, port) -> p <> ping -> exists sport, SplitHostPort address = Some (host, sport) /\ Atoi sport = Some port /\ is_u16 port) as Hhp.
  { intros host port Eh Hp. unfold hp in Eh. destruct (SplitHostPort address) as [[h sport]|]; [|by destruct p]. destruct (Atoi sport) as [pt|] eqn:Ea; [|by destruct p].
    destruct (Z.ltb_spec pt 0); [by destruct p|]. destruct (Z.gtb_spec pt 65535); [by destruct p|]. exists sport. destruct p; [| |done]; injection Eh as <- <-; (split; [done|]; split; [done|width_lia]). }
  destruct hp as [[host port]|e]; [|by injection H as <- <-]. destruct (lookup host) as [all|] eqn:El; [|done]. cbn [mbind option_bind] in H. destruct all as [all|e]; [|by injection H as <- <-].
  destruct (_ && _); [by injection H as <- <-|]. destruct (dialLoop p ctx dial (suitable family port all) 0 None) as [r' log'] eqn:Ed. injection H as <- <-.
  destruct (dialLoop_log _ _ _ _ _ _ _ _ Ed) as (Hpre & Hk & Hr). exists p, family, host, port, all. split_and!; [done|done|done| |by apply Hhp|by destruct r'].
  intros k a d Hl. assert (a ∈ suitable family port all) as Ha.
  { destruct Hpre as (rest & ->). apply elem_of_app. left. apply list_elem_of_lookup_2 with k. by rewrite list_lookup_fmap, Hl. }
  destruct (suitable_family _ _ _ _ Ha). split_and!; [done|done|]. by apply (Hk k a d).
Qed.

(** ** Runs *)

(** A parser for messages of id, type, length of the name, name and an address, which follows
    a record of another type. *)
Definition endsDots (s : list Z) : bool := bool_decide (last s = Some dot) && bool_decide (last (removelast s) = Some dot).
#[local] Instance sampleDns : Dnsmessage := {|
  Parser := Question * list record;
  zeroParser := ({| q_name := []; q_type := 0; q_class := 0 |}, []);
  NewName := Some;
  buildQuestion := fun id q => if endsDots (q_name q) then None else Some (id :: q_type q :: len (q_name q) :: q_name q);
  Start := fun b => match b with
    | id :: t :: n :: rest =>
        Some (({| q_name := take (Z.to_nat n) rest; q_type := t; q_class := ClassINET |},
               [ROther 5; if t =? TypeA then RA (drop (Z.to_nat n) rest) else RAAAA (drop (Z.to_nat n) rest)]),
              {| h_ID := id; h_Response := true; h_Authoritative := false; h_Truncated := false; h_RecursionAvailable := true; h_RCode := RCodeSuccess |})
    | _ => None
    end;
  ParseQuestion := fun p => Some (p.1, p);
  SkipQuestion := fun p => SectionDone;
  AnswerHeader := fun p => match p.2 with [] => SectionDone | r :: _ => SectionItem (recordType r, p) end;
  SkipAnswer := fun p => match p.2 with [] => None | _ :: rs => Some (p.1, rs) end;
  AResource := fun p => match p.2 with RA a :: rs => Some (a, (p.1, rs)) | _ => None end;
  AAAAResource := fun p => match p.2 with RAAAA a :: rs => Some (a, (p.1, rs)) | _ => None end
|}.

Lemma endsDots_app pre : endsDots (pre ++ [dot; dot]) = true.
Proof. change [dot; dot] with ([dot] ++ [dot]). rewrite app_assoc. unfold endsDots. rewrite last_snoc, removelast_last, last_snoc. done. Qed.
#[local] Instance sampleDnsLaws : DnsLaws sampleDns.
Proof.
  refine {| represents := fun p rs => p.2 = rs; headed := fun p r rs => p.2 = r :: rs |}; cbn.
  - intros p ->. done.
  - intros p r rs H. exists p. by rewrite H.
  - done.
  - intros p r rs ->. by eexists.
  - intros p a rs ->. by eexists.
  - intros p a rs ->. by eexists.
  - by intros s n [= ->].
  - intros id q (pre & ->). by rewrite endsDots_app.
Defined.

(** The name "go" and the address of a server. *)
Definition sampleHost : list Z := [103; 111].
Definition sampleServer : Addr := mkAddr [10; 0; 0; 53] [].
Definition sampleNet : Net := {| hasV4 := true; hasV6 := true; dnsServers := [sampleServer] |}.
(** A datagram with another id comes before the answer. *)
Definition sampleExchange (qtype : Z) (addr : list Z) : exchangeEnv :=
  {| x_id := 7; x_udpDial := None; x_udpDeadline := None; x_udpWrite := None;
     x_udpReads := [Ok ([8; qtype; 3] ++ sampleHost ++ [dot] ++ addr); Ok ([7; qtype; 3] ++ sampleHost ++ [dot] ++ addr)];
     x_tcpDial := None; x_tcpDeadline := None; x_tcpWrite := None; x_tcpStream := []; x_tcpErr := errTimeout |}.
Definition sampleEnvs (qtype : Z) (k : nat) : exchangeEnv :=
  sampleExchange qtype (if qtype =? TypeA then [192; 0; 2; 1] else replicate 16 1).

Lemma first_matching_response_witness :
  dnsPacketRoundTrip None (x_udpReads (sampleEnvs TypeA 0)) 7 {| q_name := sampleHost ++ [dot]; q_type := TypeA; q_class := ClassINET |} <> None.
Proof.
  set (q := {| q_name := sampleHost ++ [dot]; q_type := TypeA; q_class := ClassINET |}).
  destruct (first_matching_response (D := sampleDns) 7 q [[8; TypeA; 3] ++ sampleHost ++ [dot] ++ [192; 0; 2; 1]] ([7; TypeA; 3] ++ sampleHost ++ [dot] ++ [192; 0; 2; 1]) []
    (q, [ROther 5; RA [192; 0; 2; 1]]) {| h_ID := 7; h_Response := true; h_Authoritative := false; h_Truncated := false; h_RecursionAvailable := true; h_RCode := RCodeSuccess |} q (q, [ROther 5; RA [192; 0; 2; 1]])) as [H _].
  - constructor; [|constructor]. intros p h q' p' E _ (_ & Hid & _). vm_compute in E. injection E as <- <-. discriminate Hid.
  - reflexivity.
  - reflexivity.
  - change (x_udpReads (sampleEnvs TypeA 0)) with (map (@Ok (list Z) dnsErr) [[8; TypeA; 3] ++ sampleHost ++ [dot] ++ [192; 0; 2; 1]] ++ [Ok ([7; TypeA; 3] ++ sampleHost ++ [dot] ++ [192; 0; 2; 1])]).
    rewrite H; [discriminate|]. repeat split.
Defined.

Lemma lookup_addresses_witness :
  LookupContextHost 10 sampleNet sampleEnvs true sampleHost = Some (Ok (map AddrString [mkAddr (replicate 16 1) []; mkAddr [192; 0; 2; 1] []])).
Proof.
  assert (forall qtype r, qtype = recordType r -> proper r -> exchange (sampleEnvs qtype 0) {| q_name := sampleHost ++ [dot]; q_type := qtype; q_class := ClassINET |} =
    Some (Ok (({| q_name := sampleHost ++ [dot]; q_type := qtype; q_class := ClassINET |}, [ROther 5; r]), {| h_ID := 7; h_Response := true; h_Authoritative := false; h_Truncated := false; h_RecursionAvailable := true; h_RCode := RCodeSuccess |})) ->
    answers 10 (sampleEnvs qtype 0) (sampleHost ++ [dot]) qtype [ROther 5; r]) as Ha.
  { intros qtype r Ht Hp E. split; [eexists _, _; split; [exact E|split; reflexivity]|constructor; [split; discriminate|constructor; [exact Hp|constructor]]|exists r; split; [set_solver|symmetry; exact Ht]|simpl; lia]. }
  exact (lookup_addresses 10 sampleNet sampleServer [] sampleEnvs true sampleHost [ROther 5; RA [192; 0; 2; 1]] [ROther 5; RAAAA (replicate 16 1)]
    eq_refl eq_refl eq_refl ltac:(vm_compute; reflexivity) ltac:(vm_compute; reflexivity) eq_refl
    (Ha TypeA (RA [192; 0; 2; 1]) eq_refl I ltac:(vm_compute; reflexivity)) (Ha TypeAAAA (RAAAA (replicate 16 1)) eq_refl I ltac:(vm_compute; reflexivity)) eq_refl eq_refl).
Defined.

Lemma final_dot_fails_witness : isDomainName (sampleHost ++ [dot]) = true /\
  exists e, LookupContextHost 10 sampleNet sampleEnvs false (sampleHost ++ [dot]) = Some (Err e).
Proof.
  split; [vm_compute; reflexivity|].
  exact (final_dot_fails 10 sampleNet sampleEnvs false (sampleHost ++ [dot]) ltac:(discriminate) (ex_intro _ sampleHost eq_refl) ltac:(vm_compute; reflexivity)).
Defined.

(** A dial of an address literal with ten seconds left, refused. *)
Definition sampleCtx (i : nat) : ctxAt := {| cx_done := None; cx_deadline := Some (10 ^ 10); cx_now := 0 |}.
Definition sampleLookup (host : list Z) : option (result (list (list Z)) lookupErr) := Some (Ok [AddrString (mkAddr [192; 0; 2; 1] [])]).
Lemma dial_in_order_witness : exists r log,
  DialContext sampleLookup sampleCtx (fun _ _ _ => Some errTimeout) [116; 99; 112; 52] [103; 58; 56; 48] = Some (r, log) /\
  forall a d, log !! 0%nat = Some (a, d) -> shareOk (sampleCtx 0) d.
Proof.
  destruct (DialContext sampleLookup sampleCtx (fun _ _ _ => Some errTimeout) [116; 99; 112; 52] [103; 58; 56; 48]) as [[r log]|] eqn:E; [|vm_compute in E; discriminate E].
  exists r, log. split; [reflexivity|].
  destruct (dial_in_order sampleLookup sampleCtx (fun _ _ _ => Some errTimeout) [116; 99; 112; 52] [103; 58; 56; 48] r log E
    ltac:(intros ->; vm_compute in E; discriminate E)) as (p & family & host & port & all & _ & _ & _ & H & _).
  intros a d Hl. exact (proj2 (proj2 (H 0%nat a d Hl))).
Defined.
