(* ===== verification/NetTun.v ===== *)
(** * NetTun: the device and the ping connections of the user space stack (src/tun/netstack/tun.go)

    The gVisor stack is outside the sources: the calls that are made on it are recorded, what
    they answer is an argument, and what it does on its own (calling WriteNotify, notifying a
    waiting reader) is a label of a step. Network protocols are named by their version, as in
    Netstack. Goroutines that meet at a channel are threads of a state whose steps are
    functions from labels. *)
From S2P Require Import Prelude Threads GoLib NetIP Netstack.
#[local] Open Scope Z_scope.

(** ** CreateNetTUN *)

Inductive stackCall : Type :=
| SetTransportProtocolOption
| AddNotify
| CreateNIC
| AddProtocolAddress (protocol : Z) (addr : list Z)
| AddRoute (family : Z).

(** The errors of the stack. *)
Record stackAnswers : Type := { st_sack : option Z; st_nic : option Z; st_address : nat -> option Z }.

Inductive createErr : Type := ErrSACK (e : Z) | ErrCreateNIC (e : Z) | ErrAddProtocolAddress (ip : option Addr) (e : Z).

Record netTun : Type := { nt_net : Net; nt_mtu : Z }.

(** An address that was not set is [None]; it is of no family and has no bytes. *)
Definition is4 (a : option Addr) : bool := match a with Some a => Is4 a | None => false end.
Definition is6 (a : option Addr) : bool := match a with Some a => Is6 a | None => false end.
Definition asSlice (a : option Addr) : list Z := match a with Some a => ad_bytes a | None => [] end.
Definition protoOf (ip : option Addr) : Z := if is4 ip then 4 else if is6 ip then 6 else 0.

Fixpoint addAddresses (st : stackAnswers) (n : nat) (ips : list (option Addr)) (v4 v6 : bool) : list stackCall * result (bool * bool) createErr :=
  match ips with
  | [] => ([], Ok (v4, v6))
  | ip :: ips =>
      let c := AddProtocolAddress (protoOf ip) (asSlice ip) in
      match st_address st n with
      | Some e => ([c], Err (ErrAddProtocolAddress ip e))
      | None =>
          let '(v4, v6) := if is4 ip then (true, v6) else if is6 ip then (v4, true) else (v4, v6) in
          let '(cs, r) := addAddresses st (S n) ips v4 v6 in (c :: cs, r)
      end
  end.

Definition CreateNetTUN (st : stackAnswers) (localAddresses : list (option Addr)) (servers : list Addr) (mtu : Z) : list stackCall * result netTun createErr :=
  match st_sack st with
  | Some e => ([SetTransportProtocolOption], Err (ErrSACK e))
  | None =>
      match st_nic st with
      | Some e => ([SetTransportProtocolOption; AddNotify; CreateNIC], Err (ErrCreateNIC e))
      | None =>
          let '(cs, r) := addAddresses st 0 localAddresses false false in
          let cs := [SetTransportProtocolOption; AddNotify; CreateNIC] ++ cs in
          match r with
          | Err e => (cs, Err e)
          | Ok (v4, v6) =>
              (cs ++ (if v4 then [AddRoute 4] else []) ++ (if v6 then [AddRoute 6] else []),
               Ok {| nt_net := {| hasV4 := v4; hasV6 := v6; dnsServers := servers |}; nt_mtu := mtu |})
          end
      end
  end.

(** ** Addresses of connections *)

Record FullAddress : Type := { fa_nic : Z; fa_addr : list Z; fa_port : Z }.

Definition convertToFullAddr (endpoint : option Addr * Z) : FullAddress * Z :=
  ({| fa_nic := 1; fa_addr := asSlice endpoint.1; fa_port := endpoint.2 |}, if is4 endpoint.1 then 4 else 6).

(** netip.AddrFromSlice *)
Definition AddrFromSlice (ip : list Z) : option Addr :=
  if (len ip =? 4) || (len ip =? 16) then Some (mkAddr ip []) else None.
(** A net.TCPAddr or net.UDPAddr, as the dialers convert it; [None] is a nil pointer. *)
Definition fromNetAddr (addr : option (list Z * Z)) : option Addr * Z :=
  match addr with None => (None, 0) | Some (ip, port) => (AddrFromSlice ip, u16 port) end.

(** What is asked of gonet. *)
Inductive gonetCall : Type :=
| GoDialContextTCP (fa : FullAddress) (pn : Z)
| GoDialTCP (fa : FullAddress) (pn : Z)
| GoListenTCP (fa : FullAddress) (pn : Z)
| GoDialUDP (lfa rfa : option FullAddress) (pn : Z).

Definition DialContextTCPAddrPort (addr : option Addr * Z) : gonetCall := let '(fa, pn) := convertToFullAddr addr in GoDialContextTCP fa pn.
Definition DialContextTCP (addr : option (list Z * Z)) : gonetCall := DialContextTCPAddrPort (fromNetAddr addr).
Definition DialTCPAddrPort (addr : option Addr * Z) : gonetCall := let '(fa, pn) := convertToFullAddr addr in GoDialTCP fa pn.
Definition DialTCP (addr : option (list Z * Z)) : gonetCall := DialTCPAddrPort (fromNetAddr addr).
Definition ListenTCPAddrPort (addr : option Addr * Z) : gonetCall := let '(fa, pn) := convertToFullAddr addr in GoListenTCP fa pn.
Definition ListenTCP (addr : option (list Z * Z)) : gonetCall := ListenTCPAddrPort (fromNetAddr addr).

Definition isGiven (a : option Addr * Z) : bool := bool_decide (a.1 <> None) || (a.2 >? 0).
Definition DialUDPAddrPort (laddr raddr : option Addr * Z) : gonetCall :=
  let '(lfa, pn) := if isGiven laddr then let '(fa, pn) := convertToFullAddr laddr in (Some fa, pn) else (None, 0) in
  let '(rfa, pn) := if isGiven raddr then let '(fa, pn) := convertToFullAddr raddr in (Some fa, pn) else (None, pn) in
  GoDialUDP lfa rfa pn.
Definition ListenUDPAddrPort (laddr : option Addr * Z) : gonetCall := DialUDPAddrPort laddr (None, 0).
Definition DialUDP (laddr raddr : option (list Z * Z)) : gonetCall := DialUDPAddrPort (fromNetAddr laddr) (fromNetAddr raddr).
Definition ListenUDP (laddr : option (list Z * Z)) : gonetCall := DialUDP laddr None.

(** ** The device: packets from the stack to the reader *)

Module Device.

(** A goroutine in WriteNotify that holds a view, in Read with its buffer, or in Close; then
    what became of it. [got] is the view that was received. *)
Inductive thread : Type :=
| Sending (view : list Z)
| Notified
| Receiving (buf : list Z) (offset : Z)
| Returned (got : list Z) (buf : list Z) (n : Z)
| ReadClosed
| ClosingEvents
| ClosingIncoming
| Closed.

Record state : Type := {
  threads : list thread;
  events : list Z;             (* the events in the channel, one of them EventUp = 1 *)
  eventsClosed : bool;
  incomingClosed : bool;
  fetched : list (list Z);     (* the views taken from the endpoint *)
  crashed : bool               (* a goroutine has panicked: the program ends *)
}.
Definition EventUp : Z := 1.
Definition newDevice : state :=
  {| threads := []; events := [EventUp]; eventsClosed := false; incomingClosed := false; fetched := []; crashed := false |}.

Definition spawn (t : thread) (s : state) : state :=
  {| threads := threads s ++ [t]; events := events s; eventsClosed := eventsClosed s; incomingClosed := incomingClosed s; fetched := fetched s; crashed := crashed s |}.
Definition goto (i : nat) (t : thread) (s : state) : state :=
  {| threads := <[i := t]> (threads s); events := events s; eventsClosed := eventsClosed s; incomingClosed := incomingClosed s; fetched := fetched s; crashed := crashed s |}.
Definition fetch (v : list Z) (s : state) : state :=
  {| threads := threads s; events := events s; eventsClosed := eventsClosed s; incomingClosed := incomingClosed s; fetched := fetched s ++ [v]; crashed := crashed s |}.
Definition crash (s : state) : state :=
  {| threads := threads s; events := events s; eventsClosed := eventsClosed s; incomingClosed := incomingClosed s; fetched := fetched s; crashed := true |}.
Definition closeEvents (s : state) : state :=
  {| threads := threads s; events := events s; eventsClosed := true; incomingClosed := incomingClosed s; fetched := fetched s; crashed := crashed s |}.
Definition closeIncoming (s : state) : state :=
  {| threads := threads s; events := events s; eventsClosed := eventsClosed s; incomingClosed := true; fetched := fetched s; crashed := crashed s |}.

(** WriteNotify, when the endpoint answers [pkt] to its Read. *)
Definition writeNotify (pkt : option (list Z)) (s : state) : state :=
  match pkt with None => spawn Notified s | Some v => spawn (Sending v) (fetch v s) end.
(** The sender [i] and the receiver [j] meet; Read copies the view. *)
Definition meet (i j : nat) (s : state) : option state :=
  match threads s !! i, threads s !! j with
  | Some (Sending v), Some (Receiving buf offset) =>
      if incomingClosed s then None
      else match netTunRead (Some v) buf offset with
           | Some (Ok (buf', n)) => Some (goto j (Returned v buf' n) (goto i Notified s))
           | Some (Err _) => None
           | None => Some (crash s)
           end
  | _, _ => None
  end.
(** Read on the closed channel. *)
Definition readClosed (j : nat) (s : state) : option state :=
  match threads s !! j with
  | Some (Receiving _ _) => if incomingClosed s then Some (goto j ReadClosed s) else None
  | _ => None
  end.
(** A goroutine that sends on the closed channel panics, also when it was waiting already. *)
Definition sendClosed (i : nat) (s : state) : option state :=
  match threads s !! i with
  | Some (Sending _) => if incomingClosed s then Some (crash s) else None
  | _ => None
  end.
(** The two channels that Close closes, behind its calls on the stack. *)
Definition stepClose (i : nat) (s : state) : option state :=
  match threads s !! i with
  | Some ClosingEvents => Some (if eventsClosed s then crash s else goto i ClosingIncoming (closeEvents s))
  | Some ClosingIncoming => Some (if incomingClosed s then crash s else goto i Closed (closeIncoming s))
  | _ => None
  end.

Inductive label : Type :=
| WriteNotify (pkt : option (list Z))
| Read (buf : list Z) (offset : Z)
| Close
| Meet (i j : nat)
| SeeClosed (j : nat)
| SendOnClosed (i : nat)
| CloseStep (i : nat).

Definition step (l : label) (s : state) : option state :=
  if crashed s then None
  else match l with
       | WriteNotify pkt => Some (writeNotify pkt s)
       | Read buf offset => Some (spawn (Receiving buf offset) s)
       | Close => Some (spawn ClosingEvents s)
       | Meet i j => meet i j s
       | SeeClosed j => readClosed j s
       | SendOnClosed i => sendClosed i s
       | CloseStep i => stepClose i s
       end.
Definition run (ls : list label) (s : state) : option state := foldl (fun o l => s ← o; step l s) (Some s) ls.
Inductive reachable : state -> Prop :=
| reach_new : reachable newDevice
| reach_step l s s' : reachable s -> step l s = Some s' -> reachable s'.
End Device.

(** ** Ping connections *)

Inductive pingErr : Type :=
| ErrPingAddress | ErrEndpoint (e : Z) | ErrPingBind (e : Z) | ErrPingConnect (e : Z).
Inductive pingCall : Type :=
| NewEndpoint (tn pn : Z) | EpBind (fa : FullAddress) | EpConnect (fa : FullAddress) | EpClose.

Record PingConn : Type := { pc_laddr : option Addr; pc_raddr : option Addr }.
Definition IPv4Unspecified : Addr := mkAddr (replicate 4 0) [].
Definition IPv6Unspecified : Addr := mkAddr (replicate 16 0) [].
Definition icmp4 : Z := 1.
Definition icmp6 : Z := 58.

(** PingAddr.Network *)
Inductive pingNetwork : Type := ping4 | ping6 | pingAny.
Definition PingNetwork (a : option Addr) : pingNetwork := if is4 a then ping4 else if is6 a then ping6 else pingAny.

Record pingAnswers : Type := { pa_endpoint : option Z; pa_bind : option Z; pa_connect : option Z }.

Definition DialPingAddr (st : pingAnswers) (laddr raddr : option Addr) : list pingCall * result PingConn pingErr :=
  if bool_decide (laddr = None) && bool_decide (raddr = None) then ([], Err ErrPingAddress)
  else
    let v6 := is6 laddr || is6 raddr in
    let bind := bool_decide (laddr <> None) in
    let laddr := if bind then laddr else Some (if v6 then IPv6Unspecified else IPv4Unspecified) in
    let c1 := [NewEndpoint (if v6 then icmp6 else icmp4) (if v6 then 6 else 4)] in
    match pa_endpoint st with
    | Some e => (c1, Err (ErrEndpoint e))
    | None =>
        let c2 := if bind then c1 ++ [EpBind (convertToFullAddr (laddr, 0)).1] else c1 in
        match (if bind then pa_bind st else None) with
        | Some e => (c2, Err (ErrPingBind e))
        | None =>
            match raddr with
            | None => (c2, Ok {| pc_laddr := laddr; pc_raddr := None |})
            | Some _ =>
                let c3 := c2 ++ [EpConnect (convertToFullAddr (raddr, 0)).1] in
                match pa_connect st with
                | Some e => (c3, Err (ErrPingConnect e))
                | None => (c3, Ok {| pc_laddr := laddr; pc_raddr := raddr |})
                end
            end
        end
    end.
Definition ListenPingAddr (st : pingAnswers) (laddr : option Addr) := DialPingAddr st laddr None.
(** DialPing and ListenPing: a nil pointer is no address. *)
Definition pingAddr (a : option (option Addr)) : option Addr := match a with Some a => a | None => None end.
Definition DialPing (st : pingAnswers) (laddr raddr : option (option Addr)) := DialPingAddr st (pingAddr laddr) (pingAddr raddr).
Definition ListenPing (st : pingAnswers) (laddr : option (option Addr)) := ListenPingAddr st (pingAddr laddr).

(** A net.Addr is a PingAddr, a net.IPAddr or something else. *)
Inductive netAddr : Type := APing (a : option Addr) | AIP (ip : list Z) | AOther.
Inductive writeErr : Type := ErrWrongAddr | ErrMismatched | ErrEpWrite (n : Z) (e : Z).
(** WriteTo: the destination that is given to the endpoint; [answer] is its result. *)
Definition WriteTo (pc : PingConn) (addr : netAddr) (answer : Z * option Z) : option FullAddress * result Z writeErr :=
  let write (na : option Addr) :=
    if negb (is4 na && is4 (pc_laddr pc) || is6 na && is6 (pc_laddr pc)) then (None, Err ErrMismatched)
    else
      (Some (convertToFullAddr (na, 0)).1, match answer.2 with Some e => Err (ErrEpWrite answer.1 e) | None => Ok answer.1 end) in
  match addr with
  | APing a => write a
  | AIP ip => write (AddrFromSlice ip)
  | AOther => (None, Err ErrWrongAddr)
  end.
Definition PingWrite (pc : PingConn) (answer : Z * option Z) := WriteTo pc (APing (pc_raddr pc)) answer.

Module Ping.

(** A goroutine in ReadFrom is registered with the endpoint until it returns; [notified] is
    the token in its channel. [Woken] has received it and calls the endpoint's Read. *)
Inductive reader : Type :=
| Waiting (notified : bool)
| Woken
| DeadlineExceeded
| ReadFailed (e : Z)
| ReadDone (count : Z) (from : option Addr).

(** The timer is armed for a time or not; its channel can be received from once, when the
    time has come. *)
Record conn : Type := { readers : list reader; deadline : option Z; epClosed : bool }.
Definition newConn : conn := {| readers := []; deadline := None; epClosed := false |}.

Definition setReader (i : nat) (r : reader) (c : conn) : conn := {| readers := <[i := r]> (readers c); deadline := deadline c; epClosed := epClosed c |}.
Definition setDeadline (d : option Z) (c : conn) : conn := {| readers := readers c; deadline := d; epClosed := epClosed c |}.
Definition closeEp (c : conn) : conn := {| readers := readers c; deadline := deadline c; epClosed := true |}.

Definition notify (r : reader) : reader := match r with Waiting _ => Waiting true | _ => r end.

(** time.Until: the difference, as far as a duration goes. *)
Definition maxDuration : Z := 2 ^ 63 - 1.
Definition Until (t now : Z) : Z := Z.max (- 2 ^ 63) (Z.min maxDuration (t - now)).
(** The zero time, in nanoseconds from 1970. *)
Definition zeroTime : Z := - 62135596800 * 10 ^ 9.

Definition SetReadDeadline (t now : Z) (c : conn) : conn := setDeadline (Some (now + Until t now)) c.
Definition SetDeadline := SetReadDeadline.
Definition Close (now : Z) (c : conn) : conn := closeEp (setDeadline (Some now) c).

Inductive label : Type :=
| ReadFrom                                        (* registers and waits *)
| Notify                                          (* of the endpoint, to those who are registered *)
| Deadline (i : nat) (now : Z)                    (* receives from the timer *)
| Wake (i : nat)                                  (* receives from its channel *)
| EpRead (i : nat) (answer : result (Z * list Z) Z)  (* the answer of the endpoint *)
| CallSetReadDeadline (t now : Z)
| CallClose (now : Z).

Definition step (l : label) (c : conn) : option conn :=
  match l with
  | ReadFrom => Some {| readers := readers c ++ [Waiting false]; deadline := deadline c; epClosed := epClosed c |}
  | Notify => Some {| readers := notify <$> readers c; deadline := deadline c; epClosed := epClosed c |}
  | Deadline i now =>
      match readers c !! i, deadline c with
      | Some (Waiting _), Some d => if d <=? now then Some (setDeadline None (setReader i DeadlineExceeded c)) else None
      | _, _ => None
      end
  | Wake i => match readers c !! i with Some (Waiting true) => Some (setReader i Woken c) | _ => None end
  | EpRead i answer =>
      match readers c !! i with
      | Some Woken => Some (setReader i match answer with Err e => ReadFailed e | Ok (n, a) => ReadDone n (AddrFromSlice a) end c)
      | _ => None
      end
  | CallSetReadDeadline t now => Some (SetReadDeadline t now c)
  | CallClose now => Some (Close now c)
  end.
Definition run (ls : list label) (c : conn) : option conn := foldl (fun o l => c ← o; step l c) (Some c) ls.
End Ping.

(** * Theorems *)

(** ** Creating the device *)

Definition addressCall (ip : option Addr) : stackCall := AddProtocolAddress (protoOf ip) (asSlice ip).

Lemma is4_not6 a : is4 a = true -> is6 a = false.
Proof. destruct a as [a|]; [|done]. cbn. unfold Is4, Is6. lia. Qed.

Lemma addAddresses_ok st ips : forall n v4 v6, (forall i, (n <= i < n + length ips)%nat -> st_address st i = None) ->
  addAddresses st n ips v4 v6 = (addressCall <$> ips, Ok (v4 || existsb is4 ips, v6 || existsb is6 ips)).
Proof.
  induction ips as [|ip ips IH]; intros n v4 v6 H; cbn; [by rewrite !orb_false_r|]. rewrite H by (cbn; lia). fold (addressCall ip).
  destruct (is4 ip) eqn:E4; [rewrite (is4_not6 ip E4)|destruct (is6 ip) eqn:E6]; rewrite IH by (intros i Hi; apply H; cbn; lia); by rewrite ?orb_true_r, ?orb_false_l.
Qed.
Lemma addAddresses_err st pre ip post e : forall n v4 v6, (forall i, (n <= i < n + length pre)%nat -> st_address st i = None) -> st_address st (n + length pre) = Some e ->
  addAddresses st n (pre ++ ip :: post) v4 v6 = (addressCall <$> pre ++ [ip], Err (ErrAddProtocolAddress ip e)).
Proof.
  induction pre as [|x pre IH]; intros n v4 v6 H He; cbn.
  - cbn in He. rewrite Nat.add_0_r in He. by rewrite He.
  - rewrite H by (cbn; lia). fold (addressCall x). destruct (if is4 x then _ else _) as [w4 w6]. rewrite (IH (S n) w4 w6); [done|intros i Hi; apply H; cbn; lia|]. rewrite <- He. f_equal. cbn. lia.
Qed.

(** A device that is created has every local address and a default route for exactly the
    families of those addresses; otherwise the address that the stack refused is named, and
    none behind it was added. *)
Theorem create_net_tun (st : stackAnswers) (ips : list (option Addr)) (servers : list Addr) (mtu : Z) : st_sack st = None -> st_nic st = None ->
  ((forall i, (i < length ips)%nat -> st_address st i = None) ->
    CreateNetTUN st ips servers mtu =
      ([SetTransportProtocolOption; AddNotify; CreateNIC] ++ (addressCall <$> ips) ++ (if existsb is4 ips then [AddRoute 4] else []) ++ (if existsb is6 ips then [AddRoute 6] else []),
       Ok {| nt_net := {| hasV4 := existsb is4 ips; hasV6 := existsb is6 ips; dnsServers := servers |}; nt_mtu := mtu |})) /\
  (forall pre ip post e, ips = pre ++ ip :: post -> (forall i, (i < length pre)%nat -> st_address st i = None) -> st_address st (length pre) = Some e ->
    CreateNetTUN st ips servers mtu = ([SetTransportProtocolOption; AddNotify; CreateNIC] ++ (addressCall <$> pre ++ [ip]), Err (ErrAddProtocolAddress ip e))).
Proof.
  intros Hs Hn. unfold CreateNetTUN. rewrite Hs, Hn. split.
  - intros H. rewrite addAddresses_ok by (intros i Hi; apply H; lia). cbn [orb]. by rewrite <- app_assoc.
  - intros pre ip post e -> H He. by rewrite (addAddresses_err st pre ip post e) by (done || (intros i Hi; apply H; lia)).
Qed.

(** An IPv4 address that package net holds in 16 bytes is dialled over IPv6. *)
Example mapped_address_is_v6 :
  DialTCP (Some (replicate 10 0 ++ [255; 255; 10; 0; 0; 1], 80)) = GoDialTCP {| fa_nic := 1; fa_addr := replicate 10 0 ++ [255; 255; 10; 0; 0; 1]; fa_port := 80 |} 6 /\
  DialTCP (Some ([10; 0; 0; 1], 80)) = GoDialTCP {| fa_nic := 1; fa_addr := [10; 0; 0; 1]; fa_port := 80 |} 4.
Proof. done. Qed.

(** ** Delivery *)

Import Device.

(** The view that a goroutine has, or has handed to its caller. *)
Definition has (t : thread) : option (list Z) := match t with Sending v | Returned v _ _ => Some v | _ => None end.
Definition isCloser (t : thread) : bool := match t with ClosingEvents | ClosingIncoming | Closed => true | _ => false end.
Definition pastEvents (t : thread) : bool := match t with ClosingIncoming | Closed => true | _ => false end.
Definition pastIncoming (t : thread) : bool := match t with Closed => true | _ => false end.
Definition copied (t : thread) : Prop :=
  match t with Returned v buf n => exists buf0 offset, netTunRead (Some v) buf0 offset = Some (Ok (buf, n)) | _ => True end.

Record devOk (s : state) : Prop := {
  dv_views : fetched s ≡ₚ omap has (threads s);
  dv_copied : Forall copied (threads s);
  dv_events : eventsClosed s = true -> (0 < count pastEvents (threads s))%nat;
  dv_incoming : incomingClosed s = true -> (0 < count pastIncoming (threads s))%nat
}.

Lemma spawn_ok t s : devOk s -> has t = None -> copied t -> devOk (spawn t s).
Proof.
  intros [A B C D] Ht Hc. split; cbn; [rewrite omap_app; cbn; rewrite Ht, app_nil_r; exact A|apply Forall_app_2; [done|by apply Forall_singleton]|rewrite count_snoc|rewrite count_snoc].
  - intros H. apply C in H. lia.
  - intros H. apply D in H. lia.
Qed.
(** A goroutine moves and hands on what it has. *)
Lemma goto_ok i t t' s : devOk s -> threads s !! i = Some t -> has t' = has t -> copied t' -> (pastEvents t = true -> pastEvents t' = true) -> (pastIncoming t = true -> pastIncoming t' = true) -> devOk (goto i t' s).
Proof.
  intros [A B C D] Hi Hh Hc H1 H2. split; cbn.
  - destruct (omap_insert_perm has _ _ _ t' Hi) as (r & E1 & E2). rewrite E2, Hh, <- E1. done.
  - by apply Forall_insert.
  - intros H%C. pose proof (count_insert pastEvents _ _ _ t' Hi). destruct (pastEvents t); [rewrite H1 in * by done|]; cbn in *; lia.
  - intros H%D. pose proof (count_insert pastIncoming _ _ _ t' Hi). destruct (pastIncoming t); [rewrite H2 in * by done|]; cbn in *; lia.
Qed.

Lemma meet_ok i j s s' : devOk s -> meet i j s = Some s' -> devOk s'.
Proof.
  intros Hs H. unfold meet in H. destruct (threads s !! i) as [[v| | | | | | |]|] eqn:Hi; try done. destruct (threads s !! j) as [[| |buf o| | | | |]|] eqn:Hj; try done. destruct (incomingClosed s) eqn:Ec; [done|].
  destruct (netTunRead (Some v) buf o) as [[[b n]|]|] eqn:E; [injection H as <-|done|injection H as <-; by destruct Hs].
  assert (i <> j) as Hne by (intros ->; by rewrite Hi in Hj). assert (<[i := Notified]> (threads s) !! j = Some (Receiving buf o)) as Hj' by (by rewrite list_lookup_insert_ne).
  destruct Hs as [A B C D]. split; cbn.
  - destruct (omap_insert_perm has _ _ _ Notified Hi) as (r & E1 & E2). destruct (omap_insert_perm has _ _ _ (Returned v b n) Hj') as (r2 & E3 & E4). rewrite A, E1, E4. cbn in *. by rewrite <- E3, E2.
  - apply Forall_insert; [by apply Forall_insert|]. by exists buf, o.
  - intros H%C. pose proof (count_insert pastEvents _ _ _ Notified Hi). pose proof (count_insert pastEvents _ _ _ (Returned v b n) Hj'). cbn in *. lia.
  - by rewrite Ec.
Qed.

Lemma devOk_step l s s' : devOk s -> step l s = Some s' -> devOk s'.
Proof.
  intros Hs H. unfold step in H. destruct (crashed s); [done|]. destruct l as [pkt|buf o| |i j|j|i|i].
  - injection H as <-. destruct pkt as [v|]; [|by apply spawn_ok]. destruct Hs as [A B C D]. split; cbn; rewrite ?count_snoc; cbn; rewrite ?Nat.add_0_r; try done; [|apply Forall_app_2; [done|by repeat constructor]].
    rewrite omap_app. cbn. by rewrite A.
  - injection H as <-. by apply spawn_ok.
  - injection H as <-. by apply spawn_ok.
  - by eapply meet_ok.
  - unfold readClosed in H. destruct (threads s !! j) as [[| |b o| | | | |]|] eqn:Hj; try done. destruct (incomingClosed s); [|done]. injection H as <-. by eapply goto_ok.
  - unfold sendClosed in H. destruct (threads s !! i) as [[| | | | | | |]|]; try done. destruct (incomingClosed s); [|done]. injection H as <-. by destruct Hs.
  - unfold stepClose in H. destruct (threads s !! i) as [[| | | | | | |]|] eqn:Hi; try done.
    + destruct (eventsClosed s); injection H as <-; [by destruct Hs|]. assert (devOk (goto i ClosingIncoming s)) as [A B C D] by (by eapply goto_ok). split; try done. intros _. cbn.
      eapply count_pos; [by rewrite list_lookup_insert_eq by (by eapply lookup_lt_Some)|done].
    + destruct (incomingClosed s); injection H as <-; [by destruct Hs|]. assert (devOk (goto i Closed s)) as [A B C D] by (by eapply goto_ok). split; try done. intros _. cbn.
      eapply count_pos; [by rewrite list_lookup_insert_eq by (by eapply lookup_lt_Some)|done].
Qed.
Lemma devOk_reachable s : reachable s -> devOk s.
Proof. induction 1 as [|l s s' _ IH Hs]; [by split; try done; constructor|by eapply devOk_step]. Qed.

(** Every view that was taken from the endpoint is held by one WriteNotify or was returned
    by one Read, which copied it into its buffer; nothing else is returned. A WriteNotify and
    a Read that wait for each other can go on until the device is closed. *)
Theorem net_tun_delivers (s : state) : reachable s ->
  fetched s ≡ₚ omap has (threads s) /\
  (forall j v buf n, threads s !! j = Some (Returned v buf n) -> exists buf0 offset, netTunRead (Some v) buf0 offset = Some (Ok (buf, n))) /\
  (forall i j v buf o, crashed s = false -> incomingClosed s = false -> threads s !! i = Some (Sending v) -> threads s !! j = Some (Receiving buf o) -> is_Some (step (Meet i j) s)).
Proof.
  intros H%devOk_reachable. destruct H as [A B C D]. split; [done|split].
  - intros j v buf n Hj. rewrite Forall_lookup in B. by apply (B j _ Hj).
  - intros i j v buf o Hc Hin Hi Hj. unfold step. rewrite Hc. unfold meet. rewrite Hi, Hj, Hin. unfold netTunRead. destruct (slice buf o (len buf)) as [rest|]; [|by eexists]. cbn.
    destruct (copy_at buf o _); by eexists.
Qed.

(** The only ways in which the device brings the program down: a WriteNotify that sends
    behind Close, a second Close, and a Read whose offset is not in its buffer. *)
Theorem net_tun_crashes (l : label) (s s' : state) : reachable s -> step l s = Some s' -> crashed s' = true ->
  (exists i v, threads s !! i = Some (Sending v) /\ incomingClosed s = true) \/
  (2 <= count isCloser (threads s))%nat \/
  exists j buf o, threads s !! j = Some (Receiving buf o) /\ ~ (0 <= o <= len buf).
Proof.
  intros [A B C D]%devOk_reachable Hs Hc. unfold step in Hs. destruct (crashed s) eqn:E0; [done|]. destruct l as [[v|]|buf o| |i j|j|i|i]; cbn in Hs; try (injection Hs as <-; cbn in Hc; congruence).
  - unfold meet in Hs. destruct (threads s !! i) as [[v| | | | | | |]|] eqn:Hi; try done. destruct (threads s !! j) as [[| |buf o| | | | |]|] eqn:Hj; try done. destruct (incomingClosed s); [done|].
    right; right. exists j, buf, o. split; [done|]. intros Ho. unfold netTunRead in Hs. rewrite slice_Some in Hs by lia. cbn in Hs.
    rewrite copy_at_Some in Hs by lia. injection Hs as <-. cbn in Hc. congruence.
  - unfold readClosed in Hs. destruct (threads s !! j) as [[| | | | | | |]|]; try done. destruct (incomingClosed s); [|done]. injection Hs as <-. cbn in Hc. congruence.
  - unfold sendClosed in Hs. destruct (threads s !! i) as [[| | | | | | |]|] eqn:Hi; try done. destruct (incomingClosed s) eqn:Ei; [|done]. left. by exists i, view.
  - unfold stepClose in Hs. right; left. assert (forall P, (forall t, P t = true -> isCloser t = true) -> (forall t, threads s !! i = Some t -> P t = false /\ isCloser t = true) -> (0 < count P (threads s))%nat -> (2 <= count isCloser (threads s))%nat) as Htwo.
    { intros P HP Hi Hpos. destruct (count_exists _ _ Hpos) as (k & t & Hk & Hkt). destruct (threads s !! i) as [t0|] eqn:E; [|done]. destruct (Hi t0 eq_refl) as [H1 H2].
      assert (i <> k) as Hne by (intros ->; rewrite E in Hk; injection Hk as ->; congruence). pose proof (count_insert isCloser _ _ _ Notified E) as E1. rewrite H2 in E1. cbn in E1.
      assert (0 < count isCloser (<[i := Notified]> (threads s)))%nat by (eapply count_pos; [by rewrite list_lookup_insert_ne|by apply HP]). lia. }
    destruct (threads s !! i) as [[| | | | | | |]|] eqn:Hi; try done.
    + destruct (eventsClosed s) eqn:Ee; [|injection Hs as <-; cbn in Hc; congruence]. apply (Htwo pastEvents); [by intros []|intros t [= <-]; done|by apply C].
    + destruct (incomingClosed s) eqn:Ee; [|injection Hs as <-; cbn in Hc; congruence]. apply (Htwo pastIncoming); [by intros []|intros t [= <-]; done|by apply D].
Qed.

(** A stack goroutine that waits for a reader when the device is closed panics. *)
Example close_panics_notifier : crashed <$> run [WriteNotify (Some [69]); Close; CloseStep 1; CloseStep 1; SendOnClosed 0] newDevice = Some true.
Proof. done. Qed.
Example close_twice_panics : crashed <$> run [Close; CloseStep 0; CloseStep 0; Close; CloseStep 1] newDevice = Some true.
Proof. done. Qed.

(** ** Ping *)

(** Writing to a connection that was dialled sends to the dialled address. *)
Theorem ping_write_dialled (st : pingAnswers) (r : Addr) (cs : list pingCall) (pc : PingConn) (answer : Z * option Z) : Is4 r || Is6 r = true ->
  DialPingAddr st None (Some r) = (cs, Ok pc) -> pc_raddr pc = Some r /\ (PingWrite pc answer).1 = Some {| fa_nic := 1; fa_addr := ad_bytes r; fa_port := 0 |}.
Proof.
  intros Hr H. unfold DialPingAddr in H. cbn in H. destruct (pa_endpoint st); [done|]. destruct (pa_connect st); [done|]. injection H as _ <-. split; [done|]. unfold PingWrite, WriteTo. cbn.
  destruct (Is6 r) eqn:E6; [by rewrite orb_true_r|]. by rewrite orb_false_r in Hr; rewrite Hr.
Qed.
(** Dialling from an address of the other family succeeds, but no write ever does. *)
Theorem ping_mixed_families (st : pingAnswers) (l r : Addr) (cs : list pingCall) (pc : PingConn) (answer : Z * option Z) : Is4 l = true -> Is6 r = true ->
  DialPingAddr st (Some l) (Some r) = (cs, Ok pc) -> PingWrite pc answer = (None, Err ErrMismatched).
Proof.
  intros Hl Hr H. unfold DialPingAddr in H. cbn in H. destruct (pa_endpoint st); [done|]. destruct (pa_bind st); [done|]. destruct (pa_connect st); [done|]. injection H as _ <-.
  unfold PingWrite, WriteTo. cbn. rewrite Hl, Hr. pose proof (is4_not6 (Some l) Hl) as H6. cbn in H6. rewrite H6. destruct (Is4 r) eqn:E4; [|done]. pose proof (is4_not6 (Some r) E4) as H4. cbn in H4. congruence.
Qed.
(** The endpoint of a dial that fails behind its creation is not closed. *)
Example ping_dial_leaks :
  DialPingAddr {| pa_endpoint := None; pa_bind := None; pa_connect := Some 5 |} None (Some (mkAddr [10; 0; 0; 1] [])) =
    ([NewEndpoint icmp4 4; EpConnect {| fa_nic := 1; fa_addr := [10; 0; 0; 1]; fa_port := 0 |}], Err (ErrPingConnect 5)).
Proof. done. Qed.

(** A deadline holds a waiting reader until its time, and not longer. *)
Theorem ping_deadline (t now now' : Z) (c : Ping.conn) (i : nat) (b : bool) : Ping.readers c !! i = Some (Ping.Waiting b) -> - 2 ^ 63 <= t - now < 2 ^ 63 ->
  is_Some (Ping.step (Ping.Deadline i now') (Ping.SetReadDeadline t now c)) <-> t <= now'.
Proof.
  intros Hi Ht. cbn. rewrite Hi. unfold Ping.Until, Ping.maxDuration. rewrite (Z.min_r _ (t - now)), Z.max_r by lia. destruct (Z.leb_spec (now + (t - now)) now').
  - split; [lia|by eexists].
  - split; [by intros [? [=]]|lia].
Qed.
(** The zero time, which takes a deadline away for a net.Conn, ends the next read at once. *)
Theorem ping_zero_deadline (now : Z) (c : Ping.conn) (i : nat) (b : bool) : Ping.readers c !! i = Some (Ping.Waiting b) -> 0 <= now ->
  is_Some (Ping.step (Ping.Deadline i now) (Ping.SetReadDeadline Ping.zeroTime now c)).
Proof. intros Hi Hn. cbn. rewrite Hi. unfold Ping.Until, Ping.maxDuration, Ping.zeroTime. rewrite (proj2 (Z.leb_le _ _)) by lia. by eexists. Qed.

Lemma ping_run_inv (P : Ping.conn -> Prop) (Q : Ping.label -> Prop) : (forall l c c', Q l -> P c -> Ping.step l c = Some c' -> P c') ->
  forall ls c c', Forall Q ls -> P c -> Ping.run ls c = Some c' -> P c'.
Proof.
  intros Hs ls. induction ls as [|l ls IH] using rev_ind; intros c c' HQ Hc H; [by injection H as <-|]. apply Forall_app in HQ as [HQ [Hl _]%Forall_cons].
  unfold Ping.run in *. rewrite foldl_snoc in H. apply bind_Some in H as (c1 & H1 & H2). eapply Hs; [done|by eapply IH|done].
Qed.

(** A deadline that has passed is reported to one reader: the next one waits, until a
    deadline is set again or the connection is closed. *)
Theorem ping_deadline_once (i j : nat) (now now' : Z) (ls : list Ping.label) (c c1 c2 : Ping.conn) : Ping.step (Ping.Deadline i now) c = Some c1 ->
  Forall (fun l => match l with Ping.CallSetReadDeadline _ _ | Ping.CallClose _ => False | _ => True end) ls -> Ping.run ls c1 = Some c2 -> Ping.step (Ping.Deadline j now') c2 = None.
Proof.
  intros Hs HQ Hr. assert (Ping.deadline c2 = None) as Hd.
  { eapply (ping_run_inv (fun c => Ping.deadline c = None)); [|exact HQ| |exact Hr].
    - intros l x x' Hl Hx H. destruct l as [| |k n|k|k a|t n|n]; cbn in H; try done; try by injection H as <-.
      + rewrite Hx in H. by destruct (Ping.readers x !! k) as [[]|].
      + by destruct (Ping.readers x !! k) as [[[]| | | |]|]; try done; injection H as <-.
      + by destruct (Ping.readers x !! k) as [[[]| | | |]|]; try done; injection H as <-.
    - cbn in Hs. destruct (Ping.readers c !! i) as [[]|]; try done. destruct (Ping.deadline c); [|done]. destruct (_ <=? now); [|done]. by injection Hs as <-. }
  cbn. rewrite Hd. by destruct (Ping.readers c2 !! j) as [[]|].
Qed.

(** A read does not look for packets that have arrived: it calls the endpoint only when it
    is notified behind its registration. *)
Theorem ping_read_needs_notice (ls : list Ping.label) (c c1 c2 : Ping.conn) : Ping.step Ping.ReadFrom c = Some c1 -> Forall (fun l => l <> Ping.Notify) ls -> Ping.run ls c1 = Some c2 ->
  Ping.readers c2 !! length (Ping.readers c) = Some (Ping.Waiting false) \/ Ping.readers c2 !! length (Ping.readers c) = Some Ping.DeadlineExceeded.
Proof.
  intros [= <-] HQ Hr. set (i := length (Ping.readers c)). eapply (ping_run_inv (fun c => Ping.readers c !! i = Some (Ping.Waiting false) \/ Ping.readers c !! i = Some Ping.DeadlineExceeded)); [|exact HQ| |exact Hr].
  - assert (forall k r x, (Ping.readers x !! i = Some (Ping.Waiting false) \/ Ping.readers x !! i = Some Ping.DeadlineExceeded) -> (k = i -> r = Ping.DeadlineExceeded) ->
      Ping.readers (Ping.setReader k r x) !! i = Some (Ping.Waiting false) \/ Ping.readers (Ping.setReader k r x) !! i = Some Ping.DeadlineExceeded) as Hset.
    { intros k r x Hx Hk. cbn. destruct (decide (k = i)) as [->|]; [|by rewrite list_lookup_insert_ne]. rewrite list_lookup_insert_eq by (destruct Hx as [Hx|Hx]; by eapply lookup_lt_Some). rewrite Hk by done. by right. }
    intros l x x' Hl Hx H. destruct l as [| |k n|k|k a|t n|n]; cbn in H; try done; try by injection H as <-.
    + injection H as <-. cbn. destruct Hx as [Hx|Hx]; rewrite (lookup_app_l_Some _ _ _ _ Hx); auto.
    + destruct (Ping.readers x !! k) as [[]|]; try done. destruct (Ping.deadline x); [|done]. destruct (_ <=? n); [|done]. injection H as <-. by apply Hset.
    + destruct (Ping.readers x !! k) as [[[]| | | |]|] eqn:E; try done. injection H as <-. apply Hset; [done|]. intros ->. destruct Hx; congruence.
    + destruct (Ping.readers x !! k) as [[[]| | | |]|] eqn:E; try done. injection H as <-. apply Hset; [done|]. intros ->. destruct Hx; congruence.
  - left. cbn. by rewrite lookup_app_r, Nat.sub_diag by done.
Qed.
