(* ===== verification/TestDevices.v ===== *)
(** * TestDevices: the devices that the tests and benchmarks run on
    (src/tun/tuntest/tuntest.go, src/conn/bindtest/bindtest.go)

    A TUN device made of two channels with a generator of pings, and a pair of binds that
    are connected by channels. Which branch a select takes when several are ready, and when
    the other end of an unbuffered channel is there, are arguments. *)
From S2P Require Import Prelude GoLib NetIP Checksum Gso.
#[local] Open Scope Z_scope.

(** ** Pings *)

Fixpoint sumWords (buf : list Z) (v : Z) : Z :=
  match buf with
  | a :: b :: buf => sumWords buf (u32 (v + (256 * a + b)))
  | [a] => u32 (v + Z.shiftl a 8)
  | [] => v
  end.
(** The loop that folds the carries; two rounds are enough for 32 bits. *)
Fixpoint foldCarries (fuel : nat) (v : Z) : option Z :=
  if v >? 65535 then match fuel with O => None | S fuel => foldCarries fuel (u32 (Z.shiftr v 16 + Z.land v 65535)) end else Some v.
Definition testChecksum (buf : list Z) (initial : Z) : option Z := v ← foldCarries 2 (sumWords buf initial); Some (not16 (u16 v)).

Definition icmpv4Echo : Z := 8.
Definition icmpHeader : list Z := [icmpv4Echo; 0; 0; 0; 0; 0; 0; 0].
Definition ttl : Z := 65.
Definition headerSize : Z := 28.
(** The IPv4 header before its checksum is filled in. *)
Definition ipHeader (length : Z) (dst src : list Z) : option (list Z) :=
  let ip := replicate 20 0 in
  ip ← set_at ip 0 (Z.lor (Z.shiftl 4 4) (20 / 4));
  ip ← put16 ip 2 length;
  ip ← set_at ip 8 ttl;
  ip ← set_at ip 9 1;
  ip ← copy_at ip 12 src;
  copy_at ip 16 dst.
Definition genICMPv4 (payload dst src : list Z) : option (list Z) :=
  c ← testChecksum payload 0;
  c ← testChecksum icmpHeader c;
  icmpv4 ← put16 icmpHeader 2 (not16 c);
  ip ← ipHeader (u16 (headerSize + len payload)) dst src;
  c ← testChecksum ip 0;
  ip ← put16 ip 10 (not16 c);
  Some (ip ++ icmpv4 ++ payload).
Definition Ping (dst src : Addr) : option (list Z) := genICMPv4 (be_bytes 2 1337 ++ be_bytes 2 0) (ad_bytes dst) (ad_bytes src).

(** ** The TUN device *)

Module ChTun.
Record ChannelTUN : Type := { closed : bool; eventsClosed : bool; events : list Z }.
Definition EventUp : Z := 1.
Definition NewChannelTUN : ChannelTUN := {| closed := false; eventsClosed := false; events := [EventUp] |}.

(** How a call ends: it returns, panics, or waits for ever. *)
Inductive outcome (A : Type) : Type := Returns (a : A) | Panics | Waits.
Arguments Returns {A} a.
Arguments Panics {A}.
Arguments Waits {A}.
Inductive tunErr : Type := ErrClosed | ErrEOF.

(** Read: [msg] is what is sent on Outbound meanwhile; [takeClosed] is the choice when both
    are ready. *)
Definition Read (c : ChannelTUN) (packet : list Z) (offset : Z) (msg : option (list Z)) (takeClosed : bool) : outcome (list Z * result Z tunErr) :=
  match msg with
  | Some m =>
      if closed c && takeClosed then Returns (packet, Err ErrClosed)
      else match slice packet offset (len packet) with
           | None => Panics
           | Some rest => match copy_at packet offset m with Some p => Returns (p, Ok (Z.min (len rest) (len m))) | None => Panics end
           end
  | None => if closed c then Returns (packet, Err ErrClosed) else Waits
  end.

(** The loop of Write: [taken i] says that packet [i] is received from Inbound, [closedAt i]
    that the device is closed by then. *)
Fixpoint writeLoop (taken closedAt : nat -> bool) (i : nat) (packets : list (list Z)) (offset : Z) : list (list Z) * outcome (nat * option tunErr) :=
  match packets with
  | [] => ([], Returns (i, None))
  | data :: packets =>
      match slice data offset (len data) with
      | None => ([], Panics)
      | Some msg =>
          if taken i then let '(ms, o) := writeLoop taken closedAt (S i) packets offset in (msg :: ms, o)
          else if closedAt i then ([], Returns (i, Some ErrClosed)) else ([], Waits)
      end
  end.
(** Write with offset -1 closes the device. *)
Definition Write (c : ChannelTUN) (taken closedAt : nat -> bool) (packets : list (list Z)) (offset : Z) : ChannelTUN * (list (list Z) * outcome (nat * option tunErr)) :=
  if offset =? -1 then
    if closed c then (c, ([], Panics))
    else
      let c := {| closed := true; eventsClosed := eventsClosed c; events := events c |} in
      if eventsClosed c then (c, ([], Panics))
      else ({| closed := true; eventsClosed := true; events := events c |}, ([], Returns (O, Some ErrEOF)))
  else (c, writeLoop taken closedAt 0 packets offset).
Definition Close (c : ChannelTUN) : ChannelTUN * outcome unit :=
  match Write c (fun _ => false) (fun _ => false) [] (-1) with
  | (c, (_, Returns _)) => (c, Returns tt)
  | (c, (_, Panics)) => (c, Panics)
  | (c, (_, Waits)) => (c, Waits)
  end.
Definition BatchSize : Z := 1.
Definition DefaultMTU : Z := 1420.
End ChTun.

(** ** The pair of binds *)

Module ChBind.
(** The channel that tells receivers to stop: not made yet, open or closed. *)
Inductive signal : Type := NoSignal | SignalOpen | SignalClosed.
(** Channels are shared by address: [rx4] to [tx6] are their numbers. *)
Record ChannelBind : Type := {
  rx4 : nat; tx4 : nat; rx6 : nat; tx6 : nat; closeSignal : signal; source4 : Z; source6 : Z; target4 : Z; target6 : Z }.
Record world : Type := { chans : list (list (list Z)); bind0 : ChannelBind; bind1 : ChannelBind }.
Definition chanCap : Z := 8192.

(** arx4, brx4, arx6 and brx6 are channels 0 to 3. *)
Definition NewChannelBinds : world := {|
  chans := [[]; []; []; []];
  bind0 := {| rx4 := 0; tx4 := 1; rx6 := 2; tx6 := 3; closeSignal := NoSignal; source4 := 2; source6 := 4; target4 := 1; target6 := 3 |};
  bind1 := {| rx4 := 1; tx4 := 0; rx6 := 3; tx6 := 2; closeSignal := NoSignal; source4 := 1; source6 := 3; target4 := 2; target6 := 4 |}
|}.

Definition bindOf (side : bool) (w : world) : ChannelBind := if side then bind1 w else bind0 w.
Definition setBind (side : bool) (b : ChannelBind) (w : world) : world :=
  if side then {| chans := chans w; bind0 := bind0 w; bind1 := b |} else {| chans := chans w; bind0 := b; bind1 := bind1 w |}.
Definition setChan (i : nat) (q : list (list Z)) (w : world) : world := {| chans := <[i := q]> (chans w); bind0 := bind0 w; bind1 := bind1 w |}.
Definition withSignal (s : signal) (b : ChannelBind) : ChannelBind :=
  {| rx4 := rx4 b; tx4 := tx4 b; rx6 := rx6 b; tx6 := tx6 b; closeSignal := s; source4 := source4 b; source6 := source6 b; target4 := target4 b; target6 := target6 b |}.

(** Open: the channels of the receive functions and the port; [coin] is rand.Uint32()&1 == 0. *)
Definition Open (side coin : bool) (w : world) : world * (list nat * Z) :=
  let b := withSignal SignalOpen (bindOf side w) in
  (setBind side b w, ([rx4 b; rx6 b], u16 (if coin then source4 b else source6 b))).
Definition Close (side : bool) (w : world) : world :=
  match closeSignal (bindOf side w) with
  | SignalOpen => setBind side (withSignal SignalClosed (bindOf side w)) w
  | _ => w
  end.

Inductive bindErr : Type := NetErrClosed | ErrInvalid.
(** A receive function on channel [ch]: the buffer, the size and the endpoint; [None] waits.
    [takeClosed] is the choice of select. *)
Definition receive (side : bool) (ch : nat) (takeClosed : bool) (buf : list Z) (w : world) : option (world * result (list Z * Z * Z) bindErr) :=
  let isClosed := match closeSignal (bindOf side w) with SignalClosed => true | _ => false end in
  q ← chans w !! ch;
  match q with
  | [] => if isClosed then Some (w, Err NetErrClosed) else None
  | rx :: q =>
      if isClosed && takeClosed then Some (w, Err NetErrClosed)
      else
        let copied := Z.min (len buf) (len rx) in
        buf ← copy_at buf 0 rx;
        Some (setChan ch q w, Ok (buf, copied, target6 (bindOf side w)))
  end.

(** A send on a buffered channel; [None] waits for room. *)
Definition chanSend (ch : nat) (b : list Z) (w : world) : option world :=
  q ← chans w !! ch;
  if len q <? chanCap then Some (setChan ch (q ++ [b]) w) else None.
Fixpoint Send (side : bool) (bufs : list (list Z)) (ep : Z) (w : world) : option (world * option bindErr) :=
  match bufs with
  | [] => Some (w, None)
  | b :: bufs =>
      let c := bindOf side w in
      match closeSignal c with
      | SignalClosed => Some (w, Some NetErrClosed)
      | _ =>
          if ep =? target4 c then w ← chanSend (tx4 c) b w; Send side bufs ep w
          else if ep =? target6 c then w ← chanSend (tx6 c) b w; Send side bufs ep w
          else Some (w, Some ErrInvalid)
      end
  end.
Definition ParseEndpoint (s : list Z) : option Z := '(_, port) ← ParseAddrPort s; Some port.
Definition DstToString (c : Z) : list Z := str "127.0.0.1:" ++ Itoa c.
Definition DstToBytes (c : Z) : list Z := [u8 c].
End ChBind.

(** * Theorems *)

(** ** The checksum of the tests *)

Lemma sumWords_total l : Forall is_u8 l -> forall v, 0 <= v -> v + total l < 2 ^ 32 -> sumWords l v = v + total l.
Proof.
  induction l as [|a|a b l IH] using list_ind2; intros H v Hv Hl.
  - cbn. lia.
  - apply Forall_cons in H as [Ha _]. unfold total in *. cbn [sumWords words16 foldr] in *. rewrite Z.shiftl_mul_pow2 by lia. unfold u32, is_u8 in *. rewrite Z.mod_small by lia. lia.
  - apply Forall_cons in H as [Ha [Hb Hf]%Forall_cons]. cbn [sumWords]. rewrite total_cons2 in *. pose proof (total_nonneg l Hf). unfold is_u8 in *. unfold u32. rewrite Z.mod_small by lia. rewrite IH by (done || lia). lia.
Qed.
Lemma total_bound l : Forall is_u8 l -> 2 * total l <= 65535 * (len l + 1).
Proof.
  induction l as [|a|a b l IH] using list_ind2; intros H; [done| |].
  - apply Forall_cons in H as [Ha _]. unfold total, is_u8, len in *. cbn in *. lia.
  - apply Forall_cons in H as [Ha [Hb Hf]%Forall_cons]. rewrite total_cons2. specialize (IH Hf). unfold is_u8, len in *. cbn [length]. lia.
Qed.
Lemma foldCarries_sums v s : 0 <= v < 2 ^ 32 -> Sums v s -> exists x, foldCarries 2 v = Some x /\ Sums x s /\ 0 <= x <= 65535.
Proof.
  assert (forall v, 0 <= v < 2 ^ 32 -> u32 (Z.shiftr v 16 + Z.land v 65535) = v / 65536 + v mod 65536) as Hf.
  { intros x Hx. change 65535 with (Z.ones 16). rewrite Z.land_ones, Z.shiftr_div_pow2 by lia. change (2 ^ 16) with 65536. unfold u32. apply Z.mod_small. Z.to_euclidean_division_equations. lia. }
  assert (forall v, 65535 < v -> v < 2 ^ 32 -> Sums v s -> Sums (v / 65536 + v mod 65536) s) as Hs.
  { intros x Hx Hx2 HS. replace (x / 65536 + x mod 65536) with (x - 65535 * (x / 65536)) by (Z.to_euclidean_division_equations; lia). apply Sums_sub; [done| |lia]. Z.to_euclidean_division_equations. lia. }
  intros Hv HS. cbn [foldCarries]. destruct (Z.gtb_spec v 65535) as [H1|H1]; [|exists v; split_and!; try done; lia]. rewrite Hf by done. apply Hs in HS as HS1; [|lia|lia].
  set (y := v / 65536 + v mod 65536) in *. assert (0 <= y <= 131070) as Hy by (unfold y; Z.to_euclidean_division_equations; lia).
  destruct (Z.gtb_spec y 65535) as [H2|H2]; [|exists y; split_and!; try done; lia]. rewrite Hf by lia. apply Hs in HS1 as HS2; [|lia|lia].
  set (z := y / 65536 + y mod 65536) in *. assert (0 <= z <= 65535) as Hz by (clearbody y; unfold z; Z.to_euclidean_division_equations; lia).
  destruct (Z.gtb_spec z 65535); [lia|]. by exists z.
Qed.

(** The checksum of the tests is the complement of that of RFC 1071, and of the optimised
    one of the TUN device, for every buffer of up to 131070 bytes; its loops end. *)
Theorem test_checksum_rfc1071 (be : bool) (buf : list Z) (initial : Z) : Forall is_u8 buf -> is_u16 initial -> len buf <= 131070 ->
  testChecksum buf initial = Some (not16 (rfc1071 (be_bytes 2 initial ++ buf))) /\ testChecksum buf initial = Some (not16 (checksum be buf initial)).
Proof.
  intros Hb Hi Hl. pose proof (total_bound buf Hb) as Hbound. pose proof (total_nonneg buf Hb) as Hnn. unfold is_u16 in Hi.
  assert (sumWords buf initial = initial + total buf) as Esum by (apply sumWords_total; [done|lia|lia]).
  destruct (foldCarries_sums (initial + total buf) (initial + total buf)) as (x & Ex & Sx & Bx); [lia|apply Sums_refl; lia|].
  unfold testChecksum. rewrite Esum, Ex. cbn [mbind option_bind]. rewrite u16_small by (unfold is_u16; lia).
  assert (Forall is_u8 (be_bytes 2 initial ++ buf)) as Hf by (apply Forall_app; auto using be_bytes_ok).
  destruct (rfc1071_sums _ Hf) as [S1 B1]. rewrite total_app in S1 by (rewrite length_be_bytes; by exists 1%nat).
  assert (total (be_bytes 2 initial) = initial) as E2.
  { pose proof (total_field [] initial [] ltac:(done) ltac:(by exists 0%nat)) as E. rewrite app_nil_r in E. cbn [app] in E. rewrite E. cbn. lia. }
  rewrite E2 in S1. destruct (checksum_sums be buf initial) as [S2 B2]; [unfold is_u64; lia|done|]. split; do 2 f_equal; eapply Sums_unique; try done; lia.
Qed.
Lemma test_checksum_rfc1071_witness : testChecksum [69; 0; 1] 7 = Some (not16 (checksum false [69; 0; 1] 7)).
Proof. apply (test_checksum_rfc1071 false [69; 0; 1] 7); [|done|done]. apply (bool_decide_unpack (Forall is_u8 [69; 0; 1])). by vm_compute. Defined.

(** ** The checksums of a ping *)

(** The header with an empty checksum. *)
Definition headerOf (length : Z) (dst src : list Z) : list Z := [69; 0] ++ be_bytes 2 length ++ [0; 0; 0; 0; ttl; 1] ++ [0; 0] ++ src ++ dst.

Lemma ipHeader_4 length dst src : len dst = 4 -> len src = 4 -> ipHeader length dst src = Some (headerOf length dst src).
Proof.
  intros Hd Hs. destruct dst as [|a [|b [|c [|d [|]]]]]; try (unfold len in Hd; cbn in Hd; lia). destruct src as [|e [|f [|g [|h [|]]]]]; try (unfold len in Hs; cbn in Hs; lia). reflexivity.
Qed.

Lemma rfc1071_zero l : rfc1071 (be_bytes 2 0 ++ l) = rfc1071 l.
Proof. reflexivity. Qed.
Lemma icmp_field c : put16 icmpHeader 2 c = Some ([icmpv4Echo; 0] ++ be_bytes 2 c ++ [0; 0; 0; 0]).
Proof. reflexivity. Qed.
(** A header whose field holds the sum of the rest is accepted only if that is all ones. *)
Lemma sum_in_field p q : Forall is_u8 (p ++ [0; 0] ++ q) -> Nat.Even (length p) -> total (p ++ [0; 0] ++ q) <> 0 ->
  rfc1071 (p ++ be_bytes 2 (rfc1071 (p ++ [0; 0] ++ q)) ++ q) = 65535 <-> rfc1071 (p ++ [0; 0] ++ q) = 65535.
Proof.
  intros Hf He Hn. destruct (rfc1071_sums _ Hf) as [S0 B0]. set (s := rfc1071 (p ++ [0; 0] ++ q)) in *. assert (0 <= s) as Hs by apply S0.
  assert (Forall is_u8 (p ++ be_bytes 2 s ++ q)) as Hf1 by (rewrite !Forall_app in *; split_and!; try apply Hf; apply be_bytes_ok).
  destruct (rfc1071_sums _ Hf1) as [S1 B1]. rewrite total_field in S1 by (done || (unfold is_u16; lia)).
  assert (Sums (rfc1071 (p ++ be_bytes 2 s ++ q)) (2 * s)) as S2.
  { eapply Sums_trans; [exact S1|]. replace (2 * s) with (s + s) by lia. apply Sums_add; [by apply Sums_sym|by apply Sums_refl]. }
  set (r := rfc1071 (p ++ be_bytes 2 s ++ q)) in *. destruct S0 as (_ & _ & _ & S0). destruct S2 as (Hr & _ & Hm & Hz). split; intros E.
  - rewrite E in Hm. assert (s <> 0) by tauto. rewrite Z_mod_same_full in Hm. symmetry in Hm. apply Z.mod_divide in Hm as [k Hk]; [|done]. lia.
  - rewrite E in Hm, Hz. replace (2 * 65535) with (0 + 2 * 65535) in Hm by lia. rewrite Z_mod_plus_full in Hm. apply Z.mod_divide in Hm as [k Hk]; [|done]. lia.
Qed.

Lemma genICMPv4_run payload dst src c1 c2 ip c3 ip' : testChecksum payload 0 = Some c1 -> testChecksum icmpHeader c1 = Some c2 ->
  ipHeader (u16 (headerSize + len payload)) dst src = Some ip -> testChecksum ip 0 = Some c3 -> put16 ip 10 (not16 c3) = Some ip' ->
  genICMPv4 payload dst src = Some (ip' ++ ([icmpv4Echo; 0] ++ be_bytes 2 (not16 c2) ++ [0; 0; 0; 0]) ++ payload).
Proof. intros H1 H2 H3 H4 H5. unfold genICMPv4. rewrite H1. cbn [mbind option_bind]. rewrite H2. cbn [mbind option_bind]. rewrite icmp_field, H3. cbn [mbind option_bind]. rewrite H4. cbn [mbind option_bind]. by rewrite H5. Qed.

(** The header of a ping carries the sum of the header where its complement belongs, so its
    checksum holds only for headers that sum to all ones. *)
Theorem ping_header_checksum (payload dst src : list Z) : Forall is_u8 payload -> Forall is_u8 dst -> Forall is_u8 src -> len dst = 4 -> len src = 4 -> len payload <= 131070 ->
  exists ip rest, genICMPv4 payload dst src = Some (ip ++ rest) /\ len ip = 20 /\ len rest = 8 + len payload /\
    (rfc1071 ip = 65535 <-> rfc1071 (headerOf (u16 (headerSize + len payload)) dst src) = 65535).
Proof.
  intros Hp Hd Hs Ld Ls Lp. destruct (test_checksum_rfc1071 false payload 0 Hp ltac:(done) Lp) as [_ H1].
  destruct (test_checksum_rfc1071 false icmpHeader _ ltac:(repeat constructor; unfold is_u8, icmpv4Echo; lia) (not16_range false payload 0 ltac:(done) Hp) ltac:(done)) as [_ H2].
  pose proof (ipHeader_4 (u16 (headerSize + len payload)) dst src Ld Ls) as H3. pose proof (fun c ip => genICMPv4_run payload dst src _ _ _ c ip H1 H2 H3) as Hrun. clear H1 H2 H3.
  revert Hrun. generalize (not16 (checksum false icmpHeader (not16 (checksum false payload 0)))). generalize (u16 (headerSize + len payload)). intros L c2 Hrun.
  pose (p := [69; 0] ++ be_bytes 2 L ++ [0; 0; 0; 0; ttl; 1]). assert (headerOf L dst src = p ++ [0; 0] ++ src ++ dst) as EH by (unfold headerOf, p; by rewrite <- !app_assoc).
  assert (len p = 10) as Lp10 by (unfold p; size_lia). assert (Forall is_u8 (p ++ [0; 0] ++ src ++ dst)) as Hf.
  { unfold p. rewrite !Forall_app. split_and!; try done; try apply be_bytes_ok; repeat constructor; unfold is_u8, ttl; lia. }
  assert (total (p ++ [0; 0] ++ src ++ dst) <> 0) as Hn.
  { unfold p in *. rewrite <- !app_assoc in *. cbn [app] in *. apply Forall_cons in Hf as [_ [_ Hr]%Forall_cons]. rewrite total_cons2. pose proof (total_nonneg _ Hr). lia. }
  rewrite EH in *. clearbody p. destruct (test_checksum_rfc1071 false _ 0 Hf ltac:(done) ltac:(size_lia)) as [H4 _]. rewrite rfc1071_zero in H4.
  pose proof (put_field 2 p [0; 0] (src ++ dst) 10 (rfc1071 (p ++ [0; 0] ++ src ++ dst)) ltac:(done) ltac:(done)) as H5.
  eexists _, _. split; [apply (Hrun _ _ H4); unfold put16; rewrite <- H5; f_equal; unfold not16; lia|]. split_and!; [size_lia|size_lia|].
  apply sum_in_field; [done|exists 5%nat; unfold len in Lp10; lia|done].
Qed.

(** The ping of the tests from 10.0.0.2 to 10.0.0.1: neither checksum holds. *)
Example ping_checksums_wrong :
  (fun pkt => (rfc1071 (take 20 pkt), rfc1071 (drop 20 pkt))) <$> Ping (mkAddr [10; 0; 0; 1] []) (mkAddr [10; 0; 0; 2] []) = Some (13385, 4096).
Proof. by vm_compute. Qed.

(** ** The TUN device *)

Import ChTun.

Lemma writeLoop_taken packets taken closedAt offset : 0 <= offset -> Forall (fun p => offset <= len p) packets -> forall i, (forall k, (i <= k < i + length packets)%nat -> taken k = true) ->
  writeLoop taken closedAt i packets offset = (drop (Z.to_nat offset) <$> packets, Returns ((i + length packets)%nat, None)).
Proof.
  intros Ho H. induction H as [|p ps Hp _ IH]; intros i Ht; cbn [writeLoop]; [by rewrite Nat.add_0_r|].
  rewrite slice_suffix by lia. rewrite Ht by (cbn; lia). rewrite IH by (intros k Hk; apply Ht; cbn; lia). cbn. do 3 f_equal. lia.
Qed.
Lemma writeLoop_closed pre taken closedAt offset p post : 0 <= offset -> Forall (fun p => offset <= len p) (pre ++ [p]) -> forall i, (forall k, (i <= k < i + length pre)%nat -> taken k = true) ->
  taken (i + length pre)%nat = false -> closedAt (i + length pre)%nat = true ->
  writeLoop taken closedAt i (pre ++ p :: post) offset = (drop (Z.to_nat offset) <$> pre, Returns ((i + length pre)%nat, Some ErrClosed)).
Proof.
  intros Ho. induction pre as [|x pre IH]; intros H i Ht Hn Hc; apply Forall_cons in H as [Hx H]; cbn [app writeLoop]; rewrite slice_suffix by lia.
  - cbn in Hn, Hc. rewrite Nat.add_0_r in *. by rewrite Hn, Hc.
  - rewrite Ht by (cbn; lia). rewrite (IH H (S i)); [|intros k Hk; apply Ht; cbn; lia|rewrite <- Hn; f_equal; cbn; lia|rewrite <- Hc; f_equal; cbn; lia]. cbn. do 3 f_equal. lia.
Qed.

(** Write hands over the packets behind the offset in order, and reports how many were taken
    when the device is closed meanwhile; what Read returns is what was sent, as far as it fits.
    Close ends waiting calls and closes once: a second Close panics. *)
Theorem channel_tun (c : ChannelTUN) (taken closedAt : nat -> bool) (pre post : list (list Z)) (p : list Z) (offset : Z) : 0 <= offset -> Forall (fun p => offset <= len p) (pre ++ [p]) ->
  (forall k, (k < length pre)%nat -> taken k = true) ->
  Write c taken closedAt pre offset = (c, (drop (Z.to_nat offset) <$> pre, Returns (length pre, None))) /\
  (taken (length pre) = false -> closedAt (length pre) = true ->
    Write c taken closedAt (pre ++ p :: post) offset = (c, (drop (Z.to_nat offset) <$> pre, Returns (length pre, Some ErrClosed)))) /\
  (forall m, offset + len m <= len p -> Read c p offset (Some m) false = Returns (take (Z.to_nat offset) p ++ m ++ drop (Z.to_nat (offset + len m)) p, Ok (len m))) /\
  (closed c = false -> eventsClosed c = false -> exists c', Close c = (c', Returns tt) /\ Read c' p offset None true = Returns (p, Err ErrClosed) /\ (Close c').2 = Panics).
Proof.
  intros Ho Hf Ht. assert (Forall (fun p => offset <= len p) pre /\ offset <= len p) as [Hpre Hp] by (by apply Forall_app in Hf as [? [? _]%Forall_cons]).
  unfold Write. rewrite (proj2 (Z.eqb_neq offset (-1))) by lia. split_and!.
  - f_equal. by rewrite (writeLoop_taken pre taken closedAt offset Ho Hpre 0) by (intros k Hk; apply Ht; lia).
  - intros Hn Hc. f_equal. by rewrite (writeLoop_closed pre taken closedAt offset p post Ho Hf 0) by (done || (intros k Hk; apply Ht; lia)).
  - intros m Hm. unfold Read. rewrite andb_false_r, slice_suffix by lia.
    destruct (cut_field p (Z.to_nat offset) (length m)) as (x & y & z & -> & Hx & Hy & _); [unfold len in Hm; lia|].
    assert (copy_at (x ++ y ++ z) offset m = Some (x ++ m ++ z)) as -> by (replace offset with (len x) by (unfold len; lia); apply copy_at_mid; unfold len; lia).
    rewrite take_app_length', drop_app_length' by done. f_equal. f_equal; [|f_equal; unfold len in *; rewrite !length_app; lia]. do 2 f_equal.
    rewrite app_assoc, drop_app_length'; [done|]. rewrite length_app. unfold len. lia.
  - intros Hc He. unfold Close, Write. cbn. rewrite Hc, He. eexists. split; [reflexivity|]. done.
Qed.

(** ** The binds *)

Import ChBind.

(** The wiring, which no call changes. *)
Definition wired (w : world) : Prop :=
  length (chans w) = 4%nat /\ bind0 w = withSignal (closeSignal (bind0 w)) (bind0 NewChannelBinds) /\ bind1 w = withSignal (closeSignal (bind1 w)) (bind1 NewChannelBinds).

Lemma wired_bindOf w side : wired w -> bindOf side w = withSignal (closeSignal (bindOf side w)) (bindOf side NewChannelBinds).
Proof. intros (_ & H0 & H1). by destruct side. Qed.
Lemma wired_setBind w side s : wired w -> wired (setBind side (withSignal s (bindOf side w)) w).
Proof. intros (Hc & H0 & H1). destruct side; cbn; split_and!; try done; cbn; [by rewrite H1|by rewrite H0]. Qed.
Lemma wired_setChan w i q : wired w -> wired (setChan i q w).
Proof. intros (Hc & H0 & H1). split_and!; try done. cbn. by rewrite length_insert. Qed.

(** A send on one side fills the channel that the other side receives from. *)
Lemma send_channel side (v6 : bool) (bufs : list (list Z)) : forall w q, wired w -> closeSignal (bindOf side w) <> SignalClosed ->
  let c := bindOf side w in let ch := if v6 then tx6 c else tx4 c in chans w !! ch = Some q -> len q + len bufs <= chanCap ->
  exists w', Send side bufs (if v6 then target6 c else target4 c) w = Some (w', None) /\ w' = setChan ch (q ++ bufs) w.
Proof.
  induction bufs as [|b bufs IH]; intros w q Hw Hs c ch Hq Hl.
  - exists w. split; [done|]. unfold setChan. rewrite app_nil_r, list_insert_id by done. by destruct w.
  - cbn [Send]. fold c. rewrite len_cons in Hl. pose proof (len_nonneg bufs).
    assert (forall ep, (w1 ← chanSend ch b w; Send side bufs ep w1) = Send side bufs ep (setChan ch (q ++ [b]) w)) as Hstep.
    { intros ep. unfold chanSend. rewrite Hq. cbn [mbind option_bind]. by rewrite (proj2 (Z.ltb_lt _ _)) by lia. }
    pose proof (wired_bindOf w side Hw) as Hb. fold c in Hb. destruct (IH (setChan ch (q ++ [b]) w) (q ++ [b])) as (w' & Hrun & Hw'); [by apply wired_setChan|by destruct side| | |].
    + destruct side; cbn; (rewrite list_lookup_insert_eq; [done|by eapply lookup_lt_Some]).
    + rewrite len_app, len_cons, len_nil. lia.
    + exists w'. assert (bindOf side (setChan ch (q ++ [b]) w) = c) as Ebind by (by destruct side). rewrite Ebind in *. fold ch in Hw'.
      split.
      * destruct (closeSignal c) eqn:E; try done; (destruct v6; [destruct (Z.eqb_spec (target6 c) (target4 c)) as [Ht|_]; [exfalso; rewrite Hb in Ht; by destruct side|rewrite Z.eqb_refl]|rewrite Z.eqb_refl]; by rewrite <- Hrun, <- Hstep).
      * rewrite Hw'. unfold setChan. cbn. by rewrite list_insert_insert_eq, <- app_assoc.
Qed.

(** Receiving once for every buffer: what is in the buffer up to the size, and the endpoint. *)
Fixpoint receiveAll (side : bool) (ch : nat) (bufs : list (list Z)) (w : world) : option (world * list (list Z * Z)) :=
  match bufs with
  | [] => Some (w, [])
  | buf :: bufs =>
      '(w, r) ← receive side ch false buf w;
      match r with
      | Err _ => None
      | Ok (b, n, ep) => '(w, rs) ← receiveAll side ch bufs w; Some (w, (take (Z.to_nat n) b, ep) :: rs)
      end
  end.
Lemma receive_channel side ch q : forall w bufs rest, chans w !! ch = Some (q ++ rest) -> Forall2 (fun d buf => len d <= len buf) q bufs ->
  receiveAll side ch bufs w = Some (setChan ch rest w, (fun d => (d, target6 (bindOf side w))) <$> q).
Proof.
  induction q as [|d q IH]; intros w bufs rest Hq HF; apply Forall2_cons_inv_l in HF as (buf & bufs' & Hd & HF & ->) || apply Forall2_nil_inv_l in HF as ->; cbn [receiveAll].
  - cbn in Hq. unfold setChan. rewrite list_insert_id by done. by destruct w.
  - unfold receive. rewrite Hq. cbn [mbind option_bind app]. rewrite andb_false_r, copy_at_Some by (pose proof (len_nonneg buf); lia). cbn [mbind option_bind].
    rewrite (IH _ bufs' rest); [|cbn; by rewrite list_lookup_insert_eq by (by eapply lookup_lt_Some)|done]. cbn [mbind option_bind]. unfold len in Hd.
    change (Z.to_nat 0) with 0%nat. rewrite inserts_0 by lia. rewrite Z.min_r by (unfold len; lia). unfold len. rewrite Nat2Z.id, take_app_length. unfold setChan. cbn. rewrite list_insert_insert_eq. by destruct side.
Qed.

(** The two binds are connected: what one side sends to an endpoint of the other comes out
    there, complete and in order, and the endpoint it comes from leads back. The port that
    Open gives one side, written as an address and parsed, is an endpoint for the other. *)
Theorem channel_binds_connected (side v6 coin : bool) (bufs space : list (list Z)) (w : world) : wired w -> closeSignal (bindOf side w) <> SignalClosed ->
  let c := bindOf side w in let d := bindOf (negb side) w in let ch := if v6 then rx6 d else rx4 d in
  chans w !! ch = Some [] -> len bufs <= chanCap -> Forall2 (fun d buf => len d <= len buf) bufs space ->
  (exists w', Send side bufs (if v6 then target6 c else target4 c) w = Some (w', None) /\
    receiveAll (negb side) ch space w' = Some (w, (fun b => (b, target6 d)) <$> bufs)) /\
  tx6 d = rx6 c /\
  (let '(_, (_, port)) := Open (negb side) coin w in ParseEndpoint (DstToString port) = Some port /\ port = if coin then target4 c else target6 c).
Proof.
  intros Hw Hs c d ch Hq Hl HF. pose proof (wired_bindOf w side Hw) as Hc. pose proof (wired_bindOf w (negb side) Hw) as Hd. fold c in Hc. fold d in Hd.
  assert ((if v6 then tx6 c else tx4 c) = ch) as Ech by (unfold ch; rewrite Hc, Hd; by destruct side, v6). split; [|split].
  - destruct (send_channel side v6 bufs w [] Hw Hs) as (w' & Hrun & ->); [by fold c; rewrite Ech|done|]. fold c in Hrun |- *. rewrite Ech in *. eexists. split; [exact Hrun|]. cbn [app] in *.
    rewrite (receive_channel (negb side) ch bufs _ space []); [|cbn; rewrite app_nil_r; by rewrite list_lookup_insert_eq by (by eapply lookup_lt_Some)|done].
    f_equal. f_equal. unfold setChan. cbn. rewrite list_insert_insert_eq, list_insert_id by done. by destruct w.
  - rewrite Hc, Hd. by destruct side.
  - unfold Open. fold d. rewrite Hc, Hd. destruct side, coin; by vm_compute.
Qed.
Lemma channel_binds_connected_witness : exists w', Send false [[1; 2]; [3]] 1 NewChannelBinds = Some (w', None) /\
  receiveAll true 1 [[0; 0; 0]; [0; 0; 0]] w' = Some (NewChannelBinds, [([1; 2], 4); ([3], 4)]).
Proof.
  destruct (channel_binds_connected false false true [[1; 2]; [3]] [[0; 0; 0]; [0; 0; 0]] NewChannelBinds) as [H _]; [done|done|done|done| |exact H].
  repeat constructor; done.
Defined.
