(* ===== verification/SysTrace.v ===== *)
(** * SysTrace: calls of the system that can fail

    The code that sets a device up is a sequence of calls of the system with cleanups on its
    error paths. A computation is the list of what it opened, closed and started, and its
    result; the descriptors that are still open are read off that list. *)
From S2P Require Import Prelude GoLib.
#[local] Open Scope Z_scope.

(** Descriptors and routines, in the order in which they come and go. [Destroyed] is the
    removal of an interface, on the systems where the device does that itself. *)
Inductive sysEvent : Type := Opened (fd : Z) | Closed (fd : Z) | StartedNetlink | StartedHack | Destroyed.
#[export] Instance sysEvent_eq_dec : EqDecision sysEvent.
Proof. solve_decision. Defined.

Definition M (A : Type) : Type := list sysEvent * result A Z.
Definition ret {A} (a : A) : M A := ([], Ok a).
Definition fail {A} (e : Z) : M A := ([], Err e).
Definition bind {A B} (m : M A) (k : A -> M B) : M B :=
  let '(tr, r) := m in
  match r with Ok a => let '(tr', r') := k a in (tr ++ tr', r') | Err e => (tr, Err e) end.
Definition trace (e : sysEvent) : M unit := ([e], Ok tt).
Definition check (e : option Z) : M unit := match e with None => ret tt | Some e => fail e end.
Definition lift {A} (r : result A Z) : M A := match r with Ok a => ret a | Err e => fail e end.
(** A descriptor that is opened. *)
Definition open_ (r : result Z Z) : M Z := match r with Ok fd => ([Opened fd], Ok fd) | Err e => fail e end.
(** [if err != nil { unix.Close(fd); return nil, err }] *)
Definition orClose {A} (fd : Z) (m : M A) : M A :=
  let '(tr, r) := m in match r with Ok a => (tr, Ok a) | Err e => (tr ++ [Closed fd], Err e) end.
(** [defer unix.Close(fd)] *)
Definition deferClose {A} (fd : Z) (m : M A) : M A := let '(tr, r) := m in (tr ++ [Closed fd], r).

Declare Scope sys_scope.
Notation "'let!' x := m 'in' k" := (bind m (fun x => k)) (at level 200, x name, right associativity) : sys_scope.
Notation "'do!' m 'in' k" := (bind m (fun _ => k)) (at level 200, right associativity) : sys_scope.
#[local] Open Scope sys_scope.

(** rwcancel.NewRWCancel: the pipe whose end of reading is polled beside a descriptor. *)
Definition NewRWCancel (nonblock : option Z) (pipe : result (Z * Z) Z) : M (Z * Z) :=
  do! check nonblock in
  let! p := lift pipe in
  do! trace (Opened (fst p)) in
  do! trace (Opened (snd p)) in
  ret p.

(** The descriptors that are open after a trace. *)
Definition openFds (tr : list sysEvent) : list Z :=
  foldl (fun fds ev => match ev with Opened fd => fds ++ [fd] | Closed fd => filter (.≠ fd) fds | _ => fds end) [] tr.

Lemma close_again (l : list Z) s : s ∉ l -> filter (.≠ s) (l ++ [s]) = l.
Proof.
  intros Hs. rewrite filter_app, filter_cons_False, filter_nil, app_nil_r by (by intros []).
  induction l as [|x l IH]; [done|]. apply not_elem_of_cons in Hs as [Hx Hs]. rewrite filter_cons_True by done. by rewrite IH.
Qed.

(** A run that succeeds, call by call. *)
Section Runs.
Context {A B : Type}.
Lemma bind_ok (m : M A) (k : A -> M B) tr b : bind m k = (tr, Ok b) -> exists tr1 a tr2, m = (tr1, Ok a) /\ k a = (tr2, Ok b) /\ tr = tr1 ++ tr2.
Proof. unfold bind. destruct m as [tr1 [a|]]; [|done]. destruct (k a) as [tr2 r] eqn:E. intros [= <- ->]. by exists tr1, a, tr2. Qed.
Lemma ret_ok (a : A) tr b : ret a = (tr, Ok b) -> tr = [] /\ a = b.
Proof. by intros [= <- <-]. Qed.
Lemma lift_ok (r : result A Z) tr a : lift r = (tr, Ok a) -> tr = [] /\ r = Ok a.
Proof. by destruct r; intros [= <- <-]. Qed.
Lemma check_ok e tr u : check e = (tr, Ok u) -> tr = [] /\ e = None.
Proof. by destruct e; intros [= <- <-]. Qed.
Lemma trace_ok ev tr u : trace ev = (tr, Ok u) -> tr = [ev].
Proof. by intros [= <- _]. Qed.
Lemma open_ok r tr fd : open_ r = (tr, Ok fd) -> tr = [Opened fd] /\ r = Ok fd.
Proof. by destruct r; intros [= <- <-]. Qed.
Lemma orClose_ok fd (m : M A) tr a : orClose fd m = (tr, Ok a) -> m = (tr, Ok a).
Proof. by destruct m as [? [?|?]]; intros [= <- <-]. Qed.
Lemma deferClose_ok fd (m : M A) tr a : deferClose fd m = (tr, Ok a) -> exists tr1, m = (tr1, Ok a) /\ tr = tr1 ++ [Closed fd].
Proof. destruct m as [tr1 r]. intros [= <- ->]. by exists tr1. Qed.
End Runs.

Ltac minv H :=
  match type of H with
  | bind _ _ = _ => let tr1 := fresh "tr" in let tr2 := fresh "tr" in let a := fresh "a" in let H1 := fresh "Hm" in let H2 := fresh "Hm" in
      apply bind_ok in H as (tr1 & a & tr2 & H1 & H2 & ->); minv H1; minv H2
  | ret _ = _ => apply ret_ok in H as [-> ?]
  | lift _ = _ => apply lift_ok in H as [-> H]
  | check _ = _ => apply check_ok in H as [-> H]
  | trace _ = _ => apply trace_ok in H as ->
  | open_ _ = _ => apply open_ok in H as [-> H]
  | orClose _ _ = _ => apply orClose_ok in H; minv H
  | deferClose _ _ = _ => let H1 := fresh "Hm" in apply deferClose_ok in H as (? & H1 & ->); minv H1
  | _ => idtac
  end.

(** ** What is open after a computation *)

Definition afterEvent (fds : list Z) (ev : sysEvent) : list Z :=
  match ev with Opened fd => fds ++ [fd] | Closed fd => filter (.≠ fd) fds | _ => fds end.
Definition after (fds : list Z) (tr : list sysEvent) : list Z := foldl afterEvent fds tr.
Arguments after _ _ : simpl never.
Lemma after_app fds tr1 tr2 : after fds (tr1 ++ tr2) = after (after fds tr1) tr2.
Proof. apply foldl_app. Qed.
Lemma after_cons fds ev tr : after fds (ev :: tr) = after (afterEvent fds ev) tr.
Proof. done. Qed.
Lemma after_nil fds : after fds [] = fds.
Proof. done. Qed.
Lemma openFds_after tr : openFds tr = after [] tr.
Proof. done. Qed.

(** From [fds], [m] leaves [Q a] open when it returns [a] and [E] when it fails. *)
Definition leaves {A} (fds : list Z) (m : M A) (Q : A -> list Z) (E : list Z) : Prop :=
  match m.2 with Ok a => after fds m.1 = Q a | Err _ => after fds m.1 = E end.

Section Leaves.
Context {A B : Type}.
Lemma leaves_bind fds (m : M A) (k : A -> M B) fds' Q E : leaves fds m (fun _ => fds') E -> (forall a, leaves fds' (k a) Q E) -> leaves fds (bind m k) Q E.
Proof.
  unfold leaves, bind. destruct m as [tr [a|e]]; cbn; [|done]. intros Hm Hk. specialize (Hk a). destruct (k a) as [tr' [b|e]]; cbn in *; by rewrite after_app, Hm.
Qed.
Lemma leaves_open fds (r : result Z Z) (k : Z -> M B) Q E : (forall e, r = Err e -> fds = E) -> (forall fd, r = Ok fd -> leaves (fds ++ [fd]) (k fd) Q E) -> leaves fds (bind (open_ r) k) Q E.
Proof.
  intros HE Hk. unfold leaves, bind, open_. destruct r as [fd|e]; cbn; [|by rewrite (HE e)]. specialize (Hk fd eq_refl). unfold leaves in Hk. by destruct (k fd) as [tr [b|e]].
Qed.
Lemma leaves_ret fds (a : A) Q E : fds = Q a -> leaves fds (ret a) Q E.
Proof. done. Qed.
Lemma leaves_check fds e : leaves fds (check e) (fun _ => fds) fds.
Proof. by destruct e. Qed.
Lemma leaves_lift fds (r : result A Z) : leaves fds (lift r) (fun _ => fds) fds.
Proof. by destruct r. Qed.
Lemma leaves_fail fds e (Q : A -> list Z) E : fds = E -> leaves fds (fail e) Q E.
Proof. done. Qed.
(** Closing the socket that was opened last, when the rest leaves it and what was there. *)
Lemma leaves_deferClose fds fd (m : M A) Q E : leaves (fds ++ [fd]) m (fun a => Q a ++ [fd]) (E ++ [fd]) -> (forall a, fd ∉ Q a) -> fd ∉ E ->
  leaves (fds ++ [fd]) (deferClose fd m) Q E.
Proof.
  unfold leaves, deferClose. destruct m as [tr [a|e]]; cbn; intros Hm HQ HE; rewrite after_app, Hm; cbn; by apply close_again.
Qed.
(** A cleanup on the error path. *)
Lemma leaves_clean fds cleanup (m : M A) Q E E' : leaves fds m Q E' -> after E' cleanup = E ->
  leaves fds (let '(tr, r) := m in match r with Ok a => (tr, Ok a) | Err e => (tr ++ cleanup, Err e) end) Q E.
Proof. unfold leaves. destruct m as [tr [a|e]]; cbn; [done|]. intros H <-. by rewrite after_app, H. Qed.
Lemma leaves_weaken fds (m : M A) Q Q' E : leaves fds m Q E -> (forall a, Q a = Q' a) -> leaves fds m Q' E.
Proof. unfold leaves. destruct m as [tr [a|e]]; cbn; intros H HQ; [by rewrite <- HQ|done]. Qed.
End Leaves.

(** A socket that is closed before the call returns. *)
Lemma leaves_socket {A} fds (r : result Z Z) (m : Z -> M A) : (forall fd, r = Ok fd -> fd ∉ fds) -> (forall fd, leaves (fds ++ [fd]) (m fd) (fun _ => fds ++ [fd]) (fds ++ [fd])) ->
  leaves fds (bind (open_ r) (fun fd => deferClose fd (m fd))) (fun _ => fds) fds.
Proof. intros Hf Hm. apply leaves_open; [done|]. intros fd Hr. by apply leaves_deferClose; [|intros _; apply Hf|apply Hf]. Qed.
