(* ===== verification/TunLinux.v ===== *)
(** * TunLinux: the TUN device of Linux (src/tun/tun_linux.go, src/rwcancel/rwcancel.go)

    The device hands packets to the kernel through a file, in batches that the offload code
    merges or splits (Gro, Gso), and reports changes of its interface from two routines: one
    reads messages of the routing socket, one writes nothing to the file once a second and
    looks at the error. What the kernel answers is an argument everywhere: the results of
    reads, writes and polls are scripts, those of the calls that set the device up a record.
    [bigEndian] is the byte order of the machine. *)
From S2P Require Import Prelude GoLib SysTrace Checksum Gso Gro RouteListener.
#[local] Open Scope Z_scope.
#[local] Open Scope sys_scope.

(** ** Errors *)

Definition EINTR : Z := 4.
Definition EIO : Z := 5.
Definition EAGAIN : Z := 11.
Definition EINVAL : Z := 22.
Definition EBADFD : Z := 77.

Inductive tunError : Type :=
| Errno (e : Z)
| ErrClosed
| ErrGRO (e : groError)
| ErrVirtio (e : gsoError)
| ErrNetlinkClosed (e : Z)
| ErrNetlinkReceive (e : Z)
| ErrJoined (es : list Z).

(** errors.Join onto [errs]: nil when nothing was joined. *)
Definition joined (errs : list Z) : option tunError := match errs with [] => None | _ => Some (ErrJoined errs) end.

(** ** Reads and writes that can be cancelled *)

Module RWCancel.

Definition RetryAfterError (e : Z) : bool := (e =? EAGAIN) || (e =? EINTR).

(** What poll answers: an error, or the events of the descriptor and of the closing pipe. *)
Definition pollAnswer : Type := result (Z * Z) Z.

(** ReadyRead and ReadyWrite differ in the event they ask for. [None]: poll has not
    answered. *)
Fixpoint Ready (polls : list pollAnswer) : option (bool * list pollAnswer) :=
  match polls with
  | [] => None
  | Err e :: polls => if RetryAfterError e then Ready polls else Some (false, polls)
  | Ok (revents, closing) :: polls => Some (if negb (closing =? 0) then false else negb (revents =? 0), polls)
  end.

(** Read and Write: the calls on the descriptor and the polls between them. *)
Fixpoint Transfer (calls : list (result Z Z)) (polls : list pollAnswer) : option (result Z tunError) :=
  match calls with
  | [] => None
  | Ok n :: _ => Some (Ok n)
  | Err e :: calls =>
      if negb (RetryAfterError e) then Some (Err (Errno e))
      else
        '(ready, polls) ← Ready polls;
        if (ready : bool) then Transfer calls polls else Some (Err ErrClosed)
  end.

(** What callers rely on: an answer is never the request to try again; and when the pipe is
    readable, as it is after Cancel, a call that would block ends with ErrClosed. *)
Lemma Transfer_no_retry calls : forall polls r, Transfer calls polls = Some r ->
  match r with Ok n => Ok n ∈ calls | Err (Errno e) => RetryAfterError e = false | Err e => e = ErrClosed end.
Proof.
  induction calls as [|[n|e] calls IH]; intros polls r; cbn [Transfer]; [done| |].
  - intros [= <-]. set_solver.
  - destruct (RetryAfterError e) eqn:He; cbn [negb]; [|intros [= <-]; done].
    destruct (Ready polls) as [[[|] polls']|]; cbn [mbind option_bind]; [|intros [= <-]; done|done].
    intros H. apply IH in H. destruct r as [n|[]]; try done. set_solver.
Qed.

Lemma Transfer_cancelled e calls polls revents closing rest :
  RetryAfterError e = true -> Forall (fun p => exists x, p = Err x /\ RetryAfterError x = true) polls -> closing <> 0 ->
  Transfer (Err e :: calls) (polls ++ Ok (revents, closing) :: rest) = Some (Err ErrClosed).
Proof.
  intros He Hp Hc. cbn [Transfer]. rewrite He. cbn [negb].
  assert (Ready (polls ++ Ok (revents, closing) :: rest) = Some (false, rest)) as ->; [|done].
  induction Hp as [|p polls (x & -> & Hx) _ IH]; cbn [app Ready]; [|by rewrite Hx].
  by rewrite (proj2 (Z.eqb_neq closing 0)).
Qed.

End RWCancel.
Import RWCancel.

(** ** The device *)

Inductive Event : Type := EventUp | EventDown | EventMTUUpdate.
#[export] Instance Event_eq_dec : EqDecision Event.
Proof. solve_decision. Defined.

(** nameCache is [None] until it is set; statusListenersShutdown and events are nil ([None])
    or channels that are closed or not; netlinkCancel is set with the first. *)
Record NativeTun : Type := {
  tunFile : Z;
  index : Z;
  errors : list tunError;
  netlinkSock : Z;
  netlinkCancel : option (Z * Z);
  statusListenersShutdown : option bool;
  eventsClosed : option bool;
  batchSize : Z;
  vnetHdr : bool;
  udpGSO : bool;
  closeOnce : bool;
  nameCache : option (result (list Z) Z);
  readBuff : list Z;
  tcpTable : tcpGROTable;
  udpTable : udpGROTable
}.

Definition readBuffLen : nat := Z.to_nat (virtioNetHdrLen + 65535).

Definition with_tables (t : tcpGROTable) (u : udpGROTable) (d : NativeTun) : NativeTun :=
  {| tunFile := tunFile d; index := index d; errors := errors d; netlinkSock := netlinkSock d; netlinkCancel := netlinkCancel d;
     statusListenersShutdown := statusListenersShutdown d; eventsClosed := eventsClosed d; batchSize := batchSize d; vnetHdr := vnetHdr d;
     udpGSO := udpGSO d; closeOnce := closeOnce d; nameCache := nameCache d; readBuff := readBuff d; tcpTable := t; udpTable := u |}.
Definition with_errors (e : list tunError) (d : NativeTun) : NativeTun :=
  {| tunFile := tunFile d; index := index d; errors := e; netlinkSock := netlinkSock d; netlinkCancel := netlinkCancel d;
     statusListenersShutdown := statusListenersShutdown d; eventsClosed := eventsClosed d; batchSize := batchSize d; vnetHdr := vnetHdr d;
     udpGSO := udpGSO d; closeOnce := closeOnce d; nameCache := nameCache d; readBuff := readBuff d; tcpTable := tcpTable d; udpTable := udpTable d |}.
Definition with_readBuff (b : list Z) (d : NativeTun) : NativeTun :=
  {| tunFile := tunFile d; index := index d; errors := errors d; netlinkSock := netlinkSock d; netlinkCancel := netlinkCancel d;
     statusListenersShutdown := statusListenersShutdown d; eventsClosed := eventsClosed d; batchSize := batchSize d; vnetHdr := vnetHdr d;
     udpGSO := udpGSO d; closeOnce := closeOnce d; nameCache := nameCache d; readBuff := b; tcpTable := tcpTable d; udpTable := udpTable d |}.
Definition with_flags (batch : Z) (vnet udp : bool) (d : NativeTun) : NativeTun :=
  {| tunFile := tunFile d; index := index d; errors := errors d; netlinkSock := netlinkSock d; netlinkCancel := netlinkCancel d;
     statusListenersShutdown := statusListenersShutdown d; eventsClosed := eventsClosed d; batchSize := batch; vnetHdr := vnet;
     udpGSO := udp; closeOnce := closeOnce d; nameCache := nameCache d; readBuff := readBuff d; tcpTable := tcpTable d; udpTable := udpTable d |}.
Definition with_name (n : result (list Z) Z) (d : NativeTun) : NativeTun :=
  {| tunFile := tunFile d; index := index d; errors := errors d; netlinkSock := netlinkSock d; netlinkCancel := netlinkCancel d;
     statusListenersShutdown := statusListenersShutdown d; eventsClosed := eventsClosed d; batchSize := batchSize d; vnetHdr := vnetHdr d;
     udpGSO := udpGSO d; closeOnce := closeOnce d; nameCache := Some n; readBuff := readBuff d; tcpTable := tcpTable d; udpTable := udpTable d |}.
Definition with_netlink (idx sock : Z) (cancel : option (Z * Z)) (d : NativeTun) : NativeTun :=
  {| tunFile := tunFile d; index := idx; errors := errors d; netlinkSock := sock; netlinkCancel := cancel;
     statusListenersShutdown := statusListenersShutdown d; eventsClosed := eventsClosed d; batchSize := batchSize d; vnetHdr := vnetHdr d;
     udpGSO := udpGSO d; closeOnce := closeOnce d; nameCache := nameCache d; readBuff := readBuff d; tcpTable := tcpTable d; udpTable := udpTable d |}.
Definition with_closed (shutdown ev : option bool) (d : NativeTun) : NativeTun :=
  {| tunFile := tunFile d; index := index d; errors := errors d; netlinkSock := netlinkSock d; netlinkCancel := netlinkCancel d;
     statusListenersShutdown := shutdown; eventsClosed := ev; batchSize := batchSize d; vnetHdr := vnetHdr d;
     udpGSO := udpGSO d; closeOnce := true; nameCache := nameCache d; readBuff := readBuff d; tcpTable := tcpTable d; udpTable := udpTable d |}.

Definition BatchSize (d : NativeTun) : Z := batchSize d.


Section Device.
Context (bigEndian : bool).

(** ** Write *)

(** The kernel's answer to write number [k] of a batch. *)
Context (reply : nat -> list Z -> result Z Z).

(** The loop over the indices to write: what was handed to the file, the bytes written and
    the errors. [None] is an index or an offset out of range. *)
Fixpoint writeLoop (toWrite : list Z) (bufs : list Buf) (offset : Z) (k : nat) (total : Z) (errs : list Z) (log : list (list Z)) :
    option (list (list Z) * Z * option tunError) :=
  match toWrite with
  | [] => Some (log, total, joined errs)
  | bufsI :: toWrite =>
      b ← at_ bufs bufsI;
      p ← tailOf b offset;
      match reply k p with
      | Err e =>
          if e =? EBADFD then Some (log ++ [p], total, Some ErrClosed)
          else writeLoop toWrite bufs offset (S k) total (errs ++ [e]) (log ++ [p])
      | Ok n => writeLoop toWrite bufs offset (S k) (total + n) errs (log ++ [p])
      end
  end.

(** Where the loop of handleGRO stops: its only error is the test of the offset, in front of
    every change of the round. *)
Fixpoint groStop (offset : Z) (canUDPGRO : bool) (n : nat) (i : Z) (g : groState) : groState :=
  match n with
  | O => g
  | S n => match groPacket bigEndian offset canUDPGRO i g with Some (Ok g) => groStop offset canUDPGRO n (i + 1) g | _ => g end
  end.

(** The deferred reset. *)
Definition resetTables (t : tcpGROTable) (u : udpGROTable) (d : NativeTun) : NativeTun := with_tables (t_reset t) (u_reset u) d.

Definition Write (tcpVisit : gmap tcpFlowKey (list tcpGROItem) -> list (list tcpGROItem)) (udpVisit : gmap udpFlowKey (list udpGROItem) -> list (list udpGROItem))
    (bufs : list Buf) (offset : Z) (d : NativeTun) : option (NativeTun * list Buf * (list (list Z) * Z * option tunError)) :=
  if vnetHdr d then
    r ← handleGRO bigEndian offset (udpGSO d) tcpVisit udpVisit bufs (tcpTable d) (udpTable d);
    match r with
    | Err e =>
        let g := groStop offset (udpGSO d) (length bufs) 0 {| g_bufs := bufs; g_tcp := tcpTable d; g_udp := udpTable d; g_toWrite := [] |} in
        Some (resetTables (g_tcp g) (g_udp g) d, g_bufs g, ([], 0, Some (ErrGRO e)))
    | Ok g =>
        out ← writeLoop (g_toWrite g) (g_bufs g) (offset - virtioNetHdrLen) 0 0 [] [];
        Some (resetTables (g_tcp g) (g_udp g) d, g_bufs g, out)
    end
  else
    out ← writeLoop (Z.of_nat <$> seq 0 (length bufs)) bufs offset 0 0 [] [];
    Some (resetTables (tcpTable d) (udpTable d) d, bufs, out).

(** ** Read *)

(** [file]: what the read of the file does with a slice of a given length: the bytes it
    stores, or an error. With offloads the packet is read into readBuff and split from there;
    the checksum that may be completed in readBuff is not kept, a read uses what it stored. *)
Definition Read (file : Z -> result (list Z) Z) (bufs : list (list Z)) (sizes : list Z) (offset : Z) (d : NativeTun) :
    option (NativeTun * list (list Z) * list Z * (Z * option tunError)) :=
  match errors d with
  | err :: rest => Some (with_errors rest d, bufs, sizes, (0, Some err))
  | [] =>
      b0 ← at_ bufs 0;
      into ← slice b0 offset (len b0);
      let readInto := if vnetHdr d then readBuff d else into in
      match file (len readInto) with
      | Err e => Some (d, bufs, sizes, (0, Some (if e =? EBADFD then ErrClosed else Errno e)))
      | Ok data =>
          if vnetHdr d then
            buff ← copy_at (readBuff d) 0 data;
            in_ ← slice buff 0 (len data);
            '(bufs, sizes, (n, err)) ← handleVirtioRead bigEndian in_ bufs sizes offset;
            Some (with_readBuff buff d, bufs, sizes, (n, option_map ErrVirtio err))
          else
            b0 ← copy_at b0 offset data;
            bufs ← set_at bufs 0 b0;
            sizes ← set_at sizes 0 (len data);
            Some (d, bufs, sizes, (1, None))
      end
  end.

(** ** The routine that reads the routing socket *)

Definition NLMSG_DONE : Z := 3.
Definition RTM_NEWLINK : Z := 16.
Definition IFF_RUNNING : Z := 64.
Definition i32 (v : Z) : Z := if v <? 2 ^ 31 then v else v - 2 ^ 32.

(** unix.IfInfomsg, the fields that are read. *)
Record IfInfomsg : Type := { if_Index : Z; if_Flags : Z }.
Definition readIfInfomsg (b : list Z) : IfInfomsg :=
  {| if_Index := i32 (field bigEndian b 4 4); if_Flags := field bigEndian b 8 4 |}.

(** What a link message makes the routine report, and wasEverUp after it. *)
Definition linkEvents (index : Z) (info : IfInfomsg) (wasEverUp : bool) : list Event * bool :=
  if negb (if_Index info =? index) then ([], wasEverUp)
  else
    let running := negb (Z.land (if_Flags info) IFF_RUNNING =? 0) in
    let '(up, wasEverUp) := if running then ([EventUp], true) else ([], wasEverUp) in
    let down := if negb running then (if wasEverUp then [EventDown] else []) else [] in
    (up ++ down ++ [EventMTUUpdate], wasEverUp).

(** The loop over what one read returned: [mem] is the memory behind [&remain[0]], of which
    [n] bytes are in the slice. The information of a link is read through an unsafe pointer,
    whose only check is the index of its first byte. *)
Fixpoint netlinkLoop (fuel : nat) (index : Z) (mem : list Z) (n : Z) (wasEverUp : bool) (events : list Event) : outcome (list Event) :=
  match fuel with
  | O => OutOfFuel
  | S fuel =>
      if n <? SizeofNlMsghdr then Done events
      else
        let hdr := readNlMsghdr bigEndian mem in
        if nl_Len hdr >? n then Done events
        else
          let mem' := drop (Z.to_nat (nl_Len hdr)) mem in
          let n' := n - nl_Len hdr in
          if nl_Type hdr =? NLMSG_DONE then netlinkLoop fuel index [] 0 wasEverUp events
          else if nl_Type hdr =? RTM_NEWLINK then
            if n <=? SizeofNlMsghdr then Panic
            else
              let '(evs, wasEverUp) := linkEvents index (readIfInfomsg (drop (Z.to_nat SizeofNlMsghdr) mem)) wasEverUp in
              netlinkLoop fuel index mem' n' wasEverUp (events ++ evs)
          else netlinkLoop fuel index mem' n' wasEverUp events
  end.

(** What a call of Recvmsg comes to: [n] bytes of [mem], with the shutdown channel closed or
    not when it is looked at; or an error, with the verdict of ReadyRead when it is asked. *)
Inductive received : Type :=
| Received (mem : list Z) (n : Z) (shutdown : bool)
| Failed (e : Z) (ready : bool).

(** The end of the routine: it closes the socket, waits for the other routine, closes the
    channel of events and the pipe of the canceller. [Waiting]: blocked in Recvmsg. *)
Inductive listening : Type :=
| Waiting (events : list Event)
| Ended (events : list Event) (err : option tunError)
| Crashed (events : list Event)
| Spinning (events : list Event).

(** The iterations that one read can need: every message it holds has a length. *)
Definition netlinkFuel (n : Z) : nat := S (S (Z.to_nat n)).

Fixpoint routineNetlinkListener (index : Z) (script : list received) (events : list Event) : listening :=
  match script with
  | [] => Waiting events
  | Failed e ready :: script =>
      if RetryAfterError e then
        if ready then routineNetlinkListener index script events else Ended events (Some (ErrNetlinkClosed e))
      else Ended events (Some (ErrNetlinkReceive e))
  | Received mem n shutdown :: script =>
      if (shutdown : bool) then Ended events None
      else
        match netlinkLoop (netlinkFuel n) index mem n false [] with
        | Done evs => routineNetlinkListener index script (events ++ evs)
        | Panic => Crashed events
        | OutOfFuel => Spinning events
        end
  end.

(** ** The routine that probes the file *)

Inductive probe : Type := NoConn | Probed (err : option Z) (shutdown : bool).
Inductive lastStatus : Type := lastNone | lastUp | lastDown.
#[export] Instance lastStatus_eq_dec : EqDecision lastStatus.
Proof. solve_decision. Defined.

(** The events of the probes so far and whether the routine has ended. *)
Fixpoint routineHackListener (probes : list probe) (last : lastStatus) (events : list Event) : list Event * bool :=
  match probes with
  | [] => (events, false)
  | NoConn :: _ => (events, true)
  | Probed err shutdown :: probes =>
      match err with
      | Some e =>
          if e =? EINVAL then
            let events := if decide (last = lastUp) then events else events ++ [EventUp] in
            if (shutdown : bool) then (events, true) else routineHackListener probes lastUp events
          else if e =? EIO then
            let events := if decide (last = lastDown) then events else events ++ [EventDown] in
            if (shutdown : bool) then (events, true) else routineHackListener probes lastDown events
          else (events, true)
      | None => (events, true)
      end
  end.

(** ** Setting the device up *)

(** The answers of the system to the calls of each function, in the order of the calls. *)
Record env : Type := {
  e_open : result Z Z;         (* CreateTUN *)
  e_ifreqName : option Z;      (* NewIfreq of the name that was asked for *)
  e_setiff : option Z;
  e_nonblock : option Z;
  e_nameConn : option Z;       (* nameSlow; the request that TUNGETIFF fills *)
  e_nameControl : option Z;
  e_nameGetiff : result (list Z) Z;
  e_conn : option Z;           (* initFromFlags; the flags of the request *)
  e_control : option Z;
  e_ifreq : option Z;
  e_getiff : result Z Z;
  e_offload : Z -> option Z;
  e_idxsocket : result Z Z;    (* getIFIndex *)
  e_ifindex : result Z Z;
  e_nlsocket : result Z Z;     (* createNetlinkSocket *)
  e_nlbind : option Z;
  e_nlnonblock : option Z;     (* NewRWCancel *)
  e_pipe : result (Z * Z) Z;
  e_mtusocket : result Z Z;    (* setMTU and MTU *)
  e_setmtu : option Z;
  e_getmtu : result Z Z
}.

Definition IFF_TUN : Z := 1.
Definition IFF_NO_PI : Z := 4096.
Definition IFF_VNET_HDR : Z := 16384.
Definition tunTCPOffloads : Z := Z.lor (Z.lor 1 2) 4.
Definition tunUDPOffloads : Z := Z.lor 32 64.

(** unix.ByteSliceToString: up to the first zero byte. *)
Fixpoint ByteSliceToString (b : list Z) : list Z :=
  match b with [] => [] | c :: b => if c =? 0 then [] else c :: ByteSliceToString b end.

Definition nameSlow (e : env) : result (list Z) Z :=
  match e_nameConn e, e_nameControl e, e_nameGetiff e with
  | Some x, _, _ | None, Some x, _ | None, None, Err x => Err x
  | None, None, Ok ifr => Ok (ByteSliceToString ifr)
  end.

Definition Name (e : env) (d : NativeTun) : result (list Z) Z * NativeTun :=
  match nameCache d with
  | Some n => (n, d)
  | None => let n := nameSlow e in (n, with_name n d)
  end.

Definition initFromFlags (e : env) (d : NativeTun) : M NativeTun :=
  do! check (e_conn e) in
  do! check (e_control e) in
  do! check (e_ifreq e) in
  let! got := lift (e_getiff e) in
  if negb (Z.land got IFF_VNET_HDR =? 0) then
    do! check (e_offload e tunTCPOffloads) in
    ret (with_flags (Z.of_nat IdealBatchSize) true (match e_offload e (Z.lor tunTCPOffloads tunUDPOffloads) with None => true | Some _ => false end) d)
  else ret (with_flags 1 (vnetHdr d) (udpGSO d) d).

Definition getIFIndex (e : env) : M Z :=
  let! fd := open_ (e_idxsocket e) in deferClose fd (lift (e_ifindex e)).

Definition createNetlinkSocket (e : env) : M Z :=
  let! sock := open_ (e_nlsocket e) in
  do! check (e_nlbind e) in
  ret sock.

Definition setMTU (e : env) (d : NativeTun) : M unit :=
  do! lift (fst (Name e d)) in
  let! fd := open_ (e_mtusocket e) in
  deferClose fd (check (e_setmtu e)).

Definition MTU (e : env) (d : NativeTun) : M Z :=
  do! lift (fst (Name e d)) in
  let! fd := open_ (e_mtusocket e) in
  deferClose fd (let! v := lift (e_getmtu e) in ret (i32 v)).

Definition newTun (file : Z) (monitored : bool) : NativeTun :=
  {| tunFile := file; index := 0; errors := []; netlinkSock := 0; netlinkCancel := None;
     statusListenersShutdown := if monitored then Some false else None; eventsClosed := Some false; batchSize := 0; vnetHdr := false;
     udpGSO := false; closeOnce := false; nameCache := None; readBuff := replicate readBuffLen 0; tcpTable := newTCPGROTable; udpTable := newUDPGROTable |}.

Definition CreateTUNFromFile (e : env) (file : Z) : M NativeTun :=
  let '(name, d) := Name e (newTun file true) in
  do! lift name in
  let! d := initFromFlags e d in
  let! idx := getIFIndex e in
  let! sock := createNetlinkSocket e in
  let! cancel := orClose sock (NewRWCancel (e_nlnonblock e) (e_pipe e)) in
  let d := with_netlink idx sock (Some cancel) d in
  do! trace StartedNetlink in
  do! trace StartedHack in
  do! orClose sock (setMTU e d) in
  ret d.

Definition CreateTUN (e : env) : M NativeTun :=
  let! nfd := open_ (e_open e) in
  do! check (e_ifreqName e) in
  do! check (e_setiff e) in
  do! orClose nfd (check (e_nonblock e)) in
  CreateTUNFromFile e nfd.

Definition CreateUnmonitoredTUNFromFD (e : env) (fd : Z) : M (NativeTun * list Z) :=
  do! check (e_nonblock e) in
  let '(name, d) := Name e (newTun fd false) in
  let! name := lift name in
  let! d := initFromFlags e d in
  ret (d, name).

(** ** Close *)

(** [cancelErr] and [fileErr] are what Cancel and the close of the file return; the
    descriptors closed, and whether the pipe of the canceller was written to. A channel that
    is already closed panics. *)
Definition Close (cancelErr fileErr : option Z) (d : NativeTun) : option (NativeTun * (list sysEvent * bool * option Z)) :=
  if closeOnce d then Some (d, ([], false, None))
  else
    '(d, cancelled) ←
      match statusListenersShutdown d with
      | Some true => None
      | Some false => Some (with_closed (Some true) (eventsClosed d) d, match netlinkCancel d with Some _ => true | None => false end)
      | None =>
          match eventsClosed d with
          | Some true => None
          | Some false => Some (with_closed None (Some true) d, false)
          | None => Some (with_closed None None d, false)
          end
      end;
    let err1 := if (cancelled : bool) then cancelErr else None in
    Some (d, ([Closed (tunFile d)], cancelled, match err1 with Some e => Some e | None => fileErr end)).

End Device.
