(* ===== verification/TunSpec.v ===== *)
(** * TunSpec: what the Linux TUN device promises

    A batch is handed to the file packet by packet until the file is gone; the merged
    packets carry every UDP datagram of the batch; the tables are empty again afterwards.
    The two routines report the changes of the interface. The descriptors that are open
    after the device was set up, or failed to be. *)
From stdpp Require Import sorting.
From S2P Require Import Prelude GoLib SysTrace Checksum Gso Gro GroInv GroSpec Bind RouteListener TunLinux.
#[local] Open Scope Z_scope.

(** ** The writes of a batch *)

(** The answers in front of the one that says that the file is gone. *)
Fixpoint beforeClosed (rs : list (result Z Z)) : list (result Z Z) :=
  match rs with
  | [] => []
  | Err e :: rs => if e =? EBADFD then [] else Err e :: beforeClosed rs
  | r :: rs => r :: beforeClosed rs
  end.
Definition written (r : result Z Z) : Z := match r with Ok n => n | Err _ => 0 end.
Definition bytesWritten (rs : list (result Z Z)) : Z := foldr Z.add 0 (written <$> rs).
Definition errnos (rs : list (result Z Z)) : list Z := omap (fun r => match r with Err e => Some e | Ok _ => None end) rs.

(** What Write reports when the file answers [rs] to the packets [ps]. *)
Definition writeReport (ps : list (list Z)) (rs : list (result Z Z)) : list (list Z) * Z * option tunError :=
  let ok := beforeClosed rs in
  (take (S (length ok)) ps, bytesWritten ok,
   if decide (length ok < length rs)%nat then Some ErrClosed else joined (errnos ok)).

Definition packetAt (bufs : list Buf) (offset : Z) (i : Z) : option (list Z) := b ← at_ bufs i; tailOf b offset.

Section Writes.
Context (reply : nat -> list Z -> result Z Z).

Definition answersFrom (k : nat) (ps : list (list Z)) : list (result Z Z) := imap (fun j p => reply (k + j) p) ps.

Lemma answersFrom_cons k p ps : answersFrom k (p :: ps) = reply k p :: answersFrom (S k) ps.
Proof. unfold answersFrom. cbn. rewrite Nat.add_0_r. f_equal. apply imap_ext. intros j x _. cbn. f_equal. lia. Qed.

Lemma writeLoop_spec bufs offset toWrite : forall ps k total errs log, mapM (packetAt bufs offset) toWrite = Some ps ->
  let rs := answersFrom k ps in let ok := beforeClosed rs in
  writeLoop reply toWrite bufs offset k total errs log =
  Some (log ++ take (S (length ok)) ps, total + bytesWritten ok,
        if decide (length ok < length rs)%nat then Some ErrClosed else joined (errs ++ errnos ok)).
Proof.
  induction toWrite as [|i toWrite IH]; intros ps k total errs log; cbn [mapM].
  - intros [= <-]. cbn. unfold bytesWritten, errnos. cbn. by rewrite !app_nil_r, Z.add_0_r.
  - intros H. apply bind_Some in H as (p & Hp & H). apply bind_Some in H as (ps' & Hps & [= <-]).
    unfold packetAt in Hp. apply bind_Some in Hp as (b & Hb & Hp). cbn [writeLoop]. rewrite Hb. cbn [mbind option_bind]. rewrite Hp. cbn [mbind option_bind].
    cbv zeta. rewrite answersFrom_cons.
    destruct (reply k p) as [n|e]; cbn [beforeClosed].
    + rewrite (IH ps' _ _ _ _ Hps). cbv zeta. cbn [length take]. rewrite <- app_assoc. unfold bytesWritten, errnos. cbn. rewrite Z.add_assoc.
      destruct (decide (length (beforeClosed (answersFrom (S k) ps')) < length (answersFrom (S k) ps'))%nat); [rewrite decide_True by lia|rewrite decide_False by lia]; done.
    + destruct (e =? EBADFD).
      * cbn. unfold bytesWritten. cbn. rewrite Z.add_0_r. rewrite take_0. done.
      * rewrite (IH ps' _ _ _ _ Hps). cbv zeta. cbn [length take]. rewrite <- !app_assoc. unfold bytesWritten, errnos. cbn.
        destruct (decide (length (beforeClosed (answersFrom (S k) ps')) < length (answersFrom (S k) ps'))%nat); [rewrite decide_True by lia|rewrite decide_False by lia]; done.
Qed.

Lemma writeLoop_report bufs offset toWrite ps : mapM (packetAt bufs offset) toWrite = Some ps ->
  writeLoop reply toWrite bufs offset 0 0 [] [] = Some (writeReport ps (answersFrom 0 ps)).
Proof. intros H. by rewrite (writeLoop_spec _ _ _ _ 0 0 [] [] H). Qed.
End Writes.

(** ** Which packets are written *)

Definition uAny (u : udpGROTable) (j : Z) : Prop := exists k, j ∈ uIdx u k.

Lemma uAny_put u k its j : uAny (u_put u k its) j -> uAny u j \/ j ∈ ui_bufsIndex <$> its.
Proof.
  intros [k' Hj]. unfold uIdx in Hj. rewrite uItems_put in Hj. destruct (decide (k = k')) as [-> |]; [by right|left]. by exists k'.
Qed.

Lemma u_insert_any u pkt a b c i inv u' j : u_insert u pkt a b c i inv = Some u' -> uAny u' j -> uAny u j \/ j = u16 i.
Proof.
  unfold u_insert. intros H Hj.
  destruct (newUDPFlowKey pkt a b c) as [k|]; [|done]. cbn [mbind option_bind] in H. destruct (slice _ _ _) as [pl|]; [|done]. cbn [mbind option_bind] in H.
  assert (forall its u1, match u_itemsByFlow u !! k with Some items => Some (items, u) | None => u_newItems u end = Some (its, u1) ->
    (forall x, uAny u1 x -> uAny u x) /\ forall x, x ∈ ui_bufsIndex <$> its -> uAny u x) as Hits.
  { intros its u1. destruct (u_itemsByFlow u !! k) as [l|] eqn:E.
    - intros [= <- <-]. split; [done|]. intros x Hx. exists k. unfold uIdx, uItems. by rewrite E.
    - unfold u_newItems. destruct (u_itemsPool u); [done|]. intros [= <- <-]. split; [by intros x [k' Hx]; exists k'|]. intros x Hx. set_solver. }
  destruct (match u_itemsByFlow u !! k with Some _ => _ | None => _ end) as [[its u1]|]; [|done]. cbn [mbind option_bind] in H. injection H as <-.
  destruct (Hits _ _ eq_refl) as [H1 H2]. apply uAny_put in Hj as [Hj|Hj]; [by left; apply H1|].
  rewrite fmap_app in Hj. apply elem_of_app in Hj as [Hj|Hj]; [by left; apply H2|]. right. by apply list_elem_of_singleton in Hj.
Qed.

Lemma u_updateAt_any u it n u' j : u_updateAt u it n = Some u' -> uAny u' j -> uAny u j \/ j = ui_bufsIndex it.
Proof.
  unfold u_updateAt. intros H Hj. destruct (set_at _ n it) as [its|] eqn:E; [|done]. cbn [mbind option_bind] in H. injection H as <-.
  apply uAny_put in Hj as [Hj|Hj]; [by left|]. apply list_elem_of_fmap in Hj as (x & -> & Hx). unfold set_at in E.
  destruct (decide _); [|done]. injection E as <-. apply list_elem_of_lookup in Hx as [m Hm]. destruct (decide (m = Z.to_nat n)) as [-> |Hne].
  - rewrite list_lookup_insert_eq in Hm by (apply lookup_lt_Some in Hm; by rewrite length_insert in Hm). injection Hm as <-. by right.
  - rewrite list_lookup_insert_ne in Hm by done. left. exists (ui_key it). unfold uIdx. apply list_elem_of_fmap_2. unfold uItems. by eapply list_elem_of_lookup_2.
Qed.

(** Merging keeps the buffer of an item. *)
Lemma coalesceUDP_idx be pkt it bufs off isV6 r it' bufs' : coalesceUDPPackets be pkt it bufs off isV6 = Some (r, it', bufs') -> ui_bufsIndex it' = ui_bufsIndex it.
Proof.
  unfold coalesceUDPPackets. intros H. repeat (first [apply bind_Some in H as (? & _ & H)|case_match]; cbn [mbind option_bind] in H);
    by injection H as <- <- <-.
Qed.

(** A round gives the table no buffer but that of the packet, and only when the packet is
    inserted. *)
Lemma udpGRO_any be bufs offset i u isV6 r u' bufs' j : udpGRO be bufs offset i u isV6 = Some (r, u', bufs') ->
  uAny u' j -> uAny u j \/ (j = u16 i /\ r = groResultTableInsert).
Proof.
  unfold udpGRO. cbv zeta. intros H Hj. apply bind_Some in H as (b & _ & H). apply bind_Some in H as (pkt & _ & H). apply bind_Some in H as (h & _ & H).
  destruct h as [iph|]; [|injection H as <- <- <-; by left]. destruct (_ <? _); [injection H as <- <- <-; by left|].
  apply bind_Some in H as (fr & _ & H). destruct fr; [injection H as <- <- <-; by left|]. destruct (_ <? 1); [injection H as <- <- <-; by left|].
  apply bind_Some in H as ([found u1] & Hl & H). unfold u_lookupOrInsert in Hl. apply bind_Some in Hl as (k & _ & Hl).
  destruct (u_itemsByFlow u !! k) as [items|] eqn:E.
  - injection Hl as <- <-. apply bind_Some in H as (it & Hit & H). apply bind_Some in H as (can & _ & H). apply bind_Some in H as ([[res it'] bufs1] & Hm & H).
    assert (uAny u (ui_bufsIndex it')) as Hany.
    { exists k. unfold uIdx, uItems. rewrite E. assert (ui_bufsIndex it' = ui_bufsIndex it) as -> by (destruct (decide _); [by eapply coalesceUDP_idx|by injection Hm as <- <- <-]).
      apply list_elem_of_fmap_2. unfold at_ in Hit. destruct (decide _); [|done]. by eapply list_elem_of_lookup_2. }
    destruct (decide (res = _)).
    + apply bind_Some in H as (u2 & Hu & [= <- <- <-]). apply (u_updateAt_any _ _ _ _ _ Hu) in Hj as [Hj | ->]; by left.
    + apply bind_Some in H as (u2 & Hu & [= <- <- <-]). apply (u_insert_any _ _ _ _ _ _ _ _ _ Hu) in Hj as [Hj | ->]; [by left|by right].
  - apply bind_Some in Hl as (u2 & Hu & [= <- <-]). injection H as <- <- <-. apply (u_insert_any _ _ _ _ _ _ _ _ _ Hu) in Hj as [Hj | ->]; [by left|by right].
Qed.

(** The packets to write so far: increasing indices below [i], the buffers of all items
    among them. *)
Record WInv (i : Z) (g : groState) : Prop := {
  w_sorted : StronglySorted Z.lt (g_toWrite g);
  w_range : Forall (fun j => 0 <= j < i) (g_toWrite g);
  w_items : forall j, uAny (g_udp g) j -> j ∈ g_toWrite g
}.

Lemma StronglySorted_snoc (l : list Z) i : StronglySorted Z.lt l -> Forall (fun j => 0 <= j < i) l -> StronglySorted Z.lt (l ++ [i]).
Proof.
  induction 1 as [|x l Hs IH Hx]; intros Hl; cbn; [apply SSorted_cons; [apply SSorted_nil|apply Forall_nil_2]|].
  apply Forall_cons in Hl as [? Hl]. apply SSorted_cons; [by apply IH|]. apply Forall_app. split; [done|]. apply Forall_singleton. lia.
Qed.

Lemma WInv_step i g bufs t u : WInv i g -> 0 <= i -> (forall j, uAny u j -> uAny (g_udp g) j) ->
  WInv (i + 1) {| g_bufs := bufs; g_tcp := t; g_udp := u; g_toWrite := g_toWrite g |}.
Proof.
  intros [A B C] Hi H. split; cbn; [done| |by intros j Hj%H%C]. eapply Forall_impl; [exact B|]. intros j. cbn. lia.
Qed.

Lemma WInv_write i g bufs t u : WInv i g -> 0 <= i -> (forall j, uAny u j -> uAny (g_udp g) j \/ j = i) ->
  WInv (i + 1) {| g_bufs := bufs; g_tcp := t; g_udp := u; g_toWrite := g_toWrite g ++ [i] |}.
Proof.
  intros [A B C] Hi H. split; cbn; [by apply StronglySorted_snoc| |].
  - apply Forall_app. split; [eapply Forall_impl; [exact B|]; intros j; cbn; lia|]. apply Forall_singleton. lia.
  - intros j Hj. apply elem_of_app. destruct (H j Hj) as [Hu | ->]; [left; by apply C|right; by left].
Qed.

Lemma groPacket_written be offset can i g g' : groPacket be offset can i g = Some (Ok g') -> 0 <= i < 65536 -> WInv i g -> WInv (i + 1) g'.
Proof.
  intros H Hi Hw. unfold groPacket in H. apply bind_Some in H as (b & _ & H). destruct (_ || _); [done|]. apply bind_Some in H as (pkt & _ & H).
  apply bind_Some in H as ([[[r t] u] bufs] & Hv & H).
  assert (forall j, uAny u j -> uAny (g_udp g) j \/ (j = i /\ r = groResultTableInsert)) as Hany.
  { intros j Hj. destruct (packetIsGROCandidate pkt can); cycle 1.
    1, 2: apply bind_Some in Hv as ([[? ?] ?] & _ & [= <- <- <- <-]); by left.
    3: injection Hv as <- <- <- <-; by left.
    all: apply bind_Some in Hv as ([[? ?] ?] & Hu & [= <- <- <- <-]); apply (udpGRO_any _ _ _ _ _ _ _ _ _ _ Hu) in Hj as [Hj|[-> Hr]];
      [by left|right; split; [apply u16_small; width_lia|done]]. }
  destruct r.
  - apply bind_Some in H as (b1 & _ & H). apply bind_Some in H as ([d|e] & _ & H); [|done]. apply bind_Some in H as (bufs1 & _ & [= <-]).
    apply WInv_write; [done|lia|]. intros j Hj. destruct (Hany j Hj) as [|[_ ?]]; [by left|done].
  - injection H as <-. apply WInv_write; [done|lia|]. intros j Hj. destruct (Hany j Hj) as [|[? _]]; [by left|by right].
  - injection H as <-. apply WInv_step; [done|lia|]. intros j Hj. by destruct (Hany j Hj) as [|[_ ?]].
Qed.

Lemma groLoop_written be offset can n : forall i g g', groLoop be offset can n i g = Some (Ok g') -> 0 <= i -> i + Z.of_nat n <= 65536 -> WInv i g -> WInv (i + Z.of_nat n) g'.
Proof.
  induction n as [|n IH]; intros i g g' H H0 Hn Hw; cbn [groLoop] in H; [injection H as <-; by replace (i + Z.of_nat 0) with i by lia|].
  apply bind_Some in H as ([g1|e] & Hp & H); [|done]. apply groPacket_written in Hp; [|lia|done].
  replace (i + Z.of_nat (S n)) with (i + 1 + Z.of_nat n) by lia. apply (IH _ _ _ H); [lia|lia|done].
Qed.

(** Tables between two batches. *)
Definition freshTables (d : NativeTun) : Prop :=
  t_itemsByFlow (tcpTable d) = ∅ /\ u_itemsByFlow (udpTable d) = ∅ /\
  (IdealBatchSize <= t_itemsPool (tcpTable d))%nat /\ (IdealBatchSize <= u_itemsPool (udpTable d))%nat.

(** The index of every packet that is written has a buffer with room for the virtio header. *)
Lemma packets_read offset bufs idx : virtioNetHdrLen <= offset -> Forall (bufOk offset) bufs -> Forall (fun j => 0 <= j < len bufs) idx ->
  exists ps, mapM (packetAt bufs (offset - virtioNetHdrLen)) idx = Some ps /\ length ps = length idx.
Proof.
  intros Hoff Hf Hidx. assert (is_Some (mapM (packetAt bufs (offset - virtioNetHdrLen)) idx)) as [ps Hps].
  { apply mapM_is_Some. eapply Forall_impl; [exact Hidx|]. intros j Hj. cbn in Hj. destruct (at_total bufs j Hj) as (b & Hb).
    pose proof (bufOk_at _ _ _ _ Hf Hb) as Hbo. unfold bufOk in Hbo. unfold compose, packetAt. rewrite Hb. cbn [mbind option_bind]. unfold tailOf, virtioNetHdrLen in *.
    rewrite slice_suffix by lia. by eexists. }
  exists ps. split; [done|]. apply length_mapM in Hps. lia.
Qed.


(** The two datagrams of GroSpec in one write, and a file that answers with the length. *)
Definition sampleTun : NativeTun := with_flags 128 true true (newTun 3 false).

(** One write of 44 bytes: the virtio header and the merged packet. *)
Example sample_write :
  match Write false (fun _ p => Ok (len p)) (fun m => (map_to_list m).*2) (fun m => (map_to_list m).*2) sampleBatch 16 sampleTun with
  | Some (_, _, (log, total, err)) => Some (len <$> log, total, err)
  | None => None
  end = Some ([44], 44, None).
Proof. by vm_compute. Qed.

(** Without offloads the packets of the batch are written as they are. *)
Lemma write_plain be reply tcpVisit udpVisit bufs offset d ps : vnetHdr d = false ->
  mapM (fun b => tailOf b offset) bufs = Some ps ->
  exists d', Write be reply tcpVisit udpVisit bufs offset d = Some (d', bufs, writeReport ps (answersFrom reply 0 ps)).
Proof.
  intros Hv Hps. unfold Write. rewrite Hv. rewrite (writeLoop_report reply bufs offset _ ps); [by eexists|].
  apply mapM_Some. apply mapM_Some in Hps. apply Forall2_fmap_l, Forall2_same_length_lookup. split; [by rewrite length_seq; eapply Forall2_length|].
  intros i x p Hx Hp. apply lookup_seq in Hx as [-> Hi]. rewrite Nat.add_0_l. destruct (bufs !! i) as [b|] eqn:Hb; [|apply lookup_ge_None in Hb; lia].
  unfold compose, packetAt. rewrite ?Nat.add_0_l. rewrite (at_Some bufs (Z.of_nat i) b) by (rewrite ?Nat2Z.id; done || lia). cbn. exact (Forall2_lookup_lr _ _ _ _ _ _ Hps Hb Hp).
Qed.

(** ** The events of the routing socket *)

Record nlMessage : Type := { nm_type : Z; nm_flags : Z; nm_seq : Z; nm_pid : Z; nm_body : list Z }.
Definition headerOf (m : nlMessage) : NlMsghdr :=
  {| nl_Len := SizeofNlMsghdr + len (nm_body m); nl_Type := nm_type m; nl_Flags := nm_flags m; nl_Seq := nm_seq m; nl_Pid := nm_pid m |}.
Definition msgBytes (be : bool) (m : nlMessage) : list Z := nlBytes be (headerOf m) ++ nm_body m.
Definition readBytes (be : bool) (ms : list nlMessage) : list Z := concat (msgBytes be <$> ms).

(** A message of the kernel: the fields fit, a link message has its fixed part. *)
Definition msg_ok (m : nlMessage) : Prop := hdr_ok (headerOf m) /\ (nm_type m = RTM_NEWLINK -> 16 <= len (nm_body m)).

(** Whether the interface runs, for each message about it that comes before the end mark. *)
Fixpoint linkStatuses (be : bool) (index : Z) (ms : list nlMessage) : list bool :=
  match ms with
  | [] => []
  | m :: ms =>
      let info := readIfInfomsg be (nm_body m) in
      if nm_type m =? NLMSG_DONE then []
      else if (nm_type m =? RTM_NEWLINK) && (if_Index info =? index) then negb (Z.land (if_Flags info) IFF_RUNNING =? 0) :: linkStatuses be index ms
      else linkStatuses be index ms
  end.

(** What one read reports: up whenever the interface runs, down only behind an up. *)
Fixpoint statusEvents (everUp : bool) (st : list bool) : list Event :=
  match st with
  | [] => []
  | true :: st => EventUp :: EventMTUUpdate :: statusEvents true st
  | false :: st => (if everUp then [EventDown] else []) ++ EventMTUUpdate :: statusEvents everUp st
  end.

Section Netlink.
Context (be : bool) (index : Z).

Lemma len_msgBytes m : len (msgBytes be m) = SizeofNlMsghdr + len (nm_body m).
Proof. unfold msgBytes. rewrite len_app. unfold len at 1. by rewrite length_nlBytes. Qed.

Lemma drop_msgBytes m rest : drop (Z.to_nat SizeofNlMsghdr) (msgBytes be m ++ rest) = nm_body m ++ rest.
Proof. unfold msgBytes. rewrite <- app_assoc. apply drop_app_length'. by rewrite length_nlBytes. Qed.

Lemma field_app (b rest : list Z) off n : (off + n <= length b)%nat -> field be (b ++ rest) off n = field be b off n.
Proof. intros H. unfold field. rewrite drop_app_le by lia. by rewrite take_app_le by (rewrite length_drop; lia). Qed.

Lemma readIfInfomsg_app b rest : 16 <= len b -> readIfInfomsg be (b ++ rest) = readIfInfomsg be b.
Proof. intros H. unfold len in H. unfold readIfInfomsg. by rewrite !field_app by lia. Qed.

Lemma linkEvents_spec info everUp : linkEvents index info everUp =
  if if_Index info =? index then
    let running := negb (Z.land (if_Flags info) IFF_RUNNING =? 0) in
    (statusEvents everUp [running], running || everUp)
  else ([], everUp).
Proof. unfold linkEvents. destruct (_ =? index); [|done]. cbn. by destruct (Z.land _ _ =? 0), everUp. Qed.

Lemma statusEvents_cons everUp r st : statusEvents everUp (r :: st) = statusEvents everUp [r] ++ statusEvents (r || everUp) st.
Proof. by destruct r, everUp. Qed.

Lemma len_readBytes_cons m ms : len (readBytes be (m :: ms)) = SizeofNlMsghdr + len (nm_body m) + len (readBytes be ms).
Proof. unfold readBytes. cbn. by rewrite len_app, len_msgBytes. Qed.

Lemma messages_bytes ms : (length ms <= length (readBytes be ms))%nat.
Proof.
  induction ms as [|m ms IH]; [done|]. pose proof (len_readBytes_cons m ms). pose proof (len_nonneg (nm_body m)). unfold len, SizeofNlMsghdr in *. cbn [length]. lia.
Qed.

Lemma netlinkLoop_spec ms : forall fuel junk everUp events, Forall msg_ok ms -> (S (length ms) < fuel)%nat ->
  netlinkLoop be fuel index (readBytes be ms ++ junk) (len (readBytes be ms)) everUp events =
  Done (events ++ statusEvents everUp (linkStatuses be index ms)).
Proof.
  induction ms as [|m ms IH]; intros fuel junk everUp events Hok Hfuel; (destruct fuel as [|fuel]; [lia|]); cbn [netlinkLoop]; [by rewrite app_nil_r|].
  apply Forall_cons in Hok as [[Hh Hlink] Hok]. pose proof (len_nonneg (nm_body m)). pose proof (len_nonneg (readBytes be ms)).
  assert (readBytes be (m :: ms) ++ junk = msgBytes be m ++ readBytes be ms ++ junk) as -> by (unfold readBytes; cbn; by rewrite <- app_assoc).
  rewrite len_readBytes_cons. assert (readNlMsghdr be (msgBytes be m ++ readBytes be ms ++ junk) = headerOf m) as ->
    by (unfold msgBytes; rewrite <- app_assoc; by apply readNlMsghdr_nlBytes).
  cbn [headerOf nl_Len nl_Type]. unfold SizeofNlMsghdr at 1 2 3. rewrite (proj2 (Z.ltb_ge _ _)), Z.gtb_ltb, (proj2 (Z.ltb_ge _ _)) by (unfold SizeofNlMsghdr; lia).
  assert (drop (Z.to_nat (SizeofNlMsghdr + len (nm_body m))) (msgBytes be m ++ readBytes be ms ++ junk) = readBytes be ms ++ junk) as ->
    by (apply drop_app_length'; pose proof (len_msgBytes m); unfold len in *; lia).
  replace (SizeofNlMsghdr + len (nm_body m) + len (readBytes be ms) - (SizeofNlMsghdr + len (nm_body m))) with (len (readBytes be ms)) by lia.
  cbn [linkStatuses]. destruct (nm_type m =? NLMSG_DONE); [destruct fuel; [lia|]; by rewrite app_nil_r|].
  destruct (Z.eqb_spec (nm_type m) RTM_NEWLINK) as [Ht|]; cbn [andb]; [|apply IH; [done|cbn in Hfuel; lia]].
  specialize (Hlink Ht). rewrite (proj2 (Z.leb_gt _ _)) by lia. rewrite drop_msgBytes, readIfInfomsg_app, linkEvents_spec by done.
  destruct (_ =? index); cbv zeta iota beta; rewrite IH by (done || cbn in Hfuel; lia); [|by rewrite app_nil_r].
  by rewrite (statusEvents_cons everUp _ (linkStatuses be index ms)), app_assoc.
Qed.
End Netlink.

(** What Recvmsg returns for a batch of messages, with whatever is behind them in memory. *)
Definition delivered (be : bool) (r : list nlMessage * list Z) : received := Received (readBytes be r.1 ++ r.2) (len (readBytes be r.1)) false.

(** For whatever messages the kernel sends, the routine reports what each read holds:
    up, and an update of the MTU, for every message that says that the interface runs; an
    update of the MTU, and down if the same read has already reported up, for one that says
    that it does not. Messages about other interfaces and those behind an end mark are
    passed over; nothing is carried over from one read to the next. *)
Theorem netlink_events (be : bool) (index : Z) (reads : list (list nlMessage * list Z)) :
  Forall (fun r => Forall msg_ok r.1) reads ->
  routineNetlinkListener be index (delivered be <$> reads) [] =
  Waiting (concat ((fun r => statusEvents false (linkStatuses be index r.1)) <$> reads)).
Proof.
  intros Hok. rewrite <- (app_nil_l (concat _)). generalize ([] : list Event). induction Hok as [|[ms junk] reads Hms _ IH]; intros events; [by rewrite app_nil_r|].
  rewrite !fmap_cons. cbn [concat]. unfold delivered at 1. cbn [fst snd routineNetlinkListener]. cbv iota.
  rewrite netlinkLoop_spec by (done || pose proof (messages_bytes be ms); unfold netlinkFuel, len; lia). by rewrite app_nil_l, IH, app_assoc.
Qed.

(** The interface 7 goes up in one read and down in the next: down is not reported. In a
    single read it is. *)
Definition sampleLink (idx flags : Z) : nlMessage :=
  {| nm_type := RTM_NEWLINK; nm_flags := 0; nm_seq := 0; nm_pid := 0;
     nm_body := [0; 0; 0; 0] ++ native false 4 idx ++ native false 4 flags ++ [0; 0; 0; 0] |}.
Lemma netlink_events_witness :
  routineNetlinkListener false 7 (delivered false <$> [([sampleLink 7 64; sampleLink 5 64], [0]); ([sampleLink 7 0], [0]); ([sampleLink 7 65; sampleLink 7 1], [])]) [] =
  Waiting [EventUp; EventMTUUpdate; EventMTUUpdate; EventUp; EventMTUUpdate; EventDown; EventMTUUpdate].
Proof.
  rewrite netlink_events; [reflexivity|]. repeat first [apply Forall_nil_2|apply Forall_cons_2]; repeat split; by vm_compute.
Defined.

(** A read that holds one message never reports down, whatever was reported before. *)
Lemma alone_never_down be index m : EventDown ∉ statusEvents false (linkStatuses be index [m]).
Proof. cbn. destruct (_ =? NLMSG_DONE); [apply not_elem_of_nil|]. destruct (_ && _); [|apply not_elem_of_nil]. destruct (negb _); cbn; by rewrite !elem_of_cons, elem_of_nil; intuition. Qed.

(** A link message of which only the header was read: the index of its first byte is out of
    range. *)
Lemma bare_link_panics be index mem script events : readNlMsghdr be mem = {| nl_Len := 16; nl_Type := RTM_NEWLINK; nl_Flags := 0; nl_Seq := 0; nl_Pid := 0 |} ->
  routineNetlinkListener be index (Received mem 16 false :: script) events = Crashed events.
Proof. intros H. cbn [routineNetlinkListener]. unfold netlinkFuel. generalize (S (Z.to_nat 16)). intros fuel. cbn [netlinkLoop]. rewrite H. reflexivity. Qed.

(** A header that says length 0 is looked at again and again. *)
Lemma zero_link_spins be index fuel mem n everUp events : SizeofNlMsghdr <= n -> nl_Len (readNlMsghdr be mem) = 0 ->
  nl_Type (readNlMsghdr be mem) <> NLMSG_DONE -> nl_Type (readNlMsghdr be mem) <> RTM_NEWLINK ->
  netlinkLoop be fuel index mem n everUp events = OutOfFuel.
Proof.
  intros Hn H0 Hd Hl. induction fuel as [|fuel IH]; [done|]. cbn [netlinkLoop]. rewrite H0. cbn [Z.to_nat drop]. rewrite (proj2 (Z.ltb_ge _ _)) by done.
  unfold SizeofNlMsghdr in Hn. rewrite Z.gtb_ltb, (proj2 (Z.ltb_ge _ _)), (proj2 (Z.eqb_neq _ _) Hd), (proj2 (Z.eqb_neq _ _) Hl), Z.sub_0_r by lia. apply IH.
Qed.

(** ** The events of the probes *)

Definition probeOf (up : bool) : probe := Probed (Some (if up then EINVAL else EIO)) false.
Definition statusEvent (up : bool) : Event := if up then EventUp else EventDown.

(** The elements that differ from the one in front of them. *)
Fixpoint changes {A} `{EqDecision A} (last : option A) (l : list A) : list A :=
  match l with [] => [] | x :: l => if decide (last = Some x) then changes last l else x :: changes (Some x) l end.

Definition lastOf (last : lastStatus) : option bool := match last with lastNone => None | lastUp => Some true | lastDown => Some false end.

(** The routine reports the status it finds first and then every change of it. *)
Lemma hack_changes ups : forall last events,
  routineHackListener (probeOf <$> ups) last events = (events ++ (statusEvent <$> changes (lastOf last) ups), false).
Proof.
  induction ups as [|up ups IH]; intros last events; [cbn; by rewrite app_nil_r|]. rewrite fmap_cons. cbn [changes].
  destruct up, last; cbn [probeOf routineHackListener lastOf]; cbn -[changes routineHackListener]; rewrite IH; cbn [lastOf];
    repeat case_decide; try congruence; by rewrite ?fmap_cons, <- ?app_assoc.
Qed.

(** Any other answer, and the shutdown, end it. *)
Lemma hack_ends err probes last events : (forall e, err = Some e -> e <> EINVAL /\ e <> EIO) ->
  routineHackListener (Probed err false :: probes) last events = (events, true).
Proof. intros H. cbn. destruct err as [e|]; [|done]. destruct (H e eq_refl) as [H1 H2]. by rewrite (proj2 (Z.eqb_neq _ _) H1), (proj2 (Z.eqb_neq _ _) H2). Qed.

(** ** Descriptors *)

(** The sockets that are used for one request get numbers that are not in use. *)
Definition freshSockets (e : env) : Prop :=
  forall nfd, e_open e = Ok nfd ->
    (forall s, e_idxsocket e = Ok s -> s <> nfd) /\
    (forall s, e_mtusocket e = Ok s -> s <> nfd /\ (forall k, e_nlsocket e = Ok k -> s <> k) /\ forall p, e_pipe e = Ok p -> s <> p.1 /\ s <> p.2).

Lemma land_bit (x n : Z) : 0 <= n -> (Z.land x (2 ^ n) =? 0) = negb (Z.testbit x n).
Proof.
  intros Hn. assert (Z.land x (2 ^ n) = if Z.testbit x n then 2 ^ n else 0) as ->.
  - apply Z.bits_inj'. intros m Hm. rewrite Z.land_spec, Z.pow2_bits_eqb by done.
    destruct (Z.eqb_spec n m) as [-> |Hne]; rewrite ?andb_true_r, ?andb_false_r.
    + destruct (Z.testbit x m); [by rewrite Z.pow2_bits_true|by rewrite Z.bits_0].
    + destruct (Z.testbit x n); [by rewrite Z.pow2_bits_false by lia|by rewrite Z.bits_0].
  - destruct (Z.testbit x n); [|done]. apply Z.eqb_neq. pose proof (Z.pow_pos_nonneg 2 n). lia.
Qed.

Lemma initFromFlags_ok e d tr d' : initFromFlags e d = (tr, Ok d') -> vnetHdr d = false -> tr = [] /\ exists got, e_getiff e = Ok got /\
  exists udp, d' = with_flags (if Z.testbit got 14 then 128 else 1) (Z.testbit got 14) udp d.
Proof.
  unfold initFromFlags. intros H Hv. minv H. rename select (e_getiff e = Ok _) into Hg. match goal with Hx : context [IFF_VNET_HDR] |- _ => rename Hx into Hif end.
  change IFF_VNET_HDR with (2 ^ 14) in Hif. rewrite land_bit, negb_involutive in Hif by done. destruct (Z.testbit _ 14) eqn:Ht; minv Hif; subst;
    (split; [done|]); eexists; (split; [exact Hg|]); rewrite Ht; eexists; [done|]. by rewrite Hv.
Qed.

Lemma createFromFile_ok e file tr d : CreateTUNFromFile e file = (tr, Ok d) ->
  exists s1 idx sock p s2 got name udp, e_idxsocket e = Ok s1 /\ e_nlsocket e = Ok sock /\ e_pipe e = Ok p /\ e_mtusocket e = Ok s2 /\ e_getiff e = Ok got /\
    tr = [Opened s1; Closed s1; Opened sock; Opened p.1; Opened p.2; StartedNetlink; StartedHack; Opened s2; Closed s2] /\
    d = with_netlink idx sock (Some p) (with_flags (if Z.testbit got 14 then 128 else 1) (Z.testbit got 14) udp (with_name name (newTun file true))).
Proof.
  unfold CreateTUNFromFile. cbn [Name nameCache newTun]. set (d0 := with_name _ _). intros H. minv H.
  match goal with Hx : initFromFlags _ _ = _ |- _ => apply initFromFlags_ok in Hx as (-> & got & Hgot & udp & ->); [|done] end.
  unfold getIFIndex, createNetlinkSocket, NewRWCancel, setMTU in *.
  repeat match goal with Hx : _ = (_, Ok _) |- _ => progress minv Hx end. subst.
  eexists _, _, _, _, _, _, _, _. split_and!; [eassumption..|reflexivity|reflexivity].
Qed.

(** When CreateTUN succeeds, the descriptors that are open are the device, the routing
    socket and the pipe that cancels its reads; both routines run; the tables are empty; and
    batches are 128 packets with offloads and 1 without. *)
Theorem create_tun (e : env) (tr : list sysEvent) (d : NativeTun) : freshSockets e -> CreateTUN e = (tr, Ok d) ->
  exists nfd sock p1 p2 got, e_open e = Ok nfd /\ e_nlsocket e = Ok sock /\ e_pipe e = Ok (p1, p2) /\ e_getiff e = Ok got /\
    tunFile d = nfd /\ netlinkSock d = sock /\ netlinkCancel d = Some (p1, p2) /\
    openFds tr = [nfd; sock; p1; p2] /\ StartedNetlink ∈ tr /\ StartedHack ∈ tr /\
    freshTables d /\ vnetHdr d = Z.testbit got 14 /\ BatchSize d = if vnetHdr d then 128 else 1.
Proof.
  intros Hf H. unfold CreateTUN in H. minv H. rename select (e_open e = Ok _) into Ho.
  match goal with Hx : CreateTUNFromFile _ _ = _ |- _ => apply createFromFile_ok in Hx as (s1 & idx & sock & [p1 p2] & s2 & got & name & udp & E1 & E2 & E3 & E4 & E5 & -> & ->) end.
  destruct (Hf _ Ho) as [F1 F2]. specialize (F1 _ E1). destruct (F2 _ E4) as (F3 & F4 & F5). specialize (F4 _ E2). specialize (F5 _ E3). cbn in F5.
  lazymatch type of Ho with _ = Ok ?fd => rename fd into nfd end. exists nfd, sock, p1, p2, got. split_and!; try done; try (by destruct (Z.testbit got 14)); try apply Nat.le_refl;
    [|by apply (list_elem_of_lookup_2 _ 6)|by apply (list_elem_of_lookup_2 _ 7)].
  unfold openFds. cbn [app foldl fst snd]. rewrite (close_again [nfd]) by set_solver. cbn [app]. by rewrite (close_again [nfd; sock; p1; p2]) by set_solver.
Qed.

(** A system that grants everything. *)
Definition sampleEnv : env :=
  {| e_open := Ok 3; e_ifreqName := None; e_setiff := None; e_nonblock := None; e_nameConn := None; e_nameControl := None; e_nameGetiff := Ok [119; 103; 48; 0; 0];
     e_conn := None; e_control := None; e_ifreq := None; e_getiff := Ok 20481; e_offload := fun _ => None; e_idxsocket := Ok 4; e_ifindex := Ok 7;
     e_nlsocket := Ok 4; e_nlbind := None; e_nlnonblock := None; e_pipe := Ok (5, 6); e_mtusocket := Ok 7; e_setmtu := None; e_getmtu := Ok 1420 |}.
Lemma sampleEnv_fresh : freshSockets sampleEnv.
Proof. intros ? [= <-]. split; [intros ? [= <-]; lia|]. intros ? [= <-]. split; [lia|]. split; [intros ? [= <-]; lia|]. intros ? [= <-]. cbn. lia. Qed.
Lemma create_tun_witness : exists tr d, CreateTUN sampleEnv = (tr, Ok d) /\ openFds tr = [3; 4; 5; 6] /\ BatchSize d = 128.
Proof.
  eexists _, _. split; [reflexivity|].
  destruct (create_tun sampleEnv _ _ sampleEnv_fresh eq_refl)
    as (nfd & sock & p1 & p2 & got & [= <-] & [= <-] & [= <- <-] & _ & _ & _ & _ & Hfds & _). split; [exact Hfds|reflexivity].
Defined.

(** What a failure leaves behind. The descriptor of the device stays open when the name or
    the request is refused, that of the routing socket when it cannot be bound; when the MTU
    cannot be set the routing socket is closed under the routines, which keep running. *)
Lemma refused_name_leaks e nfd x : e_open e = Ok nfd -> e_ifreqName e = Some x \/ (e_ifreqName e = None /\ e_setiff e = Some x) ->
  CreateTUN e = ([Opened nfd], Err x).
Proof. intros Ho H. unfold CreateTUN. rewrite Ho. destruct H as [-> | [-> ->]]; done. Qed.
Lemma unbound_socket_leaks e sock x : e_nlsocket e = Ok sock -> e_nlbind e = Some x -> createNetlinkSocket e = ([Opened sock], Err x).
Proof. intros Hs Hb. unfold createNetlinkSocket. by rewrite Hs, Hb. Qed.
Example refused_mtu :
  CreateTUN {| e_open := Ok 3; e_ifreqName := None; e_setiff := None; e_nonblock := None; e_nameConn := None; e_nameControl := None; e_nameGetiff := Ok [119; 103; 48; 0];
     e_conn := None; e_control := None; e_ifreq := None; e_getiff := Ok 20481; e_offload := fun _ => None; e_idxsocket := Ok 4; e_ifindex := Ok 7;
     e_nlsocket := Ok 4; e_nlbind := None; e_nlnonblock := None; e_pipe := Ok (5, 6); e_mtusocket := Ok 7; e_setmtu := Some EINVAL; e_getmtu := Ok 0 |} =
  ([Opened 3; Opened 4; Closed 4; Opened 4; Opened 5; Opened 6; StartedNetlink; StartedHack; Opened 7; Closed 7; Closed 4], Err EINVAL).
Proof. reflexivity. Qed.

(** ** Close *)

(** Closing again does nothing; the channel of events of a device without routines is closed
    by Close, that of a device with routines is left to them, and their reads are
    cancelled. *)
Lemma close_once c f d d' out : Close c f d = Some (d', out) -> forall c' f', Close c' f' d' = Some (d', ([], false, None)).
Proof.
  unfold Close. intros H c' f'. destruct (closeOnce d) eqn:E; [injection H as <- <-; by rewrite E|].
  destruct (statusListenersShutdown d) as [[|]|], (eventsClosed d) as [[|]|]; try done; by injection H as <- <-.
Qed.

Lemma close_device c f d : closeOnce d = false -> statusListenersShutdown d <> Some true -> (statusListenersShutdown d = None -> eventsClosed d = Some false) ->
  exists d' cancelled err, Close c f d = Some (d', ([Closed (tunFile d)], cancelled, err)) /\
    cancelled = bool_decide (is_Some (statusListenersShutdown d) /\ is_Some (netlinkCancel d)) /\
    statusListenersShutdown d' = (const true <$> statusListenersShutdown d) /\
    eventsClosed d' = (match statusListenersShutdown d with None => Some true | Some _ => eventsClosed d end) /\
    err = (match (if cancelled then c else None) with Some e => Some e | None => f end).
Proof.
  intros Ho Hs He. unfold Close. rewrite Ho. destruct (statusListenersShutdown d) as [[|]|]; [done| |].
  - cbn [mbind option_bind]. eexists _, _, _. split; [reflexivity|]. split_and!; [|done..]. destruct (netlinkCancel d); [by rewrite bool_decide_true by eauto|].
    rewrite bool_decide_false; [done|]. by intros [_ []].
  - rewrite He by done. cbn [mbind option_bind]. eexists _, _, _. split; [reflexivity|]. split_and!; [|done..]. rewrite bool_decide_false; [done|]. by intros [[] _].
Qed.

(** ** Read *)

(** An error of the routines is reported before anything is read, once. *)
Lemma read_pending be file bufs sizes offset d err rest : errors d = err :: rest ->
  Read be file bufs sizes offset d = Some (with_errors rest d, bufs, sizes, (0, Some err)).
Proof. intros H. unfold Read. by rewrite H. Qed.

(** Without offloads a read is one packet, stored behind [offset] of the first buffer. *)
Lemma read_plain be file b0 bufs size sizes offset d data : errors d = [] -> vnetHdr d = false -> 0 <= offset <= len b0 ->
  file (len b0 - offset) = Ok data -> len data <= len b0 - offset ->
  exists b, Read be file (b0 :: bufs) (size :: sizes) offset d = Some (d, b :: bufs, len data :: sizes, (1, None)) /\
    slice b offset (offset + len data) = Some data /\ take (Z.to_nat offset) b = take (Z.to_nat offset) b0.
Proof.
  intros He Hv Ho Hf Hl. unfold Read. rewrite He. change (at_ (b0 :: bufs) 0) with (Some b0). cbn [mbind option_bind]. rewrite slice_suffix by lia. cbn [mbind option_bind].
  rewrite Hv. replace (len (drop (Z.to_nat offset) b0)) with (len b0 - offset) by (unfold len in *; rewrite length_drop; lia). rewrite Hf.
  unfold copy_at. rewrite decide_True by lia. cbn [mbind option_bind]. unfold set_at. rewrite !decide_True by (unfold len; cbn; lia). cbn.
  eexists. split; [reflexivity|]. assert (length (list_inserts (Z.to_nat offset) data b0) = length b0) as Hlen by apply length_inserts. split.
  - rewrite slice_Some by (unfold len in *; lia). f_equal. apply list_eq. intros i. rewrite lookup_take, lookup_drop. case_decide as Hi.
    + rewrite list_lookup_inserts by (unfold len in *; lia). f_equal. lia.
    + symmetry. apply lookup_ge_None. unfold len in *. lia.
  - apply list_eq. intros i. rewrite !lookup_take. case_decide; [|done]. by rewrite list_lookup_inserts_lt by lia.
Qed.

(** A file that is gone ends the reader with ErrClosed. *)
Lemma read_closed be file b0 bufs sizes offset d : errors d = [] -> 0 <= offset <= len b0 -> (forall n, file n = Err EBADFD) ->
  Read be file (b0 :: bufs) sizes offset d = Some (d, b0 :: bufs, sizes, (0, Some ErrClosed)).
Proof. intros He Ho Hf. unfold Read. rewrite He. change (at_ (b0 :: bufs) 0) with (Some b0). cbn [mbind option_bind]. rewrite slice_suffix by lia. cbn [mbind option_bind]. by rewrite Hf. Qed.
