(* ===== verification/RouteLife.v ===== *)
(** * RouteLife: the life of the route listener (src/device/sticky_linux.go, src/rwcancel/rwcancel.go)

    startRouteListener opens a routing socket and a pipe and starts the routine that reads
    the socket (RouteListener has what it does with a message); a change of a route starts
    a goroutine that asks for the routes of the peers on the same socket. Cancel writes into
    the pipe, and the routine, when it would wait, sees it, leaves and closes what was
    opened. The routine, the goroutines and the callers of Cancel interleave in a step
    relation; what the kernel answers are the labels. *)
From S2P Require Import Prelude Threads GoLib NetIP DeviceState Bind RouteListener SysTrace TunLinux.
Import TunLinux.RWCancel.
#[local] Open Scope Z_scope.

(** ** Starting it *)

Record routeEnv : Type := {
  re_sticky : bool;                 (* StdNetSupportsStickySockets *)
  re_std : bool;                    (* the bind is a *StdNetBind *)
  re_socket : result Z Z;
  re_bind : option Z;
  re_nonblock : option Z;
  re_pipe : result (Z * Z) Z
}.

Section Start.
#[local] Open Scope sys_scope.
Definition createNetlinkRouteSocket (e : routeEnv) : M Z :=
  let! sock := open_ (re_socket e) in
  do! orClose sock (check (re_bind e)) in
  ret sock.
(** The socket and the pipe the routine is started with. *)
Definition startRouteListener (e : routeEnv) : M (option (Z * (Z * Z))) :=
  if negb (re_sticky e) then ret None
  else if negb (re_std e) then ret None
  else
    let! netlinkSock := createNetlinkRouteSocket e in
    let! netlinkCancel := orClose netlinkSock (NewRWCancel (re_nonblock e) (re_pipe e)) in
    do! trace StartedNetlink in
    ret (Some (netlinkSock, netlinkCancel)).
End Start.

(** ** Cancelling *)

(** The pipe: what is in it, and which ends are open. *)
Record RWCancel : Type := { closing : list Z; readerOpen : bool; writerOpen : bool }.
Definition newPipe : RWCancel := {| closing := []; readerOpen := true; writerOpen := true |}.
Definition POLLIN : Z := 1.
(** [write] is what the write into an open pipe answers. *)
Definition Cancel (write : option Z) (rw : RWCancel) : RWCancel * option tunError :=
  if negb (writerOpen rw) then (rw, Some ErrClosed)
  else match write with
       | Some e => (rw, Some (Errno e))
       | None => ({| closing := closing rw ++ [0]; readerOpen := readerOpen rw; writerOpen := writerOpen rw |}, None)
       end.
Definition Close (rw : RWCancel) : RWCancel := {| closing := closing rw; readerOpen := false; writerOpen := false |}.
(** What poll reports for the pipe; the descriptor of a closed file is -1, which poll
    ignores. *)
Definition closingEvents (rw : RWCancel) : Z := if readerOpen rw then (if bool_decide (closing rw = []) then 0 else POLLIN) else 0.
(** One call of poll in ReadyRead or ReadyWrite: the error or the events of the descriptor.
    Poll has no timeout, so it returns only when there is an event. [None]: it does not
    return yet; [Some None]: it is called again. *)
Definition pollOnce (rw : RWCancel) (answer : result Z Z) : option (option bool) :=
  match answer with
  | Err e => Some (fst <$> Ready [Err e])
  | Ok revents => if (revents =? 0) && (closingEvents rw =? 0) then None else Some (fst <$> Ready [Ok (revents, closingEvents rw)])
  end.

(** ** The routine and its goroutines *)

Module Life.
Inductive pc : Type :=
| Receiving | Polling
| ClosingSock | ClosingCancel   (* the deferred calls *)
| Gone
| Stuck.                        (* the loop over the messages does not end *)
(** A goroutine that asks. *)
Inductive asker : Type :=
| Starting
| Asking (i : Z) (peers : list nat)
| Writing (i : Z) (peers : list nat) (msg : list Z)
| WritePolling (i : Z) (peers : list nat) (msg : list Z)
| Finished.

Record state : Type := {
  routine : pc;
  askers : list asker;
  table : routes;
  cancel : RWCancel;
  sockOpen : bool;
  sent : list (list Z);       (* written to the socket *)
  strays : list (list Z);     (* written to its number after it was closed *)
  crashed : bool
}.
Definition start (r : routes) : state := {| routine := Receiving; askers := []; table := r; cancel := newPipe; sockOpen := true; sent := []; strays := []; crashed := false |}.

Definition goto (p : pc) (s : state) : state :=
  {| routine := p; askers := askers s; table := table s; cancel := cancel s; sockOpen := sockOpen s; sent := sent s; strays := strays s; crashed := crashed s |}.
Definition set_askers (l : list asker) (s : state) : state :=
  {| routine := routine s; askers := l; table := table s; cancel := cancel s; sockOpen := sockOpen s; sent := sent s; strays := strays s; crashed := crashed s |}.
Definition set_table (r : routes) (s : state) : state :=
  {| routine := routine s; askers := askers s; table := r; cancel := cancel s; sockOpen := sockOpen s; sent := sent s; strays := strays s; crashed := crashed s |}.
Definition set_cancel (rw : RWCancel) (s : state) : state :=
  {| routine := routine s; askers := askers s; table := table s; cancel := rw; sockOpen := sockOpen s; sent := sent s; strays := strays s; crashed := crashed s |}.
Definition closeSock (s : state) : state :=
  {| routine := routine s; askers := askers s; table := table s; cancel := cancel s; sockOpen := false; sent := sent s; strays := strays s; crashed := crashed s |}.
Definition crash (s : state) : state :=
  {| routine := routine s; askers := askers s; table := table s; cancel := cancel s; sockOpen := sockOpen s; sent := sent s; strays := strays s; crashed := true |}.
(** A write to the number of the socket. *)
Definition writeSock (msg : list Z) (s : state) : state :=
  {| routine := routine s; askers := askers s; table := table s; cancel := cancel s; sockOpen := sockOpen s;
     sent := if sockOpen s then sent s ++ [msg] else sent s; strays := if sockOpen s then strays s else strays s ++ [msg]; crashed := crashed s |}.
Definition setAsker (k : nat) (a : asker) (s : state) : state := set_askers (<[k := a]> (askers s)) s.

Section Steps.
Context (be : bool) (fwmark : Z).

(** Recvmsg, and the messages it returned. *)
Definition recv (answer : result (list Z) Z) (s : state) : option state :=
  match routine s with
  | Receiving =>
      Some match answer with
           | Err e => if RetryAfterError e then goto Polling s else goto ClosingSock s
           | Ok msg =>
               match messageLoop be (S (length msg)) msg 0 (table s) with
               | Done (r, rounds) => set_askers (askers s ++ replicate rounds Starting) (set_table r s)
               | Panic => crash s
               | OutOfFuel => goto Stuck s
               end
           end
  | _ => None
  end.
(** ReadyRead. *)
Definition readyRead (answer : result Z Z) (s : state) : option state :=
  match routine s with
  | Polling => r ← pollOnce (cancel s) answer; Some match r with None => s | Some true => goto Receiving s | Some false => goto ClosingSock s end
  | _ => None
  end.
(** The deferred calls, the last one first. *)
Definition leave (s : state) : option state :=
  match routine s with
  | ClosingSock => Some (goto ClosingCancel (closeSock s))
  | ClosingCancel => Some (goto Gone (set_cancel (Close (cancel s)) s))
  | _ => None
  end.
Definition callCancel (write : option Z) (s : state) : state := set_cancel (fst (Cancel write (cancel s))) s.

(** The goroutine begins with the peers in the order of the map. *)
Definition begin (k : nat) (peers : list nat) (s : state) : option state :=
  match askers s !! k with Some Starting => Some (setAsker k (Asking 1 peers) s) | _ => None end.
Definition ask (k : nat) (s : state) : option state :=
  match askers s !! k with
  | Some (Asking _ []) => Some (setAsker k Finished s)
  | Some (Asking i (p :: peers)) =>
      Some match requestPeer be fwmark i p (table s) with
           | None => crash s
           | Some Leave => setAsker k Finished s
           | Some Skip => setAsker k (Asking i peers) s
           | Some (Ask msg r) => setAsker k (Writing (u32 (i + 1)) peers msg) (set_table r s)
           end
  | _ => None
  end.
(** netlinkCancel.Write: the write, and ReadyWrite when it would block. *)
Definition write (k : nat) (answer : option Z) (s : state) : option state :=
  match askers s !! k with
  | Some (Writing i peers msg) =>
      Some match answer with
           | None => setAsker k (Asking i peers) (writeSock msg s)
           | Some e => if RetryAfterError e then setAsker k (WritePolling i peers msg) s else setAsker k Finished s
           end
  | _ => None
  end.
Definition readyWrite (k : nat) (answer : result Z Z) (s : state) : option state :=
  match askers s !! k with
  | Some (WritePolling i peers msg) =>
      r ← pollOnce (cancel s) answer;
      Some match r with None => s | Some true => setAsker k (Writing i peers msg) s | Some false => setAsker k Finished s end
  | _ => None
  end.

Inductive label : Type :=
| Recv (answer : result (list Z) Z) | ReadyRead (answer : result Z Z) | LeaveStep | CallCancel (answer : option Z)
| Begin (k : nat) (peers : list nat) | AskStep (k : nat) | Write (k : nat) (answer : option Z) | ReadyWrite (k : nat) (answer : result Z Z).
Definition step (l : label) (s : state) : option state :=
  match l with
  | Recv a => recv a s
  | ReadyRead a => readyRead a s
  | LeaveStep => leave s
  | CallCancel a => Some (callCancel a s)
  | Begin k peers => begin k peers s
  | AskStep k => ask k s
  | Write k a => write k a s
  | ReadyWrite k a => readyWrite k a s
  end.
Definition run (ls : list label) (s : state) : option state := foldl (fun o l => s ← o; step l s) (Some s) ls.
(** Messages are bytes; the peers of the map have endpoints. *)
Definition possible (l : label) (s : state) : Prop :=
  match l with
  | Recv (Ok msg) => Forall is_u8 msg
  | Begin _ peers => Forall (fun p => is_Some (rl_endpoints (table s) !! p)) peers
  | _ => True
  end.
Inductive reachable (r : routes) : state -> Prop :=
| reach_start : reachable r (start r)
| reach_step l s s' : reachable r s -> possible l s -> step l s = Some s' -> reachable r s'.
End Steps.
End Life.

(** * Theorems *)

(** ** Starting *)

(** When the listener is started, the socket and the pipe are open; when it is not, nothing
    is. *)
Theorem start_listener_fds e : leaves [] (startRouteListener e) (fun o => match o with Some (sock, p) => [sock; p.1; p.2] | None => [] end) [].
Proof.
  unfold startRouteListener. destruct (re_sticky e), (re_std e); cbn [negb]; try by apply leaves_ret.
  assert (forall sock, after [] [Opened sock; Closed sock] = []) as Hc by (intros sock; apply (close_again []); set_solver).
  unfold createNetlinkRouteSocket, NewRWCancel, leaves. destruct (re_socket e) as [sock|]; cbn; [|done]. destruct (re_bind e); cbn; [apply Hc|].
  destruct (re_nonblock e); cbn; [apply Hc|]. destruct (re_pipe e) as [p|]; cbn; [done|apply Hc].
Qed.

(** ** What the listener keeps of the table *)

(** The addresses of the peers stay, and the map of requests is not dropped. *)
Definition keeps (r r' : routes) : Prop :=
  (forall p, ep_val <$> rl_endpoints r' !! p = ep_val <$> rl_endpoints r !! p) /\ (is_Some (rl_reqPeer r) -> is_Some (rl_reqPeer r')).
#[export] Instance keeps_preorder : PreOrder keeps.
Proof.
  split; [by intros r|]. intros a b c [H1 H2] [H3 H4]. split; [|auto]. intros p. by rewrite H3.
Qed.

Section Keeps.
Context (be : bool).
Lemma checkInterface_keeps seq ifidx r r' stop : checkInterface be seq ifidx r = Some (r', stop) -> keeps r r'.
Proof.
  unfold checkInterface. destruct (rl_reqPeer r) as [m|] eqn:Em; [|by intros [= <- <-]]. destruct (m !! seq) as [pe|]; [|by intros [= <- <-]].
  destruct (rl_endpoints r !! pe_peer pe) as [ep|] eqn:Ep; cbn; [|done]. destruct (negb _); [by intros [= <- <-]|]. destruct (ep_val ep) as [v|] eqn:Ev; cbn; [|done].
  destruct (_ =? ifidx); intros [= <- <-]; [done|]. split; cbn; [|by rewrite Em]. intros p.
  destruct (decide (p = pe_peer pe)) as [->|]; [by rewrite lookup_insert_eq, Ep; cbn; rewrite Ev|by rewrite lookup_insert_ne].
Qed.
Lemma attrLoop_keeps fuel : forall seq attr r r', attrLoop be fuel seq attr r = Some r' -> keeps r r'.
Proof.
  induction fuel as [|fuel IH]; intros seq attr r r'; cbn [attrLoop]; [by intros [= <-]|]. destruct (_ <? _); [by intros [= <-]|]. destruct (_ || _); [by intros [= <-]|].
  lazymatch goal with |- (mbind _ ?n) = _ -> _ => destruct n as [[r1 stop]|] eqn:En; cbn; [|done] end. assert (keeps r r1) as Hk.
  { revert En. destruct (_ && _); [|by intros [= <- <-]]. destruct (slice attr _ _); cbn; [|done]. apply checkInterface_keeps. }
  destruct stop; [by intros [= <-]|]. destruct (slice attr (field be attr 0 2) (len attr)); cbn [mbind option_bind]; [|done]. intros H. etransitivity; [done|by eapply IH].
Qed.
Lemma handleMessage_keeps hdr remain r r' b : handleMessage be hdr remain r = Some (r', b) -> keeps r r' /\ (b = true -> is_Some (rl_reqPeer r')).
Proof.
  unfold handleMessage. destruct (_ || _); [|by intros [= <- <-]]. destruct (_ && _).
  - destruct (_ >? _); [|by intros [= <- <-]]. destruct (slice remain _ _); cbn; [|done]. destruct (attrLoop _ _ _ _ _) as [r1|] eqn:E; cbn; [|done]. intros [= <- <-].
    split; [by eapply attrLoop_keeps|done].
  - intros [= <- <-]. split; [|eauto]. split; cbn; eauto.
Qed.
Lemma messageLoop_keeps fuel : forall remain rounds r r' n, messageLoop be fuel remain rounds r = Done (r', n) -> keeps r r' /\ ((rounds < n)%nat -> is_Some (rl_reqPeer r')).
Proof.
  induction fuel as [|fuel IH]; intros remain rounds r r' n; cbn [messageLoop]; [done|]. destruct (_ <? _); [intros [= <- <-]; split; [done|lia]|].
  destruct (_ >? _); [intros [= <- <-]; split; [done|lia]|]. destruct (handleMessage _ _ _ _) as [[r1 b]|] eqn:E; [|done]. apply handleMessage_keeps in E as [Hk Hb].
  destruct (slice remain _ _); [|done]. intros H. apply IH in H as [Hk' Hn]. split; [by etransitivity|]. intros Hlt. destruct b; [|auto]. apply Hk'. auto.
Qed.
End Keeps.

(** A peer the goroutines can ask about without a panic: it has no endpoint yet, it ends the
    round, or it has a source address for an IPv4 destination. *)
Definition usable (be : bool) (r : routes) (p : nat) : Prop :=
  (exists ep, rl_endpoints r !! p = Some ep /\ ep_val ep = None) \/ ends_round be r p \/ askable be r p.

Lemma val_kept r r' p ep : keeps r r' -> rl_endpoints r !! p = Some ep -> exists ep', rl_endpoints r' !! p = Some ep' /\ ep_val ep' = ep_val ep.
Proof. intros [H _] Hp. specialize (H p). rewrite Hp in H. destruct (rl_endpoints r' !! p) as [ep'|]; [|done]. injection H as H. eauto. Qed.
Lemma usable_kept be r r' p : keeps r r' -> usable be r p -> usable be r' p.
Proof.
  intros Hk [(ep & Hep & Hv)|[(ep & e & Hep & Hv & H)|(ep & e & dst & src & a & Hep & Hv & H)]]; destruct (val_kept _ _ _ _ Hk Hep) as (ep' & Hep' & Hv'); rewrite Hv in Hv';
    [left|right; left|right; right]; unfold ends_round, askable; eauto 10.
Qed.

(** A request the listener can make: no panic, the endpoints as they were. *)
Lemma requestPeer_usable be fwmark i p r : usable be r p -> asked_ok r -> is_Some (rl_reqPeer r) ->
  exists st, requestPeer be fwmark i p r = Some st /\ match st with Ask _ r' => keeps r r' /\ asked_ok r' | _ => True end.
Proof.
  intros Hu Ha [m Hm]. destruct Hu as [(ep & Hep & Hv)|[(ep & e & Hep & Hv & H)|Hask]].
  - exists Skip. unfold requestPeer. rewrite Hep. cbn. by rewrite Hv.
  - exists Leave. unfold requestPeer. rewrite Hep. cbn [mbind option_bind]. rewrite Hv. split; [|done].
    replace (Is6 (DstIP (nativeEP e)) || (SrcIfidx be (nativeEP e) =? 0)) with true; [done|]. symmetry. apply orb_true_iff. destruct H as [H|H]; [by left|right; by apply Z.eqb_eq].
  - destruct (requestPeer_asks be fwmark i p m r Hask Hm) as (msg & E). eexists. split; [done|]. split; [split; cbn; eauto|].
    destruct Hask as (ep & e & _ & _ & _ & Hep & Hv & _). intros m' seq pe [= <-] Hl. cbn. destruct (decide (seq = i)) as [->|Hne].
    + rewrite lookup_insert_eq in Hl. injection Hl as <-. eauto.
    + rewrite lookup_insert_ne in Hl by done. by eapply Ha.
Qed.

(** ** The life of the listener *)

Module LifeSpec.
Import Life.
Section Spec.
Context (be : bool) (fwmark : Z) (r0 : routes).
Hypothesis r0_asked : asked_ok r0.
Hypothesis r0_usable : forall p, is_Some (rl_endpoints r0 !! p) -> usable be r0 p.

Definition sockUsed (p : pc) : bool := match p with ClosingCancel | Gone => false | _ => true end.
Definition pipeUsed (p : pc) : bool := match p with Gone => false | _ => true end.
Definition asksUsable (a : asker) : Prop :=
  match a with Asking _ ps | Writing _ ps _ | WritePolling _ ps _ => Forall (usable be r0) ps | _ => True end.
Record inv (s : state) : Prop := {
  iv_sock : sockOpen s = sockUsed (routine s);
  iv_pipe : readerOpen (cancel s) = pipeUsed (routine s) /\ writerOpen (cancel s) = pipeUsed (routine s);
  iv_asked : asked_ok (table s);
  iv_table : keeps r0 (table s);
  iv_map : askers s <> [] -> is_Some (rl_reqPeer (table s));
  iv_askers : Forall asksUsable (askers s);
  iv_crashed : crashed s = false;
  iv_strays : sockOpen s = true -> strays s = []
}.

Lemma life_start : inv (start r0).
Proof. by split. Qed.

(** A step that moves one goroutine and nothing else of what the invariant looks at. *)
Lemma setAsker_inv k a s : inv s -> asksUsable a -> inv (setAsker k a s).
Proof.
  intros [] Ha. split; cbn; try done; [|by apply Forall_insert]. intros H. apply iv_map0. intros E. by rewrite E in H.
Qed.

Lemma recv_inv answer s s' : inv s -> match answer with Ok msg => Forall is_u8 msg | _ => True end -> recv be answer s = Some s' -> inv s'.
Proof.
  intros I Hm. unfold recv. destruct (routine s) eqn:Er; try done. pose proof I as [Hs Hp Ha Hk Hmap Has Hc Hst]. rewrite Er in Hs, Hp. destruct answer as [msg|e].
  - generalize (S (length msg)). intros fuel [= <-]. pose proof (messageLoop_safe be fuel msg 0 (table s) Hm Ha) as Hsafe. destruct (messageLoop _ _ _ _ _) as [[r n]| |] eqn:E; [|done|by split; cbn].
    apply messageLoop_keeps in E as [Hk' Hn]. split; cbn; rewrite ?Er; try done; [by etransitivity| |].
    + intros Hne. destruct n as [|n]; [|apply Hn; lia]. apply Hk', Hmap. by rewrite app_nil_r in Hne.
    + apply Forall_app. split; [done|]. by apply Forall_replicate.
  - intros [= <-]. destruct (RetryAfterError e); by split; cbn.
Qed.
Lemma readyRead_inv answer s s' : inv s -> readyRead answer s = Some s' -> inv s'.
Proof.
  intros I. unfold readyRead. destruct (routine s) eqn:Er; try done. destruct (pollOnce _ _) as [r|]; cbn; [|done]. intros [= <-].
  destruct I as [Hs Hp Ha Hk Hmap Has Hc Hst]. rewrite Er in Hs, Hp. destruct r as [[]|]; [by split; cbn..|split; rewrite ?Er; done].
Qed.
Lemma leave_inv s s' : inv s -> leave s = Some s' -> inv s'.
Proof. intros [Hs Hp Ha Hk Hmap Has Hc Hst]. unfold leave. destruct (routine s) eqn:Er; try done; intros [= <-]; by split; cbn. Qed.
Lemma ask_inv k s s' : inv s -> ask be fwmark k s = Some s' -> inv s'.
Proof.
  intros I. unfold ask. destruct (askers s !! k) as [[|i [|p ps]| | |]|] eqn:Ek; try done; intros [= <-]; [by apply setAsker_inv|].
  pose proof I as [Hs Hp Ha Hk Hmap Has Hc Hst]. pose proof (Forall_lookup_1 _ _ _ _ Has Ek) as Hps. apply Forall_cons in Hps as [Hu Hps].
  assert (is_Some (rl_reqPeer (table s))) as Hm by (apply Hmap; intros E; by rewrite E in Ek).
  destruct (requestPeer_usable be fwmark i p (table s) (usable_kept _ _ _ _ Hk Hu) Ha Hm) as (st & -> & Hst'). destruct st as [| |msg r]; [by apply setAsker_inv..|].
  destruct Hst' as [Hk' Ha']. apply setAsker_inv; [|done]. split; cbn; try done; [by etransitivity|]. intros _. by apply Hk'.
Qed.
Lemma write_inv k answer s s' : inv s -> write k answer s = Some s' -> inv s'.
Proof.
  intros I. unfold write. destruct (askers s !! k) as [[| |i ps msg| |]|] eqn:Ek; try done. intros [= <-]. pose proof (Forall_lookup_1 _ _ _ _ (iv_askers _ I) Ek) as Hps.
  destruct answer as [e|]; [destruct (RetryAfterError e); by apply setAsker_inv|]. apply setAsker_inv; [|done]. destruct I as [Hs Hp Ha Hk Hmap Has Hc Hst]. split; cbn; try done.
  destruct (sockOpen s); [auto|done].
Qed.
Lemma readyWrite_inv k answer s s' : inv s -> readyWrite k answer s = Some s' -> inv s'.
Proof.
  intros I. unfold readyWrite. destruct (askers s !! k) as [[| | |i ps msg|]|] eqn:Ek; try done. destruct (pollOnce _ _) as [r|]; cbn; [|done]. intros [= <-].
  pose proof (Forall_lookup_1 _ _ _ _ (iv_askers _ I) Ek) as Hps. destruct r as [[]|]; [by apply setAsker_inv..|done].
Qed.
Lemma life_step l s s' : inv s -> possible l s -> step be fwmark l s = Some s' -> inv s'.
Proof.
  intros I Hl H. destruct l as [a|a| |a|k peers|k|k a|k a]; cbn in H; [by eapply recv_inv|by eapply readyRead_inv|by eapply leave_inv| | |by eapply ask_inv|by eapply write_inv|by eapply readyWrite_inv].
  - injection H as <-. destruct I as [Hs [Hp1 Hp2] Ha Hk Hmap Has Hc Hst]. unfold callCancel, Cancel. split; cbn; try done. destruct (negb (writerOpen (cancel s))); cbn; [done|]. by destruct a.
  - unfold begin in H. destruct (askers s !! k) as [[]|] eqn:Ek; try done. injection H as <-. apply setAsker_inv; [done|]. cbn. eapply Forall_impl; [exact Hl|]. intros p [ep Hep].
    apply r0_usable. destruct (iv_table _ I) as [Hv _]. specialize (Hv p). rewrite Hep in Hv. destruct (rl_endpoints r0 !! p); [eauto|done].
Qed.
Lemma life_inv s : reachable be fwmark r0 s -> inv s.
Proof. induction 1; [apply life_start|by eapply life_step]. Qed.

(** Nothing panics, whatever the kernel sends and in whatever order the goroutines run; what
    was opened is open while the routine may use it and closed when it is gone; and nothing
    is written to a number that is not the socket's before the socket is closed. *)
Theorem listener_life s : reachable be fwmark r0 s ->
  crashed s = false /\ (routine s = Gone -> sockOpen s = false /\ readerOpen (cancel s) = false /\ writerOpen (cancel s) = false) /\
  (sockUsed (routine s) = true -> sockOpen s = true /\ readerOpen (cancel s) = true /\ strays s = []).
Proof.
  intros [Hs [Hp1 Hp2] Ha Hk Hmap Has Hc Hst]%life_inv. split; [done|]. split.
  - intros E. rewrite E in *. done.
  - intros E. rewrite E in Hs. split; [done|]. split; [|auto]. rewrite Hp1. by destruct (routine s).
Qed.

(** After Cancel the routine does not wait again: poll returns at once, and unless it is
    interrupted the routine leaves and closes the socket and the pipe. *)
Theorem listener_cancelled s v : reachable be fwmark r0 s -> closing (cancel s) <> [] -> routine s = Polling ->
  exists s', run be fwmark [ReadyRead (Ok v); LeaveStep; LeaveStep] s = Some s' /\ routine s' = Gone /\ sockOpen s' = false /\ readerOpen (cancel s') = false /\ writerOpen (cancel s') = false.
Proof.
  intros [Hs [Hp1 Hp2] _ _ _ _ _ _]%life_inv Hc Er. rewrite Er in Hp1. eexists. split; [|split; [|split]].
  - unfold run. cbn. unfold readyRead. rewrite Er. unfold pollOnce, closingEvents. rewrite Hp1, bool_decide_eq_false_2 by done. cbn. rewrite andb_false_r. cbn. reflexivity.
  - done.
  - done.
  - done.
Qed.
End Spec.

(** A change of a route, the request for peer 7, then Cancel. *)
Definition routeChanged : list Z := answer false RTM_NEWROUTE 0 0 (replicate 12 0) [].
Definition cancelled : list label := [CallCancel None; Recv (Err EAGAIN); ReadyRead (Ok 0); LeaveStep; LeaveStep].
Example listener_round :
  (fun s => (routine s, length (sent s), strays s)) <$> run false 0 ([Recv (Ok routeChanged); Begin 0 [7%nat]; AskStep 0; Write 0 None; AskStep 0] ++ cancelled) (start sampleRoutes) = Some (Gone, 1%nat, []).
Proof. vm_compute. reflexivity. Qed.
(** Nobody waits for the goroutines that ask: when Cancel comes before the write, the request
    goes to the number of the closed socket, whatever file has it by then. *)
Example late_request_strays :
  (fun s => (routine s, length (sent s), length (strays s))) <$> run false 0 ([Recv (Ok routeChanged); Begin 0 [7%nat]; AskStep 0] ++ cancelled ++ [Write 0 None]) (start sampleRoutes) = Some (Gone, 0%nat, 1%nat).
Proof. vm_compute. reflexivity. Qed.
(** And one that waits to write when the pipe is closed is not woken by a later Cancel. *)
Example closed_pipe_not_polled rw : pollOnce (fst (Cancel None (Close rw))) (Ok 0) = None.
Proof. reflexivity. Qed.
End LifeSpec.
