(* ===== verification/TunBSD.v ===== *)
(** * TunBSD: the TUN devices of macOS, FreeBSD and OpenBSD (src/tun/tun_darwin.go,
    tun_freebsd.go, tun_openbsd.go, operateonfd.go)

    The three devices have the same code up to constants, one check and the way they are set
    up: packets carry four bytes with the address family in front, a routine reads a routing
    socket and reports the changes of the interface. The model has the platform as an
    argument. *)
From S2P Require Import Prelude GoLib SysTrace Checksum Gso RouteListener TunLinux.
#[local] Open Scope Z_scope.
#[local] Open Scope sys_scope.

Inductive platform : Type := darwin | freebsd | openbsd.
#[export] Instance platform_eq_dec : EqDecision platform.
Proof. solve_decision. Defined.

Definition AF_INET6 (p : platform) : Z := match p with darwin => 30 | freebsd => 28 | openbsd => 24 end.

Inductive bsdError : Type := ErrShortBuffer | EAFNOSUPPORT | ErrFile (e : Z).

(** ** Write *)

Section Device.
Context (p : platform) (bigEndian : bool) (reply : nat -> list Z -> option Z).

(** The four bytes in front of a packet: the buffer from there on as it is left, and whether
    it can be written. *)
Definition stamp (buf : list Z) : option (list Z * option bsdError) :=
  if bool_decide (p = freebsd) && (len buf <? 5) then Some (buf, Some ErrShortBuffer)
  else
    buf ← set_at buf 0 0; buf ← set_at buf 1 0; buf ← set_at buf 2 0;
    v ← at_ buf 4;
    if Z.shiftr v 4 =? 4 then buf ← set_at buf 3 AF_INET; Some (buf, None)
    else if Z.shiftr v 4 =? 6 then buf ← set_at buf 3 (AF_INET6 p); Some (buf, None)
    else Some (buf, Some EAFNOSUPPORT).

Fixpoint writeLoop (i : nat) (offset : Z) (bufs : list (list Z)) : option (list (list Z) * list (list Z) * (nat * option bsdError)) :=
  match bufs with
  | [] => Some ([], [], (i, None))
  | b :: bufs =>
      buf ← slice b (offset - 4) (len b);
      '(buf, err) ← stamp buf;
      let b := take (Z.to_nat (offset - 4)) b ++ buf in
      match err with
      | Some err => Some (b :: bufs, [], (i, Some err))
      | None =>
          match reply i buf with
          | Some e => Some (b :: bufs, [buf], (i, Some (ErrFile e)))
          | None => '(bufs, log, out) ← writeLoop (S i) offset bufs; Some (b :: bufs, buf :: log, out)
          end
      end
  end.

(** The buffers, what was handed to the file, the number of packets and the error. *)
Definition Write (offset : Z) (bufs : list (list Z)) : option (list (list Z) * list (list Z) * (nat * option bsdError)) :=
  if offset <? 4 then Some (bufs, [], (0%nat, Some ErrShortBuffer)) else writeLoop 0 offset bufs.

(** ** Read *)

(** [file]: the bytes that are stored in a slice of a given length, and an error. *)
Definition Read (file : Z -> list Z * option Z) (errs : list Z) (bufs : list (list Z)) (sizes : list Z) (offset : Z) :
    option (list Z * list (list Z) * list Z * (Z * option Z)) :=
  match errs with
  | err :: errs => Some (errs, bufs, sizes, (0, Some err))
  | [] =>
      b ← at_ bufs 0;
      buf ← slice b (offset - 4) (len b);
      let '(data, err) := file (len buf) in
      b ← copy_at b (offset - 4) data;
      bufs ← set_at bufs 0 b;
      if len data <? 4 then Some ([], bufs, sizes, (0, err))
      else sizes ← set_at sizes 0 (len data - 4); Some ([], bufs, sizes, (1, err))
  end.

(** ** The routine that reads the routing socket *)

Definition RTM_IFINFO : Z := 14.
Definition IFF_UP : Z := 1.
Definition minMessage : Z := match p with darwin => 28 | freebsd => 14 | openbsd => 8 end.
Definition indexOffset : nat := match p with darwin => 12 | freebsd => 12 | openbsd => 6 end.

(** The state of an interface: up, and its MTU. *)
Definition ifaceState : Type := bool * Z.

(** What is learned from [n] bytes in [data]: nothing, a state, or an error. macOS reads the
    state from the message, the others ask for the interface, which answers [iface]. *)
Definition observe (tunIfindex : Z) (data : list Z) (n : Z) (iface : result ifaceState Z) : option (result ifaceState Z) :=
  if n <? minMessage then None
  else if negb (field bigEndian data 3 1 =? RTM_IFINFO) then None
  else if negb (field bigEndian data indexOffset 2 =? tunIfindex) then None
  else match p with
       | darwin => Some (Ok (negb (Z.land (field bigEndian data 8 4) IFF_UP =? 0), field bigEndian data 24 4))
       | _ => Some iface
       end.

(** The comparison with the state reported last. *)
Definition report (last new : ifaceState) : list Event :=
  (if negb (Bool.eqb new.1 last.1) && new.1 then [EventUp] else []) ++
  (if negb (Bool.eqb new.1 last.1) && negb new.1 then [EventDown] else []) ++
  (if negb (new.2 =? last.2) then [EventMTUUpdate] else []).

Inductive routeRead : Type := RouteErr (e : Z) | RouteMsg (data : list Z) (n : Z) (iface : result ifaceState Z).

(** The events, and the error with which the routine ends, if it does. *)
Fixpoint routeLoop (tunIfindex : Z) (script : list routeRead) (last : ifaceState) : list Event * option Z :=
  match script with
  | [] => ([], None)
  | RouteErr e :: script => if e =? EINTR then routeLoop tunIfindex script last else ([], Some e)
  | RouteMsg data n iface :: script =>
      match observe tunIfindex data n iface with
      | None => routeLoop tunIfindex script last
      | Some (Err e) => ([], Some e)
      | Some (Ok new) => let '(evs, err) := routeLoop tunIfindex script new in (report last new ++ evs, err)
      end
  end.

(** OpenBSD looks at the interface once before the first message. *)
Definition routineRouteListener (tunIfindex : Z) (initial : result ifaceState Z) (script : list routeRead) : list Event * option Z :=
  match p with
  | openbsd =>
      match initial with
      | Err e => ([], Some e)
      | Ok new => let '(evs, err) := routeLoop tunIfindex script new in (report (false, 0) new ++ evs, err)
      end
  | _ => routeLoop tunIfindex script (false, 0)
  end.

(** ** Setting the device up *)

(** The answers of the system. *)
Record env : Type := {
  b_exists : bool;              (* FreeBSD, CreateTUN: an interface has the name *)
  b_open : result Z Z;
  b_assigned : option Z;        (* TUNGIFNAME *)
  b_ifhead : option Z;
  b_ifmode : option Z;
  b_conf6 : result Z Z;
  b_nd6get : option Z;
  b_nd6set : option Z;
  b_conf : result Z Z;
  b_rename : option Z;
  b_destroy : result Z Z;       (* the socket of tunDestroy, and its request *)
  b_destroyed : option Z;
  b_pid : option Z;             (* FreeBSD, CreateTUNFromFile *)
  b_name : option Z;
  b_index : result Z Z;
  b_route : result Z Z;
  b_mtusocket : result Z Z;
  b_getmtu : result Z Z;
  b_setmtusocket : result Z Z;
  b_setmtu : option Z
}.

(** [if err != nil { file.Close(); return nil, err }], followed by [cleanup]. *)
Definition orClean {A} (cleanup : list sysEvent) (m : M A) : M A :=
  let '(tr, r) := m in match r with Ok a => (tr, Ok a) | Err e => (tr ++ cleanup, Err e) end.

Definition MTU (e : env) : M Z := let! fd := open_ (b_mtusocket e) in deferClose fd (lift (b_getmtu e)).
Definition setMTU (e : env) : M unit := let! fd := open_ (b_setmtusocket e) in deferClose fd (check (b_setmtu e)).

(** tunDestroy: FreeBSD only; the error is not looked at. *)
Definition tunDestroy (e : env) : list sysEvent :=
  match b_destroy e with
  | Err _ => []
  | Ok fd => [Opened fd] ++ (match b_destroyed e with None => [Destroyed] | Some _ => [] end) ++ [Closed fd]
  end.

(** Close of a device whose routine runs: the file, on FreeBSD the interface, the socket. *)
Definition closeTrace (e : env) (file sock : Z) : list sysEvent :=
  [Closed file] ++ (if bool_decide (p = freebsd) then tunDestroy e else []) ++ [Closed sock].

(** Whether and how the MTU is set. *)
Definition initMTU (e : env) (mtu : Z) : M unit :=
  match p with
  | darwin => if 0 <? mtu then setMTU e else ret tt
  | freebsd => setMTU e
  | openbsd =>
      let '(tr, current) := MTU e in
      let '(tr', r) := match current with
                       | Ok c => if c =? mtu then ret tt else setMTU e
                       | Err _ => setMTU e
                       end in
      (tr ++ tr', r)
  end.

Definition CreateTUNFromFile (e : env) (file mtu : Z) : M (Z * Z) :=
  do! orClean [Closed file] (if bool_decide (p = freebsd) then check (b_pid e) else ret tt) in
  do! orClean [Closed file] (check (b_name e)) in
  let! idx := orClean [Closed file] (lift (b_index e)) in
  let! sock := orClean [Closed file] (open_ (b_route e)) in
  do! trace StartedNetlink in
  do! orClean (closeTrace e file sock) (initMTU e mtu) in
  ret (file, sock).

(** FreeBSD: the interface is made, configured and renamed; [named] says that a name was
    asked for. The two sockets are closed when the function returns. *)
Definition CreateTUN (e : env) (nameLen mtu : Z) : M (Z * Z) :=
  if 15 <? nameLen then fail 0
  else if b_exists e then fail 0
  else
    let! file := open_ (b_open e) in
    do! orClean [Closed file] (check (b_assigned e)) in
    let clean {A} (m : M A) := orClean ([Closed file] ++ tunDestroy e) m in
    do! clean (check (b_ifhead e)) in
    do! clean (check (b_ifmode e)) in
    let! confd6 := clean (open_ (b_conf6 e)) in
    deferClose confd6 (
      do! clean (check (b_nd6get e)) in
      do! clean (check (b_nd6set e)) in
      if nameLen =? 0 then CreateTUNFromFile e file mtu
      else
        let! confd := clean (open_ (b_conf e)) in
        deferClose confd (
          do! clean (check (b_rename e)) in
          CreateTUNFromFile e file mtu)).
End Device.

(** ** The frames of a batch *)

Definition familyOf (p : platform) (pkt : list Z) : option Z :=
  match pkt with
  | v :: _ => if Z.shiftr v 4 =? 4 then Some AF_INET else if Z.shiftr v 4 =? 6 then Some (AF_INET6 p) else None
  | [] => None
  end.
Definition frameOf (p : platform) (pkt : list Z) : list Z := [0; 0; 0; default 0 (familyOf p pkt)] ++ pkt.
Definition pktOf (offset : Z) (b : list Z) : list Z := drop (Z.to_nat offset) b.

Section Frames.
Context (p : platform) (reply : nat -> list Z -> option Z) (offset : Z).
Hypothesis (Hoff : 4 <= offset).

Lemma stamp_spec h0 h1 h2 h3 v rest : let buf := h0 :: h1 :: h2 :: h3 :: v :: rest in
  stamp p buf = Some (match familyOf p (v :: rest) with
                      | Some _ => (frameOf p (v :: rest), None)
                      | None => (0 :: 0 :: 0 :: h3 :: v :: rest, Some EAFNOSUPPORT)
                      end).
Proof.
  cbv zeta. unfold stamp. assert (5 <= len (h0 :: h1 :: h2 :: h3 :: v :: rest)) as Hl by (unfold len; cbn; lia). rewrite (proj2 (Z.ltb_ge _ _) Hl), andb_false_r.
  assert (forall a b c d x, set_at (a :: b :: c :: d :: v :: rest) 0 x = Some (x :: b :: c :: d :: v :: rest) /\ set_at (a :: b :: c :: d :: v :: rest) 1 x = Some (a :: x :: c :: d :: v :: rest) /\
    set_at (a :: b :: c :: d :: v :: rest) 2 x = Some (a :: b :: x :: d :: v :: rest) /\ set_at (a :: b :: c :: d :: v :: rest) 3 x = Some (a :: b :: c :: x :: v :: rest) /\
    at_ (a :: b :: c :: d :: v :: rest) 4 = Some v) as Hs.
  { intros. rewrite !set_at_Some by (unfold len; cbn; lia). repeat split. }
  destruct (Hs h0 h1 h2 h3 0) as (-> & _). cbn [mbind option_bind]. destruct (Hs 0 h1 h2 h3 0) as (_ & -> & _). cbn [mbind option_bind].
  destruct (Hs 0 0 h2 h3 0) as (_ & _ & -> & _). cbn [mbind option_bind]. destruct (Hs 0 0 0 h3 AF_INET) as (_ & _ & _ & -> & ->). cbn [mbind option_bind].
  destruct (Hs 0 0 0 h3 (AF_INET6 p)) as (_ & _ & _ & -> & _). cbn [mbind option_bind]. unfold frameOf, familyOf. by destruct (Z.shiftr v 4 =? 4), (Z.shiftr v 4 =? 6).
Qed.

(** A buffer with a packet splits around its four bytes. *)
Lemma buf_split b : offset < len b -> exists pre h0 h1 h2 h3 v rest, b = pre ++ h0 :: h1 :: h2 :: h3 :: v :: rest /\ len pre = offset - 4 /\ pktOf offset b = v :: rest.
Proof.
  intros Hb. unfold len in Hb. assert (Z.to_nat (offset - 4) <= length b)%nat as Hp by lia.
  destruct (drop (Z.to_nat (offset - 4)) b) as [|h0 [|h1 [|h2 [|h3 [|v rest]]]]] eqn:E; try (apply (f_equal length) in E; rewrite length_drop in E; cbn in E; lia).
  exists (take (Z.to_nat (offset - 4)) b), h0, h1, h2, h3, v, rest. split; [by rewrite <- E, take_drop|]. split; [unfold len; rewrite length_take; lia|].
  unfold pktOf. replace (Z.to_nat offset) with (Z.to_nat (offset - 4) + 4)%nat by lia. by rewrite <- drop_drop, E.
Qed.

(** Write on packets that are not empty: the packets in front of [i] were written, one frame
    each; then either there are no more, or packet [i] has no family, or its write failed. *)
Lemma writeLoop_frames bufs : Forall (fun b => offset < len b) bufs -> forall i, exists bufs' log n err,
  writeLoop p reply i offset bufs = Some (bufs', log, ((i + n)%nat, err)) /\
  (pktOf offset <$> bufs') = (pktOf offset <$> bufs) /\
  (forall j b, bufs !! j = Some b -> (j < n)%nat -> is_Some (familyOf p (pktOf offset b)) /\ reply (i + j) (frameOf p (pktOf offset b)) = None) /\
  match err with
  | None => n = length bufs /\ log = (frameOf p ∘ pktOf offset) <$> bufs
  | Some (ErrFile e) => log = (frameOf p ∘ pktOf offset) <$> take (S n) bufs /\
      exists b, bufs !! n = Some b /\ is_Some (familyOf p (pktOf offset b)) /\ reply (i + n) (frameOf p (pktOf offset b)) = Some e
  | Some EAFNOSUPPORT => log = (frameOf p ∘ pktOf offset) <$> take n bufs /\ exists b, bufs !! n = Some b /\ familyOf p (pktOf offset b) = None
  | Some ErrShortBuffer => False
  end.
Proof.
  induction 1 as [|b bufs Hb _ IH]; intros i; cbn [writeLoop].
  { exists [], [], 0%nat, None. rewrite Nat.add_0_r. split_and!; try done; intros; lia. }
  destruct (buf_split b Hb) as (pre & h0 & h1 & h2 & h3 & v & rest & -> & Hpre & Hpkt). pose proof (len_nonneg pre).
  assert (slice (pre ++ h0 :: h1 :: h2 :: h3 :: v :: rest) (offset - 4) (len (pre ++ h0 :: h1 :: h2 :: h3 :: v :: rest)) = Some (h0 :: h1 :: h2 :: h3 :: v :: rest)) as ->
    by (rewrite <- Hpre; by apply slice_tail).
  cbn [mbind option_bind]. rewrite stamp_spec. cbn [mbind option_bind].
  rewrite take_app_length' by (unfold len in Hpre; lia). assert (forall x0 x1 x2 x3, pktOf offset (pre ++ x0 :: x1 :: x2 :: x3 :: v :: rest) = v :: rest) as Hdrop.
  { intros. unfold pktOf. change (x0 :: x1 :: x2 :: x3 :: v :: rest) with ([x0; x1; x2; x3] ++ v :: rest). rewrite app_assoc. apply drop_app_length'. rewrite length_app. unfold len in Hpre. cbn. lia. }
  pose proof (Hdrop h0 h1 h2 h3) as Hd0.
  destruct (familyOf p (v :: rest)) as [af|] eqn:Haf; cycle 1.
  - eexists _, [], 0%nat, (Some EAFNOSUPPORT). rewrite Nat.add_0_r. split; [done|]. split; [rewrite !fmap_cons; f_equal; by rewrite Hdrop, Hpkt|].
    split; [intros; lia|]. split; [done|]. eexists. split; [done|]. by rewrite Hd0.
  - destruct (reply i (frameOf p (v :: rest))) as [e|] eqn:Hr.
    + eexists _, _, 0%nat, (Some (ErrFile e)). rewrite Nat.add_0_r. split; [done|]. split; [rewrite !fmap_cons; f_equal; unfold frameOf; cbn [app]; by rewrite Hdrop, Hpkt|].
      split; [intros; lia|]. split; [cbn; by rewrite Hd0|]. eexists. split; [done|]. rewrite Hd0, ?Nat.add_0_r. by rewrite Haf.
    + destruct (IH (S i)) as (bufs' & log & n & err & -> & H1 & H2 & H3). cbn [mbind option_bind]. eexists _, _, (S n), err. replace (S i + n)%nat with (i + S n)%nat by lia. split; [done|].
      split; [rewrite !fmap_cons, H1; f_equal; unfold frameOf; cbn [app]; by rewrite Hdrop, Hpkt|]. split.
      { intros [|j] b' Hj Hlt; cbn in Hj; [injection Hj as <-; rewrite Hd0, ?Nat.add_0_r; by rewrite Haf|].
        replace (i + S j)%nat with (S i + j)%nat by lia. apply H2; [done|lia]. }
      destruct err as [[| |e]|]; [done| | |].
      * destruct H3 as [-> H3]. split; [cbn; by rewrite Hd0|done].
      * destruct H3 as [-> H3]. split; [cbn; by rewrite Hd0|]. by replace (i + S n)%nat with (S i + n)%nat by lia.
      * destruct H3 as [-> ->]. split; [done|]. cbn. by rewrite Hd0.
Qed.
End Frames.

(** A batch of packets: every packet that is not empty and whose version is 4 or 6 is handed
    to the file with the family in front, in order, up to the first failure, whose position
    is returned; the packets themselves are left as they are. *)
Theorem bsd_write p reply offset bufs : 4 <= offset -> Forall (fun b => offset < len b) bufs -> exists bufs' log n err,
  Write p reply offset bufs = Some (bufs', log, (n, err)) /\
  (pktOf offset <$> bufs') = (pktOf offset <$> bufs) /\
  (forall j b, bufs !! j = Some b -> (j < n)%nat -> is_Some (familyOf p (pktOf offset b)) /\ reply j (frameOf p (pktOf offset b)) = None) /\
  match err with
  | None => n = length bufs /\ log = (frameOf p ∘ pktOf offset) <$> bufs
  | Some (ErrFile e) => log = (frameOf p ∘ pktOf offset) <$> take (S n) bufs /\
      exists b, bufs !! n = Some b /\ is_Some (familyOf p (pktOf offset b)) /\ reply n (frameOf p (pktOf offset b)) = Some e
  | Some EAFNOSUPPORT => log = (frameOf p ∘ pktOf offset) <$> take n bufs /\ exists b, bufs !! n = Some b /\ familyOf p (pktOf offset b) = None
  | Some ErrShortBuffer => False
  end.
Proof. intros Ho Hb. unfold Write. rewrite (proj2 (Z.ltb_ge _ _)) by done. exact (writeLoop_frames p reply offset Ho bufs Hb 0). Qed.

(** A packet without a byte: FreeBSD refuses it, the other two index out of range. *)
Lemma bsd_write_empty p reply pre : len pre = 4 -> Write p reply 4 [pre] = if bool_decide (p = freebsd) then Some ([pre], [], (0%nat, Some ErrShortBuffer)) else None.
Proof.
  intros Hl. destruct pre as [|a [|b [|c [|d [|? ?]]]]]; try (unfold len in Hl; cbn in Hl; lia). by destruct p.
Qed.

(** Reading a frame stores its packet behind [offset] and its length in sizes. *)
Theorem bsd_read_frame p file pre r bufs size sizes offset pkt : len pre = offset - 4 -> 4 + len pkt <= len r ->
  file (len r) = (frameOf p pkt, None) ->
  Read file [] ((pre ++ r) :: bufs) (size :: sizes) offset =
  Some ([], (pre ++ frameOf p pkt ++ drop (length (frameOf p pkt)) r) :: bufs, len pkt :: sizes, (1, None)) /\
  slice (pre ++ frameOf p pkt ++ drop (length (frameOf p pkt)) r) offset (offset + len pkt) = Some pkt.
Proof.
  intros Hpre Hl Hf. pose proof (len_nonneg pre). assert (len (frameOf p pkt) = 4 + len pkt) as Hfl by (unfold frameOf, len; rewrite length_app; cbn; lia).
  split.
  - unfold Read. change (at_ ((pre ++ r) :: bufs) 0) with (Some (pre ++ r)). cbn [mbind option_bind]. rewrite <- Hpre, slice_tail by done. cbn [mbind option_bind].
    rewrite Hf, copy_at_region by (done || lia). cbn [mbind option_bind]. rewrite !set_at_Some by (unfold len; cbn; lia). cbn [mbind option_bind].
    pose proof (len_nonneg pkt). rewrite (proj2 (Z.ltb_ge _ _)) by lia. rewrite Hfl. by replace (4 + len pkt - 4) with (len pkt) by lia.
  - unfold frameOf at 1. rewrite <- !app_assoc, app_assoc. pose proof (slice_mid (pre ++ [0; 0; 0; default 0 (familyOf p pkt)]) pkt (drop (length (frameOf p pkt)) r) _ eq_refl) as Hs.
    rewrite len_app, Hpre in Hs. change (len [0; 0; 0; default 0 (familyOf p pkt)]) with 4 in Hs. by replace (offset - 4 + 4) with offset in Hs by lia.
Qed.

(** ** The events of the routing socket *)

(** The states that a script shows, up to the error that ends the routine. *)
Fixpoint observed (p : platform) (be : bool) (idx : Z) (script : list routeRead) : list ifaceState :=
  match script with
  | [] => []
  | RouteErr e :: script => if e =? EINTR then observed p be idx script else []
  | RouteMsg data n iface :: script =>
      match observe p be idx data n iface with
      | None => observed p be idx script
      | Some (Err _) => []
      | Some (Ok st) => st :: observed p be idx script
      end
  end.
Definition isStatus (e : Event) : Prop := e <> EventMTUUpdate.
#[export] Instance isStatus_dec e : Decision (isStatus e).
Proof. unfold isStatus. apply _. Defined.

(** Up and down alternate, beginning with the opposite of [up]. *)
Fixpoint alternate (up : bool) (evs : list Event) : Prop :=
  match evs with [] => True | e :: evs => e = (if up then EventDown else EventUp) /\ alternate (negb up) evs end.

Lemma report_status last new : filter isStatus (report last new) = if Bool.eqb new.1 last.1 then [] else [if new.1 then EventUp else EventDown].
Proof. unfold report. destruct last as [[|] m], new as [[|] n]; cbn; by destruct (n =? m). Qed.

(** What the routine has reported fits what it has seen: up and down alternate, the last of
    them is the state seen last, and the MTU is reported exactly when it differs from the
    one seen before. *)
Theorem route_events p be idx script : forall st0,
  let evs := (routeLoop p be idx script st0).1 in
  let seen := observed p be idx script in
  alternate st0.1 (filter isStatus evs) /\
  foldl (fun up e => match e with EventUp => true | EventDown => false | EventMTUUpdate => up end) st0.1 evs = default st0.1 (last (fst <$> seen)) /\
  length (filter (fun e => e = EventMTUUpdate) evs) = length (filter (fun q => q.1 <> q.2) (zip (st0.2 :: (snd <$> seen)) (snd <$> seen))).
Proof.
  induction script as [|[e|data n iface] script IH]; intros st0; cbn [routeLoop observed]; [done| |].
  - destruct (e =? EINTR); [apply IH|done].
  - destruct (observe p be idx data n iface) as [[st|e]|]; [|done|apply IH]. specialize (IH st). cbv zeta in *. destruct (routeLoop p be idx script st) as [evs err].
    cbn [fst snd] in *. destruct IH as (H1 & H2 & H3). split_and!.
    + rewrite filter_app, report_status. destruct st as [[|] m], st0 as [[|] m0]; cbn in *; by try split.
    + rewrite foldl_app. rewrite fmap_cons, last_cons. assert (foldl _ st0.1 (report st0 st) = st.1) as ->.
      { unfold report. destruct st as [[|] m], st0 as [[|] m0]; cbn; by destruct (m =? m0). }
      rewrite H2. by destruct (last _).
    + rewrite filter_app, length_app, H3. rewrite !fmap_cons. cbn [zip zip_with]. rewrite filter_cons. cbn [fst snd].
      unfold report. rewrite !filter_app, !length_app. destruct (Z.eqb_spec st.2 st0.2) as [E|E]; cbn [negb].
      * rewrite decide_False by (intros HH; by apply HH). destruct st as [[|] m], st0 as [[|] m0]; done.
      * rewrite decide_True by congruence. destruct st as [[|] m], st0 as [[|] m0]; done.
Qed.

(** ** Descriptors *)

(** Sockets get numbers that are not in use. *)
Definition freshFds (e : env) (file : Z) : Prop :=
  (forall s, b_mtusocket e = Ok s -> s <> file) /\ (forall s, b_setmtusocket e = Ok s -> s <> file) /\ (forall s, b_destroy e = Ok s -> s <> file) /\
  forall k, b_route e = Ok k -> k <> file /\ (forall s, b_mtusocket e = Ok s -> s <> k) /\ (forall s, b_setmtusocket e = Ok s -> s <> k) /\ forall s, b_destroy e = Ok s -> s <> k.

(** The sockets that ask for and set the MTU are closed again. *)
Lemma initMTU_leaves p e mtu fds : (forall s, b_mtusocket e = Ok s -> s ∉ fds) -> (forall s, b_setmtusocket e = Ok s -> s ∉ fds) ->
  leaves fds (initMTU p e mtu) (fun _ => fds) fds.
Proof.
  intros F1 F2. assert (leaves fds (setMTU e) (fun _ => fds) fds) as Hset by (apply leaves_socket; [done|intros fd; apply leaves_check]).
  unfold initMTU. destruct p; [destruct (_ <? _); [done|by apply leaves_ret]|done|].
  assert (leaves fds (MTU e) (fun _ => fds) fds) as Hget by (apply leaves_socket; [done|intros fd; apply leaves_lift]).
  unfold leaves in *. destruct (MTU e) as [tr r]. cbn in Hget. assert (after fds tr = fds) as Htr by (by destruct r).
  destruct (match r with Ok c => _ | Err _ => _ end) as [tr' r'] eqn:E. cbn. rewrite after_app, Htr.
  destruct r as [c|]; [destruct (c =? mtu); [by injection E as <- <-|]|]; by rewrite E in Hset.
Qed.

Lemma closeTrace_closes p e file sock : freshFds e file -> b_route e = Ok sock -> after [file; sock] (closeTrace p e file sock) = [].
Proof.
  intros (_ & _ & F3 & F4) Hr. destruct (F4 _ Hr) as (N & _ & _ & F5). unfold closeTrace, tunDestroy.
  assert (filter (.≠ file) [file; sock] = [sock]) as Hf by (rewrite filter_cons_False by (by intros []); by rewrite filter_cons_True).
  assert (afterEvent [sock] (Closed sock) = []) as Hk by apply (close_again []), not_elem_of_nil.
  destruct (bool_decide (p = freebsd)), (b_destroy e) as [s|]; cbn [app]; rewrite ?after_cons; cbn [afterEvent]; rewrite Hf; try exact Hk. cbn [app].
  assert (filter (.≠ s) [sock; s] = [sock]) as Hs by (apply (close_again [sock]); rewrite list_elem_of_singleton; by apply F5).
  destruct (b_destroyed e); cbn [app]; rewrite ?after_cons; cbn [afterEvent]; rewrite Hs; exact Hk.
Qed.

(** When a device cannot be set up from a file, nothing stays open, on any platform; when it
    can, the file and the routing socket do. *)
Theorem setup_descriptors p e file mtu : freshFds e file ->
  leaves [file] (CreateTUNFromFile p e file mtu) (fun d => [d.1; d.2]) [].
Proof.
  intros Hf. assert (after [file] [Closed file] = []) as Hc by apply (close_again []), not_elem_of_nil.
  unfold CreateTUNFromFile, orClean.
  apply (leaves_bind _ _ _ [file]); [apply (leaves_clean _ _ _ _ _ [file]); [|done]; destruct (bool_decide _); [apply leaves_check|by apply leaves_ret]|intros _].
  apply (leaves_bind _ _ _ [file]); [apply (leaves_clean _ _ _ _ _ [file]); [apply leaves_check|done]|intros _].
  apply (leaves_bind _ _ _ [file]); [apply (leaves_clean _ _ _ _ _ [file]); [apply leaves_lift|done]|intros _].
  destruct (b_route e) as [sock|] eqn:Hr; [|exact Hc]. apply (leaves_open _ (Ok sock)); [done|]. intros ? [= <-]. cbn [app].
  apply (leaves_bind _ _ _ [file; sock]); [done|intros _]. apply (leaves_bind _ _ _ [file; sock]); [|intros _; by apply leaves_ret].
  apply (leaves_clean _ _ _ _ _ [file; sock]); [|by apply closeTrace_closes]. destruct Hf as (F1 & F2 & _ & F4). destruct (F4 _ Hr) as (_ & F5 & F6 & _).
  apply initMTU_leaves; intros s Hs; rewrite elem_of_cons, list_elem_of_singleton; intros [-> | ->]; [by apply (F1 _ Hs)|by apply (F5 _ Hs)|by apply (F2 _ Hs)|by apply (F6 _ Hs)].
Qed.

(** FreeBSD: when the interface has been made and the process cannot take it over, the file
    is closed but the interface stays, unlike on the failures before. *)
Definition refusing (pid : option Z) (nd6 : option Z) : env :=
  {| b_exists := false; b_open := Ok 3; b_assigned := None; b_ifhead := None; b_ifmode := None; b_conf6 := Ok 4; b_nd6get := nd6; b_nd6set := None; b_conf := Ok 5;
     b_rename := None; b_destroy := Ok 6; b_destroyed := None; b_pid := pid; b_name := None; b_index := Ok 1; b_route := Ok 6; b_mtusocket := Ok 7; b_getmtu := Ok 1500;
     b_setmtusocket := Ok 7; b_setmtu := None |}.
Example destroyed_early : (CreateTUN freebsd (refusing None (Some EIO)) 4 1420).1 = [Opened 3; Opened 4; Closed 3; Opened 6; Destroyed; Closed 6; Closed 4].
Proof. reflexivity. Qed.
Example not_destroyed_late : CreateTUN freebsd (refusing (Some EIO) None) 4 1420 = ([Opened 3; Opened 4; Opened 5; Closed 3; Closed 5; Closed 4], Err EIO).
Proof. reflexivity. Qed.
