(* ===== verification/TunNames.v ===== *)
(** * TunNames: names and set-up of the interfaces of macOS and OpenBSD
    (src/tun/tun_darwin.go, tun_openbsd.go, tun_freebsd.go, operateonfd.go)

    How the name of an interface is read by fmt.Sscanf and what is opened for it, the name a
    device has, calls on its descriptor, and Close. The operations that the platforms share
    are those of TunBSD, instantiated for each of them. Names are ASCII. *)
From S2P Require Import Prelude GoLib SysTrace Bind TunLinux TunBSD.
#[local] Open Scope Z_scope.
#[local] Open Scope sys_scope.

(** ** fmt.Sscanf with a prefix and %d *)

(** SkipSpace; [None] is the error of a newline. *)
Fixpoint skipSpace (s : list Z) : option (list Z) :=
  match s with
  | [] => Some []
  | c :: s' =>
      if c =? 10 then None
      else if (c =? 32) || (c =? 9) || (c =? 11) || (c =? 12) || (c =? 13) then skipSpace s'
      else Some s
  end.
Fixpoint stripPrefix (p s : list Z) : option (list Z) :=
  match p, s with
  | [], _ => Some s
  | x :: p, y :: s => if x =? y then stripPrefix p s else None
  | _ :: _, [] => None
  end.
(** The digits a number starts with; what follows them is not looked at. *)
Fixpoint digits (s : list Z) : list Z := match s with c :: s => if is_digit c then c :: digits s else [] | [] => [] end.
Definition scanInt (s : list Z) : option Z :=
  match s with
  | c :: s' => if (c =? 43) || (c =? 45) then Atoi (c :: digits s') else Atoi (digits s)
  | [] => None
  end.
Definition Sscanf (prefix name : list Z) : option Z := s ← stripPrefix prefix name; s ← skipSpace s; scanInt s.

(** The number of the interface: -1 for the bare prefix; [None] refuses the name. *)
Definition ifIndexOf (prefix name : list Z) : option Z :=
  if decide (name = prefix) then Some (-1)
  else i ← Sscanf prefix name; if i <? 0 then None else Some i.

(** ** Calls on the descriptor *)

(** operateOnFd: whether the function ran, and the errors in the channel afterwards; [None]
    waits for ever. A channel that was not made has no capacity and no receiver. *)
Definition operateOnFd (capacity : option nat) (errs : list Z) (sysconn control : option Z) : option (bool * list Z) :=
  let push e := match capacity with Some n => if (length errs <? n)%nat then Some (errs ++ [e]) else None | None => None end in
  match sysconn with
  | Some e => errs ← push e; Some (false, errs)
  | None => match control with Some e => errs ← push e; Some (false, errs) | None => Some (true, errs) end
  end.
(** A call that sets a variable of its caller, which was zero. *)
Definition viaFd {A} (zero : A) (capacity : option nat) (errs : list Z) (sysconn control : option Z) (fn : A) : option (A * list Z) :=
  '(ran, errs) ← operateOnFd capacity errs sysconn control; Some (if (ran : bool) then fn else zero, errs).

(** ** Names *)

(** ByteSliceToString: up to the first zero byte. *)
Fixpoint byteSliceToString (s : list Z) : list Z := match s with [] => [] | c :: s => if c =? 0 then [] else c :: byteSliceToString s end.
(** The name of the device, or an error; the state of the channel of errors besides. *)
Definition Name_darwin (errs : list Z) (sysconn control : option Z) (getsockopt : result (list Z) Z) : option (result (list Z) Z * list Z) :=
  viaFd (Ok []) (Some 5%nat) errs sysconn control getsockopt.
Definition tunName (answer : result (list Z) Z) : result (list Z) Z := match answer with Err e => Err e | Ok ifreq => Ok (byteSliceToString ifreq) end.
Definition Name_freebsd (errs : list Z) (sysconn control : option Z) (ioctl : result (list Z) Z) : option (result (list Z) Z * list Z) :=
  viaFd (Ok []) (Some 1%nat) errs sysconn control (tunName ioctl).
(** The name that CreateTUN asks for, before the device has channels. *)
Definition assignedName (sysconn control : option Z) (ioctl : result (list Z) Z) : option (result (list Z) Z * list Z) :=
  viaFd (Ok []) None [] sysconn control (tunName ioctl).
Definition Name_openbsd (stat : result Z Z) : result (list Z) Z := match stat with Err e => Err e | Ok rdev => Ok (str "tun" ++ Itoa (rdev mod 256)) end.

(** The request that sets an MTU: the name in 16 bytes, the number, and padding. *)
Definition ifreqMtu (be : bool) (name : list Z) (n : Z) : list Z := list_inserts 0 name (replicate 16 0) ++ native be 4 (u32 n) ++ replicate 12 0.

(** ** CreateTUN *)

Record createEnv : Type := {
  c_dev : env;                     (* what CreateTUNFromFile is answered *)
  c_socket : result Z Z;
  c_ctlInfo : option Z;
  c_connect : Z -> option Z;       (* by the unit *)
  c_nonblock : option Z;
  c_open : Z -> result Z Z         (* OpenBSD: /dev/tun<n> *)
}.
(** macOS: the unit of the control, zero for any. *)
Definition unitOf (ifIndex : Z) : Z := u32 (u32 ifIndex + 1).
Definition CreateTUN_darwin (e : createEnv) (name : list Z) (mtu : Z) : M (Z * Z) :=
  match ifIndexOf (str "utun") name with
  | None => fail 0
  | Some ifIndex =>
      let! fd := open_ (c_socket e) in
      do! orClose fd (check (c_ctlInfo e)) in
      do! orClose fd (check (c_connect e (unitOf ifIndex))) in
      do! orClose fd (check (c_nonblock e)) in
      CreateTUNFromFile darwin (c_dev e) fd mtu
  end.

Definition EBUSY : Z := 16.
(** OpenBSD: the first device that is not busy, of [fuel] from [i] on; [last] is the answer so far. *)
Fixpoint openFree (open : Z -> result Z Z) (fuel : nat) (i : Z) (last : result Z Z) : result Z Z :=
  match fuel with
  | O => last
  | S fuel => match open i with Err e => if e =? EBUSY then openFree open fuel (i + 1) (Err e) else Err e | Ok fd => Ok fd end
  end.
Definition openTun (open : Z -> result Z Z) (ifIndex : Z) : result Z Z :=
  if negb (ifIndex =? -1) then open ifIndex else openFree open 256 0 (Err 0).
Definition CreateTUN_openbsd (e : createEnv) (name : list Z) (mtu : Z) : M (Z * Z) :=
  match ifIndexOf (str "tun") name with
  | None => fail 0
  | Some ifIndex => let! fd := open_ (openTun (c_open e) ifIndex) in CreateTUNFromFile openbsd (c_dev e) fd mtu
  end.
(** The file that the chosen name is written to, and its contents. *)
Definition nameFile (prefix name : list Z) (fname tunName : list Z) (created : bool) : option (list Z * list Z) :=
  if created && bool_decide (name = prefix) && bool_decide (fname <> []) then Some (fname, tunName ++ [10]) else None.

(** ** Close *)

Record nativeTun : Type := { n_once : bool; n_routeSocket : Z; n_eventsClosed : bool }.
(** macOS and OpenBSD: what the first Close does, by the answers of closing the file and the
    socket: the descriptors that are closed, and the error. *)
Definition Close (p : platform) (file : Z) (err1 err2 : option Z) (t : nativeTun) : nativeTun * list Z * option Z :=
  if n_once t then (t, [], None)
  else
    let first e1 e2 : option Z := match e1 with Some e => Some e | None => e2 end in
    if negb (n_routeSocket t =? -1) then
      ({| n_once := true; n_routeSocket := if bool_decide (p = darwin) then n_routeSocket t else -1; n_eventsClosed := n_eventsClosed t |}, [file; n_routeSocket t], first err1 err2)
    else ({| n_once := true; n_routeSocket := n_routeSocket t; n_eventsClosed := true |}, [file], err1).

(** ** The operations of each platform *)

Module Darwin.
Definition CreateTUNFromFile := CreateTUNFromFile darwin.
Definition setMTU := setMTU.
Definition MTU := MTU.
Definition Close := Close darwin.
End Darwin.
Module FreeBSD.
Definition routineRouteListener := routineRouteListener freebsd.
Definition Read := Read.
Definition MTU := MTU.
End FreeBSD.
Module OpenBSD.
Definition CreateTUNFromFile := CreateTUNFromFile openbsd.
Definition Read := Read.
Definition Write := Write openbsd.
Definition setMTU := setMTU.
Definition Close := Close openbsd.
End OpenBSD.

(** * Theorems *)

(** ** Names *)

Lemma stripPrefix_app p s : stripPrefix p (p ++ s) = Some s.
Proof. induction p as [|x p IH]; [done|]. cbn. by rewrite Z.eqb_refl. Qed.
Lemma digits_app ds junk : Forall (fun c => is_digit c = true) ds -> (forall c, head junk = Some c -> is_digit c = false) -> digits (ds ++ junk) = ds.
Proof.
  intros H Hj. induction H as [|c ds Hc _ IH]; cbn; [|by rewrite Hc, IH]. destruct junk as [|c junk]; [done|]. cbn. by rewrite (Hj c).
Qed.
Lemma scan_digits ds junk v : Forall (fun c => is_digit c = true) ds -> ds <> [] -> (forall c, head junk = Some c -> is_digit c = false) -> parse_digits (2 ^ 63 - 1) 0 ds = Some v ->
  skipSpace (ds ++ junk) = Some (ds ++ junk) /\ scanInt (ds ++ junk) = Some v.
Proof.
  intros H Hn Hj Hp. destruct ds as [|c ds]; [done|]. pose proof H as [Hc _]%Forall_cons. pose proof (digits_app _ _ H Hj) as Hd. unfold is_digit in Hc.
  assert (48 <= c <= 57) as Hr by lia. split.
  - cbn. rewrite (proj2 (Z.eqb_neq c 10)) by lia. rewrite !(proj2 (Z.eqb_neq c _)) by lia. done.
  - unfold scanInt. cbn [app] in *. rewrite !(proj2 (Z.eqb_neq c _)) by lia. cbn [orb]. rewrite Hd.
    assert (c ∈ seqZ 48 10) as Hs by (apply elem_of_seqZ; lia). cbn in Hs. repeat (apply elem_of_cons in Hs as [->|Hs]; [exact Hp|]). by apply elem_of_nil in Hs.
Qed.

(** A name is the prefix and a number, and then anything: what follows the digits is not
    looked at. The bare prefix asks for any interface. *)
Theorem interface_name (prefix junk : list Z) (n : Z) : 0 <= n < 2 ^ 63 -> (forall c, head junk = Some c -> is_digit c = false) ->
  ifIndexOf prefix (prefix ++ Itoa n ++ junk) = Some n /\ ifIndexOf prefix prefix = Some (-1).
Proof.
  intros Hn Hj. unfold ifIndexOf. split; [|by rewrite decide_True]. assert (Itoa n <> []) as Hne by (apply Itoa_nonempty; lia). rewrite decide_False.
  2:{ intros E. apply (f_equal length) in E. rewrite !length_app in E. destruct (Itoa n); [done|]. cbn in E. lia. }
  pose proof (ParseUint_Itoa n 63 ltac:(lia) Hn) as HP. unfold ParseUint in HP. rewrite decide_False in HP by done.
  destruct (scan_digits (Itoa n) junk n (Itoa_digits n ltac:(lia)) Hne Hj HP) as [H1 H2]. unfold Sscanf. rewrite stripPrefix_app. cbn [mbind option_bind]. rewrite H1. cbn [mbind option_bind]. rewrite H2. cbn [mbind option_bind].
  by rewrite (proj2 (Z.ltb_ge n 0)) by lia.
Qed.
Lemma interface_name_witness : ifIndexOf (str "utun") (str "utun3abc") = Some 3.
Proof. apply (interface_name (str "utun") (str "abc") 3); [lia|]. by intros c [= <-]. Defined.

(** The unit asked for is the number and one; only the bare name and the largest numbers of 32
    bits ask for any. *)
Theorem unit_of_interface (n : Z) : 0 <= n < 2 ^ 63 -> unitOf (-1) = 0 /\ (n < 2 ^ 32 - 1 -> unitOf n = n + 1) /\ (unitOf n = 0 <-> (n + 1) mod 2 ^ 32 = 0).
Proof.
  intros Hn. unfold unitOf, u32. split_and!; [done|intros H; rewrite (Z.mod_small n) by lia; apply Z.mod_small; lia|]. by rewrite Zplus_mod_idemp_l.
Qed.
Example last_unit_is_any : ifIndexOf (str "utun") (str "utun4294967295") = Some 4294967295 /\ unitOf 4294967295 = 0.
Proof. done. Qed.

(** ** The free device *)

Lemma openFree_spec open fuel : forall i last k, (forall j, i <= j < k -> open j = Err EBUSY) -> i <= k < i + Z.of_nat fuel -> open k <> Err EBUSY -> openFree open fuel i last = open k.
Proof.
  induction fuel as [|fuel IH]; intros i last k Hb Hk Hn; [lia|]. cbn [openFree]. destruct (decide (i = k)) as [->|Hne].
  - destruct (open k) as [fd|e]; [done|]. destruct (Z.eqb_spec e EBUSY) as [->|]; done.
  - rewrite Hb by lia. cbn. apply IH; [intros j Hj; apply Hb; lia|lia|done].
Qed.
Lemma openFree_busy open fuel : forall i last, (forall j, i <= j < i + Z.of_nat fuel -> open j = Err EBUSY) -> (fuel <> O -> openFree open fuel i last = Err EBUSY).
Proof.
  induction fuel as [|fuel IH]; intros i last Hb Hf; [done|]. cbn [openFree]. rewrite Hb by lia. cbn. destruct fuel as [|fuel]; [done|]. apply IH; [intros j Hj; apply Hb; lia|done].
Qed.
(** Without a number the first of the 256 devices that is not busy is opened; its error, if it
    has one, is returned, and that it is busy when all are. *)
Theorem openbsd_free_device (open : Z -> result Z Z) : (forall k, 0 <= k < 256 -> (forall j, 0 <= j < k -> open j = Err EBUSY) -> open k <> Err EBUSY -> openTun open (-1) = open k) /\
  ((forall j, 0 <= j < 256 -> open j = Err EBUSY) -> openTun open (-1) = Err EBUSY) /\ (forall i, 0 <= i -> openTun open i = open i).
Proof.
  split_and!.
  - intros k Hk Hb Hn. apply openFree_spec; [done|lia|done].
  - intros Hb. by apply openFree_busy.
  - intros i Hi. unfold openTun. by rewrite (proj2 (Z.eqb_neq i (-1))) by lia.
Qed.

(** ** Descriptors *)

(** Creating a device leaves the file and the routing socket open, and nothing when it fails. *)
Theorem create_descriptors (e : createEnv) (name : list Z) (mtu : Z) : (forall fd, c_socket e = Ok fd -> freshFds (c_dev e) fd) -> (forall i fd, c_open e i = Ok fd -> freshFds (c_dev e) fd) ->
  leaves [] (CreateTUN_darwin e name mtu) (fun d => [d.1; d.2]) [] /\ leaves [] (CreateTUN_openbsd e name mtu) (fun d => [d.1; d.2]) [].
Proof.
  intros Hs Ho. split.
  - unfold CreateTUN_darwin. destruct (ifIndexOf _ _) as [i|]; [|by apply leaves_fail]. apply leaves_open; [done|]. intros fd Hfd. cbn [app].
    assert (after [fd] [Closed fd] = []) as Hc by apply (close_again []), not_elem_of_nil.
    do 3 (apply (leaves_bind _ _ _ [fd]); [apply (leaves_clean _ _ _ _ _ [fd]); [apply leaves_check|exact Hc]|intros _]). by apply setup_descriptors, Hs.
  - unfold CreateTUN_openbsd. destruct (ifIndexOf _ _) as [i|]; [|by apply leaves_fail]. apply leaves_open; [done|]. intros fd Hfd. cbn [app]. apply setup_descriptors.
    assert (forall fuel k last, (forall fd, last <> Ok fd) -> openFree (c_open e) fuel k last = Ok fd -> exists j, c_open e j = Ok fd) as Hof.
    { induction fuel as [|fuel IH]; intros k last Hl H; [by apply Hl in H|]. cbn in H. destruct (c_open e k) as [fd'|er] eqn:E; [injection H as ->; eauto|]. destruct (er =? EBUSY); [|done]. by eapply IH; [|exact H]. }
    unfold openTun in Hfd. destruct (negb _); [by apply (Ho i)|]. apply Hof in Hfd as [j Hj]; [by apply (Ho j)|done].
Qed.

(** Close closes both descriptors once and reports the first error; later calls do nothing. *)
Theorem bsd_close (p : platform) (file sock : Z) (err1 err2 err3 err4 : option Z) : sock <> -1 ->
  let t := {| n_once := false; n_routeSocket := sock; n_eventsClosed := false |} in
  let '(t', fds, err) := Close p file err1 err2 t in
  fds = [file; sock] /\ err = match err1 with Some e => Some e | None => err2 end /\ Close p file err3 err4 t' = (t', [], None).
Proof. intros Hs. unfold Close. cbn. rewrite (proj2 (Z.eqb_neq sock (-1))) by done. done. Qed.

(** When the descriptor cannot be reached, the name is empty and no error is returned; the
    error is left for a reader of the device. Before the device has a channel the program
    waits for ever. *)
Theorem unreachable_name (e : Z) (control : option Z) (answer : result (list Z) Z) :
  Name_darwin [] (Some e) control answer = Some (Ok [], [e]) /\ Name_freebsd [] (Some e) control answer = Some (Ok [], [e]) /\ assignedName (Some e) control answer = None.
Proof. done. Qed.

(** The request that sets an MTU has 32 bytes for names of up to 16 bytes, and the name can be
    read back when it is shorter. *)
Theorem ifreq_name (be : bool) (name : list Z) (n : Z) : len name < 16 -> Forall (fun c => c <> 0) name -> len (ifreqMtu be name n) = 32 /\ byteSliceToString (take 16 (ifreqMtu be name n)) = name.
Proof.
  intros Hl Hz. unfold ifreqMtu. assert (length name < 16)%nat as Hl' by (unfold len in Hl; lia). rewrite inserts_0 by (rewrite length_replicate; lia). split.
  - rewrite !len_app, len_native. unfold len. rewrite length_drop, !length_replicate. lia.
  - rewrite take_app_length' by (rewrite length_app, length_drop, length_replicate; lia). rewrite drop_replicate. destruct (16 - length name)%nat as [|k] eqn:Ek; [lia|]. cbn [replicate]. clear - Hz.
    induction Hz as [|c name Hc _ IH]; cbn; [done|]. rewrite (proj2 (Z.eqb_neq c 0)) by done. by rewrite IH.
Qed.
