(* ===== verification/WinRing.v ===== *)
(** * WinRing: the bind of Windows (src/conn/bind_windows.go)

    Each family has a ring of 1024 packets for receiving and one for sending, in memory that
    the kernel writes to and reads from. Push takes the slot behind the tail for a request,
    Return gives back the oldest slots when the kernel has completed them. The answers of
    the registered I/O functions (package winrio, which calls into a library of the system)
    are arguments. *)
From S2P Require Import Prelude GoLib NetIP Checksum.
#[local] Open Scope Z_scope.

Definition packetsPerRing : Z := 1024.
Definition bytesPerPacket : Z := 2048 - 32.
Definition receiveSpins : nat := 15.
Definition AF_INET : Z := 2.
Definition AF_INET6 : Z := 23.
Definition WSAEMSGSIZE : Z := 10040.

Inductive winError : Type := ErrNetClosed | ErrShortBuffer | ErrNoProgress | ErrSys (e : Z) | ErrBindAlreadyOpen | ErrWrongEndpointType.

(** ** Endpoints *)

(** A socket address: the family and the 30 bytes behind it. *)
Record WinRingEndpoint : Type := { we_family : Z; we_data : list Z }.

Definition DstIP (e : WinRingEndpoint) : option Addr :=
  if we_family e =? AF_INET then Some (mkAddr (take 4 (drop 2 (we_data e))) [])
  else if we_family e =? AF_INET6 then Some (mkAddr (take 16 (drop 6 (we_data e))) [])
  else None.

Definition DstToBytes (e : WinRingEndpoint) : list Z :=
  let port := [nth 1 (we_data e) 0; nth 0 (we_data e) 0] in
  if we_family e =? AF_INET then take 4 (drop 2 (we_data e)) ++ port
  else if we_family e =? AF_INET6 then take 16 (drop 6 (we_data e)) ++ port
  else [].

(** binary.BigEndian.Uint16(e.data[0:2]), as DstToString prints it. *)
Definition DstPort (e : WinRingEndpoint) : Z := be_val (take 2 (we_data e)).

(** ** The ring *)

Record ringPacket : Type := { rp_addr : WinRingEndpoint; rp_data : list Z }.
Definition sizeofRingPacket : Z := 2048.
Definition sizeofEndpoint : Z := 32.

(** [mem] is the memory at [packets]: the packet at each offset that has one. *)
Record ringBuffer : Type := {
  packets : Z;
  mem : gmap Z ringPacket;
  head : Z;
  tail : Z;
  id : Z;
  iocp : Z;
  isFull : bool;
  cq : Z
}.
Definition with_ring (h t : Z) (full : bool) (rb : ringBuffer) : ringBuffer :=
  {| packets := packets rb; mem := mem rb; head := h; tail := t; id := id rb; iocp := iocp rb; isFull := full; cq := cq rb |}.
Definition with_mem (m : gmap Z ringPacket) (rb : ringBuffer) : ringBuffer :=
  {| packets := packets rb; mem := m; head := head rb; tail := tail rb; id := id rb; iocp := iocp rb; isFull := isFull rb; cq := cq rb |}.
Definition with_handles (p i o c : Z) (rb : ringBuffer) : ringBuffer :=
  {| packets := p; mem := mem rb; head := head rb; tail := tail rb; id := i; iocp := o; isFull := isFull rb; cq := c |}.

(** The offset of the packet, or [None] for the panic. *)
Definition Push (rb : ringBuffer) : option (Z * ringBuffer) :=
  if isFull rb then None
  else
    let ret := tail rb mod packetsPerRing * sizeofRingPacket in
    let tail' := u32 (tail rb + 1) in
    Some (ret, with_ring (head rb) tail' (if tail' mod packetsPerRing =? head rb mod packetsPerRing then true else isFull rb) rb).

Definition Return (count : Z) (rb : ringBuffer) : ringBuffer :=
  if (head rb mod packetsPerRing =? tail rb mod packetsPerRing) && negb (isFull rb) then rb
  else with_ring (u32 (head rb + count)) (tail rb) false rb.

(** CloseAndZero: the handles and the memory are given back and the fields cleared. *)
Definition ringCloseAndZero (rb : ringBuffer) : ringBuffer :=
  {| packets := 0; mem := ∅; head := 0; tail := 0; id := 0; iocp := 0; isFull := false; cq := 0 |}.

(** What the four calls of Open return. *)
Record ringAnswers : Type := { an_alloc : result Z Z; an_register : result Z Z; an_port : result Z Z; an_queue : result Z Z }.

(** A call that fails returns the zero handle, which is stored. *)
Definition ringOpen (a : ringAnswers) (rb : ringBuffer) : ringBuffer * option winError :=
  match an_alloc a with
  | Err e => (with_handles 0 (id rb) (iocp rb) (cq rb) rb, Some (ErrSys e))
  | Ok p =>
      match an_register a with
      | Err e => (with_handles p 0 (iocp rb) (cq rb) rb, Some (ErrSys e))
      | Ok i =>
          match an_port a with
          | Err e => (with_handles p i 0 (cq rb) rb, Some (ErrSys e))
          | Ok o =>
              match an_queue a with
              | Err e => (with_handles p i o 0 rb, Some (ErrSys e))
              | Ok c => (with_handles p i o c rb, None)
              end
          end
      end
  end.

(** ** One family *)

Record afWinRingBind : Type := { sock : Z; rx : ringBuffer; tx : ringBuffer; rq : Z; blackhole : bool }.
Definition with_rx (r : ringBuffer) (b : afWinRingBind) : afWinRingBind := {| sock := sock b; rx := r; tx := tx b; rq := rq b; blackhole := blackhole b |}.
Definition with_tx (t : ringBuffer) (b : afWinRingBind) : afWinRingBind := {| sock := sock b; rx := rx b; tx := t; rq := rq b; blackhole := blackhole b |}.

Definition afCloseAndZero (b : afWinRingBind) : afWinRingBind :=
  {| sock := 0; rx := ringCloseAndZero (rx b); tx := ringCloseAndZero (tx b); rq := rq b; blackhole := false |}.

(** A request to the kernel: where the data and the address are, and the context that comes
    back with the completion. *)
Record request : Type := { rq_dataOffset : Z; rq_dataLength : Z; rq_addrOffset : Z; rq_addrLength : Z; rq_context : Z }.
Definition requestAt (packet length context : Z) : request :=
  {| rq_dataOffset := packet + sizeofEndpoint; rq_dataLength := length; rq_addrOffset := packet; rq_addrLength := sizeofEndpoint; rq_context := context |}.

(** The request and what ReceiveEx answers. *)
Definition InsertReceiveRequest (receiveEx : option Z) (b : afWinRingBind) : option (afWinRingBind * request * option winError) :=
  '(packet, r) ← Push (rx b);
  Some (with_rx r b, requestAt packet bytesPerPacket packet, ErrSys <$> receiveEx).

(** *** Receive *)

(** One round: isOpen and the number of completions at each try; the answers of the wait;
    the completion, with the packet the kernel has stored; and the answer to the request
    that is posted again. *)
Record recvAnswers : Type := {
  ra_try : nat -> bool * Z;
  ra_notify : option Z;
  ra_wait : option Z;
  ra_openWait : bool;
  ra_countWait : Z;
  ra_status : Z;
  ra_bytes : Z;
  ra_context : Z;
  ra_packet : ringPacket;
  ra_receiveEx : option Z;
  ra_openRetry : bool
}.

Fixpoint spin (fuel : nat) (tries : nat) (try_ : nat -> bool * Z) : result Z winError :=
  match fuel with
  | O => Ok 0
  | S fuel =>
      let '(open, count) := try_ tries in
      if (0 <? tries)%nat && negb open then Err ErrNetClosed
      else if count =? 0 then spin fuel (S tries) try_ else Ok count
  end.

Definition waitCompletion (a : recvAnswers) : result unit winError :=
  match spin receiveSpins 0 (ra_try a) with
  | Err e => Err e
  | Ok count =>
      if negb (count =? 0) then Ok tt
      else match ra_notify a with
           | Some e => Err (ErrSys e)
           | None => match ra_wait a with
                     | Some e => Err (ErrSys e)
                     | None => if negb (ra_openWait a) then Err ErrNetClosed else if ra_countWait a =? 0 then Err ErrNoProgress else Ok tt
                     end
           end
  end.

(** [RecvWaiting]: the rounds are used up and the routine waits for the next completion. *)
Inductive received : Type :=
| RecvWaiting (b : afWinRingBind)
| RecvPanic
| RecvDone (b : afWinRingBind) (posted : list request) (r : result (list Z * WinRingEndpoint) winError).

Fixpoint receiveLoop (bufLen : Z) (rounds : list recvAnswers) (b : afWinRingBind) (posted : list request) : received :=
  match rounds with
  | [] => RecvWaiting b
  | a :: rounds =>
      match waitCompletion a with
      | Err e => RecvDone b posted (Err e)
      | Ok _ =>
          let b := with_rx (Return 1 (with_mem (<[ra_context a := ra_packet a]> (mem (rx b))) (rx b))) b in
          match InsertReceiveRequest (ra_receiveEx a) b with
          | None => RecvPanic
          | Some (b, req, err) =>
              let posted := posted ++ [req] in
              match err with
              | Some e => RecvDone b posted (Err e)
              | None =>
                  if ra_status a =? WSAEMSGSIZE then
                    if ra_openRetry a then receiveLoop bufLen rounds b posted else RecvDone b posted (Err ErrNetClosed)
                  else if negb (ra_status a =? 0) then RecvDone b posted (Err (ErrSys (ra_status a)))
                  else match mem (rx b) !! ra_context a with
                       | None => RecvPanic
                       | Some p => RecvDone b posted (Ok (take (Z.to_nat bufLen) (take (Z.to_nat (ra_bytes a)) (rp_data p)), rp_addr p))
                       end
              end
          end
      end
  end.

Definition afReceive (open : bool) (bufLen : Z) (rounds : list recvAnswers) (b : afWinRingBind) : received :=
  if negb open then RecvDone b [] (Err ErrNetClosed) else receiveLoop bufLen rounds b [].

(** *** Send *)

Record sendAnswers : Type := {
  sa_open : bool;
  sa_count : Z;
  sa_notify : option Z;
  sa_wait : option Z;
  sa_openWait : bool;
  sa_countWait : Z;
  sa_sendEx : option Z
}.

(** The completions that are dequeued; when there are none and the ring is full, the wait. *)
Definition dequeueSent (a : sendAnswers) (full : bool) : result Z winError :=
  if (sa_count a =? 0) && full then
    match sa_notify a with
    | Some e => Err (ErrSys e)
    | None => match sa_wait a with
              | Some e => Err (ErrSys e)
              | None => if negb (sa_openWait a) then Err ErrNetClosed else if sa_countWait a =? 0 then Err ErrNoProgress else Ok (sa_countWait a)
              end
    end
  else Ok (sa_count a).

(** The packet that is copied into the slot: the data in front of what was there. *)
Definition fillPacket (nend : WinRingEndpoint) (buf : list Z) (old : option ringPacket) : ringPacket :=
  {| rp_addr := nend; rp_data := buf ++ drop (length buf) (default (replicate (Z.to_nat bytesPerPacket) 0) (rp_data <$> old)) |}.

Definition afSend (buf : list Z) (nend : WinRingEndpoint) (a : sendAnswers) (b : afWinRingBind) : option (afWinRingBind * list request * option winError) :=
  if negb (sa_open a) then Some (b, [], Some ErrNetClosed)
  else if bytesPerPacket <? len buf then Some (b, [], Some ErrShortBuffer)
  else
    match dequeueSent a (isFull (tx b)) with
    | Err e => Some (b, [], Some e)
    | Ok count =>
        let t := if 0 <? count then Return count (tx b) else tx b in
        '(packet, t) ← Push t;
        let t := with_mem (<[packet := fillPacket nend buf (mem t !! packet)]> (mem t)) t in
        Some (with_tx t b, [requestAt packet (len buf) 0], ErrSys <$> sa_sendEx a)
    end.

(** ** Both families *)

Record WinRingBind : Type := { v4 : afWinRingBind; v6 : afWinRingBind; isOpen : Z }.
Definition zeroRing : ringBuffer := {| packets := 0; mem := ∅; head := 0; tail := 0; id := 0; iocp := 0; isFull := false; cq := 0 |}.
Definition zeroFamily : afWinRingBind := {| sock := 0; rx := zeroRing; tx := zeroRing; rq := 0; blackhole := false |}.
Definition newWinRingBind : WinRingBind := {| v4 := zeroFamily; v6 := zeroFamily; isOpen := 0 |}.
Definition closeAndZero (b : WinRingBind) : WinRingBind := {| v4 := afCloseAndZero (v4 b); v6 := afCloseAndZero (v6 b); isOpen := 0 |}.

Record afAnswers : Type := {
  af_socket : result Z Z; af_rx : ringAnswers; af_tx : ringAnswers; af_rq : result Z Z; af_bind : Z -> option Z; af_getsockname : Z -> result Z Z
}.
(** The port the socket is bound to, or an error. *)
Definition afOpen (a : afAnswers) (port : Z) (b : afWinRingBind) : afWinRingBind * result Z winError :=
  match af_socket a with
  | Err e => ({| sock := 0; rx := rx b; tx := tx b; rq := rq b; blackhole := blackhole b |}, Err (ErrSys e))
  | Ok s =>
      let '(r, err) := ringOpen (af_rx a) (rx b) in
      let b := {| sock := s; rx := r; tx := tx b; rq := rq b; blackhole := blackhole b |} in
      match err with
      | Some e => (b, Err e)
      | None =>
          let '(t, err) := ringOpen (af_tx a) (tx b) in
          let b := with_tx t b in
          match err with
          | Some e => (b, Err e)
          | None =>
              match af_rq a with
              | Err e => ({| sock := s; rx := rx b; tx := tx b; rq := 0; blackhole := blackhole b |}, Err (ErrSys e))
              | Ok q =>
                  let b := {| sock := s; rx := rx b; tx := tx b; rq := q; blackhole := blackhole b |} in
                  match af_bind a port with
                  | Some e => (b, Err (ErrSys e))
                  | None => (b, match af_getsockname a port with Ok p => Ok p | Err e => Err (ErrSys e) end)
                  end
              end
          end
      end
  end.

(** The loop that posts a request for every packet of both rings. *)
Fixpoint insertAll (n : nat) (i : nat) (recvEx4 recvEx6 : nat -> option Z) (b4 b6 : afWinRingBind) : option (afWinRingBind * afWinRingBind * option winError) :=
  match n with
  | O => Some (b4, b6, None)
  | S n =>
      '(b4, _, err) ← InsertReceiveRequest (recvEx4 i) b4;
      match err with
      | Some e => Some (b4, b6, Some e)
      | None =>
          '(b6, _, err) ← InsertReceiveRequest (recvEx6 i) b6;
          match err with Some e => Some (b4, b6, Some e) | None => insertAll n (S i) recvEx4 recvEx6 b4 b6 end
      end
  end.

(** Open; every error runs the deferred closeAndZero. *)
Definition Open (a4 a6 : afAnswers) (recvEx4 recvEx6 : nat -> option Z) (port : Z) (b : WinRingBind) : option (WinRingBind * result Z winError) :=
  let failed b e := Some (closeAndZero b, Err e) in
  if negb (isOpen b =? 0) then failed b ErrBindAlreadyOpen
  else
    let '(f4, r) := afOpen a4 port (v4 b) in
    match r with
    | Err e => failed {| v4 := f4; v6 := v6 b; isOpen := isOpen b |} e
    | Ok port4 =>
        let '(f6, r) := afOpen a6 port4 (v6 b) in
        match r with
        | Err e => failed {| v4 := f4; v6 := f6; isOpen := isOpen b |} e
        | Ok port6 =>
            '(f4, f6, err) ← insertAll (Z.to_nat packetsPerRing) 0 recvEx4 recvEx6 f4 f6;
            match err with
            | Some e => failed {| v4 := f4; v6 := f6; isOpen := isOpen b |} e
            | None => Some ({| v4 := f4; v6 := f6; isOpen := 1 |}, Ok (u16 port6))
            end
        end
    end.

Definition Close (b : WinRingBind) : WinRingBind := if negb (isOpen b =? 1) then b else closeAndZero b.

(** Send: the buffers one by one; a family that is neither IPv4 nor IPv6 is passed over. *)
Fixpoint Send (bufs : list (list Z * sendAnswers)) (nend : WinRingEndpoint) (b : WinRingBind) : option (WinRingBind * list request * option winError) :=
  match bufs with
  | [] => Some (b, [], None)
  | (buf, a) :: bufs =>
      let family := if we_family nend =? AF_INET then Some true else if we_family nend =? AF_INET6 then Some false else None in
      match family with
      | None => Send bufs nend b
      | Some is4 =>
          let f := if (is4 : bool) then v4 b else v6 b in
          if blackhole f then Send bufs nend b
          else
            '(f, posted, err) ← afSend buf nend a f;
            let b := if is4 then {| v4 := f; v6 := v6 b; isOpen := isOpen b |} else {| v4 := v4 b; v6 := f; isOpen := isOpen b |} in
            match err with
            | Some e => Some (b, posted, Some e)
            | None => '(b, rest, err) ← Send bufs nend b; Some (b, posted ++ rest, err)
            end
      end
  end.

(** The index of IP_UNICAST_IF is in network byte order, on a machine of order [be]. *)
Definition bindSocketToInterface4 (be : bool) (interfaceIndex : Z) : Z := nativeUint be (be_bytes 4 interfaceIndex).

(** ** The ring is a queue of slots *)

Definition ring_ok (rb : ringBuffer) : Prop :=
  is_u32 (head rb) /\ is_u32 (tail rb) /\ (isFull rb = true -> tail rb mod packetsPerRing = head rb mod packetsPerRing).

(** The slots in use, the oldest first. *)
Definition used (rb : ringBuffer) : Z := if isFull rb then packetsPerRing else (tail rb - head rb) mod packetsPerRing.
Definition slots (rb : ringBuffer) : list Z := (fun i => (head rb + Z.of_nat i) mod packetsPerRing) <$> seq 0 (Z.to_nat (used rb)).

Lemma u32_mod x : u32 x mod packetsPerRing = x mod packetsPerRing.
Proof. unfold u32, packetsPerRing. rewrite Z.mod_mod_divide; [done|]. by exists (2 ^ 22). Qed.

Lemma used_range rb : 0 <= used rb <= packetsPerRing.
Proof. unfold used, packetsPerRing. destruct (isFull rb); [lia|]. pose proof (Z.mod_pos_bound (tail rb - head rb) 1024). lia. Qed.

Lemma length_slots rb : Z.of_nat (length (slots rb)) = used rb.
Proof. unfold slots. rewrite length_fmap, length_seq. pose proof (used_range rb). lia. Qed.

(** The slot behind the tail is not in use unless the ring is full. *)
Lemma tail_free rb : isFull rb = false -> tail rb mod packetsPerRing ∉ slots rb.
Proof.
  intros Hf Hin. unfold slots in Hin. apply list_elem_of_fmap in Hin as (i & Hi & Hin). apply elem_of_seq in Hin. unfold used in Hin. rewrite Hf in Hin. unfold packetsPerRing in *.
  Z.div_mod_to_equations. lia.
Qed.

Lemma Push_spec rb : ring_ok rb -> isFull rb = false -> exists rb', Push rb = Some (tail rb mod packetsPerRing * sizeofRingPacket, rb') /\ ring_ok rb' /\
  slots rb' = slots rb ++ [tail rb mod packetsPerRing] /\ mem rb' = mem rb.
Proof.
  intros (Hh & Ht & _) Hf. unfold Push. rewrite Hf. eexists. split; [done|]. set (t' := u32 (tail rb + 1)).
  assert (t' mod packetsPerRing = (tail rb + 1) mod packetsPerRing) as Et by apply u32_mod.
  assert (is_u32 t') as Ht' by apply u32_range. split; [|split; [|done]].
  - split_and!; [done|done|]. cbn. destruct (Z.eqb_spec (t' mod packetsPerRing) (head rb mod packetsPerRing)); done.
  - assert (used (with_ring (head rb) t' (if t' mod packetsPerRing =? head rb mod packetsPerRing then true else false) rb) = used rb + 1) as Hu.
    { unfold used. cbn. rewrite Hf. destruct (Z.eqb_spec (t' mod packetsPerRing) (head rb mod packetsPerRing)) as [E|E]; cbn; rewrite Et in E.
      - unfold packetsPerRing in *. Z.div_mod_to_equations. lia.
      - rewrite Zminus_mod, Et, <- Zminus_mod. unfold packetsPerRing in *. Z.div_mod_to_equations. lia. }
    unfold slots. rewrite Hu. cbn [head with_ring]. pose proof (used_range rb). rewrite Z2Nat.inj_add, seq_app, fmap_app by lia. f_equal.
    change (Z.to_nat 1) with 1%nat. rewrite Nat.add_0_l. cbn [seq fmap list_fmap]. f_equal. rewrite Z2Nat.id by lia. unfold used in *. rewrite Hf in *. unfold packetsPerRing in *. Z.div_mod_to_equations. lia.
Qed.

Lemma Return_spec c rb : ring_ok rb -> 0 < c <= used rb ->
  ring_ok (Return c rb) /\ slots (Return c rb) = drop (Z.to_nat c) (slots rb) /\ isFull (Return c rb) = false /\ mem (Return c rb) = mem rb.
Proof.
  intros (Hh & Ht & Hfull) Hc. assert (Return c rb = with_ring (u32 (head rb + c)) (tail rb) false rb) as ->.
  { unfold Return. destruct (isFull rb) eqn:Hf; [by rewrite andb_false_r|]. destruct (Z.eqb_spec (head rb mod packetsPerRing) (tail rb mod packetsPerRing)) as [E|]; [|done].
    unfold used in Hc. rewrite Hf in Hc. unfold packetsPerRing in *. Z.div_mod_to_equations. lia. }
  split; [split_and!; [apply u32_range|done|done]|]. split; [|done].
  assert (used (with_ring (u32 (head rb + c)) (tail rb) false rb) = used rb - c) as Hu.
  { unfold used at 1. cbn. rewrite Zminus_mod, u32_mod, <- Zminus_mod. unfold used in *. destruct (isFull rb); [specialize (Hfull eq_refl)|]; unfold packetsPerRing in *; Z.div_mod_to_equations; lia. }
  unfold slots. rewrite Hu, <- fmap_drop, drop_seq. cbn [head with_ring]. replace (Z.to_nat (used rb) - Z.to_nat c)%nat with (Z.to_nat (used rb - c)) by lia.
  rewrite Nat.add_0_l. rewrite <- (Nat.add_0_r (Z.to_nat c)), <- fmap_add_seq, <- list_fmap_compose. apply list_fmap_ext. intros i x _. unfold compose.
  rewrite <- Zplus_mod_idemp_l, u32_mod, Zplus_mod_idemp_l. f_equal. lia.
Qed.

Lemma full_used rb : isFull rb = true <-> used rb = packetsPerRing.
Proof. unfold used, packetsPerRing. destruct (isFull rb); [done|]. split; [done|]. pose proof (Z.mod_pos_bound (tail rb - head rb) 1024). lia. Qed.
Lemma slots_range rb s : s ∈ slots rb -> 0 <= s < packetsPerRing.
Proof. unfold slots. intros (i & -> & _)%list_elem_of_fmap. unfold packetsPerRing. apply Z.mod_pos_bound. lia. Qed.

(** ** Sending never touches a packet the kernel may still read *)

(** The completions of the answers are for requests that are outstanding. *)
Definition counts_ok (a : sendAnswers) (rb : ringBuffer) : Prop := 0 <= sa_count a <= used rb /\ 0 <= sa_countWait a <= used rb.

(** The ring after the completions: there is room, and what is left is what was left. *)
Lemma completed_spec a rb count : ring_ok rb -> counts_ok a rb -> dequeueSent a (isFull rb) = Ok count ->
  let t := if 0 <? count then Return count rb else rb in
  ring_ok t /\ isFull t = false /\ slots t = drop (Z.to_nat count) (slots rb) /\ mem t = mem rb /\ 0 <= count <= used rb.
Proof.
  intros Hok [H1 H2] Hd. assert (0 <= count <= used rb /\ (count = 0 -> isFull rb = false)) as [Hc Hf].
  { unfold dequeueSent in Hd. destruct (Z.eqb_spec (sa_count a) 0) as [E|E]; cbn [andb] in Hd; [|injection Hd as <-; split; [lia|done]].
    destruct (isFull rb); [|injection Hd as <-; split; [lia|done]]. destruct (sa_notify a); [done|]. destruct (sa_wait a); [done|]. destruct (negb _); [done|].
    destruct (Z.eqb_spec (sa_countWait a) 0); [done|]. injection Hd as <-. split; [lia|done]. }
  cbv zeta. destruct (Z.ltb_spec 0 count) as [Hpos|Hz].
  - destruct (Return_spec count rb Hok ltac:(lia)) as (A & B & C & D). done.
  - assert (count = 0) as -> by lia. split_and!; try done; [by apply Hf|lia].
Qed.


(** A request that SendEx refuses has taken its slot all the same, and no completion will
    give it back. *)
Lemma refused_send_keeps_slot buf nend a b : ring_ok (tx b) -> isFull (tx b) = false -> sa_open a = true -> sa_count a = 0 -> len buf <= bytesPerPacket ->
  exists b' posted, afSend buf nend a b = Some (b', posted, ErrSys <$> sa_sendEx a) /\ ring_ok (tx b') /\ used (tx b') = used (tx b) + 1.
Proof.
  intros Hok Hf Ho Hc Hl. unfold afSend. rewrite Ho. cbn [negb]. rewrite (proj2 (Z.ltb_ge _ _)) by done. unfold dequeueSent. rewrite Hc, Hf. cbn [andb]. change (0 =? 0) with true. cbn [andb].
  change (0 <? 0) with false. cbv iota. destruct (Push_spec _ Hok Hf) as (t' & -> & P1 & P2 & _). cbn [mbind option_bind]. eexists _, _. split; [done|]. split; [exact P1|].
  rewrite <- !length_slots. change (slots (tx (with_tx (with_mem _ t') b))) with (slots t'). rewrite P2, length_app. cbn. lia.
Qed.

(** Once the ring is full of them, a send waits for a completion. *)
Lemma full_ring_waits buf nend a b : isFull (tx b) = true -> sa_open a = true -> sa_count a = 0 -> len buf <= bytesPerPacket -> sa_notify a = None ->
  forall e, sa_wait a = Some e -> afSend buf nend a b = Some (b, [], Some (ErrSys e)).
Proof.
  intros Hf Ho Hc Hl Hn e Hw. unfold afSend. rewrite Ho. cbn [negb]. rewrite (proj2 (Z.ltb_ge _ _)) by done. unfold dequeueSent. by rewrite Hc, Hf, Hn, Hw.
Qed.

(** A ring whose counters are about to wrap, with one completed request. *)
Definition sampleRing : ringBuffer :=
  {| packets := 1; mem := {[ 1022 * 2048 := {| rp_addr := {| we_family := AF_INET; we_data := [] |}; rp_data := [7] |}; 1023 * 2048 := {| rp_addr := {| we_family := AF_INET; we_data := [] |}; rp_data := [8] |} ]};
     head := 4294967294; tail := 0; id := 2; iocp := 3; isFull := false; cq := 4 |}.
Definition sampleFamily : afWinRingBind := {| sock := 5; rx := zeroRing; tx := sampleRing; rq := 6; blackhole := false |}.
Definition sampleAnswers : sendAnswers := {| sa_open := true; sa_count := 1; sa_notify := None; sa_wait := None; sa_openWait := true; sa_countWait := 0; sa_sendEx := None |}.

(** ** Receiving *)

(** The rounds see the completions in the order of the requests. *)
Fixpoint inOrder (rounds : list recvAnswers) (h : Z) : Prop :=
  match rounds with
  | [] => True
  | a :: rounds => waitCompletion a = Ok tt /\ ra_context a = h mod packetsPerRing * sizeofRingPacket /\ ra_receiveEx a = None /\ inOrder rounds (h + 1)
  end.

(** A round on a full ring: the slot of the completion is posted again and the ring is full
    again, one slot further. *)
Lemma receive_round a b posted bufLen rounds : ring_ok (rx b) -> isFull (rx b) = true -> waitCompletion a = Ok tt ->
  ra_context a = head (rx b) mod packetsPerRing * sizeofRingPacket -> ra_receiveEx a = None ->
  exists b', ring_ok (rx b') /\ isFull (rx b') = true /\ head (rx b') mod packetsPerRing = (head (rx b) + 1) mod packetsPerRing /\ tx b' = tx b /\
    mem (rx b') = <[ra_context a := ra_packet a]> (mem (rx b)) /\
    let posted' := posted ++ [requestAt (ra_context a) bytesPerPacket (ra_context a)] in
    receiveLoop bufLen (a :: rounds) b posted =
    if ra_status a =? WSAEMSGSIZE then (if ra_openRetry a then receiveLoop bufLen rounds b' posted' else RecvDone b' posted' (Err ErrNetClosed))
    else if negb (ra_status a =? 0) then RecvDone b' posted' (Err (ErrSys (ra_status a)))
    else RecvDone b' posted' (Ok (take (Z.to_nat bufLen) (take (Z.to_nat (ra_bytes a)) (rp_data (ra_packet a))), rp_addr (ra_packet a))).
Proof.
  intros Hok Hf Hw Hctx Hex. set (r0 := with_mem (<[ra_context a := ra_packet a]> (mem (rx b))) (rx b)).
  assert (ring_ok r0) as Hok0 by done. assert (used r0 = packetsPerRing) as Hu by (by apply full_used).
  destruct (Return_spec 1 r0 Hok0 ltac:(rewrite Hu; unfold packetsPerRing; lia)) as (R1 & R2 & R3 & R4).
  assert (Return 1 r0 = with_ring (u32 (head (rx b) + 1)) (tail (rx b)) false r0) as ER by (unfold Return; cbn; by rewrite Hf, andb_false_r).
  destruct (Push_spec _ R1 R3) as (r1 & Hp & P1 & P2 & P3). destruct Hok as (_ & _ & Heq). specialize (Heq Hf).
  assert (tail (Return 1 r0) mod packetsPerRing * sizeofRingPacket = ra_context a) as Et by (rewrite ER; cbn; by rewrite Heq, Hctx). rewrite Et in Hp.
  assert (used r1 = packetsPerRing) as Hu1.
  { rewrite <- length_slots, P2, length_app, R2, length_drop. pose proof (length_slots r0) as HL. rewrite Hu in HL. unfold packetsPerRing in *. cbn. lia. }
  exists (with_rx r1 b). split; [exact P1|]. split; [by apply full_used|]. split.
  { unfold Push in Hp. rewrite R3 in Hp. injection Hp as _ <-. cbn. rewrite ER. cbn. apply u32_mod. }
  split; [done|]. split; [cbn; by rewrite P3, R4|]. cbn [receiveLoop]. rewrite Hw. fold r0. unfold InsertReceiveRequest. cbn [rx with_rx]. rewrite Hp, Hex. cbn.
  destruct (ra_status a =? WSAEMSGSIZE); [done|]. destruct (negb _); [done|]. rewrite P3, R4. cbn. by rewrite lookup_insert_eq.
Qed.

(** On a full ring whose requests are completed in order, datagrams that are too large
    are passed over, and the first that fits is returned with its address, cut to the
    buffer; each round posts the slot of its completion again, so the ring stays full. The
    slot is posted before it is copied from. *)
Theorem win_receive bufLen big a rest b : ring_ok (rx b) -> isFull (rx b) = true -> inOrder (big ++ [a]) (head (rx b)) ->
  Forall (fun r => ra_status r = WSAEMSGSIZE /\ ra_openRetry r = true) big -> ra_status a = 0 ->
  exists b', ring_ok (rx b') /\ isFull (rx b') = true /\
    afReceive true bufLen (big ++ a :: rest) b =
    RecvDone b' ((fun r => requestAt (ra_context r) bytesPerPacket (ra_context r)) <$> (big ++ [a]))
      (Ok (take (Z.to_nat bufLen) (take (Z.to_nat (ra_bytes a)) (rp_data (ra_packet a))), rp_addr (ra_packet a))).
Proof.
  unfold afReceive. cbn [negb]. intros Hok Hf Hord Hbig Hst. rewrite <- (app_nil_l (_ <$> _)). generalize ([] : list request) as posted.
  assert (exists h, h mod packetsPerRing = head (rx b) mod packetsPerRing /\ inOrder (big ++ [a]) h) as (h & Hh & Ho) by (by exists (head (rx b))). clear Hord. revert b h Hok Hf Hh Ho.
  induction Hbig as [|r big [Hs Hr] _ IH]; intros b h Hok Hf Hh Ho posted; cbn [app inOrder] in *.
  - destruct Ho as (Hw & Hctx & Hex & _). destruct (receive_round a b posted bufLen rest Hok Hf Hw ltac:(by rewrite Hctx, Hh) Hex) as (b' & A & B & _ & _ & _ & E).
    exists b'. split; [done|]. split; [done|]. cbv zeta in E. rewrite E, Hst. done.
  - destruct Ho as (Hw & Hctx & Hex & Ho). destruct (receive_round r b posted bufLen (big ++ a :: rest) Hok Hf Hw ltac:(by rewrite Hctx, Hh) Hex) as (b1 & A & B & C & _ & _ & E).
    cbv zeta in E. rewrite E, Hs, Hr. change (WSAEMSGSIZE =? WSAEMSGSIZE) with true. cbv iota.
    destruct (IH b1 (h + 1) A B) with (posted := posted ++ [requestAt (ra_context r) bytesPerPacket (ra_context r)]) as (b' & D & F & G); [by rewrite C, <- Zplus_mod_idemp_l, Hh, Zplus_mod_idemp_l|done|].
    exists b'. split; [done|]. split; [done|]. rewrite G. by rewrite <- app_assoc.
Qed.

(** A datagram that is too large, then one of two bytes. *)
Definition sampleRound (status ctx : Z) (data : list Z) : recvAnswers :=
  {| ra_try := fun n => (true, if (n =? 2)%nat then 1 else 0); ra_notify := None; ra_wait := None; ra_openWait := true; ra_countWait := 0; ra_status := status; ra_bytes := 2;
     ra_context := ctx; ra_packet := {| rp_addr := {| we_family := AF_INET; we_data := [] |}; rp_data := data |}; ra_receiveEx := None; ra_openRetry := true |}.
Example sample_receive :
  match afReceive true 100 [sampleRound WSAEMSGSIZE 2095104 [9]; sampleRound 0 0 [1; 2; 3]]
          {| sock := 5; rx := with_ring 1023 2047 true zeroRing; tx := zeroRing; rq := 6; blackhole := false |} with
  | RecvDone b posted (Ok (data, _)) => Some (rq_context <$> posted, data, isFull (rx b))
  | _ => None
  end = Some ([2095104; 0], [1; 2], true).
Proof. by vm_compute. Qed.

(** ** Open and close *)

Definition zeroHandles (f : afWinRingBind) : Prop :=
  sock f = 0 /\ packets (rx f) = 0 /\ id (rx f) = 0 /\ iocp (rx f) = 0 /\ cq (rx f) = 0 /\ slots (rx f) = [] /\
  packets (tx f) = 0 /\ id (tx f) = 0 /\ iocp (tx f) = 0 /\ cq (tx f) = 0 /\ slots (tx f) = [].

Lemma zero_handles b : zeroHandles (v4 (closeAndZero b)) /\ zeroHandles (v6 (closeAndZero b)).
Proof. by repeat split. Qed.

Lemma insert_one x f : ring_ok (rx f) -> isFull (rx f) = false -> exists f' req, InsertReceiveRequest x f = Some (f', req, ErrSys <$> x) /\
  ring_ok (rx f') /\ used (rx f') = used (rx f) + 1 /\ tx f' = tx f.
Proof.
  intros Hok Hf. unfold InsertReceiveRequest. destruct (Push_spec _ Hok Hf) as (r & -> & P1 & P2 & _). cbn [mbind option_bind]. eexists _, _. split; [done|].
  split; [exact P1|]. split; [|done]. rewrite <- !length_slots. change (rx (with_rx r f)) with r. rewrite P2, length_app. cbn. lia.
Qed.

Lemma insertAll_spec x4 x6 n : forall i f4 f6, ring_ok (rx f4) -> ring_ok (rx f6) -> used (rx f4) + Z.of_nat n = packetsPerRing -> used (rx f6) + Z.of_nat n = packetsPerRing ->
  exists f4' f6' err, insertAll n i x4 x6 f4 f6 = Some (f4', f6', err) /\
    (err = None -> (ring_ok (rx f4') /\ isFull (rx f4') = true) /\ (ring_ok (rx f6') /\ isFull (rx f6') = true) /\ forall j, (j < n)%nat -> x4 (i + j)%nat = None /\ x6 (i + j)%nat = None).
Proof.
  induction n as [|n IH]; intros i f4 f6 H4 H6 U4 U6; cbn [insertAll].
  - exists f4, f6, None. split; [done|]. intros _. split_and!; try done; try (apply full_used; lia). intros; lia.
  - assert (forall rb, used rb + Z.of_nat (S n) = packetsPerRing -> isFull rb = false) as Hnf.
    { intros rb Hu. destruct (isFull rb) eqn:E; [|done]. apply full_used in E. lia. }
    destruct (insert_one (x4 i) f4 H4 (Hnf _ U4)) as (g4 & r4 & -> & A4 & B4 & _). cbn [mbind option_bind].
    destruct (x4 i) as [e|] eqn:E4; cbn [fmap option_fmap option_map]; [by eexists _, _, (Some _)|].
    destruct (insert_one (x6 i) f6 H6 (Hnf _ U6)) as (g6 & r6 & -> & A6 & B6 & _). cbn [mbind option_bind].
    destruct (x6 i) as [e|] eqn:E6; cbn [fmap option_fmap option_map]; [by eexists _, _, (Some _)|].
    destruct (IH (S i) g4 g6 A4 A6) as (f4' & f6' & err & Hi & Hs); [lia|lia|]. exists f4', f6', err. split; [done|]. intros He. destruct (Hs He) as (S1 & S2 & S3).
    split; [done|]. split; [done|]. intros [|j] Hj; [by rewrite Nat.add_0_r|]. replace (i + S j)%nat with (S i + j)%nat by lia. apply S3. lia.
Qed.

Lemma afOpen_ring a port f f' r : afOpen a port f = (f', r) -> slots (rx f) = [] -> ring_ok (rx f) -> ring_ok (rx f') /\ used (rx f') = 0.
Proof.
  intros H Hs Hok. assert (used (rx f) = 0) as Hu by (rewrite <- length_slots, Hs; done).
  assert (forall x, ring_ok (ringOpen x (rx f)).1 /\ used (ringOpen x (rx f)).1 = 0) as Hr.
  { intros [[?|?] [?|?] [?|?] [?|?]]; done. }
  unfold afOpen in H. destruct (af_socket a); [|by injection H as <- <-]. specialize (Hr (af_rx a)). destruct (ringOpen (af_rx a) (rx f)) as [r0 err]. cbn in Hr.
  destruct err; [by injection H as <- <-|]. destruct (ringOpen (af_tx a) _) as [t0 [|]]; [by injection H as <- <-|].
  destruct (af_rq a); [|by injection H as <- <-]. destruct (af_bind a port); by injection H as <- <-.
Qed.

(** Open on a closed bind never panics: it fails and leaves no handle, or leaves both
    receive rings full of requests. *)
Theorem win_open a4 a6 x4 x6 port b : isOpen b = 0 -> zeroHandles (v4 b) -> zeroHandles (v6 b) -> ring_ok (rx (v4 b)) -> ring_ok (rx (v6 b)) ->
  exists b' r, Open a4 a6 x4 x6 port b = Some (b', r) /\
    match r with
    | Err _ => isOpen b' = 0 /\ zeroHandles (v4 b') /\ zeroHandles (v6 b')
    | Ok _ => isOpen b' = 1 /\ isFull (rx (v4 b')) = true /\ isFull (rx (v6 b')) = true /\ ring_ok (rx (v4 b')) /\ ring_ok (rx (v6 b'))
    end.
Proof.
  intros Ho Z4 Z6 K4 K6. unfold Open. rewrite Ho. change (0 =? 0) with true. cbn [negb].
  destruct (afOpen a4 port (v4 b)) as [f4 [p4|e]] eqn:E4; [|eexists _, _; split; [done|]; split; [done|apply zero_handles]].
  destruct (afOpen a6 p4 (v6 b)) as [f6 [p6|e]] eqn:E6; [|eexists _, _; split; [done|]; split; [done|apply zero_handles]].
  apply afOpen_ring in E4 as [A4 U4]; [|apply Z4|done]. apply afOpen_ring in E6 as [A6 U6]; [|apply Z6|done].
  destruct (insertAll_spec x4 x6 (Z.to_nat packetsPerRing) 0 f4 f6 A4 A6) as (g4 & g6 & err & -> & Hg); [rewrite U4; done|rewrite U6; done|]. cbn [mbind option_bind].
  destruct err; [eexists _, _; split; [done|]; split; [done|apply zero_handles]|]. destruct (Hg eq_refl) as ([? ?] & [? ?] & _). by eexists _, _.
Qed.

(** Open on a bind that is open reports the error, but closes the bind that was open. *)
Lemma open_twice_closes a4 a6 x4 x6 port b : isOpen b = 1 -> Open a4 a6 x4 x6 port b = Some (closeAndZero b, Err ErrBindAlreadyOpen).
Proof. intros H. unfold Open. by rewrite H. Qed.

(** ** Endpoints *)

(** The endpoint of an address and port, as the system stores it. *)
Definition sockaddr (addr : list Z) (port : Z) : WinRingEndpoint :=
  if len addr =? 4 then {| we_family := AF_INET; we_data := be_bytes 2 port ++ addr ++ replicate 24 0 |}
  else {| we_family := AF_INET6; we_data := be_bytes 2 port ++ replicate 4 0 ++ addr ++ replicate 8 0 |}.

(** The bytes that the MAC of a cookie covers are those of the other binds: the address and
    the port in little-endian order. *)
Theorem win_endpoint addr port : len addr = 4 \/ len addr = 16 -> is_u16 port ->
  DstIP (sockaddr addr port) = Some (mkAddr addr []) /\ DstPort (sockaddr addr port) = port /\ DstToBytes (sockaddr addr port) = addr ++ le_bytes 2 port.
Proof.
  intros Hl Hp. assert (exists hi lo, be_bytes 2 port = [hi; lo] /\ le_bytes 2 port = [lo; hi] /\ be_val [hi; lo] = port) as (hi & lo & Eb & El & Ev).
  { pose proof (be_val_bytes 2 port ltac:(unfold is_u16 in Hp; lia)) as Hv. pose proof (length_be_bytes 2 port) as Hlen.
    destruct (be_bytes 2 port) as [|hi [|lo [|? ?]]] eqn:E; try done. exists hi, lo. split; [done|]. split; [|done].
    unfold be_bytes in E. rewrite <- (reverse_involutive (le_bytes 2 port)), E. done. }
  unfold sockaddr, DstIP, DstPort, DstToBytes. rewrite Eb, El. destruct Hl as [Hl|Hl]; rewrite Hl; cbn -[take drop]; rewrite ?(drop_app_length' [_; _]) by done.
  - assert (forall q, take 4 (addr ++ q) = addr) as Ht by (intros q; apply take_app_length'; unfold len in Hl; lia). rewrite !skipn_cons, !skipn_O, Ht. done.
  - assert (forall q, take 16 (addr ++ q) = addr) as Ht by (intros q; apply take_app_length'; unfold len in Hl; lia). rewrite !skipn_cons, !skipn_O, Ht. done.
Qed.
