(* ===== verification/TunWindows.v ===== *)
(** * TunWindows: the TUN device of Windows (src/tun/tun_windows.go)

    Packets go through the rings of the Wintun driver (a package outside the sources, whose
    answers are arguments). The device measures its rate to decide whether a reader that
    finds no packet spins or waits. *)
From S2P Require Import Prelude GoLib TunLinux.
#[local] Open Scope Z_scope.

Definition second : Z := 1000000000.
Definition rateMeasurementGranularity : Z := second / 2.
Definition spinloopRateThreshold : Z := 800000000 / 8.
Definition spinloopDuration : Z := 1000000 / 80.

Inductive winTunError : Type := ErrClosed | ErrCorrupt | ErrRead (e : Z) | ErrWrite (e : Z).
Definition ERROR_HANDLE_EOF : Z := 38.
Definition ERROR_INVALID_DATA : Z := 13.
Definition ERROR_BUFFER_OVERFLOW : Z := 111.
Definition ERROR_NO_MORE_ITEMS : Z := 259.

(** ** The rate *)

Record rateJuggler : Type := { current : Z; nextByteCount : Z; nextStartTime : Z; changing : bool }.

(** [update] at time [now]; when another routine is changing the rate only the bytes are
    counted. *)
Definition update (now packetLen : Z) (r : rateJuggler) : rateJuggler :=
  let total := u64 (nextByteCount r + packetLen) in
  let period := u64 (now - nextStartTime r) in
  if rateMeasurementGranularity <=? period then
    if changing r then {| current := current r; nextByteCount := total; nextStartTime := nextStartTime r; changing := changing r |}
    else {| current := u64 (total * second) / period; nextByteCount := 0; nextStartTime := now; changing := false |}
  else {| current := current r; nextByteCount := total; nextStartTime := nextStartTime r; changing := changing r |}.

(** ** The device *)

Record NativeTun : Type := { rate : rateJuggler; closed : bool; forcedMTU : Z }.
Definition with_rate (r : rateJuggler) (t : NativeTun) : NativeTun := {| rate := r; closed := closed t; forcedMTU := forcedMTU t |}.

Definition newMTU (mtu : Z) : Z := if 0 <? mtu then mtu else 1420.
Definition ForceMTU (mtu : Z) (t : NativeTun) : NativeTun * list Event :=
  if closed t then (t, [])
  else ({| rate := rate t; closed := closed t; forcedMTU := mtu |}, if negb (forcedMTU t =? mtu) then [EventMTUUpdate] else []).

(** ** Read *)

(** What the driver answers to ReceivePacket, the value of the flag [close] in front of it,
    the clock behind it, and the clock after a sleep that follows. *)
Record poll : Type := { p_closed : bool; p_answer : result (list Z) Z; p_now : Z; p_woken : Z }.

Definition shouldSpin (start : Z) (t : NativeTun) : bool :=
  (spinloopRateThreshold <=? current (rate t)) && (u64 (start - nextStartTime (rate t)) <=? rateMeasurementGranularity * 2).

(** The packet that is returned, or an error; and how often the reader went to sleep.
    [None]: the script has ended. After a sleep the clock is read again. *)
Fixpoint readLoop (room : Z) (start : Z) (spin : bool) (polls : list poll) (t : NativeTun) (sleeps : nat) : option (NativeTun * nat * result (list Z) winTunError) :=
  match polls with
  | [] => None
  | p :: polls =>
      if p_closed p then Some (t, sleeps, Err ErrClosed)
      else
        match p_answer p with
        | Ok packet =>
            let data := take (Z.to_nat room) packet in
            Some (with_rate (update (p_now p) (len data) (rate t)) t, sleeps, Ok data)
        | Err e =>
            if e =? ERROR_NO_MORE_ITEMS then
              if negb spin || (spinloopDuration <=? u64 (p_now p - start)) then readLoop room (p_woken p) (shouldSpin (p_woken p) t) polls t (S sleeps)
              else readLoop room start spin polls t sleeps
            else if e =? ERROR_HANDLE_EOF then Some (t, sleeps, Err ErrClosed)
            else if e =? ERROR_INVALID_DATA then Some (t, sleeps, Err ErrCorrupt)
            else Some (t, sleeps, Err (ErrRead e))
        end
  end.

(** ** Write *)

(** The driver's answer to AllocateSendPacket for packet [i]. *)
Fixpoint writeLoop (i : nat) (alloc : nat -> option Z) (clock : nat -> Z) (offset : Z) (bufs : list (list Z)) (t : NativeTun) :
    option (NativeTun * list (list Z) * (nat * option winTunError)) :=
  match bufs with
  | [] => Some (t, [], (i, None))
  | buf :: bufs =>
      pkt ← slice buf offset (len buf);
      let t := with_rate (update (clock i) (len buf - offset) (rate t)) t in
      match alloc i with
      | None => '(t, sent, out) ← writeLoop (S i) alloc clock offset bufs t; Some (t, pkt :: sent, out)
      | Some e =>
          if e =? ERROR_HANDLE_EOF then Some (t, [], (i, Some ErrClosed))
          else if e =? ERROR_BUFFER_OVERFLOW then writeLoop (S i) alloc clock offset bufs t
          else Some (t, [], (i, Some (ErrWrite e)))
      end
  end.
Definition Write (alloc : nat -> option Z) (clock : nat -> Z) (offset : Z) (bufs : list (list Z)) (t : NativeTun) : option (NativeTun * list (list Z) * (nat * option winTunError)) :=
  if closed t then Some (t, [], (0%nat, Some ErrClosed)) else writeLoop 0 alloc clock offset bufs t.

(** ** What they promise *)

(** A measurement: bytes per second since the last one, when the product fits 64 bits. *)
Lemma update_measures now n r : changing r = false -> 0 <= nextByteCount r -> 0 <= n -> 0 <= now - nextStartTime r < 2 ^ 63 -> (nextByteCount r + n) * second < 2 ^ 64 ->
  rateMeasurementGranularity <= now - nextStartTime r ->
  update now n r = {| current := (nextByteCount r + n) * second / (now - nextStartTime r); nextByteCount := 0; nextStartTime := now; changing := false |}.
Proof.
  intros Hc H0 Hn Hp Hf Hg. unfold update. rewrite (u64_small (now - _)) by width_lia. rewrite (proj2 (Z.leb_le _ _) Hg), Hc.
  unfold second in *. rewrite (u64_small (nextByteCount r + n)) by width_lia. by rewrite u64_small by width_lia.
Qed.

(** Between two measurements bytes are counted. *)
Lemma update_counts now n r : 0 <= now - nextStartTime r < rateMeasurementGranularity -> 0 <= nextByteCount r -> 0 <= n -> nextByteCount r + n < 2 ^ 64 ->
  update now n r = {| current := current r; nextByteCount := nextByteCount r + n; nextStartTime := nextStartTime r; changing := changing r |}.
Proof.
  intros Hp H0 Hn Hs. assert (rateMeasurementGranularity = 500000000) as Hg by done. unfold update. rewrite (u64_small (now - _)) by width_lia. rewrite (proj2 (Z.leb_gt _ _)) by lia. by rewrite u64_small by width_lia.
Qed.

(** The packets of a batch that the driver has room for are sent in order; those it has no
    room for are dropped without an error, and are counted as written. *)
Fixpoint accepted (i : nat) (alloc : nat -> option Z) (pkts : list (list Z)) : list (list Z) :=
  match pkts with [] => [] | p :: pkts => (if alloc i then [] else [p]) ++ accepted (S i) alloc pkts end.
Lemma write_sent alloc clock offset bufs : 0 <= offset -> Forall (fun b => offset <= len b) bufs -> forall i t,
  (forall j, (j < length bufs)%nat -> alloc (i + j)%nat = None \/ alloc (i + j)%nat = Some ERROR_BUFFER_OVERFLOW) ->
  exists t', writeLoop i alloc clock offset bufs t = Some (t', accepted i alloc (drop (Z.to_nat offset) <$> bufs), ((i + length bufs)%nat, None)).
Proof.
  intros Ho Hb. induction Hb as [|b bufs Hb _ IH]; intros i t Ha; cbn [writeLoop length fmap list_fmap accepted]; [exists t; by rewrite Nat.add_0_r|].
  rewrite slice_suffix by lia. cbn [mbind option_bind]. set (t1 := with_rate _ t).
  destruct (IH (S i) t1) as (t' & Hw). { intros j Hj. replace (S i + j)%nat with (i + S j)%nat by lia. apply Ha. cbn. lia. }
  rewrite Hw. replace (S i + length bufs)%nat with (i + S (length bufs))%nat by lia. exists t'.
  specialize (Ha 0%nat ltac:(cbn; lia)). rewrite Nat.add_0_r in *. destruct Ha as [-> | ->]; done.
Qed.

(** A reader that the driver never answers goes to sleep at every poll unless it spins, and
    spins at most for spinloopDuration. *)
Lemma read_sleeps room start spin p polls t n : p_closed p = false -> p_answer p = Err ERROR_NO_MORE_ITEMS ->
  spin = false \/ spinloopDuration <= u64 (p_now p - start) ->
  readLoop room start spin (p :: polls) t n = readLoop room (p_woken p) (shouldSpin (p_woken p) t) polls t (S n).
Proof.
  intros Hc Ha Hs. cbn [readLoop]. rewrite Hc, Ha. change (ERROR_NO_MORE_ITEMS =? ERROR_NO_MORE_ITEMS) with true. cbv iota.
  destruct Hs as [-> | Hs]; [done|]. by rewrite (proj2 (Z.leb_le _ _) Hs), orb_true_r.
Qed.
