(* ===== verification/WinSetup.v ===== *)
(** * WinSetup: the rest of the Windows port (src/tun/tun_windows.go, src/conn/bind_windows.go,
    src/conn/winrio/rio_windows.go)

    Creating and closing the TUN device while it is in use, endpoints as text, binding a
    socket to an interface, and finding out whether registered I/O can be used. The driver
    and the library of the system answer by arguments. *)
From Stdlib Require Import ZifyBool.
From S2P Require Import Prelude Threads GoLib NetIP Checksum SysTrace WinRing.
#[local] Open Scope Z_scope.

(** ** Creating the TUN device *)

(** What was done to the adapter and the session. *)
Inductive wintunCall : Type := CreateAdapter | StartSession | AdapterClose | EventsClose.
Definition CreateTUNWithRequestedGUID (adapter sess : option Z) (mtu : Z) : list wintunCall * result Z Z :=
  match adapter with
  | Some e => ([CreateAdapter], Err e)
  | None =>
      let forcedMTU := if mtu >? 0 then mtu else 1420 in
      match sess with
      | Some e => ([CreateAdapter; StartSession; AdapterClose; EventsClose], Err e)
      | None => ([CreateAdapter; StartSession], Ok forcedMTU)
      end
  end.

(** ** Closing it while it is in use *)

Module Wintun.
(** A goroutine in Read, Write or LUID (counted in [running]), in ForceMTU, or in Close. *)
Inductive thread : Type :=
| Checking (reads : bool)     (* about to look at the close flag *)
| Using (reads : bool)        (* in calls of the session *)
| Sleeping                    (* Read, in WaitForSingleObject *)
| Left
| MTUChecked                  (* ForceMTU behind its look at the flag *)
| Storing | Signalling | Waiting | Ending | ClosingEvents
| Closed.

Record state : Type := {
  threads : list thread;
  running : Z;             (* the wait group *)
  closeFlag : bool;
  once : bool;
  readWait : bool;         (* the event: set, until somebody who waits takes it *)
  ended : bool;            (* session.End has been called *)
  eventsClosed : bool;
  misuse : bool;           (* the session was used after it ended *)
  crashed : bool           (* a send on the closed channel *)
}.
Definition newTun : state :=
  {| threads := []; running := 0; closeFlag := false; once := false; readWait := false; ended := false; eventsClosed := false; misuse := false; crashed := false |}.

Definition set_threads (ts : list thread) (s : state) : state :=
  {| threads := ts; running := running s; closeFlag := closeFlag s; once := once s; readWait := readWait s; ended := ended s; eventsClosed := eventsClosed s; misuse := misuse s; crashed := crashed s |}.
Definition spawn (t : thread) (s : state) : state := set_threads (threads s ++ [t]) s.
Definition goto (i : nat) (t : thread) (s : state) : state := set_threads (<[i := t]> (threads s)) s.
Definition add (d : Z) (s : state) : state :=
  {| threads := threads s; running := running s + d; closeFlag := closeFlag s; once := once s; readWait := readWait s; ended := ended s; eventsClosed := eventsClosed s; misuse := misuse s; crashed := crashed s |}.
Definition setFlag (s : state) : state :=
  {| threads := threads s; running := running s; closeFlag := true; once := once s; readWait := readWait s; ended := ended s; eventsClosed := eventsClosed s; misuse := misuse s; crashed := crashed s |}.
Definition setOnce (s : state) : state :=
  {| threads := threads s; running := running s; closeFlag := closeFlag s; once := true; readWait := readWait s; ended := ended s; eventsClosed := eventsClosed s; misuse := misuse s; crashed := crashed s |}.
Definition setEvent (b : bool) (s : state) : state :=
  {| threads := threads s; running := running s; closeFlag := closeFlag s; once := once s; readWait := b; ended := ended s; eventsClosed := eventsClosed s; misuse := misuse s; crashed := crashed s |}.
Definition endSession (s : state) : state :=
  {| threads := threads s; running := running s; closeFlag := closeFlag s; once := once s; readWait := readWait s; ended := true; eventsClosed := eventsClosed s; misuse := misuse s; crashed := crashed s |}.
Definition closeEvents (s : state) : state :=
  {| threads := threads s; running := running s; closeFlag := closeFlag s; once := once s; readWait := readWait s; ended := ended s; eventsClosed := true; misuse := misuse s; crashed := crashed s |}.
Definition useSession (s : state) : state :=
  {| threads := threads s; running := running s; closeFlag := closeFlag s; once := once s; readWait := readWait s; ended := ended s; eventsClosed := eventsClosed s; misuse := misuse s || ended s; crashed := crashed s |}.
Definition sendEvent (s : state) : state :=
  {| threads := threads s; running := running s; closeFlag := closeFlag s; once := once s; readWait := readWait s; ended := ended s; eventsClosed := eventsClosed s; misuse := misuse s; crashed := crashed s || eventsClosed s |}.

Definition isReader (t : thread) : bool := match t with Checking true | Using true | Sleeping => true | _ => false end.

(** Read, Write and LUID come from one thread each: a second Read does not start. *)
Definition call (reads : bool) (s : state) : option state :=
  if reads && (0 <? count isReader (threads s))%nat then None else Some (spawn (Checking reads) (add 1 s)).
(** The look at the flag: leave, or go on. *)
Definition check (i : nat) (s : state) : option state :=
  match threads s !! i with
  | Some (Checking r) => Some (if closeFlag s then goto i Left (add (-1) s) else goto i (Using r) s)
  | _ => None
  end.
(** A call on the session, and what follows it: the goroutine returns, looks at the flag
    again, or goes to sleep. *)
Inductive next : Type := Return | Again | Sleep.
Definition use (i : nat) (n : next) (s : state) : option state :=
  match threads s !! i, n with
  | Some (Using r), Return => Some (goto i Left (add (-1) (useSession s)))
  | Some (Using true), Again => Some (goto i (Checking true) (useSession s))
  | Some (Using true), Sleep => Some (goto i Sleeping (useSession s))
  | Some (Using false), Again => Some (useSession s)
  | _, _ => None
  end.
(** The event wakes the reader and is taken. *)
Definition wake (i : nat) (s : state) : option state :=
  match threads s !! i with Some Sleeping => if readWait s then Some (goto i (Checking true) (setEvent false s)) else None | _ => None end.
(** ForceMTU is not counted; it sends an event when the MTU changes. *)
Definition forceMTU (update : bool) (s : state) : state := if closeFlag s then spawn Left s else if update then spawn MTUChecked s else spawn Left s.
Definition sendMTU (i : nat) (s : state) : option state := match threads s !! i with Some MTUChecked => Some (goto i Left (sendEvent s)) | _ => None end.
Definition callClose (s : state) : state := if once s then spawn Closed s else spawn Storing (setOnce s).
Definition stepClose (i : nat) (s : state) : option state :=
  match threads s !! i with
  | Some Storing => Some (goto i Signalling (setFlag s))
  | Some Signalling => Some (goto i Waiting (setEvent true s))
  | Some Waiting => if running s =? 0 then Some (goto i Ending s) else None
  | Some Ending => Some (goto i ClosingEvents (endSession s))
  | Some ClosingEvents => Some (goto i Closed (closeEvents s))
  | _ => None
  end.

Inductive label : Type :=
| Call (reads : bool) | Check (i : nat) | Use (i : nat) (n : next) | Wake (i : nat) | PacketArrives | ForceMTU (update : bool) | SendMTU (i : nat) | CallClose | CloseStep (i : nat).
Definition step (l : label) (s : state) : option state :=
  match l with
  | Call r => call r s
  | Check i => check i s
  | Use i n => use i n s
  | Wake i => wake i s
  | PacketArrives => Some (setEvent true s)
  | ForceMTU b => Some (forceMTU b s)
  | SendMTU i => sendMTU i s
  | CallClose => Some (callClose s)
  | CloseStep i => stepClose i s
  end.
Definition run (ls : list label) (s : state) : option state := foldl (fun o l => s ← o; step l s) (Some s) ls.
Inductive reachable : state -> Prop :=
| reach_new : reachable newTun
| reach_step l s s' : reachable s -> step l s = Some s' -> reachable s'.
End Wintun.

(** ** Registered I/O *)

(** The functions of the table. [syscall] answers a call with its value and the error code. *)
Definition invalidBufferId : Z := 4294967295.
Definition invalidCq : Z := 0.
Definition invalidRq : Z := 0.
Definition corruptCq : Z := 4294967295.
Inductive notificationCompletion : Type :=
| eventNotificationCompletion (event notifyReset : Z)
| iocpNotificationCompletion (iocp key overlapped : Z).
Record Buffer : Type := { b_id : Z; b_offset : Z; b_length : Z }.
Inductive rioCall : Type :=
| rioCreateCompletionQueue (queueSize : Z) (completion : option notificationCompletion)
| rioCreateRequestQueue (socket maxOutstandingReceive maxReceiveDataBuffers maxOutstandingSend maxSendDataBuffers receiveCq sendCq socketContext : Z)
| rioDequeueCompletion (cq : Z) (hasArray : bool) (n : Z)
| rioRegisterBuffer (ptr : option Z) (size : Z)
| rioSendEx (rq : Z) (buf : option Buffer) (dataBufferCount : Z) (local remote control flags : option Buffer) (sflags requestContext : Z)
| rioReceiveEx (rq : Z) (buf : option Buffer) (dataBufferCount : Z) (local remote control flags : option Buffer) (sflags requestContext : Z)
| rioNotify (cq : Z).

Section Winrio.
Context (syscall : rioCall -> Z * Z).
Definition CreateEventCompletionQueue (queueSize event : Z) (notifyReset : bool) : result Z Z :=
  let '(ret, err) := syscall (rioCreateCompletionQueue queueSize (Some (eventNotificationCompletion event (if notifyReset then 1 else 0)))) in
  if ret =? invalidCq then Err err else Ok ret.
Definition CreateIOCPCompletionQueue (queueSize iocp key overlapped : Z) : result Z Z :=
  let '(ret, err) := syscall (rioCreateCompletionQueue queueSize (Some (iocpNotificationCompletion iocp key overlapped))) in
  if ret =? invalidCq then Err err else Ok ret.
Definition CreatePolledCompletionQueue (queueSize : Z) : result Z Z :=
  let '(ret, err) := syscall (rioCreateCompletionQueue queueSize None) in if ret =? invalidCq then Err err else Ok ret.
Definition CreateRequestQueue (socket maxOutstandingReceive maxReceiveDataBuffers maxOutstandingSend maxSendDataBuffers receiveCq sendCq socketContext : Z) : result Z Z :=
  let '(ret, err) := syscall (rioCreateRequestQueue socket maxOutstandingReceive maxReceiveDataBuffers maxOutstandingSend maxSendDataBuffers receiveCq sendCq socketContext) in
  if ret =? invalidRq then Err err else Ok ret.
(** [None] is the panic about a corrupt queue. *)
Definition DequeueCompletion (cq room : Z) : option Z :=
  let '(ret, _) := syscall (rioDequeueCompletion cq (0 <? room) room) in if ret =? corruptCq then None else Some (u32 ret).
Definition RegisterPointer (ptr : option Z) (size : Z) : result Z Z :=
  let '(ret, err) := syscall (rioRegisterBuffer ptr size) in if ret =? invalidBufferId then Err err else Ok ret.
(** The slice [buffer] lies at address [base]. *)
Definition RegisterBuffer (base : Z) (buffer : list Z) : result Z Z :=
  RegisterPointer (if 0 <? len buffer then Some base else None) (u32 (len buffer)).
Definition SendEx (rq : Z) (buf : option Buffer) (n : Z) (local remote control flags : option Buffer) (sflags requestContext : Z) : option Z :=
  let '(ret, err) := syscall (rioSendEx rq buf n local remote control flags sflags requestContext) in if ret =? 0 then Some err else None.
Definition ReceiveEx (rq : Z) (buf : option Buffer) (n : Z) (local remote control flags : option Buffer) (sflags requestContext : Z) : option Z :=
  let '(ret, err) := syscall (rioReceiveEx rq buf n local remote control flags sflags requestContext) in if ret =? 0 then Some err else None.
Definition Notify (cq : Z) : option Z := let '(ret, _) := syscall (rioNotify cq) in if negb (ret =? 0) then Some ret else None.
End Winrio.

Section Rio.
#[local] Open Scope sys_scope.

(** What the system answers: the socket, the table of functions, the port, the calls of the
    table. *)
Record rioAnswers : Type := { ra_socket : result Z Z; ra_ioctl : option Z; ra_iocp : result Z Z; ra_calls : rioCall -> Z * Z }.
(** The body of Initialize: everything it opens is closed when it returns. *)
Definition tryRio (a : rioAnswers) : M unit :=
  let! socket := open_ (ra_socket a) in
  deferClose socket (
    do! check (ra_ioctl a) in
    let! iocp := open_ (ra_iocp a) in
    deferClose iocp (
      let! cq := open_ (CreateIOCPCompletionQueue (ra_calls a) 2 iocp 0 0) in
      deferClose cq (
        do! lift (CreateRequestQueue (ra_calls a) socket 1 1 1 1 cq cq 0) in
        ret tt))).
(** initialized and available. *)
Record rio : Type := { initialized : bool; available : bool }.
Definition Initialize (a : rioAnswers) (r : rio) : rio * list sysEvent * bool :=
  if initialized r then (r, [], available r)
  else
    let '(tr, res) := tryRio a in
    let ok := match res with Ok _ => true | Err _ => false end in
    ({| initialized := true; available := ok |}, tr, ok).
End Rio.

(** The bind that is used. *)
Inductive bindKind : Type := StdNetBindKind | WinRingBindKind.
Definition NewWinRingBind (a : rioAnswers) (r : rio) : bindKind := let '(_, _, ok) := Initialize a r in if ok then WinRingBindKind else StdNetBindKind.

(** ** Endpoints as text *)

Definition ERROR_INVALID_ADDRESS : Z := 1214.
Definition sizeofWinRingEndpoint : Z := 32.
(** ParseEndpoint: [getaddrinfo] answers the family and the bytes of the socket address. *)
Definition ParseEndpoint (be : bool) (getaddrinfo : list Z -> list Z -> result (Z * list Z) Z) (s : list Z) : result WinRingEndpoint Z :=
  match SplitHostPort s with
  | None => Err 0
  | Some (host, port) =>
      if bool_decide (0 ∈ host) || bool_decide (0 ∈ port) then Err 0
      else match getaddrinfo host port with
           | Err e => Err e
           | Ok (family, addr) =>
               if negb (family =? AF_INET) && negb (family =? AF_INET6) || (len addr >? sizeofWinRingEndpoint) then Err ERROR_INVALID_ADDRESS
               else
                 let dst := list_inserts 0 addr (replicate 32 0) in
                 Ok {| we_family := nativeUint be (take 2 dst); we_data := drop 2 dst |}
           end
  end.
Definition DstToString (be : bool) (e : WinRingEndpoint) : list Z :=
  let port := be_val (take 2 (we_data e)) in
  if we_family e =? AF_INET then AddrPortString (mkAddr (take 4 (drop 2 (we_data e))) []) port
  else if we_family e =? AF_INET6 then
    let scope := nativeUint be (take 4 (drop 22 (we_data e))) in
    AddrPortString (mkAddr (take 16 (drop 6 (we_data e))) (if scope >? 0 then Itoa scope else [])) port
  else [].

(** ** Binding to an interface *)

Definition bindSocketToInterface6 (interfaceIndex : Z) : Z := interfaceIndex.
(** The option that is set and the flag afterwards; [setsockopt] answers by the value. *)
Definition BindSocketToInterface4 (be : bool) (setsockopt : Z -> option Z) (interfaceIndex : Z) (hole : bool) (b : WinRingBind) : WinRingBind * option winError :=
  if negb (isOpen b =? 1) then (b, Some ErrNetClosed)
  else match setsockopt (bindSocketToInterface4 be interfaceIndex) with
       | Some e => (b, Some (ErrSys e))
       | None => let f := v4 b in ({| v4 := {| sock := sock f; rx := rx f; tx := tx f; rq := rq f; blackhole := hole |}; v6 := v6 b; isOpen := isOpen b |}, None)
       end.
Definition BindSocketToInterface6 (setsockopt : Z -> option Z) (interfaceIndex : Z) (hole : bool) (b : WinRingBind) : WinRingBind * option winError :=
  if negb (isOpen b =? 1) then (b, Some ErrNetClosed)
  else match setsockopt (bindSocketToInterface6 interfaceIndex) with
       | Some e => (b, Some (ErrSys e))
       | None => let f := v6 b in ({| v4 := v4 b; v6 := {| sock := sock f; rx := rx f; tx := tx f; rq := rq f; blackhole := hole |}; isOpen := isOpen b |}, None)
       end.
(** The bind of the standard library on Windows: the new flag, or the error. *)
Definition StdBindSocketToInterface4 (be : bool) (sysconn control : option Z) (setsockopt : Z -> option Z) (interfaceIndex : Z) (hole : bool) : result bool Z :=
  match sysconn with
  | Some e => Err e
  | None => match control with Some e => Err e | None => match setsockopt (bindSocketToInterface4 be interfaceIndex) with Some e => Err e | None => Ok hole end end
  end.
Definition StdBindSocketToInterface6 (sysconn control : option Z) (setsockopt : Z -> option Z) (interfaceIndex : Z) (hole : bool) : result bool Z :=
  match sysconn with
  | Some e => Err e
  | None => match control with Some e => Err e | None => match setsockopt (bindSocketToInterface6 interfaceIndex) with Some e => Err e | None => Ok hole end end
  end.
(** receiveIPv4 and receiveIPv6: the packet of the family's ring, one per call. *)
Definition receiveIPv4 (bufLen : Z) (rounds : list recvAnswers) (b : WinRingBind) : received := afReceive (isOpen b =? 1) bufLen rounds (v4 b).
Definition receiveIPv6 (bufLen : Z) (rounds : list recvAnswers) (b : WinRingBind) : received := afReceive (isOpen b =? 1) bufLen rounds (v6 b).

(** * Theorems *)

(** ** Closing *)

Module WintunSpec.
Import Wintun.

Definition inCall (t : thread) : bool := match t with Checking _ | Using _ | Sleeping => true | _ => false end.
Definition inSession (t : thread) : bool := match t with Using _ | Sleeping => true | _ => false end.
Definition needsEvent (t : thread) : bool := match t with Using true | Sleeping => true | _ => false end.
Definition active (t : thread) : bool := match t with Storing | Signalling | Waiting | Ending | ClosingEvents => true | _ => false end.
Definition flagged (t : thread) : bool := match t with Signalling | Waiting | Ending | ClosingEvents => true | _ => false end.
Definition isWaiting (t : thread) : bool := match t with Waiting => true | _ => false end.
Definition drained (t : thread) : bool := match t with Ending | ClosingEvents => true | _ => false end.

Record inv (s : state) : Prop := {
  iv_running : running s = Z.of_nat (count inCall (threads s));
  iv_reader : (count isReader (threads s) <= 1)%nat;
  iv_once : (count active (threads s) <= Nat.b2n (once s))%nat;
  iv_flag : (0 < count flagged (threads s))%nat \/ ended s = true -> closeFlag s = true;
  iv_drained : (0 < count drained (threads s))%nat \/ ended s = true -> count inSession (threads s) = 0%nat;
  iv_event : (0 < count isWaiting (threads s))%nat -> count needsEvent (threads s) = 0%nat \/ readWait s = true;
  iv_misuse : misuse s = false;
  iv_started : ended s = true -> once s = true
}.

(** The counts when goroutine [i], which [Hi] finds, becomes [t']. *)
Ltac recount Hi t' :=
  let E1 := fresh "E" in let E2 := fresh "E" in let E3 := fresh "E" in let E4 := fresh "E" in let E5 := fresh "E" in let E6 := fresh "E" in let E7 := fresh "E" in let E8 := fresh "E" in
  pose proof (count_insert inCall _ _ _ t' Hi) as E1; pose proof (count_insert isReader _ _ _ t' Hi) as E2; pose proof (count_insert active _ _ _ t' Hi) as E3;
  pose proof (count_insert flagged _ _ _ t' Hi) as E4; pose proof (count_insert inSession _ _ _ t' Hi) as E5; pose proof (count_insert drained _ _ _ t' Hi) as E6;
  pose proof (count_insert isWaiting _ _ _ t' Hi) as E7; pose proof (count_insert needsEvent _ _ _ t' Hi) as E8; cbn in E1, E2, E3, E4, E5, E6, E7, E8.

(** More readers than calls with the event to wait for are none. *)
Lemma needs_reader (ts : list thread) : (count needsEvent ts <= count isReader ts)%nat.
Proof. induction ts as [|t ts IH]; [done|]. rewrite !count_cons. destruct t as [[]|[]| | | | | | | | |]; cbn; lia. Qed.
Lemma waiting_active (ts : list thread) : (count isWaiting ts + count drained ts <= count flagged ts <= count active ts)%nat.
Proof. induction ts as [|t ts IH]; [done|]. rewrite !count_cons. destruct t as [[]|[]| | | | | | | | |]; cbn; lia. Qed.
Lemma session_calls (ts : list thread) : (count inSession ts <= count inCall ts)%nat.
Proof. induction ts as [|t ts IH]; [done|]. rewrite !count_cons. destruct t as [[]|[]| | | | | | | | |]; cbn; lia. Qed.

(** Opens a state with its invariant. *)
Ltac open_inv I :=
  match type of I with inv ?s => pose proof (needs_reader (threads s)); pose proof (waiting_active (threads s)); pose proof (session_calls (threads s)) end;
  destruct I as [I1 I2 I3 I4 I5 I6 I7 I8].
(** Closes what is left of the invariant after a step by the counts and the flags. *)
Ltac close_inv := split; cbn in *; rewrite ?count_snoc; cbn in *; try lia; try done.

Lemma wintun_inv_new : inv newTun.
Proof. split; cbn; try done; unfold count; cbn; lia. Qed.

Lemma inv_call r s s' : inv s -> call r s = Some s' -> inv s'.
Proof.
  intros I H. unfold call in H. destruct (r && _) eqn:E; [done|]. injection H as <-. open_inv I.
  assert (r = true -> count isReader (threads s) = 0%nat) by (intros ->; by destruct (count isReader (threads s))). destruct r; close_inv.
Qed.
Lemma inv_check i s s' : inv s -> check i s = Some s' -> inv s'.
Proof.
  intros I H. unfold check in H. destruct (threads s !! i) as [t|] eqn:Hi; [|done]. destruct t as [r| | | | | | | | | |]; try done. open_inv I.
  destruct (closeFlag s) eqn:Ef; injection H as <-; [recount Hi Left | recount Hi (Using r)]; destruct r; close_inv.
Qed.
Lemma inv_use i n s s' : inv s -> use i n s = Some s' -> inv s'.
Proof.
  intros I H. unfold use in H. destruct (threads s !! i) as [t|] eqn:Hi; [|done]. destruct t as [|r| | | | | | | | |]; try done. open_inv I.
  pose proof (count_pos inSession _ _ _ Hi eq_refl).
  assert (ended s = false) as En by (destruct (ended s); [lia|done]).
  destruct n, r; try done; injection H as <-; [recount Hi Left | recount Hi Left | recount Hi (Checking true) | | recount Hi Sleeping]; close_inv; by rewrite I7, En.
Qed.
Lemma inv_wake i s s' : inv s -> wake i s = Some s' -> inv s'.
Proof.
  intros I H. unfold wake in H. destruct (threads s !! i) as [t|] eqn:Hi; [|done]. destruct t; try done. destruct (readWait s); [|done]. injection H as <-.
  open_inv I. recount Hi (Checking true). close_inv.
Qed.
Lemma inv_close i s s' : inv s -> stepClose i s = Some s' -> inv s'.
Proof.
  intros I H. unfold stepClose in H. destruct (threads s !! i) as [t|] eqn:Hi; [|done]. open_inv I.
  assert (forall P, (Nat.b2n (P t) <= count P (threads s))%nat) as Hat by (intros P; destruct (P t) eqn:EP; [apply (count_pos P _ _ _ Hi EP) | simpl; lia]).
  pose proof (Hat drained). pose proof (Hat flagged). pose proof (Hat active). clear Hat.
  destruct t; try done; [| | destruct (running s =? 0) eqn:Er; [|done] | |]; injection H as <-;
    [recount Hi Signalling | recount Hi Waiting | recount Hi Ending | recount Hi ClosingEvents | recount Hi Closed]; pose proof (Nat.b2n_le_1 (once s)); close_inv.
Qed.
Lemma inv_step l s s' : inv s -> step l s = Some s' -> inv s'.
Proof.
  intros I H. destruct l as [r|i|i n|i| |b|i| |i]; cbn in H.
  - by eapply inv_call.
  - by eapply inv_check.
  - by eapply inv_use.
  - by eapply inv_wake.
  - injection H as <-. open_inv I. close_inv.
  - injection H as <-. open_inv I. unfold forceMTU. destruct (closeFlag s) eqn:Ef, b; close_inv.
  - unfold sendMTU in H. destruct (threads s !! i) as [t|] eqn:Hi; [|done]. destruct t; try done. injection H as <-. open_inv I. recount Hi Left. close_inv.
  - injection H as <-. open_inv I. unfold callClose. destruct (once s) eqn:Eo; close_inv.
  - by eapply inv_close.
Qed.
Lemma inv_reachable s : reachable s -> inv s.
Proof. induction 1; [apply wintun_inv_new | by eapply inv_step]. Qed.

(** The session is never used after it ended: Close waits for Read, Write and LUID, and those
    that come later see the flag. *)
Theorem wintun_safe s : reachable s -> misuse s = false /\ (ended s = true -> count inSession (threads s) = 0%nat).
Proof. intros I%inv_reachable. open_inv I. auto. Qed.

(** Close is not left waiting: while it waits, either it can go on, or a call under way can
    take a step of its own, with no help from the driver: a reader that sleeps has the event
    that wakes it. *)
Theorem wintun_close_progress s i : reachable s -> threads s !! i = Some Waiting ->
  is_Some (step (CloseStep i) s) \/ exists j, is_Some (step (Check j) s) \/ is_Some (step (Use j Return) s) \/ is_Some (step (Wake j) s).
Proof.
  intros I%inv_reachable Hi. pose proof (count_pos isWaiting _ _ _ Hi eq_refl) as Hw. open_inv I.
  destruct (Nat.eq_dec (count inCall (threads s)) 0%nat) as [E|E].
  { left. cbn. unfold stepClose. rewrite Hi, I1, E. cbn. eauto. }
  right. destruct (count_exists inCall (threads s)) as (j & t & Hj & Ht); [lia|]. exists j. destruct t as [r|r| | | | | | | | |]; try done.
  - left. cbn. unfold check. rewrite Hj. eauto.
  - right. left. cbn. unfold use. rewrite Hj. destruct r; eauto.
  - right. right. cbn. unfold wake. rewrite Hj. pose proof (count_pos needsEvent _ _ _ Hj eq_refl). destruct (I6 Hw) as [?| ->]; [lia|]. eauto.
Qed.

(** While Close waits no call that begins stays: it sees the flag. *)
Theorem wintun_late_calls s i j r s' : reachable s -> threads s !! i = Some Waiting -> threads s !! j = Some (Checking r) -> step (Check j) s = Some s' -> threads s' !! j = Some Left.
Proof.
  intros I%inv_reachable Hi Hj H. pose proof (count_pos flagged _ _ _ Hi eq_refl) as Hf. open_inv I. cbn in H. unfold check in H. rewrite Hj, (I4 (or_introl Hf)) in H.
  injection H as <-. cbn. apply list_lookup_insert_eq. by eapply lookup_lt_Some.
Qed.

(** ForceMTU is not waited for: when Close comes between its look at the flag and its event,
    the event is sent on a closed channel and the program dies. *)
Example force_mtu_races_close : crashed <$> run [ForceMTU true; CallClose; CloseStep 1; CloseStep 1; CloseStep 1; CloseStep 1; CloseStep 1; SendMTU 0] newTun = Some true.
Proof. reflexivity. Qed.
End WintunSpec.

(** ** Registered I/O *)

(** Asking whether registered I/O can be used leaves no handle open, whatever the system
    answers with handles that are not open yet. *)
Theorem try_rio_closes a : (forall s p, ra_socket a = Ok s -> ra_iocp a = Ok p -> s <> p) ->
  (forall s p c, ra_socket a = Ok s -> ra_iocp a = Ok p -> CreateIOCPCompletionQueue (ra_calls a) 2 p 0 0 = Ok c -> c <> s /\ c <> p) ->
  leaves [] (tryRio a) (fun _ => []) [].
Proof.
  intros H1 H2. unfold tryRio. apply leaves_open; [done|]. intros s Hs. apply leaves_deferClose; [|set_solver..].
  apply (leaves_bind _ _ _ ([] ++ [s])); [apply leaves_check|intros _]. apply leaves_open; [done|]. intros p Hp. specialize (H1 s p Hs Hp).
  apply leaves_deferClose; [|set_solver..]. apply leaves_open; [done|]. intros c Hc. destruct (H2 s p c Hs Hp Hc). apply leaves_deferClose; [|set_solver..].
  eapply leaves_bind; [apply leaves_lift|intros _]. by apply leaves_ret.
Qed.

(** The question is asked once, and its answer decides the bind for good. *)
Theorem rio_asked_once a a' r : let '(r', _, ok) := Initialize a r in Initialize a' r' = (r', [], ok) /\ NewWinRingBind a' r' = NewWinRingBind a r.
Proof.
  destruct (Initialize a r) as [[r' tr] ok] eqn:E. assert (Initialize a' r' = (r', [], ok)) as H.
  { unfold Initialize in E. destruct (initialized r) eqn:Ei; [injection E as <- <- <-; unfold Initialize; by rewrite Ei|].
    destruct (tryRio a) as [t res]. by injection E as <- <- <-. }
  unfold NewWinRingBind. by rewrite H, E.
Qed.

(** ** Endpoints as text *)

(** What the peers print is the address and the port of the endpoint, on every kind of
    machine. *)
Theorem win_dst_string be addr port : len addr = 4 \/ len addr = 16 -> is_u16 port ->
  DstToString be (sockaddr addr port) = AddrPortString (mkAddr addr []) port.
Proof.
  intros Hl Hp. destruct (win_endpoint addr port Hl Hp) as (_ & Ep & _). pose proof (length_be_bytes 2 port) as Hb.
  unfold DstToString. unfold DstPort in Ep. rewrite Ep. unfold sockaddr in *. destruct Hl as [Hl|Hl]; rewrite Hl in *; cbn -[take drop replicate].
  - rewrite !skipn_cons, skipn_O. by rewrite take_app_length' by (unfold len in Hl; lia).
  - change (replicate 4 0) with [0; 0; 0; 0]. cbn [app]. rewrite !skipn_cons, skipn_O. rewrite take_app_length' by (unfold len in Hl; lia). rewrite drop_app_length' by (unfold len in Hl; lia). by destruct be.
Qed.
