(* ===== verification/Outline.v ===== *)
(** * Outline: the configuration of the proxy dialer (src/outline/fallback.go, dialer.go)

    A configuration that was read from YAML is printed as the text of the configuration
    protocol and given to IpcSet of a new device. The keys are base64 in the one and
    hexadecimal in the other. The theorems say which lines IpcSet sees. Dialer has the
    dialer itself. *)
From S2P Require Import Prelude GoLib NetIP Crypto QUICInitial DeviceState Agreement System Uapi.
#[local] Open Scope Z_scope.

(** ** base64.StdEncoding *)

Definition b64val (c : Z) : option Z :=
  if (65 <=? c) && (c <=? 90) then Some (c - 65)
  else if (97 <=? c) && (c <=? 122) then Some (c - 97 + 26)
  else if (48 <=? c) && (c <=? 57) then Some (c - 48 + 52)
  else if c =? 43 then Some 62 else if c =? 47 then Some 63 else None.

(** Quanta of four characters; the last may be padded. The bits that padding leaves over are
    not looked at. *)
Fixpoint decodeQuanta (s : list Z) : option (list Z) :=
  match s with
  | [] => Some []
  | a :: b :: c :: d :: rest =>
      v1 ← b64val a; v2 ← b64val b;
      let b1 := v1 * 4 + v2 / 16 in
      if c =? 61 then
        if (d =? 61) && bool_decide (rest = []) then Some [b1] else None
      else
        v3 ← b64val c;
        let b2 := (v2 mod 16) * 16 + v3 / 4 in
        if d =? 61 then
          if bool_decide (rest = []) then Some [b1; b2] else None
        else
          v4 ← b64val d; r ← decodeQuanta rest; Some (b1 :: b2 :: (v3 mod 4) * 64 + v4 :: r)
  | _ => None
  end.
(** DecodeString: line ends are passed over wherever they are. *)
Definition DecodeString (s : list Z) : option (list Z) := decodeQuanta (filter (fun c => c <> 10 /\ c <> 13) s).

(** The encoding, as the reference for the decoder. *)
Definition b64char (v : Z) : Z := if v <? 26 then 65 + v else if v <? 52 then 97 + (v - 26) else if v <? 62 then 48 + (v - 52) else if v =? 62 then 43 else 47.
Fixpoint EncodeToString (bs : list Z) : list Z :=
  match bs with
  | [] => []
  | [a] => [b64char (a / 4); b64char (a mod 4 * 16); 61; 61]
  | [a; b] => [b64char (a / 4); b64char (a mod 4 * 16 + b / 16); b64char (b mod 16 * 4); 61]
  | a :: b :: c :: bs => b64char (a / 4) :: b64char (a mod 4 * 16 + b / 16) :: b64char (b mod 16 * 4 + c / 64) :: b64char (c mod 64) :: EncodeToString bs
  end.

(** ** The configuration *)

Record PeerConfig : Type := {
  pc_PublicKey : list Z; pc_PresharedKey : list Z; pc_Endpoint : list Z; pc_AllowedIPs : list (list Z); pc_PersistentKeepaliveInterval : Z
}.
Record DeviceConfig : Type := {
  c_PrivateKey : list Z; c_Address : list (list Z); c_Dns : list (list Z); c_Mtu : Z;
  c_Jc : Z; c_Jmin : Z; c_Jmax : Z; c_S1 : Z; c_S2 : Z; c_S3 : Z; c_S4 : Z;
  c_H1 : list Z; c_H2 : list Z; c_H3 : list Z; c_H4 : list Z;
  c_I1 : list Z; c_I2 : list Z; c_I3 : list Z; c_I4 : list Z; c_I5 : list Z;
  c_Peers : list PeerConfig
}.

Definition writeKey (key : string) (value : list Z) : list Z := 10 :: str key ++ 61 :: value.
Definition writeInt (key : string) (n : Z) : list Z := if negb (n =? 0) then writeKey key (Itoa n) else [].
Definition writeString (key : string) (v : list Z) : list Z := if negb (bool_decide (v = [])) then writeKey key v else [].

Definition genPeer (p : PeerConfig) : option (list Z) :=
  publicKeyBytes ← DecodeString (pc_PublicKey p);
  psk ← (if negb (bool_decide (pc_PresharedKey p = [])) then k ← DecodeString (pc_PresharedKey p); Some (writeKey "preshared_key" (hexEncode k)) else Some []);
  Some (writeKey "public_key" (hexEncode publicKeyBytes) ++ writeKey "endpoint" (pc_Endpoint p) ++ concat (writeKey "allowed_ip" <$> pc_AllowedIPs p) ++
        psk ++ writeInt "persistent_keepalive_interval" (pc_PersistentKeepaliveInterval p)).

Fixpoint genPeers (ps : list PeerConfig) : option (list Z) :=
  match ps with [] => Some [] | p :: ps => a ← genPeer p; b ← genPeers ps; Some (a ++ b) end.

(** [None]: a key is not base64. *)
Definition genIpcString (cfg : DeviceConfig) : option (list Z) :=
  privateKeyBytes ← DecodeString (c_PrivateKey cfg);
  peers ← genPeers (c_Peers cfg);
  Some (str "private_key=" ++ hexEncode privateKeyBytes ++
        writeInt "jc" (c_Jc cfg) ++ writeInt "jmin" (c_Jmin cfg) ++ writeInt "jmax" (c_Jmax cfg) ++
        writeInt "s1" (c_S1 cfg) ++ writeInt "s2" (c_S2 cfg) ++ writeInt "s3" (c_S3 cfg) ++ writeInt "s4" (c_S4 cfg) ++
        writeString "h1" (c_H1 cfg) ++ writeString "h2" (c_H2 cfg) ++ writeString "h3" (c_H3 cfg) ++ writeString "h4" (c_H4 cfg) ++
        writeString "i1" (c_I1 cfg) ++ writeString "i2" (c_I2 cfg) ++ writeString "i3" (c_I3 cfg) ++ writeString "i4" (c_I4 cfg) ++ writeString "i5" (c_I5 cfg) ++
        peers).

(** ** base64 *)

Lemma b64_char v : 0 <= v < 64 -> b64val (b64char v) = Some v /\ b64char v <> 61 /\ b64char v <> 10 /\ b64char v <> 13.
Proof.
  intros Hv. assert (Forall (fun n => b64val (b64char (Z.of_nat n)) = Some (Z.of_nat n) /\ b64char (Z.of_nat n) <> 61 /\ b64char (Z.of_nat n) <> 10 /\ b64char (Z.of_nat n) <> 13) (seq 0 64)) as HF
    by (apply Forall_seq; intros j Hj; do 64 (destruct j as [|j]; [by repeat split; vm_compute|]); lia).
  rewrite Forall_seq in HF. specialize (HF (Z.to_nat v) ltac:(lia)). by rewrite Z2Nat.id in HF by lia.
Qed.

Lemma encode_clean bs : Forall is_u8 bs -> Forall (fun c => c <> 10 /\ c <> 13) (EncodeToString bs).
Proof.
  induction bs as [bs IH] using (induction_ltof1 _ (@length Z)). unfold ltof in IH. intros Hb.
  assert (forall v, 0 <= v < 64 -> b64char v <> 10 /\ b64char v <> 13) as Hc by (intros v Hv; destruct (b64_char v Hv) as (_ & _ & H); exact H).
  destruct bs as [|a [|b [|c bs]]]; cbn [EncodeToString]; [constructor|..]; repeat (apply Forall_cons in Hb as [? Hb]); unfold is_u8 in *;
    repeat (apply Forall_cons_2; [first [apply Hc; Z.div_mod_to_equations; lia|split; lia]|]); [apply Forall_nil_2..|].
  apply IH; [cbn; lia|done].
Qed.

(** Decoding what was encoded gives the bytes back. *)
Theorem base64_roundtrip bs : Forall is_u8 bs -> DecodeString (EncodeToString bs) = Some bs.
Proof.
  intros Hb. unfold DecodeString. assert (filter (fun c => c <> 10 /\ c <> 13) (EncodeToString bs) = EncodeToString bs) as ->.
  { pose proof (encode_clean bs Hb) as Hc. induction Hc as [|c l Hc _ IH]; [done|]. by rewrite filter_cons_True, IH. }
  revert Hb. induction bs as [bs IH] using (induction_ltof1 _ (@length Z)). unfold ltof in IH. intros Hb.
  destruct bs as [|a [|b [|c bs]]]; cbn [EncodeToString]; [done|..]; repeat (apply Forall_cons in Hb as [? Hb]); unfold is_u8 in *; cbn [decodeQuanta].
  - destruct (b64_char (a / 4)) as (-> & _); [Z.div_mod_to_equations; lia|]. destruct (b64_char (a mod 4 * 16)) as (-> & _); [Z.div_mod_to_equations; lia|]. cbn. do 2 f_equal. Z.div_mod_to_equations. lia.
  - destruct (b64_char (a / 4)) as (-> & _); [Z.div_mod_to_equations; lia|]. destruct (b64_char (a mod 4 * 16 + b / 16)) as (-> & _); [Z.div_mod_to_equations; lia|].
    destruct (b64_char (b mod 16 * 4)) as (E & N & _); [Z.div_mod_to_equations; lia|]. cbn [mbind option_bind]. rewrite (proj2 (Z.eqb_neq _ _) N), E. cbn.
    f_equal. f_equal; [|f_equal]; Z.div_mod_to_equations; lia.
  - destruct (b64_char (a / 4)) as (-> & _); [Z.div_mod_to_equations; lia|]. destruct (b64_char (a mod 4 * 16 + b / 16)) as (-> & _); [Z.div_mod_to_equations; lia|].
    destruct (b64_char (b mod 16 * 4 + c / 64)) as (E & N & _); [Z.div_mod_to_equations; lia|]. destruct (b64_char (c mod 64)) as (E' & N' & _); [Z.div_mod_to_equations; lia|].
    cbn [mbind option_bind]. rewrite (proj2 (Z.eqb_neq _ _) N), E. cbn [mbind option_bind]. rewrite (proj2 (Z.eqb_neq _ _) N'), E'. cbn [mbind option_bind].
    rewrite IH by (cbn; lia || done). cbn [mbind option_bind]. f_equal. f_equal; [|f_equal; [|f_equal]]; Z.div_mod_to_equations; lia.
Qed.

(** ** The lines that IpcSet sees *)

Definition lineOf (kv : string * list Z) : list Z := str kv.1 ++ 61 :: kv.2.
Definition ifInt (key : string) (n : Z) : list (string * list Z) := if n =? 0 then [] else [(key, Itoa n)].
Definition ifString (key : string) (v : list Z) : list (string * list Z) := if decide (v = []) then [] else [(key, v)].

Definition peerSettings (p : PeerConfig) (pub psk : list Z) : list (string * list Z) :=
  [("public_key", hexEncode pub); ("endpoint", pc_Endpoint p)] ++ ((fun a => ("allowed_ip", a)) <$> pc_AllowedIPs p) ++
  (if decide (pc_PresharedKey p = []) then [] else [("preshared_key", hexEncode psk)]) ++ ifInt "persistent_keepalive_interval" (pc_PersistentKeepaliveInterval p).

(** The settings of a configuration whose keys decode to [priv] and [keys]. *)
Definition settings (cfg : DeviceConfig) (priv : list Z) (keys : list (list Z * list Z)) : list (string * list Z) :=
  ("private_key", hexEncode priv) ::
  ifInt "jc" (c_Jc cfg) ++ ifInt "jmin" (c_Jmin cfg) ++ ifInt "jmax" (c_Jmax cfg) ++ ifInt "s1" (c_S1 cfg) ++ ifInt "s2" (c_S2 cfg) ++ ifInt "s3" (c_S3 cfg) ++ ifInt "s4" (c_S4 cfg) ++
  ifString "h1" (c_H1 cfg) ++ ifString "h2" (c_H2 cfg) ++ ifString "h3" (c_H3 cfg) ++ ifString "h4" (c_H4 cfg) ++
  ifString "i1" (c_I1 cfg) ++ ifString "i2" (c_I2 cfg) ++ ifString "i3" (c_I3 cfg) ++ ifString "i4" (c_I4 cfg) ++ ifString "i5" (c_I5 cfg) ++
  concat (zip_with (fun p k => peerSettings p k.1 k.2) (c_Peers cfg) keys).

(** The keys of a peer. *)
Definition peerKeys (p : PeerConfig) (k : list Z * list Z) : Prop :=
  DecodeString (pc_PublicKey p) = Some k.1 /\ (pc_PresharedKey p <> [] -> DecodeString (pc_PresharedKey p) = Some k.2).

(** The text of further settings. *)
Definition written (kvs : list (string * list Z)) : list Z := concat ((fun kv => 10 :: lineOf kv) <$> kvs).

Lemma written_app a b : written (a ++ b) = written a ++ written b.
Proof. unfold written. by rewrite fmap_app, concat_app. Qed.
Lemma writeInt_written key n : writeInt key n = written (ifInt key n).
Proof. unfold writeInt, ifInt. destruct (n =? 0); [done|]. cbn. unfold written, lineOf. cbn. by rewrite app_nil_r. Qed.
Lemma writeString_written key v : writeString key v = written (ifString key v).
Proof. unfold writeString, ifString. destruct (decide (v = [])) as [-> |]; [done|]. rewrite bool_decide_false by done. cbn. unfold written, lineOf. cbn. by rewrite app_nil_r. Qed.

Lemma genPeer_written p k : peerKeys p k -> genPeer p = Some (written (peerSettings p k.1 k.2)).
Proof.
  intros [H1 H2]. unfold genPeer, peerSettings. rewrite H1. cbn [mbind option_bind]. rewrite !written_app, writeInt_written.
  assert (concat (writeKey "allowed_ip" <$> pc_AllowedIPs p) = written ((fun a => ("allowed_ip", a)) <$> pc_AllowedIPs p)) as -> by (unfold written; by rewrite <- list_fmap_compose).
  destruct (decide (pc_PresharedKey p = [])) as [E|E].
  - rewrite bool_decide_true by done. cbn [negb mbind option_bind]. unfold written at 3. cbn. unfold written at 3, lineOf. cbn. by rewrite ?app_nil_r, <- ?app_assoc.
  - rewrite bool_decide_false, (H2 E) by done. cbn [negb mbind option_bind]. unfold written at 3 4, lineOf. cbn. by rewrite ?app_nil_r, <- ?app_assoc.
Qed.

Lemma genPeers_written ps ks : Forall2 peerKeys ps ks -> genPeers ps = Some (written (concat (zip_with (fun p k => peerSettings p k.1 k.2) ps ks))).
Proof.
  induction 1 as [|p k ps ks Hp _ IH]; [done|]. cbn [genPeers zip_with concat]. rewrite (genPeer_written _ _ Hp), IH. cbn [mbind option_bind]. by rewrite written_app.
Qed.

(** A value that stays on its line: no line end in it, no carriage return at its end, and
    short enough for the scanner. *)
Definition clean (v : list Z) : Prop := Forall (fun x => x <> 10) v /\ last v <> Some 13 /\ len v < 60000.
Definition cleanKey (k : string) : Prop := Forall (fun x => x <> 10) (str k) /\ len (str k) < 100.

Lemma lineOf_scan kv : cleanKey kv.1 -> clean kv.2 ->
  Forall (fun x => x <> 10) (lineOf kv) /\ len (lineOf kv) < MaxScanTokenSize /\ 0 < len (lineOf kv) /\ dropCR (lineOf kv) = lineOf kv.
Proof.
  intros [K1 K2] (V1 & V2 & V3). pose proof (len_nonneg (str kv.1)). pose proof (len_nonneg kv.2).
  assert (len (lineOf kv) = len (str kv.1) + 1 + len kv.2) as Hl by (unfold lineOf, len; rewrite length_app; cbn; lia).
  unfold MaxScanTokenSize. split_and!; [|lia|lia|].
  - unfold lineOf. apply Forall_app. split; [done|]. by apply Forall_cons.
  - unfold dropCR, lineOf. rewrite reverse_app, reverse_cons. destruct kv.2 as [|x v _] using rev_ind; cbn; [done|].
    rewrite reverse_snoc. rewrite last_snoc in V2. cbn. destruct (decide (x = 13)) as [-> |]; [done|]. repeat case_match; simplify_eq; done.
Qed.

Lemma scan_written first rest : cleanKey first.1 -> clean first.2 -> Forall (fun kv => cleanKey kv.1 /\ clean kv.2) rest ->
  scanLines (SplitByte (lineOf first ++ written rest) 10) = (lineOf <$> (first :: rest), false).
Proof.
  intros Hk Hv Hr. revert first Hk Hv. induction Hr as [|kv rest [Hk' Hv'] _ IH]; intros first Hk Hv; destruct (lineOf_scan first Hk Hv) as (L1 & L2 & L3 & L4).
  - unfold written. cbn. rewrite app_nil_r, SplitByte_none by done. cbn. rewrite (proj2 (Z.eqb_neq _ _)), (proj2 (Z.leb_gt _ _)), L4 by lia. done.
  - change (written (kv :: rest)) with ((10 :: lineOf kv) ++ written rest). cbn [app]. rewrite SplitByte_sep by done. rewrite fmap_cons.
    specialize (IH kv Hk' Hv'). destruct (SplitByte (lineOf kv ++ written rest) 10) as [|l ls] eqn:E; [done|]. cbn [scanLines]. rewrite (proj2 (Z.leb_gt _ _)) by lia. cbn [scanLines] in IH. rewrite IH. by rewrite L4.
Qed.

Lemma hexEncode_clean bs : Forall is_u8 bs -> len bs < 20000 -> clean (hexEncode bs).
Proof.
  intros Hb Hl. assert (forall d, 0 <= d < 16 -> hexDigit d <> 10 /\ hexDigit d <> 13) as Hd.
  { intros d Hd. unfold hexDigit. split; destruct (_ <? _) eqn:E; rewrite ?Z.ltb_lt, ?Z.ltb_ge in E; lia. }
  assert (Forall (fun x => x <> 10 /\ x <> 13) (hexEncode bs) /\ len (hexEncode bs) = 2 * len bs) as [HF HL].
  { unfold hexEncode. clear Hl. induction Hb as [|b bs Hb _ [IH1 IH2]]; [done|]. unfold is_u8 in Hb. cbn. split.
    - apply Forall_cons_2; [apply Hd; Z.div_mod_to_equations; lia|]. apply Forall_cons_2; [apply Hd; Z.div_mod_to_equations; lia|done].
    - unfold len in *. cbn. cbn in IH2. lia. }
  split_and!; [by eapply Forall_impl; [exact HF|]; intros x []| |lia].
  intros Hlast. destruct (hexEncode bs) as [|x l _] using rev_ind; [done|]. rewrite last_snoc in Hlast. injection Hlast as ->. apply Forall_app in HF as [_ HF]. apply Forall_cons in HF as [[_ ?] _]. done.
Qed.

#[export] Instance cleanKey_dec k : Decision (cleanKey k).
Proof. unfold cleanKey. apply _. Defined.
Lemma cleanKey_of k : bool_decide (cleanKey k) = true -> cleanKey k.
Proof. apply bool_decide_eq_true_1. Qed.
Ltac key_clean := apply cleanKey_of; by vm_compute.

Lemma ifInt_keys k n : cleanKey k -> Forall (fun kv : string * list Z => cleanKey kv.1) (ifInt k n).
Proof. intros Hk. unfold ifInt. destruct (n =? 0); [apply Forall_nil_2|]. by apply Forall_singleton. Qed.
Lemma ifString_keys k v : cleanKey k -> Forall (fun kv : string * list Z => cleanKey kv.1) (ifString k v).
Proof. intros Hk. unfold ifString. destruct (decide _); [apply Forall_nil_2|]. by apply Forall_singleton. Qed.
Lemma peerSettings_keys p a b : Forall (fun kv : string * list Z => cleanKey kv.1) (peerSettings p a b).
Proof.
  unfold peerSettings. repeat apply Forall_app_2; [apply Forall_cons_2; [key_clean|apply Forall_singleton; key_clean]| | |apply ifInt_keys; key_clean].
  - apply Forall_fmap, Forall_true. intros x. cbn. key_clean.
  - destruct (decide _); [apply Forall_nil_2|apply Forall_singleton; key_clean].
Qed.
Lemma settings_keys cfg priv keys : Forall (fun kv : string * list Z => cleanKey kv.1) (settings cfg priv keys).
Proof.
  unfold settings. apply Forall_cons_2; [key_clean|]. repeat apply Forall_app_2; try (apply ifInt_keys; key_clean); try (apply ifString_keys; key_clean).
  generalize (c_Peers cfg). intros ps. revert keys. induction ps as [|p ps IH]; intros [|k keys]; cbn [zip_with concat]; try apply Forall_nil_2. apply Forall_app_2; [apply peerSettings_keys|apply IH].
Qed.

(** The text that is generated, read by IpcSet. *)
Lemma settings_text `{Primitives} `{InitialCrypto} (cfg : DeviceConfig) (priv : list Z) (keys : list (list Z * list Z)) :
  DecodeString (c_PrivateKey cfg) = Some priv -> Forall2 peerKeys (c_Peers cfg) keys ->
  Forall (fun kv => clean kv.2) (settings cfg priv keys) ->
  exists text, genIpcString cfg = Some text /\
    IpcSet text = setLoop (lineOf <$> settings cfg priv keys) false (mkSetPeer None false false false) true.
Proof.
  intros Hp Hk Hc. unfold genIpcString. rewrite Hp, (genPeers_written _ _ Hk). cbn [mbind option_bind]. eexists. split; [done|].
  pose proof (settings_keys cfg priv keys) as Hkeys. unfold settings in *. rewrite !writeInt_written, !writeString_written, <- !written_app.
  match goal with |- IpcSet (_ ++ _ ++ written ?r) = _ => set (rest := r) in * end.
  change (str "private_key=" ++ hexEncode priv ++ written rest) with (lineOf ("private_key", hexEncode priv) ++ written rest).
  apply Forall_cons in Hc as [Hc1 Hc]. apply Forall_cons in Hkeys as [Hk1 Hkeys].
  unfold IpcSet. rewrite (scan_written ("private_key", hexEncode priv) rest Hk1 Hc1) by (by apply Forall_and). done.
Qed.

(** C38: Every setting of a configuration reaches the device as one line: for keys that are
    base64 and values without line ends, the text that is generated is read by IpcSet as the
    lines private_key, then the obfuscation settings that are set, then for every peer its
    public_key, endpoint, allowed_ip, preshared_key and keepalive lines, in that order and
    no others. *)
Theorem outline_settings `{Primitives} `{InitialCrypto} (cfg : DeviceConfig) (priv : list Z) (keys : list (list Z * list Z)) :
  DecodeString (c_PrivateKey cfg) = Some priv -> Forall2 peerKeys (c_Peers cfg) keys ->
  Forall (fun kv => clean kv.2) (settings cfg priv keys) ->
  exists text, genIpcString cfg = Some text /\
    IpcSet text = setLoop (lineOf <$> settings cfg priv keys) false (mkSetPeer None false false false) true.
Proof. apply settings_text. Qed.

(** A configuration with one peer. *)
Definition sampleKey : list Z := replicate 32 7.
Definition sampleConfig : DeviceConfig :=
  {| c_PrivateKey := EncodeToString sampleKey; c_Address := [str "10.8.0.2/32"]; c_Dns := [str "1.1.1.1"]; c_Mtu := 0; c_Jc := 4; c_Jmin := 40; c_Jmax := 70; c_S1 := 15; c_S2 := 0; c_S3 := 0; c_S4 := 0;
     c_H1 := str "5-9"; c_H2 := []; c_H3 := []; c_H4 := []; c_I1 := []; c_I2 := []; c_I3 := []; c_I4 := []; c_I5 := [];
     c_Peers := [{| pc_PublicKey := EncodeToString sampleKey; pc_PresharedKey := []; pc_Endpoint := str "192.0.2.1:51820"; pc_AllowedIPs := [str "0.0.0.0/0"; str "::/0"];
                    pc_PersistentKeepaliveInterval := 25 |}] |}.
#[local] Existing Instance toyPrimitives.
#[local] Existing Instance sampleInitialCrypto.
Lemma outline_settings_witness : exists text, genIpcString sampleConfig = Some text /\
  IpcSet text = setLoop (lineOf <$> settings sampleConfig sampleKey [(sampleKey, [])]) false (mkSetPeer None false false false) true.
Proof.
  apply (outline_settings sampleConfig sampleKey [(sampleKey, [])]).
  - by vm_compute.
  - apply Forall2_cons_2; [|apply Forall2_nil_2]. split; [by vm_compute|done].
  - apply (bool_decide_unpack _). by vm_compute.
Defined.
Example sample_settings : drop 8 (lineOf <$> settings sampleConfig sampleKey [(sampleKey, [])]) =
  str <$> ["allowed_ip=0.0.0.0/0"; "allowed_ip=::/0"; "persistent_keepalive_interval=25"]%string.
Proof. by vm_compute. Qed.
