(* ===== verification/Dialer.v ===== *)
(** * Dialer: the proxy dialer (src/outline/dialer.go, fallback.go)

    A configuration becomes a network stack in the process, a device on it that is configured
    with the generated text and brought up, and a dialer of streams through that stack. The
    stack is NetTun's, the resolver and the dials Netstack's, the device that of Uapi and
    DeviceOps; what the libraries answer are arguments. *)
From S2P Require Import Prelude GoLib NetIP Crypto QUICInitial DeviceState System DeviceOps Uapi Netstack NetTun Outline.
#[local] Open Scope Z_scope.

Record DialerOptions : Type := { o_Ipc : list Z; o_Prefixes : list (Addr * Z); o_Mtu : Z; o_Dns : list Addr }.
Inductive dialerErr : Type :=
| ErrYaml | ErrKeys | ErrAddress | ErrDns                                (* FallbackParser *)
| ErrTun (e : createErr) | ErrConfigure (e : Z) | ErrStart (e : Z).      (* NewStreamDialer *)

Section Dialer.
Context `{Primitives} `{InitialCrypto}.

(** [newDevice] is the world around the device that NewDevice makes on a TUN device. The
    result: the calls of the stack, the device if one was made, and the dialer. *)
Definition NewStreamDialer (st : stackAnswers) (newDevice : netTun -> World) (opts : DialerOptions) : option (list stackCall * option World * result Net dialerErr) :=
  let localAddresses := (fun p => Some (fst p)) <$> o_Prefixes opts in
  let '(calls, r) := CreateNetTUN st localAddresses (o_Dns opts) (o_Mtu opts) in
  match r with
  | Err e => Some (calls, None, Err (ErrTun e))
  | Ok tun =>
      '(e, w) ← IpcSet (o_Ipc opts) (newDevice tun);
      match e with
      | Some e => Some (calls, Some w, Err (ErrConfigure e))
      | None =>
          '(e, w) ← Up w;
          Some (calls, Some w, if negb (e =? 0) then Err (ErrStart e) else Ok (nt_net tun))
      end
  end.

(** [cfg] is what the YAML library makes of the node. *)
Definition FallbackParser (st : stackAnswers) (newDevice : netTun -> World) (cfg : option DeviceConfig) : option (list stackCall * option World * result (Net * list Z) dialerErr) :=
  match cfg with
  | None => Some ([], None, Err ErrYaml)
  | Some cfg =>
      match genIpcString cfg with
      | None => Some ([], None, Err ErrKeys)
      | Some ipc =>
          match mapM ParsePrefix (c_Address cfg) with
          | None => Some ([], None, Err ErrAddress)
          | Some prefixes =>
              match mapM ParseAddr (c_Dns cfg) with
              | None => Some ([], None, Err ErrDns)
              | Some dns =>
                  let mtu := if c_Mtu cfg =? 0 then 1408 else c_Mtu cfg in
                  '(calls, w, r) ← NewStreamDialer st newDevice {| o_Ipc := ipc; o_Prefixes := prefixes; o_Mtu := mtu; o_Dns := dns |};
                  Some (calls, w, match r with Ok net => Ok (net, ipc) | Err e => Err e end)
              end
          end
      end
  end.
End Dialer.

(** DialStream: one dot at the end of the host is taken off. [None] as the error is an
    address without a host and a port. *)
Definition dialHost (host : list Z) : list Z :=
  match last host with Some 46 => take (length host - 1) host | _ => host end.
Definition DialStream (lookup : list Z -> option (result (list (list Z)) lookupErr)) (ctx : nat -> ctxAt) (dial : proto -> Addr * Z -> option Z -> option dnsErr)
  (raddr : list Z) : option (result (Addr * Z) (option lookupErr)) :=
  match SplitHostPort raddr with
  | None => Some (Err None)
  | Some (host, port) =>
      let raddr := if bool_decide (last host = Some 46) then JoinHostPort (dialHost host) port else raddr in
      '(r, _) ← DialContext lookup ctx dial (str "tcp") raddr;
      Some match r with Ok a => Ok a | Err e => Err (Some e) end
  end.

(** * Theorems *)

(** A dial looks at its address only through SplitHostPort. *)
Lemma dial_by_host lookup ctx dial a b : SplitHostPort a = SplitHostPort b -> DialContext lookup ctx dial (str "tcp") a = DialContext lookup ctx dial (str "tcp") b.
Proof. intros E. unfold DialContext. change (protoSplitter (str "tcp")) with (Some (tcp, @None Z)). cbn iota. by rewrite E. Qed.

Lemma dialHost_elem x host : x ∈ dialHost host -> x ∈ host.
Proof.
  unfold dialHost. destruct (last host) as [c|]; [|done]. assert (x ∈ take (length host - 1) host -> x ∈ host) as Ht by (intros Hx; rewrite <- (take_drop (length host - 1) host); set_solver).
  destruct c as [|q|q]; try done. do 6 (destruct q as [q|q|]; try done).
Qed.
Lemma dialHost_same host : last host <> Some 46 -> dialHost host = host.
Proof. unfold dialHost. destruct (last host) as [c|]; [|done]. intros Hc. destruct c as [|q|q]; try done. do 6 (destruct q as [q|q|]; try done). Qed.

(** What is dialled is the host without the dot at its end and the port of the address,
    whether the host is a name or an IPv6 literal: the stream goes where a TCP dial of the
    two joined goes. *)
Theorem dial_stream lookup ctx dial raddr host port : SplitHostPort raddr = Some (host, port) ->
  SplitHostPort (JoinHostPort (dialHost host) port) = Some (dialHost host, port) /\
  DialStream lookup ctx dial raddr =
    ('(r, _) ← DialContext lookup ctx dial (str "tcp") (JoinHostPort (dialHost host) port); Some match r with Ok a => Ok a | Err e => Err (Some e) end).
Proof.
  intros E. pose proof (split_host_port_ok _ _ _ E) as (H1 & H2 & H3 & H4 & H5).
  assert (SplitHostPort (JoinHostPort (dialHost host) port) = Some (dialHost host, port)) as Es.
  { apply split_join_host_port. split_and!; try done; intros Hx; apply dialHost_elem in Hx; done. }
  split; [done|]. unfold DialStream. rewrite E. destruct (bool_decide_reflect (last host = Some 46)) as [|Hl]; [done|].
  rewrite (dial_by_host lookup ctx dial raddr (JoinHostPort (dialHost host) port)); [done|]. by rewrite Es, E, dialHost_same.
Qed.

(** The dialer of a configuration: the stack gets the addresses and the servers in their
    order, the device exactly the settings of the configuration and then the call of Up. *)
Theorem fallback_dialer `{Primitives} `{InitialCrypto} st newDevice (cfg : DeviceConfig) priv keys prefixes dns calls net mtu :
  DecodeString (c_PrivateKey cfg) = Some priv -> Forall2 peerKeys (c_Peers cfg) keys -> Forall (fun kv => clean kv.2) (settings cfg priv keys) ->
  mapM ParsePrefix (c_Address cfg) = Some prefixes -> mapM ParseAddr (c_Dns cfg) = Some dns ->
  CreateNetTUN st ((fun p => Some (fst p)) <$> prefixes) dns (if c_Mtu cfg =? 0 then 1408 else c_Mtu cfg) = (calls, Ok {| nt_net := net; nt_mtu := mtu |}) ->
  exists text, genIpcString cfg = Some text /\
    FallbackParser st newDevice (Some cfg) =
      ('(e, w) ← setLoop (lineOf <$> settings cfg priv keys) false (mkSetPeer None false false false) true (newDevice {| nt_net := net; nt_mtu := mtu |});
       match e with
       | Some e => Some (calls, Some w, Err (ErrConfigure e))
       | None => '(e, w) ← Up w; Some (calls, Some w, if negb (e =? 0) then Err (ErrStart e) else Ok (net, text))
       end).
Proof.
  intros Hp Hk Hc Ha Hd Hn. destruct (settings_text cfg priv keys Hp Hk Hc) as (text & Et & Ei). exists text. split; [done|].
  unfold FallbackParser, NewStreamDialer. rewrite Et, Ha, Hd. cbn [o_Prefixes o_Dns o_Mtu o_Ipc]. rewrite Hn, Ei.
  destruct (setLoop _ _ _ _ _) as [[[e|] w]|]; [done| |done]. cbn [mbind option_bind]. destruct (Up w) as [[e w']|]; [|done]. cbn [mbind option_bind]. by destruct (negb (e =? 0)).
Qed.

(** A configuration that cannot be read opens nothing; one that the device refuses leaves the
    device, with what was set before, to nobody. *)
Theorem refused_dialer `{Primitives} `{InitialCrypto} st newDevice (opts : DialerOptions) calls tun e w :
  CreateNetTUN st ((fun p => Some (fst p)) <$> o_Prefixes opts) (o_Dns opts) (o_Mtu opts) = (calls, Ok tun) -> IpcSet (o_Ipc opts) (newDevice tun) = Some (Some e, w) ->
  NewStreamDialer st newDevice opts = Some (calls, Some w, Err (ErrConfigure e)).
Proof. intros Hn Hi. unfold NewStreamDialer. rewrite Hn, Hi. done. Qed.

Example dialled_hosts :
  dialHost (str "example.com.") = str "example.com" /\ JoinHostPort (dialHost (str "fe80::1")) (str "443") = str "[fe80::1]:443".
Proof. by vm_compute. Qed.
