(* ===== verification/Roaming.v ===== *)
(** * Roaming: pinning the endpoints of peers (src/device/mobilequirks.go)

    On some mobile systems the address a packet comes from must not become the endpoint of
    its peer. The flag of the device makes every later configuration of an endpoint pin it;
    the peers that already have one are pinned here. *)
From S2P Require Import Prelude GoLib Replay MagicHeader AllowedIPs QUICInitial RateLimiter Crypto Cookie NoiseTypes NetIP DeviceState Noise Timers Send Receive DeviceOps.
#[local] Open Scope Z_scope.

Definition pin (P : Peer) : Peer :=
  let e := p_endpoint P in with_endpoint (mkPeerEndpoint (ep_val e) (clearSrcOnTx e) (if ep_val e then true else false)) P.

Definition DisableSomeRoamingForBrokenMobileSemantics : M unit :=
  modDev (fun d => with_net (mkNet (n_port (d_net d)) (n_fwmark (d_net d)) true (n_receivers (d_net d))) d) ≫= fun _ =>
  d ← dev;
  forM_ (peersOf d) (fun '(_, p) => modPeer p pin).

Lemma pin_pinned P : pin (pin P) = pin P.
Proof. by destruct P. Qed.

Lemma pin_all ps : forall w, Forall (fun q : list Z * positive => is_Some (w_peers w !! q.2)) ps -> exists w',
  forM_ ps (fun '(_, p) => modPeer p pin) w = Some (tt, w') /\ w_dev w' = w_dev w /\
  forall p, w_peers w' !! p = if decide (p ∈ ps.*2) then pin <$> w_peers w !! p else w_peers w !! p.
Proof.
  induction ps as [|[k q] ps IH]; intros w Hp; cbn [forM_].
  - exists w. split; [done|]. split; [done|]. intros p. by rewrite decide_False by apply not_elem_of_nil.
  - apply Forall_cons in Hp as [[Q HQ] Hp]. cbn in HQ. set (w1 := with_peers (<[q := pin Q]> (w_peers w)) w).
    assert (modPeer q pin w = Some (tt, w1)) as Hm by (unfold modPeer; by rewrite HQ).
    destruct (IH w1) as (w' & Hr & Hd & Hw).
    { eapply Forall_impl; [exact Hp|]. intros [k' q'] [Q' HQ']. cbn in *. destruct (decide (q = q')) as [-> |]; [by rewrite lookup_insert_eq|by rewrite lookup_insert_ne; eauto]. }
    exists w'. split; [unfold mbind, M_bind in *; cbn; by rewrite Hm|]. split; [by rewrite Hd|]. intros p. rewrite Hw. cbn [w1 w_peers with_peers].
    change ((k, q) :: ps).*2 with (q :: ps.*2). destruct (decide (p = q)) as [-> |Hne].
    + rewrite (decide_True (P := q ∈ q :: ps.*2)) by (by left). rewrite lookup_insert_eq, HQ. cbn. destruct (decide _); cbn; by rewrite ?pin_pinned.
    + rewrite lookup_insert_ne by done. destruct (decide (p ∈ ps.*2)); [rewrite decide_True by (by right)|rewrite decide_False by (rewrite elem_of_cons; by intros [])]; done.
Qed.

(** Afterwards the endpoint of every peer that had one stays, whatever packets arrive; a peer
    without one still takes the address of its first packet. *)
Theorem roaming_disabled w : (forall k p, d_keyMap (w_dev w) !! k = Some p -> is_Some (w_peers w !! p)) -> exists w',
  DisableSomeRoamingForBrokenMobileSemantics w = Some (tt, w') /\ n_brokenRoaming (d_net (w_dev w')) = true /\
  forall k p P ep, d_keyMap (w_dev w) !! k = Some p -> w_peers w !! p = Some P ->
    exists w2 P2, SetEndpointFromPacket p ep w' = Some (tt, w2) /\ w_peers w2 !! p = Some P2 /\
      ep_val (p_endpoint P2) = (match ep_val (p_endpoint P) with Some e => Some e | None => Some ep end).
Proof.
  intros Hk. set (w1 := with_dev (with_net (mkNet (n_port (d_net (w_dev w))) (n_fwmark (d_net (w_dev w))) true (n_receivers (d_net (w_dev w)))) (w_dev w)) w).
  destruct (pin_all (peersOf (w_dev w1)) w1) as (w' & Hr & Hd & Hw).
  { apply Forall_forall. intros [k p] Hin. unfold peersOf in Hin. apply elem_of_map_to_list in Hin. by apply (Hk k). }
  exists w'. split; [exact Hr|]. split; [by rewrite Hd|]. intros k p P ep Hkp HP.
  assert (w_peers w' !! p = Some (pin P)) as Hp'.
  { rewrite Hw. rewrite decide_True; [cbn; by rewrite HP|]. apply list_elem_of_fmap. exists (k, p). split; [done|]. unfold peersOf. by apply elem_of_map_to_list. }
  unfold SetEndpointFromPacket, modPeer. rewrite Hp'. cbn [mbind option_bind]. eexists _, _. split; [done|]. cbn. rewrite lookup_insert_eq. split; [done|].
  unfold pin. destruct (p_endpoint P) as [[e|] cl dr] eqn:E; cbn; by rewrite ?E.
Qed.
