(* ===== verification/PipeFile.v ===== *)
(** * PipeFile: overlapped input and output on a pipe (src/ipc/namedpipe/file.go)

    A file is used by any number of goroutines at once: reads, writes, connects, changes of
    the deadlines and Close. Deadline models deadlineHandler with the goroutines of its
    timers; IO models the calls on the handle, the operations that the kernel has not
    completed and the goroutine that passes completions on. Both are executable steps; a
    goroutine can stop between any two accesses to what is shared. Critical sections of
    wgLock, setLock and channelLock are one step each. What the kernel answers is part of
    the labels, about which nothing is assumed. *)
From S2P Require Import Prelude Threads GoLib.
#[local] Open Scope Z_scope.

(** The errors that the package compares; others are numbered. *)
Inductive pipeErr : Type :=
| ERROR_OPERATION_ABORTED | ERROR_BROKEN_PIPE | ERROR_MORE_DATA | ERROR_NO_DATA | ERROR_PIPE_BUSY | ERROR_PIPE_CONNECTED | ERROR_ACCESS_DENIED
| ErrClosed | ErrDeadlineExceeded | EOF | ErrClosedPipe | NetErrClosed | ContextDeadlineExceeded | OtherErr (e : Z).
#[export] Instance pipeErr_eq_dec : EqDecision pipeErr.
Proof. solve_decision. Defined.

Arguments count {A} P l : simpl never.
Arguments total {A} f l : simpl never.

(** ** Deadlines *)

Module Deadline.

(** Where a call of set is; its deadline, [None] for the zero time. *)
Inductive setPc : Type :=
| Idle
| AtStop (d : option Z) | AtAwait (d : option Z) | AtReset (d : option Z) | AtRenew (d : option Z) | AtArm (d : option Z)
| AtExpireStore | AtExpireClose.
(** The goroutine of a timer that has expired: before each of the statements of timeoutIO. *)
Inductive timeoutPc : Type := AtStore | AtClose.
#[export] Instance timeoutPc_eq_dec : EqDecision timeoutPc.
Proof. solve_decision. Defined.

(** deadlineHandler. Channels are numbered in the order in which they are made; [timer] is
    [Some expired]. setLock is held when [setting] is not [Idle]. *)
Record deadlineHandler : Type := {
  channel : nat;
  closed : gset nat;
  made : nat;
  timer : option bool;
  timedout : bool;
  running : list timeoutPc;
  setting : setPc;
  panicked : bool       (* a channel was closed twice *)
}.
Definition newHandler : deadlineHandler :=
  {| channel := 0; closed := ∅; made := 1; timer := None; timedout := false; running := []; setting := Idle; panicked := false |}.

Definition with_setting (p : setPc) (s : deadlineHandler) : deadlineHandler :=
  {| channel := channel s; closed := closed s; made := made s; timer := timer s; timedout := timedout s; running := running s; setting := p; panicked := panicked s |}.
Definition with_timer (t : option bool) (s : deadlineHandler) : deadlineHandler :=
  {| channel := channel s; closed := closed s; made := made s; timer := t; timedout := timedout s; running := running s; setting := setting s; panicked := panicked s |}.
Definition with_timedout (b : bool) (s : deadlineHandler) : deadlineHandler :=
  {| channel := channel s; closed := closed s; made := made s; timer := timer s; timedout := b; running := running s; setting := setting s; panicked := panicked s |}.
Definition with_running (r : list timeoutPc) (s : deadlineHandler) : deadlineHandler :=
  {| channel := channel s; closed := closed s; made := made s; timer := timer s; timedout := timedout s; running := r; setting := setting s; panicked := panicked s |}.
(** [d.channel = make(chan struct{})] *)
Definition makeChannel (s : deadlineHandler) : deadlineHandler :=
  {| channel := made s; closed := closed s; made := S (made s); timer := timer s; timedout := timedout s; running := running s; setting := setting s; panicked := panicked s |}.
(** [close(d.channel)] *)
Definition closeChannel (s : deadlineHandler) : deadlineHandler :=
  {| channel := channel s; closed := {[channel s]} ∪ closed s; made := made s; timer := timer s; timedout := timedout s; running := running s; setting := setting s;
     panicked := panicked s || bool_decide (channel s ∈ closed s) |}.

(** A call of set starts; its next statement, with the time it reads; a timer expires; a
    goroutine runs its next statement. *)
Inductive label : Type := Set_ (d : option Z) | Next (now : Z) | Expire | Run (i : nat).

(** The statements of set. *)
Definition next (now : Z) (s : deadlineHandler) : option deadlineHandler :=
  match setting s with
  | Idle => None
  | AtStop d =>
      match timer s with
      | None => Some (with_setting (AtReset d) s)
      | Some false => Some (with_setting (AtReset d) (with_timer None s))
      | Some true => Some (with_setting (AtAwait d) s)
      end
  | AtAwait d => if bool_decide (channel s ∈ closed s) then Some (with_setting (AtReset d) (with_timer None s)) else None
  | AtReset d => Some (with_setting (AtRenew d) (with_timedout false s))
  | AtRenew d => Some (with_setting (AtArm d) (if bool_decide (channel s ∈ closed s) then makeChannel s else s))
  | AtArm None => Some (with_setting Idle s)
  | AtArm (Some t) => if now <? t then Some (with_setting Idle (with_timer (Some false) s)) else Some (with_setting AtExpireStore s)
  | AtExpireStore => Some (with_setting AtExpireClose (with_timedout true s))
  | AtExpireClose => Some (with_setting Idle (closeChannel s))
  end.
(** timeoutIO in a goroutine of its own. *)
Definition timeoutIO (i : nat) (s : deadlineHandler) : option deadlineHandler :=
  pc ← running s !! i;
  match pc with
  | AtStore => Some (with_timedout true (with_running (<[i := AtClose]> (running s)) s))
  | AtClose => Some (closeChannel (with_running (delete i (running s)) s))
  end.
Definition step (l : label) (s : deadlineHandler) : option deadlineHandler :=
  match l with
  | Set_ d => match setting s with Idle => Some (with_setting (AtStop d) s) | _ => None end
  | Next now => next now s
  | Expire => match timer s with Some false => Some (with_running (AtStore :: running s) (with_timer (Some true) s)) | _ => None end
  | Run i => timeoutIO i s
  end.
Inductive reachable : deadlineHandler -> Prop :=
| reach_new : reachable newHandler
| reach_step l s s' : reachable s -> step l s = Some s' -> reachable s'.

(** The channel in use is closed. *)
Definition isClosed (s : deadlineHandler) : bool := bool_decide (channel s ∈ closed s).

(** What holds between the steps: at most one timer is not finished, and its goroutine is
    the only one that may store and close. *)
Definition timerInv (s : deadlineHandler) : Prop :=
  match timer s with
  | None => running s = [] /\
      match setting s with
      | Idle | AtStop _ | AtReset _ => timedout s = isClosed s
      | AtAwait _ => False
      | AtRenew _ => timedout s = false
      | AtArm _ | AtExpireStore => timedout s = false /\ isClosed s = false
      | AtExpireClose => timedout s = true /\ isClosed s = false
      end
  | Some false => running s = [] /\ timedout s = false /\ isClosed s = false /\ match setting s with Idle | AtStop _ => True | _ => False end
  | Some true => match setting s with Idle | AtStop _ | AtAwait _ => True | _ => False end /\
      match running s with
      | [] => timedout s = true /\ isClosed s = true
      | [AtStore] => timedout s = false /\ isClosed s = false
      | [AtClose] => timedout s = true /\ isClosed s = false
      | _ => False
      end
  end.
Record inv (s : deadlineHandler) : Prop := {
  iv_made : (channel s < made s)%nat;
  iv_closed : set_Forall (fun c => c < made s)%nat (closed s);
  iv_panicked : panicked s = false;
  iv_timer : timerInv s
}.

Lemma deadline_inv_new : inv newHandler.
Proof. split; simpl; [lia|intros c Hc; set_solver|done|done]. Qed.

Lemma isClosed_with_timer t s : isClosed (with_timer t s) = isClosed s.
Proof. done. Qed.
Lemma isClosed_close s : isClosed (closeChannel s) = true.
Proof. unfold isClosed. cbn. apply bool_decide_eq_true. set_solver. Qed.
Lemma isClosed_make s : inv s -> isClosed (makeChannel s) = false.
Proof. intros [Hm Hc _ _]. unfold isClosed. cbn. apply bool_decide_eq_false. intros Hin. specialize (Hc _ Hin). simpl in Hc. lia. Qed.
(** Closing a channel that is open. *)
Lemma close_bounds s : (channel s < made s)%nat -> set_Forall (fun c => c < made s)%nat (closed s) -> panicked s = false -> isClosed s = false ->
  (channel (closeChannel s) < made (closeChannel s))%nat /\ set_Forall (fun c => c < made (closeChannel s))%nat (closed (closeChannel s)) /\ panicked (closeChannel s) = false.
Proof.
  intros Hm Hc Hp Hcl. split; [done|]. split; [|cbn; unfold isClosed in Hcl; by rewrite Hp, Hcl].
  intros c [->%elem_of_singleton|Hin]%elem_of_union; [done|]. by apply Hc.
Qed.

Lemma next_inv now s s' : inv s -> next now s = Some s' -> inv s'.
Proof.
  intros Hinv H. pose proof Hinv as [Hm Hc Hp Ht]. unfold next in H. unfold timerInv in Ht.
  destruct (setting s) as [|d|d|d|d|d| |] eqn:Es; [done| | | | | | |].
  - destruct (timer s) as [[|]|] eqn:Et; injection H as <-; split; try done; unfold timerInv; cbn; rewrite ?Et; try done.
    destruct Ht as (? & -> & Hcl & _). unfold isClosed in *. cbn. done.
  - destruct (bool_decide _) eqn:Ecl; [|done]. injection H as <-. split; try done. unfold timerInv. cbn. destruct (timer s) as [[|]|]; [|naive_solver|naive_solver].
    destruct Ht as [_ Ht]. unfold isClosed in *. cbn. rewrite Ecl in *. destruct (running s) as [|[|] [|? ?]]; naive_solver.
  - injection H as <-. split; try done. unfold timerInv. cbn. destruct (timer s) as [[|]|]; naive_solver.
  - destruct (timer s) as [[|]|] eqn:Et; [naive_solver|naive_solver|]. destruct Ht as [Hr Hto]. injection H as <-.
    destruct (bool_decide _) eqn:Ecl.
    + split; cbn; [lia|intros c Hin; specialize (Hc c Hin); simpl in *; lia|done|]. unfold timerInv. cbn. rewrite Et. split; [done|]. split; [done|]. by apply isClosed_make.
    + split; try done. unfold timerInv. cbn. by rewrite Et.
  - destruct (timer s) as [[|]|] eqn:Et; [naive_solver|naive_solver|]. destruct Ht as [Hr [Hto Hcl]]. destruct d as [t|].
    + destruct (now <? t); injection H as <-; split; try done; unfold timerInv; cbn; by rewrite ?Et.
    + injection H as <-. split; try done. unfold timerInv. cbn. rewrite Et. split; [done|]. change (timedout s = isClosed s). by rewrite Hto, Hcl.
  - injection H as <-. split; try done. unfold timerInv. cbn. destruct (timer s) as [[|]|]; naive_solver.
  - injection H as <-. destruct (timer s) as [[|]|] eqn:Et; [naive_solver|naive_solver|]. destruct Ht as [Hr [Hto Hcl]]. destruct (close_bounds s Hm Hc Hp Hcl) as (? & ? & ?).
    split; try done. unfold timerInv. cbn. rewrite Et. split; [done|]. change (timedout s = isClosed (closeChannel s)). by rewrite isClosed_close.
Qed.

Lemma deadline_step_inv l s s' : inv s -> step l s = Some s' -> inv s'.
Proof.
  intros Hinv H. destruct l as [d|now| |i]; cbn in H; [| by eapply next_inv| |]; pose proof Hinv as [Hm Hc Hp Ht]; unfold timerInv in Ht.
  - destruct (setting s) eqn:Es; try done. injection H as <-. split; try done; unfold timerInv; cbn; destruct (timer s) as [[|]|]; naive_solver.
  - destruct (timer s) as [[|]|] eqn:Et; try done. injection H as <-. destruct Ht as (Hr & Hto & Hcl & Hs). split; try done. unfold timerInv. cbn. rewrite Hr. split; [by destruct (setting s)|done].
  - unfold timeoutIO in H. destruct (running s !! i) as [pc|] eqn:Ei; [|done]. destruct (timer s) as [[|]|] eqn:Et; [|destruct Ht as [Hr _]; by rewrite Hr in Ei|destruct Ht as [Hr _]; by rewrite Hr in Ei].
    destruct Ht as [Hs Ht]. destruct (running s) as [|p [|p' r]] eqn:Er; [done| |by destruct p]. destruct i as [|i]; [|done]. injection Ei as <-. destruct p; cbn in H; injection H as <-.
    + split; try done. unfold timerInv. cbn. rewrite Et. split; [done|]. split; [done|]. apply Ht.
    + destruct Ht as [Hto Hcl]. destruct (close_bounds (with_running [] s) Hm Hc Hp Hcl) as (? & ? & ?). split; try done. unfold timerInv. cbn. rewrite Et. split; [done|]. split; [done|]. apply isClosed_close.
Qed.
Lemma deadline_reachable_inv s : reachable s -> inv s.
Proof. induction 1 as [|l s s' _ IH H]; [apply deadline_inv_new|by eapply deadline_step_inv]. Qed.

(** What a call of set has done when it returns. *)
Lemma set_returns now s s' : inv s -> next now s = Some s' -> setting s' = Idle ->
  match setting s with
  | AtArm None => timedout s' = false /\ isClosed s' = false /\ timer s' = None /\ running s' = []
  | AtArm (Some t) => now < t /\ timedout s' = false /\ isClosed s' = false /\ timer s' = Some false /\ running s' = []
  | AtExpireClose => timedout s' = true /\ isClosed s' = true /\ timer s' = None /\ running s' = []
  | _ => False
  end.
Proof.
  intros [Hm Hc Hp Ht] H Hidle. unfold next in H. unfold timerInv in Ht. destruct (setting s) as [|d|d|d|d|d| |] eqn:Es; [done| | | | | | |].
  - destruct (timer s) as [[|]|]; injection H as <-; done.
  - destruct (bool_decide _); [|done]. by injection H as <-.
  - by injection H as <-.
  - by injection H as <-.
  - destruct (timer s) as [[|]|] eqn:Et; [naive_solver|naive_solver|]. destruct Ht as [Hr [Hto Hcl]]. destruct d as [t|].
    + destruct (Z.ltb_spec now t); injection H as <-; [|done]. done.
    + injection H as <-. done.
  - by injection H as <-.
  - destruct (timer s) as [[|]|] eqn:Et; [naive_solver|naive_solver|]. destruct Ht as [Hr [Hto Hcl]]. injection H as <-. split; [done|]. split; [apply (isClosed_close s)|]. done.
Qed.
(** A call of set is never stuck: what it waits for is about to happen. *)
Lemma set_progress now s : inv s -> setting s <> Idle -> is_Some (next now s) \/ is_Some (timeoutIO 0 s).
Proof.
  intros [Hm Hc Hp Ht] Hs. unfold next. unfold timerInv in Ht. destruct (setting s) as [|d|d|d|d|d| |] eqn:Es; try (left; by eauto); try done.
  - left. destruct (timer s) as [[|]|]; eauto.
  - unfold isClosed in Ht. destruct (timer s) as [[|]|]; [|naive_solver|naive_solver]. destruct Ht as [_ Ht]. unfold timeoutIO. destruct (running s) as [|[|] [|? ?]]; cbn; try done; [|right; eauto|right; eauto].
    left. destruct Ht as [_ ->]. eauto.
  - left. destruct d; [destruct (_ <? _)|]; eauto.
Qed.

End Deadline.

(** C35: In every interleaving of calls of set with timers that expire: no channel is closed
    twice; at most one timer goroutine exists, and none is left over when set returns; set
    is never stuck. When it returns, the deadline is cleared, armed or expired as the call
    asked for; between calls the flag and the channel agree unless a goroutine is about to
    store and close. *)
Theorem deadline_set_exact s : Deadline.reachable s ->
  Deadline.panicked s = false /\ (length (Deadline.running s) <= 1)%nat /\
  (Deadline.setting s = Deadline.Idle -> Deadline.running s = [] -> Deadline.timedout s = Deadline.isClosed s) /\
  (forall now, Deadline.setting s <> Deadline.Idle -> is_Some (Deadline.next now s) \/ is_Some (Deadline.timeoutIO 0 s)) /\
  (forall now s', Deadline.next now s = Some s' -> Deadline.setting s' = Deadline.Idle ->
    Deadline.running s' = [] /\
    match Deadline.setting s with
    | Deadline.AtArm None => Deadline.timedout s' = false /\ Deadline.isClosed s' = false /\ Deadline.timer s' = None
    | Deadline.AtArm (Some t) => now < t /\ Deadline.timedout s' = false /\ Deadline.isClosed s' = false /\ Deadline.timer s' = Some false
    | _ => Deadline.setting s = Deadline.AtExpireClose /\ Deadline.timedout s' = true /\ Deadline.isClosed s' = true /\ Deadline.timer s' = None
    end).
Proof.
  intros Hr%Deadline.deadline_reachable_inv. pose proof Hr as [_ _ Hp Ht]. unfold Deadline.timerInv in Ht. split; [done|]. split; [|split; [|split]].
  - destruct (Deadline.timer s) as [[|]|]; [|destruct Ht as [-> _]; simpl; lia..]. destruct Ht as [_ Ht]. destruct (Deadline.running s) as [|[|] [|? ?]]; simpl in *; lia || done.
  - intros Hs Hrun. rewrite Hs, Hrun in Ht. destruct (Deadline.timer s) as [[|]|]; [destruct Ht as (_ & -> & ->); done|destruct Ht as (_ & -> & -> & _); done|by destruct Ht].
  - intros now Hs. by apply Deadline.set_progress.
  - intros now s' Hn Hidle. pose proof (Deadline.set_returns now s s' Hr Hn Hidle) as H. destruct (Deadline.setting s) as [| | | | |[t|]| |]; naive_solver.
Qed.

(** The deadline: set to time 10 at time 5, expired, and cleared while its goroutine is
    between its two statements. *)
Definition deadlineRun : list Deadline.label :=
  [Deadline.Set_ (Some 10); Deadline.Next 5; Deadline.Next 5; Deadline.Next 5; Deadline.Next 5; Deadline.Expire; Deadline.Run 0; Deadline.Set_ None; Deadline.Next 11; Deadline.Run 0;
   Deadline.Next 11; Deadline.Next 11; Deadline.Next 11].
Definition runDeadline (ls : list Deadline.label) : option Deadline.deadlineHandler := foldl (fun o l => s ← o; Deadline.step l s) (Some Deadline.newHandler) ls.
Lemma runDeadline_reachable ls s : runDeadline ls = Some s -> Deadline.reachable s.
Proof.
  unfold runDeadline. induction ls as [|l ls IH] using rev_ind in s |- *; [intros [= <-]; constructor|]. rewrite foldl_app. cbn.
  destruct (foldl _ _ ls) as [s0|]; [|done]. cbn. intros H. eapply Deadline.reach_step; [by apply IH|done].
Qed.
Definition clearing : Deadline.deadlineHandler := Eval vm_compute in default Deadline.newHandler (runDeadline deadlineRun).
Lemma clearing_reachable : Deadline.reachable clearing.
Proof. apply (runDeadline_reachable deadlineRun). vm_compute. reflexivity. Qed.
Lemma deadline_set_exact_witness : Deadline.setting clearing = Deadline.AtArm None /\ Deadline.channel clearing = 1%nat /\
  forall s', Deadline.next 11 clearing = Some s' -> Deadline.setting s' = Deadline.Idle -> Deadline.timedout s' = false.
Proof.
  split; [reflexivity|]. split; [reflexivity|]. intros s' Hn Hi. destruct (deadline_set_exact clearing clearing_reachable) as (_ & _ & _ & _ & H). apply (H 11 s' Hn Hi).
Defined.

(** ** Calls on the handle *)

Module IO.
Import Deadline.

(** What a goroutine asks of the kernel: a read into a buffer of [n] bytes, a write, or the
    connection of a client (connectPipe of namedpipe.go, which has no deadline). *)
Inductive opKind : Type := OpRead (n : Z) | OpWrite | OpConnect.
Definition ioResult : Type := Z * option pipeErr.
(** An operation that the kernel has not completed when it was submitted. *)
Record ioOperation : Type := { op_cancelled : bool; op_result : option ioResult }.

(** Between the statements of asyncIo: submitted, closing tested, in the select with the
    channel of the deadline, or cancelled because of the deadline. *)
Inductive stage : Type := Submitted | Tested | Selecting (timeout : option nat) | TimedOut.
(** A goroutine. The first five are in Read, Write or connectPipe, the others in the branch
    of closeHandle that releases the handle; a call that has returned keeps its result. *)
Inductive thread : Type :=
| Prepared (k : opKind)
| Ready (k : opKind)
| Pending (st : stage) (k : opKind) (op : ioOperation)
| Returning (r : ioResult)
| Returned (r : ioResult)
| Swapped | Waiting | Closing | Zeroing | Closed.

(** file. [isOpen] and [closes] are about the handle in the kernel; [port] has the operations
    whose completion is queued, [processor] the one that ioCompletionProcessor is passing on;
    [misuse] remembers that a closed handle was used. *)
Record file : Type := {
  handle : Z;
  isOpen : bool;
  closes : nat;
  closing : bool;
  wg : Z;
  socket : bool;
  readDeadline : deadlineHandler;
  writeDeadline : deadlineHandler;
  threads : list thread;
  port : list nat;
  processor : option nat;
  misuse : bool
}.
(** A file on a handle that was given to it. *)
Definition newFile (h : Z) : file :=
  {| handle := h; isOpen := true; closes := 0; closing := false; wg := 0; socket := false; readDeadline := newHandler; writeDeadline := newHandler;
     threads := []; port := []; processor := None; misuse := false |}.

(** makeFile: the answers of CreateIoCompletionPort in initIo, when this is the first file, of
    the call that joins the handle to the port, and of the one that sets its modes. [None] is
    the panic of initIo. On an error the handle stays with the caller. *)
Definition makeFile (init join modes : option pipeErr) (h : Z) : option (result file pipeErr) :=
  match init with
  | Some _ => None
  | None => Some match join with Some err => Err err | None => match modes with Some err => Err err | None => Ok (newFile h) end end
  end.

Definition with_threads (ts : list thread) (f : file) : file :=
  {| handle := handle f; isOpen := isOpen f; closes := closes f; closing := closing f; wg := wg f; socket := socket f; readDeadline := readDeadline f; writeDeadline := writeDeadline f;
     threads := ts; port := port f; processor := processor f; misuse := misuse f |}.
Definition with_wg (n : Z) (f : file) : file :=
  {| handle := handle f; isOpen := isOpen f; closes := closes f; closing := closing f; wg := n; socket := socket f; readDeadline := readDeadline f; writeDeadline := writeDeadline f;
     threads := threads f; port := port f; processor := processor f; misuse := misuse f |}.
Definition with_closing (f : file) : file :=
  {| handle := handle f; isOpen := isOpen f; closes := closes f; closing := true; wg := wg f; socket := socket f; readDeadline := readDeadline f; writeDeadline := writeDeadline f;
     threads := threads f; port := port f; processor := processor f; misuse := misuse f |}.
Definition with_queue (p : list nat) (o : option nat) (f : file) : file :=
  {| handle := handle f; isOpen := isOpen f; closes := closes f; closing := closing f; wg := wg f; socket := socket f; readDeadline := readDeadline f; writeDeadline := writeDeadline f;
     threads := threads f; port := p; processor := o; misuse := misuse f |}.
Definition with_deadlines (r w : deadlineHandler) (f : file) : file :=
  {| handle := handle f; isOpen := isOpen f; closes := closes f; closing := closing f; wg := wg f; socket := socket f; readDeadline := r; writeDeadline := w;
     threads := threads f; port := port f; processor := processor f; misuse := misuse f |}.
(** A call of the system with the handle. *)
Definition useHandle (f : file) : file :=
  {| handle := handle f; isOpen := isOpen f; closes := closes f; closing := closing f; wg := wg f; socket := socket f; readDeadline := readDeadline f; writeDeadline := writeDeadline f;
     threads := threads f; port := port f; processor := processor f; misuse := misuse f || negb (isOpen f) |}.
(** [windows.Close(f.handle)] *)
Definition releaseHandle (f : file) : file :=
  {| handle := handle f; isOpen := false; closes := S (closes f); closing := closing f; wg := wg f; socket := socket f; readDeadline := readDeadline f; writeDeadline := writeDeadline f;
     threads := threads f; port := port f; processor := processor f; misuse := misuse f || negb (isOpen f) |}.
(** [f.handle = 0] *)
Definition zeroHandle (f : file) : file :=
  {| handle := 0; isOpen := isOpen f; closes := closes f; closing := closing f; wg := wg f; socket := socket f; readDeadline := readDeadline f; writeDeadline := writeDeadline f;
     threads := threads f; port := port f; processor := processor f; misuse := misuse f |}.
Definition goto (i : nat) (t : thread) (f : file) : file := with_threads (<[i := t]> (threads f)) f.

(** CancelIoEx: an operation that is completed already is not affected. *)
Definition cancelOp (op : ioOperation) : ioOperation :=
  match op_result op with None => {| op_cancelled := true; op_result := None |} | Some _ => op end.
Definition cancelThread (t : thread) : thread :=
  match t with Pending st k op => Pending st k (cancelOp op) | _ => t end.

(** The deadline that asyncIo is given. *)
Definition deadlineOf (k : opKind) (f : file) : option deadlineHandler :=
  match k with OpRead _ => Some (readDeadline f) | OpWrite => Some (writeDeadline f) | OpConnect => None end.
(** connectPipe: a client that is there already is not an error. *)
Definition connectResult (err : option pipeErr) : option pipeErr := if bool_decide (err = Some ERROR_PIPE_CONNECTED) then None else err.
(** What Read, Write and connectPipe make of the result of asyncIo. *)
Definition finish (k : opKind) (r : ioResult) : ioResult :=
  let '(n, err) := r in
  match k with
  | OpRead size =>
      if bool_decide (err = None) && (n =? 0) && negb (size =? 0) then (0, Some EOF)
      else if bool_decide (err = Some ERROR_BROKEN_PIPE) then (0, Some EOF)
      else (n, err)
  | OpWrite => (n, err)
  | OpConnect => (0, connectResult err)
  end.
(** The first case of the select of asyncIo, and the second; [wsa] is the error that
    WSAGetOverlappedResult reports for a socket. *)
Definition completedErr (f : file) (err wsa : option pipeErr) : option pipeErr :=
  if bool_decide (err = Some ERROR_OPERATION_ABORTED) then (if closing f then Some ErrClosed else err)
  else if bool_decide (err <> None) && socket f then wsa
  else err.
Definition timeoutErr (err : option pipeErr) : option pipeErr :=
  if bool_decide (err = Some ERROR_OPERATION_ABORTED) then Some ErrDeadlineExceeded else err.

(** The answer of the kernel to a call: at once, or ERROR_IO_PENDING. *)
Inductive answer : Type := AtOnce (r : ioResult) | IoPending.

(** A call starts; its next statement, with what the kernel answers; an operation completes;
    the completion is taken from the port; Close is called and goes on; the deadlines. *)
Inductive label : Type :=
| Call (k : opKind)
| Begin (i : nat)
| Submit (i : nat) (a : answer)
| Test_ (i : nat)
| Capture (i : nat)
| Timeout_ (i : nat)
| Complete (i : nat) (r : ioResult)
| Dequeue
| Receive_ (i : nat) (wsa : option pipeErr)
| Done_ (i : nat)
| CallClose
| CloseNext (i : nat)
| ReadDeadline (l : Deadline.label)
| WriteDeadline (l : Deadline.label).

(** prepareIo. *)
Definition prepareIo (k : opKind) (f : file) : file :=
  if closing f then with_threads (threads f ++ [Returned (0, Some ErrClosed)]) f
  else with_threads (threads f ++ [Prepared k]) (with_wg (wg f + 1) f).
(** The test of the deadline at the beginning of Read and Write. *)
Definition begin (i : nat) (f : file) : option file :=
  match threads f !! i with
  | Some (Prepared k) =>
      if default false (timedout <$> deadlineOf k f) then Some (goto i (Returning (0, Some ErrDeadlineExceeded)) f)
      else Some (goto i (Ready k) f)
  | _ => None
  end.
(** ReadFile, WriteFile or ConnectNamedPipe. *)
Definition submit (i : nat) (a : answer) (f : file) : option file :=
  match threads f !! i with
  | Some (Ready k) =>
      let f := useHandle f in
      match a with
      | AtOnce r => Some (goto i (Returning (finish k r)) f)
      | IoPending => Some (goto i (Pending Submitted k {| op_cancelled := false; op_result := None |}) f)
      end
  | _ => None
  end.
(** The statements of asyncIo up to the select. *)
Definition testClosing (i : nat) (f : file) : option file :=
  match threads f !! i with
  | Some (Pending Submitted k op) =>
      Some (if closing f then goto i (Pending Tested k (cancelOp op)) (useHandle f) else goto i (Pending Tested k op) f)
  | _ => None
  end.
Definition capture (i : nat) (f : file) : option file :=
  match threads f !! i with
  | Some (Pending Tested k op) => Some (goto i (Pending (Selecting (channel <$> deadlineOf k f)) k op) f)
  | _ => None
  end.
(** The channel of the deadline is closed. *)
Definition chooseTimeout (i : nat) (f : file) : option file :=
  match threads f !! i with
  | Some (Pending (Selecting (Some c)) k op) =>
      d ← deadlineOf k f;
      if bool_decide (c ∈ Deadline.closed d) then Some (goto i (Pending TimedOut k (cancelOp op)) (useHandle f)) else None
  | _ => None
  end.
(** The kernel completes an operation and queues it. *)
Definition complete (i : nat) (r : ioResult) (f : file) : option file :=
  match threads f !! i with
  | Some (Pending st k {| op_cancelled := c; op_result := None |}) =>
      Some (goto i (Pending st k {| op_cancelled := c; op_result := Some r |}) (with_queue (port f ++ [i]) (processor f) f))
  | _ => None
  end.
(** ioCompletionProcessor: GetQueuedCompletionStatus; the send on the channel of the
    operation waits for its receiver, which is [receive]. *)
Definition dequeue (f : file) : option file :=
  match processor f, port f with None, i :: rest => Some (with_queue rest (Some i) f) | _, _ => None end.
Definition receive (i : nat) (wsa : option pipeErr) (f : file) : option file :=
  if bool_decide (processor f = Some i) then
    match threads f !! i with
    | Some (Pending (Selecting _) k {| op_result := Some (n, err) |}) =>
        let f' := if bool_decide (err <> None /\ err <> Some ERROR_OPERATION_ABORTED) && socket f then useHandle f else f in
        Some (goto i (Returning (finish k (n, completedErr f err wsa))) (with_queue (port f) None f'))
    | Some (Pending TimedOut k {| op_result := Some (n, err) |}) =>
        Some (goto i (Returning (finish k (n, timeoutErr err))) (with_queue (port f) None f))
    | _ => None
    end
  else None.
(** [defer f.wg.Done()] *)
Definition wgDone (i : nat) (f : file) : option file :=
  match threads f !! i with
  | Some (Returning r) => Some (goto i (Returned r) (with_wg (wg f - 1) f))
  | _ => None
  end.
(** closeHandle, and its statements after the lock. *)
Definition closeHandle (f : file) : file :=
  if closing f then with_threads (threads f ++ [Closed]) f
  else with_threads (threads f ++ [Swapped]) (with_closing f).
Definition closeNext (i : nat) (f : file) : option file :=
  match threads f !! i with
  | Some Swapped => Some (goto i Waiting (with_threads (cancelThread <$> threads f) (useHandle f)))
  | Some Waiting => if wg f =? 0 then Some (goto i Closing f) else None
  | Some Closing => Some (goto i Zeroing (releaseHandle f))
  | Some Zeroing => Some (goto i Closed (zeroHandle f))
  | _ => None
  end.
Definition step (l : label) (f : file) : option file :=
  match l with
  | Call k => Some (prepareIo k f)
  | Begin i => begin i f
  | Submit i a => submit i a f
  | Test_ i => testClosing i f
  | Capture i => capture i f
  | Timeout_ i => chooseTimeout i f
  | Complete i r => complete i r f
  | Dequeue => dequeue f
  | Receive_ i wsa => receive i wsa f
  | Done_ i => wgDone i f
  | CallClose => Some (closeHandle f)
  | CloseNext i => closeNext i f
  | ReadDeadline l => d ← Deadline.step l (readDeadline f); Some (with_deadlines d (writeDeadline f) f)
  | WriteDeadline l => d ← Deadline.step l (writeDeadline f); Some (with_deadlines (readDeadline f) d f)
  end.
Inductive reachable (h : Z) : file -> Prop :=
| reach_new : reachable h (newFile h)
| reach_step l f f' : reachable h f -> step l f = Some f' -> reachable h f'.

(** Flush and Fd use the handle without prepareIo. *)
Definition Flush (f : file) : file := useHandle f.
Definition Fd (f : file) : Z := handle f.

(** A run, label by label. *)
Definition run (ls : list label) (f : file) : option file := foldl (fun o l => f ← o; step l f) (Some f) ls.
End IO.
