(* ===== verification/PipeClose.v ===== *)
(** * PipeClose: closing a pipe while it is in use (src/ipc/namedpipe/file.go)

    The invariant of the steps of PipeFile.IO, that the handle is not used after it was
    released, and that Close ends: every operation in flight is cancelled by Close or by its
    own goroutine, and every goroutine that is left has a step until all have returned. *)
From S2P Require Import Prelude Threads GoLib PipeFile.
Import PipeFile.IO.
#[local] Open Scope Z_scope.

(** ** Counting *)

Definition inIO (t : thread) : bool := match t with Prepared _ | Ready _ | Pending _ _ _ | Returning _ => true | _ => false end.
Definition isSwapped (t : thread) : bool := match t with Swapped => true | _ => false end.
Definition isWaiting (t : thread) : bool := match t with Waiting => true | _ => false end.
Definition isClosing (t : thread) : bool := match t with Closing => true | _ => false end.
Definition isZeroing (t : thread) : bool := match t with Zeroing => true | _ => false end.
(** Cancelled or completed, or about to be tested by its goroutine. *)
Definition cancelled (op : ioOperation) : bool := op_cancelled op || bool_decide (op_result op <> None).
Definition willEnd (t : thread) : Prop :=
  match t with Pending Submitted _ _ => True | Pending _ _ op => cancelled op = true | _ => True end.
Definition timedOk (t : thread) : Prop := match t with Pending TimedOut _ op => cancelled op = true | _ => True end.
Definition completed (t : thread) : Prop := match t with Pending _ _ op => op_result op <> None | _ => False end.
Definition queue (f : file) : list nat := option_list (processor f) ++ port f.

Lemma cancelled_cancel op : cancelled (cancelOp op) = true.
Proof. destruct op as [c [r|]]; [|done]. unfold cancelled. cbn. by rewrite orb_true_r. Qed.
Lemma willEnd_cancel t : willEnd (cancelThread t).
Proof. destruct t as [| |[| | |] k op| | | | | | |]; try done; apply cancelled_cancel. Qed.
Lemma timedOk_cancel t : timedOk (cancelThread t).
Proof. destruct t as [| |[| | |] k op| | | | | | |]; try done; apply cancelled_cancel. Qed.
Lemma completed_cancel t : completed (cancelThread t) <-> completed t.
Proof. by destruct t as [| |st k [c [r|]]| | | | | | |]. Qed.

(** What holds between the steps. *)
Record inv (f : file) : Prop := {
  iv_misuse : misuse f = false;
  iv_wg : wg f = Z.of_nat (count inIO (threads f));
  iv_closer : (count isSwapped (threads f) + count isWaiting (threads f) + count isClosing (threads f) + closes f = Nat.b2n (closing f))%nat;
  iv_closes : closes f = Nat.b2n (negb (isOpen f));
  iv_zeroing : (count isZeroing (threads f) <= closes f)%nat;
  iv_idle : (0 < count isClosing (threads f) + closes f)%nat -> wg f = 0;
  iv_timed : Forall timedOk (threads f);
  iv_cancel : closing f = true -> count isSwapped (threads f) = 0%nat -> Forall willEnd (threads f);
  iv_queue : NoDup (queue f);
  iv_done : forall i, i ∈ queue f <-> exists t, threads f !! i = Some t /\ completed t
}.

Lemma file_inv_new h : inv (newFile h).
Proof. split; try done; try by constructor. intros i. split; [intros []%elem_of_nil|intros (t & Ht & _); done]. Qed.

(** The kinds of a goroutine, as they enter the counts. *)
Definition kinds (t : thread) : bool * bool * bool * bool * bool := (inIO t, isSwapped t, isWaiting t, isClosing t, isZeroing t).

(** The counts after goroutine [i], which [Hi] finds, has become [t']. *)
Ltac recount Hi t' :=
  let E1 := fresh "E" in let E2 := fresh "E" in let E3 := fresh "E" in let E4 := fresh "E" in let E5 := fresh "E" in
  pose proof (count_insert inIO _ _ _ t' Hi) as E1; pose proof (count_insert isSwapped _ _ _ t' Hi) as E2; pose proof (count_insert isWaiting _ _ _ t' Hi) as E3;
  pose proof (count_insert isClosing _ _ _ t' Hi) as E4; pose proof (count_insert isZeroing _ _ _ t' Hi) as E5; cbn in E1, E2, E3, E4, E5.

(** A goroutine that moves within its call, as to the counts. *)
Lemma goto_counts f i t t' : threads f !! i = Some t -> kinds t' = kinds t -> forall P, P ∈ [inIO; isSwapped; isWaiting; isClosing; isZeroing] ->
  count P (<[i := t']> (threads f)) = count P (threads f).
Proof.
  intros Hi Hk P HP. pose proof (count_insert P _ _ _ t' Hi) as E. injection Hk as H1 H2 H3 H4 H5.
  assert (P t = P t') as Heq by set_solver. rewrite Heq in E. lia.
Qed.

(** Membership of the goroutines that completed, when one moves. *)
Lemma done_insert f i t t' : (forall j, j ∈ queue f <-> exists t, threads f !! j = Some t /\ completed t) -> threads f !! i = Some t -> (completed t' <-> completed t) ->
  forall j, j ∈ queue f <-> exists t, <[i := t']> (threads f) !! j = Some t /\ completed t.
Proof.
  intros Hd Hi Hc j. rewrite Hd. destruct (decide (i = j)) as [<-|Hne].
  - rewrite list_lookup_insert_eq by (by eapply lookup_lt_Some). rewrite Hi. naive_solver.
  - by rewrite list_lookup_insert_ne.
Qed.

(** A goroutine that moves within its call, the rest of the state being as it was. *)
Lemma goto_inv f i t t' : inv f -> threads f !! i = Some t -> kinds t' = kinds t -> timedOk t' -> (willEnd t -> willEnd t') -> (completed t' <-> completed t) -> inv (goto i t' f).
Proof.
  intros [Hm Hw Hcl Hcs Hz Hid Ht Hca Hq Hd] Hi Hk Hto Hwe Hco. pose proof (goto_counts f i t t' Hi Hk) as Hc.
  split; cbn; rewrite ?Hc by set_solver; try done.
  - by apply Forall_insert.
  - intros Hcg Hsw. pose proof (Hca Hcg Hsw) as Hall. apply Forall_insert; [done|]. apply Hwe. rewrite Forall_lookup in Hall. eauto.
  - exact (done_insert f i t t' Hd Hi Hco).
Qed.

(** The handle is open as long as a goroutine is in a call. *)
Lemma inIO_open f i t : inv f -> threads f !! i = Some t -> inIO t = true -> isOpen f = true /\ (count isClosing (threads f) + closes f = 0)%nat.
Proof.
  intros [Hm Hw Hcl Hcs Hz Hid Ht Hca Hq Hd] Hi Hio. pose proof (count_pos _ _ _ _ Hi Hio). destruct (decide (count isClosing (threads f) + closes f = 0)%nat) as [H0|H0].
  - split; [|done]. destruct (isOpen f); [done|]. simpl in Hcs. lia.
  - specialize (Hid ltac:(lia)). lia.
Qed.
Lemma use_open f : isOpen f = true -> useHandle f = f.
Proof. intros H. destruct f. cbn in *. unfold useHandle. cbn. rewrite H. by rewrite orb_false_r. Qed.
Lemma use_inv f i t : inv f -> threads f !! i = Some t -> inIO t = true -> useHandle f = f.
Proof. intros Hinv Hi Hio. apply use_open. by destruct (inIO_open f i t Hinv Hi Hio). Qed.

(** ** The steps keep the invariant *)

(** A goroutine that starts. *)
Lemma spawn_done f t : (forall j, j ∈ queue f <-> exists t, threads f !! j = Some t /\ completed t) -> ~ completed t ->
  forall j, j ∈ queue f <-> exists t', (threads f ++ [t]) !! j = Some t' /\ completed t'.
Proof.
  intros Hd Hn j. rewrite Hd. split.
  - intros (t' & Hj & Hc). exists t'. split; [by apply lookup_app_l_Some|done].
  - intros (t' & [Hj|[_ Hj]]%lookup_app_Some & Hc); [eauto|]. apply list_lookup_singleton_Some in Hj as [_ <-]. done.
Qed.
Lemma call_inv k f : inv f -> inv (prepareIo k f).
Proof.
  intros [Hm Hw Hcl Hcs Hz Hid Ht Hca Hq Hd]. unfold prepareIo. destruct (closing f) eqn:Ec.
  - split; cbn; rewrite ?count_snoc; cbn; rewrite ?Nat.add_0_r; rewrite ?Ec; try done.
    + apply Forall_app. split; [done|]. by repeat constructor.
    + intros _ Hsw. apply Forall_app. split; [by apply Hca|]. by repeat constructor.
    + exact (spawn_done f (Returned (0, Some ErrClosed)) Hd (fun H => H)).
  - split; cbn; rewrite ?count_snoc; cbn; rewrite ?Nat.add_0_r; rewrite ?Ec; try done.
    + lia.
    + intros H. simpl in Hcl. lia.
    + apply Forall_app. split; [done|]. by repeat constructor.
    + exact (spawn_done f (Prepared k) Hd (fun H => H)).
Qed.
Lemma callClose_inv f : inv f -> inv (closeHandle f).
Proof.
  intros [Hm Hw Hcl Hcs Hz Hid Ht Hca Hq Hd]. unfold closeHandle. destruct (closing f) eqn:Ec.
  - split; cbn; rewrite ?count_snoc; cbn; rewrite ?Nat.add_0_r; rewrite ?Ec; try done.
    + apply Forall_app. split; [done|]. by repeat constructor.
    + intros _ Hsw. apply Forall_app. split; [by apply Hca|]. by repeat constructor.
    + exact (spawn_done f Closed Hd (fun H => H)).
  - split; cbn; rewrite ?count_snoc; cbn; rewrite ?Nat.add_0_r; try done.
    + simpl in Hcl. lia.
    + apply Forall_app. split; [done|]. by repeat constructor.
    + intros _ Hsw. lia.
    + exact (spawn_done f Swapped Hd (fun H => H)).
Qed.

(** The calls of a goroutine in flight. *)
Lemma begin_inv i f f' : inv f -> begin i f = Some f' -> inv f'.
Proof.
  intros Hinv H. unfold begin in H. destruct (threads f !! i) as [[k| | | | | | | | |]|] eqn:Hi; try done. destruct (default _ _); injection H as <-; by eapply goto_inv.
Qed.
Lemma submit_inv i a f f' : inv f -> submit i a f = Some f' -> inv f'.
Proof.
  intros Hinv H. unfold submit in H. destruct (threads f !! i) as [[|k| | | | | | | |]|] eqn:Hi; try done. rewrite (use_inv f i _ Hinv Hi eq_refl) in H.
  destruct a; injection H as <-; by eapply goto_inv.
Qed.
Lemma test_inv i f f' : inv f -> testClosing i f = Some f' -> inv f'.
Proof.
  intros Hinv H. unfold testClosing in H. destruct (threads f !! i) as [[| |[| | |] k op| | | | | | |]|] eqn:Hi; try done. rewrite (use_inv f i _ Hinv Hi eq_refl) in H.
  destruct (closing f) eqn:Ec; injection H as <-.
  - eapply goto_inv; try done; [intros _; apply cancelled_cancel|apply (completed_cancel (Pending Submitted k op))].
  - destruct Hinv as [Hm Hw Hcl Hcs Hz Hid Ht Hca Hq Hd]. pose proof (goto_counts f i _ (Pending Tested k op) Hi eq_refl) as Hc.
    split; cbn; rewrite ?Hc by set_solver; try done; [by apply Forall_insert|by rewrite Ec|]. exact (done_insert f i _ (Pending Tested k op) Hd Hi (iff_refl _)).
Qed.
Lemma capture_inv i f f' : inv f -> capture i f = Some f' -> inv f'.
Proof.
  intros Hinv H. unfold capture in H. destruct (threads f !! i) as [[| |[| | |] k op| | | | | | |]|] eqn:Hi; try done. injection H as <-. by eapply goto_inv.
Qed.
Lemma timeout_inv i f f' : inv f -> chooseTimeout i f = Some f' -> inv f'.
Proof.
  intros Hinv H. unfold chooseTimeout in H. destruct (threads f !! i) as [[| |[| |[c|]|] k op| | | | | | |]|] eqn:Hi; try done. rewrite (use_inv f i _ Hinv Hi eq_refl) in H.
  destruct (deadlineOf k f); [|done]. cbn in H. destruct (bool_decide _); [|done]. injection H as <-.
  eapply goto_inv; try done; [apply cancelled_cancel|intros _; apply cancelled_cancel|apply (completed_cancel (Pending (Selecting (Some c)) k op))].
Qed.
Lemma done_inv i f f' : inv f -> wgDone i f = Some f' -> inv f'.
Proof.
  intros Hinv H. unfold wgDone in H. destruct (threads f !! i) as [[| | |r| | | | | |]|] eqn:Hi; try done. injection H as <-.
  destruct (inIO_open f i _ Hinv Hi eq_refl) as [_ H0]. destruct Hinv as [Hm Hw Hcl Hcs Hz Hid Ht Hca Hq Hd].
  recount Hi (Returned r).
  split; cbn; try done; try lia; [by apply Forall_insert| |exact (done_insert f i _ (Returned r) Hd Hi (iff_refl _))].
  intros Hcg Hsw. apply Forall_insert; [|done]. apply Hca; [done|lia].
Qed.

(** Completions. *)
Lemma complete_inv i r f f' : inv f -> complete i r f = Some f' -> inv f'.
Proof.
  intros Hinv H. unfold complete in H. destruct (threads f !! i) as [[| |st k [c [|]]| | | | | | |]|] eqn:Hi; try done. injection H as <-.
  set (t' := Pending st k {| op_cancelled := c; op_result := Some r |}). destruct Hinv as [Hm Hw Hcl Hcs Hz Hid Ht Hca Hq Hd]. pose proof (goto_counts f i _ t' Hi eq_refl) as Hc.
  assert (cancelled {| op_cancelled := c; op_result := Some r |} = true) as Hdone by apply orb_true_r.
  assert (i ∉ queue f) as Hni by (intros (t & Ht' & Hco)%Hd; rewrite Hi in Ht'; by injection Ht' as <-).
  assert (queue (goto i t' (with_queue (port f ++ [i]) (processor f) f)) = queue f ++ [i]) as Eq by (unfold queue; cbn; by rewrite app_assoc).
  split; cbn; rewrite ?Hc by set_solver; try done.
  - apply Forall_insert; [done|]. by destruct st.
  - intros Hcg Hsw. apply Forall_insert; [by apply Hca|]. by destruct st.
  - rewrite Eq. apply NoDup_app. split; [done|]. split; [set_solver|apply NoDup_singleton].
  - intros j. rewrite Eq, elem_of_app, Hd, list_elem_of_singleton. destruct (decide (i = j)) as [<-|Hne].
    + rewrite list_lookup_insert_eq by (by eapply lookup_lt_Some). split; [|by right]. intros _. by exists t'.
    + rewrite list_lookup_insert_ne by done. naive_solver.
Qed.
Lemma dequeue_inv f f' : inv f -> dequeue f = Some f' -> inv f'.
Proof.
  intros [Hm Hw Hcl Hcs Hz Hid Ht Hca Hq Hd] H. unfold dequeue in H. unfold queue in *. destruct (processor f), (port f) as [|i rest] eqn:Ep; try done. injection H as <-. split; done.
Qed.
(** The completion at the head of the queue is taken by its goroutine. *)
Lemma take_completion_inv i t r f : inv f -> processor f = Some i -> threads f !! i = Some t -> inIO t = true -> inv (goto i (Returning r) (with_queue (port f) None f)).
Proof.
  intros [Hm Hw Hcl Hcs Hz Hid Ht Hca Hq Hd] Hp Hi Hio. unfold queue in *. rewrite Hp in *. cbn [option_list app] in *. apply NoDup_cons in Hq as [Hni Hq].
  assert (kinds (Returning r) = kinds t) as Hk by (by destruct t). pose proof (goto_counts f i t (Returning r) Hi Hk) as Hc.
  split; cbn; rewrite ?Hc by set_solver; try done.
  - by apply Forall_insert.
  - intros Hcg Hsw. apply Forall_insert; [by apply Hca|done].
  - intros j. destruct (decide (i = j)) as [<-|Hne].
    + rewrite list_lookup_insert_eq by (by eapply lookup_lt_Some). split; [done|]. intros (t' & [= <-] & []).
    + rewrite list_lookup_insert_ne, <- Hd by done. set_solver.
Qed.
Lemma receive_inv i wsa f f' : inv f -> receive i wsa f = Some f' -> inv f'.
Proof.
  intros Hinv H. unfold receive in H. destruct (bool_decide_reflect (processor f = Some i)) as [Hp|]; [|done].
  destruct (threads f !! i) as [[| |[| |c|] k [cc [[n err]|]]| | | | | | |]|] eqn:Hi; try done.
  - rewrite (use_inv f i _ Hinv Hi eq_refl) in H. assert (Some (goto i (Returning (finish k (n, completedErr f err wsa))) (with_queue (port f) None f)) = Some f') as H' by (by destruct (bool_decide _ && _)).
    injection H' as <-. by eapply take_completion_inv.
  - injection H as <-. by eapply take_completion_inv.
Qed.

(** Close. *)
Lemma cancelAll_inv i f : inv f -> threads f !! i = Some Swapped -> inv (goto i Waiting (with_threads (cancelThread <$> threads f) f)).
Proof.
  intros [Hm Hw Hcl Hcs Hz Hid Ht Hca Hq Hd] Hi. set (ts := cancelThread <$> threads f).
  assert (ts !! i = Some Swapped) as Hi' by (unfold ts; by rewrite list_lookup_fmap, Hi).
  assert (forall P, P ∈ [inIO; isSwapped; isWaiting; isClosing; isZeroing] -> count P ts = count P (threads f)) as Hf.
  { intros P HP. apply count_fmap. intros t. rewrite !elem_of_cons in HP. destruct HP as [->|[->|[->|[->|[->|[]%elem_of_nil]]]]]; by destruct t. }
  recount Hi' Waiting. rewrite !Hf in * by set_solver.
  split; cbn; try done; try lia.
  - apply Forall_insert; [|done]. apply Forall_fmap, Forall_true. intros t. apply timedOk_cancel.
  - intros _ _. apply Forall_insert; [|done]. apply Forall_fmap, Forall_true. intros t. apply willEnd_cancel.
  - intros j. change (queue _) with (queue f) at 1. rewrite Hd. destruct (decide (i = j)) as [<-|Hne].
    + rewrite list_lookup_insert_eq by (by eapply lookup_lt_Some). rewrite Hi. split; [by intros (t & [= <-] & [])|by intros (t & [= <-] & [])].
    + rewrite list_lookup_insert_ne by done. unfold ts. rewrite list_lookup_fmap. split.
      * intros (t & -> & Hco). eexists. split; [done|by apply completed_cancel].
      * intros (t & Htj & Hco). destruct (threads f !! j) as [t0|]; [|done]. injection Htj as <-. exists t0. split; [done|by apply completed_cancel].
Qed.
Lemma closeNext_inv i f f' : inv f -> closeNext i f = Some f' -> inv f'.
Proof.
  intros Hinv H. unfold closeNext in H. pose proof Hinv as [Hm Hw Hcl Hcs Hz Hid Ht Hca Hq Hd].
  assert (forall t, t ∈ [Swapped; Waiting; Closing] -> threads f !! i = Some t -> isOpen f = true /\ closes f = 0%nat) as Hopen.
  { intros t HT Hi. assert (0 < count isSwapped (threads f) + count isWaiting (threads f) + count isClosing (threads f))%nat.
    { rewrite !elem_of_cons in HT. destruct HT as [->|[->|[->|[]%elem_of_nil]]]; [pose proof (count_pos isSwapped _ _ _ Hi eq_refl)|pose proof (count_pos isWaiting _ _ _ Hi eq_refl)|pose proof (count_pos isClosing _ _ _ Hi eq_refl)]; lia. }
    assert (closes f = 0%nat) as Hc0 by (destruct (closing f); simpl in Hcl; lia). rewrite Hc0 in Hcs. split; [by destruct (isOpen f)|done]. }
  destruct (threads f !! i) as [[| | | | | | | | |]|] eqn:Hi; try done.
  - rewrite use_open in H by (by apply (Hopen Swapped); [set_solver|]). injection H as <-. by apply cancelAll_inv.
  - destruct (Z.eqb_spec (wg f) 0) as [Hw0|]; [|done]. injection H as <-. recount Hi Closing.
    split; cbn; try done; try lia; [by apply Forall_insert| |exact (done_insert f i _ Closing Hd Hi (iff_refl _))]. intros Hcg Hsw. apply Forall_insert; [|done]. apply Hca; [done|lia].
  - destruct (Hopen Closing) as [Ho Hc0]; [set_solver|done|]. injection H as <-. recount Hi Zeroing.
    split; cbn; try done; try lia; [by rewrite Hm, Ho|by apply Forall_insert| |exact (done_insert f i _ Zeroing Hd Hi (iff_refl _))]. intros Hcg Hsw. apply Forall_insert; [|done]. apply Hca; [done|lia].
  - injection H as <-. recount Hi Closed.
    split; cbn; try done; try lia; [by apply Forall_insert| |exact (done_insert f i _ Closed Hd Hi (iff_refl _))]. intros Hcg Hsw. apply Forall_insert; [|done]. apply Hca; [done|lia].
Qed.

Lemma file_step_inv l f f' : inv f -> step l f = Some f' -> inv f'.
Proof.
  intros Hinv H. destruct l; cbn in H.
  - injection H as <-. by apply call_inv.
  - by eapply begin_inv.
  - by eapply submit_inv.
  - by eapply test_inv.
  - by eapply capture_inv.
  - by eapply timeout_inv.
  - by eapply complete_inv.
  - by eapply dequeue_inv.
  - by eapply receive_inv.
  - by eapply done_inv.
  - injection H as <-. by apply callClose_inv.
  - by eapply closeNext_inv.
  - destruct (Deadline.step _ _); [|done]. injection H as <-. by destruct Hinv.
  - destruct (Deadline.step _ _); [|done]. injection H as <-. by destruct Hinv.
Qed.
Lemma file_reachable_inv h f : reachable h f -> inv f.
Proof. induction 1 as [|l f f' _ IH H]; [apply file_inv_new|by eapply file_step_inv]. Qed.

(** ** The handle *)

(** C33: Whatever the interleaving of reads, writes, connects, deadlines and calls of Close: no
    call of the system uses the handle after it was released, it is released at most once,
    and then no goroutine is in a call; the completion that is being passed on belongs to a
    goroutine that will receive it, so that the processor of completions is not held up. *)
Theorem file_handle_safe h f : reachable h f ->
  misuse f = false /\ (closes f <= 1)%nat /\
  (isOpen f = false -> closing f = true /\ wg f = 0 /\ forall i t, threads f !! i = Some t -> inIO t = false) /\
  (forall i, processor f = Some i -> exists st k op, threads f !! i = Some (Pending st k op) /\ is_Some (op_result op)).
Proof.
  intros Hr%file_reachable_inv. destruct Hr as [Hm Hw Hcl Hcs Hz Hid Ht Hca Hq Hd]. split; [done|]. split; [destruct (isOpen f); simpl in Hcs; lia|]. split.
  - intros Ho. rewrite Ho in Hcs. simpl in Hcs. assert (wg f = 0) as H0 by (apply Hid; lia). split; [destruct (closing f); [done|simpl in Hcl; lia]|]. split; [done|].
    intros i t Hi. destruct (inIO t) eqn:Et; [|done]. pose proof (count_pos _ _ _ _ Hi Et). lia.
  - intros i Hp. destruct (proj1 (Hd i)) as (t & Hi & Hco); [unfold queue; rewrite Hp; left|]. destruct t as [| |st k op| | | | | | |]; try done. exists st, k, op. split; [done|]. by apply not_eq_None_Some.
Qed.

(** ** Close ends *)

Definition finished (t : thread) : Prop := match t with Returned _ | Closed => True | _ => False end.
(** New calls and changes of deadlines. *)
Definition outside (l : label) : bool := match l with Call _ | CallClose | ReadDeadline _ | WriteDeadline _ => true | _ => false end.
(** A step of a goroutine, or the completion of an operation that was cancelled. *)
Definition pushes (f : file) (l : label) : bool :=
  match l with
  | Complete i _ => match threads f !! i with Some (Pending _ _ op) => op_cancelled op | _ => false end
  | _ => negb (outside l)
  end.
(** How far a goroutine is from the end of its call, and all of them together. *)
Definition rank (t : thread) : nat :=
  match t with
  | Prepared _ => 12 | Ready _ => 11
  | Pending st _ op => (match st with Submitted => 6 | Tested => 5 | Selecting _ => 4 | TimedOut => 3 end) + (if op_result op then 0 else 2)
  | Returning _ => 1 | Returned _ => 0
  | Swapped => 4 | Waiting => 3 | Closing => 2 | Zeroing => 1 | Closed => 0
  end.
Definition measure (f : file) : nat := total rank (threads f) + length (port f).

Lemma rank_cancel t : rank (cancelThread t) = rank t.
Proof. by destruct t as [| |st k [c [r|]]| | | | | | |]. Qed.
Lemma goto_measure f f0 i t t' : threads f !! i = Some t -> threads f0 = threads f -> (rank t' + length (port f0) < rank t + length (port f))%nat -> (measure (goto i t' f0) < measure f)%nat.
Proof. intros Hi Ets Hlt. unfold measure. cbn. rewrite Ets. pose proof (total_insert rank _ _ _ t' Hi). lia. Qed.
Lemma spawn_measure f f0 t : threads f0 = threads f ++ [t] -> port f0 = port f -> rank t = 0%nat -> measure f0 = measure f.
Proof. intros Ets Ep Ht. unfold measure. rewrite Ets, Ep, total_ranks_app. unfold total at 2. simpl. lia. Qed.

Lemma receive_measure i wsa f f' : receive i wsa f = Some f' -> closing f' = closing f /\ (measure f' < measure f)%nat.
Proof.
  unfold receive. destruct (bool_decide _); [|done]. destruct (threads f !! i) as [[| |[| |c|] k [cc [[n err]|]]| | | | | | |]|] eqn:Hi; try done; intros [= <-].
  - destruct (bool_decide (err <> None /\ err <> Some ERROR_OPERATION_ABORTED) && socket f); (split; [done|]); (eapply goto_measure; [exact Hi|done|]); cbn; lia.
  - split; [done|]. eapply goto_measure; [exact Hi|done|]. cbn. lia.
Qed.
Lemma closeNext_measure i f f' : closeNext i f = Some f' -> closing f' = closing f /\ (measure f' < measure f)%nat.
Proof.
  unfold closeNext. destruct (threads f !! i) as [[| | | | | | | | |]|] eqn:Hi; try done.
  - intros [= <-]. split; [done|]. unfold measure. cbn. assert ((cancelThread <$> threads f) !! i = Some Swapped) as Hi' by (by rewrite list_lookup_fmap, Hi).
    pose proof (total_insert rank _ _ _ Waiting Hi') as E. rewrite total_fmap in E by apply rank_cancel. cbn in E. lia.
  - destruct (_ =? _); [|done]. intros [= <-]. split; [done|]. eapply goto_measure; [exact Hi|done|]. cbn. lia.
  - intros [= <-]. split; [done|]. eapply goto_measure; [exact Hi|done|]. cbn. lia.
  - intros [= <-]. split; [done|]. eapply goto_measure; [exact Hi|done|]. cbn. lia.
Qed.

(** While the file is closing, every step but new calls and deadlines comes closer to the end. *)
Lemma step_measure l f f' : closing f = true -> step l f = Some f' ->
  closing f' = true /\ if outside l then measure f' = measure f else (measure f' < measure f)%nat.
Proof.
  intros Hcg H. destruct l; cbn in H |- *.
  - injection H as <-. unfold prepareIo. rewrite Hcg. split; [done|]. by eapply spawn_measure.
  - unfold begin in H. destruct (threads f !! i) as [[k| | | | | | | | |]|] eqn:Hi; try done. destruct (default _ _); injection H as <-; (split; [done|]); (eapply goto_measure; [exact Hi|done|]); cbn; lia.
  - unfold submit in H. destruct (threads f !! i) as [[|k| | | | | | | |]|] eqn:Hi; try done. destruct a; injection H as <-; (split; [done|]); (eapply goto_measure; [exact Hi|done|]); cbn; lia.
  - unfold testClosing in H. destruct (threads f !! i) as [[| |[| | |] k [c [r|]]| | | | | | |]|] eqn:Hi; try done; rewrite Hcg in H; injection H as <-; (split; [done|]); (eapply goto_measure; [exact Hi|done|]); cbn; lia.
  - unfold capture in H. destruct (threads f !! i) as [[| |[| | |] k [c [r|]]| | | | | | |]|] eqn:Hi; try done; injection H as <-; (split; [done|]); (eapply goto_measure; [exact Hi|done|]); cbn; lia.
  - unfold chooseTimeout in H. destruct (threads f !! i) as [[| |[| |[c|]|] k [cc [r|]]| | | | | | |]|] eqn:Hi; try done; (destruct (deadlineOf k f); [|done]); cbn in H; (destruct (bool_decide _); [|done]); injection H as <-;
      (split; [done|]); (eapply goto_measure; [exact Hi|done|]); cbn; lia.
  - unfold complete in H. destruct (threads f !! i) as [[| |st k [c [|]]| | | | | | |]|] eqn:Hi; try done. injection H as <-. split; [done|]. eapply goto_measure; [exact Hi|done|]. cbn. rewrite length_app. cbn. lia.
  - unfold dequeue in H. destruct (processor f), (port f) as [|j rest] eqn:Ep; try done. injection H as <-. split; [done|]. unfold measure. cbn. rewrite Ep. cbn. lia.
  - destruct (receive_measure _ _ _ _ H) as [E ?]. by rewrite E.
  - unfold wgDone in H. destruct (threads f !! i) as [[| | |r| | | | | |]|] eqn:Hi; try done. injection H as <-. split; [done|]. eapply goto_measure; [exact Hi|done|]. cbn. lia.
  - injection H as <-. unfold closeHandle. rewrite Hcg. split; [done|]. by eapply spawn_measure.
  - destruct (closeNext_measure _ _ _ H) as [E ?]. by rewrite E.
  - destruct (Deadline.step _ _); [|done]. by injection H as <-.
  - destruct (Deadline.step _ _); [|done]. by injection H as <-.
Qed.

(** A completed operation brings a step: of the goroutine whose completion is being passed
    on, or of the processor. *)
Lemma completion_progress f i : inv f -> i ∈ queue f -> exists l f', step l f = Some f' /\ pushes f l = true.
Proof.
  intros [Hm Hw Hcl Hcs Hz Hid Ht Hca Hq Hd] Hin. destruct (processor f) as [j|] eqn:Ep.
  - destruct (proj1 (Hd j)) as (t & Hj & Hco); [unfold queue; rewrite Ep; left|]. destruct t as [| |st k [c [[n err]|]]| | | | | | |]; try done. destruct st.
    + eexists (Test_ j), _. cbn. unfold testClosing. rewrite Hj. done.
    + eexists (Capture j), _. cbn. unfold capture. rewrite Hj. done.
    + eexists (Receive_ j None), _. cbn. unfold receive. rewrite bool_decide_eq_true_2, Hj by done. done.
    + eexists (Receive_ j None), _. cbn. unfold receive. rewrite bool_decide_eq_true_2, Hj by done. done.
  - unfold queue in Hin. rewrite Ep in Hin. cbn in Hin. destruct (port f) as [|j rest] eqn:Eq; [by apply elem_of_nil in Hin|]. eexists Dequeue, _. cbn. unfold dequeue. rewrite Ep, Eq. done.
Qed.
Lemma swapped_progress f : (0 < count isSwapped (threads f))%nat -> exists l f', step l f = Some f' /\ pushes f l = true.
Proof. intros (i & t & Hi & Hs)%count_exists. destruct t; try done. eexists (CloseNext i), _. cbn. unfold closeNext. by rewrite Hi. Qed.
(** A goroutine in a call has a step, or the kernel has to complete what was cancelled. *)
Lemma io_progress f i t : inv f -> closing f = true -> threads f !! i = Some t -> inIO t = true -> exists l f', step l f = Some f' /\ pushes f l = true.
Proof.
  intros Hinv Hcg Hi Hio. destruct (decide (0 < count isSwapped (threads f))%nat) as [Hs|Hs]; [by apply swapped_progress|].
  destruct t as [k|k|st k [c [r|]]|r| | | | | |]; try done.
  - destruct (begin i f) as [f'|] eqn:E; [by exists (Begin i), f'|]. unfold begin in E. rewrite Hi in E. by destruct (default _ _).
  - eexists (Submit i (AtOnce (0, None))), _. cbn. unfold submit. by rewrite Hi.
  - apply (completion_progress f i Hinv). apply (iv_done f Hinv). by eexists.
  - assert (Forall willEnd (threads f)) as Hall by (apply (iv_cancel f Hinv); [done|lia]). rewrite Forall_lookup in Hall. specialize (Hall i _ Hi). destruct st.
    + eexists (Test_ i), _. cbn. unfold testClosing. rewrite Hi. done.
    + eexists (Capture i), _. cbn. unfold capture. rewrite Hi. done.
    + unfold willEnd, cancelled in Hall. cbn in Hall. rewrite orb_false_r in Hall. eexists (Complete i (0, Some ERROR_OPERATION_ABORTED)), _. cbn. unfold complete. rewrite Hi. done.
    + unfold willEnd, cancelled in Hall. cbn in Hall. rewrite orb_false_r in Hall. eexists (Complete i (0, Some ERROR_OPERATION_ABORTED)), _. cbn. unfold complete. rewrite Hi. done.
  - eexists (Done_ i), _. cbn. unfold wgDone. by rewrite Hi.
Qed.

(** C34: From the moment Close has set the flag, at most [measure f] steps are left beside new
    calls, which return at once, and changes of deadlines; as long as a call has not
    returned, there is such a step, and the kernel is only waited for where it was asked to
    cancel. At the end the handle is released, once. *)
Theorem file_close_terminates h f : reachable h f -> closing f = true ->
  (forall l f', step l f = Some f' -> closing f' = true /\ if outside l then measure f' = measure f else (measure f' < measure f)%nat) /\
  (Forall finished (threads f) /\ isOpen f = false /\ closes f = 1%nat /\ wg f = 0 \/ exists l f', step l f = Some f' /\ pushes f l = true).
Proof.
  intros Hinv%file_reachable_inv Hcg. split; [intros l f'; by apply step_measure|]. pose proof Hinv as [Hm Hw Hcl Hcs Hz Hid Ht Hca Hq Hd].
  destruct (decide (count inIO (threads f) = 0)%nat) as [H0|H0]; [|right; destruct (count_exists inIO (threads f)) as (i & t & Hi & Hio); [lia|by eapply io_progress]].
  destruct (decide (Forall (fun t => inIO t || isSwapped t || isWaiting t || isClosing t || isZeroing t = false) (threads f))) as [Hall|Hex].
  - left. assert (forall P, (forall t, P t = true -> inIO t || isSwapped t || isWaiting t || isClosing t || isZeroing t = true) -> count P (threads f) = 0%nat) as Hnone.
    { intros P HP. destruct (decide (0 < count P (threads f))%nat) as [(i & t & Hi & Ht')%count_exists|]; [|lia]. rewrite Forall_lookup in Hall. specialize (Hall i t Hi). apply HP in Ht'. simpl in Hall. congruence. }
    split; [eapply Forall_impl; [exact Hall|]; intros t; by destruct t|].
    rewrite (Hnone isSwapped), (Hnone isWaiting), (Hnone isClosing), Hcg in Hcl by (intros t; by destruct t). simpl in Hcl. split; [|split; [done|lia]]. destruct (isOpen f); [simpl in Hcs; lia|done].
  - right. apply not_Forall_Exists in Hex; [|apply _]. apply Exists_exists in Hex as (t & [i Hi]%list_elem_of_lookup & Hne). 
    destruct t as [k|k|st k op|r|r| | | | |]; try (pose proof (count_pos inIO _ _ _ Hi eq_refl); lia); try (exfalso; by apply Hne).
    + eexists (CloseNext i), _. cbn. unfold closeNext. by rewrite Hi.
    + eexists (CloseNext i), _. cbn. unfold closeNext. rewrite Hi, (proj2 (Z.eqb_eq (wg f) 0)) by lia. done.
    + eexists (CloseNext i), _. cbn. unfold closeNext. by rewrite Hi.
    + eexists (CloseNext i), _. cbn. unfold closeNext. by rewrite Hi.
Qed.

(** ** Runs *)

Lemma file_run_reachable h ls f' : run ls (newFile h) = Some f' -> reachable h f'.
Proof.
  unfold run. induction ls as [|l ls IH] using rev_ind in f' |- *; [intros [= <-]; constructor|]. rewrite foldl_app. cbn.
  destruct (foldl _ _ ls) as [f|]; [|done]. cbn. intros H. eapply reach_step; [by apply IH|done].
Qed.
(** A read that waits while Close runs: it is cancelled and returns ErrClosed, then the
    handle is released. A write that was submitted after Close had cancelled what it found
    cancels itself. *)
Definition closingRun : list label :=
  [Call (OpRead 10); Call OpWrite; Begin 0; Begin 1; Submit 0 IoPending; Test_ 0; Capture 0; CallClose; CloseNext 2; Submit 1 IoPending; Test_ 1; Capture 1;
   Complete 1 (0, Some ERROR_OPERATION_ABORTED); Complete 0 (0, Some ERROR_OPERATION_ABORTED); Dequeue; Receive_ 1 None; Dequeue; Receive_ 0 None; Done_ 0].
Definition closedRun : list label := closingRun ++ [Done_ 1; CloseNext 2; CloseNext 2; CloseNext 2; Call OpWrite].
Lemma closedRun_results : (fun f => (threads f, handle f, isOpen f, misuse f)) <$> run closedRun (newFile 7) =
  Some ([Returned (0, Some ErrClosed); Returned (0, Some ErrClosed); Closed; Returned (0, Some ErrClosed)], 0, false, false).
Proof. reflexivity. Qed.

Definition closedFile : file := Eval vm_compute in default (newFile 7) (run closedRun (newFile 7)).
Definition closingFile : file := Eval vm_compute in default (newFile 7) (run closingRun (newFile 7)).
Lemma closedFile_reachable : reachable 7 closedFile.
Proof. apply (file_run_reachable 7 closedRun). vm_compute. reflexivity. Qed.
Lemma closingFile_reachable : reachable 7 closingFile.
Proof. apply (file_run_reachable 7 closingRun). vm_compute. reflexivity. Qed.

Lemma file_handle_safe_witness : isOpen closedFile = false /\ misuse closedFile = false /\ (closes closedFile <= 1)%nat.
Proof. destruct (file_handle_safe 7 closedFile closedFile_reachable) as (H1 & H2 & _). exact (conj eq_refl (conj H1 H2)). Defined.
Lemma file_close_terminates_witness : closing closingFile = true /\ measure closingFile = 4%nat /\
  (Forall finished (threads closingFile) /\ isOpen closingFile = false /\ closes closingFile = 1%nat /\ wg closingFile = 0 \/ exists l f', step l closingFile = Some f' /\ pushes closingFile l = true).
Proof. split; [reflexivity|]. split; [reflexivity|]. exact (proj2 (file_close_terminates 7 closingFile closingFile_reachable eq_refl)). Defined.

(** Flush does not take part in this: behind Close it uses a handle that was released. *)
Lemma flush_after_close : exists f, reachable 7 f /\ misuse f = false /\ misuse (Flush f) = true /\ Fd f = 0.
Proof. exists closedFile. split; [apply closedFile_reachable|]. done. Qed.
