(* ===== verification/PipeConn.v ===== *)
(** * PipeConn: connections over named pipes (src/ipc/namedpipe/namedpipe.go)

    Message pipes that end a direction of the stream by an empty message, dialling, and the
    making of server handles. The answers of Windows are arguments; a call records what it
    wrote, closed or freed. *)
From S2P Require Import Prelude GoLib PipeFile.
#[local] Open Scope Z_scope.

(** ** Message pipes *)

(** messageBytePipe over the calls of its file. [written] is what was written to the file,
    with whether it succeeded. *)
Record messageBytePipe : Type := { writeClosed : bool; readEOF : bool; written : list (list Z * bool) }.
Definition newMessagePipe : messageBytePipe := {| writeClosed := false; readEOF := false; written := [] |}.
Definition with_writeClosed (b : bool) (p : messageBytePipe) : messageBytePipe := {| writeClosed := b; readEOF := readEOF p; written := written p |}.
Definition with_written (b : list Z) (err : option pipeErr) (p : messageBytePipe) : messageBytePipe :=
  {| writeClosed := writeClosed p; readEOF := readEOF p; written := written p ++ [(b, bool_decide (err = None))] |}.

(** [flush] and [write] are the errors of Flush and Write of the file. *)
Definition CloseWrite (flush write : option pipeErr) (p : messageBytePipe) : messageBytePipe * option pipeErr :=
  if writeClosed p then (p, Some ErrClosedPipe)
  else
    let p := with_writeClosed true p in
    match flush with
    | Some err => (with_writeClosed false p, Some err)
    | None =>
        let p := with_written [] write p in
        match write with
        | Some err => (with_writeClosed false p, Some err)
        | None => (p, None)
        end
    end.
Definition Write (b : list Z) (answer : Z * option pipeErr) (p : messageBytePipe) : messageBytePipe * (Z * option pipeErr) :=
  if writeClosed p then (p, (0, Some ErrClosedPipe))
  else if len b =? 0 then (p, (0, None))
  else (with_written b answer.2 p, answer).
(** [answer] is what Read of the file returns; the last component says whether it was called. *)
Definition Read (answer : Z * option pipeErr) (p : messageBytePipe) : messageBytePipe * (Z * option pipeErr) * bool :=
  if readEOF p then (p, (0, Some EOF), false)
  else
    let '(n, err) := answer in
    if bool_decide (err = Some EOF) then ({| writeClosed := writeClosed p; readEOF := true; written := written p |}, (n, err), true)
    else if bool_decide (err = Some ERROR_MORE_DATA) then (p, (n, None), true)
    else (p, (n, err), true).

(** A sequence of calls, with the answers of the file. *)
Inductive pipeCall : Type := PWrite (b : list Z) (answer : Z * option pipeErr) | PCloseWrite (flush write : option pipeErr) | PRead (answer : Z * option pipeErr).
Definition pipeStep (c : pipeCall) (p : messageBytePipe) : messageBytePipe * (Z * option pipeErr) :=
  match c with
  | PWrite b a => Write b a p
  | PCloseWrite f w => let '(p, err) := CloseWrite f w p in (p, (0, err))
  | PRead a => (Read a p).1
  end.
Fixpoint pipeRun (cs : list pipeCall) (p : messageBytePipe) : messageBytePipe * list (Z * option pipeErr) :=
  match cs with
  | [] => (p, [])
  | c :: cs => let '(p, r) := pipeStep c p in let '(p, rs) := pipeRun cs p in (p, r :: rs)
  end.

(** What a pipe shows its user, for the calls of one direction. *)
Definition readsOf (cs : list pipeCall) : list (Z * option pipeErr) := omap (fun c => match c with PRead a => Some a | _ => None end) cs.
(** Results of reads: up to the first EOF as the file gave them, ERROR_MORE_DATA being no
    error; EOF ever after. *)
Fixpoint streamOf (rs : list (Z * option pipeErr)) : list (Z * option pipeErr) :=
  match rs with
  | [] => []
  | (n, err) :: rs =>
      if bool_decide (err = Some EOF) then (n, err) :: ((fun _ => (0, Some EOF)) <$> rs)
      else (n, if bool_decide (err = Some ERROR_MORE_DATA) then None else err) :: streamOf rs
  end.
Fixpoint readResults (cs : list pipeCall) (rs : list (Z * option pipeErr)) : list (Z * option pipeErr) :=
  match cs, rs with PRead _ :: cs, r :: rs => r :: readResults cs rs | _ :: cs, _ :: rs => readResults cs rs | _, _ => [] end.

(** The messages of a direction: an empty message that the file has taken is the last one,
    and the pipe is closed for writing exactly then. *)
Definition writeInv (p : messageBytePipe) : Prop :=
  exists ms, Forall (fun m => m <> ([], true)) ms /\ written p = ms ++ if writeClosed p then [([], true)] else [].
Lemma step_writeInv c p : writeInv p -> writeInv (pipeStep c p).1.
Proof.
  intros (ms & Hms & Hw). destruct c as [b a|f w|[n err]]; cbn.
  - unfold Write. destruct (writeClosed p) eqn:Ec; [exists ms; cbn; by rewrite Ec|]. rewrite app_nil_r in Hw. destruct (Z.eqb_spec (len b) 0) as [|Hb]; [exists ms; cbn; by rewrite Ec, app_nil_r|].
    exists (written p ++ [(b, bool_decide (a.2 = None))]). cbn. rewrite Ec, app_nil_r, Hw. split; [|done]. apply Forall_app. split; [done|]. repeat constructor. intros [= -> _]. done.
  - unfold CloseWrite. destruct (writeClosed p) eqn:Ec; [exists ms; cbn; by rewrite Ec|]. rewrite app_nil_r in Hw. destruct f as [e|]; [exists ms; cbn; by rewrite app_nil_r|].
    destruct w as [e|]; cbn; [exists (ms ++ [([], false)])|exists ms]; cbn; rewrite Hw; [|done]. rewrite app_nil_r. split; [|done]. apply Forall_app. split; [done|]. by repeat constructor.
  - unfold Read. destruct (readEOF p); [by exists ms|]. repeat destruct (bool_decide _); by exists ms.
Qed.

Lemma run_reads cs : forall p, let '(p', rs) := pipeRun cs p in
  readResults cs rs = if readEOF p then (fun _ => (0, Some EOF)) <$> readsOf cs else streamOf (readsOf cs).
Proof.
  induction cs as [|c cs IH]; intros p; cbn [pipeRun]; [by destruct (readEOF p)|]. destruct (pipeStep c p) as [p1 r] eqn:E1. specialize (IH p1). destruct (pipeRun cs p1) as [p2 rs].
  assert (forall b, readEOF p1 = b -> readResults cs rs = if b then (fun _ => (0, Some EOF)) <$> readsOf cs else streamOf (readsOf cs)) as IH' by (by intros b <-). clear IH.
  destruct c as [b a|f w|[n err]]; cbn in E1 |- *.
  - apply IH'. unfold Write in E1. destruct (writeClosed p); [by injection E1 as <- _|]. by destruct (_ =? _); injection E1 as <- _.
  - apply IH'. unfold CloseWrite in E1. by destruct (writeClosed p), f, w; injection E1 as <- _.
  - fold (readsOf cs). unfold Read in E1. destruct (readEOF p) eqn:Er; [injection E1 as <- <-; cbn; f_equal; by apply (IH' true)|].
    destruct (bool_decide _); [injection E1 as <- <-; cbn; f_equal; by apply (IH' true)|]. destruct (bool_decide _); injection E1 as <- <-; cbn; f_equal; by apply (IH' false).
Qed.
Lemma run_writeInv cs : forall p, writeInv p -> writeInv (pipeRun cs p).1.
Proof.
  induction cs as [|c cs IH]; intros p Hp; [done|]. cbn [pipeRun]. pose proof (step_writeInv c p Hp) as H1. destruct (pipeStep c p) as [p1 r]. specialize (IH p1 H1). by destruct (pipeRun cs p1).
Qed.

(** Any calls on a message pipe, whatever its file answers: the reads show the data of the
    file, without ERROR_MORE_DATA, up to the first end and the end ever after; nothing is
    written behind an empty message that the file has taken, which is the mark of
    CloseWrite, and Write never writes one. *)
Theorem message_pipe_stream cs :
  readResults cs (pipeRun cs newMessagePipe).2 = streamOf (readsOf cs) /\ writeInv (pipeRun cs newMessagePipe).1.
Proof.
  split; [|apply run_writeInv; by exists []]. pose proof (run_reads cs newMessagePipe) as H. by destruct (pipeRun cs newMessagePipe).
Qed.

(** ** Dialling *)

(** A round of tryDialPipe: the time at the select, and what CreateFile returns. [deadline]
    is that of the context, if it has one. *)
Record attempt : Type := { at_now : Z; at_create : result Z pipeErr }.
Definition pollInterval : Z := 10000000.
Inductive dialErr : Type := PathError (e : pipeErr) | PlainError (e : pipeErr).
#[export] Instance dialErr_eq_dec : EqDecision dialErr.
Proof. solve_decision. Defined.

(** [None]: it is still trying when the attempts are used up. *)
Fixpoint tryDialPipe (deadline : option Z) (utf16 : option pipeErr) (script : list attempt) : option (result Z dialErr) :=
  match script with
  | [] => None
  | a :: script =>
      if default false ((fun d => d <=? at_now a) <$> deadline) then Some (Err (PlainError ContextDeadlineExceeded))
      else
        match utf16 with
        | Some e => Some (Err (PlainError e))
        | None =>
            match at_create a with
            | Ok h => Some (Ok h)
            | Err e => if bool_decide (e = ERROR_PIPE_BUSY) then tryDialPipe deadline utf16 script else Some (Err (PathError e))
            end
        end
  end.

(** The answers of the calls after the handle was opened; SIDs are numbers. *)
Record dialEnv : Type := {
  de_security : option pipeErr;
  de_owner : result Z pipeErr;
  de_info : result Z pipeErr;
  de_file : option pipeErr      (* makeFile *)
}.
Definition PIPE_TYPE_MESSAGE : Z := 4.
(** The connection: [pipe] or [messageBytePipe], with its handle and path. *)
Inductive conn : Type := Pipe (h : Z) (path : string) | MessagePipe (h : Z) (path : string).
Definition connHandle (c : conn) : Z := match c with Pipe h _ | MessagePipe h _ => h end.
Definition addrOf (c : conn) : string := match c with Pipe _ p | MessagePipe _ p => p end.

(** The check of ExpectedOwner. *)
Definition checkOwner (e : dialEnv) (expected : option Z) : option pipeErr :=
  match expected with
  | None => None
  | Some sid =>
      match de_security e with
      | Some err => Some err
      | None =>
          match de_owner e with
          | Err err => Some err
          | Ok owner => if owner =? sid then None else Some ERROR_ACCESS_DENIED
          end
      end
  end.
(** DialContext: the handles it closed and its result. *)
Definition DialContext (e : dialEnv) (expected deadline : option Z) (utf16 : option pipeErr) (script : list attempt) (path : string) : option (list Z * result conn dialErr) :=
  r ← tryDialPipe deadline utf16 script;
  match r with
  | Err err => Some ([], Err err)
  | Ok h =>
      match checkOwner e expected with
      | Some err => Some ([h], Err (PlainError err))
      | None =>
          match de_info e with
          | Err err => Some ([h], Err (PlainError err))
          | Ok flags =>
              match de_file e with
              | Some err => Some ([h], Err (PlainError err))
              | None => Some ([], Ok (if Z.land flags PIPE_TYPE_MESSAGE =? 0 then Pipe h path else MessagePipe h path))
              end
          end
      end
  end.
Definition DialTimeout (e : dialEnv) (expected : option Z) (now timeout : Z) (utf16 : option pipeErr) (script : list attempt) (path : string) : option (list Z * result conn dialErr) :=
  let timeout := if timeout =? 0 then 2000000000 else timeout in
  '(closed, r) ← DialContext e expected (Some (now + timeout)) utf16 script path;
  Some (closed, match r with Err (PlainError ContextDeadlineExceeded) => Err (PlainError ErrDeadlineExceeded) | _ => r end).

(** The attempts are at least the polling interval apart, the first not before [now]. *)
Fixpoint paced (now : Z) (script : list attempt) : Prop :=
  match script with [] => True | a :: script => now <= at_now a /\ paced (at_now a + pollInterval) script end.

Lemma tryDial_ends d utf16 script : forall now, paced now script -> d <= now + pollInterval * (len script - 1) -> (0 < length script)%nat -> is_Some (tryDialPipe (Some d) utf16 script).
Proof.
  induction script as [|a script IH]; intros now; [simpl; lia|]. intros [Hn Hp] Hd _. cbn. destruct (Z.leb_spec d (at_now a)) as [|Hlt]; [eauto|]. destruct utf16; [eauto|].
  destruct (at_create a) as [h|e]; [eauto|]. destruct (bool_decide _); [|eauto]. rewrite len_cons in Hd. apply (IH (at_now a + pollInterval)); [done|lia|].
  destruct script; [|simpl; lia]. change (len []) with 0 in Hd. lia.
Qed.

(** A successful dial is to the first instance that is not busy, before the deadline. *)
Lemma tryDial_first deadline utf16 script h : tryDialPipe deadline utf16 script = Some (Ok h) ->
  exists pre a post, script = pre ++ a :: post /\ at_create a = Ok h /\ Forall (fun b => at_create b = Err ERROR_PIPE_BUSY) pre /\ forall d, deadline = Some d -> at_now a < d.
Proof.
  induction script as [|a script IH]; [done|]. cbn. destruct (default _ _) eqn:Ed; [done|]. destruct utf16; [done|]. destruct (at_create a) as [h'|e] eqn:Ea.
  - intros [= ->]. exists [], a, script. repeat split; try done. intros d ->. cbn in Ed. lia.
  - destruct (bool_decide_reflect (e = ERROR_PIPE_BUSY)) as [->|]; [|done]. intros (pre & b & post & -> & Hb & Hpre & Hd)%IH. exists (a :: pre), b, post. split; [done|]. split; [done|]. split; [by constructor|done].
Qed.

(** A server that stays busy: the deadline ends the dial. *)
Lemma tryDial_busy d script : Forall (fun a => at_create a = Err ERROR_PIPE_BUSY) script -> is_Some (tryDialPipe (Some d) None script) ->
  tryDialPipe (Some d) None script = Some (Err (PlainError ContextDeadlineExceeded)).
Proof.
  induction 1 as [|a script Ha _ IH]; [intros [? [=]]|]. cbn. destruct (_ <=? _); [done|]. rewrite Ha. cbn. apply IH.
Qed.

