(* ===== verification/PipeListener.v ===== *)
(** * PipeListener: accepting connections on a named pipe (src/ipc/namedpipe/namedpipe.go)

    Making server handles, and the listener: one routine that serves calls of Accept one
    after the other, and any number of callers of Accept and Close that meet it on unbuffered
    channels. The steps interleave; what Windows answers is part of the labels. *)
From S2P Require Import Prelude Threads GoLib PipeFile PipeConn.
#[local] Open Scope Z_scope.

(** ** Server handles *)

Definition FILE_PIPE_REJECT_REMOTE_CLIENTS : Z := 2.
Definition FILE_PIPE_MESSAGE_TYPE : Z := 1.
Definition FILE_OPEN : Z := 1.
Definition FILE_CREATE : Z := 2.
Definition GENERIC_READ : Z := 2147483648.
Definition GENERIC_WRITE : Z := 1073741824.
Definition SYNCHRONIZE : Z := 1048576.

Record ListenConfig : Type := { SecurityDescriptor : option Z; MessageMode : bool; InputBufferSize : Z; OutputBufferSize : Z }.
(** A descriptor that was given, or the default one made of an access control list. *)
Inductive secDesc : Type := GivenSD (sd : Z) | DefaultSD.
(** What NtCreateNamedPipeFile is given. *)
Record createArgs : Type := { ca_access : Z; ca_disposition : Z; ca_type : Z; ca_sd : option secDesc; ca_in : Z; ca_out : Z; ca_timeout : Z }.
(** The answers of the system; a status of NT is the error that Errno makes of it. *)
Record serverEnv : Type := {
  se_utf16 : option pipeErr; se_ntpath : option pipeErr; se_acl : option pipeErr; se_newsd : option pipeErr; se_dacl : option pipeErr; se_create : result Z pipeErr
}.
(** Memory of the system that is allocated and freed. *)
Inductive memEvent : Type := AllocPath | AllocAcl | FreePath | FreeAcl.
#[export] Instance memEvent_eq_dec : EqDecision memEvent.
Proof. solve_decision. Defined.

(** The security descriptor of the first pipe: what was allocated, and the descriptor. *)
Definition firstDescriptor (e : serverEnv) (sd : option Z) : list memEvent * result secDesc dialErr :=
  match sd with
  | Some sd => ([], Ok (GivenSD sd))
  | None =>
      match se_acl e with
      | Some err => ([], Err (PlainError err))
      | None =>
          ([AllocAcl],
           match se_newsd e with
           | Some err => Err (PlainError err)
           | None => match se_dacl e with Some err => Err (PlainError err) | None => Ok DefaultSD end
           end)
      end
  end.
Definition serverArgs (c : ListenConfig) (isFirstPipe : bool) (sd : option secDesc) : createArgs :=
  {| ca_access := if isFirstPipe then SYNCHRONIZE else Z.lor (Z.lor GENERIC_READ GENERIC_WRITE) SYNCHRONIZE;
     ca_disposition := if isFirstPipe then FILE_CREATE else FILE_OPEN;
     ca_type := if MessageMode c then Z.lor FILE_PIPE_REJECT_REMOTE_CLIENTS FILE_PIPE_MESSAGE_TYPE else FILE_PIPE_REJECT_REMOTE_CLIENTS;
     ca_sd := sd; ca_in := u32 (InputBufferSize c); ca_out := u32 (OutputBufferSize c); ca_timeout := -50 * 10000 |}.
(** [defer LocalFree]: what was allocated is freed in the opposite order. *)
Definition freed (mem : list memEvent) : list memEvent := (fun m => match m with AllocPath => FreePath | AllocAcl => FreeAcl | m => m end) <$> reverse mem.
Definition makeServerPipeHandle (e : serverEnv) (sd : option Z) (c : ListenConfig) (isFirstPipe : bool) : list memEvent * option createArgs * result Z dialErr :=
  match se_utf16 e with
  | Some err => ([], None, Err (PathError err))
  | None =>
      match se_ntpath e with
      | Some err => ([], None, Err (PathError err))
      | None =>
          let '(acl, desc) := if isFirstPipe then let '(m, r) := firstDescriptor e sd in (m, match r with Ok d => Ok (Some d) | Err err => Err err end) else ([], Ok None) in
          let mem := AllocPath :: acl in
          match desc with
          | Err err => (mem ++ freed mem, None, Err err)
          | Ok d =>
              (mem ++ freed mem, Some (serverArgs c isFirstPipe d), match se_create e with Ok h => Ok h | Err err => Err (PathError err) end)
          end
      end
  end.

(** Memory is freed on every path, each piece once; the pipe refuses remote clients; the
    first handle creates the pipe with a security descriptor and cannot be connected to, the
    others open the pipe that exists and carry none. *)
Theorem server_handle e sd c isFirstPipe :
  let '(mem, args, r) := makeServerPipeHandle e sd c isFirstPipe in
  (mem = [] \/ mem = [AllocPath; FreePath] \/ mem = [AllocPath; AllocAcl; FreeAcl; FreePath]) /\
  (args = None -> exists err, r = Err err) /\
  forall a, args = Some a ->
    (forall h, r = Ok h <-> se_create e = Ok h) /\
    Z.testbit (ca_type a) 1 = true /\ Z.testbit (ca_type a) 0 = MessageMode c /\
    ca_disposition a = (if isFirstPipe then FILE_CREATE else FILE_OPEN) /\
    (Z.testbit (ca_access a) 31 || Z.testbit (ca_access a) 30) = negb isFirstPipe /\
    ca_sd a = (if isFirstPipe then Some (match sd with Some s => GivenSD s | None => DefaultSD end) else None).
Proof.
  unfold makeServerPipeHandle. destruct (se_utf16 e); [repeat split; eauto; done|]. destruct (se_ntpath e); [repeat split; eauto; done|].
  assert (forall b d, Z.testbit (ca_type (serverArgs c b d)) 1 = true /\ Z.testbit (ca_type (serverArgs c b d)) 0 = MessageMode c /\
    (Z.testbit (ca_access (serverArgs c b d)) 31 || Z.testbit (ca_access (serverArgs c b d)) 30) = negb b) as Hargs.
  { intros b d. unfold serverArgs. cbn [ca_type ca_access]. by destruct (MessageMode c), b. }
  assert (forall h, match se_create e with Ok h => Ok h | Err err => Err (PathError err) end = Ok h <-> se_create e = Ok h) as Hok by (intros h; destruct (se_create e); split; congruence).
  destruct isFirstPipe; [unfold firstDescriptor; destruct sd; [|destruct (se_acl e); [|destruct (se_newsd e); [|destruct (se_dacl e)]]]|]; cbn; (split; [auto|]); (split; [by eauto|]); try done;
    intros a [= <-]; (split; [done|]); match goal with |- context [serverArgs c ?b ?d] => destruct (Hargs b d) as (H1 & H2 & H3) end; auto 10.
Qed.

(** ** The listener *)

(** Where listenerRoutine is: in its select; making a pipe for caller [i] of Accept;
    waiting for the client on handle [h]; waiting for the connect that it aborted; sending
    the response; behind its loop, at each statement. *)
Inductive routinePc : Type :=
| LSelect | LMake (i : nat) | LConnect (i : nat) (h : Z) | LAbort (i : nat) | LReply (i : nat) (r : result Z dialErr) | LExit | LZero | LCloseDone | LFinished.
(** A caller of Accept, and one of Close. *)
Inductive acceptPc : Type := ASending | AWaiting | AReturned (r : result conn dialErr).
Inductive closePc : Type := CSending | CWaiting | CReturned.

(** pipeListener and those who use it. [opened] and [closed] are the handles of server pipes
    other than the first; [lost] remembers that a request to close was taken by a connect
    that failed with an error of its own. *)
Record pipeListener : Type := {
  firstHandle : Z;
  firstOpen : bool;
  path : string;
  config : ListenConfig;
  doneCh : bool;            (* closed *)
  routine : routinePc;
  accepts : list acceptPc;
  closes : list closePc;
  opened : list Z;
  closed : list Z;
  lost : bool
}.
Definition newListener (h : Z) (p : string) (c : ListenConfig) : pipeListener :=
  {| firstHandle := h; firstOpen := true; path := p; config := c; doneCh := false; routine := LSelect; accepts := []; closes := []; opened := []; closed := []; lost := false |}.
(** Listen: the first handle; on old systems a first connection is made and closed. *)
Definition Listen (e : serverEnv) (c : ListenConfig) (p : string) (major minor : Z) (utf16 : option pipeErr) (create : result Z pipeErr) : list Z * result pipeListener dialErr :=
  let '(_, _, r) := makeServerPipeHandle e (SecurityDescriptor c) c true in
  match r with
  | Err err => ([], Err err)
  | Ok h =>
      let swallowed :=
        if (major <? 6) || ((major =? 6) && (minor <? 4)) then match utf16, create with None, Ok h => [h] | _, _ => [] end else [] in
      (swallowed, Ok (newListener h p c))
  end.

Definition with_routine (r : routinePc) (l : pipeListener) : pipeListener :=
  {| firstHandle := firstHandle l; firstOpen := firstOpen l; path := path l; config := config l; doneCh := doneCh l; routine := r; accepts := accepts l; closes := closes l; opened := opened l; closed := closed l; lost := lost l |}.
Definition with_accepts (a : list acceptPc) (l : pipeListener) : pipeListener :=
  {| firstHandle := firstHandle l; firstOpen := firstOpen l; path := path l; config := config l; doneCh := doneCh l; routine := routine l; accepts := a; closes := closes l; opened := opened l; closed := closed l; lost := lost l |}.
Definition with_closes (c : list closePc) (l : pipeListener) : pipeListener :=
  {| firstHandle := firstHandle l; firstOpen := firstOpen l; path := path l; config := config l; doneCh := doneCh l; routine := routine l; accepts := accepts l; closes := c; opened := opened l; closed := closed l; lost := lost l |}.
Definition open_pipe (h : Z) (l : pipeListener) : pipeListener :=
  {| firstHandle := firstHandle l; firstOpen := firstOpen l; path := path l; config := config l; doneCh := doneCh l; routine := routine l; accepts := accepts l; closes := closes l; opened := h :: opened l; closed := closed l; lost := lost l |}.
Definition close_pipe (h : Z) (l : pipeListener) : pipeListener :=
  {| firstHandle := firstHandle l; firstOpen := firstOpen l; path := path l; config := config l; doneCh := doneCh l; routine := routine l; accepts := accepts l; closes := closes l; opened := opened l; closed := h :: closed l; lost := lost l |}.
Definition lose (l : pipeListener) : pipeListener :=
  {| firstHandle := firstHandle l; firstOpen := firstOpen l; path := path l; config := config l; doneCh := doneCh l; routine := routine l; accepts := accepts l; closes := closes l; opened := opened l; closed := closed l; lost := true |}.
Definition release_first (l : pipeListener) : pipeListener :=
  {| firstHandle := firstHandle l; firstOpen := false; path := path l; config := config l; doneCh := doneCh l; routine := routine l; accepts := accepts l; closes := closes l; opened := opened l; closed := closed l; lost := lost l |}.
Definition zero_first (l : pipeListener) : pipeListener :=
  {| firstHandle := 0; firstOpen := firstOpen l; path := path l; config := config l; doneCh := doneCh l; routine := routine l; accepts := accepts l; closes := closes l; opened := opened l; closed := closed l; lost := lost l |}.
Definition finish_done (l : pipeListener) : pipeListener :=
  {| firstHandle := firstHandle l; firstOpen := firstOpen l; path := path l; config := config l; doneCh := true; routine := routine l; accepts := accepts l; closes := closes l; opened := opened l; closed := closed l; lost := lost l |}.

(** The end of a round of the inner loop of listenerRoutine. *)
Definition connected (i : nat) (r : result Z dialErr) (l : pipeListener) : pipeListener :=
  with_routine (if bool_decide (r = Err (PlainError ERROR_NO_DATA)) then LMake i else LReply i r) l.
(** makeServerPipe and the start of makeConnectedServerPipe; [file] is the error of makeFile. *)
Definition makePipe (handle : result Z dialErr) (file : option pipeErr) (l : pipeListener) : option pipeListener :=
  match routine l with
  | LMake i =>
      Some match handle with
      | Err err => connected i (Err err) l
      | Ok h =>
          let l := open_pipe h l in
          match file with Some err => connected i (Err (PlainError err)) (close_pipe h l) | None => with_routine (LConnect i h) l end
      end
  | _ => None
  end.
(** The select of makeConnectedServerPipe: the connect has ended, or a request to close. *)
Definition connectEnds (err : option pipeErr) (l : pipeListener) : option pipeListener :=
  match routine l with
  | LConnect i h => Some match err with None => connected i (Ok h) l | Some err => connected i (Err (PlainError err)) (close_pipe h l) end
  | _ => None
  end.
Definition abortConnect (j : nat) (l : pipeListener) : option pipeListener :=
  match routine l, closes l !! j with
  | LConnect i h, Some CSending => Some (with_routine (LAbort i) (close_pipe h (with_closes (<[j := CWaiting]> (closes l)) l)))
  | _, _ => None
  end.
Definition aborted (err : option pipeErr) (l : pipeListener) : option pipeListener :=
  match routine l with
  | LAbort i =>
      Some match err with
      | None | Some ErrClosed => connected i (Err (PlainError NetErrClosed)) l
      | Some err => connected i (Err (PlainError err)) (if bool_decide (err = NetErrClosed) then l else lose l)
      end
  | _ => None
  end.
(** The select of listenerRoutine. *)
Definition takeAccept (i : nat) (l : pipeListener) : option pipeListener :=
  match routine l, accepts l !! i with
  | LSelect, Some ASending => Some (with_routine (LMake i) (with_accepts (<[i := AWaiting]> (accepts l)) l))
  | _, _ => None
  end.
Definition takeClose (j : nat) (l : pipeListener) : option pipeListener :=
  match routine l, closes l !! j with
  | LSelect, Some CSending => Some (with_routine LExit (with_closes (<[j := CWaiting]> (closes l)) l))
  | _, _ => None
  end.
(** What Accept makes of the response. *)
Definition response (r : result Z dialErr) (l : pipeListener) : result conn dialErr :=
  match r with Err err => Err err | Ok h => Ok (if MessageMode (config l) then MessagePipe h (path l) else Pipe h (path l)) end.
Definition reply (l : pipeListener) : option pipeListener :=
  match routine l with
  | LReply i r =>
      match accepts l !! i with
      | Some AWaiting =>
          Some (with_routine (if bool_decide (r = Err (PlainError NetErrClosed)) then LExit else LSelect) (with_accepts (<[i := AReturned (response r l)]> (accepts l)) l))
      | _ => None
      end
  | _ => None
  end.
(** The statements behind the loop. *)
Definition exitNext (l : pipeListener) : option pipeListener :=
  match routine l with
  | LExit => Some (with_routine LZero (release_first l))
  | LZero => Some (with_routine LCloseDone (zero_first l))
  | LCloseDone => Some (with_routine LFinished (finish_done l))
  | _ => None
  end.
(** Accept and Close find doneCh closed. *)
Definition acceptDone (i : nat) (l : pipeListener) : option pipeListener :=
  match accepts l !! i with
  | Some ASending => if doneCh l then Some (with_accepts (<[i := AReturned (Err (PlainError NetErrClosed))]> (accepts l)) l) else None
  | _ => None
  end.
Definition closeDone (j : nat) (l : pipeListener) : option pipeListener :=
  match closes l !! j with
  | Some CSending | Some CWaiting => if doneCh l then Some (with_closes (<[j := CReturned]> (closes l)) l) else None
  | _ => None
  end.

Inductive label : Type :=
| CallAccept | CallClose | TakeAccept (i : nat) | TakeClose (j : nat) | MakePipe (handle : result Z dialErr) (file : option pipeErr) | ConnectEnds (err : option pipeErr)
| AbortConnect (j : nat) | Aborted (err : option pipeErr) | Reply | ExitNext | AcceptDone (i : nat) | CloseDone (j : nat).
Definition step (lb : label) (l : pipeListener) : option pipeListener :=
  match lb with
  | CallAccept => Some (with_accepts (accepts l ++ [ASending]) l)
  | CallClose => Some (with_closes (closes l ++ [CSending]) l)
  | TakeAccept i => takeAccept i l
  | TakeClose j => takeClose j l
  | MakePipe h file => makePipe h file l
  | ConnectEnds err => connectEnds err l
  | AbortConnect j => abortConnect j l
  | Aborted err => aborted err l
  | Reply => reply l
  | ExitNext => exitNext l
  | AcceptDone i => acceptDone i l
  | CloseDone j => closeDone j l
  end.
Definition run (lbs : list label) (l : pipeListener) : option pipeListener := foldl (fun o lb => l ← o; step lb l) (Some l) lbs.
Inductive reachable (h : Z) (p : string) (c : ListenConfig) : pipeListener -> Prop :=
| reach_new : reachable h p c (newListener h p c)
| reach_step lb l l' : reachable h p c l -> step lb l = Some l' -> reachable h p c l'.

(** ** What holds between the steps *)

(** The pipe the routine holds, the pipes that calls of Accept returned, the call served. *)
Definition current (r : routinePc) : list Z := match r with LConnect _ h | LReply _ (Ok h) => [h] | _ => [] end.
Definition deliveredBy (a : acceptPc) : list Z := match a with AReturned (Ok c) => [connHandle c] | _ => [] end.
Definition delivered (l : pipeListener) : list Z := accepts l ≫= deliveredBy.
Definition serving (r : routinePc) : option nat := match r with LMake i | LConnect i _ | LAbort i | LReply i _ => Some i | _ => None end.
(** The routine is on its way out. *)
Definition ending (r : routinePc) : bool :=
  match r with LAbort _ | LExit | LZero | LCloseDone | LFinished => true | LReply _ r => bool_decide (r = Err (PlainError NetErrClosed)) | _ => false end.
Definition released (r : routinePc) : bool := match r with LZero | LCloseDone | LFinished => true | _ => false end.
Definition isFinished (r : routinePc) : bool := match r with LFinished => true | _ => false end.

Record inv (l : pipeListener) : Prop := {
  iv_pipes : opened l ≡ₚ current (routine l) ++ closed l ++ delivered l;
  iv_done : doneCh l = isFinished (routine l);
  iv_first : firstOpen l = negb (released (routine l));
  iv_serving : forall i, accepts l !! i = Some AWaiting <-> serving (routine l) = Some i;
  iv_returned : CReturned ∈ closes l -> doneCh l = true;
  iv_waiting : CWaiting ∈ closes l -> lost l = true \/ ending (routine l) = true
}.
Lemma listener_inv_new h p c : inv (newListener h p c).
Proof. split; try done; try (by intros []%elem_of_nil). Qed.

Lemma delivered_insert (l : list acceptPc) i x y : l !! i = Some x -> deliveredBy x = [] -> (<[i := y]> l ≫= deliveredBy) ≡ₚ deliveredBy y ++ (l ≫= deliveredBy).
Proof.
  intros Hi Hx. rewrite insert_take_drop by (by eapply lookup_lt_Some). rewrite <- (take_drop_middle l i x Hi) at 3. rewrite !bind_app. cbn. rewrite Hx, app_nil_l. apply Permutation_app_swap_app.
Qed.
Lemma elem_of_insert_weak {A} (l : list A) i (x y : A) : x ∈ <[i := y]> l -> x = y \/ x ∈ l.
Proof.
  intros [j Hj]%list_elem_of_lookup. destruct (decide (i = j)) as [<-|Hne].
  - destruct (decide (i < length l)%nat) as [Hl|Hl]; [rewrite list_lookup_insert_eq in Hj by done; left; congruence|rewrite list_insert_ge in Hj by lia; right; by eapply list_elem_of_lookup_2].
  - rewrite list_lookup_insert_ne in Hj by done. right. by eapply list_elem_of_lookup_2.
Qed.

(** The routine moves on with the same call, having opened or closed pipes: [l'] differs from
    [l] in what it holds only. *)
Lemma move_inv l l' r : inv l -> accepts l' = accepts l -> closes l' = closes l -> doneCh l' = doneCh l -> firstOpen l' = firstOpen l -> routine l' = r ->
  opened l' ≡ₚ current r ++ closed l' ++ delivered l -> isFinished r = isFinished (routine l) -> released r = released (routine l) -> serving r = serving (routine l) ->
  (CWaiting ∈ closes l -> lost l' = true \/ ending r = true) -> inv l'.
Proof.
  intros [Hp Hd Hf Hs Hr Hw] Ea Ec Ed Ef Er Hp' H1 H2 H3 Hl. split; rewrite ?Er; try congruence.
  - unfold delivered. rewrite Ea. exact Hp'.
  - intros i. by rewrite Ea, H3.
  - rewrite Ec, Ed. done.
  - by rewrite Ec.
Qed.
(** The end of a round: the pipe is kept or was closed. *)
Lemma connected_inv i r l l0 : inv l -> accepts l0 = accepts l -> closes l0 = closes l -> doneCh l0 = doneCh l -> firstOpen l0 = firstOpen l -> serving (routine l) = Some i ->
  opened l0 ≡ₚ (match r with Ok h => [h] | Err _ => [] end) ++ closed l0 ++ delivered l ->
  (CWaiting ∈ closes l -> lost l0 = true \/ r = Err (PlainError NetErrClosed)) -> inv (connected i r l0).
Proof.
  intros Hinv Ea Ec Ed Ef Hs Hp Hl. unfold connected. destruct (bool_decide_reflect (r = Err (PlainError ERROR_NO_DATA))) as [->|Hne].
  - eapply (move_inv l _ (LMake i)); try done; try (destruct (routine l); done). intros Hin. left. destruct (Hl Hin) as [|[=]]. done.
  - eapply (move_inv l _ (LReply i r)); try done; try (destruct (routine l); done). intros Hin. cbn. destruct (Hl Hin) as [|Hr]; [by left|right; by apply bool_decide_eq_true].
Qed.

Lemma makePipe_inv h file l l' : inv l -> makePipe h file l = Some l' -> inv l'.
Proof.
  intros Hinv H. unfold makePipe in H. pose proof Hinv as [Hp Hd Hf Hs Hr Hw]. destruct (routine l) eqn:Er; try done. injection H as <-. cbn in Hp.
  assert (CWaiting ∈ closes l -> lost l = true) as Hlost by (intros Hin; by destruct (Hw Hin)). destruct h as [h|err].
  - destruct file as [err|].
    + eapply (connected_inv i _ l); try done; cbn; rewrite ?Er, ?Hp; auto.
    + eapply (move_inv l _ (LConnect i h)); try done; cbn; rewrite ?Er, ?Hp; auto.
  - eapply (connected_inv i _ l); try done; cbn; rewrite ?Er, ?Hp; auto.
Qed.
Lemma connectEnds_inv err l l' : inv l -> connectEnds err l = Some l' -> inv l'.
Proof.
  intros Hinv H. unfold connectEnds in H. pose proof Hinv as [Hp Hd Hf Hs Hr Hw]. destruct (routine l) eqn:Er; try done. injection H as <-. cbn in Hp.
  assert (CWaiting ∈ closes l -> lost l = true) as Hlost by (intros Hin; by destruct (Hw Hin)).
  destruct err; (eapply (connected_inv i _ l); try done; cbn; rewrite ?Er, ?Hp; auto).
Qed.
Lemma aborted_inv err l l' : inv l -> aborted err l = Some l' -> inv l'.
Proof.
  intros Hinv H. unfold aborted in H. pose proof Hinv as [Hp Hd Hf Hs Hr Hw]. destruct (routine l) eqn:Er; try done. injection H as <-. cbn in Hp.
  assert (forall e, inv (connected i (Err (PlainError e)) (if bool_decide (e = NetErrClosed) then l else lose l))) as Hother.
  { intros e. destruct (bool_decide_reflect (e = NetErrClosed)) as [->|]; (eapply (connected_inv i _ l); try done; cbn; rewrite ?Er, ?Hp; auto). }
  assert (inv (connected i (Err (PlainError NetErrClosed)) l)) as Hclosed by (by specialize (Hother NetErrClosed)).
  destruct err as [[]|]; try done; apply Hother.
Qed.
Lemma abortConnect_inv j l l' : inv l -> abortConnect j l = Some l' -> inv l'.
Proof.
  intros [Hp Hd Hf Hs Hr Hw] H. unfold abortConnect in H. destruct (routine l) eqn:Er; try done. destruct (closes l !! j) as [[]|] eqn:Ej; try done. injection H as <-. cbn in Hp.
  split; cbn; rewrite ?Hp; auto. intros [[=]|Hin]%elem_of_insert_weak; by apply Hr.
Qed.
Lemma takeClose_inv j l l' : inv l -> takeClose j l = Some l' -> inv l'.
Proof.
  intros [Hp Hd Hf Hs Hr Hw] H. unfold takeClose in H. destruct (routine l) eqn:Er; try done. destruct (closes l !! j) as [[]|] eqn:Ej; try done. injection H as <-.
  split; cbn; rewrite ?Hp; auto. intros [[=]|Hin]%elem_of_insert_weak; by apply Hr.
Qed.
(** A call of Accept that moves: what it returns, if anything, was held by the routine. *)
Lemma accepts_inv l l' i x y r : inv l -> accepts l !! i = Some x -> deliveredBy x = [] -> l' = with_routine r (with_accepts (<[i := y]> (accepts l)) l) ->
  current (routine l) ≡ₚ current r ++ deliveredBy y -> isFinished r = isFinished (routine l) -> released r = released (routine l) ->
  (forall j, <[i := y]> (accepts l) !! j = Some AWaiting <-> serving r = Some j) -> (ending (routine l) = true -> ending r = true) -> inv l'.
Proof.
  intros [Hp Hd Hf Hs Hr Hw] Hi Hx -> Hc H1 H2 Hser Hend. split; cbn; try congruence; try done.
  - unfold delivered. cbn. rewrite (delivered_insert _ _ _ _ Hi Hx), Hp, Hc, <- !app_assoc. apply Permutation_app_head. rewrite !app_assoc. apply Permutation_app_tail, Permutation_app_comm.
  - intros Hin. destruct (Hw Hin); auto.
Qed.
Lemma takeAccept_inv i l l' : inv l -> takeAccept i l = Some l' -> inv l'.
Proof.
  intros Hinv H. unfold takeAccept in H. pose proof Hinv as [Hp Hd Hf Hs Hr Hw]. destruct (routine l) eqn:Er; try done. destruct (accepts l !! i) as [[]|] eqn:Ei; try done. injection H as <-.
  eapply (accepts_inv l _ i _ AWaiting (LMake i)); try done; try (by rewrite Er). intros j. destruct (decide (i = j)) as [<-|Hne].
  - rewrite list_lookup_insert_eq by (by eapply lookup_lt_Some). done.
  - rewrite list_lookup_insert_ne, Hs by done. cbn. naive_solver.
Qed.
Lemma reply_inv l l' : inv l -> reply l = Some l' -> inv l'.
Proof.
  intros Hinv H. unfold reply in H. pose proof Hinv as [Hp Hd Hf Hs Hr Hw]. destruct (routine l) eqn:Er; try done. destruct (accepts l !! i) as [[]|] eqn:Ei; try done. injection H as <-.
  eapply (accepts_inv l _ i _ (AReturned (response r l))); try done; rewrite ?Er; try (by destruct (bool_decide _)).
  - destruct r as [h|err]; [cbn; by destruct (MessageMode _)|]. by destruct (bool_decide _).
  - intros j. destruct (decide (i = j)) as [<-|Hne].
    + rewrite list_lookup_insert_eq by (by eapply lookup_lt_Some). by destruct (bool_decide _).
    + rewrite list_lookup_insert_ne, Hs by done. cbn. destruct (bool_decide _); naive_solver.
  - cbn. by intros ->.
Qed.
Lemma exitNext_inv l l' : inv l -> exitNext l = Some l' -> inv l'.
Proof. intros [Hp Hd Hf Hs Hr Hw] H. unfold exitNext in H. destruct (routine l) eqn:Er; try done; injection H as <-; split; cbn; auto. Qed.

Lemma listener_step_inv lb l l' : inv l -> step lb l = Some l' -> inv l'.
Proof.
  intros Hinv H. destruct lb as [| |i|j|h file|err|j|err| | |i|j]; cbn in H; [| |by eapply takeAccept_inv|by eapply takeClose_inv|by eapply makePipe_inv|by eapply connectEnds_inv|by eapply abortConnect_inv|by eapply aborted_inv|by eapply reply_inv|by eapply exitNext_inv| |].
  - injection H as <-. destruct Hinv as [Hp Hd Hf Hs Hr Hw]. split; cbn; try done; [unfold delivered; cbn; by rewrite bind_app, app_nil_r|].
    intros i. rewrite <- Hs. split; [|apply lookup_app_l_Some]. by intros [Hi|[_ [_ [=]]%list_lookup_singleton_Some]]%lookup_app_Some.
  - injection H as <-. destruct Hinv as [Hp Hd Hf Hs Hr Hw]. split; cbn; try done; intros Hin; (apply Hr || apply Hw); set_solver.
  - unfold acceptDone in H. destruct (accepts l !! i) as [[]|] eqn:Ei; try done. destruct (doneCh l) eqn:Ed; [|done]. injection H as <-.
    pose proof (iv_serving l Hinv) as Hs. eapply (accepts_inv l _ i _ (AReturned (Err (PlainError NetErrClosed))) (routine l)); try done; [by rewrite app_nil_r|].
    intros j. destruct (decide (i = j)) as [<-|Hne]; [|by rewrite list_lookup_insert_ne]. rewrite list_lookup_insert_eq by (by eapply lookup_lt_Some). rewrite <- Hs, Ei. done.
  - unfold closeDone in H. destruct Hinv as [Hp Hd Hf Hs Hr Hw]. destruct (closes l !! j) as [[]|] eqn:Ej; try done; (destruct (doneCh l) eqn:Ed; [|done]); injection H as <-;
      split; cbn; rewrite ?Ed; try done; intros [[=]|Hin]%elem_of_insert_weak; by apply Hw.
Qed.
Lemma listener_reachable_inv h p c l : reachable h p c l -> inv l.
Proof. induction 1 as [|lb l l' _ IH H]; [apply listener_inv_new|by eapply listener_step_inv]. Qed.

(** ** Accept and Close *)

(** A step that the routine or the callers of a listener on its way out can take. *)
Definition endingLabel (lb : label) : bool := match lb with Aborted _ | Reply | ExitNext | AcceptDone _ | CloseDone _ => true | _ => false end.
Lemma ending_progress l : inv l -> ending (routine l) = true -> isFinished (routine l) = false -> exists lb l', endingLabel lb = true /\ step lb l = Some l'.
Proof.
  intros [Hp Hd Hf Hs Hr Hw] He Hn. destruct (routine l) as [|i|i h|i|i r| | | |] eqn:Er; try done.
  - eexists (Aborted None), _. split; [done|]. cbn. unfold aborted. by rewrite Er.
  - eexists Reply, _. split; [done|]. cbn. unfold reply. rewrite Er. by rewrite (proj2 (Hs i) eq_refl).
  - eexists ExitNext, _. split; [done|]. cbn. unfold exitNext. by rewrite Er.
  - eexists ExitNext, _. split; [done|]. cbn. unfold exitNext. by rewrite Er.
  - eexists ExitNext, _. split; [done|]. cbn. unfold exitNext. by rewrite Er.
Qed.

(** C37: Whatever callers of Accept and Close do, and whatever Windows answers: every server pipe
    that was made is held by the routine, was closed, or was returned by exactly one call of
    Accept; the first handle is released before doneCh is closed; Close returns only then. A
    caller of Close whose request was taken waits for a routine that is on its way out and
    not stuck, unless the request was lost. *)
Theorem listener_accounts h p c l : reachable h p c l ->
  opened l ≡ₚ current (routine l) ++ closed l ++ delivered l /\
  (doneCh l = true -> firstOpen l = false /\ opened l ≡ₚ closed l ++ delivered l /\ AWaiting ∉ accepts l) /\
  (CReturned ∈ closes l -> doneCh l = true) /\
  (CWaiting ∈ closes l -> doneCh l = false -> lost l = false -> ending (routine l) = true /\ exists lb l', endingLabel lb = true /\ step lb l = Some l').
Proof.
  intros Hr%listener_reachable_inv. pose proof Hr as [Hp Hd Hf Hs Hret Hw]. split; [done|]. split; [|split; [done|]].
  - rewrite Hd. intros Hfin. destruct (routine l) eqn:Er; try done. split; [done|]. split; [done|]. intros [i Hi]%list_elem_of_lookup. by apply Hs in Hi.
  - intros Hin Hnd Hnl. destruct (Hw Hin) as [|He]; [congruence|]. split; [done|]. apply ending_progress; [done|done|congruence].
Qed.

(** ** A request to close that is lost *)

(** Labels without another call of Close, the errors being those of Windows. *)
Definition quiet (lb : label) : Prop :=
  match lb with CallClose => False | MakePipe (Err err) _ => err <> PlainError NetErrClosed | MakePipe _ (Some err) => err <> NetErrClosed | ConnectEnds (Some err) => err <> NetErrClosed | _ => True end.
(** No request to close is left, and the routine does not know of one. *)
Definition stranded (l : pipeListener) : Prop :=
  doneCh l = false /\ ending (routine l) = false /\ CSending ∉ closes l.

Lemma connected_stranded i r l l0 : stranded l -> closes l0 = closes l -> doneCh l0 = doneCh l -> r <> Err (PlainError NetErrClosed) ->
  stranded (connected i r l0) /\ closes (connected i r l0) = closes l.
Proof.
  intros (Hd & He & Hc) Ec Ed Hr. unfold connected. split; [|done]. split; [cbn; congruence|]. split; [|cbn; congruence]. cbn. destruct (bool_decide _); [done|]. cbn. by apply bool_decide_eq_false.
Qed.
Lemma step_stranded lb l l' : stranded l -> quiet lb -> step lb l = Some l' -> stranded l' /\ closes l' = closes l.
Proof.
  intros Hst Hq H. pose proof Hst as (Hd & He & Hc). assert (forall j, closes l !! j <> Some CSending) as Hns by (intros j Hj; by eapply Hc, list_elem_of_lookup_2).
  destruct lb as [| |i|j|h file|err|j|err| | |i|j]; cbn in H, Hq.
  - by injection H as <-.
  - done.
  - unfold takeAccept in H. destruct (routine l); try done. destruct (accepts l !! i) as [[]|]; try done. by injection H as <-.
  - unfold takeClose in H. destruct (routine l); try done. destruct (closes l !! j) as [[]|] eqn:Ej; try done. by apply Hns in Ej.
  - unfold makePipe in H. destruct (routine l); try done. injection H as <-. destruct h as [h|err]; [destruct file as [err|]|]; [|by repeat split|]; apply (connected_stranded _ _ l); done || congruence.
  - unfold connectEnds in H. destruct (routine l); try done. injection H as <-. destruct err; apply (connected_stranded _ _ l); done || congruence.
  - unfold abortConnect in H. destruct (routine l); try done. destruct (closes l !! j) as [[]|] eqn:Ej; try done. by apply Hns in Ej.
  - unfold aborted in H. by destruct (routine l).
  - unfold reply in H. destruct (routine l) as [| | | |i r| | | |]; try done. destruct (accepts l !! i) as [[]|]; try done. injection H as <-. cbn in He. rewrite He. by repeat split.
  - unfold exitNext in H. by destruct (routine l).
  - unfold acceptDone in H. rewrite Hd in H. by destruct (accepts l !! i) as [[]|].
  - unfold closeDone in H. rewrite Hd in H. by destruct (closes l !! j) as [[]|].
Qed.
Lemma run_stranded lbs : forall l l', stranded l -> Forall quiet lbs -> run lbs l = Some l' -> stranded l' /\ closes l' = closes l.
Proof.
  unfold run. induction lbs as [|lb lbs IH] using rev_ind; intros l l' Hst Hq H; [by injection H as <-|]. apply Forall_app in Hq as [Hq [Hlb _]%Forall_cons].
  rewrite foldl_app in H. cbn in H. destruct (foldl _ _ lbs) as [l1|] eqn:E; [|done]. destruct (IH l l1 Hst Hq E) as [H1 Hc1]. destruct (step_stranded lb l1 l' H1 Hlb H) as [H2 Hc2]. split; [done|congruence].
Qed.
Lemma listener_run_reachable h p c lbs l : run lbs (newListener h p c) = Some l -> reachable h p c l.
Proof.
  unfold run. induction lbs as [|lb lbs IH] using rev_ind in l |- *; [intros [= <-]; constructor|]. rewrite foldl_app. cbn.
  destruct (foldl _ _ lbs) as [l0|]; [|done]. cbn. intros H. eapply reach_step; [by apply IH|done].
Qed.

(** A client connects and disconnects at once, so that the connect ends with ERROR_NO_DATA;
    at the same time Close is called, and the select takes its request. *)
Definition lostRun : list label := [CallAccept; TakeAccept 0; MakePipe (Ok 11) None; CallClose; AbortConnect 0; Aborted (Some ERROR_NO_DATA)].

Definition lostListener (h : Z) (p : string) (c : ListenConfig) : pipeListener :=
  {| firstHandle := h; firstOpen := true; path := p; config := c; doneCh := false; routine := LMake 0; accepts := [AWaiting]; closes := [CWaiting]; opened := [11]; closed := [11]; lost := true |}.
Lemma lostRun_ends h p c : run lostRun (newListener h p c) = Some (lostListener h p c).
Proof. vm_compute. reflexivity. Qed.

(** When the connect that a request to close aborts has failed with an error of its own, the
    routine forgets the request and goes on accepting: unless Close is called again, the
    caller never returns, whatever clients and callers of Accept do. *)
Theorem close_request_lost h p c : exists l, reachable h p c l /\ run lostRun (newListener h p c) = Some l /\ closes l = [CWaiting] /\
  forall lbs l', Forall quiet lbs -> run lbs l = Some l' -> closes l' = [CWaiting] /\ doneCh l' = false.
Proof.
  exists (lostListener h p c). pose proof (lostRun_ends h p c) as Hrun. split; [by eapply listener_run_reachable|]. split; [done|]. split; [done|]. intros lbs l' Hq Hr.
  assert (stranded (lostListener h p c)) as Hst by (split; [done|]; split; [done|]; cbn; set_solver).
  destruct (run_stranded lbs _ l' Hst Hq Hr) as [(Hd & _) Hc]. by split.
Qed.

(** An Accept that is served, and a Close that ends the listener. *)
Definition servedRun : list label :=
  [CallAccept; TakeAccept 0; MakePipe (Ok 11) None; ConnectEnds (Some ERROR_NO_DATA); MakePipe (Ok 12) None; ConnectEnds None; Reply; CallClose; CallAccept; TakeAccept 1; MakePipe (Ok 13) None; AbortConnect 0;
   Aborted (Some ErrClosed); Reply; ExitNext; ExitNext; ExitNext; CloseDone 0].
Definition served : pipeListener := Eval vm_compute in default (newListener 9 "p" {| SecurityDescriptor := None; MessageMode := true; InputBufferSize := 0; OutputBufferSize := 0 |})
  (run servedRun (newListener 9 "p" {| SecurityDescriptor := None; MessageMode := true; InputBufferSize := 0; OutputBufferSize := 0 |})).
Lemma listener_accounts_witness : accepts served = [AReturned (Ok (MessagePipe 12 "p")); AReturned (Err (PlainError NetErrClosed))] /\ doneCh served = true /\
  opened served ≡ₚ closed served ++ delivered served.
Proof.
  split; [reflexivity|]. split; [reflexivity|]. destruct (listener_accounts 9 "p" {| SecurityDescriptor := None; MessageMode := true; InputBufferSize := 0; OutputBufferSize := 0 |} served) as (_ & H & _).
  - apply (listener_run_reachable _ _ _ servedRun). vm_compute. reflexivity.
  - destruct (H eq_refl) as (_ & H2 & _). exact H2.
Defined.
