(* ===== verification/UapiSock.v ===== *)
(** * UapiSock: the control sockets (src/ipc/uapi_unix.go, uapi_linux.go, uapi_bsd.go, uapi_windows.go)

    Opening the socket of a device and listening on it, with the descriptors that are open
    afterwards, and the listener: two goroutines that pass connections and errors on through
    channels of capacity one, callers of Accept, and Close. On Windows the listener is a
    named pipe (PipeListener) and has no watcher. *)
From S2P Require Import Prelude GoLib SysTrace PipeFile PipeConn PipeListener.
#[local] Open Scope Z_scope.
#[local] Open Scope sys_scope.

(** ** Opening *)

Definition socketDirectory : string := "/var/run/amneziawg".
Definition sockPath (iface : string) : string := (socketDirectory +:+ "/" +:+ iface +:+ ".sock")%string.
Definition pipePath (name : string) : string := ("\\.\pipe\ProtectedPrefix\Administrators\AmneziaWG\" +:+ name)%string.

Lemma length_append (a b : string) : String.length (a +:+ b) = (String.length a + String.length b)%nat.
Proof. induction a as [|c a IH]; [done|]. change (S (String.length (a +:+ b)) = S (String.length a + String.length b)%nat). by rewrite IH. Qed.
Lemma append_inj_r (a b t : string) : a +:+ t = b +:+ t -> a = b.
Proof.
  revert b. induction a as [|c a IH]; intros [|d b] H; [done|..].
  - apply (f_equal String.length) in H. rewrite !length_append in H. cbn in H. lia.
  - apply (f_equal String.length) in H. rewrite !length_append in H. cbn in H. lia.
  - injection H as -> H. f_equal. by apply IH.
Qed.
(** Two devices have the same socket only when they have the same name. *)
Lemma sockPath_inj a b : sockPath a = sockPath b -> a = b.
Proof. unfold sockPath. intros H. apply (inj (String.append _)) in H. apply (inj (String.append _)) in H. by eapply append_inj_r. Qed.

(** The answers of the system, in the order of the calls. *)
Record openEnv : Type := {
  oe_mkdir : option Z; oe_resolve : option Z;
  oe_listen : result Z Z; oe_file : result Z Z;
  oe_dial : result Z Z; oe_remove : option Z;
  oe_listen2 : result Z Z; oe_file2 : result Z Z
}.
Definition ErrSocketInUse : Z := -1.
(** UAPIOpen; the umask is set before the first ListenUnix and restored on every return. *)
Definition UAPIOpen (e : openEnv) : M Z :=
  do! check (oe_mkdir e) in
  do! check (oe_resolve e) in
  match oe_listen e with
  | Ok l => let! _l := open_ (Ok l) in open_ (oe_file e)
  | Err _ =>
      match oe_dial e with
      | Ok c => let! _c := open_ (Ok c) in fail ErrSocketInUse
      | Err _ =>
          do! check (oe_remove e) in
          let! _l := open_ (oe_listen2 e) in
          open_ (oe_file2 e)
      end
  end.

(** A socket that nobody listens on is replaced; one that is in use is left alone. The file
    that is returned is a duplicate: the listener behind it, and the connection that found
    the socket in use, stay open. *)
Theorem uapi_open e :
  match UAPIOpen e with
  | (tr, Ok f) => exists l, openFds tr = [l; f] /\ oe_mkdir e = None /\ oe_resolve e = None /\
      (oe_listen e = Ok l /\ oe_file e = Ok f \/ (exists e1 e2, oe_listen e = Err e1 /\ oe_dial e = Err e2) /\ oe_remove e = None /\ oe_listen2 e = Ok l /\ oe_file2 e = Ok f)
  | (tr, Err err) => forall c, oe_mkdir e = None -> oe_resolve e = None -> (exists e1, oe_listen e = Err e1) -> oe_dial e = Ok c -> err = ErrSocketInUse /\ openFds tr = [c]
  end.
Proof.
  unfold UAPIOpen. destruct (oe_mkdir e) as [?|] eqn:E1; [done|]. destruct (oe_resolve e) as [?|] eqn:E2; [done|]. cbn. destruct (oe_listen e) as [l|e1] eqn:E3; cbn.
  - destruct (oe_file e) as [f|] eqn:E4; cbn; [exists l; split; [done|]; split; [done|]; split; [done|]; by left|]. intros c _ _ [? [=]].
  - destruct (oe_dial e) as [c|e2] eqn:E5; cbn; [by intros c' _ _ _ [= <-]|]. destruct (oe_remove e); [done|]. cbn. destruct (oe_listen2 e) as [l|]; [|done]. cbn. destruct (oe_file2 e) as [f|]; [|done]. cbn. exists l. split; [done|]. split; [done|]. split; [done|]. right. split; [by eexists _, _|]. done.
Qed.

(** ** Listening *)

Record listenEnv : Type := {
  le_listener : result Z Z;                      (* FileListener *)
  le_watch : result Z Z;                         (* InotifyInit or Kqueue *)
  le_add : option Z;                             (* InotifyAddWatch *)
  le_dir : result Z Z;                           (* Open of the directory *)
  le_nonblock : option Z; le_pipe : result (Z * Z) Z   (* NewRWCancel *)
}.
Definition UAPIListen_linux (e : listenEnv) : M (Z * Z) :=
  let! listener := open_ (le_listener e) in
  let! inotifyFd := open_ (le_watch e) in
  do! check (le_add e) in
  do! orClose inotifyFd (NewRWCancel (le_nonblock e) (le_pipe e)) in
  ret (listener, inotifyFd).
Definition UAPIListen_bsd (e : listenEnv) : M (Z * Z * Z) :=
  let! listener := open_ (le_listener e) in
  let! kqueueFd := open_ (le_watch e) in
  let! keventFd := orClose kqueueFd (open_ (le_dir e)) in
  ret (listener, kqueueFd, keventFd).
(** Windows: the listener of the pipe, with the security descriptor of the package. *)
Definition UAPIListen_windows (e : serverEnv) (sd : Z) (name : string) (major minor : Z) (utf16 : option pipeErr) (create : result Z pipeErr) : list Z * result pipeListener dialErr :=
  Listen e {| SecurityDescriptor := Some sd; MessageMode := false; InputBufferSize := 0; OutputBufferSize := 0 |} (pipePath name) major minor utf16 create.

(** On success the descriptors of the listener, of the watch and of the cancelling pipe are
    open. A failure leaves the listener open, and on Linux the descriptor of inotify when
    the watch is refused. *)
Lemma uapi_listen_linux_fds e l w : le_listener e = Ok l -> le_watch e = Ok w -> l <> w -> (forall p, le_pipe e = Ok p -> p.1 <> w /\ p.2 <> w) ->
  let '(tr, r) := UAPIListen_linux e in
  match le_add e, le_nonblock e, le_pipe e with
  | Some err, _, _ => r = Err err /\ openFds tr = [l; w]
  | None, None, Ok p => r = Ok (l, w) /\ openFds tr = [l; w; p.1; p.2]
  | None, _, _ => (exists err, r = Err err) /\ openFds tr = [l]
  end.
Proof.
  intros Hl Hw Hne Hp. unfold UAPIListen_linux, NewRWCancel. rewrite Hl, Hw. cbn. destruct (le_add e); [done|]. cbn.
  assert (openFds [Opened l; Opened w; Closed w] = [l]) as Hc by (unfold openFds; cbn; by rewrite decide_True, decide_False by congruence).
  destruct (le_nonblock e); cbn; [split; [eauto|done]|]. destruct (le_pipe e) as [[r v]|]; cbn; [done|]. split; [eauto|done].
Qed.
Lemma uapi_listen_bsd_fds e l k : le_listener e = Ok l -> le_watch e = Ok k -> l <> k ->
  let '(tr, r) := UAPIListen_bsd e in
  match le_dir e with Ok d => r = Ok (l, k, d) /\ openFds tr = [l; k; d] | Err err => r = Err err /\ openFds tr = [l] end.
Proof.
  intros Hl Hk Hne. unfold UAPIListen_bsd. rewrite Hl, Hk. cbn. destruct (le_dir e) as [d|err]; cbn; [done|]. split; [done|]. unfold openFds. cbn. by rewrite decide_True, decide_False by congruence.
Qed.

(** The loop of the watcher on BSD: what it reports, [None] while it watches. A round is the
    answer of Lstat ([Some] error: the socket is gone) and of Kevent. *)
Definition EINTR : Z := 4.
Definition ErrQueueEmpty : Z := -2.
Fixpoint kqueueLoop (n : Z) (kerr : option Z) (script : list (option Z * (Z * option Z))) : option Z :=
  match script with
  | [] => None
  | (gone, (n', kerr')) :: script =>
      match gone with
      | Some err => Some err
      | None =>
          if (negb (bool_decide (kerr = None)) || negb (n =? 1)) && negb (bool_decide (kerr = Some EINTR)) then Some (default ErrQueueEmpty kerr)
          else kqueueLoop n' kerr' script
      end
  end.
(** The removal of the socket is reported, however often a signal interrupts the wait. *)
Lemma kqueue_reports script err last : Forall (fun r => r.1 = None /\ (r.2.2 = None /\ r.2.1 = 1 \/ r.2.2 = Some EINTR)) script ->
  kqueueLoop 1 None (script ++ [(Some err, last)]) = Some err.
Proof.
  intros H. assert (forall n k, (k = None /\ n = 1 \/ k = Some EINTR) -> kqueueLoop n k (script ++ [(Some err, last)]) = Some err) as Hg; [|by apply Hg; left].
  induction H as [|[g [n' k']] script [Hg Hk] _ IH]; intros n k Hnk; cbn; [by destruct last|]. cbn in Hg, Hk. subst g.
  destruct Hnk as [[-> ->]| ->]; cbn; by apply IH.
Qed.

(** ** The listener *)

(** The goroutine of Accept on the socket and the watcher (Linux: before Lstat, before the
    read of inotify, waiting in poll for it); each ends by sending an error. *)
Inductive acceptorPc : Type := AAccept | AConn (c : Z) | AErr (e : Z) | AStopped.
Inductive watcherPc : Type := WStat | WRead | WPoll | WErr (e : Z) | WStopped.
Record UAPIListener : Type := {
  connNew : list Z;
  connErr : list Z;
  acceptor : acceptorPc;
  watcher : watcherPc;
  fdOpen : bool;             (* inotifyFd *)
  cancels : nat;             (* bytes in the pipe of RWCancel *)
  lsOpen : bool;
  incoming : list Z;         (* what listener.Accept has returned *)
  returned : list Z;         (* what Accept has returned, and its errors *)
  errors : list Z;
  misuse : bool              (* a closed descriptor was used *)
}.
Definition newUAPIListener : UAPIListener :=
  {| connNew := []; connErr := []; acceptor := AAccept; watcher := WStat; fdOpen := true; cancels := 0; lsOpen := true; incoming := []; returned := []; errors := []; misuse := false |}.

Inductive label : Type :=
| Incoming (r : result Z Z) | SendConn | SendAcceptErr
| Lstat (gone : option Z) | ReadInotify (r : option Z) | Poll (ready : bool) | SendWatchErr
| AcceptConn | AcceptErr
| CloseFd | Cancel | CloseListener.
Definition ErrClosedFile : Z := -3.

Definition with_acceptor (a : acceptorPc) (l : UAPIListener) : UAPIListener :=
  {| connNew := connNew l; connErr := connErr l; acceptor := a; watcher := watcher l; fdOpen := fdOpen l; cancels := cancels l; lsOpen := lsOpen l; incoming := incoming l; returned := returned l; errors := errors l; misuse := misuse l |}.
Definition with_watcher (w : watcherPc) (l : UAPIListener) : UAPIListener :=
  {| connNew := connNew l; connErr := connErr l; acceptor := acceptor l; watcher := w; fdOpen := fdOpen l; cancels := cancels l; lsOpen := lsOpen l; incoming := incoming l; returned := returned l; errors := errors l; misuse := misuse l |}.
Definition with_channels (n e : list Z) (l : UAPIListener) : UAPIListener :=
  {| connNew := n; connErr := e; acceptor := acceptor l; watcher := watcher l; fdOpen := fdOpen l; cancels := cancels l; lsOpen := lsOpen l; incoming := incoming l; returned := returned l; errors := errors l; misuse := misuse l |}.
Definition with_history (i r e : list Z) (l : UAPIListener) : UAPIListener :=
  {| connNew := connNew l; connErr := connErr l; acceptor := acceptor l; watcher := watcher l; fdOpen := fdOpen l; cancels := cancels l; lsOpen := lsOpen l; incoming := i; returned := r; errors := e; misuse := misuse l |}.
Definition with_fds (f : bool) (n : nat) (s : bool) (l : UAPIListener) : UAPIListener :=
  {| connNew := connNew l; connErr := connErr l; acceptor := acceptor l; watcher := watcher l; fdOpen := f; cancels := n; lsOpen := s; incoming := incoming l; returned := returned l; errors := errors l; misuse := misuse l |}.
Definition useFd (l : UAPIListener) : UAPIListener :=
  {| connNew := connNew l; connErr := connErr l; acceptor := acceptor l; watcher := watcher l; fdOpen := fdOpen l; cancels := cancels l; lsOpen := lsOpen l; incoming := incoming l; returned := returned l; errors := errors l; misuse := misuse l || negb (fdOpen l) |}.

(** The goroutine that accepts; a channel has room for one element. *)
Definition acceptorStep (lb : label) (l : UAPIListener) : option UAPIListener :=
  match lb, acceptor l with
  | Incoming (Ok c), AAccept => if lsOpen l then Some (with_acceptor (AConn c) (with_history (incoming l ++ [c]) (returned l) (errors l) l)) else None
  | Incoming (Err e), AAccept => Some (with_acceptor (AErr e) l)
  | SendConn, AConn c => if (length (connNew l) <? 1)%nat then Some (with_acceptor AAccept (with_channels (connNew l ++ [c]) (connErr l) l)) else None
  | SendAcceptErr, AErr e => if (length (connErr l) <? 1)%nat then Some (with_acceptor AStopped (with_channels (connNew l) (connErr l ++ [e]) l)) else None
  | _, _ => None
  end.
(** The watcher: Lstat, then RWCancel.Read. Its deferred calls of RWCancel.Close, one for each
    round, run when it has ended and are left out. *)
Definition watcherStep (lb : label) (l : UAPIListener) : option UAPIListener :=
  match lb, watcher l with
  | Lstat None, WStat => Some (with_watcher WRead l)
  | Lstat (Some e), WStat => Some (with_watcher (WErr e) l)
  | ReadInotify None, WRead => Some (with_watcher WStat (useFd l))
  | ReadInotify (Some e), WRead => Some (with_watcher (if (e =? 11) || (e =? EINTR) then WPoll else WErr e) (useFd l))
  | Poll ready, WPoll => Some (with_watcher (if negb (cancels l =? 0)%nat then WErr ErrClosedFile else if ready then WRead else WErr ErrClosedFile) (useFd l))
  | SendWatchErr, WErr e => if (length (connErr l) <? 1)%nat then Some (with_watcher WStopped (with_channels (connNew l) (connErr l ++ [e]) l)) else None
  | _, _ => None
  end.
Definition Accept (lb : label) (l : UAPIListener) : option UAPIListener :=
  match lb, connNew l, connErr l with
  | AcceptConn, c :: rest, _ => Some (with_channels rest (connErr l) (with_history (incoming l) (returned l ++ [c]) (errors l) l))
  | AcceptErr, _, e :: rest => Some (with_channels (connNew l) rest (with_history (incoming l) (returned l) (errors l ++ [e]) l))
  | _, _, _ => None
  end.
(** The statements of Close. *)
Definition Close (lb : label) (l : UAPIListener) : option UAPIListener :=
  match lb with
  | CloseFd => if fdOpen l then Some (with_fds false (cancels l) (lsOpen l) l) else None
  | Cancel => Some (with_fds (fdOpen l) (S (cancels l)) (lsOpen l) l)
  | CloseListener => Some (with_fds (fdOpen l) (cancels l) false l)
  | _ => None
  end.
Definition step (lb : label) (l : UAPIListener) : option UAPIListener :=
  match lb with
  | Incoming _ | SendConn | SendAcceptErr => acceptorStep lb l
  | Lstat _ | ReadInotify _ | Poll _ | SendWatchErr => watcherStep lb l
  | AcceptConn | AcceptErr => Accept lb l
  | CloseFd | Cancel | CloseListener => Close lb l
  end.
Inductive reachable : UAPIListener -> Prop :=
| reach_new : reachable newUAPIListener
| reach_step lb l l' : reachable l -> step lb l = Some l' -> reachable l'.

(** The connection that the goroutine holds; the errors still to be sent. *)
Definition held (a : acceptorPc) : list Z := match a with AConn c => [c] | _ => [] end.
Definition stopped (l : UAPIListener) : nat := Nat.b2n (match acceptor l with AStopped => true | _ => false end) + Nat.b2n (match watcher l with WStopped => true | _ => false end).

Definition fifo (l : UAPIListener) : Prop :=
  incoming l = returned l ++ connNew l ++ held (acceptor l) /\ (length (connNew l) <= 1)%nat /\ (length (connErr l) <= 1)%nat /\ length (errors l ++ connErr l) = stopped l.
Lemma acceptor_fifo lb l l' : fifo l -> acceptorStep lb l = Some l' -> fifo l'.
Proof.
  unfold fifo, stopped, acceptorStep. intros (Hf & Hn & He & Hs) H. destruct lb as [[c|e]| | | | | | | | | | |]; try done; destruct (acceptor l) as [|c'|e'|] eqn:Ea; try done.
  - destruct (lsOpen l); [|done]. injection H as <-. cbn. split; [|done]. rewrite Hf. cbn. by rewrite app_nil_r, <- app_assoc.
  - by injection H as <-.
  - destruct (Nat.ltb_spec (length (connNew l)) 1); [|done]. injection H as <-. cbn. split; [rewrite Hf; cbn; by rewrite app_nil_r|]. rewrite length_app. cbn. split; [lia|done].
  - destruct (Nat.ltb_spec (length (connErr l)) 1); [|done]. injection H as <-. cbn. rewrite !length_app in *. cbn in *. repeat split; [done|done|lia|lia].
Qed.
Lemma watcher_fifo lb l l' : fifo l -> watcherStep lb l = Some l' -> fifo l'.
Proof.
  unfold fifo, stopped, watcherStep. intros (Hf & Hn & He & Hs) H. destruct lb as [| | |[g|]|[e|]|ready| | | | | |]; try done; destruct (watcher l) as [| | |e'|] eqn:Ew; try done.
  - by injection H as <-.
  - by injection H as <-.
  - injection H as <-. cbn. by destruct (_ || _).
  - by injection H as <-.
  - injection H as <-. cbn. by destruct (negb _), ready.
  - destruct (Nat.ltb_spec (length (connErr l)) 1); [|done]. injection H as <-. cbn. rewrite !length_app in *. cbn in *. repeat split; [done|done|lia|lia].
Qed.
Lemma accept_fifo lb l l' : fifo l -> Accept lb l = Some l' -> fifo l'.
Proof.
  unfold fifo, stopped, Accept. intros (Hf & Hn & He & Hs) H. destruct lb; try done; destruct (connNew l) as [|c rest] eqn:En; try done.
  - injection H as <-. cbn in *. split; [rewrite Hf; by rewrite <- !app_assoc|]. split; [lia|done].
  - destruct (connErr l) as [|e erest] eqn:Ee; [done|]. injection H as <-. cbn in *. rewrite ?En, <- app_assoc. repeat split; [done|simpl in *; lia|lia|done].
  - destruct (connErr l) as [|e erest] eqn:Ee; [done|]. injection H as <-. cbn in *. rewrite ?En, <- app_assoc. repeat split; [done|simpl in *; lia|lia|done].
Qed.

(** Connections are returned by Accept in the order in which they came, none twice and none
    dropped: what is not returned yet is in the channel or held by the goroutine. Each
    goroutine reports exactly one error, when it ends. *)
Theorem uapi_accept_fifo l : reachable l ->
  incoming l = returned l ++ connNew l ++ held (acceptor l) /\ (length (connNew l) <= 1)%nat /\ (length (connErr l) <= 1)%nat /\ length (errors l ++ connErr l) = stopped l.
Proof.
  change (reachable l -> fifo l). induction 1 as [|lb l l' _ IH H]; [by repeat split; cbn; try lia|].
  destruct lb; cbn in H; [by eapply (acceptor_fifo (Incoming r))|by eapply (acceptor_fifo SendConn)|by eapply (acceptor_fifo SendAcceptErr)|by eapply (watcher_fifo (Lstat gone))|by eapply (watcher_fifo (ReadInotify r))|
    by eapply (watcher_fifo (Poll ready))|by eapply (watcher_fifo SendWatchErr)|by eapply (accept_fifo AcceptConn)|by eapply (accept_fifo AcceptErr)|destruct (fdOpen l); [|done]; injection H as <-; exact IH|injection H as <-; exact IH|injection H as <-; exact IH].
Qed.

(** Close closes the descriptor of inotify before it cancels the watcher, which may still
    read from it. *)
Definition runSock (lbs : list label) : option UAPIListener := foldl (fun o lb => l ← o; step lb l) (Some newUAPIListener) lbs.
Lemma watcher_reads_closed : misuse <$> runSock [Lstat None; ReadInotify (Some 11); CloseFd; Poll true; ReadInotify (Some 9)] = Some true.
Proof. reflexivity. Qed.
