(* ===== verification/Program.v ===== *)
(** * Program: starting, daemonising and ending (src/main.go, src/main_windows.go,
    src/device/logger.go, src/conn/conn.go)

    The program as a function from its arguments, its environment and the answers of the
    packages it calls to what it does. The environment is the list of its variables in the
    order the process was given them; os.Getenv finds the first. A process that puts itself
    in the background starts another one with the same arguments, which is run by the same
    function. Module RecvNames has the names the log gives to receive functions. *)
From S2P Require Import Prelude GoLib NetIP.
#[local] Open Scope string_scope.
#[local] Open Scope list_scope.
#[local] Open Scope Z_scope.

(** ** Logging *)

Definition LogLevelSilent : Z := 0.
Definition LogLevelError : Z := 1.
Definition LogLevelVerbose : Z := 2.
(** The prefix of the lines of a level; [None] discards them. *)
Record Logger : Type := { Verbosef : option string; Errorf : option string }.
Definition NewLogger (level : Z) (prepend : string) : Logger := {|
  Verbosef := if level >=? LogLevelVerbose then Some ("DEBUG" +:+ ": " +:+ prepend) else None;
  Errorf := if level >=? LogLevelError then Some ("ERROR" +:+ ": " +:+ prepend) else None
|}.

(** ** The environment *)

Definition environment : Type := list (string * string).
(** os.Getenv: the first mention of the key, or the empty string. *)
Fixpoint Getenv (env : environment) (key : string) : string :=
  match env with [] => "" | (k, v) :: env => if decide (k = key) then v else Getenv env key end.
Definition ENV_WG_TUN_FD : string := "WG_TUN_FD".
Definition ENV_WG_UAPI_FD : string := "WG_UAPI_FD".
Definition ENV_WG_PROCESS_FOREGROUND : string := "WG_PROCESS_FOREGROUND".

(** warning: whether the notice is printed. *)
Inductive goos : Type := linux | freebsd | openbsd | otherOS.
Definition warning (os : goos) (env : environment) : bool :=
  match os with otherOS => false | _ => negb (bool_decide (Getenv env ENV_WG_PROCESS_FOREGROUND = "1")) end.

Definition logLevel (env : environment) : Z :=
  let l := Getenv env "LOG_LEVEL" in
  if decide (l = "verbose" \/ l = "debug") then LogLevelVerbose
  else if decide (l = "error") then LogLevelError
  else if decide (l = "silent") then LogLevelSilent
  else LogLevelError.

(** The foreground flag and the name of the interface; [None] prints the usage. [args] has
    the name of the program first. *)
Definition parseArgs (args : list string) : option (bool * string) :=
  match args with
  | [_; a] => if decide (a = "-f" \/ a = "--foreground") then None else Some (false, a)
  | [_; a; b] => if decide (a = "-f" \/ a = "--foreground") then Some (true, b) else None
  | _ => None
  end.

(** ** The program *)

(** A TUN device: its descriptor and the answer of Name. *)
Record device : Type := { td_file : Z; td_name : option string }.
(** The answers of the packages; errors are numbered. *)
Record answers : Type := {
  an_CreateTUN : string -> result device Z;
  an_SetNonblock : Z -> option Z;
  an_CreateTUNFromFile : Z -> result device Z;
  an_UAPIOpen : string -> result Z Z;
  an_Executable : result string Z;
  an_StartProcess : option Z;
  an_UAPIListen : string -> Z -> option Z;
  an_devNull : option Z
}.
Inductive failure : Type := FailTUN | FailUAPIOpen | FailExecutable | FailDaemonize | FailUAPIListen.

(** Standard streams of a child. *)
Inductive stream : Type := DevNull (fd : option Z) | Stdout | Stderr.
Record process : Type := {
  p_path : string; p_args : list string; p_env : environment; p_streams : list stream;
  p_tun : Z;        (* becomes descriptor 3 of the child *)
  p_uapi : Z        (* becomes descriptor 4 *)
}.
Record service : Type := { sv_interface : string; sv_tun : Z; sv_uapi : Z; sv_logger : Logger }.
Inductive outcome : Type :=
| PrintsVersion
| PrintsUsage
| ExitSetupFailed (why : failure) (log : Logger)
| Daemonizes (child : process)
| Serves (s : service).

Definition openTUN (an : answers) (env : environment) (interfaceName : string) : result device Z :=
  let s := Getenv env ENV_WG_TUN_FD in
  if decide (s = "") then an_CreateTUN an interfaceName
  else match ParseUint (str s) 32 with
       | None => Err 0
       | Some fd => match an_SetNonblock an fd with Some e => Err e | None => an_CreateTUNFromFile an fd end
       end.
Definition openUAPI (an : answers) (env : environment) (interfaceName : string) : result Z Z :=
  let s := Getenv env ENV_WG_UAPI_FD in
  if decide (s = "") then an_UAPIOpen an interfaceName
  else match ParseUint (str s) 32 with None => Err 0 | Some fd => Ok fd end.
(** The environment and the streams of the child. *)
Definition childEnv (env : environment) : environment :=
  (env ++ [(ENV_WG_TUN_FD, "3"); (ENV_WG_UAPI_FD, "4"); (ENV_WG_PROCESS_FOREGROUND, "1")])%list.
Definition childStreams (an : answers) (env : environment) : list stream :=
  if bool_decide (Getenv env "LOG_LEVEL" <> "") && negb (logLevel env =? LogLevelSilent) then [DevNull (an_devNull an); Stdout; Stderr]
  else [DevNull (an_devNull an); DevNull (an_devNull an); DevNull (an_devNull an)].

Definition main (an : answers) (args : list string) (env : environment) : outcome :=
  if decide (length args = 2%nat /\ args !! 1%nat = Some "--version") then PrintsVersion
  else
    match parseArgs args with
    | None => PrintsUsage
    | Some (foreground, interfaceName) =>
        let foreground := foreground || bool_decide (Getenv env ENV_WG_PROCESS_FOREGROUND = "1") in
        let r := openTUN an env interfaceName in
        let interfaceName := match r with Ok d => default interfaceName (td_name d) | Err _ => interfaceName end in
        let logger := NewLogger (logLevel env) ("(" +:+ interfaceName +:+ ") ") in
        match r with
        | Err _ => ExitSetupFailed FailTUN logger
        | Ok tdev =>
            match openUAPI an env interfaceName with
            | Err _ => ExitSetupFailed FailUAPIOpen logger
            | Ok fileUAPI =>
                if negb foreground then
                  match an_Executable an with
                  | Err _ => ExitSetupFailed FailExecutable logger
                  | Ok path =>
                      match an_StartProcess an with
                      | Some _ => ExitSetupFailed FailDaemonize logger
                      | None => Daemonizes {| p_path := path; p_args := args; p_env := childEnv env; p_streams := childStreams an env; p_tun := td_file tdev; p_uapi := fileUAPI |}
                      end
                  end
                else
                  match an_UAPIListen an interfaceName fileUAPI with
                  | Some _ => ExitSetupFailed FailUAPIListen logger
                  | None => Serves {| sv_interface := interfaceName; sv_tun := td_file tdev; sv_uapi := fileUAPI; sv_logger := logger |}
                  end
            end
        end
    end.

(** The program of Windows, which has no background and brings the device up itself. *)
Record winAnswers : Type := { wa_CreateTUN : result device Z; wa_Up : option Z; wa_UAPIListen : string -> option Z }.
Inductive winOutcome : Type := WinExitSetupFailed | WinServes (interface : string).
Definition main_windows (an : winAnswers) (args : list string) : winOutcome :=
  match args with
  | [_; interfaceName] =>
      match wa_CreateTUN an with
      | Err _ => WinExitSetupFailed
      | Ok d =>
          let interfaceName := default interfaceName (td_name d) in
          match wa_Up an with
          | Some _ => WinExitSetupFailed
          | None => match wa_UAPIListen an interfaceName with Some _ => WinExitSetupFailed | None => WinServes interfaceName end
          end
      end
  | _ => WinExitSetupFailed
  end.

(** ** Serving *)

(** The goroutine that accepts, and the one of main. *)
Inductive acceptor : Type := Accepting | Reporting | AcceptDone.
Inductive mainThread : Type := Selecting | ClosingUapi | ClosingDevice | MainReturned.
Record server : Type := { acc : acceptor; mainT : mainThread; handled : list Z; uapiClosed : bool; deviceClosed : bool }.
Definition startServer : server := {| acc := Accepting; mainT := Selecting; handled := []; uapiClosed := false; deviceClosed := false |}.
Definition with_acc (a : acceptor) (s : server) : server := {| acc := a; mainT := mainT s; handled := handled s; uapiClosed := uapiClosed s; deviceClosed := deviceClosed s |}.
Definition with_main (t : mainThread) (s : server) : server := {| acc := acc s; mainT := t; handled := handled s; uapiClosed := uapiClosed s; deviceClosed := deviceClosed s |}.

Inductive event : Type :=
| Accepted (conn : Z)      (* a connection, handed to IpcHandle *)
| AcceptError
| Signal                   (* term *)
| DeviceGone               (* device.Wait() *)
| ErrReceived              (* errs: both goroutines are there *)
| MainStep.                (* uapi.Close, device.Close, the end of main *)
Definition serve (e : event) (s : server) : option server :=
  match e with
  | Accepted c => match acc s with Accepting => Some {| acc := Accepting; mainT := mainT s; handled := (handled s ++ [c])%list; uapiClosed := uapiClosed s; deviceClosed := deviceClosed s |} | _ => None end
  | AcceptError => match acc s with Accepting => Some (with_acc Reporting s) | _ => None end
  | Signal | DeviceGone => match mainT s with Selecting => Some (with_main ClosingUapi s) | _ => None end
  | ErrReceived => match acc s, mainT s with Reporting, Selecting => Some (with_main ClosingUapi (with_acc AcceptDone s)) | _, _ => None end
  | MainStep =>
      match mainT s with
      | ClosingUapi => Some {| acc := acc s; mainT := ClosingDevice; handled := handled s; uapiClosed := true; deviceClosed := deviceClosed s |}
      | ClosingDevice => Some {| acc := acc s; mainT := MainReturned; handled := handled s; uapiClosed := uapiClosed s; deviceClosed := true |}
      | _ => None
      end
  end.
Inductive reachable : server -> Prop :=
| reach_start : reachable startServer
| reach_serve e s s' : reachable s -> serve e s = Some s' -> reachable s'.

(** * Theorems *)

(** ** The child *)

Lemma Getenv_app_in env env' k : k ∈ env.*1 -> Getenv (env ++ env') k = Getenv env k.
Proof. induction env as [|[k' v] env IH]; cbn; [by intros ?%elem_of_nil|]. intros [->|H]%elem_of_cons; [by rewrite !decide_True|]. destruct (decide _); [done|by apply IH]. Qed.
Lemma Getenv_app_notin env env' k : k ∉ env.*1 -> Getenv (env ++ env') k = Getenv env' k.
Proof. induction env as [|[k' v] env IH]; cbn; [done|]. intros [H1 H2]%not_elem_of_cons. rewrite decide_False by congruence. by apply IH. Qed.
Lemma Getenv_notin env k : k ∉ env.*1 -> Getenv env k = "".
Proof. intros H. rewrite <- (app_nil_r env). by rewrite Getenv_app_notin. Qed.

(** What a run that daemonises has gone through. *)
Lemma daemonizes_inv an args env c : main an args env = Daemonizes c -> exists name d,
  parseArgs args = Some (false, name) /\ Getenv env ENV_WG_PROCESS_FOREGROUND <> "1" /\ openTUN an env name = Ok d /\ openUAPI an env (default name (td_name d)) = Ok (p_uapi c) /\
  is_Some (match an_Executable an with Ok p => Some p | Err _ => None end) /\ an_StartProcess an = None /\ p_args c = args /\ p_env c = childEnv env /\ p_tun c = td_file d /\ args !! 1%nat <> Some "--version".
Proof.
  unfold main. destruct (decide _) as [|Hv]; [done|]. destruct (parseArgs args) as [[fg name]|] eqn:Ea; [|done]. cbn zeta. destruct (openTUN an env name) as [d|] eqn:Et; [|done]. cbn.
  destruct (openUAPI an env (default name (td_name d))) as [u|] eqn:Eu; [|done]. destruct fg; cbn [orb negb].
  - by destruct (an_UAPIListen _ _ _).
  - destruct (bool_decide_reflect (Getenv env ENV_WG_PROCESS_FOREGROUND = "1")) as [|Hf]; cbn [negb]; [by destruct (an_UAPIListen _ _ _)|].
    destruct (an_Executable an) as [p|] eqn:Ex; [|done]. destruct (an_StartProcess an) eqn:Es; [done|]. intros [= <-]. exists name, d. cbn. split_and!; try done. intros Hv2. apply Hv. split; [|done].
    destruct args as [|a [|b [|x [|]]]]; try done. cbn in Ea. cbn in Hv2. injection Hv2 as ->. by destruct (decide _).
Qed.

(** A process that puts itself in the background starts one that serves in the foreground on
    the descriptors it was handed, if the environment did not have the three variables. *)
Theorem child_serves (an an' : answers) (args : list string) (env : environment) (c : process) :
  ENV_WG_TUN_FD ∉ env.*1 -> ENV_WG_UAPI_FD ∉ env.*1 -> ENV_WG_PROCESS_FOREGROUND ∉ env.*1 -> main an args env = Daemonizes c ->
  match main an' (p_args c) (p_env c) with
  | Serves s => sv_uapi s = 4 /\ exists d, an_CreateTUNFromFile an' 3 = Ok d /\ sv_tun s = td_file d
  | ExitSetupFailed FailTUN _ => is_Some (an_SetNonblock an' 3) \/ exists e, an_CreateTUNFromFile an' 3 = Err e
  | ExitSetupFailed FailUAPIListen _ => True
  | _ => False
  end.
Proof.
  intros H1 H2 H3 Hm. destruct (daemonizes_inv an args env c Hm) as (name & d & Ha & _ & _ & _ & _ & _ & -> & -> & _ & Hv).
  assert (Getenv (childEnv env) ENV_WG_TUN_FD = "3" /\ Getenv (childEnv env) ENV_WG_UAPI_FD = "4" /\ Getenv (childEnv env) ENV_WG_PROCESS_FOREGROUND = "1") as (E1 & E2 & E3)
    by (unfold childEnv; by rewrite !Getenv_app_notin).
  unfold main. rewrite decide_False by (intros [_ ?]; done). rewrite Ha, E3. cbn [orb bool_decide]. rewrite bool_decide_true by done. cbn [orb negb].
  assert (forall n, openUAPI an' (childEnv env) n = Ok 4) as EU by (intros n; unfold openUAPI; by rewrite E2).
  assert (openTUN an' (childEnv env) name = match an_SetNonblock an' 3 with Some e => Err e | None => an_CreateTUNFromFile an' 3 end) as -> by (unfold openTUN; by rewrite E1).
  destruct (an_SetNonblock an' 3) as [e|]; [left; by eexists|]. destruct (an_CreateTUNFromFile an' 3) as [d'|e]; [|right; by eexists]. rewrite EU.
  destruct (an_UAPIListen _ _ _); [done|]. cbn. split; [done|]. by exists d'.
Qed.

(** The descendants of a process, as long as each starts another. *)
Fixpoint generation (an : answers) (args : list string) (env : environment) (n : nat) : option process :=
  match main an args env with
  | Daemonizes c => match n with O => Some c | S n => generation an (p_args c) (p_env c) n end
  | _ => None
  end.
(** A variable that was set keeps its first value in the child. *)
Definition usable (env : environment) (k : string) : Prop := Getenv env k = "" \/ is_Some (ParseUint (str (Getenv env k)) 32).
Lemma usable_child env k v : usable env k -> In (k, v) [(ENV_WG_TUN_FD, "3"); (ENV_WG_UAPI_FD, "4")] -> usable (childEnv env) k.
Proof.
  intros Hu Hk. unfold usable, childEnv in *. destruct (decide (k ∈ env.*1)) as [H|H]; [by rewrite Getenv_app_in|rewrite Getenv_app_notin by done]. right.
  destruct Hk as [[= <- <-]|[[= <- <-]|[]]]; vm_compute; by eexists.
Qed.

(** With WG_PROCESS_FOREGROUND set to anything but 1 the background process finds that value
    before the one it was given, and starts another, without end: nobody ever serves. *)
Theorem daemon_chain (an : answers) (args : list string) (env : environment) (c : process) :
  ENV_WG_PROCESS_FOREGROUND ∈ env.*1 -> main an args env = Daemonizes c ->
  (forall n, exists d, an_CreateTUN an n = Ok d) -> (forall fd, an_SetNonblock an fd = None /\ exists d, an_CreateTUNFromFile an fd = Ok d) -> (forall n, exists fd, an_UAPIOpen an n = Ok fd) ->
  forall n, is_Some (generation an args env n).
Proof.
  intros Hin Hm HT HF HU n. destruct (daemonizes_inv an args env c Hm) as (name & d & Ha & Hfg & Ht & Hu & [path Hp] & Hs & _ & _ & _ & Hv).
  assert (usable env ENV_WG_TUN_FD) as Hut by (unfold openTUN in Ht; unfold usable; destruct (decide _); [by left|]; destruct (ParseUint _ _); [right; by eexists|done]).
  assert (usable env ENV_WG_UAPI_FD) as Huu by (unfold openUAPI in Hu; unfold usable; destruct (decide _); [by left|]; destruct (ParseUint _ _); [right; by eexists|done]).
  assert (forall env, Getenv env ENV_WG_PROCESS_FOREGROUND <> "1" -> usable env ENV_WG_TUN_FD -> usable env ENV_WG_UAPI_FD -> exists c, main an args env = Daemonizes c) as Hagain.
  { intros e He1 He2 He3. assert (exists d, openTUN an e name = Ok d) as (d1 & E1).
    { unfold openTUN. destruct (decide _); [apply HT|]. destruct He2 as [|[fd ->]]; [done|]. destruct (HF fd) as [-> ?]. done. }
    assert (exists u, openUAPI an e (default name (td_name d1)) = Ok u) as (u1 & E2).
    { unfold openUAPI. destruct (decide _); [apply HU|]. destruct He3 as [|[fd ->]]; [done|]. by eexists. }
    unfold main. rewrite decide_False by (intros [_ ?]; done). rewrite Ha, E1. cbn [orb]. rewrite E2, bool_decide_false by done. cbn [negb].
    destruct (an_Executable an); [|done]. rewrite Hs. by eexists. }
  clear Hm Ht Hu d c. revert env Hin Hfg Hut Huu. induction n as [|n IH]; intros env Hin Hfg Hut Huu; destruct (Hagain env Hfg Hut Huu) as (c & Hm); cbn [generation]; rewrite Hm; [by eexists|].
  destruct (daemonizes_inv an args env c Hm) as (? & ? & _ & _ & _ & _ & _ & _ & -> & -> & _). apply IH.
  - unfold childEnv. rewrite fmap_app. apply elem_of_app. by left.
  - unfold childEnv. by rewrite Getenv_app_in.
  - by apply (usable_child env _ "3"); [|left].
  - by apply (usable_child env _ "4"); [|right; left].
Qed.

(** A descriptor given for the TUN device is what the background process looks at, too,
    although its own is 3. *)
Theorem supplied_descriptor_kept (an : answers) (args : list string) (env : environment) (c : process) : ENV_WG_TUN_FD ∈ env.*1 -> main an args env = Daemonizes c ->
  Getenv (p_env c) ENV_WG_TUN_FD = Getenv env ENV_WG_TUN_FD.
Proof. intros Hin Hm. destruct (daemonizes_inv an args env c Hm) as (? & ? & _ & _ & _ & _ & _ & _ & _ & -> & _). unfold childEnv. by rewrite Getenv_app_in. Qed.

(** ** A system on which everything succeeds *)

Definition sampleAnswers : answers := {|
  an_CreateTUN := fun n => Ok {| td_file := 7; td_name := Some n |}; an_SetNonblock := fun _ => None; an_CreateTUNFromFile := fun fd => Ok {| td_file := fd; td_name := None |};
  an_UAPIOpen := fun _ => Ok 8; an_Executable := Ok "/usr/bin/amneziawg-go"; an_StartProcess := None; an_UAPIListen := fun _ _ => None; an_devNull := Some 9
|}.
Definition sampleChild (env : environment) : process := {|
  p_path := "/usr/bin/amneziawg-go"; p_args := ["amneziawg-go"; "wg0"]; p_env := childEnv env;
  p_streams := [DevNull (Some 9); DevNull (Some 9); DevNull (Some 9)]; p_tun := 7; p_uapi := 8 |}.
Example sample_starts : main sampleAnswers ["amneziawg-go"; "wg0"] [("HOME", "/root")] = Daemonizes (sampleChild [("HOME", "/root")]).
Proof. reflexivity. Qed.
Lemma child_serves_witness : 4 = 4 /\ exists d, an_CreateTUNFromFile sampleAnswers 3 = Ok d /\ 3 = td_file d.
Proof.
  assert (forall k : string, k ∉ ([] : environment).*1) as Hn by (intros k; apply not_elem_of_nil).
  exact (child_serves sampleAnswers sampleAnswers ["amneziawg-go"; "wg0"] [] (sampleChild []) (Hn _) (Hn _) (Hn _) eq_refl).
Defined.
Lemma daemon_chain_witness : forall n, is_Some (generation sampleAnswers ["amneziawg-go"; "wg0"] [(ENV_WG_PROCESS_FOREGROUND, "0")] n).
Proof.
  apply (daemon_chain sampleAnswers ["amneziawg-go"; "wg0"] [(ENV_WG_PROCESS_FOREGROUND, "0")] (sampleChild [(ENV_WG_PROCESS_FOREGROUND, "0")])).
  - by left.
  - reflexivity.
  - intros n. by eexists.
  - intros fd. split; [done|by eexists].
  - intros n. by eexists.
Defined.

(** ** The end *)

Lemma server_inv s : reachable s -> (mainT s = ClosingDevice \/ mainT s = MainReturned <-> uapiClosed s = true) /\ (mainT s = MainReturned <-> deviceClosed s = true).
Proof.
  induction 1 as [|e s s' _ IH Hs]; [cbn; intuition congruence|].
  destruct e; cbn in Hs; destruct (acc s), (mainT s) eqn:E; try done; injection Hs as <-; cbn; rewrite ?E; intuition congruence.
Qed.

(** main closes the control socket before the device and returns when both are closed; once
    it has left its select nothing can keep it from that. The goroutine that accepts hands
    over its error only to a main that still waits for one. *)
Theorem shutdown_order (s : server) : reachable s ->
  (deviceClosed s = true -> uapiClosed s = true) /\ (mainT s = MainReturned <-> deviceClosed s = true) /\
  (mainT s = ClosingUapi -> exists s1 s2, serve MainStep s = Some s1 /\ serve MainStep s1 = Some s2 /\ mainT s2 = MainReturned) /\
  (acc s = Reporting -> mainT s <> Selecting -> forall e s', serve e s = Some s' -> acc s' = Reporting).
Proof.
  intros [I1 I2]%server_inv. split_and!; [tauto|done| |].
  - intros E. eexists _, _. cbn. rewrite E. split; [reflexivity|]. cbn. split; reflexivity.
  - intros Ha Hm e s' Hs. destruct e; cbn in Hs; rewrite ?Ha in Hs; destruct (mainT s); try done; by injection Hs as <-.
Qed.

(** ** The names of receive functions in the log

    The routine that reads a socket is named in the log by the function it calls. The
    runtime knows that function by its path, its package, its receiver and, for function
    literals and bound methods, suffixes; what is left of the name is the method. *)

Module RecvNames.
Definition isDigit (c : Z) : bool := negb ((c <? 48) || (c >? 57)).
(** [strings.HasSuffix] and [strings.TrimSuffix] *)
Definition HasSuffix (s suffix : list Z) : bool := bool_decide (suffix `suffix_of` s).
Definition TrimSuffix (s suffix : list Z) : list Z := if HasSuffix s suffix then take (length s - length suffix) s else s.
(** [name[:idx+1]] for the last index [idx] of a byte that is not a digit. *)
Fixpoint trimDigits (name : list Z) : list Z :=
  match name with
  | [] => []
  | c :: name' => match trimDigits name' with [] => if isDigit c then [] else [c] | r => c :: r end
  end.
(** What is behind the last [c], or all of it. *)
Definition afterLast (c : Z) (name : list Z) : list Z := match lastCut name c with Some (_, b) => b | None => name end.

Definition dotFunc : list Z := str ".func".
(** The loop that takes off the suffixes of function literals; a round takes off at least six
    bytes, so the length of the name is fuel enough. *)
Fixpoint stripFuncs (fuel : nat) (name : list Z) : list Z :=
  match fuel with
  | O => name
  | S fuel' =>
      let head := trimDigits name in
      if (length head =? length name)%nat then name
      else if negb (HasSuffix head dotFunc) then name
      else stripFuncs fuel' (take (length head - length dotFunc) head)
  end.
(** [pointer] is the text of the function's address. *)
Definition PrettyName (name pointer : list Z) : list Z :=
  let name := TrimSuffix name (str "-fm") in
  let name := afterLast 47 name in
  let name := stripFuncs (length name) name in
  let name := afterLast 46 name in
  if bool_decide (name = []) then pointer
  else if HasSuffix name (str "IPv4") then str "v4"
  else if HasSuffix name (str "IPv6") then str "v6"
  else name.

(** ** What they come to *)

Lemma trimDigits_app a ds : Forall (fun c => isDigit c = true) ds -> trimDigits (a ++ ds) = trimDigits a.
Proof.
  intros H. induction a as [|c a IH]; cbn [app trimDigits]; [|by rewrite IH]. induction H as [|d ds Hd _ IH]; [done|]. cbn [trimDigits]. by rewrite IH, Hd.
Qed.
Lemma trimDigits_last a c : isDigit c = false -> trimDigits (a ++ [c]) = a ++ [c].
Proof. intros H. induction a as [|x a IH]; cbn [app trimDigits]; [by rewrite H|]. rewrite IH. by destruct a. Qed.
Lemma trimDigits_le a : (length (trimDigits a) <= length a)%nat.
Proof. induction a as [|c a IH]; cbn [trimDigits length]; [done|]. destruct (trimDigits a); [destruct (isDigit c)|]; cbn in *; lia. Qed.

(** More fuel changes nothing. *)
Lemma stripFuncs_fuel f : forall g name, (length name <= f)%nat -> (f <= g)%nat -> stripFuncs g name = stripFuncs f name.
Proof.
  induction f as [|f IH]; intros g name Hf Hg.
  - destruct name as [|c name]; [|cbn in Hf; lia]. by destruct g.
  - destruct g as [|g]; [lia|]. cbn [stripFuncs]. destruct (Nat.eqb_spec (length (trimDigits name)) (length name)); [done|]. destruct (negb _); [done|].
    apply IH; [|lia]. rewrite length_take. pose proof (trimDigits_le name). lia.
Qed.
(** The suffix of a function literal is taken off. *)
Lemma stripFuncs_literal name ds : ds <> [] -> Forall (fun c => isDigit c = true) ds ->
  stripFuncs (length (name ++ dotFunc ++ ds)) (name ++ dotFunc ++ ds) = stripFuncs (length name) name.
Proof.
  intros Hne Hd. rewrite (app_assoc name). assert (trimDigits ((name ++ dotFunc) ++ ds) = name ++ dotFunc) as Et.
  { rewrite trimDigits_app by done. change dotFunc with (str ".fun" ++ [99]). rewrite (app_assoc name). by apply trimDigits_last. }
  destruct ds as [|d ds]; [done|]. rewrite (length_app (name ++ dotFunc)). cbn [length]. rewrite Nat.add_succ_r. cbn [stripFuncs]. rewrite Et.
  rewrite (proj2 (Nat.eqb_neq _ _)) by (rewrite !length_app; cbn [length]; lia). unfold HasSuffix. rewrite bool_decide_eq_true_2 by (by exists name). cbn [negb].
  assert (take (length (name ++ dotFunc) - length dotFunc) (name ++ dotFunc) = name) as -> by (rewrite length_app; apply take_app_length'; lia).
  apply stripFuncs_fuel; [lia|]. rewrite length_app. lia.
Qed.

Lemma afterLast_app a b c : c ∉ b -> afterLast c (a ++ b) = afterLast c a ++ b.
Proof.
  intros Hb. unfold afterLast. destruct (lastCut a c) as [[x r]|] eqn:E.
  - apply lastCut_Some in E as [-> Hr]. assert (lastCut ((x ++ c :: r) ++ b) c = Some (x, r ++ b)) as ->; [|done]. apply lastCut_Some. rewrite <- app_assoc. set_solver.
  - destruct (lastCut (a ++ b) c) as [[x r]|] eqn:E'; [|done]. exfalso. apply lastCut_Some in E' as [E' Hr].
    assert (c ∈ a) as [i Hi]%list_elem_of_lookup_1 by (assert (c ∈ a ++ b) by (rewrite E'; set_solver); set_solver). revert E Hi. clear. revert i.
    induction a as [|y a IH]; intros i E Hi; [done|]. cbn [lastCut] in E. destruct (lastCut a c) as [[? ?]|]; [done|]. destruct (Z.eqb_spec y c); [done|].
    destruct i as [|i]; [by injection Hi|]. by eapply IH.
Qed.

(** A function literal has the name of the function it is in, through any number of
    literals: the routines of makeReceiveIPv4 and makeReceiveIPv6 are called v4 and v6. *)
Theorem literal_name name ds pointer : ds <> [] -> Forall (fun c => isDigit c = true) ds -> HasSuffix name (str "-fm") = false ->
  PrettyName (name ++ dotFunc ++ ds) pointer = PrettyName name pointer.
Proof.
  intros Hne Hd Hfm. unfold PrettyName. assert (HasSuffix (name ++ dotFunc ++ ds) (str "-fm") = false) as Hfm'.
  { unfold HasSuffix in *. apply bool_decide_eq_false_2. intros [k Hk]. destruct (exists_last Hne) as (l & d & ->). rewrite !app_assoc in Hk.
    change (str "-fm") with ([45; 102] ++ [109]) in Hk. rewrite (app_assoc k) in Hk. apply app_inj_tail in Hk as [_ ->]. apply Forall_app in Hd as [_ Hd]. apply Forall_cons in Hd as [Hd _]. by vm_compute in Hd. }
  unfold TrimSuffix. rewrite Hfm, Hfm'. assert (47 ∉ dotFunc ++ ds) as H47.
  { intros [H|H]%elem_of_app; [revert H; apply (bool_decide_unpack (47 ∉ dotFunc)); by vm_compute|]. apply (proj1 (Forall_forall _ _) Hd) in H. by vm_compute in H. }
  by rewrite (afterLast_app _ _ _ H47), stripFuncs_literal.
Qed.

Example receive_names :
  PrettyName (str "github.com/amnezia-vpn/amneziawg-go/conn.(*StdNetBind).makeReceiveIPv4.func1") [] = str "v4" /\
  PrettyName (str "github.com/amnezia-vpn/amneziawg-go/conn.(*StdNetBind).makeReceiveIPv6.func1") [] = str "v6" /\
  PrettyName (str "github.com/amnezia-vpn/amneziawg-go/conn.(*WinRingBind).receiveIPv4-fm") [] = str "v4" /\
  PrettyName (str "main.Bind.func3.func12") [] = str "Bind".
Proof. by vm_compute. Qed.
End RecvNames.
